(* ===== verification/_CoqProject ===== *)
-Q . S2P
Prelude.v
Doubles.v
Environment.v
Interfaces.v
BinHeap.v
ArrayUtil.v
Ubvec.v
Paths.v
SearchSpec.v
WGraph.v
Graph.v
LifeGraph.v
GridGraphs.v
GridSpec.v
AStar.v
AStarSpec.v
ParWhile.v
ParWhileSim.v
Pwsa.v
SimplePwsa.v
PwsaInv.v
PwsaSpec.v
ParWhileSpec.v
Nav2D.v
Nav2DSpec.v
Nav2DEnv.v
Nav2DCalls.v
Nav2DProps.v
WAStarPlanner.v
WAStarSpec.v
WAStarProps.v
EnvGraph.v
PwsaPlanner.v
PwsaPlannerSim.v
PwsaPlannerSpec.v
PwsaPlannerProps.v
Wpanre.v
WpanreSpec.v
SbplList.v
SbplSliding.v
SbplSlidingSpec.v
Keys.v
SbplHeap.v
SbplIntHeap.v
Floats.v
FloatsSpec.v
SbplGrid2D.v
SbplHeapSpec.v
SbplHeapProps.v
AraPlanner.v
AraCore.v
AraSpec.v
AraImprove.v
AraReplan.v
AraStart.v
AraPath.v
AraSearch.v
Nav2DIndexed.v
AraProps.v
SbplGrid2DCore.v
SbplGrid2DSpec.v
SbplGrid2DStates.v
SbplGrid2DHeap.v
SbplGrid2DList.v
SbplGrid2DProps.v
Pase.v
PaseSpec.v
