(* ===== verification/Prelude.v ===== *)
(** * PWSA*: a verification of its searches and of what they stand on

    The repository compares parallel best-first searches for shortest paths on
    maps: PWSA*, whose workers share their frontiers by work stealing; WPANRE,
    one frontier under a lock; PASE, which expands independent vertices in
    parallel; sequential A*.  The same searches exist as planners inside the
    search-based planning library (SBPL) in src/libsbpl, on the library's
    environments, beside the library's anytime planner ARA*.  This development
    models those searches, the data structures and graphs they run on, the
    planners and their grid environment, and proves that they compute what they
    are for.

    ** Parts, sources and files

    The searches of src/src:
    - src/src/shared/search_utils.hpp: [Interfaces] (SearchResult as a class of
      operations, Heap and Graph as classes with their laws); [Locked] is the
      mutex of [Wpanre] and [Pase].
    - src/src/shared/bin_heap.hpp: [BinHeap] (Heap<VALUE>), an instance of
      [Interfaces.HeapOps] and [Interfaces.HeapLaws].
    - src/src/shared/weighted_graph.hpp: [WGraph] (what Graph and LifeGraph
      share: map loading, adjacency, iteration), [Graph], [LifeGraph],
      [GridGraphs] (lawful instances, sample maps), [GridSpec] (properties).
    - src/src/astar.hpp: [AStar], [AStarSpec].
    - src/src/shared/parallel_while.hpp: [ParWhile] (the work-sharing protocol,
      for any loop body), [ParWhileSim] (bodies that simulate each other),
      [ParWhileSpec].
    - src/src/pwsa.hpp: [Pwsa] (pwsa_pc), [SimplePwsa] (pwsa), [PwsaInv],
      [PwsaSpec].
    - src/src/wpanre.hpp: [Wpanre], [WpanreSpec].
    - src/src/pase.hpp: [Pase], [PaseSpec].
    - src/src/old/array_util.hpp: [ArrayUtil].
    SBPL with the repository's planners, in src/libsbpl/src (its copies of
    bin_heap.h and parallel_while.h have the text of src/src/shared):
    - include/sbpl/planners/ubvec.h: [Ubvec], the lock-free vector of states.
    - discrete_space_information/nav2d: [Nav2D] (EnvironmentNAV2D), [Nav2DSpec]
      (reference definitions and lemmas), [Nav2DEnv] (it is a lawful
      [Environment]), [Nav2DCalls] (GetSuccs called by several threads),
      [Nav2DProps], [Nav2DIndexed] (its index of states for a planner).
    - planners/PWSA/pwsaplanner.cpp and pwsaplanner.h: [WAStarPlanner] (the
      sequential planner wAStarPlanner), [WAStarSpec], [WAStarProps];
      [PwsaPlanner] (the concurrent planner pwsaPlanner), [EnvGraph] (the graph
      of the ids an environment gives out), [PwsaPlannerSim] (the planner refines
      [Pwsa] on that graph), [PwsaPlannerSpec], [PwsaPlannerProps].
    - include/sbpl/utils/key.h: [Keys]; utils/heap.cpp: [SbplHeap] (CHeap, over
      a class of keys), [SbplIntHeap] (CIntHeap), [SbplHeapSpec],
      [SbplHeapProps]; utils/list.h: [SbplList] (CList), [SbplSliding]
      (CSlidingBucket), [SbplSlidingSpec].
    - utils/2Dgridsearch.cpp and 2Dgridsearch.h: [SbplGrid2D] (SBPL2DGridSearch,
      every operation that is called), [SbplGrid2DCore] (the invariant of its
      searches, on their values alone), [SbplGrid2DSpec] (the graph of the
      moves), [SbplGrid2DStates] (what the states and the answers say),
      [SbplGrid2DHeap] (search_withheap), [SbplGrid2DList]
      (search_withslidingbuckets), [SbplGrid2DProps].
    - planners/ARAStar/araplanner.cpp and araplanner.h: [AraPlanner] (every
      operation), [AraCore] (the invariant of the search, on its values alone),
      [AraSpec] (the planner's memory represents those values), [AraImprove]
      (ImprovePath), [AraReplan] (between two values of eps), [AraStart] (the
      constructor, start and goal, a new call), [AraPath] (the path),
      [AraSearch] (replan), [AraProps].
    Shared by the searches: [Paths] (walks, the tree of predecessors),
    [SearchSpec] (what a search asks of its caller), [Doubles] and [Floats] with
    [FloatsSpec] (double and float, as IEEE 754 binary64 and binary32),
    [Environment] (the interface
    between planners and environment: successors, heuristics, and for ARA* also
    predecessors and the index of states).

    The layers of a call of ARA* on a grid: [AraPlanner.replan] runs
    [ImprovePath] on OPEN, a [SbplHeap.CHeap] of [Keys.CKey], and INCONS, a
    [SbplList.CList]; both keep back-pointers in the states.  It asks the
    environment through [EnvOps] and [IndexedEnvOps]; [Nav2D] implements them,
    and [Nav2DIndexed] discharges the laws ([SearchEnvLaws]) the theorems about
    the planner assume.

    A call of the 2D grid search: [SbplGrid2D.search] runs the loop of the chosen
    data structure, a [SbplHeap.CHeap] over int keys or a
    [SbplSliding.CSlidingBucket]; both loops relax the same moves
    ([SbplGrid2D.neighbor]) and keep the same invariant ([SbplGrid2DCore.good]),
    so one lemma explains the answers of both.

    ** How the model works

    An operation returns [res]: a value, or the first thing C++ does not define
    or that ends the process ([error]).  An array is a list read and written with
    [aget] and [aset], which fail out of bounds; a heap cell is an option while
    it may be uninitialised.  Integers are Z; additions that can overflow go
    through [add_int] and fail when the result does not fit the type, unsigned
    arithmetic wraps.  State is passed explicitly.

    A concurrent search is a step relation.  A worker has a program point ([pc])
    and one step does one access to shared memory, or one critical section
    where all that is read and written in it is guarded by its lock.  [step]
    lets any worker move, so a theorem about [rtc step] is about every
    interleaving.  [run] executes a schedule; the witnesses use it.  What the
    code draws at random, and spurious failures of compare-and-swap, are choices
    of the step.  The victim of a request for work is what [ParWhile.random_other]
    makes of some random number; with a single worker it fails its assertion, so
    a single worker that runs out of states is [ParWhile.deserted], an outcome
    [PwsaPlanner.replan] has.  Memory is sequentially consistent: the code has
    plain accesses that race (vecs in ubvec.h, g and h of a state elsewhere), and
    the theorems say nothing about what such a race does on real hardware.

    A loop without a structural measure takes fuel.  A theorem about such a
    loop says how much fuel is enough: sequential searches need an iteration for
    every vertex and every arc ([AStarSpec.search_finds_path],
    [WAStarProps.grid_replan_decides]); sifting in a heap needs as many as there
    are entries; quickselect a call for every element.  ARA* has two measures: a
    state is expanded once per value of eps, so ImprovePath and the loops along
    the path need one more than there are ids ([inner]); the loop over eps needs
    as many rounds as eps has values, one round for the first search and one to
    leave ([fuel]; 23 with the default parameters, [AraProps.default_schedule]).
    The 2D grid search closes a state per iteration with a heap
    ([SbplGrid2D.loop_fuel]); with sliding buckets it pops an entry per iteration
    and a closed state makes at most 16 entries ([SbplGrid2D.list_fuel]).  The
    counter of percolations of a heap is an int that is never reset: a theorem
    says how many operations a search needs ([SbplGrid2DHeap.heap_ops]).

    ** What the theorems show

    - Parallel searches: from the start state, whatever the interleaving, no
      step fails ([pwsa_safe], [wpanre_safe], [pase_safe]), the predecessors of
      every reached vertex are a path that its g-value pays for ([pwsa_tree]),
      the flag is set only when the destination is reached ([pwsa_done],
      [wpanre_done], [pase_done]), no vertex is lost ([pwsa_loses_nothing]) or
      expanded twice (the log of the vertices that workers go on to expand has no
      repetition, [pwsa_expands_once]); PASE is optimal with a consistent
      heuristic ([pase_optimal]).
    - Work sharing: mailboxes have one writer ([mailbox_exclusive]), items are
      conserved ([items_conserved]); without work nobody stops
      ([pwsa_unreachable_runs_forever], [starvation]).
    - Sequential A*: it terminates with a path when there is one, with bounded
      suboptimality, and stops with an assertion when there is none
      ([search_finds_path], [search_suboptimal], [search_unreachable]); both map
      pipelines from the file to the length of the path
      ([octile_search_correct], [life_search_optimal]).
    - Graphs: the adjacency built by the loader is the eight-neighborhood of the
      free cells ([Graph_construct_correct], [LifeGraph_construct_correct]).
    - Heaps: [split_correct], [delete_min_correct] for Heap<VALUE>; CHeap
      refines a finite map from states to keys ([heap_refines_map]) and
      makeheap repairs what the unsafe operations break ([makeheap_repairs]).
    - The environment: initialisation, ids and coordinates as inverses,
      successors equal to a reference definition (whose costs ignore the value of
      the cell that is left, [source_value_ignored]), predecessors their converse,
      what every change does and that it keeps the invariant ([InitializeEnv_correct], [ids_roundtrip],
      [GetSuccs_correct], [GetPreds_GetSuccs], [operations_keep]).
    - The sequential planner on it: replan decides whether there is a path and
      returns one with its cost ([grid_replan_decides]); it is not optimal
      ([replan_not_optimal]).
    - The concurrent planner: its runs are runs of PWSA* on a graph
      ([planner_refines_pwsa]), so no step fails ([planner_safe]) and on a grid of
      at most 1883 cells the only answer it can give is a path with its cost; it
      may also fail an assertion, overflow a counter of steps, or never return
      ([grid_concurrent_replan]).
    - The list of states refines a sequence without repetition
      ([list_refines_sequence]).
    - The 2D grid search: sliding buckets refine a queue per priority
      ([sliding_refines_queue]); with a consistent heuristic (cells of a metre
      have one) and either data structure the search ends and
      leaves bounds below the cost of every way, exact for all cells when they
      are asked for and the goal is not the start ([grid_heap_search_correct], [grid_buckets_search_correct],
      [new_metre_search] from the constructor on), so both give the same answers
      ([open_structures_agree]); a search for a path is optimal for its goal
      ([path_search_optimal]).
    - ARA*: replan over any lawful environment, forwards or backwards,
      terminates without an error when a new search has time left at the first
      reading of the clock (without it, [ara_expired_throws]); it returns a path,
      or 0 only when there is none or the time is over, and leaves the planner
      ready for the next call ([ara_replan_correct]).  The cost is within any
      factor up to which the truncated products (int)(eps * h) of the reported
      eps are consistent, and least when that eps is 1 and the heuristic is
      consistent.  With its default parameters on a grid eps goes from 5 to 1 in
      steps of 0.2, up to rounding ([grid_ara_replan]).
    - Places where the code does not do what it means to are theorems as well:
      [simple_pwsa_breaks_path], [pwsa_assertion_fails],
      [LifeGraph_weight_between_reversed], [weight_between_two_apart],
      [unknown_character_aliases], [heuristic_overestimates], [no_room_heap],
      [ara_expired_throws], [ara_new_goal_throws],
      [fractional_cells_overestimate], [window_too_small],
      [back_to_heap_crashes], [allcells_from_goal_zero].

    ** Not modelled

    The scheduler and containers of pasl and the PBNF framework (vendored); the
    other planners of SBPL (incremental AD*, ANA*, R*, VI, lazy and parallel
    ARA* variants) and its other environments (lattices and arms,
    whose motion primitives are floating point read from files); search_exp and
    search_withbuckets of the 2D grid search with the CBucket of utils/list.h,
    which nothing calls; printing, timing and the drivers; memory
    deallocation; the copies of the program in src/pwsa_project and src/xytheta.
    The grid environment keeps the contract of ARA* only for forward search:
    GetPreds drops sources that are obstacles when the target lies near the
    border, and keeps moves out of the goal, while GetSuccs does the opposite,
    so the predecessors are not the converse of the successors everywhere.  *)

From stdpp Require Export base tactics numbers list relations gmap strings.
From Stdlib Require Export ZArith Lia.

#[global] Open Scope Z_scope.

(** ** Errors and the result monad

    A C++ operation either yields a value or stops at the first thing the
    language does not define (or that ends the process). *)

Inductive error :=
  | AssertFailed     (** an [assert] whose condition is false *)
  | OutOfBounds      (** an array access outside the allocation *)
  | Uninitialised    (** a read of memory that was never written *)
  | SignedOverflow   (** a signed addition whose result does not fit *)
  | OutOfFuel        (** the model's loop bound is exhausted *)
  | BadConversion    (** a double converted to an integer type it does not fit *)
  | Exited           (** [std::exit (EXIT_FAILURE)] *)
  | Thrown.          (** an exception nobody catches *)

Inductive res (A : Type) :=
  | Ok (a : A)
  | Err (e : error).
Arguments Ok {A} a.
Arguments Err {A} e.

#[export] Instance error_eq_dec : EqDecision error.
Proof. solve_decision. Defined.

#[export] Instance res_eq_dec `{EqDecision A} : EqDecision (res A).
Proof. solve_decision. Defined.

#[export] Instance res_ret : MRet res := fun A a => Ok a.
#[export] Instance res_bind : MBind res := fun A B f m =>
  match m with Ok a => f a | Err e => Err e end.

(** [assert (b)] of <cassert>, in a build without NDEBUG. *)
Definition assert_ (b : bool) : res unit := if b then Ok () else Err AssertFailed.

Lemma bind_Ok {A B} (m : res A) (f : A -> res B) b :
  (m ≫= f) = Ok b <-> exists a, m = Ok a /\ f a = Ok b.
Proof.
  destruct m as [a|e]; cbn; split.
  - intros H; exists a; auto.
  - intros (a' & [= <-] & H); exact H.
  - discriminate.
  - intros (a' & H & _); discriminate.
Qed.

Lemma bind_Err {A B} (m : res A) (f : A -> res B) e :
  (m ≫= f) = Err e <-> m = Err e \/ exists a, m = Ok a /\ f a = Err e.
Proof.
  destruct m as [a|e']; cbn; split.
  - intros H; right; exists a; auto.
  - intros [H|(a' & [= <-] & H)]; [discriminate|exact H].
  - intros [= ->]; left; reflexivity.
  - intros [[= ->]|(a' & H & _)]; [reflexivity|discriminate].
Qed.

Lemma bind_ok_l {A B} (a : A) (f : A -> res B) : (Ok a ≫= f) = f a.
Proof. reflexivity. Qed.

Lemma bind_err_l {A B} e (f : A -> res B) : (Err e ≫= f) = Err e.
Proof. reflexivity. Qed.

Create HintDb res discriminated.
Create Rewrite HintDb res.
#[export] Hint Rewrite @bind_ok_l @bind_err_l : res.

Definition is_ok {A} (m : res A) : bool := match m with Ok _ => true | Err _ => false end.

Lemma is_ok_true {A} (m : res A) : is_ok m = true <-> exists a, m = Ok a.
Proof. destruct m; cbn; split; eauto; [discriminate|intros [? [=]]]. Qed.

(** Decompose every [m ≫= f = Ok b] among the hypotheses. *)
Ltac inv_res :=
  repeat match goal with
  | H : (_ ≫= _) = Ok _ |- _ =>
      apply bind_Ok in H; let a := fresh "x" in let E := fresh "E" in
      destruct H as (a & E & H)
  | H : Ok _ = Ok _ |- _ => injection H as H; subst
  | H : mret _ = Ok _ |- _ => injection H as H; subst
  | H : Err _ = Ok _ |- _ => discriminate H
  | H : Ok _ = Err _ |- _ => discriminate H
  end.

(** Run one successful operation at the head of a [res] computation. *)
Ltac run_res H := rewrite H; rewrite ?bind_ok_l.

(** Membership in a list of numbers that evaluates. *)
Ltac by_vm_in := apply (bool_decide_unpack _); vm_compute; exact I.

(** Linear arithmetic with divisions by constants. *)
Ltac lia_div := Z.to_euclidean_division_equations; lia.

(** ** Monadic loops over a list *)

Fixpoint foldM {A B} (f : B -> A -> res B) (b : B) (l : list A) : res B :=
  match l with
  | [] => Ok b
  | x :: l' => b' ← f b x; foldM f b' l'
  end.

Lemma foldM_app {A B} (f : B -> A -> res B) b l1 l2 :
  foldM f b (l1 ++ l2) = (b' ← foldM f b l1; foldM f b' l2).
Proof.
  revert b; induction l1 as [|x l1 IH]; intros b; cbn; [reflexivity|].
  destruct (f b x); cbn; [apply IH|reflexivity].
Qed.

(** The loop rule: an invariant of the processed prefix that every iteration
    re-establishes (and under which it cannot fail) holds at the end. *)
Lemma foldM_inv {A B} (f : B -> A -> res B) (P : list A -> B -> Prop) (l : list A) b :
  P [] b ->
  (forall done x todo b, l = done ++ x :: todo -> P done b ->
     exists b', f b x = Ok b' /\ P (done ++ [x]) b') ->
  exists b', foldM f b l = Ok b' /\ P l b'.
Proof.
  intros H0 Hstep.
  cut (forall todo done b, l = done ++ todo -> P done b ->
         exists b', foldM f b todo = Ok b' /\ P l b').
  { intros H. apply (H l [] b); auto. }
  induction todo as [|x todo IH]; intros done b0 Hl HP; cbn.
  - rewrite app_nil_r in Hl; subst; eauto.
  - destruct (Hstep done x todo b0 Hl HP) as (b1 & E & HP1).
    run_res E. apply (IH (done ++ [x])); [|exact HP1].
    rewrite <-(assoc_L (++)); exact Hl.
Qed.

(** The same rule for partial correctness: what a loop that returned kept. *)
Lemma foldM_Ok_inv {A B} (f : B -> A -> res B) (P : B -> Prop) (l : list A) b b' :
  P b ->
  (forall x b b', x ∈ l -> P b -> f b x = Ok b' -> P b') ->
  foldM f b l = Ok b' -> P b'.
Proof.
  revert b; induction l as [|x l IH]; intros b HP Hstep H; cbn in H; inv_res; auto.
  apply (IH x0); auto.
  - eapply Hstep; [left|exact HP|exact E].
  - intros y c c' Hin; apply Hstep; right; exact Hin.
Qed.

(** ** Integer ranges *)

Lemma seqZ_one k : seqZ k 1 = [k].
Proof. unfold seqZ; cbn. f_equal; lia. Qed.

(** ** Arrays indexed by C++ integers *)

Definition aget {A} (l : list A) (i : Z) : res A :=
  if 0 <=? i then
    match l !! Z.to_nat i with Some a => Ok a | None => Err OutOfBounds end
  else Err OutOfBounds.

Definition aset {A} (l : list A) (i : Z) (a : A) : res (list A) :=
  if (0 <=? i) && (i <? Z.of_nat (length l)) then Ok (<[Z.to_nat i := a]> l)
  else Err OutOfBounds.

Lemma aget_Ok {A} (l : list A) i a :
  aget l i = Ok a <-> 0 <= i /\ l !! Z.to_nat i = Some a.
Proof.
  unfold aget; destruct (Z.leb_spec 0 i); split.
  - destruct (l !! Z.to_nat i); [intros [= ->]; auto|discriminate].
  - intros [_ ->]; reflexivity.
  - discriminate.
  - intros [? _]; lia.
Qed.

Lemma aget_bounds {A} (l : list A) i a : aget l i = Ok a -> 0 <= i < Z.of_nat (length l).
Proof. intros [? H%lookup_lt_Some]%aget_Ok; lia. Qed.

Lemma aget_in {A} (l : list A) i :
  0 <= i < Z.of_nat (length l) -> exists a, aget l i = Ok a.
Proof.
  intros H. destruct (lookup_lt_is_Some_2 l (Z.to_nat i)) as [a Ha]; [lia|].
  exists a. apply aget_Ok; split; [lia|exact Ha].
Qed.

Lemma aset_in {A} (l : list A) i a :
  0 <= i < Z.of_nat (length l) -> aset l i a = Ok (<[Z.to_nat i := a]> l).
Proof.
  intros H; unfold aset.
  destruct (Z.leb_spec 0 i), (Z.ltb_spec i (Z.of_nat (length l))); cbn; (reflexivity || lia).
Qed.

Lemma aset_Ok {A} (l : list A) i a l' :
  aset l i a = Ok l' <-> 0 <= i < Z.of_nat (length l) /\ l' = <[Z.to_nat i := a]> l.
Proof.
  unfold aset.
  destruct (Z.leb_spec 0 i), (Z.ltb_spec i (Z.of_nat (length l))); cbn; split; intros H1;
    try discriminate; try (destruct H1; lia).
  - injection H1 as <-; auto.
  - destruct H1 as [_ ->]; reflexivity.
Qed.

#[export] Hint Resolve aget_bounds : res.

Lemma aget_insert {A} (l : list A) i j a :
  0 <= i < Z.of_nat (length l) ->
  aget (<[Z.to_nat i := a]> l) j = if decide (j = i) then Ok a else aget l j.
Proof.
  intros Hi; unfold aget; destruct (Z.leb_spec 0 j) as [Hj|Hj].
  - case_decide as E.
    + subst; rewrite list_lookup_insert_eq; [reflexivity|lia].
    + rewrite list_lookup_insert_ne; [reflexivity|lia].
  - case_decide; [lia|reflexivity].
Qed.

Lemma aget_app_l {A} (l k : list A) i :
  i < Z.of_nat (length l) -> aget (l ++ k) i = aget l i.
Proof.
  intros Hi; unfold aget; destruct (Z.leb_spec 0 i); [|reflexivity].
  rewrite lookup_app_l; [reflexivity|lia].
Qed.

Lemma aget_fmap {A B} (f : A -> B) (l : list A) i :
  aget (f <$> l) i = (a ← aget l i; Ok (f a)).
Proof.
  unfold aget; destruct (0 <=? i); [|reflexivity].
  rewrite list_lookup_fmap; destruct (l !! Z.to_nat i); reflexivity.
Qed.

(** Memory that was allocated but perhaps not written: a read [a[i]] that uses
    the value. *)
Definition read_cell {A} (l : list (option A)) (i : Z) : res A :=
  c ← aget l i;
  match c with Some a => Ok a | None => Err Uninitialised end.

Lemma read_cell_Ok {A} (l : list (option A)) i a :
  read_cell l i = Ok a <-> aget l i = Ok (Some a).
Proof.
  unfold read_cell. destruct (aget l i) as [[x|]|e]; cbn; split; congruence.
Qed.

(** A total view of one field of an array of records: [d] outside the array. *)
Definition aview {A B} (f : A -> B) (d : B) (l : list A) (i : Z) : B :=
  match aget l i with Ok a => f a | Err _ => d end.

Lemma aview_get {A B} (f : A -> B) d (l : list A) i a :
  aget l i = Ok a -> aview f d l i = f a.
Proof. unfold aview; intros ->; reflexivity. Qed.

Lemma aview_insert {A B} (f : A -> B) d (l : list A) i a j :
  0 <= i < Z.of_nat (length l) ->
  aview f d (<[Z.to_nat i := a]> l) j = if decide (j = i) then f a else aview f d l j.
Proof.
  intros Hi; unfold aview; rewrite aget_insert by exact Hi; case_decide; reflexivity.
Qed.

Lemma aview_replicate {A B} (f : A -> B) n a i : aview f (f a) (replicate n a) i = f a.
Proof.
  unfold aview, aget. destruct (0 <=? i); [|reflexivity].
  destruct (replicate n a !! Z.to_nat i) as [b|] eqn:E; [|reflexivity]. apply lookup_replicate in E as [-> _]. reflexivity.
Qed.

(** Reversing an array in place: swap each cell of the first half with its
    mirror image. *)
Definition reverse_step {A} (l : list A) (i : Z) : res (list A) :=
  let other := Z.of_nat (length l) - i - 1 in
  a ← aget l i; b ← aget l other;
  l ← aset l i b; aset l other a.

Definition reverse_in_place {A} (l : list A) : res (list A) :=
  foldM reverse_step l (seqZ 0 (Z.of_nat (length l) / 2)).

Lemma reverse_in_place_rev {A} (l : list A) : reverse_in_place l = Ok (reverse l).
Proof.
  unfold reverse_in_place. set (n := Z.of_nat (length l)).
  destruct (foldM_inv reverse_step (fun done l' => length l' = length l /\ forall k, 0 <= k < n ->
      aget l' k = if bool_decide (k < Z.of_nat (length done) \/ n - Z.of_nat (length done) <= k)
                  then aget l (n - 1 - k) else aget l k) (seqZ 0 (n / 2)) l) as (l' & E & Hlen & H).
  - split; [reflexivity|]. intros k Hk. rewrite bool_decide_eq_false_2; [reflexivity|]. cbn. lia.
  - intros done i todo l1 Hs [Hlen H].
    assert (Hi : i = Z.of_nat (length done)).
    { pose proof (f_equal (fun s => s !! length done) Hs) as Hl. cbn in Hl. rewrite list_lookup_middle in Hl by reflexivity.
      apply lookup_seqZ in Hl. lia. }
    assert (Hd : Z.of_nat (length done) < n / 2).
    { apply (f_equal length) in Hs. rewrite length_seqZ, length_app in Hs. cbn in Hs. lia. }
    assert (Hn : 2 * (n / 2) <= n) by (apply Z.mul_div_le; lia).
    unfold reverse_step. rewrite Hlen. fold n.
    destruct (aget_in l1 i) as [a Ea]; [lia|]. destruct (aget_in l1 (n - i - 1)) as [b Eb]; [lia|].
    rewrite Ea, Eb, !bind_ok_l, aset_in, bind_ok_l, aset_in by (rewrite ?length_insert; lia).
    eexists. split; [reflexivity|]. split; [rewrite !length_insert; exact Hlen|].
    intros k Hk. rewrite !aget_insert by (rewrite ?length_insert; lia). rewrite length_app. cbn [length].
    rewrite (H i) in Ea by lia. rewrite (H (n - i - 1)) in Eb by lia.
    rewrite bool_decide_eq_false_2 in Ea by lia. rewrite bool_decide_eq_false_2 in Eb by lia.
    destruct (decide (k = n - i - 1)) as [->|H1]; [|destruct (decide (k = i)) as [->|H2]].
    + rewrite bool_decide_eq_true_2 by lia. rewrite <- Ea. f_equal. lia.
    + rewrite bool_decide_eq_true_2 by lia. rewrite <- Eb. f_equal. lia.
    + rewrite (H k Hk). erewrite bool_decide_ext; [reflexivity|]. lia.
  - rewrite E. f_equal. apply list_eq. intros j.
    destruct (decide (j < length l)%nat) as [Hj|Hj].
    + pose proof (H (Z.of_nat j) ltac:(lia)) as Hk. rewrite length_seqZ in Hk.
      assert (Hr : aget l' (Z.of_nat j) = aget l (n - 1 - Z.of_nat j)).
      { rewrite Hk. case_bool_decide as Hb; [reflexivity|]. f_equal.
        pose proof (Z.div_mod n 2 ltac:(lia)). pose proof (Z.mod_pos_bound n 2 ltac:(lia)). lia. }
      destruct (aget_in l (n - 1 - Z.of_nat j)) as [a Ea]; [lia|]. rewrite Ea in Hr.
      apply aget_Ok in Hr as [_ Hr]. rewrite Nat2Z.id in Hr. rewrite Hr.
      apply aget_Ok in Ea as [_ Ea]. symmetry. rewrite reverse_lookup by lia.
      replace (length l - S j)%nat with (Z.to_nat (n - 1 - Z.of_nat j)) by lia. exact Ea.
    + rewrite !lookup_ge_None_2; [reflexivity|rewrite length_reverse; lia|lia].
Qed.

(** ** Tables with one cell per index *)

Definition upd {A} (f : Z -> A) (i : Z) (a : A) (j : Z) : A := if decide (j = i) then a else f j.

Lemma upd_eq {A} (f : Z -> A) i a : upd f i a i = a.
Proof. unfold upd; rewrite decide_True; reflexivity. Qed.

Lemma upd_ne {A} (f : Z -> A) i a j : j <> i -> upd f i a j = f j.
Proof. unfold upd; intros; rewrite decide_False; auto. Qed.

(** ** C++ signed integer types, at their width *)

Record int_type := IntType { int_max : Z }.
Definition int_min (ty : int_type) : Z := - int_max ty - 1.
Definition int32 : int_type := IntType 2147483647.
Definition int64 : int_type := IntType 9223372036854775807.
Definition INT_MAX : Z := int_max int32.
Definition LONG_MAX : Z := int_max int64.

Definition in_int (ty : int_type) (z : Z) : bool := (int_min ty <=? z) && (z <=? int_max ty).

(** Signed addition: undefined when the exact sum does not fit. *)
Definition add_int (ty : int_type) (a b : Z) : res Z :=
  if in_int ty (a + b) then Ok (a + b) else Err SignedOverflow.

Lemma in_int_true ty z : in_int ty z = true <-> int_min ty <= z <= int_max ty.
Proof. unfold in_int. rewrite andb_true_iff, !Z.leb_le. reflexivity. Qed.

Lemma add_int_Ok ty a b c :
  add_int ty a b = Ok c <-> c = a + b /\ int_min ty <= a + b <= int_max ty.
Proof.
  unfold add_int; destruct (in_int ty (a + b)) eqn:E; split.
  - intros [= <-]; split; [reflexivity|]; apply in_int_true; exact E.
  - intros [-> _]; reflexivity.
  - discriminate.
  - intros [_ H%in_int_true]; congruence.
Qed.

Lemma add_int_in ty a b :
  int_min ty <= a + b <= int_max ty -> add_int ty a b = Ok (a + b).
Proof. intros H; apply add_int_Ok; auto. Qed.

(** Signed multiplication. *)
Definition mul_int (ty : int_type) (a b : Z) : res Z :=
  if in_int ty (a * b) then Ok (a * b) else Err SignedOverflow.

Lemma mul_int_in ty a b :
  int_min ty <= a * b <= int_max ty -> mul_int ty a b = Ok (a * b).
Proof. intros H; unfold mul_int; rewrite (proj2 (in_int_true _ _) H); reflexivity. Qed.

(** Conversions between [int] and [unsigned int]. *)
Definition to_uint (z : Z) : Z := z mod 2 ^ 32.
Definition to_sint (z : Z) : Z := if to_uint z <=? int_max int32 then to_uint z else to_uint z - 2 ^ 32.

Lemma to_uint_id z : 0 <= z < 2 ^ 32 -> to_uint z = z.
Proof. apply Z.mod_small. Qed.

Lemma to_sint_id z : 0 <= z <= int_max int32 -> to_sint z = z.
Proof.
  intros H. unfold to_sint. rewrite to_uint_id by (unfold int32 in H; cbn [int_max] in H; lia).
  rewrite (proj2 (Z.leb_le _ _)); lia.
Qed.

(** Duplicate-free lists of vertex numbers are no longer than the range. *)
Lemma NoDup_range_length (l : list Z) n :
  NoDup l -> (forall x, x ∈ l -> 0 <= x < n) -> Z.of_nat (length l) <= Z.max 0 n.
Proof.
  intros Hnd Hr. assert (l ⊆+ seqZ 0 n) as H%submseteq_length.
  { apply NoDup_submseteq; [exact Hnd|]. intros x Hx; apply elem_of_seqZ; specialize (Hr x Hx); lia. }
  rewrite length_seqZ in H. lia.
Qed.

(** ** Sums over integer ranges *)

Fixpoint sumZ (f : Z -> Z) (l : list Z) : Z :=
  match l with [] => 0 | x :: l' => f x + sumZ f l' end.

Lemma sumZ_app f l1 l2 : sumZ f (l1 ++ l2) = sumZ f l1 + sumZ f l2.
Proof. induction l1 as [|x l1 IH]; cbn; lia. Qed.

Lemma sumZ_nonneg f l : (forall x, x ∈ l -> 0 <= f x) -> 0 <= sumZ f l.
Proof.
  induction l as [|x l IH]; intros H; cbn; [lia|].
  assert (0 <= f x) by (apply H; left).
  assert (0 <= sumZ f l) by (apply IH; intros y Hy; apply H; right; exact Hy). lia.
Qed.

Lemma sumZ_le f g l : (forall x, x ∈ l -> f x <= g x) -> sumZ f l <= sumZ g l.
Proof.
  induction l as [|x l IH]; intros H; cbn; [lia|].
  assert (f x <= g x) by (apply H; left).
  assert (sumZ f l <= sumZ g l) by (apply IH; intros y Hy; apply H; right; exact Hy). lia.
Qed.

Lemma sumZ_ext f g l : (forall x, x ∈ l -> f x = g x) -> sumZ f l = sumZ g l.
Proof. intros H. apply Z.le_antisymm; apply sumZ_le; intros x Hx; rewrite H; auto; lia. Qed.

Lemma sumZ_const k l : sumZ (fun _ => k) l = k * Z.of_nat (length l).
Proof. induction l as [|x l IH]; cbn [sumZ length]; lia. Qed.

(** Changing the summand at one index of a duplicate-free range changes the
    sum by the difference there. *)
Lemma sumZ_update f g l v :
  NoDup l -> v ∈ l -> (forall x, x <> v -> f x = g x) ->
  sumZ g l = sumZ f l - f v + g v.
Proof.
  intros Hnd Hv Hfg; induction Hnd as [|x l Hx Hnd IH].
  - inversion Hv.
  - cbn. apply elem_of_cons in Hv as [->|Hv].
    + rewrite (sumZ_ext f g l); [lia|].
      intros y Hy; apply Hfg; intros ->; contradiction.
    + rewrite (Hfg x); [rewrite IH by exact Hv; lia|].
      intros ->; contradiction.
Qed.

(** ** Reachability and invariants of a transition relation *)

Lemma rtc_invariant {A} (R : relation A) (I : A -> Prop) x y :
  (forall a b, I a -> R a b -> I b) -> rtc R x y -> I x -> I y.
Proof. intros Hstep Hr; induction Hr as [a|a b c Hab _ IH]; eauto. Qed.
