(* ===== verification/Doubles.v ===== *)
(** * Double-precision arithmetic

    The type double of the planners, as the binary64 numbers of the Standard
    Library's executable IEEE 754 specification; conversions from and to
    integers as C++ defines them. *)

From Stdlib Require Import Floats.SpecFloat.
From S2P Require Import Prelude.

Module Doubles.
Definition double : Type := spec_float.

(** [(double) z], rounded to nearest even. *)
Definition of_int (z : Z) : double := binary_normalize 53 1024 z 0 false.

Definition add (x y : double) : double := SFadd 53 1024 x y.
Definition sub (x y : double) : double := SFsub 53 1024 x y.
Definition mul (x y : double) : double := SFmul 53 1024 x y.
Definition div (x y : double) : double := SFdiv 53 1024 x y.
Definition sqrt (x : double) : double := SFsqrt 53 1024 x.

(** [x < y]: false when either is not a number. *)
Definition ltb (x y : double) : bool := SFltb x y.

(** [x == y] and [fabs (x)] *)
Definition eqb (x y : double) : bool := SFeqb x y.
Definition fabs (x : double) : double := SFabs x.

(** A decimal literal with a power of ten below the point: the double nearest
    to [num / den]. *)
Definition literal (num den : Z) : double := div (of_int num) (of_int den).

(** The integer part, towards zero; none for infinities and NaN. *)
Definition trunc (x : double) : option Z :=
  match x with
  | S754_zero _ => Some 0
  | S754_finite s m e =>
      let a := if 0 <=? e then Zpos m * 2 ^ e else Zpos m / 2 ^ (- e) in
      Some (if s then - a else a)
  | _ => None
  end.

(** [ceil (x)], as an integer. *)
Definition ceil (x : double) : option Z :=
  match x with
  | S754_zero _ => Some 0
  | S754_finite s m e =>
      let v := if s then Zneg m else Zpos m in
      Some (if 0 <=? e then v * 2 ^ e else - (- v / 2 ^ (- e)))
  | _ => None
  end.

(** The conversion of an integer part to an integer type; undefined when it
    does not fit. *)
Definition to_type (ty : int_type) (z : option Z) : res Z :=
  match z with
  | Some z => if in_int ty z then Ok z else Err BadConversion
  | None => Err BadConversion
  end.

(** [(int) x] and [(long) x]. *)
Definition to_int (x : double) : res Z := to_type int32 (trunc x).
Definition to_long (x : double) : res Z := to_type int64 (trunc x).

Lemma to_type_Ok ty z k : to_type ty z = Ok k <-> z = Some k /\ int_min ty <= k <= int_max ty.
Proof.
  unfold to_type. destruct z as [z|]; [|split; [discriminate|intros [? _]; discriminate]].
  destruct (in_int ty z) eqn:E; split.
  - intros [= <-]. split; [reflexivity|apply in_int_true; exact E].
  - intros [[= ->] _]. reflexivity.
  - discriminate.
  - intros [[= ->] H%in_int_true]. congruence.
Qed.

(** ** Magnitudes

    No operation on non-negative doubles takes the result past a power of two
    that bounds the exact result: rounding keeps it, and it does not overflow. *)

(** [m * 2^e <= 2^k] *)
Definition fits (m e k : Z) : Prop := m <= 0 \/ (e <= k /\ m <= 2 ^ (k - e)).

(** [x] is a number between 0 and 2^k. *)
Definition upto (k : Z) (x : double) : Prop :=
  match x with
  | S754_zero _ => True
  | S754_finite false m e => fits (Zpos m) e k
  | _ => False
  end.

Lemma digits_log2 p : Zpos (digits2_pos p) = Z.log2 (Zpos p) + 1.
Proof.
  induction p as [p IH|p IH|]; cbn [digits2_pos]; [| |reflexivity];
    rewrite Pos2Z.inj_succ, IH.
  - rewrite (Pos2Z.inj_xI p), Z.log2_succ_double by lia. lia.
  - rewrite (Pos2Z.inj_xO p), Z.log2_double by lia. lia.
Qed.

(** What the mantissa becomes if it is rounded up. *)
Definition top (r : shr_record) : Z := shr_m r + (if shr_r r || shr_s r then 1 else 0).

Lemma shr_1_top r b : 0 <= shr_m r -> top r <= b * 2 -> 0 <= shr_m (shr_1 r) /\ top (shr_1 r) <= b.
Proof.
  destruct r as [m r s]. unfold top. cbn. intros Hm H.
  destruct m as [|[p|p|]|p]; cbn in *; try lia; destruct r, s; cbn in *; lia.
Qed.

Lemma iter_shr_top p r b : 0 <= shr_m r -> top r <= b * 2 ^ Zpos p ->
  0 <= shr_m (SpecFloat.iter_pos shr_1 p r) /\ top (SpecFloat.iter_pos shr_1 p r) <= b.
Proof.
  revert r b. induction p as [p IH|p IH|]; intros r b Hm H; cbn [SpecFloat.iter_pos].
  - replace (Zpos p~1) with (1 + (Zpos p + Zpos p)) in H by lia. rewrite !Z.pow_add_r in H by lia.
    destruct (shr_1_top r (b * (2 ^ Zpos p * 2 ^ Zpos p)) Hm) as [H1 H2]; [lia|].
    destruct (IH _ (b * 2 ^ Zpos p) H1) as [H3 H4]; [lia|]. apply IH; lia.
  - replace (Zpos p~0) with (Zpos p + Zpos p) in H by lia.
    rewrite Z.pow_add_r in H by lia.
    destruct (IH _ (b * 2 ^ Zpos p) Hm) as [H3 H4]; [lia|]. apply IH; lia.
  - apply shr_1_top; [exact Hm|]. change (2 ^ 1) with 2 in H. exact H.
Qed.

Lemma log2_fits m e k : 0 < m -> fits m e k -> Z.log2 m + e <= k.
Proof.
  intros Hm [?|[He H]]; [lia|]. apply Z.log2_le_mono in H. rewrite Z.log2_pow2 in H by lia. lia.
Qed.

Lemma shr_fexp_top m e l k r e' : 0 <= m -> 0 <= k -> fits (top (shr_record_of_loc m l)) e k ->
  (m = 0 -> l = loc_Exact) ->
  shr_fexp 53 1024 m e l = (r, e') -> 0 <= shr_m r /\ fits (top r) e' k.
Proof.
  intros Hm Hk Hf Hl. unfold shr_fexp, shr.
  assert (Hm' : shr_m (shr_record_of_loc m l) = m) by (destruct l as [|[]]; reflexivity).
  assert (Htop : m <= top (shr_record_of_loc m l)).
  { unfold top. rewrite Hm'. destruct (_ || _); lia. }
  destruct (fexp 53 1024 (Zdigits2 m + e) - e) as [|n|n] eqn:En; intros [= <- <-]; [rewrite Hm'; auto| |rewrite Hm'; auto].
  destruct (Z.eq_dec m 0) as [->|Hne].
  { rewrite (Hl eq_refl) in *. destruct (iter_shr_top n (shr_record_of_loc 0 loc_Exact) 0) as [H1 H2]; [reflexivity|rewrite Z.mul_0_l; reflexivity|].
    split; [exact H1|]. left. lia. }
  assert (Hd : Zdigits2 m = Z.log2 m + 1) by (destruct m as [|p|p]; [lia|apply digits_log2|lia]).
  assert (Hfm : fits m e k) by (destruct Hf as [?|[? ?]]; [left; lia|right; lia]).
  pose proof (log2_fits m e k ltac:(lia) Hfm) as Hlog. rewrite Hd in En.
  assert (He' : e + Zpos n <= k) by (unfold fexp, emin in En; lia).
  destruct Hf as [?|[He Hf]]; [lia|].
  destruct (iter_shr_top n (shr_record_of_loc m l) (2 ^ (k - (e + Zpos n)))) as [H1 H2]; [rewrite Hm'; exact Hm| |].
  - rewrite <- Z.pow_add_r by lia. replace (k - (e + Zpos n) + Zpos n) with (k - e) by lia. exact Hf.
  - split; [exact H1|]. right. split; [exact He'|exact H2].
Qed.

Lemma round_top r : round_nearest_even (shr_m r) (loc_of_shr_record r) <= top r /\
  (0 <= shr_m r -> 0 <= round_nearest_even (shr_m r) (loc_of_shr_record r)).
Proof. destruct r as [m [] []]; unfold top; cbn; try destruct (Z.even m); lia. Qed.

Lemma round_aux_upto m e l k : 0 <= m -> 0 <= k <= 900 -> fits (top (shr_record_of_loc m l)) e k ->
  (m = 0 -> l = loc_Exact) -> upto k (binary_round_aux 53 1024 false m e l).
Proof.
  intros Hm Hk Hf Hl. unfold binary_round_aux.
  destruct (shr_fexp 53 1024 m e l) as [r e'] eqn:E1.
  destruct (shr_fexp_top m e l k r e' Hm ltac:(lia) Hf Hl E1) as [H1 F1].
  destruct (round_top r) as [Hr1 Hr2]. specialize (Hr2 H1).
  set (m' := round_nearest_even _ _) in *.
  destruct (shr_fexp 53 1024 m' e' loc_Exact) as [r2 e2] eqn:E2.
  assert (F1' : fits (top (shr_record_of_loc m' loc_Exact)) e' k).
  { unfold top. cbn. destruct F1 as [?|[? ?]]; [left; lia|right; split; lia]. }
  destruct (shr_fexp_top m' e' loc_Exact k r2 e2 Hr2 ltac:(lia) F1' (fun _ => eq_refl) E2) as [H2 F2].
  destruct (shr_m r2) as [|p|p] eqn:Ep; [exact I| |lia].
  assert (F3 : fits (Zpos p) e2 k).
  { unfold top in F2. rewrite Ep in F2. destruct F2 as [F2|[? F2]]; destruct (_ || _); [left|left|right|right]; lia. }
  assert (e2 <= k) by (destruct F3; lia).
  rewrite (proj2 (Z.leb_le e2 (1024 - 53))) by lia. exact F3.
Qed.

Lemma iter_xO p d : Zpos (Pos.iter xO p d) = Zpos p * 2 ^ Zpos d.
Proof.
  induction d as [|d IH] using Pos.peano_ind; [cbn; lia|].
  rewrite Pos.iter_succ, Pos2Z.inj_xO, IH, Pos2Z.inj_succ, Z.pow_succ_r by lia. lia.
Qed.

Lemma shl_align_fits p e e' k mz ez : shl_align p e e' = (mz, ez) -> fits (Zpos p) e k -> fits (Zpos mz) ez k.
Proof.
  unfold shl_align. intros E [?|[He H]]; [lia|].
  destruct (e' - e) as [|d|d] eqn:Ed; injection E as <- <-; [right; auto|right; auto|].
  right. split; [lia|].
  rewrite iter_xO. replace (k - e') with (k - e + Zpos d) by lia. rewrite Z.pow_add_r by lia. nia.
Qed.

Lemma normalize_upto m e k : 0 <= m -> 0 <= k <= 900 -> fits m e k ->
  upto k (binary_normalize 53 1024 m e false).
Proof.
  intros Hm Hk Hf. destruct m as [|p|p]; [exact I| |lia]. cbn [binary_normalize]. unfold binary_round.
  destruct (shl_align _ _ _) as [mz ez] eqn:E.
  apply round_aux_upto; [lia|exact Hk| |lia]. unfold top. cbn. rewrite Z.add_0_r.
  exact (shl_align_fits _ _ _ _ _ _ E Hf).
Qed.

Lemma of_int_upto z k : 0 <= k <= 900 -> 0 <= z <= 2 ^ k -> upto k (of_int z).
Proof.
  intros Hk Hz. apply normalize_upto; [lia|exact Hk|]. right. rewrite Z.sub_0_r. lia.
Qed.

Lemma upto_mono j k x : j <= k -> upto j x -> upto k x.
Proof.
  intros Hj. destruct x as [|[]| |[] m e]; cbn; auto. intros [?|[He H]]; [left; lia|]. right. split; [lia|].
  etransitivity; [exact H|]. apply Z.pow_le_mono_r; lia.
Qed.

Lemma mul_upto j k x y : 0 <= j + k <= 900 -> upto j x -> upto k y -> upto (j + k) (mul x y).
Proof.
  intros Hk. unfold mul. destruct x as [sx|[]| |[] mx ex], y as [sy|[]| |[] my ey]; cbn [upto]; try tauto; try (intros; exact I).
  intros [?|[Hx Fx]] [?|[Hy Fy]]; try lia. cbn [SFmul xorb].
  apply round_aux_upto; [lia|exact Hk| |lia]. unfold top. cbn. right. split; [lia|].
  rewrite Z.add_0_r, Pos2Z.inj_mul. replace (j + k - (ex + ey)) with (j - ex + (k - ey)) by lia.
  rewrite Z.pow_add_r by lia. apply Z.mul_le_mono_nonneg; lia.
Qed.

Lemma add_upto k x y : 0 <= k <= 899 -> upto k x -> upto k y -> upto (k + 1) (add x y).
Proof.
  intros Hk Hx Hy. unfold add.
  destruct x as [sx|[]| |[] mx ex], y as [sy|[]| |[] my ey]; try contradiction;
    cbn [SFadd]; try (apply (upto_mono k); [lia|assumption]); [destruct sx, sy; exact I|].
  unfold upto in Hx, Hy.
  destruct (shl_align mx ex (Z.min ex ey)) as [mz ez] eqn:Ex, (shl_align my ey (Z.min ex ey)) as [nz fz] eqn:Ey.
  pose proof (shl_align_fits _ _ _ _ _ _ Ex Hx) as F1. pose proof (shl_align_fits _ _ _ _ _ _ Ey Hy) as F2.
  cbn [fst cond_Zopp].
  assert (ez = Z.min ex ey /\ fz = Z.min ex ey) as [-> ->].
  { unfold shl_align in Ex, Ey. destruct (Z.min ex ey - ex) eqn:E3, (Z.min ex ey - ey) eqn:E4;
      injection Ex as _ <-; injection Ey as _ <-; lia. }
  apply normalize_upto; [lia|lia|]. destruct F1 as [?|[? F1]], F2 as [?|[? F2]]; try lia.
  right. split; [lia|]. replace (k + 1 - Z.min ex ey) with (k - Z.min ex ey + 1) by lia.
  rewrite Z.pow_add_r by lia. lia.
Qed.

Lemma sqrt_upto k x : 0 <= k <= 900 -> upto (2 * k) x -> upto k (sqrt x).
Proof.
  intros Hk. unfold sqrt. destruct x as [s|[]| |[] m e]; cbn [upto]; try tauto; try (intros; exact I).
  intros [?|[He H]]; [lia|]. unfold SFsqrt, SFsqrt_core_binary.
  set (e' := Z.min _ (Z.div2 e)). assert (He' : e' <= Z.div2 e) by (unfold e'; lia). clearbody e'.
  pose proof (Z.div2_odd e) as Hodd. destruct (Z.odd e); cbn in Hodd.
  all: set (m' := match _ with Z0 => Zpos m | Zpos _ => Z.shiftl _ _ | Zneg _ => 0 end).
  all: assert (Hm : m' = Zpos m * 2 ^ (e - 2 * e')) by
    (unfold m'; destruct (e - 2 * e') as [|p|p] eqn:Es; [lia|apply Z.shiftl_mul_pow2; lia|lia]).
  all: assert (H2 : m' <= 2 ^ (k - e') * 2 ^ (k - e')) by
    (rewrite Hm, <- Z.pow_add_r by lia; replace (k - e' + (k - e')) with (2 * k - e + (e - 2 * e')) by lia;
     rewrite Z.pow_add_r by lia; apply Z.mul_le_mono_nonneg_r; [apply Z.pow_nonneg; lia|exact H]).
  all: assert (H0 : 0 <= m') by (rewrite Hm; apply Z.mul_nonneg_nonneg; [lia|apply Z.pow_nonneg; lia]).
  all: pose proof (Z.sqrtrem_spec m' H0) as Hs; destruct (Z.sqrtrem m') as [q r]; destruct Hs as [Hq Hr].
  all: assert (H3 : 0 < 2 ^ (k - e')) by (apply Z.pow_pos_nonneg; lia).
  all: assert (H4 : 0 <= q) by (destruct (Z.le_gt_cases 0 q); [assumption|]; nia).
  all: apply round_aux_upto; [exact H4|exact Hk| |].
  all: try (intros ->; rewrite (proj2 (Z.eqb_eq r 0)) by lia; reflexivity).
  all: right; split; [lia|]; unfold top; destruct (Z.eqb_spec r 0) as [->|Hr0]; cbn; [nia|].
  all: destruct (r <=? q); cbn; nia.
Qed.

Lemma trunc_upto k x : 0 <= k -> upto k x -> exists z, trunc x = Some z /\ 0 <= z <= 2 ^ k.
Proof.
  intros Hk. destruct x as [s|[]| |[] m e]; cbn [upto]; try tauto.
  - intros _. exists 0. split; [reflexivity|]. pose proof (Z.pow_pos_nonneg 2 k). lia.
  - intros [?|[He H]]; [lia|]. eexists. split; [reflexivity|]. cbn. destruct (Z.leb_spec 0 e).
    + split; [apply Z.mul_nonneg_nonneg; [lia|apply Z.pow_nonneg; lia]|].
      replace k with (k - e + e) at 1 by lia. rewrite Z.pow_add_r by lia.
      apply Z.mul_le_mono_nonneg_r; [apply Z.pow_nonneg; lia|exact H].
    + assert (0 < 2 ^ (- e)) by (apply Z.pow_pos_nonneg; lia).
      split; [apply Z.div_pos; lia|]. apply Z.div_le_upper_bound; [lia|].
      rewrite <- Z.pow_add_r by lia. replace (- e + k) with (k - e) by lia. exact H.
Qed.

(** Conversions of numbers below 2^k fit types of more than k bits. *)
Lemma to_type_upto ty k x : 0 <= k -> 2 ^ k <= int_max ty -> upto k x ->
  exists z, to_type ty (trunc x) = Ok z /\ 0 <= z <= 2 ^ k.
Proof.
  intros Hk Hty Hx. destruct (trunc_upto k x Hk Hx) as (z & E & Hz). exists z. split; [|exact Hz].
  apply to_type_Ok. split; [exact E|]. unfold int_min. lia.
Qed.
(** ** Integers times one *)

(** The double with 53 significant bits whose value is [z]. *)
Definition exactly (z : Z) (x : double) : Prop := exists m e,
  x = S754_finite false m e /\ digits2_pos m = 53%positive /\ -52 <= e <= 0 /\ Zpos m = z * 2 ^ (- e).

(** Rounding a mantissa of 53 bits does nothing. *)
Lemma round_53 m e : digits2_pos m = 53%positive -> -52 <= e <= 0 ->
  binary_round_aux 53 1024 false (Zpos m) e loc_Exact = S754_finite false m e.
Proof.
  intros Hd He. unfold binary_round_aux, shr_fexp. cbn [Zdigits2]. rewrite Hd.
  assert (Hf : fexp 53 1024 (53 + e) - e = 0) by (unfold fexp, emin; lia). rewrite Hf. cbn [shr shr_m loc_of_shr_record shr_record_of_loc round_nearest_even].
  cbn [Zdigits2]. rewrite Hd, Hf. cbn [shr shr_m shr_record_of_loc]. rewrite (proj2 (Z.leb_le e _)) by lia. reflexivity.
Qed.

Lemma of_int_exactly z : 0 < z < 2 ^ 53 -> exactly z (of_int z).
Proof.
  intros Hz. destruct z as [|p|p]; try lia. unfold of_int. cbn [binary_normalize]. unfold binary_round.
  assert (Hl : Z.log2 (Zpos p) < 53) by (apply Z.log2_lt_pow2; lia). pose proof (Z.log2_nonneg (Zpos p)) as Hl0.
  assert (Hf : fexp 53 1024 (Zpos (digits2_pos p) + 0) = Z.log2 (Zpos p) - 52) by (rewrite digits_log2; unfold fexp, emin; lia).
  rewrite Hf.
  destruct (shl_align p 0 (Z.log2 (Z.pos p) - 52)) as [mz ez] eqn:E.
  set (e := Z.log2 (Zpos p) - 52) in *. unfold shl_align in E.
  assert (Hm : ez = e /\ Zpos mz = Zpos p * 2 ^ (- e)).
  { destruct (e - 0) as [|d|d] eqn:Ed; injection E as <- <-.
    - split; [lia|]. replace e with 0 by lia. lia.
    - unfold e in Ed. lia.
    - split; [reflexivity|]. rewrite iter_xO. do 2 f_equal. lia. }
  destruct Hm as [-> Hm].
  assert (Hd : digits2_pos mz = 53%positive).
  { enough (Zpos (digits2_pos mz) = 53) by congruence. rewrite digits_log2, Hm, Z.log2_mul_pow2 by (unfold e; lia). unfold e. lia. }
  rewrite round_53 by (auto; unfold e; lia). exists mz, e. split; [reflexivity|]. split; [exact Hd|]. split; [unfold e; lia|exact Hm].
Qed.

Lemma one_times m e : digits2_pos m = 53%positive -> -52 <= e <= 0 -> mul (of_int 1) (S754_finite false m e) = S754_finite false m e.
Proof.
  intros Hd He. change (of_int 1) with (S754_finite false 4503599627370496 (-52)). unfold mul. cbn [SFmul xorb].
  let t := eval lazy [Pos.mul] in (4503599627370496 * m)%positive in change (4503599627370496 * m)%positive with t.
  unfold binary_round_aux, shr_fexp. cbn [Zdigits2 digits2_pos]. rewrite Hd.
  assert (Hf : fexp 53 1024 (Zpos 105 + (-52 + e)) - (-52 + e) = 52) by (unfold fexp, emin; lia).
  change (Zpos (Pos.succ _)) with 105. rewrite Hf. cbn [shr shr_record_of_loc].
  change (SpecFloat.iter_pos shr_1 52 _) with {| shr_m := Zpos m; shr_r := false; shr_s := false |}.
  cbn [shr_m loc_of_shr_record round_nearest_even Zdigits2]. replace (-52 + e + 52) with e by lia. rewrite Hd.
  assert (Hf2 : fexp 53 1024 (53 + e) - e = 0) by (unfold fexp, emin; lia). rewrite Hf2.
  cbn [shr shr_m shr_record_of_loc]. rewrite (proj2 (Z.leb_le e _)) by lia. reflexivity.
Qed.

(** Multiplying an integer by 1 and truncating gives it back. *)
Lemma one_times_int z : 0 <= z <= INT_MAX -> to_int (mul (of_int 1) (of_int z)) = Ok z.
Proof.
  intros Hz. destruct (Z.eq_dec z 0) as [->|Hne]; [vm_compute; reflexivity|].
  destruct (of_int_exactly z) as (m & e & -> & Hd & He & Hm); [unfold INT_MAX in Hz; cbn in Hz; lia|].
  rewrite one_times by assumption. apply to_type_Ok. change (int_min int32) with (-2147483648). change (int_max int32) with 2147483647. change INT_MAX with 2147483647 in Hz. split; [|lia].
  cbn [trunc]. destruct (Z.leb_spec 0 e) as [He'|He'].
  - assert (e = 0) as -> by lia. rewrite Hm. f_equal. lia.
  - rewrite Hm, Z.div_mul by (apply Z.pow_nonzero; lia). reflexivity.
Qed.
End Doubles.
