(* ===== verification/Environment.v ===== *)
(** * What a planner asks of an environment

    The virtual methods of [DiscreteSpaceInformation] the planners call, and the
    laws they rely on.  An environment creates its state ids as the search meets
    new states, so the graph a planner explores has other vertices than ids:
    [node] says which state an id stands for so far. *)

From S2P Require Import Prelude.

Class EnvOps (E : Type) := {
  (** [GetSuccs (id, &SuccIDV, &CostV)] *)
  env_succs : E -> Z -> res (list Z * list Z * E);
  (** [GetGoalHeuristic (id)] *)
  env_goal_heuristic : E -> Z -> res Z;
  (** [EnsureHeuristicsUpdated (bGoalHeuristics)] *)
  env_ensure_heuristics : E -> bool -> res E;
}.

(** [succ]: the arcs of the graph; ids are below [max_id], a state has at most
    [max_deg] arcs, of cost at most [max_cost]. *)
Class EnvLaws {E : Type} {ops : EnvOps E} {Node : Type} (succ : Node -> list (Node * Z))
    (max_id max_deg max_cost max_heur : Z) := {
  env_inv : E -> Prop;
  node : E -> Z -> option Node;
  env_le : relation E;
  env_le_preorder :: PreOrder env_le;
  node_inj : forall e i j x, env_inv e -> node e i = Some x -> node e j = Some x -> i = j;
  node_range : forall e i x, env_inv e -> node e i = Some x -> 0 <= i < max_id;
  node_mono : forall e e' i x, env_le e e' -> node e i = Some x -> node e' i = Some x;
  succs_law : forall e i x, env_inv e -> node e i = Some x ->
    exists ids costs e', env_succs e i = Ok (ids, costs, e') /\ env_inv e' /\ env_le e e' /\
      node e' <$> ids = Some ∘ fst <$> succ x /\ costs = snd <$> succ x;
  heuristic_law : forall e i x, env_inv e -> node e i = Some x ->
    exists h, env_goal_heuristic e i = Ok h /\ 0 <= h <= max_heur;
  ensure_law : forall e b, env_inv e ->
    exists e', env_ensure_heuristics e b = Ok e' /\ env_inv e' /\ env_le e e';
  succ_degree : forall x, Z.of_nat (length (succ x)) <= max_deg;
  succ_cost : forall x y w, (y, w) ∈ succ x -> 0 <= w <= max_cost;
}.

(** What the planners of SBPL use besides: predecessors, the distance from the
    start, and the planner's column of the table [StateID2IndexMapping], which
    environment and planner share. *)
Class IndexedEnvOps (E : Type) := {
  (** [GetPreds (id, &PredIDV, &CostV)] *)
  env_preds : E -> Z -> res (list Z * list Z * E);
  (** [GetStartHeuristic (id)] *)
  env_start_heuristic : E -> Z -> res Z;
  (** [StateID2IndexMapping.size ()] *)
  index_size : E -> Z;
  (** [StateID2IndexMapping[id][STATEID2IND_SLOT0]] *)
  index_get : E -> Z -> res Z;
  index_set : E -> Z -> Z -> res E;
  (** every entry -1 *)
  index_clear : E -> E;
}.

(** [GetSuccs] as several threads call it at once: a call [C] in progress takes a
    step per critical section, between which others may create ids. *)
Class EnvCallOps (E C : Type) := {
  succs_call : E -> Z -> res C;
  succs_step : E -> C -> res (E * (C + (list Z * list Z)));
}.

Arguments env_inv {E ops Node} succ {max_id max_deg max_cost max_heur _} e.
Arguments node {E ops Node} succ {max_id max_deg max_cost max_heur _} e i.
Arguments env_le {E ops Node} succ {max_id max_deg max_cost max_heur _} e e'.

(** [calling]: the call lists the arcs of a state.  Whatever others do in between,
    it ends, with the arcs of the state; and what an environment answers about a
    state it knows does not change as it grows. *)
Class EnvCallLaws {E C : Type} {ops : EnvOps E} {cops : EnvCallOps E C} {Node : Type} (succ : Node -> list (Node * Z))
    (max_id max_deg max_cost max_heur : Z) {laws : EnvLaws succ max_id max_deg max_cost max_heur} := {
  calling : E -> Node -> C -> Prop;
  remaining : C -> nat;
  heuristic_mono : forall e e' i x, env_inv succ e -> env_inv succ e' -> env_le succ e e' -> node succ e i = Some x ->
    env_goal_heuristic e' i = env_goal_heuristic e i;
  calling_mono : forall e e' x k, env_inv succ e' -> env_le succ e e' -> calling e x k -> calling e' x k;
  call_law : forall e i x, env_inv succ e -> node succ e i = Some x ->
    exists k, succs_call e i = Ok k /\ calling e x k;
  step_law : forall e x k, env_inv succ e -> calling e x k ->
    exists e' r, succs_step e k = Ok (e', r) /\ env_inv succ e' /\ env_le succ e e' /\
      match r with
      | inl k' => calling e' x k' /\ (remaining k' < remaining k)%nat
      | inr (ids, costs) => node succ e' <$> ids = Some ∘ fst <$> succ x /\ costs = snd <$> succ x
      end;
}.
Arguments calling {E C ops cops Node} succ {max_id max_deg max_cost max_heur laws _} e x k.
