(* ===== verification/Interfaces.v ===== *)
(** * Interfaces of the search templates

    The searches of src/src are templates over GRAPH and HEAP and hand back a
    SearchResult.  Each parameter is a class of operations here, with a class of
    the laws the searches rely on; the searches are verified against the laws
    and BinHeap.v and WGraph.v discharge them. *)

From S2P Require Import Prelude.

(** ** HEAP *)

Class HeapOps (H : Type) := {
  h_new : H;
  h_insert : Z -> Z -> H -> res H;
  h_delete_min : H -> res (Z * H);
  h_size : H -> Z;
  h_split : H -> H -> res (H * H);
}.

(** [h_rep h l]: [h] is a valid heap holding the (priority, value) pairs [l],
    in any order. *)
Class HeapLaws (H : Type) {ops : HeapOps H} := {
  h_rep : H -> list (Z * Z) -> Prop;
  h_rep_perm :: forall h, Proper ((≡ₚ) ==> iff) (h_rep h);
  h_new_rep : h_rep h_new [];
  h_insert_rep : forall h l p v, h_rep h l -> p <= LONG_MAX ->
    exists h', h_insert p v h = Ok h' /\ h_rep h' ((p, v) :: l);
  h_delete_min_rep : forall h l, h_rep h l -> l <> [] ->
    exists p v h' l', h_delete_min h = Ok (v, h') /\ h_rep h' l' /\
      l ≡ₚ (p, v) :: l' /\ forall q u, (q, u) ∈ l -> p <= q;
  h_delete_min_empty : forall h, h_rep h [] -> h_delete_min h = Err AssertFailed;
  h_size_rep : forall h l, h_rep h l -> h_size h = Z.of_nat (length l);
  h_split_small : forall h o l, h_rep h l -> Z.of_nat (length l) < 2 ->
    h_split h o = Ok (h, o);
  h_split_rep : forall h o l, h_rep h l -> h_rep o [] -> 2 <= Z.of_nat (length l) ->
    exists h' o' l1 l2, h_split h o = Ok (h', o') /\ h_rep h' l1 /\ h_rep o' l2 /\
      l1 ++ l2 ≡ₚ l /\ l1 <> [] /\ l2 <> [];
}.

(** ** GRAPH *)

(** [for_each_neighbor_of g v f] applies the callback [f] to every arc leaving
    [v]; the callback mutates the caller's state. *)
Class GraphOps (G : Type) := {
  number_vertices : G -> Z;
  for_each_neighbor_of : forall {S : Type}, G -> Z -> (Z -> Z -> S -> res S) -> S -> res S;
}.

Class GraphLaws {G : Type} {ops : GraphOps G} (g : G) := {
  succs : Z -> list (Z * Z);
  for_each_law : forall {S : Type} v (f : Z -> Z -> S -> res S) s,
    0 <= v < number_vertices g ->
    for_each_neighbor_of g v f s = foldM (fun s '(u, w) => f u w s) s (succs v);
  succs_range : forall v u w, 0 <= v < number_vertices g -> (u, w) ∈ succs v ->
    0 <= u < number_vertices g;
  succs_nonneg : forall v u w, 0 <= v < number_vertices g -> (u, w) ∈ succs v -> 0 <= w;
  number_vertices_nonneg : 0 <= number_vertices g;
}.
Arguments succs {G ops} g {_} v.

(** The arcs of a lawful graph. *)
Definition arc {G} {ops : GraphOps G} (g : G) {laws : GraphLaws g} (u v w : Z) : Prop :=
  0 <= u < number_vertices g /\ (v, w) ∈ succs g u.

Lemma arc_nonneg {G} {ops : GraphOps G} (g : G) {laws : GraphLaws g} u v w :
  arc g u v w -> 0 <= w.
Proof. intros [Hu Hin]; eapply succs_nonneg; eauto. Qed.

Lemma arc_range {G} {ops : GraphOps G} (g : G) {laws : GraphLaws g} u v w :
  arc g u v w -> 0 <= v < number_vertices g.
Proof. intros [Hu Hin]; eapply succs_range; eauto. Qed.

(** ** SearchResult (src/src/shared/search_utils.hpp) *)

(** The virtual methods of [SearchResult] and [SearchResultT]; a class instance
    is an override. *)
Class SearchResult (R : Type) := {
  is_expanded : R -> Z -> res bool;
  predecessor : R -> Z -> res Z;
  g : R -> Z -> res Z;
  pebble : R -> Z -> res Z;
}.

(** The methods of the base class itself, before any override. *)
Definition SearchResult_default : SearchResult unit := {|
  is_expanded := fun _ _ => Ok false;
  predecessor := fun _ _ => Ok (-1);
  g := fun _ _ => Ok (-1);
  pebble := fun _ _ => Ok (-1);
|}.

Definition SearchResultT_default : SearchResult unit := {|
  is_expanded := fun _ _ => Ok false;
  predecessor := fun _ _ => Ok (-1);
  g := fun _ _ => Ok (-1);
  pebble := fun _ _ => Ok (-1);
|}.
