(* ===== verification/BinHeap.v ===== *)
(** * The binary heap [Heap<VALUE>] of src/src/shared/bin_heap.hpp

    The heap is an implicit binary tree in a malloc'ed array.  Cells that were
    never written are [None]; reading one, or a cell outside the allocation, is
    an error.  [long] indices are Z: every index the code forms is at most
    2n + 2 for the number n of elements held, which memory bounds far below
    2^63. *)

From Stdlib Require Import Sorting.Sorted.
From S2P Require Import Prelude.
From S2P Require Import Interfaces.

Module BinHeap.
Section definitions.
Context {V : Type}.

Record KV := mkKV { kv_priority : Z; kv_value : V }.

Record Heap := mkHeap {
  hp_n : Z;
  hp_capacity : Z;
  hp_values : list (option KV);
}.

Definition parent (i : Z) : Z := Z.quot (i - 1) 2.
Definition left_child (i : Z) : Z := 2 * i + 1.
Definition right_child (i : Z) : Z := 2 * i + 2.
Definition has_parent (i : Z) : bool := 0 <? i.
Definition has_left_child (h : Heap) (i : Z) : bool := left_child i <? hp_n h.
Definition has_right_child (h : Heap) (i : Z) : bool := right_child i <? hp_n h.

Definition priority (h : Heap) (i : Z) : res Z :=
  if hp_n h <=? i then Ok LONG_MAX
  else kv ← read_cell (hp_values h) i; Ok (kv_priority kv).

Definition min_child (h : Heap) (i : Z) : res Z :=
  pl ← priority h (left_child i);
  pr ← priority h (right_child i);
  Ok (if pl <? pr then left_child i else right_child i).

(** [std::swap (values[i], values[j])] *)
Definition swap_cells (h : Heap) (i j : Z) : res Heap :=
  a ← read_cell (hp_values h) i;
  b ← read_cell (hp_values h) j;
  vs ← aset (hp_values h) i (Some b);
  vs ← aset vs j (Some a);
  Ok (mkHeap (hp_n h) (hp_capacity h) vs).

(** The loop condition of [heapify_down_from], with its short circuit. *)
Definition down_cond (h : Heap) (curr : Z) : res bool :=
  pc ← priority h curr;
  pl ← priority h (left_child curr);
  if pl <? pc then Ok true
  else pr ← priority h (right_child curr); Ok (pr <? pc).

Fixpoint heapify_down_loop (fuel : nat) (h : Heap) (curr : Z) : res Heap :=
  match fuel with
  | O => Err OutOfFuel
  | S fuel =>
      c ← down_cond h curr;
      if c : bool then
        next ← min_child h curr;
        h ← swap_cells h curr next;
        heapify_down_loop fuel h next
      else Ok h
  end.

(** [curr] at least doubles in every iteration and stays below [n]. *)
Definition heapify_down_from (h : Heap) (i : Z) : res Heap :=
  heapify_down_loop (S (Z.to_nat (hp_n h))) h i.

Definition up_cond (h : Heap) (curr : Z) : res bool :=
  if has_parent curr then
    pc ← priority h curr;
    pp ← priority h (parent curr);
    Ok (pc <? pp)
  else Ok false.

Fixpoint heapify_up_loop (fuel : nat) (h : Heap) (curr : Z) : res Heap :=
  match fuel with
  | O => Err OutOfFuel
  | S fuel =>
      c ← up_cond h curr;
      if c : bool then
        h ← swap_cells h curr (parent curr);
        heapify_up_loop fuel h (parent curr)
      else Ok h
  end.

Definition heapify_up_from (h : Heap) (i : Z) : res Heap :=
  heapify_up_loop (S (Z.to_nat i)) h i.

(** [mynew_array<KV> (cap)]: malloc, nothing initialised. *)
Definition mynew_array (cap : Z) : list (option KV) := replicate (Z.to_nat cap) None.

Definition resize_bigger (h : Heap) (new_cap : Z) : res Heap :=
  _ ← assert_ (hp_n h <=? new_cap);
  vs ← foldM (fun vs i => c ← aget (hp_values h) i; aset vs i c)
         (mynew_array new_cap) (seqZ 0 (hp_n h));
  Ok (mkHeap (hp_n h) new_cap vs).

Definition new_heap : Heap := mkHeap 0 4096 (mynew_array 4096).

Definition insert (prio : Z) (v : V) (h : Heap) : res Heap :=
  h ← (if hp_n h =? hp_capacity h then resize_bigger h (hp_capacity h * 2) else Ok h);
  vs ← aset (hp_values h) (hp_n h) (Some (mkKV prio v));
  heapify_up_from (mkHeap (hp_n h + 1) (hp_capacity h) vs) (hp_n h).

(** [values[0] = values[n-1]; n--; heapify_down_from (0)], shared by
    [delete_min] and [discard_min]. *)
Definition discard_min (h : Heap) : res Heap :=
  _ ← assert_ (0 <? hp_n h);
  last ← aget (hp_values h) (hp_n h - 1);
  vs ← aset (hp_values h) 0 last;
  heapify_down_from (mkHeap (hp_n h - 1) (hp_capacity h) vs) 0.

Definition delete_min (h : Heap) : res (V * Heap) :=
  _ ← assert_ (0 <? hp_n h);
  kv ← read_cell (hp_values h) 0;
  last ← aget (hp_values h) (hp_n h - 1);
  vs ← aset (hp_values h) 0 last;
  h' ← heapify_down_from (mkHeap (hp_n h - 1) (hp_capacity h) vs) 0;
  Ok (kv_value kv, h').

Definition peek (h : Heap) : res V :=
  _ ← assert_ (0 <? hp_n h);
  kv ← read_cell (hp_values h) 0;
  Ok (kv_value kv).

Definition size (h : Heap) : Z := hp_n h.

(** The state of the copy loops of [split]: the array of [this] (read and
    written in place), the array of [other], their element counts and the
    read index.  [write_this_idx] and [n] advance together from 0, and so do
    [write_other_idx] and [other.n]. *)
Record split_state := mkSplit {
  sp_this : list (option KV);
  sp_n : Z;
  sp_other : list (option KV);
  sp_other_n : Z;
  sp_read : Z;
}.

(** [for (long i = 0; read_idx < m && i < cnt; i++)] copying to [this] *)
Fixpoint split_copy_this (m : Z) (cnt : nat) (s : split_state) : res split_state :=
  match cnt with
  | O => Ok s
  | S cnt =>
      if sp_read s <? m then
        c ← aget (sp_this s) (sp_read s);
        vs ← aset (sp_this s) (sp_n s) c;
        split_copy_this m cnt
          (mkSplit vs (sp_n s + 1) (sp_other s) (sp_other_n s) (sp_read s + 1))
      else Ok s
  end.

(** ... and copying to [other] *)
Fixpoint split_copy_other (m : Z) (cnt : nat) (s : split_state) : res split_state :=
  match cnt with
  | O => Ok s
  | S cnt =>
      if sp_read s <? m then
        c ← aget (sp_this s) (sp_read s);
        vs ← aset (sp_other s) (sp_other_n s) c;
        split_copy_other m cnt
          (mkSplit (sp_this s) (sp_n s) vs (sp_other_n s + 1) (sp_read s + 1))
      else Ok s
  end.

(** [for (long level = 2; read_idx < m; level *= 2)] *)
Fixpoint split_loop (fuel : nat) (m level : Z) (s : split_state) : res split_state :=
  match fuel with
  | O => Err OutOfFuel
  | S fuel =>
      if sp_read s <? m then
        s ← split_copy_this m (Z.to_nat (Z.quot level 2)) s;
        s ← split_copy_other m (Z.to_nat (Z.quot level 2)) s;
        split_loop fuel m (level * 2) s
      else Ok s
  end.

(** Returns the new [*this] and the new [other]. *)
Definition split (h other : Heap) : res (Heap * Heap) :=
  if hp_n h <? 2 then Ok (h, other)
  else
    let m := hp_n h in
    root ← read_cell (hp_values h) 0;
    other ← resize_bigger other (Z.quot m 2);
    s ← split_loop (S (Z.to_nat m)) m 2
          (mkSplit (hp_values h) 0 (hp_values other) 0 1);
    other ← insert (kv_priority root) (kv_value root)
              (mkHeap (sp_other_n s) (hp_capacity other) (sp_other s));
    Ok (mkHeap (sp_n s) (hp_capacity h) (sp_this s), other).

(** [swap]: the two objects exchange all their fields. *)
Definition swap (h other : Heap) : Heap * Heap := (other, h).
End definitions.
Arguments KV : clear implicits.
Arguments Heap : clear implicits.
Arguments split_state : clear implicits.

(** ** The abstraction: the list of initialised cells

    [repr h l]: the first [n] cells of [h] hold [l].  [wf h l] adds the class
    invariant: the allocation has [capacity >= 1] cells, priorities are values
    of type [long], and the list is in heap order. *)

Section theory.
Context {V : Type}.
Implicit Types (h : Heap V) (l : list (KV V)) (i j : Z).

(** Priority of cell [i], LONG_MAX beyond the end, as [priority] reads it. *)
Definition pr (l : list (KV V)) (i : Z) : Z := aview kv_priority LONG_MAX l i.

Definition len (l : list (KV V)) : Z := Z.of_nat (length l).

Record repr (h : Heap V) (l : list (KV V)) : Prop := {
  repr_cells : exists rest, hp_values h = (Some <$> l) ++ rest;
  repr_n : hp_n h = len l;
  repr_cap : Z.of_nat (length (hp_values h)) = hp_capacity h;
  repr_pos : 1 <= hp_capacity h;
  repr_long : Forall (fun kv => kv_priority kv <= LONG_MAX) l;
}.

Definition ordered (l : list (KV V)) : Prop :=
  forall i, 0 < i < len l -> pr l (parent i) <= pr l i.

Definition wf (h : Heap V) (l : list (KV V)) : Prop := repr h l /\ ordered l.

(** Exchange of two cells. *)
Definition lswap (l : list (KV V)) (i j : Z) : list (KV V) :=
  match aget l i, aget l j with
  | Ok a, Ok b => <[Z.to_nat j := a]> (<[Z.to_nat i := b]> l)
  | _, _ => l
  end.

Lemma parent_bounds i : 0 < i -> 0 <= parent i < i.
Proof. unfold parent; intros; lia_div. Qed.

Lemma parent_child i c :
  0 <= i -> 0 < c -> parent c = i <-> c = left_child i \/ c = right_child i.
Proof.
  unfold parent, left_child, right_child; intros; lia_div.
Qed.

Lemma len_lswap l i j : len (lswap l i j) = len l.
Proof.
  unfold lswap, len; destruct (aget l i), (aget l j); rewrite ?length_insert; reflexivity.
Qed.

Lemma pr_lswap l i j k :
  0 <= i < len l -> 0 <= j < len l ->
  pr (lswap l i j) k =
    if decide (k = j) then pr l i else if decide (k = i) then pr l j else pr l k.
Proof.
  unfold len; intros Hi Hj.
  destruct (aget_in l i Hi) as [a Ha], (aget_in l j Hj) as [b Hb].
  unfold lswap, pr; rewrite Ha, Hb.
  rewrite aview_insert by (rewrite length_insert; exact Hj).
  rewrite aview_insert by exact Hi.
  rewrite (aview_get _ _ l i a Ha), (aview_get _ _ l j b Hb). reflexivity.
Qed.

Lemma lswap_perm l i j : lswap l i j ≡ₚ l.
Proof.
  unfold lswap; destruct (aget l i) as [a|] eqn:Ha; [|reflexivity].
  destruct (aget l j) as [b|] eqn:Hb; [|reflexivity].
  apply aget_Ok in Ha as [_ Ha]; apply aget_Ok in Hb as [_ Hb].
  apply Permutation_insert_swap; assumption.
Qed.

Lemma pr_out l i : len l <= i -> pr l i = LONG_MAX.
Proof.
  intros Hi; unfold pr, aview; destruct (aget l i) as [a|] eqn:E; [|reflexivity].
  apply aget_bounds in E; unfold len in *; lia.
Qed.

Lemma pr_le_max h l i : repr h l -> pr l i <= LONG_MAX.
Proof.
  intros R; unfold pr, aview; destruct (aget l i) as [a|] eqn:E; [|lia].
  apply aget_Ok in E as [_ E%list_elem_of_lookup_2].
  pose proof (repr_long _ _ R) as F. rewrite Forall_forall in F; auto.
Qed.

Lemma pr_in_range h l i : repr h l -> pr l i < LONG_MAX -> i < len l.
Proof. intros R H; destruct (Z.lt_ge_cases i (len l)); [assumption|rewrite pr_out in H; lia]. Qed.

Lemma repr_cell h l i :
  repr h l -> 0 <= i < len l ->
  exists kv, aget l i = Ok kv /\ aget (hp_values h) i = Ok (Some kv).
Proof.
  intros R Hi; destruct (aget_in l i Hi) as [kv E]; exists kv; split; [exact E|].
  destruct (repr_cells _ _ R) as [rest ->].
  rewrite aget_app_l by (rewrite length_fmap; unfold len in Hi; lia).
  rewrite aget_fmap, E; reflexivity.
Qed.

Lemma repr_read h l i :
  repr h l -> 0 <= i < len l ->
  exists kv, aget l i = Ok kv /\ read_cell (hp_values h) i = Ok kv.
Proof.
  intros R Hi; destruct (repr_cell h l i R Hi) as (kv & E & Ec).
  exists kv; split; [exact E|]. unfold read_cell; rewrite Ec; reflexivity.
Qed.

Lemma priority_ok h l i : repr h l -> 0 <= i -> priority h i = Ok (pr l i).
Proof.
  intros R Hi; unfold priority; rewrite (repr_n _ _ R).
  destruct (Z.leb_spec (len l) i) as [Hge|Hlt].
  - rewrite pr_out by exact Hge; reflexivity.
  - destruct (repr_read h l i R) as (kv & E & ->); [lia|].
    cbn; unfold pr; rewrite (aview_get _ _ _ _ _ E); reflexivity.
Qed.

(** Writing one cell below [n]. *)
Lemma repr_insert h l i kv vs :
  repr h l -> 0 <= i < len l -> kv_priority kv <= LONG_MAX ->
  aset (hp_values h) i (Some kv) = Ok vs ->
  repr (mkHeap (hp_n h) (hp_capacity h) vs) (<[Z.to_nat i := kv]> l).
Proof.
  intros R Hi Hkv [Hb ->]%aset_Ok. destruct (repr_cells _ _ R) as [rest Hr].
  split; cbn.
  - exists rest. rewrite Hr, insert_app_l by (rewrite length_fmap; unfold len in Hi; lia).
    rewrite list_fmap_insert; reflexivity.
  - unfold len; rewrite length_insert; apply (repr_n _ _ R).
  - rewrite length_insert; apply (repr_cap _ _ R).
  - apply (repr_pos _ _ R).
  - apply Forall_insert; [apply (repr_long _ _ R)|exact Hkv].
Qed.

Lemma repr_len_cap h l : repr h l -> len l <= Z.of_nat (length (hp_values h)).
Proof.
  intros R; destruct (repr_cells _ _ R) as [rest ->].
  unfold len; rewrite length_app, length_fmap; lia.
Qed.

Lemma swap_cells_ok h l i j :
  repr h l -> 0 <= i < len l -> 0 <= j < len l ->
  exists h', swap_cells h i j = Ok h' /\ repr h' (lswap l i j).
Proof.
  intros R Hi Hj; pose proof (repr_len_cap h l R) as Hc.
  destruct (repr_read h l i R Hi) as (a & Ea & Ra).
  destruct (repr_read h l j R Hj) as (b & Eb & Rb).
  assert (Hlong : forall k kv, aget l k = Ok kv -> kv_priority kv <= LONG_MAX).
  { intros k kv [_ E%list_elem_of_lookup_2]%aget_Ok.
    pose proof (repr_long _ _ R) as F; rewrite Forall_forall in F; auto. }
  unfold swap_cells; run_res Ra; run_res Rb.
  rewrite aset_in by lia; rewrite bind_ok_l.
  rewrite aset_in by (rewrite length_insert; lia); rewrite bind_ok_l.
  eexists; split; [reflexivity|].
  unfold lswap; rewrite Ea, Eb.
  apply (repr_insert (mkHeap (hp_n h) (hp_capacity h) (<[Z.to_nat i:=Some b]> (hp_values h)))
           (<[Z.to_nat i:=b]> l)); eauto.
  - eapply repr_insert; eauto. apply aset_in; lia.
  - unfold len; rewrite length_insert; exact Hj.
  - cbn; apply aset_in; rewrite length_insert; lia.
Qed.

(** Case analysis on which of the swapped cells an index is, with two
    [parent] terms abstracted so that equal indices are identified. *)
Ltac swap_cases t u :=
  generalize dependent t; intros t'; generalize dependent u; intros u'; intros;
  repeat case_decide; subst; try congruence; intuition lia.

(** ** Sifting up *)

(** Heap order everywhere except between [c] and its parent. *)
Definition up_inv (l : list (KV V)) (c : Z) : Prop :=
  (forall i, 0 < i < len l -> i <> c -> pr l (parent i) <= pr l i) /\
  (0 < c -> forall i, 0 < i < len l -> parent i = c -> pr l (parent c) <= pr l i).

Lemma up_inv_step l c :
  0 < c < len l -> up_inv l c -> pr l c < pr l (parent c) ->
  up_inv (lswap l c (parent c)) (parent c).
Proof.
  intros Hc [H1 H2] Hlt; pose proof (parent_bounds c ltac:(lia)) as Hp.
  split.
  - rewrite len_lswap; intros i Hi Hne. rewrite !pr_lswap by lia.
    pose proof (parent_bounds i ltac:(lia)) as Hpi.
    pose proof (H1 i Hi) as A. pose proof (H2 ltac:(lia) i Hi) as B.
    destruct (decide (i = c)) as [->|Hic].
    + swap_cases (parent c) (parent c).
    + swap_cases (parent i) (parent c).
  - rewrite len_lswap; intros Hpc i Hi Hpi. rewrite !pr_lswap by lia.
    pose proof (parent_bounds (parent c) ltac:(lia)) as Hpp.
    pose proof (H1 i Hi) as A. pose proof (H1 (parent c) ltac:(lia) ltac:(lia)) as B.
    rewrite Hpi in A. swap_cases (parent c) (parent (parent c)).
Qed.

Lemma up_inv_done l c :
  (0 < c -> pr l (parent c) <= pr l c) -> up_inv l c -> ordered l.
Proof.
  intros Hc [H1 _] i Hi. destruct (decide (i = c)) as [->|Hne]; [apply Hc; lia|auto].
Qed.

Lemma heapify_up_ok fuel h l c :
  repr h l -> 0 <= c < len l -> up_inv l c -> (Z.to_nat c < fuel)%nat ->
  exists h' l', heapify_up_loop fuel h c = Ok h' /\ wf h' l' /\ l' ≡ₚ l.
Proof.
  revert h l c; induction fuel as [|fuel IH]; intros h l c R Hc Hinv Hf; [lia|].
  cbn. unfold up_cond, has_parent.
  destruct (Z.ltb_spec 0 c) as [Hpos|Hz]; cbn.
  - pose proof (parent_bounds c Hpos) as Hp.
    run_res (priority_ok h l c R ltac:(lia)).
    run_res (priority_ok h l (parent c) R ltac:(lia)). cbn.
    destruct (Z.ltb_spec (pr l c) (pr l (parent c))) as [Hlt|Hge].
    + destruct (swap_cells_ok h l c (parent c) R) as (h1 & E1 & R1); [lia|lia|].
      run_res E1.
      destruct (IH h1 (lswap l c (parent c)) (parent c)) as (h2 & l2 & E2 & W2 & P2);
        [exact R1|rewrite len_lswap; lia|apply up_inv_step; auto; lia|lia|].
      exists h2, l2; split; [exact E2|]; split; [exact W2|].
      rewrite P2; apply lswap_perm.
    + exists h, l; split; [reflexivity|]; split; [|reflexivity].
      split; [exact R|]; eapply up_inv_done; [|exact Hinv]; auto.
  - exists h, l; split; [reflexivity|]; split; [|reflexivity].
    split; [exact R|]; eapply up_inv_done; [|exact Hinv]; lia.
Qed.

(** ** Sifting down *)

(** Heap order everywhere except between [c] and its children. *)
Definition down_inv (l : list (KV V)) (c : Z) : Prop :=
  (forall i, 0 < i < len l -> parent i <> c -> pr l (parent i) <= pr l i) /\
  (0 < c -> forall i, 0 < i < len l -> parent i = c -> pr l (parent c) <= pr l i).

Lemma down_inv_step l c d :
  0 <= c < len l -> down_inv l c -> 0 < d < len l -> parent d = c ->
  pr l d < pr l c ->
  (forall i, 0 < i < len l -> parent i = c -> pr l d <= pr l i) ->
  down_inv (lswap l c d) d.
Proof.
  intros Hc [H1 H2] Hd Hpd Hlt Hmin; pose proof (parent_bounds d ltac:(lia)) as Hp.
  split.
  - rewrite len_lswap; intros i Hi Hne. rewrite !pr_lswap by lia.
    pose proof (parent_bounds i ltac:(lia)) as Hpi.
    pose proof (H1 i Hi) as A. pose proof (Hmin i Hi) as B.
    destruct (decide (i = c)) as [->|Hic].
    + pose proof (H2 ltac:(lia) d Hd Hpd) as C. swap_cases (parent c) (parent d).
    + swap_cases (parent i) (parent d).
  - rewrite len_lswap; intros Hd0 i Hi Hpi. rewrite !pr_lswap by lia.
    pose proof (parent_bounds i ltac:(lia)) as Hpp.
    pose proof (H1 i Hi) as A. rewrite Hpi in A. swap_cases (parent i) (parent d).
Qed.

Lemma down_inv_done l c :
  (forall i, 0 < i < len l -> parent i = c -> pr l c <= pr l i) ->
  down_inv l c -> ordered l.
Proof.
  intros Hc [H1 _] i Hi.
  destruct (decide (parent i = c)) as [E|Hne]; [rewrite E; auto|auto].
Qed.

(** One evaluation of the loop condition: it holds exactly when some child is
    smaller, and then [min_child] is a smallest child. *)
Lemma down_cond_ok h l c :
  repr h l -> 0 <= c ->
  down_cond h c = Ok (bool_decide (pr l (left_child c) < pr l c) ||
                      bool_decide (pr l (right_child c) < pr l c)).
Proof.
  intros R Hc. unfold down_cond.
  assert (0 <= left_child c /\ 0 <= right_child c) by (unfold left_child, right_child; lia).
  rewrite !(priority_ok h l) by (auto; lia); cbn.
  case_bool_decide; destruct (Z.ltb_spec (pr l (left_child c)) (pr l c)); cbn;
    try (reflexivity || lia).
  case_bool_decide; destruct (Z.ltb_spec (pr l (right_child c)) (pr l c));
    (reflexivity || lia).
Qed.

Lemma min_child_ok h l c :
  repr h l -> 0 <= c ->
  exists d, min_child h c = Ok d /\ (d = left_child c \/ d = right_child c) /\
    pr l d <= pr l (left_child c) /\ pr l d <= pr l (right_child c).
Proof.
  intros R Hc. unfold min_child.
  assert (0 <= left_child c /\ 0 <= right_child c) by (unfold left_child, right_child; lia).
  rewrite !(priority_ok h l) by (auto; lia); cbn.
  eexists; split; [reflexivity|].
  destruct (Z.ltb_spec (pr l (left_child c)) (pr l (right_child c))); auto with lia.
Qed.

Lemma heapify_down_ok fuel h l c :
  repr h l -> 0 <= c -> down_inv l c -> (Z.to_nat (len l - c) < fuel)%nat ->
  exists h' l', heapify_down_loop fuel h c = Ok h' /\ wf h' l' /\ l' ≡ₚ l.
Proof.
  revert h l c; induction fuel as [|fuel IH]; intros h l c R Hc Hinv Hf; [lia|].
  cbn. rewrite (down_cond_ok h l c R Hc); cbn.
  destruct (min_child_ok h l c R Hc) as (d & Ed & Hd & Hl & Hr).
  case_bool_decide as BL; [|case_bool_decide as BR]; cbn.
  3: { exists h, l; split; [reflexivity|]; split; [split; [exact R|]|reflexivity].
       apply (down_inv_done l c); [|exact Hinv].
       intros i Hi [->| ->]%parent_child; lia. }
  all: run_res Ed.
  all: assert (Hdl : 0 < d < len l) by
    (split; [destruct Hd; subst; unfold left_child, right_child; lia|];
     apply (pr_in_range h); [exact R|]; pose proof (pr_le_max h l c R); lia).
  all: assert (Hcd : c < d) by (destruct Hd; subst; unfold left_child, right_child; lia).
  all: destruct (swap_cells_ok h l c d R) as (h1 & E1 & R1); [lia|lia|]; run_res E1.
  all: destruct (IH h1 (lswap l c d) d) as (h2 & l2 & E2 & W2 & P2);
    [exact R1|lia| |rewrite len_lswap; lia|exists h2, l2; split; [exact E2|]; split;
      [exact W2|]; rewrite P2; apply lswap_perm].
  all: apply down_inv_step; auto; try lia; [apply parent_child; auto; lia|].
  all: intros i Hi [->| ->]%parent_child; lia.
Qed.

Lemma ordered_down l i kv :
  ordered l -> i = 0 -> down_inv (<[Z.to_nat i := kv]> l) i.
Proof.
  intros H ->. split; [|lia]. unfold len; rewrite length_insert; fold (len l).
  intros i Hi Hp. unfold pr. rewrite !aview_insert by (unfold len in Hi; lia).
  rewrite !decide_False by (auto; lia). apply H; exact Hi.
Qed.

(** In a heap the root is a minimum. *)
Lemma ordered_root l i : ordered l -> 0 <= i < len l -> pr l 0 <= pr l i.
Proof.
  intros H. revert i. apply (well_founded_induction (Z.lt_wf 0) (fun i =>
    0 <= i < len l -> pr l 0 <= pr l i)).
  intros i IH Hi. destruct (decide (i = 0)) as [->|]; [lia|].
  pose proof (parent_bounds i ltac:(lia)).
  pose proof (IH (parent i) ltac:(lia) ltac:(lia)). pose proof (H i ltac:(lia)). lia.
Qed.

Lemma ordered_min l kv kv' l' :
  ordered l -> l = kv :: l' -> kv' ∈ l -> kv_priority kv <= kv_priority kv'.
Proof.
  intros H -> [k Hk]%list_elem_of_lookup_1.
  pose proof (lookup_lt_Some _ _ _ Hk).
  pose proof (ordered_root _ (Z.of_nat k) H) as Hr.
  unfold pr in Hr. rewrite (aview_get _ _ _ (Z.of_nat k) kv') in Hr.
  - apply Hr; unfold len; lia.
  - apply aget_Ok; split; [lia|]; rewrite Nat2Z.id; exact Hk.
Qed.

(** ** Growing the allocation *)

Lemma copy_cells_ok h l new_cap :
  repr h l -> len l <= new_cap ->
  foldM (fun vs i => c ← aget (hp_values h) i; aset vs i c)
    (mynew_array new_cap) (seqZ 0 (hp_n h))
  = Ok ((Some <$> l) ++ replicate (Z.to_nat new_cap - length l) None).
Proof.
  intros R Hcap. rewrite (repr_n _ _ R).
  destruct (foldM_inv (fun vs i => c ← aget (hp_values h) i; aset vs i c)
    (fun done vs => vs = (Some <$> take (length done) l) ++
                       replicate (Z.to_nat new_cap - length done) None)
    (seqZ 0 (len l)) (mynew_array new_cap)) as (b & Eb & Hb).
  - cbn. rewrite Nat.sub_0_r; reflexivity.
  - intros done x todo b Hsplit ->.
    assert (Hx : x = Z.of_nat (length done) /\ (length done < length l)%nat).
    { assert (Hl : seqZ 0 (len l) !! length done = Some x)
        by (rewrite Hsplit; apply list_lookup_middle; reflexivity).
      apply lookup_seqZ in Hl as [-> Hl]. unfold len in Hl; lia. }
    destruct Hx as [-> Hlt].
    destruct (repr_cell h l (Z.of_nat (length done)) R) as (kv & Ekv & Ecell);
      [unfold len; lia|].
    apply aget_Ok in Ekv as [_ Ekv]; rewrite Nat2Z.id in Ekv.
    run_res Ecell.
    eexists; split; [apply aset_in; rewrite length_app, length_fmap, length_take,
      length_replicate; unfold len in *; lia|].
    rewrite Nat2Z.id, length_app; cbn.
    rewrite insert_app_r_alt by (rewrite length_fmap, length_take; lia).
    rewrite length_fmap, length_take, Nat.min_l, Nat.sub_diag by lia.
    replace (Z.to_nat new_cap - length done)%nat
      with (S (Z.to_nat new_cap - (length done + 1))) by (unfold len in *; lia).
    cbn. rewrite Nat.add_1_r, (take_S_r _ _ kv Ekv), fmap_app, <-(assoc_L (++)). reflexivity.
  - rewrite Eb, Hb, length_seqZ. unfold len. rewrite Nat2Z.id, firstn_all. reflexivity.
Qed.

Lemma resize_bigger_ok h l new_cap :
  wf h l -> len l <= new_cap -> 1 <= new_cap ->
  exists h', resize_bigger h new_cap = Ok h' /\ wf h' l /\
    hp_capacity h' = new_cap.
Proof.
  intros [R O] Hcap Hpos. unfold resize_bigger. rewrite (repr_n _ _ R).
  destruct (Z.leb_spec (len l) new_cap); [|lia]; cbn.
  rewrite <-(repr_n _ _ R), (copy_cells_ok h l new_cap R Hcap). cbn.
  eexists; split; [reflexivity|]. split; [|reflexivity]. split; [|exact O].
  split; cbn; eauto using repr_n, repr_long.
  rewrite length_app, length_fmap, length_replicate; unfold len in *; lia.
Qed.

Lemma new_heap_wf : wf new_heap ([] : list (KV V)).
Proof.
  split; [split|]; cbn; try (constructor || lia || reflexivity).
  - exists (mynew_array 4096); reflexivity.
  - intros i; unfold len; cbn; lia.
Qed.

(** ** Insertion *)

Lemma repr_push h l kv :
  repr h l -> len l < hp_capacity h -> kv_priority kv <= LONG_MAX ->
  exists vs, aset (hp_values h) (hp_n h) (Some kv) = Ok vs /\
    repr (mkHeap (hp_n h + 1) (hp_capacity h) vs) (l ++ [kv]).
Proof.
  intros R Hcap Hkv. pose proof (repr_cap _ _ R) as Hc. pose proof (repr_n _ _ R) as Hn.
  eexists; split; [apply aset_in; unfold len in *; lia|].
  destruct (repr_cells _ _ R) as [rest Hr].
  split; cbn.
  - rewrite Hr, length_app, length_fmap in Hc.
    destruct rest as [|c rest]; [unfold len in *; cbn in *; lia|]. exists rest.
    rewrite Hr, Hn. unfold len; rewrite Nat2Z.id.
    rewrite insert_app_r_alt by (rewrite length_fmap; lia).
    rewrite length_fmap, Nat.sub_diag; cbn. rewrite fmap_app, <-(assoc_L (++)). reflexivity.
  - unfold len in *; rewrite length_app; cbn; lia.
  - rewrite length_insert; exact Hc.
  - apply (repr_pos _ _ R).
  - apply Forall_app; split; [apply (repr_long _ _ R)|repeat constructor; exact Hkv].
Qed.

Lemma up_inv_push l kv : ordered l -> up_inv (l ++ [kv]) (len l).
Proof.
  intros O. split; unfold len; rewrite length_app; cbn; fold (len l).
  - intros i Hi Hne. pose proof (parent_bounds i ltac:(lia)).
    unfold pr, aview. rewrite !aget_app_l by (unfold len in *; lia).
    apply O. unfold len in *; lia.
  - intros _ i Hi Hp. pose proof (parent_bounds i ltac:(lia)). unfold len in *; lia.
Qed.

Lemma insert_ok h l p (v : V) :
  wf h l -> p <= LONG_MAX ->
  exists h' l', insert p v h = Ok h' /\ wf h' l' /\ l' ≡ₚ mkKV p v :: l.
Proof.
  intros W Hp. unfold insert.
  assert (exists h1, (if hp_n h =? hp_capacity h then resize_bigger h (hp_capacity h * 2)
            else Ok h) = Ok h1 /\ wf h1 l /\ len l < hp_capacity h1) as (h1 & E1 & [R1 O1] & Hc).
  { pose proof (proj1 W) as R. pose proof (repr_len_cap h l R).
    pose proof (repr_cap _ _ R). pose proof (repr_n _ _ R). pose proof (repr_pos _ _ R).
    destruct (Z.eqb_spec (hp_n h) (hp_capacity h)) as [Hfull|Hfree].
    - destruct (resize_bigger_ok h l (hp_capacity h * 2) W) as (h1 & -> & W1 & C1); [lia|lia|].
      exists h1; split; [reflexivity|]; split; [exact W1|lia].
    - exists h; split; [reflexivity|]; split; [exact W|lia]. }
  run_res E1.
  destruct (repr_push h1 l (mkKV p v) R1 Hc Hp) as (vs & E2 & R2). run_res E2.
  rewrite (repr_n _ _ R1) in *.
  destruct (heapify_up_ok (S (Z.to_nat (len l))) _ _ (len l) R2) as (h3 & l3 & E3 & W3 & P3).
  - unfold len; rewrite length_app; cbn; lia.
  - apply up_inv_push; exact O1.
  - lia.
  - exists h3, l3; split; [exact E3|]; split; [exact W3|].
    rewrite P3. symmetry; apply Permutation_cons_append.
Qed.

(** ** Deletion of the minimum *)

Lemma pr_take l k i : i < Z.of_nat k -> i < len l -> pr (take k l) i = pr l i.
Proof.
  intros Hk Hi. unfold pr, aview. rewrite <-(take_drop k l) at 2.
  destruct (Z.lt_ge_cases i 0) as [Hneg|Hpos].
  - unfold aget; destruct (Z.leb_spec 0 i); [lia|reflexivity].
  - rewrite aget_app_l; [reflexivity|]. rewrite length_take; unfold len in *; lia.
Qed.

Lemma repr_take h l k :
  repr h l -> (k <= length l)%nat ->
  repr (mkHeap (Z.of_nat k) (hp_capacity h) (hp_values h)) (take k l).
Proof.
  intros R Hk. destruct (repr_cells _ _ R) as [rest Hr]. split; cbn.
  - exists ((Some <$> drop k l) ++ rest).
    rewrite Hr, (assoc_L (++)), <-fmap_app, take_drop. reflexivity.
  - unfold len; rewrite length_take; lia.
  - apply (repr_cap _ _ R).
  - apply (repr_pos _ _ R).
  - apply Forall_take, (repr_long _ _ R).
Qed.

Lemma down_inv_take l k c : (k <= length l)%nat -> down_inv l c -> down_inv (take k l) c.
Proof.
  intros Hk [H1 H2].
  assert (Hl : len (take k l) = Z.of_nat k) by (unfold len; rewrite length_take; lia).
  split; rewrite Hl.
  - intros i Hi Hne. pose proof (parent_bounds i ltac:(lia)).
    rewrite !pr_take by (unfold len; lia). apply H1; [unfold len; lia|exact Hne].
  - intros Hc i Hi Hp. pose proof (parent_bounds i ltac:(lia)).
    pose proof (parent_bounds c ltac:(lia)).
    rewrite !pr_take by (unfold len; lia). apply H2; [exact Hc|unfold len; lia|exact Hp].
Qed.

(** Moving the last element to the root. *)
Lemma last_to_root_perm (kv lst : KV V) l :
  aget (kv :: l) (len (kv :: l) - 1) = Ok lst ->
  kv :: take (length l) (<[Z.to_nat 0 := lst]> (kv :: l)) ≡ₚ kv :: l.
Proof.
  intros H. f_equiv. destruct l as [|y l] using rev_ind; [reflexivity|clear IHl].
  assert (y = lst) as ->.
  { apply aget_Ok in H as [_ H]. unfold len in H; cbn in H; rewrite length_app in H; cbn in H.
    replace (Z.to_nat _) with (length (kv :: l)) in H by (cbn; lia).
    change (kv :: l ++ [y]) with ((kv :: l) ++ [y]) in H.
    rewrite lookup_app_r, Nat.sub_diag in H by lia. cbn in H; congruence. }
  replace (length (l ++ [lst])) with (S (length l)) by (rewrite length_app; cbn; lia).
  change (lst :: take (length l) (l ++ [lst]) ≡ₚ l ++ [lst]). rewrite take_app_length.
  apply Permutation_cons_append.
Qed.

(** Both deletions run this. *)
Lemma drop_root_ok h kv l :
  wf h (kv :: l) ->
  exists lst vs h' l',
    aget (hp_values h) (hp_n h - 1) = Ok (Some lst) /\
    aset (hp_values h) 0 (Some lst) = Ok vs /\
    heapify_down_from (mkHeap (hp_n h - 1) (hp_capacity h) vs) 0 = Ok h' /\
    wf h' l' /\ l' ≡ₚ l.
Proof.
  intros [R O]. rewrite (repr_n _ _ R).
  assert (Hlen : len (kv :: l) = Z.of_nat (length l) + 1) by (unfold len; cbn; lia).
  destruct (repr_cell h _ (len (kv :: l) - 1) R) as (lst & El & Ec); [lia|].
  pose proof (repr_len_cap _ _ R).
  exists lst. eexists. edestruct (heapify_down_ok) as (h' & l' & E & W & P); cycle 4.
  - exists h', l'. split; [exact Ec|]. split; [apply aset_in; lia|].
    split; [unfold heapify_down_from; exact E|]. split; [exact W|].
    rewrite P. apply (Permutation_cons_inv (a := kv)), last_to_root_perm; exact El.
  - replace (len (kv :: l) - 1) with (Z.of_nat (length l)) by lia.
    apply (repr_take (mkHeap (hp_n h) (hp_capacity h) _)); [|rewrite length_insert; cbn; lia].
    eapply repr_insert; [exact R|lia| |apply aset_in; lia].
    apply aget_Ok in El as [_ El%list_elem_of_lookup_2].
    pose proof (repr_long _ _ R) as F; rewrite Forall_forall in F; auto.
  - lia.
  - apply down_inv_take; [rewrite length_insert; cbn; lia|]. apply ordered_down; auto.
  - cbn [hp_n]. unfold len; rewrite length_take, length_insert; cbn; lia.
Qed.

Lemma delete_min_ok h kv l :
  wf h (kv :: l) ->
  exists h' l', delete_min h = Ok (kv_value kv, h') /\ wf h' l' /\ l' ≡ₚ l.
Proof.
  intros W. destruct (drop_root_ok h kv l W) as (lst & vs & h' & l' & E1 & E2 & E3 & W' & P).
  destruct W as [R _]. exists h', l'. split; [|split; [exact W'|exact P]].
  unfold delete_min. rewrite (repr_n _ _ R) in *.
  rewrite (proj2 (Z.ltb_lt 0 (len (kv :: l)))) by (unfold len; cbn; lia).
  unfold assert_; rewrite bind_ok_l.
  destruct (repr_read h _ 0 R) as (kv' & Ek & Er); [unfold len; cbn; lia|].
  injection Ek as <-. run_res Er. run_res E1. run_res E2. run_res E3. reflexivity.
Qed.

Lemma discard_min_ok h kv l :
  wf h (kv :: l) ->
  exists h' l', discard_min h = Ok h' /\ wf h' l' /\ l' ≡ₚ l.
Proof.
  intros W. destruct (drop_root_ok h kv l W) as (lst & vs & h' & l' & E1 & E2 & E3 & W' & P).
  destruct W as [R _]. exists h', l'. split; [|split; [exact W'|exact P]].
  unfold discard_min. rewrite (repr_n _ _ R) in *.
  rewrite (proj2 (Z.ltb_lt 0 (len (kv :: l)))) by (unfold len; cbn; lia).
  unfold assert_; rewrite bind_ok_l.
  run_res E1. run_res E2. exact E3.
Qed.

Lemma delete_min_empty h : wf h [] -> delete_min h = Err AssertFailed.
Proof. intros [R _]. unfold delete_min. rewrite (repr_n _ _ R). reflexivity. Qed.

(** ** Splitting

    The copy loops read the tree level by level: the left half of each level
    goes to [this], the right half to [other].  [srcT j] and [srcO j] are the
    indices the cells [j] of the two results come from: the left and the
    right subtree of the root, so parents map to parents. *)

Definition srcT (j : Z) : Z := j + 2 ^ Z.log2 (j + 1).
Definition srcO (j : Z) : Z := j + 2 * 2 ^ Z.log2 (j + 1).

Lemma log2_at k x : 0 <= k -> 2 ^ k <= x < 2 * 2 ^ k -> Z.log2 x = k.
Proof. intros Hk Hx. apply Z.log2_unique; [exact Hk|]. rewrite Z.pow_succ_r by lia. lia. Qed.

Lemma log2_parent j : 1 <= j -> Z.log2 (j + 1) = Z.succ (Z.log2 (parent j + 1)).
Proof.
  intros Hj. pose proof (Z.log2_spec (j + 1) ltac:(lia)) as Hs.
  pose proof (Z.log2_le_mono 2 (j + 1) ltac:(lia)) as H2.
  change (Z.log2 2) with 1 in H2.
  set (k := Z.log2 (j + 1)) in *.
  rewrite (log2_at (k - 1) (parent j + 1)); [lia|lia|].
  rewrite Z.pow_succ_r in Hs by lia.
  replace k with (Z.succ (k - 1)) in Hs by lia. rewrite Z.pow_succ_r in Hs by lia.
  unfold parent. lia_div.
Qed.

Lemma srcT_parent j : 1 <= j -> parent (srcT j) = srcT (parent j).
Proof.
  intros Hj. unfold srcT. rewrite log2_parent by exact Hj.
  pose proof (Z.log2_nonneg (parent j + 1)). rewrite Z.pow_succ_r by lia.
  set (e := 2 ^ Z.log2 (parent j + 1)).
  assert (0 < e) by (apply Z.pow_pos_nonneg; lia). clearbody e.
  unfold parent. lia_div.
Qed.

Lemma srcO_parent j : 1 <= j -> parent (srcO j) = srcO (parent j).
Proof.
  intros Hj. unfold srcO. rewrite log2_parent by exact Hj.
  pose proof (Z.log2_nonneg (parent j + 1)). rewrite Z.pow_succ_r by lia.
  set (e := 2 ^ Z.log2 (parent j + 1)).
  assert (0 < e) by (apply Z.pow_pos_nonneg; lia). clearbody e.
  unfold parent. lia_div.
Qed.

Lemma pow_log2_pos j : 0 < 2 ^ Z.log2 (j + 1).
Proof. apply Z.pow_pos_nonneg; [lia|apply Z.log2_nonneg]. Qed.

(** A list whose cells come from the heap [l] along an index map that
    commutes with [parent] is a heap. *)
Lemma ordered_image l t (src : Z -> Z) :
  ordered l ->
  (forall j, 0 <= j < len t -> aget t j = aget l (src j)) ->
  (forall j, 1 <= j -> parent (src j) = src (parent j)) ->
  (forall j, 0 <= j -> j < src j) ->
  ordered t.
Proof.
  intros O Himg Hpar Hpos j Hj. pose proof (parent_bounds j ltac:(lia)).
  pose proof (Hpos j ltac:(lia)).
  assert (E : forall k, 0 <= k < len t -> pr t k = pr l (src k)).
  { intros k Hk; unfold pr, aview; rewrite Himg by exact Hk; reflexivity. }
  rewrite !E by lia. rewrite <-Hpar by lia. apply O. split; [lia|].
  destruct (aget_in t j) as [kv Ekv]; [unfold len in Hj; lia|].
  rewrite Himg in Ekv by lia. apply aget_bounds in Ekv; unfold len; lia.
Qed.

Record split_inv (root : KV V) (l : list (KV V)) (cap ocap : nat)
    (s : split_state V) (t o : list (KV V)) : Prop := {
  si_n : sp_n s = len t;
  si_other_n : sp_other_n s = len o;
  si_read : sp_read s = 1 + len t + len o;
  si_read_le : sp_read s <= len l;
  si_src : forall i, sp_read s <= i < len l ->
    exists kv, aget l i = Ok kv /\ aget (sp_this s) i = Ok (Some kv);
  si_this : exists rest, sp_this s = (Some <$> t) ++ rest;
  si_other : exists rest, sp_other s = (Some <$> o) ++ rest;
  si_cap : length (sp_this s) = cap /\ len l <= Z.of_nat cap;
  si_ocap : length (sp_other s) = ocap;
  si_perm : take (Z.to_nat (sp_read s)) l ≡ₚ root :: t ++ o;
  si_t : forall j, 0 <= j < len t -> aget t j = aget l (srcT j);
  si_o : forall j, 0 <= j < len o -> aget o j = aget l (srcO j);
}.

Lemma len_snoc (t : list (KV V)) kv : len (t ++ [kv]) = len t + 1.
Proof. unfold len; rewrite length_app; cbn; lia. Qed.

Lemma aget_snoc (t : list (KV V)) kv j :
  0 <= j < len (t ++ [kv]) ->
  aget (t ++ [kv]) j = if decide (j = len t) then Ok kv else aget t j.
Proof.
  rewrite len_snoc. intros Hj; case_decide as E.
  - subst j. apply aget_Ok; split; [unfold len; lia|].
    unfold len; rewrite Nat2Z.id, lookup_app_r, Nat.sub_diag by lia. reflexivity.
  - rewrite aget_app_l; [reflexivity|unfold len in *; lia].
Qed.

Lemma image_snoc l t kv (src : Z -> Z) :
  (forall j, 0 <= j < len t -> aget t j = aget l (src j)) ->
  aget l (src (len t)) = Ok kv ->
  forall j, 0 <= j < len (t ++ [kv]) -> aget (t ++ [kv]) j = aget l (src j).
Proof.
  intros H Hk j Hj. rewrite aget_snoc by exact Hj. rewrite len_snoc in Hj.
  case_decide; subst; auto with lia.
Qed.

(** Writing the cell just after a prefix of written cells. *)
Lemma prefix_snoc (vs : list (option (KV V))) t kv :
  (exists rest, vs = (Some <$> t) ++ rest) -> len t < Z.of_nat (length vs) ->
  exists rest, <[Z.to_nat (len t) := Some kv]> vs = (Some <$> (t ++ [kv])) ++ rest.
Proof.
  intros [rest ->] Hlt. unfold len in *; rewrite Nat2Z.id.
  rewrite length_app, length_fmap in Hlt.
  destruct rest as [|c rest]; [cbn in Hlt; lia|]. exists rest.
  rewrite insert_app_r_alt by (rewrite length_fmap; lia).
  rewrite length_fmap, Nat.sub_diag, fmap_app, <-(assoc_L (++)). reflexivity.
Qed.

Lemma take_read l i kv :
  aget l i = Ok kv -> take (Z.to_nat (i + 1)) l = take (Z.to_nat i) l ++ [kv].
Proof.
  intros [Hi Hk]%aget_Ok. replace (Z.to_nat (i + 1)) with (S (Z.to_nat i)) by lia.
  apply take_S_r; exact Hk.
Qed.

Lemma split_inv_this root l cap ocap s t o :
  split_inv root l cap ocap s t o ->
  sp_read s < len l -> sp_read s = srcT (len t) ->
  exists kv vs, aget (sp_this s) (sp_read s) = Ok (Some kv) /\
    aset (sp_this s) (sp_n s) (Some kv) = Ok vs /\
    split_inv root l cap ocap
      (mkSplit vs (sp_n s + 1) (sp_other s) (sp_other_n s) (sp_read s + 1)) (t ++ [kv]) o.
Proof.
  intros I Hlt Hsrc. destruct I as [n' on rd rdle src th oth [cp cple] ocp perm it io].
  destruct (src (sp_read s)) as (kv & Ek & Ec); [lia|].
  assert (0 <= len t /\ 0 <= len o) by (unfold len; lia).
  exists kv. eexists. split; [exact Ec|]. split; [apply aset_in; lia|].
  split; cbn; rewrite ?len_snoc; try lia; auto.
  - intros i Hi. destruct (src i) as (kv' & Ek' & Ec'); [lia|].
    exists kv'; split; [exact Ek'|]. rewrite aget_insert by lia.
    rewrite decide_False by lia; exact Ec'.
  - rewrite n'. apply prefix_snoc; [exact th|lia].
  - rewrite length_insert; auto.
  - rewrite (take_read _ _ _ Ek), perm; cbn. f_equiv. rewrite <-!(assoc_L (++)).
    f_equiv. apply Permutation_app_comm.
  - intros j Hj. rewrite <-len_snoc with (kv := kv) in Hj. revert j Hj.
    apply image_snoc; [exact it|]. rewrite <-Hsrc; exact Ek.
Qed.

Lemma split_inv_other root l cap ocap s t o :
  split_inv root l cap ocap s t o ->
  sp_read s < len l -> sp_read s = srcO (len o) -> len o < Z.of_nat ocap ->
  exists kv vs, aget (sp_this s) (sp_read s) = Ok (Some kv) /\
    aset (sp_other s) (sp_other_n s) (Some kv) = Ok vs /\
    split_inv root l cap ocap
      (mkSplit (sp_this s) (sp_n s) vs (sp_other_n s + 1) (sp_read s + 1)) t (o ++ [kv]).
Proof.
  intros I Hlt Hsrc Hroom. destruct I as [n' on rd rdle src th oth [cp cple] ocp perm it io].
  destruct (src (sp_read s)) as (kv & Ek & Ec); [lia|].
  assert (0 <= len t /\ 0 <= len o) by (unfold len; lia).
  exists kv. eexists. split; [exact Ec|]. split; [apply aset_in; lia|].
  split; cbn; rewrite ?len_snoc; try lia; auto.
  - intros i Hi. apply src; lia.
  - rewrite on. apply prefix_snoc; [exact oth|lia].
  - rewrite length_insert; auto.
  - rewrite (take_read _ _ _ Ek), perm; cbn. f_equiv. rewrite <-!(assoc_L (++)).
    reflexivity.
  - intros j Hj. rewrite <-len_snoc with (kv := kv) in Hj. revert j Hj.
    apply image_snoc; [exact io|]. rewrite <-Hsrc; exact Ek.
Qed.

(** The copy to [this] at a level with [half = 2 ^ k] cells per side. *)
Lemma split_copy_this_ok root l cap ocap k cnt s t o :
  0 <= k -> split_inv root l cap ocap s t o ->
  len t + 1 = 2 * 2 ^ k - Z.of_nat cnt -> Z.of_nat cnt <= 2 ^ k ->
  len o + 1 = 2 ^ k ->
  exists s' t', split_copy_this (len l) cnt s = Ok s' /\
    split_inv root l cap ocap s' t' o /\ len t <= len t' /\
    (sp_read s < len l -> (0 < cnt)%nat -> len t < len t') /\
    (sp_read s' = len l \/ len t' + 1 = 2 * 2 ^ k).
Proof.
  intros Hk. revert s t; induction cnt as [|cnt IH]; intros s t I Ht Hc Ho; cbn.
  - exists s, t; split; [reflexivity|]. split; [exact I|]. split; [lia|]. split; [lia|]. lia.
  - destruct (Z.ltb_spec (sp_read s) (len l)) as [Hlt|Hge].
    + destruct (split_inv_this root l cap ocap s t o I Hlt) as (kv & vs & E1 & E2 & I').
      { rewrite (si_read _ _ _ _ _ _ _ I). unfold srcT.
        rewrite (log2_at k) by lia. lia. }
      run_res E1; run_res E2.
      destruct (IH _ _ I') as (s' & t' & E & I'' & Hle & _ & Hend);
        [rewrite len_snoc; lia|lia|exact Ho|].
      rewrite len_snoc in Hle.
      exists s', t'; split; [exact E|]; split; [exact I''|]. split; [lia|]. split; [lia|exact Hend].
    + exists s, t; split; [reflexivity|]. split; [exact I|].
      pose proof (si_read_le _ _ _ _ _ _ _ I). split; [lia|]. split; [lia|lia].
Qed.

Lemma split_copy_other_ok root l cap ocap k cnt s t o :
  0 <= k -> split_inv root l cap ocap s t o ->
  len l <= 2 * Z.of_nat ocap + 1 ->
  len o + 1 = 2 * 2 ^ k - Z.of_nat cnt -> Z.of_nat cnt <= 2 ^ k ->
  (sp_read s = len l \/ len t + 1 = 2 * 2 ^ k) ->
  exists s' o', split_copy_other (len l) cnt s = Ok s' /\
    split_inv root l cap ocap s' t o' /\
    sp_read s <= sp_read s' /\
    (sp_read s' = len l \/ (len t + 1 = 2 * 2 ^ k /\ len o' + 1 = 2 * 2 ^ k)).
Proof.
  intros Hk. revert s o; induction cnt as [|cnt IH]; intros s o I Hcap Ho Hc Hend; cbn.
  - exists s, o; split; [reflexivity|]. split; [exact I|]. split; [lia|]. lia.
  - destruct (Z.ltb_spec (sp_read s) (len l)) as [Hlt|Hge].
    + pose proof (si_read _ _ _ _ _ _ _ I).
      destruct (split_inv_other root l cap ocap s t o I Hlt) as (kv & vs & E1 & E2 & I').
      { unfold srcO. rewrite (log2_at k) by lia. lia. }
      { lia. }
      run_res E1; run_res E2.
      destruct (IH _ _ I') as (s' & o' & E & I'' & Hle & Hend'); [exact Hcap|rewrite len_snoc; lia|
        lia|cbn; lia|]. cbn in Hle.
      exists s', o'; split; [exact E|]; split; [exact I''|]. split; [lia|exact Hend'].
    + exists s, o; split; [reflexivity|]. split; [exact I|].
      pose proof (si_read_le _ _ _ _ _ _ _ I). split; [lia|]. lia.
Qed.

Lemma split_loop_ok root l cap ocap fuel k s t o :
  1 <= k -> split_inv root l cap ocap s t o ->
  len l <= 2 * Z.of_nat ocap + 1 ->
  (sp_read s = len l \/ (len t + 1 = 2 ^ (k - 1) /\ len o + 1 = 2 ^ (k - 1))) ->
  (Z.to_nat (len l - sp_read s) < fuel)%nat ->
  exists s' t' o', split_loop fuel (len l) (2 ^ k) s = Ok s' /\
    split_inv root l cap ocap s' t' o' /\ sp_read s' = len l /\
    (len t < len t' \/ sp_read s = len l).
Proof.
  revert k s t o; induction fuel as [|fuel IH]; intros k s t o Hk I Hcap Hpos Hf; [lia|].
  cbn. pose proof (si_read_le _ _ _ _ _ _ _ I) as Hle.
  destruct (Z.ltb_spec (sp_read s) (len l)) as [Hlt|Hge].
  2: { exists s, t, o. split; [reflexivity|]. split; [exact I|]. lia. }
  destruct Hpos as [?|[Ht Ho]]; [lia|].
  assert (Hpk : 2 ^ k = 2 * 2 ^ (k - 1)).
  { rewrite <-Z.pow_succ_r by lia. f_equal; lia. }
  assert (0 < 2 ^ (k - 1)) by (apply Z.pow_pos_nonneg; lia).
  replace (Z.to_nat (Z.quot (2 ^ k) 2)) with (Z.to_nat (2 ^ (k - 1)))
    by (rewrite Hpk; f_equal; lia_div).
  destruct (split_copy_this_ok root l cap ocap (k - 1) (Z.to_nat (2 ^ (k - 1))) s t o)
    as (s1 & t1 & E1 & I1 & Hle1 & Hlt1 & Hend1); [lia|exact I|lia|lia|exact Ho|].
  run_res E1.
  pose proof (si_read _ _ _ _ _ _ _ I) as Hr. pose proof (si_read _ _ _ _ _ _ _ I1) as Hr1.
  destruct (split_copy_other_ok root l cap ocap (k - 1) (Z.to_nat (2 ^ (k - 1))) s1 t1 o)
    as (s2 & o2 & E2 & I2 & Hle2 & Hend2); [lia|exact I1|exact Hcap|lia|lia|lia|].
  run_res E2. specialize (Hlt1 Hlt ltac:(lia)).
  replace (2 ^ k * 2) with (2 ^ (k + 1)) by (rewrite Z.pow_add_r; lia).
  destruct (IH (k + 1) s2 t1 o2) as (s' & t' & o' & E & I' & Hend & Hgrow);
    [lia|exact I2|exact Hcap| |lia|].
  { replace (k + 1 - 1) with k by lia. rewrite Hpk. exact Hend2. }
  exists s', t', o'. split; [exact E|]. split; [exact I'|]. split; [exact Hend|].
  left. destruct Hgrow as [?|Hdone]; [lia|].
  (* the last level was reached without growing [t] further *)
  pose proof (si_read_le _ _ _ _ _ _ _ I').
  assert (len t1 <= len t'); [|lia].
  destruct fuel as [|fuel]; [cbn in E; discriminate|]. cbn in E.
  rewrite (proj2 (Z.ltb_ge _ _)) in E by lia. injection E as <-.
  rewrite <-(si_n _ _ _ _ _ _ _ I'), <-(si_n _ _ _ _ _ _ _ I2). lia.
Qed.

Lemma repr_of_split root l cap ocap s t o (h : Heap V) :
  split_inv root l cap ocap s t o -> repr h l -> sp_read s = len l ->
  hp_capacity h = Z.of_nat cap ->
  repr (mkHeap (sp_n s) (hp_capacity h) (sp_this s)) t /\
  forall c, c = Z.of_nat ocap -> 1 <= c ->
    repr (mkHeap (sp_other_n s) c (sp_other s)) o.
Proof.
  intros I R Hread Hcap.
  assert (Forall (fun kv => kv_priority kv <= LONG_MAX) (root :: t ++ o)) as F.
  { rewrite <-(si_perm _ _ _ _ _ _ _ I). apply Forall_take, (repr_long _ _ R). }
  apply Forall_cons in F as [_ [Ft Fo]%Forall_app].
  destruct (si_cap _ _ _ _ _ _ _ I).
  split; [|intros c -> Hc]; split; cbn; eauto using si_this, si_n, si_other, si_other_n.
  - lia.
  - apply (repr_pos _ _ R).
  - rewrite (si_ocap _ _ _ _ _ _ _ I); reflexivity.
Qed.

Lemma split_small h l other : wf h l -> len l < 2 -> split h other = Ok (h, other).
Proof.
  intros [R _] Hl. unfold split. rewrite (repr_n _ _ R).
  rewrite (proj2 (Z.ltb_lt _ _)) by exact Hl. reflexivity.
Qed.

(** [split] of a heap of at least two elements into an empty one. *)
Lemma split_ok h l other :
  wf h l -> wf other [] -> 2 <= len l ->
  exists h' other' l1 l2, split h other = Ok (h', other') /\
    wf h' l1 /\ wf other' l2 /\ l1 ++ l2 ≡ₚ l /\ l1 <> [] /\ l2 <> [].
Proof.
  intros [R O] Wo Hl. pose proof (repr_n _ _ R) as Hn.
  pose proof (repr_len_cap h l R) as Hcap. pose proof (repr_cap _ _ R) as Hcp.
  unfold split. rewrite Hn, (proj2 (Z.ltb_ge _ _)) by lia.
  destruct l as [|root l0] eqn:El; [unfold len in Hl; cbn in Hl; lia|]. rewrite <-El in *.
  destruct (repr_read h l 0 R) as (root' & Er & Rr); [lia|].
  assert (root' = root) as -> by (rewrite El in Er; injection Er; auto).
  run_res Rr.
  destruct (resize_bigger_ok other [] (Z.quot (len l) 2) Wo) as (other1 & E1 & [R1 O1] & Ecap);
    [unfold len at 1; cbn; lia_div|lia_div|]. run_res E1.
  destruct (split_loop_ok root l (length (hp_values h)) (length (hp_values other1))
    (S (Z.to_nat (len l))) 1 (mkSplit (hp_values h) 0 (hp_values other1) 0 1) [] [])
    as (s & t & o & E2 & I & Hread & Hgrow); [lia| |rewrite (repr_cap _ _ R1), Ecap; lia_div|
      right; unfold len; cbn; lia|cbn; lia|].
  { split; cbn; try (reflexivity || lia).
    - intros i Hi. apply repr_cell; [exact R|lia].
    - eexists; reflexivity.
    - eexists; reflexivity.
    - rewrite El; reflexivity.
    - intros j Hj; unfold len in Hj; cbn in Hj; lia.
    - intros j Hj; unfold len in Hj; cbn in Hj; lia. }
  change (2 ^ 1) with 2 in E2. run_res E2.
  destruct (repr_of_split root l _ _ s t o h I R Hread) as [Rt Ro]; [lia|].
  specialize (Ro (hp_capacity other1)). rewrite (repr_cap _ _ R1) in Ro.
  specialize (Ro eq_refl ltac:(rewrite Ecap; lia_div)).
  assert (Wo' : wf (mkHeap (sp_other_n s) (hp_capacity other1) (sp_other s)) o).
  { split; [exact Ro|]. apply (ordered_image l o srcO O (si_o _ _ _ _ _ _ _ I)).
    - intros j Hj; apply srcO_parent; lia.
    - intros j Hj; unfold srcO; pose proof (pow_log2_pos j); lia. }
  destruct (insert_ok _ o (kv_priority root) (kv_value root) Wo') as (h2 & l2 & E3 & W2 & P2).
  { pose proof (repr_long _ _ R) as F. rewrite El in F. apply Forall_cons in F; tauto. }
  run_res E3.
  exists (mkHeap (sp_n s) (hp_capacity h) (sp_this s)), h2, t, l2. split; [reflexivity|].
  split; [split; [exact Rt|]|split; [exact W2|split]].
  - apply (ordered_image l t srcT O (si_t _ _ _ _ _ _ _ I)).
    + intros j Hj; apply srcT_parent; lia.
    + intros j Hj; unfold srcT; pose proof (pow_log2_pos j); lia.
  - pose proof (si_perm _ _ _ _ _ _ _ I) as P. rewrite Hread in P. unfold len in P.
    rewrite Nat2Z.id, firstn_all in P. rewrite P, P2. destruct root; cbn.
    symmetry; apply Permutation_middle.
  - destruct Hgrow as [Hg|Hg]; [|cbn in Hg; lia]. split.
    + intros ->; unfold len in Hg; cbn in Hg; lia.
    + intros ->. apply Permutation_nil_cons in P2; exact P2.
Qed.

(** ** The root is the answer of [delete_min] *)

Lemma delete_min_root h kv l kv' :
  wf h (kv :: l) -> kv' ∈ kv :: l -> kv_priority kv <= kv_priority kv'.
Proof. intros [_ O]. eapply ordered_min; eauto. Qed.

(** ** Filling and emptying a heap *)

Definition insert_all (kvs : list (KV V)) (h : Heap V) : res (Heap V) :=
  foldM (fun h kv => insert (kv_priority kv) (kv_value kv) h) h kvs.

(** [n] times: peek at the priority of the root, then [delete_min]. *)
Fixpoint delete_all (n : nat) (h : Heap V) : res (list (KV V)) :=
  match n with
  | O => Ok []
  | S n =>
      p ← priority h 0;
      '(v, h) ← delete_min h;
      rest ← delete_all n h;
      Ok (mkKV p v :: rest)
  end.

Lemma insert_all_ok kvs h l :
  wf h l -> Forall (fun kv => kv_priority kv <= LONG_MAX) kvs ->
  exists h' l', insert_all kvs h = Ok h' /\ wf h' l' /\ l' ≡ₚ kvs ++ l.
Proof.
  unfold insert_all.
  revert h l; induction kvs as [|[p v] kvs IH]; intros h l W F; cbn.
  - exists h, l; auto.
  - apply Forall_cons in F as [Hp F].
    destruct (insert_ok h l p v W Hp) as (h1 & l1 & E1 & W1 & P1). run_res E1.
    destruct (IH h1 l1 W1 F) as (h2 & l2 & E2 & W2 & P2).
    exists h2, l2; split; [exact E2|]; split; [exact W2|].
    rewrite P2, P1. symmetry; apply Permutation_middle.
Qed.

Lemma delete_all_ok n h l :
  wf h l -> length l = n ->
  exists out, delete_all n h = Ok out /\ out ≡ₚ l /\
    StronglySorted (fun a b => kv_priority a <= kv_priority b) out.
Proof.
  revert h l; induction n as [|n IH]; intros h l W Hl; cbn.
  - destruct l; [|discriminate]. exists []; repeat constructor.
  - destruct l as [|kv l]; [discriminate|]. injection Hl as Hl.
    run_res (priority_ok h (kv :: l) 0 (proj1 W) ltac:(lia)).
    destruct (delete_min_ok h kv l W) as (h' & l' & E & W' & P). run_res E.
    destruct (IH h' l' W') as (out & Eo & Po & So); [rewrite P; exact Hl|]. run_res Eo.
    exists (kv :: out). split; [destruct kv; reflexivity|].
    split; [rewrite Po, P; reflexivity|]. constructor; [exact So|].
    apply Forall_forall. intros kv' Hin. apply (delete_min_root h kv l); [exact W|].
    right. rewrite <-P, <-Po. exact Hin.
Qed.
End theory.

(** ** The heap implements the interface of the searches *)

Definition kv_pair (kv : KV Z) : Z * Z := (kv_priority kv, kv_value kv).

#[export] Instance Heap_ops : HeapOps (Heap Z) := {|
  h_new := new_heap;
  h_insert := insert;
  h_delete_min := delete_min;
  h_size := size;
  h_split := split;
|}.

Definition heap_rep (h : Heap Z) (ps : list (Z * Z)) : Prop :=
  exists l, wf h l /\ kv_pair <$> l ≡ₚ ps.

Lemma fmap_app_perm (l1 l2 l : list (KV Z)) ps :
  l1 ++ l2 ≡ₚ l -> kv_pair <$> l ≡ₚ ps -> (kv_pair <$> l1) ++ (kv_pair <$> l2) ≡ₚ ps.
Proof. intros P <-. rewrite <-fmap_app, P. reflexivity. Qed.

Lemma fmap_nil_perm (l : list (KV Z)) : kv_pair <$> l ≡ₚ [] -> l = [].
Proof. intros E%Permutation_nil_r. destruct l; [reflexivity|discriminate]. Qed.

Lemma heap_delete_min_rep h ps :
  heap_rep h ps -> ps <> [] ->
  exists p v h' ps', delete_min h = Ok (v, h') /\ heap_rep h' ps' /\
    ps ≡ₚ (p, v) :: ps' /\ forall q u, (q, u) ∈ ps -> p <= q.
Proof.
  intros (l & W & P) Hne. destruct l as [|kv l]; [apply Permutation_nil_l in P; congruence|].
  destruct (delete_min_ok h kv l W) as (h' & l' & E & W' & P').
  exists (kv_priority kv), (kv_value kv), h', (kv_pair <$> l'). split; [exact E|].
  split; [exists l'; split; [exact W'|reflexivity]|].
  split; [rewrite <-P, P'; reflexivity|].
  intros q u Hin. rewrite <-P in Hin. apply list_elem_of_fmap in Hin as (kv' & [= -> ->] & Hin).
  eapply delete_min_root; eauto.
Qed.

Lemma heap_split_rep h o ps :
  heap_rep h ps -> heap_rep o [] -> 2 <= Z.of_nat (length ps) ->
  exists h' o' l1 l2, split h o = Ok (h', o') /\ heap_rep h' l1 /\ heap_rep o' l2 /\
    l1 ++ l2 ≡ₚ ps /\ l1 <> [] /\ l2 <> [].
Proof.
  intros (l & W & P) (lo & Wo & Po) Hlen. apply fmap_nil_perm in Po as ->.
  rewrite <-P, length_fmap in Hlen.
  destruct (split_ok h l o W Wo Hlen) as (h' & o' & l1 & l2 & E & W1 & W2 & P' & N1 & N2).
  exists h', o', (kv_pair <$> l1), (kv_pair <$> l2). split; [exact E|].
  split; [exists l1; auto|]. split; [exists l2; auto|].
  split; [eapply fmap_app_perm; eauto|].
  split; intros ?%fmap_nil_inv; contradiction.
Qed.

#[export] Program Instance Heap_laws : HeapLaws (Heap Z) := {| h_rep := heap_rep |}.
Next Obligation.
  intros h ps ps' P; split; intros (l & W & Q); exists l; split; auto; rewrite Q, P; reflexivity.
Qed.
Next Obligation. exists []; split; [apply new_heap_wf|reflexivity]. Qed.
Next Obligation.
  intros h ps p v (l & W & P) Hp.
  destruct (insert_ok h l p v W Hp) as (h' & l' & E & W' & P').
  exists h'; split; [exact E|]. exists l'; split; [exact W'|]. rewrite P', <-P. reflexivity.
Qed.
Next Obligation. exact heap_delete_min_rep. Qed.
Next Obligation.
  intros h (l & W & P). apply fmap_nil_perm in P as ->. apply delete_min_empty; exact W.
Qed.
Next Obligation.
  intros h ps (l & [R _] & P). cbn; unfold size. rewrite (repr_n _ _ R), <-P, length_fmap.
  reflexivity.
Qed.
Next Obligation.
  intros h o ps (l & W & P) Hl. apply (split_small h l o W).
  rewrite <-P, length_fmap in Hl. exact Hl.
Qed.
Next Obligation. exact heap_split_rep. Qed.

(** ** The properties of the class *)

Section properties.
Context {V : Type}.
Implicit Types (h : Heap V) (l : list (KV V)).

(** [insert] keeps the class invariant and adds exactly the new pair, also
    when the array has to grow: no access is out of bounds and no cell is
    read before it is written. *)
Theorem insert_correct h l p (v : V) :
  wf h l -> p <= LONG_MAX ->
  exists h' l', insert p v h = Ok h' /\ wf h' l' /\ l' ≡ₚ mkKV p v :: l /\ size h' = size h + 1.
Proof.
  intros W Hp. destruct (insert_ok h l p v W Hp) as (h' & l' & E & W' & P).
  exists h', l'. split_and!; auto. unfold size.
  rewrite (repr_n _ _ (proj1 W')), (repr_n _ _ (proj1 W)). unfold len. rewrite P. cbn. lia.
Qed.

(** [delete_min] of a non-empty heap returns the value of an entry of
    minimal priority, keeps the class invariant and removes exactly that
    entry; on an empty heap its assertion fails. *)
Theorem delete_min_correct h l :
  wf h l ->
  (l = [] -> delete_min h = Err AssertFailed) /\
  (l <> [] -> exists kv h' l', delete_min h = Ok (kv_value kv, h') /\ wf h' l' /\
     l ≡ₚ kv :: l' /\ forall kv', kv' ∈ l -> kv_priority kv <= kv_priority kv').
Proof.
  intros W. split; [intros ->; apply delete_min_empty; exact W|].
  intros Hne. destruct l as [|kv l]; [contradiction|].
  destruct (delete_min_ok h kv l W) as (h' & l' & E & W' & P).
  exists kv, h', l'. split_and!; auto; [rewrite P; reflexivity|].
  intros kv'. apply (delete_min_root h kv l); exact W.
Qed.

(** C31: [split] leaves a heap of fewer than two entries and its argument
    alone; otherwise it distributes the entries over the two heaps, both of
    which are well formed and non-empty. *)
Theorem split_correct h l other :
  wf h l -> wf other [] ->
  (len l < 2 -> split h other = Ok (h, other)) /\
  (2 <= len l -> exists h' other' l1 l2, split h other = Ok (h', other') /\
     wf h' l1 /\ wf other' l2 /\ l1 ++ l2 ≡ₚ l /\ l1 <> [] /\ l2 <> []).
Proof.
  intros W Wo. split; intros Hl; [apply (split_small h l); assumption|apply split_ok; assumption].
Qed.

(** Inserting any pairs into a new heap and deleting the minimum until it
    is empty yields the pairs sorted by priority. *)
Theorem heap_sorts (kvs : list (KV V)) :
  Forall (fun kv => kv_priority kv <= LONG_MAX) kvs ->
  exists h out, insert_all kvs new_heap = Ok h /\ delete_all (length kvs) h = Ok out /\
    out ≡ₚ kvs /\ StronglySorted (fun a b => kv_priority a <= kv_priority b) out.
Proof.
  intros F. destruct (insert_all_ok kvs new_heap [] new_heap_wf F) as (h & l & E & W & P).
  rewrite app_nil_r in P.
  destruct (delete_all_ok (length kvs) h l W) as (out & Eo & Po & So); [rewrite P; reflexivity|].
  exists h, out. split_and!; auto. rewrite Po; exact P.
Qed.
End properties.

(** A heap of three entries. *)
Definition sample_pairs : list (KV Z) := [mkKV 5 50; mkKV 3 30; mkKV 4 40].

Lemma sample_long : Forall (fun kv => kv_priority kv <= LONG_MAX) sample_pairs.
Proof. repeat constructor; vm_compute; discriminate. Qed.

Lemma sample_wf : exists h l, insert_all sample_pairs new_heap = Ok h /\ wf h l /\ l ≡ₚ sample_pairs.
Proof.
  destruct (insert_all_ok sample_pairs new_heap [] new_heap_wf sample_long) as (h & l & E & W & P).
  exists h, l. rewrite app_nil_r in P. auto.
Qed.

Lemma insert_correct_witness :
  exists h' l', insert 3 30 (new_heap (V := Z)) = Ok h' /\ wf h' l' /\ l' ≡ₚ [mkKV 3 30].
Proof.
  destruct (insert_correct (V := Z) new_heap [] 3 30 new_heap_wf ltac:(vm_compute; discriminate))
    as (h' & l' & E & W & P & _).
  exists h', l'. auto.
Defined.

Lemma delete_min_correct_witness :
  exists h h', insert_all sample_pairs new_heap = Ok h /\ delete_min h = Ok (30, h').
Proof.
  destruct sample_wf as (h & l & E & W & P).
  destruct (proj2 (delete_min_correct h l W)) as (kv & h' & l' & Ed & _ & Pd & Hmin).
  { intros ->. apply Permutation_nil_cons in P. exact P. }
  exists h, h'. split; [exact E|]. rewrite Ed. do 2 f_equal.
  assert (Hin : kv ∈ sample_pairs) by (rewrite <-P, Pd; left).
  assert (H3 : mkKV 3 30 ∈ l) by (rewrite P; right; left).
  specialize (Hmin _ H3). cbn in Hmin.
  unfold sample_pairs in Hin. rewrite !elem_of_cons in Hin.
  destruct Hin as [->|[->|[->|Hin]]]; cbn in *; [lia|reflexivity|lia|inversion Hin].
Defined.

Lemma split_correct_witness :
  exists h h' o' l1 l2, insert_all sample_pairs new_heap = Ok h /\ split h new_heap = Ok (h', o') /\
    wf h' l1 /\ wf o' l2 /\ l1 ++ l2 ≡ₚ sample_pairs.
Proof.
  destruct sample_wf as (h & l & E & W & P).
  destruct (proj2 (split_correct h l new_heap W new_heap_wf)) as (h' & o' & l1 & l2 & Es & W1 & W2 & Pp & _).
  { unfold len. rewrite P. cbn. lia. }
  exists h, h', o', l1, l2. split_and!; auto. rewrite Pp. exact P.
Defined.

Lemma heap_sorts_witness :
  exists h out, insert_all sample_pairs new_heap = Ok h /\ delete_all 3 h = Ok out /\
    out ≡ₚ sample_pairs /\ StronglySorted (fun a b => kv_priority a <= kv_priority b) out.
Proof. exact (heap_sorts sample_pairs sample_long). Defined.

End BinHeap.
