(* ===== verification/ArrayUtil.v ===== *)
(** * Parallel array operations (src/src/old/array_util.hpp)

    Prefix sums by an up and a down sweep over an implicit tree, filter, append,
    selection by rank, reduction.  What the runtime decides is an argument: the
    branch [fork2] runs first, the order in which [parallel_for] runs its
    iterations, whether [cstmt] takes the sequential alternative, and the values
    of [rand ()].  The theorems hold for every such choice.  An array is a list
    of cells, [None] until it is written. *)

From Stdlib Require Import Sorting.Permutation.
From S2P Require Import Prelude.

Module ArrayUtil.
(** ** The definitions *)

(** [malloc] of a negative number of elements asks for more than the address
    space and returns a null pointer. *)
Definition my_malloc {A} (n : Z) : res (list (option A)) :=
  _ ← assert_ (0 <=? n); Ok (replicate (Z.to_nat n) None).

(** [par::fork2 (a, b)], on the array both branches write to. *)
Definition fork2 {M} (left_first : bool) (a b : M -> res M) (m : M) : res M :=
  if left_first then m ← a m; b m else m ← b m; a m.

Section scan.
Context {T : Type} (left_first : Z -> Z -> bool) (lift : Z -> T -> Z).

Fixpoint plus_up_sweep (fuel : nat) (xs : list (option T)) (lo hi : Z)
    (tree : list (option Z)) (tree_idx : Z) : res (list (option Z)) :=
  let n := hi - lo in
  match fuel with
  | O => Err OutOfFuel
  | S fuel =>
      if n =? 0 then Ok tree
      else if n =? 1 then
        x ← read_cell xs lo;
        aset tree tree_idx (Some (lift lo x))
      else
        let half := Z.quot n 2 in
        let left_idx := tree_idx + 1 in
        let right_idx := tree_idx + 2 * half in
        tree ← fork2 (left_first lo hi)
                 (fun tree => plus_up_sweep fuel xs lo (lo + half) tree left_idx)
                 (fun tree => plus_up_sweep fuel xs (lo + half) hi tree right_idx) tree;
        l ← read_cell tree left_idx;
        r ← read_cell tree right_idx;
        s ← add_int int64 l r;
        aset tree tree_idx (Some s)
  end.

Fixpoint plus_down_sweep (fuel : nat) (left_val : Z) (tree : list (option Z)) (tree_idx : Z)
    (out : list (option Z)) (lo hi : Z) : res (list (option Z)) :=
  let n := hi - lo in
  match fuel with
  | O => Err OutOfFuel
  | S fuel =>
      if n =? 0 then Ok out
      else if n =? 1 then
        t ← read_cell tree tree_idx;
        s ← add_int int64 left_val t;
        aset out (lo + 1) (Some s)
      else
        let half := Z.quot n 2 in
        let left_idx := tree_idx + 1 in
        let right_idx := tree_idx + 2 * half in
        l ← read_cell tree left_idx;
        right_left_val ← add_int int64 left_val l;
        fork2 (left_first lo hi)
          (fun out => plus_down_sweep fuel left_val tree left_idx out lo (lo + half))
          (fun out => plus_down_sweep fuel right_left_val tree right_idx out (lo + half) hi) out
  end.

(** [n] is the length of [xs]; a range of that length is halved at most [n]
    times. *)
Definition plus_scan (xs : list (option T)) (n : Z) : res (list (option Z)) :=
  tree ← my_malloc (2 * n - 1);
  tree ← plus_up_sweep (S (Z.to_nat n)) xs 0 n tree 0;
  out ← my_malloc (n + 1);
  out ← plus_down_sweep (S (Z.to_nat n)) 0 tree 0 out 0 n;
  aset out 0 (Some 0).
End scan.

(** [par::parallel_for (lo, hi, body)]: the iterations in some order. *)
Definition parallel_for {M} (order : list Z) (body : M -> Z -> res M) (m : M) : res M :=
  foldM body m order.

Section loops.
(** The order of the iterations of a [parallel_for] over [n] indices. *)
Context {T : Type} (left_first : Z -> Z -> bool) (order : Z -> list Z).

Definition filter (pred : Z -> T -> bool) (xs : list (option T)) (n : Z) :
    res (list (option T) * Z) :=
  offsets ← plus_scan left_first (fun i x => Z.b2z (pred i x)) xs n;
  final_len ← read_cell offsets n;
  out ← my_malloc final_len;
  out ← parallel_for (order n) (fun out i =>
          o ← read_cell offsets i;
          o1 ← read_cell offsets (i + 1);
          if o + 1 =? o1 then x ← read_cell xs i; aset out o (Some x) else Ok out) out;
  Ok (out, final_len).

Definition append (xs : list (option T)) (n : Z) (ys : list (option T)) (m : Z) :
    res (list (option T)) :=
  out ← my_malloc (n + m);
  parallel_for (order (n + m)) (fun out i =>
    x ← (if i <? n then read_cell xs i else read_cell ys (i - n));
    aset out i (Some x)) out.

(** [rand c] is the value of the [c]-th call of [rand ()]. *)
Fixpoint quickselect (fuel : nat) (rand : nat -> Z) (c : nat) (cmp : T -> T -> Z) (k : Z)
    (xs : list (option T)) (n : Z) : res T :=
  match fuel with
  | O => Err OutOfFuel
  | S fuel =>
      _ ← assert_ ((0 <=? k) && (k <? n));
      if n =? 1 then read_cell xs 0
      else
        pivot ← read_cell xs (Z.rem (rand c) n);
        '(L, nL) ← filter (fun i other => cmp other pivot <? 0) xs n;
        '(G, nG) ← filter (fun i other => 0 <? cmp other pivot) xs n;
        if k <? nL then quickselect fuel rand (S c) cmp k L nL
        else if k <? n - nG then Ok pivot
        else quickselect fuel rand (S c) cmp (k - (n - nG)) G nG
  end.
End loops.

Section reduction.
(** Whether [cstmt] runs the sequential alternative on a range. *)
Context {A B : Type} (sequential : Z -> Z -> bool).

Fixpoint reduce (fuel : nat) (lift : A -> B) (binop : B -> B -> B) (id : B)
    (xs : list (option A)) (lo hi : Z) : res B :=
  let seq := foldM (fun result i => x ← read_cell xs i; Ok (binop result (lift x)))
               id (seqZ lo (hi - lo)) in
  match fuel with
  | O => Err OutOfFuel
  | S fuel =>
      if sequential lo hi then seq
      else if hi <=? lo + 2 then seq
      else
        let m := lo + Z.quot (hi - lo) 2 in
        v1 ← reduce fuel lift binop id xs lo m;
        v2 ← reduce fuel lift binop id xs m hi;
        Ok (binop v1 v2)
  end.

(** [result = result && lift (xs[i])] does not read [xs[i]] once [result] is
    false. *)
Fixpoint all (fuel : nat) (lift : A -> bool) (xs : list (option A)) (lo hi : Z) : res bool :=
  let seq := foldM (fun (result : bool) i =>
                 if result then x ← read_cell xs i; Ok (lift x) else Ok false)
               true (seqZ lo (hi - lo)) in
  match fuel with
  | O => Err OutOfFuel
  | S fuel =>
      if sequential lo hi then seq
      else if hi <=? lo + 2 then seq
      else
        let m := lo + Z.quot (hi - lo) 2 in
        v1 ← all fuel lift xs lo m;
        v2 ← all fuel lift xs m hi;
        Ok (v1 && v2)
  end.
End reduction.

(** ** Writing to disjoint parts of an array *)

Section arrays.
Context {A : Type}.
Implicit Types (t : list A).

(** Nothing outside [i, j) changes. *)
Definition same_outside (i j : Z) t t' : Prop :=
  length t' = length t /\ forall x, ~ (i <= x < j) -> aget t' x = aget t x.

(** [P] looks at no cell outside [i, j). *)
Definition local_to (i j : Z) (P : list A -> Prop) : Prop :=
  forall t t', (forall x, i <= x < j -> aget t' x = aget t x) -> P t -> P t'.

(** [a] writes inside [i, j) only, and establishes [P]. *)
Definition writes (len : nat) (i j : Z) (a : list A -> res (list A)) (P : list A -> Prop) : Prop :=
  forall t, length t = len -> exists t', a t = Ok t' /\ same_outside i j t t' /\ P t'.

(** Two branches that write to disjoint parts may run in any order. *)
Lemma fork2_writes len o a b i j i' j' P Q t :
  writes len i j a P -> writes len i' j' b Q -> local_to i j P -> local_to i' j' Q ->
  j <= i' \/ j' <= i -> length t = len ->
  exists t', fork2 o a b t = Ok t' /\ length t' = length t /\ P t' /\ Q t' /\
    forall x, ~ (i <= x < j) -> ~ (i' <= x < j') -> aget t' x = aget t x.
Proof.
  intros Ha Hb LP LQ Hd Hl. unfold fork2. destruct o.
  - destruct (Ha t Hl) as (t1 & E1 & [L1 S1] & H1). run_res E1.
    destruct (Hb t1) as (t2 & E2 & [L2 S2] & H2); [congruence|]. exists t2.
    split; [exact E2|]. split; [congruence|]. split; [|split; [exact H2|]].
    + apply (LP t1); [|exact H1]. intros x Hx. apply S2. lia.
    + intros x Hx Hx'. rewrite S2, S1; auto.
  - destruct (Hb t Hl) as (t1 & E1 & [L1 S1] & H1). run_res E1.
    destruct (Ha t1) as (t2 & E2 & [L2 S2] & H2); [congruence|]. exists t2.
    split; [exact E2|]. split; [congruence|]. split; [exact H2|split].
    + apply (LQ t1); [|exact H1]. intros x Hx. apply S2. lia.
    + intros x Hx Hx'. rewrite S2, S1; auto.
Qed.

Lemma writes_aset len i j p a (P : list A -> Prop) :
  i <= p < j -> 0 <= p < Z.of_nat len -> (forall t, aget t p = Ok a -> P t) ->
  writes len i j (fun t => aset t p a) P.
Proof.
  intros Hp Hl HP t Ht. exists (<[Z.to_nat p := a]> t).
  split; [apply aset_in; lia|]. split.
  - split; [apply length_insert|]. intros x Hx. rewrite aget_insert by lia.
    rewrite decide_False by lia. reflexivity.
  - apply HP. rewrite aget_insert by lia. apply decide_True. reflexivity.
Qed.
End arrays.

(** ** The sweeps *)

Section sweeps.
Context {T : Type} (left_first : Z -> Z -> bool) (lift : Z -> T -> Z) (l : list T).
Abbreviation n := (Z.of_nat (length l)).
Abbreviation xs := (Some <$> l).

Definition term (i : Z) : Z := match aget l i with Ok x => lift i x | Err _ => 0 end.

(** The sum of the terms of [lo, hi). *)
Definition sum (lo hi : Z) : Z := sumZ term (seqZ lo (hi - lo)).

Lemma read_some i : 0 <= i < n -> exists x, read_cell xs i = Ok x /\ aget l i = Ok x.
Proof.
  intros Hi. destruct (aget_in l i Hi) as [x Hx]. exists x. split; [|exact Hx].
  apply read_cell_Ok. rewrite aget_fmap, Hx. reflexivity.
Qed.

Lemma sum_split lo m hi : lo <= m <= hi -> sum lo hi = sum lo m + sum m hi.
Proof.
  intros H. unfold sum. replace (hi - lo) with ((m - lo) + (hi - m)) by lia.
  rewrite seqZ_app by lia. rewrite sumZ_app. repeat f_equal; lia.
Qed.

Lemma sum_one lo : sum lo (lo + 1) = term lo.
Proof. unfold sum. replace (lo + 1 - lo) with 1 by lia. rewrite seqZ_one. cbn. lia. Qed.

Lemma sum_empty lo : sum lo lo = 0.
Proof. unfold sum. rewrite Z.sub_diag. reflexivity. Qed.

(** No partial sum overflows. *)
Context (fits : forall lo hi, 0 <= lo -> lo <= hi -> hi <= n -> in_int int64 (sum lo hi) = true).

Lemma add_sums lo m hi : 0 <= lo -> lo <= m <= hi -> hi <= n ->
  add_int int64 (sum lo m) (sum m hi) = Ok (sum lo hi).
Proof.
  intros H0 H1 H2. rewrite (sum_split lo m hi) by lia. apply add_int_in.
  apply in_int_true. rewrite <- sum_split by lia. apply fits; lia.
Qed.

(** The tree of the sums of the ranges an up sweep visits; the tree of [k]
    leaves at [idx] takes the cells [idx, idx + 2k - 1). *)
Inductive swept (tree : list (option Z)) : Z -> Z -> Z -> Prop :=
  | swept_leaf idx lo :
      aget tree idx = Ok (Some (sum lo (lo + 1))) -> swept tree idx lo (lo + 1)
  | swept_node idx lo hi :
      2 <= hi - lo -> aget tree idx = Ok (Some (sum lo hi)) ->
      swept tree (idx + 1) lo (lo + Z.quot (hi - lo) 2) ->
      swept tree (idx + 2 * Z.quot (hi - lo) 2) (lo + Z.quot (hi - lo) 2) hi ->
      swept tree idx lo hi.

Lemma swept_root tree idx lo hi : swept tree idx lo hi -> aget tree idx = Ok (Some (sum lo hi)).
Proof. intros []; assumption. Qed.

Lemma swept_children tree idx lo hi : swept tree idx lo hi -> hi - lo <> 1 ->
  swept tree (idx + 1) lo (lo + Z.quot (hi - lo) 2) /\
  swept tree (idx + 2 * Z.quot (hi - lo) 2) (lo + Z.quot (hi - lo) 2) hi.
Proof. intros [] ?; [lia|auto]. Qed.

Lemma swept_local idx lo hi :
  local_to idx (idx + 2 * (hi - lo) - 1) (fun tree => swept tree idx lo hi).
Proof.
  intros t t' Hag H; revert Hag; induction H as [idx lo H|idx lo hi Hn H _ IH1 _ IH2]; intros Hag.
  - constructor. rewrite Hag; [exact H|lia].
  - constructor; [exact Hn|rewrite Hag; [exact H|lia]| |].
    + apply IH1. intros x Hx. apply Hag. lia_div.
    + apply IH2. intros x Hx. apply Hag. lia_div.
Qed.

Lemma plus_up_sweep_ok fuel len lo hi idx :
  0 <= lo -> lo < hi -> hi <= n -> (Z.to_nat (hi - lo) < fuel)%nat ->
  0 <= idx -> idx + 2 * (hi - lo) - 1 <= Z.of_nat len ->
  writes len idx (idx + 2 * (hi - lo) - 1)
    (fun tree => plus_up_sweep left_first lift fuel xs lo hi tree idx)
    (fun tree => swept tree idx lo hi).
Proof.
  revert lo hi idx. induction fuel as [|fuel IH]; intros lo hi idx H0 Hlt Hn Hf Hi Hl; [lia|].
  intros t Ht. cbn [plus_up_sweep]. destruct (Z.eqb_spec (hi - lo) 0); [lia|].
  destruct (Z.eqb_spec (hi - lo) 1) as [E1|Hne].
  - destruct (read_some lo) as (x & Ex & El); [lia|]. run_res Ex.
    apply (writes_aset len); [lia|lia| |exact Ht]. intros t' Ht'.
    replace hi with (lo + 1) by lia. constructor. rewrite Ht', sum_one. unfold term. rewrite El. reflexivity.
  - set (half := Z.quot (hi - lo) 2). assert (Hh : 1 <= half /\ half < hi - lo) by (unfold half; lia_div).
    destruct (fork2_writes len (left_first lo hi) _ _ _ _ _ _ _ _ t
      (IH lo (lo + half) (idx + 1) H0 ltac:(lia) ltac:(lia) ltac:(lia) ltac:(lia) ltac:(lia))
      (IH (lo + half) hi (idx + 2 * half) ltac:(lia) ltac:(lia) Hn ltac:(lia) ltac:(lia) ltac:(lia))
      (swept_local _ _ _) (swept_local _ _ _) ltac:(lia) Ht) as (t1 & E & L1 & S1 & S2 & Hs).
    run_res E. run_res (proj2 (read_cell_Ok _ _ _) (swept_root _ _ _ _ S1)).
    run_res (proj2 (read_cell_Ok _ _ _) (swept_root _ _ _ _ S2)).
    run_res (add_sums lo (lo + half) hi H0 ltac:(lia) Hn).
    rewrite aset_in by lia. eexists. split; [reflexivity|].
    assert (Hcell : forall x, aget (<[Z.to_nat idx:=Some (sum lo hi)]> t1) x =
      if decide (x = idx) then Ok (Some (sum lo hi)) else aget t1 x) by (intros; apply aget_insert; lia).
    split; [split; [rewrite length_insert; exact L1|]|].
    + intros x Hx. rewrite Hcell, decide_False by lia. apply Hs; lia.
    + constructor; [lia|rewrite Hcell; apply decide_True; reflexivity| |].
      * apply (swept_local _ _ _ t1); [|exact S1]. intros x Hx. rewrite Hcell. apply decide_False; lia.
      * apply (swept_local _ _ _ t1); [|exact S2]. intros x Hx. rewrite Hcell. apply decide_False; lia.
Qed.

(** The prefix sums of the indices in (lo, hi]. *)
Definition prefixes (lo hi : Z) (out : list (option Z)) : Prop :=
  forall i, lo < i <= hi -> aget out i = Ok (Some (sum 0 i)).

Lemma prefixes_local lo hi : local_to (lo + 1) (hi + 1) (prefixes lo hi).
Proof. intros t t' Hag H i Hi. rewrite Hag by lia. apply H; exact Hi. Qed.

Lemma plus_down_sweep_ok fuel len tree lo hi idx :
  0 <= lo -> lo < hi -> hi <= n -> (Z.to_nat (hi - lo) < fuel)%nat ->
  n < Z.of_nat len -> swept tree idx lo hi ->
  writes len (lo + 1) (hi + 1)
    (fun out => plus_down_sweep left_first fuel (sum 0 lo) tree idx out lo hi) (prefixes lo hi).
Proof.
  revert lo hi idx. induction fuel as [|fuel IH]; intros lo hi idx H0 Hlt Hn Hf Hl Hs; [lia|].
  intros t Ht. cbn [plus_down_sweep]. destruct (Z.eqb_spec (hi - lo) 0); [lia|].
  destruct (Z.eqb_spec (hi - lo) 1) as [E1|Hne].
  - run_res (proj2 (read_cell_Ok _ _ _) (swept_root _ _ _ _ Hs)).
    run_res (add_sums 0 lo hi ltac:(lia) ltac:(lia) Hn).
    apply (writes_aset len); [lia|lia| |exact Ht]. intros t' Ht' i Hi.
    replace i with (lo + 1) by lia. rewrite Ht'. repeat f_equal; lia.
  - destruct (swept_children _ _ _ _ Hs Hne) as [S1 S2].
    set (half := Z.quot (hi - lo) 2) in *. assert (Hh : 1 <= half /\ half < hi - lo) by (unfold half; lia_div).
    run_res (proj2 (read_cell_Ok _ _ _) (swept_root _ _ _ _ S1)).
    run_res (add_sums 0 lo (lo + half) ltac:(lia) ltac:(lia) ltac:(lia)).
    destruct (fork2_writes len (left_first lo hi) _ _ _ _ _ _ _ _ t
      (IH lo (lo + half) (idx + 1) H0 ltac:(lia) ltac:(lia) ltac:(lia) Hl S1)
      (IH (lo + half) hi (idx + 2 * half) ltac:(lia) ltac:(lia) Hn ltac:(lia) Hl S2)
      (prefixes_local _ _) (prefixes_local _ _) ltac:(lia) Ht) as (t1 & E & L1 & P1 & P2 & Hout).
    exists t1. split; [exact E|]. split; [split; [exact L1|]|].
    + intros x Hx. apply Hout; lia.
    + intros i Hi. destruct (decide (i <= lo + half)); [apply P1|apply P2]; lia.
Qed.

(** An empty array makes [malloc] fail. *)
Lemma plus_scan_ok : 0 < n ->
  plus_scan left_first lift xs n = Ok ((fun i => Some (sum 0 i)) <$> seqZ 0 (n + 1)).
Proof.
  intros Hn. unfold plus_scan, my_malloc, assert_.
  rewrite (proj2 (Z.leb_le 0 (2 * n - 1))) by lia. cbn [mbind res_bind].
  destruct (plus_up_sweep_ok (S (Z.to_nat n)) (Z.to_nat (2 * n - 1)) 0 n 0 ltac:(lia) Hn ltac:(lia)
    ltac:(lia) ltac:(lia) ltac:(lia) (replicate _ None) (length_replicate _ _)) as (tree & E & _ & Hs).
  run_res E. rewrite (proj2 (Z.leb_le 0 (n + 1))) by lia. rewrite ?bind_ok_l.
  destruct (plus_down_sweep_ok (S (Z.to_nat n)) (Z.to_nat (n + 1)) tree 0 n 0 ltac:(lia) Hn ltac:(lia)
    ltac:(lia) ltac:(lia) Hs (replicate _ None) (length_replicate _ _)) as (out & E' & [L _] & Hp).
  rewrite sum_empty in E'. run_res E'. rewrite length_replicate in L.
  rewrite aset_in by lia. f_equal. apply list_eq. intros i.
  destruct (decide (Z.of_nat i <= n)) as [Hi|Hi].
  - rewrite list_lookup_fmap, lookup_seqZ_lt by lia. cbn. destruct i as [|i].
    + rewrite list_lookup_insert_eq by lia. rewrite sum_empty. reflexivity.
    + rewrite list_lookup_insert_ne by lia. specialize (Hp (Z.of_nat (S i)) ltac:(lia)).
      apply aget_Ok in Hp as [_ Hp]. rewrite Nat2Z.id in Hp. rewrite Hp. repeat f_equal; lia.
  - rewrite !lookup_ge_None_2; [reflexivity| |].
    + rewrite length_fmap, length_seqZ. lia.
    + rewrite length_insert. lia.
Qed.

Lemma scan_cell i : 0 <= i <= n ->
  read_cell ((fun i => Some (sum 0 i)) <$> seqZ 0 (n + 1)) i = Ok (sum 0 i).
Proof.
  intros Hi. apply read_cell_Ok. apply aget_Ok. split; [lia|].
  rewrite list_lookup_fmap, lookup_seqZ_lt by lia. cbn. repeat f_equal; lia.
Qed.
End sweeps.

(** ** Loops over an array *)

(** Iterations that each write one cell, at distinct positions for distinct
    values, fill an array in any order. *)
Section scatter.
Context {A : Type} (len : Z) (pos : Z -> option (Z * A)).
Context (pos_range : forall i p a, pos i = Some (p, a) -> 0 <= p < len).
Context (pos_inj : forall i j p a b, pos i = Some (p, a) -> pos j = Some (p, b) -> a = b).

Lemma scatter_ok (body : list (option A) -> Z -> res (list (option A))) (order : list Z) out :
  Z.of_nat (length out) = len ->
  (forall i out, i ∈ order -> body out i = match pos i with
     | Some (p, a) => aset out p (Some a) | None => Ok out end) ->
  exists out', parallel_for order body out = Ok out' /\ length out' = length out /\
    forall i p a, i ∈ order -> pos i = Some (p, a) -> aget out' p = Ok (Some a).
Proof.
  intros Hl Hb. unfold parallel_for.
  destruct (foldM_inv body (fun done out' => length out' = length out /\
    forall i p a, i ∈ done -> pos i = Some (p, a) -> aget out' p = Ok (Some a)) order out)
    as (out' & E & H1 & H2).
  - split; [reflexivity|]. intros i p a Hi. inversion Hi.
  - intros done i todo b -> [L H]. rewrite Hb by (apply elem_of_app; right; left). destruct (pos i) as [[p a]|] eqn:Ep.
    + pose proof (pos_range _ _ _ Ep) as Hp. rewrite aset_in by lia. eexists. split; [reflexivity|].
      split; [rewrite length_insert; exact L|]. intros j q c Hj Hq. rewrite aget_insert by lia.
      destruct (decide (q = p)) as [->|Hne].
      * repeat f_equal. apply (pos_inj i j p); assumption.
      * apply elem_of_app in Hj as [Hj|Hj%list_elem_of_singleton]; [eapply H; eassumption|congruence].
    + eexists. split; [reflexivity|]. split; [exact L|]. intros j q c Hj Hq.
      apply elem_of_app in Hj as [Hj|Hj%list_elem_of_singleton]; [eapply H; eassumption|congruence].
  - exists out'. auto.
Qed.
End scatter.

(** A full array from what is known of each of its cells. *)
Lemma full_array {A} (out : list (option A)) (l : list A) :
  length out = length l ->
  (forall p a, l !! p = Some a -> aget out (Z.of_nat p) = Ok (Some a)) -> out = Some <$> l.
Proof.
  intros Hl H. apply list_eq. intros p. rewrite list_lookup_fmap. destruct (l !! p) as [a|] eqn:E.
  - apply H in E. apply aget_Ok in E as [_ E]. rewrite Nat2Z.id in E. exact E.
  - apply lookup_ge_None_2. apply lookup_ge_None_1 in E. lia.
Qed.

Section loop_theory.
Context {T : Type} (left_first : Z -> Z -> bool) (order : Z -> list Z).
Context (order_perm : forall n, order n ≡ₚ seqZ 0 n).
Implicit Types (l : list T).

Lemma in_order n i : i ∈ order n <-> 0 <= i < n.
Proof. rewrite (order_perm n), elem_of_seqZ. lia. Qed.

Section filtering.
Context (pred : Z -> T -> bool) (l : list T).
Abbreviation n := (Z.of_nat (length l)).
Abbreviation tally := (sum (fun i x => Z.b2z (pred i x)) l).

Definition pick (i : Z) : option T :=
  match aget l i with Ok x => if pred i x then Some x else None | Err _ => None end.

(** The elements [filter] keeps, in order. *)
Definition kept (k : Z) : list T := omap pick (seqZ 0 k).

Lemma tally_one i : tally i (i + 1) = match pick i with Some _ => 1 | None => 0 end.
Proof.
  rewrite sum_one. unfold term, pick. destruct (aget l i) as [x|]; [destruct (pred i x)|]; reflexivity.
Qed.

Lemma kept_succ k : 0 <= k ->
  kept (k + 1) = kept k ++ match pick k with Some x => [x] | None => [] end.
Proof.
  intros Hk. unfold kept. rewrite seqZ_app by lia. rewrite seqZ_one, omap_app. reflexivity.
Qed.

Lemma tally_kept k : 0 <= k -> tally 0 k = Z.of_nat (length (kept k)).
Proof.
  intros Hk. revert k Hk. apply natlike_ind; [reflexivity|]. intros k Hk IH. unfold Z.succ.
  rewrite (sum_split _ l 0 k (k + 1)), kept_succ, length_app, Nat2Z.inj_add, tally_one, IH by lia.
  destruct (pick k); reflexivity.
Qed.

Lemma tally_bounds lo hi : lo <= hi -> 0 <= tally lo hi <= hi - lo.
Proof.
  intros H. unfold sum. split.
  - apply sumZ_nonneg. intros i _. unfold term. destruct (aget l i) as [x|]; [destruct (pred i x)|]; cbn; try lia.
  - transitivity (sumZ (fun _ => 1) (seqZ lo (hi - lo))).
    + apply sumZ_le. intros i _. unfold term. destruct (aget l i) as [x|]; [destruct (pred i x)|]; cbn; try lia.
    + rewrite sumZ_const, length_seqZ. lia.
Qed.

(** Where [filter] writes the element of index [i]. *)
Definition target (i : Z) : option (Z * T) :=
  if (0 <=? i) && (i <? n) then (fun x => (tally 0 i, x)) <$> pick i else None.

Lemma target_kept i p x : target i = Some (p, x) -> 0 <= p /\ kept n !! Z.to_nat p = Some x.
Proof.
  unfold target. destruct (Z.leb_spec 0 i), (Z.ltb_spec i n); try discriminate. cbn.
  destruct (pick i) as [y|] eqn:Ep; [|discriminate]. intros [= <- <-].
  rewrite tally_kept by lia. split; [lia|]. rewrite Nat2Z.id.
  assert (exists tl, kept n = kept (i + 1) ++ tl) as [tl ->].
  { exists (omap pick (seqZ (i + 1) (n - (i + 1)))). unfold kept. rewrite <- omap_app.
    replace (seqZ (i + 1) (n - (i + 1))) with (seqZ (0 + (i + 1)) (n - (i + 1))) by (f_equal; lia).
    rewrite <- seqZ_app by lia. repeat f_equal. lia. }
  rewrite kept_succ, Ep by lia. rewrite <- (assoc_L (++)). rewrite lookup_app_r by lia.
  rewrite Nat.sub_diag. reflexivity.
Qed.

Lemma kept_target k p x : 0 <= k <= n -> kept k !! p = Some x ->
  exists i, 0 <= i < k /\ target i = Some (Z.of_nat p, x).
Proof.
  intros [Hk Hn]. revert k Hk Hn p x.
  apply (natlike_ind (fun k => k <= n -> forall p x, kept k !! p = Some x ->
    exists i, 0 <= i < k /\ target i = Some (Z.of_nat p, x))).
  - intros _ p x Hp. cbn in Hp. destruct p; discriminate.
  - intros k Hk IH Hn p x. unfold Z.succ. rewrite kept_succ by lia.
    intros [Hp|[Hge Hp]]%lookup_app_Some.
    + destruct (IH ltac:(lia) p x Hp) as (i & Hi & Ht). exists i. split; [lia|exact Ht].
    + destruct (pick k) as [y|] eqn:Ep; [|destruct (p - length (kept k))%nat; discriminate].
      apply list_lookup_singleton_Some in Hp as [Hz <-]. exists k. split; [lia|]. unfold target.
      rewrite (proj2 (Z.leb_le 0 k)), (proj2 (Z.ltb_lt k n)) by lia. cbn. rewrite Ep. cbn.
      rewrite tally_kept by lia. repeat f_equal. lia.
Qed.

Lemma filter_ok : 0 < n -> n <= LONG_MAX ->
  filter left_first order pred (Some <$> l) n = Ok (Some <$> kept n, Z.of_nat (length (kept n))).
Proof.
  intros Hn Hmax. unfold filter.
  rewrite plus_scan_ok by (exact Hn || (intros lo hi H1 H2 H3; apply in_int_true;
    pose proof (tally_bounds lo hi H2); unfold int_min, LONG_MAX in *; lia)).
  rewrite bind_ok_l. run_res (scan_cell (fun i x => Z.b2z (pred i x)) l n ltac:(lia)).
  rewrite tally_kept by lia. unfold my_malloc, assert_. rewrite (proj2 (Z.leb_le 0 _)) by lia.
  rewrite ?bind_ok_l.
  destruct (scatter_ok (Z.of_nat (length (kept n))) target) with (order := order n)
    (body := fun out i =>
        o ← read_cell ((fun i => Some (tally 0 i)) <$> seqZ 0 (n + 1)) i;
        o1 ← read_cell ((fun i => Some (tally 0 i)) <$> seqZ 0 (n + 1)) (i + 1);
        (if o + 1 =? o1 then x ← read_cell (Some <$> l) i; aset out o (Some x) else Ok out) : res _)
    (out := replicate (Z.to_nat (Z.of_nat (length (kept n)))) (@None T))
    as (out & E & L & Hout).
  - intros i p a Ht. apply target_kept in Ht as [Hp Hk%lookup_lt_Some]. lia.
  - intros i j p a b Hi Hj. apply target_kept in Hi as [_ Hi], Hj as [_ Hj]. congruence.
  - rewrite length_replicate. lia.
  - intros i out Hi%in_order.
    run_res (scan_cell (fun i x => Z.b2z (pred i x)) l i ltac:(lia)).
    run_res (scan_cell (fun i x => Z.b2z (pred i x)) l (i + 1) ltac:(lia)).
    rewrite (sum_split _ l 0 i (i + 1)), tally_one by lia. unfold target.
    rewrite (proj2 (Z.leb_le 0 i)), (proj2 (Z.ltb_lt i n)) by lia. cbn [andb].
    destruct (read_some l i Hi) as (x & Ex & El). run_res Ex.
    unfold pick. rewrite El. destruct (pred i x); cbn [fmap option_fmap option_map].
    + rewrite Z.eqb_refl. reflexivity.
    + rewrite (proj2 (Z.eqb_neq _ _)) by lia. reflexivity.
  - run_res E. rewrite (full_array out (kept n)); [reflexivity| |].
    + rewrite L, length_replicate. lia.
    + intros p x Hp. destruct (kept_target n p x ltac:(lia) Hp) as (i & Hi & Ht).
      apply (Hout i); [apply in_order; exact Hi|exact Ht].
Qed.
End filtering.

Lemma kept_filter (p : T -> bool) l :
  kept (fun _ => p) l (Z.of_nat (length l)) = List.filter p l.
Proof.
  induction l as [|x l IH] using rev_ind; [reflexivity|].
  rewrite length_app, Nat2Z.inj_add. cbn [length]. change (Z.of_nat 1) with 1.
  rewrite kept_succ, List.filter_app by lia. f_equal.
  - rewrite <- IH. apply list_omap_ext, Forall_Forall2_diag, Forall_forall.
    intros i Hi%elem_of_seqZ. unfold pick. rewrite aget_app_l by lia. reflexivity.
  - unfold pick, aget. rewrite (proj2 (Z.leb_le 0 _)) by lia.
    rewrite Nat2Z.id, lookup_app_r, Nat.sub_diag by lia. cbn. destruct (p x); reflexivity.
Qed.

Lemma append_ok l1 l2 :
  append order (Some <$> l1) (Z.of_nat (length l1)) (Some <$> l2) (Z.of_nat (length l2)) =
    Ok (Some <$> (l1 ++ l2)).
Proof.
  unfold append, my_malloc, assert_. rewrite (proj2 (Z.leb_le 0 _)) by lia. rewrite ?bind_ok_l.
  set (len := Z.of_nat (length l1) + Z.of_nat (length l2)).
  destruct (scatter_ok len (fun i => if (0 <=? i) && (i <? len) then
      match aget (l1 ++ l2) i with Ok x => Some (i, x) | Err _ => None end else None))
    with (order := order len)
    (body := fun out i => (x ← (if i <? Z.of_nat (length l1) then read_cell (Some <$> l1) i
      else read_cell (Some <$> l2) (i - Z.of_nat (length l1))); aset out i (Some x)) : res _)
    (out := replicate (Z.to_nat len) (@None T)) as (out & E & L & Hout).
  - intros i p a H. destruct (Z.leb_spec 0 i), (Z.ltb_spec i len); try discriminate. cbn in H.
    destruct (aget (l1 ++ l2) i); [|discriminate]. injection H as <- _. lia.
  - intros i j p a b Hi Hj. destruct ((0 <=? i) && (i <? len)), ((0 <=? j) && (j <? len)); try discriminate.
    destruct (aget (l1 ++ l2) i) eqn:Ei; [|discriminate]. destruct (aget (l1 ++ l2) j) eqn:Ej; [|discriminate].
    congruence.
  - rewrite length_replicate. lia.
  - intros i out Hi%in_order. rewrite (proj2 (Z.leb_le 0 i)), (proj2 (Z.ltb_lt i len)) by lia. cbn [andb].
    destruct (Z.ltb_spec i (Z.of_nat (length l1))).
    + destruct (read_some l1 i) as (x & Ex & El); [lia|]. run_res Ex. rewrite aget_app_l, El by lia. reflexivity.
    + destruct (read_some l2 (i - Z.of_nat (length l1))) as (x & Ex & El); [lia|]. run_res Ex.
      replace (aget (l1 ++ l2) i) with (aget l2 (i - Z.of_nat (length l1))); [rewrite El; reflexivity|].
      unfold aget. rewrite !(proj2 (Z.leb_le 0 _)) by lia. rewrite lookup_app_r by lia.
      replace (Z.to_nat (i - Z.of_nat (length l1))) with (Z.to_nat i - length l1)%nat by lia. reflexivity.
  - etransitivity; [exact E|]. rewrite (full_array out (l1 ++ l2)); [reflexivity| |].
    + rewrite L, length_replicate, length_app. lia.
    + intros p x Hp. pose proof (lookup_lt_Some _ _ _ Hp) as Hl. rewrite length_app in Hl.
      apply (Hout (Z.of_nat p)); [apply in_order; lia|].
      rewrite (proj2 (Z.leb_le 0 _)), (proj2 (Z.ltb_lt _ len)) by lia. cbn [andb].
      rewrite (proj2 (aget_Ok _ _ x)); [reflexivity|]. rewrite Nat2Z.id. split; [lia|exact Hp].
Qed.
End loop_theory.

(** ** Selection *)

Lemma filter_absorb {A} (p q : A -> bool) l :
  (forall x, q x = true -> p x = true) -> List.filter q (List.filter p l) = List.filter q l.
Proof.
  intros H. induction l as [|x l IH]; [reflexivity|]. cbn. destruct (p x) eqn:Ep; cbn; rewrite ?IH; [reflexivity|].
  destruct (q x) eqn:Eq; [apply H in Eq; congruence|reflexivity].
Qed.

Lemma filter_split_length {A} (p q : A -> bool) l :
  (forall x, p x = false -> q x = true) ->
  Z.of_nat (length (List.filter q l)) =
    Z.of_nat (length (List.filter q (List.filter p l))) +
    (Z.of_nat (length l) - Z.of_nat (length (List.filter p l))).
Proof.
  intros H. induction l as [|x l IH]; [reflexivity|]. cbn. destruct (p x) eqn:Ep; cbn.
  - destruct (q x); cbn; lia.
  - rewrite (H x Ep). cbn. lia.
Qed.

Lemma filter_lt_length {A} (p : A -> bool) l x :
  x ∈ l -> p x = false -> (length (List.filter p l) < length l)%nat.
Proof.
  intros Hx Hp. pose proof (filter_length_le p l). destruct (decide (length (List.filter p l) = length l)) as [E|]; [|lia].
  apply filter_length_forallb in E. rewrite forallb_forall in E. apply list_elem_of_In in Hx.
  rewrite (E x Hx) in Hp. discriminate.
Qed.

Section selection.
Context {T : Type} (cmp : T -> T -> Z).
Context (cmp_flip : forall a b, cmp a b < 0 <-> 0 < cmp b a).
Context (cmp_trans : forall a b c, cmp a b <= 0 -> cmp b c <= 0 -> cmp a c <= 0).
Implicit Types (l : list T).

(** How many elements are smaller than [x], and how many are not greater. *)
Definition smaller l (x : T) : Z := Z.of_nat (length (List.filter (fun y => cmp y x <? 0) l)).
Definition at_most l (x : T) : Z := Z.of_nat (length (List.filter (fun y => cmp y x <=? 0) l)).

(** [x] is an element of rank [k]. *)
Definition ranked (k : Z) l (x : T) : Prop := x ∈ l /\ smaller l x <= k < at_most l x.

Lemma cmp_lt_le a b c : cmp a b < 0 -> cmp b c <= 0 -> cmp a c < 0.
Proof.
  intros H1 H2. destruct (decide (cmp a c < 0)); [assumption|exfalso].
  assert (H3 : cmp c a <= 0) by (destruct (decide (0 < cmp c a)) as [H%cmp_flip|]; lia).
  pose proof (cmp_trans _ _ _ H2 H3). apply cmp_flip in H1. lia.
Qed.

Lemma cmp_le_lt a b c : cmp a b <= 0 -> cmp b c < 0 -> cmp a c < 0.
Proof.
  intros H1 H2. destruct (decide (cmp a c < 0)); [assumption|exfalso].
  assert (H3 : cmp c a <= 0) by (destruct (decide (0 < cmp c a)) as [H%cmp_flip|]; lia).
  pose proof (cmp_trans _ _ _ H3 H1). apply cmp_flip in H2. lia.
Qed.

Lemma cmp_irrefl a : ~ cmp a a < 0 /\ ~ 0 < cmp a a.
Proof. pose proof (cmp_flip a a). lia. Qed.

Lemma ranked_below k l p x :
  ranked k (List.filter (fun y => cmp y p <? 0) l) x -> ranked k l x.
Proof.
  intros [Hin H]. apply list_elem_of_In, filter_In in Hin as [Hin Hx%Z.ltb_lt].
  split; [apply list_elem_of_In; exact Hin|]. unfold smaller, at_most in *.
  rewrite !filter_absorb in H; [exact H| |].
  - intros y Hy%Z.leb_le. apply Z.ltb_lt. exact (cmp_le_lt _ _ _ Hy Hx).
  - intros y Hy%Z.ltb_lt. apply Z.ltb_lt. apply (cmp_lt_le _ _ _ Hy). lia.
Qed.

Lemma ranked_above k l p x :
  ranked (k - (Z.of_nat (length l) - Z.of_nat (length (List.filter (fun y => 0 <? cmp y p) l))))
    (List.filter (fun y => 0 <? cmp y p) l) x -> ranked k l x.
Proof.
  intros [Hin H]. apply list_elem_of_In, filter_In in Hin as [Hin Hx%Z.ltb_lt]. apply cmp_flip in Hx.
  split; [apply list_elem_of_In; exact Hin|]. unfold smaller, at_most in *.
  rewrite (filter_split_length (fun y => 0 <? cmp y p) (fun y => cmp y x <? 0) l),
    (filter_split_length (fun y => 0 <? cmp y p) (fun y => cmp y x <=? 0) l); [lia| |].
  - intros y Hy%Z.ltb_ge. apply Z.leb_le. pose proof (cmp_le_lt _ _ _ Hy Hx). lia.
  - intros y Hy%Z.ltb_ge. apply Z.ltb_lt. exact (cmp_le_lt _ _ _ Hy Hx).
Qed.

Lemma ranked_pivot k l p : p ∈ l -> smaller l p <= k ->
  k < Z.of_nat (length l) - Z.of_nat (length (List.filter (fun y => 0 <? cmp y p) l)) -> ranked k l p.
Proof.
  intros Hin H1 H2. split; [exact Hin|]. split; [exact H1|]. unfold at_most.
  rewrite (filter_split_length (fun y => 0 <? cmp y p)); [lia|].
  intros y Hy%Z.ltb_ge. apply Z.leb_le. exact Hy.
Qed.

Context (left_first : Z -> Z -> bool) (order : Z -> list Z) (rand : nat -> Z).
Context (order_perm : forall n, order n ≡ₚ seqZ 0 n) (rand_nonneg : forall c, 0 <= rand c).

Lemma quickselect_ok fuel c k l :
  0 <= k < Z.of_nat (length l) -> (length l <= fuel)%nat -> Z.of_nat (length l) <= LONG_MAX ->
  exists x, quickselect left_first order fuel rand c cmp k (Some <$> l) (Z.of_nat (length l)) = Ok x /\
    ranked k l x.
Proof.
  revert c k l. induction fuel as [|fuel IH]; intros c k l Hk Hf Hm; [lia|]. cbn [quickselect].
  unfold assert_. rewrite (proj2 (Z.leb_le 0 k)), (proj2 (Z.ltb_lt k _)) by lia. cbn [andb]. rewrite ?bind_ok_l.
  destruct (Z.eqb_spec (Z.of_nat (length l)) 1) as [E1|Hne].
  - destruct l as [|x [|]]; cbn in E1; try lia. exists x. split; [reflexivity|].
    split; [left|]. unfold smaller, at_most. cbn. pose proof (cmp_irrefl x).
    rewrite (proj2 (Z.ltb_ge _ _)), (proj2 (Z.leb_le _ _)) by lia. cbn in *. lia.
  - pose proof (Z.rem_bound_pos (rand c) (Z.of_nat (length l)) (rand_nonneg c) ltac:(lia)) as Hr.
    destruct (read_some l _ Hr) as (p & Ep & El). run_res Ep.
    assert (Hin : p ∈ l) by (apply aget_Ok in El as [_ El]; eapply list_elem_of_lookup_2; exact El).
    rewrite !filter_ok, !kept_filter by (exact order_perm || lia). rewrite ?bind_ok_l. cbn [mbind res_bind].
    assert (Hpp : cmp p p = 0) by (pose proof (cmp_irrefl p); lia).
    pose proof (filter_lt_length (fun y => cmp y p <? 0) l p Hin ltac:(cbn; rewrite Hpp; reflexivity)).
    pose proof (filter_lt_length (fun y => 0 <? cmp y p) l p Hin ltac:(cbn; rewrite Hpp; reflexivity)).
    destruct (Z.ltb_spec k (Z.of_nat (length (List.filter (fun y => cmp y p <? 0) l)))) as [HL|HL].
    + destruct (IH (S c) k (List.filter (fun y => cmp y p <? 0) l)) as (x & E & R); [lia|lia|lia|].
      exists x. split; [exact E|]. exact (ranked_below _ _ _ _ R).
    + set (G := List.filter (fun y => 0 <? cmp y p) l) in *.
      destruct (Z.ltb_spec k (Z.of_nat (length l) - Z.of_nat (length G))) as [HM|HM].
      * exists p. split; [reflexivity|]. apply ranked_pivot; [exact Hin|exact HL|exact HM].
      * destruct (IH (S c) (k - (Z.of_nat (length l) - Z.of_nat (length G))) G) as (x & E & R); [lia|lia|lia|].
        exists x. split; [exact E|]. exact (ranked_above _ _ _ _ R).
Qed.
End selection.

(** ** Reduction *)

Section reducing.
Context {A B : Type} (sequential : Z -> Z -> bool) (l : list A).
Abbreviation n := (Z.of_nat (length l)).

Definition slice (lo hi : Z) : list A := take (Z.to_nat (hi - lo)) (drop (Z.to_nat lo) l).

Lemma slice_cons lo hi : 0 <= lo < hi -> hi <= n ->
  exists x, aget l lo = Ok x /\ slice lo hi = x :: slice (lo + 1) hi.
Proof.
  intros H1 H2. destruct (aget_in l lo) as [x Hx]; [lia|]. exists x. split; [exact Hx|].
  apply aget_Ok in Hx as [_ Hx]. unfold slice. rewrite (drop_S l x _ Hx).
  replace (Z.to_nat (hi - lo)) with (S (Z.to_nat (hi - (lo + 1)))) by lia. cbn.
  replace (Z.to_nat (lo + 1)) with (S (Z.to_nat lo)) by lia. reflexivity.
Qed.

Lemma slice_split lo m hi : 0 <= lo <= m -> m <= hi -> slice lo hi = slice lo m ++ slice m hi.
Proof.
  intros H1 H2. unfold slice.
  replace (Z.to_nat (hi - lo)) with (Z.to_nat (m - lo) + Z.to_nat (hi - m))%nat by lia.
  rewrite <- take_take_drop, drop_drop. do 3 f_equal. lia.
Qed.

(** A sequential loop over [lo, hi). *)
Lemma loop_slice {R} (step : R -> A -> R) (body : R -> Z -> res R) lo hi r :
  (forall r i x, aget l i = Ok x -> body r i = Ok (step r x)) ->
  0 <= lo -> hi <= n ->
  foldM body r (seqZ lo (hi - lo)) = Ok (foldl step r (slice lo hi)).
Proof.
  intros Hb H0 Hn. destruct (decide (lo <= hi)) as [Hle|Hgt].
  - remember (Z.to_nat (hi - lo)) as k eqn:Ek. revert lo r H0 Hle Ek.
    induction k as [|k IH]; intros lo r H0 Hle Ek.
    + replace hi with lo by lia. unfold slice. rewrite Z.sub_diag. reflexivity.
    + destruct (slice_cons lo hi) as (x & Ex & ->); [lia|lia|]. rewrite seqZ_cons by lia. cbn.
      rewrite (Hb r lo x Ex), bind_ok_l. replace (Z.pred (hi - lo)) with (hi - (lo + 1)) by lia.
      apply IH; lia.
  - unfold slice. replace (Z.to_nat (hi - lo)) with O by lia. unfold seqZ.
    replace (Z.to_nat (hi - lo)) with O by lia. reflexivity.
Qed.

Section monoid.
Context (lift : A -> B) (binop : B -> B -> B) (id : B).
Context (binop_assoc : Assoc (=) binop) (id_right : RightId (=) id binop).

Abbreviation folded := (foldl (fun r x => binop r (lift x)) id).

Lemma folded_app k1 k2 : folded (k1 ++ k2) = binop (folded k1) (folded k2).
Proof.
  rewrite foldl_app. generalize (folded k1). intros v.
  cut (forall w, foldl (fun r x => binop r (lift x)) (binop v w) k2 =
         binop v (foldl (fun r x => binop r (lift x)) w k2)).
  { intros H. rewrite <- H, id_right. reflexivity. }
  induction k2 as [|x k2 IH]; intros w; cbn; [reflexivity|]. rewrite <- binop_assoc. apply IH.
Qed.

Lemma reduce_ok fuel lo hi : 0 <= lo -> hi <= n -> (Z.to_nat (hi - lo) < fuel)%nat ->
  reduce sequential fuel lift binop id (Some <$> l) lo hi = Ok (folded (slice lo hi)).
Proof.
  revert lo hi. induction fuel as [|fuel IH]; intros lo hi H0 Hn Hf; [lia|].
  assert (Hseq : foldM (fun result i => x ← read_cell (Some <$> l) i; Ok (binop result (lift x))) id
    (seqZ lo (hi - lo)) = Ok (folded (slice lo hi))).
  { apply (loop_slice (fun r x => binop r (lift x))); [|exact H0|exact Hn].
    intros r i x Ex. unfold read_cell. rewrite aget_fmap, Ex. reflexivity. }
  cbn [reduce]. destruct (sequential lo hi); [exact Hseq|]. destruct (Z.leb_spec hi (lo + 2)); [exact Hseq|].
  rewrite !IH by lia_div. cbn.
  rewrite <- folded_app, <- slice_split by lia_div. reflexivity.
Qed.
End monoid.

Lemma all_ok fuel (lift : A -> bool) lo hi : 0 <= lo -> hi <= n -> (Z.to_nat (hi - lo) < fuel)%nat ->
  all sequential fuel lift (Some <$> l) lo hi = Ok (forallb lift (slice lo hi)).
Proof.
  revert lo hi. induction fuel as [|fuel IH]; intros lo hi H0 Hn Hf; [lia|].
  assert (Hfold : forall (k : list A) (r : bool), foldl (fun (r : bool) (x : A) => if r then lift x else false) r k = r && forallb lift k).
  { induction k as [|x k IHk]; intros r; cbn; [rewrite andb_true_r; reflexivity|].
    rewrite IHk. destruct r; reflexivity. }
  assert (Hseq : foldM (fun (result : bool) i =>
      if result then x ← read_cell (Some <$> l) i; Ok (lift x) else Ok false) true
    (seqZ lo (hi - lo)) = Ok (forallb lift (slice lo hi))).
  { rewrite (loop_slice (fun (r : bool) x => if r then lift x else false)); [rewrite Hfold; reflexivity| |exact H0|exact Hn].
    intros r i x Ex. unfold read_cell. rewrite aget_fmap, Ex. destruct r; reflexivity. }
  cbn [all]. destruct (sequential lo hi); [exact Hseq|]. destruct (Z.leb_spec hi (lo + 2)); [exact Hseq|].
  rewrite !IH by lia_div. cbn.
  rewrite <- forallb_app, <- slice_split by lia_div. reflexivity.
Qed.
End reducing.

(** ** Properties *)

(** [plus_scan] of a non-empty array whose partial sums fit returns all its
    prefix sums, whichever branch of each [fork2] runs first, reading no cell
    before it is written; of an empty array it fails in [my_malloc]. *)
Theorem plus_scan_correct {T} (left_first : Z -> Z -> bool) (lift : Z -> T -> Z) (l : list T) :
  (forall lo hi, 0 <= lo -> lo <= hi -> hi <= Z.of_nat (length l) -> in_int int64 (sum lift l lo hi) = true) ->
  plus_scan left_first lift (Some <$> l) (Z.of_nat (length l)) =
    if bool_decide (l = []) then Err AssertFailed
    else Ok ((fun i => Some (sum lift l 0 i)) <$> seqZ 0 (Z.of_nat (length l) + 1)).
Proof.
  intros Hfit. case_bool_decide as E; [subst; reflexivity|]. apply plus_scan_ok; [exact Hfit|].
  destruct l; [contradiction|cbn; lia].
Qed.

(** C30: [quickselect] returns an element of rank [k], for every sequence of
    values of [rand ()], every order in which its parallel loops run and every
    comparison that is a total preorder: at most [k] elements are smaller and
    more than [k] are not greater.  It ends after at most as many calls as there
    are elements. *)
Theorem quickselect_correct {T} (cmp : T -> T -> Z) (left_first : Z -> Z -> bool) (order : Z -> list Z)
    (rand : nat -> Z) (k : Z) (l : list T) :
  (forall a b, cmp a b < 0 <-> 0 < cmp b a) ->
  (forall a b c, cmp a b <= 0 -> cmp b c <= 0 -> cmp a c <= 0) ->
  (forall n, order n ≡ₚ seqZ 0 n) -> (forall c, 0 <= rand c) ->
  0 <= k < Z.of_nat (length l) -> Z.of_nat (length l) <= LONG_MAX ->
  exists x, quickselect left_first order (length l) rand 0 cmp k (Some <$> l) (Z.of_nat (length l)) = Ok x /\
    x ∈ l /\ smaller cmp l x <= k < at_most cmp l x.
Proof.
  intros Hf Ht Ho Hr Hk Hm.
  exact (quickselect_ok cmp Hf Ht left_first order rand Ho Hr (length l) 0 k l Hk (le_n _) Hm).
Qed.

(** [filter] keeps exactly the elements that satisfy the predicate, in
    order; [append] concatenates; [reduce] with an associative operation and a
    right neutral element folds the array, and [all] tests every element, whether or
    not the ranges are reduced in parallel. *)
Theorem array_loops_correct {A B} (left_first sequential : Z -> Z -> bool) (order : Z -> list Z)
    (p : A -> bool) (lift : A -> B) (binop : B -> B -> B) (id : B) (l l' : list A) :
  (forall n, order n ≡ₚ seqZ 0 n) -> 0 < Z.of_nat (length l) <= LONG_MAX ->
  Assoc (=) binop -> RightId (=) id binop ->
  filter left_first order (fun _ => p) (Some <$> l) (Z.of_nat (length l)) =
    Ok (Some <$> List.filter p l, Z.of_nat (length (List.filter p l))) /\
  append order (Some <$> l) (Z.of_nat (length l)) (Some <$> l') (Z.of_nat (length l')) =
    Ok (Some <$> (l ++ l')) /\
  reduce sequential (S (length l)) lift binop id (Some <$> l) 0 (Z.of_nat (length l)) =
    Ok (foldl (fun r x => binop r (lift x)) id l) /\
  all sequential (S (length l)) p (Some <$> l) 0 (Z.of_nat (length l)) = Ok (forallb p l).
Proof.
  intros Ho Hl Ha Hri.
  assert (Hs : slice l 0 (Z.of_nat (length l)) = l).
  { unfold slice. cbn. apply take_ge. lia. }
  split_and!.
  - rewrite filter_ok, kept_filter by (exact Ho || lia). reflexivity.
  - apply append_ok. exact Ho.
  - rewrite (reduce_ok sequential l lift binop id Ha Hri), Hs by lia. reflexivity.
  - rewrite all_ok, Hs by lia. reflexivity.
Qed.

(** ** Concrete instances *)

Definition sample : list Z := [5; 3; 9; 1; 7].

Lemma plus_scan_correct_witness :
  plus_scan (fun _ _ => false) (fun _ x => x) (Some <$> [5; 3]) 2 = Ok [Some 0; Some 5; Some 8].
Proof.
  refine (eq_trans (plus_scan_correct (fun _ _ => false) (fun _ x => x) [5; 3] _) _); [|vm_compute; reflexivity].
  intros lo hi H0 H1 H2. cbn in H2.
  assert (Hc : (lo = 0 \/ lo = 1 \/ lo = 2) /\ (hi = 0 \/ hi = 1 \/ hi = 2)) by lia.
  destruct Hc as [[ -> | [ -> | -> ] ] [ -> | [ -> | -> ] ] ]; try lia; vm_compute; reflexivity.
Defined.

Lemma quickselect_correct_witness :
  exists x, quickselect (fun _ _ => true) (fun n => seqZ 0 n) 5 Z.of_nat 0 Z.sub 2 (Some <$> sample) 5 = Ok x /\
    x ∈ sample /\ smaller Z.sub sample x <= 2 < at_most Z.sub sample x.
Proof.
  apply (quickselect_correct Z.sub (fun _ _ => true) (fun n => seqZ 0 n) Z.of_nat 2 sample);
    [intros; lia|intros; lia|reflexivity|intros; lia|cbn; lia|vm_compute; discriminate].
Defined.

Lemma array_loops_correct_witness :
  reduce (fun _ _ => false) 6 (fun x => x) Z.add 0 (Some <$> sample) 0 5 = Ok 25.
Proof.
  exact (proj1 (proj2 (proj2 (array_loops_correct (fun _ _ => true) (fun _ _ => false) (fun n => seqZ 0 n)
    Z.even (fun x => x) Z.add 0 sample [] (fun _ => reflexivity _)
    ltac:(split; [reflexivity|vm_compute; discriminate]) _ _)))).
Defined.
End ArrayUtil.
