(* ===== verification/Ubvec.v ===== *)
(** * The growing vector of states (src/libsbpl/src/include/sbpl/planners/ubvec.h)

    [ubvec<T>] hands out the address of the state of an integer id.  The states
    live in up to 32 blocks; the block of an id is found with a logarithm, the
    position in the block by subtraction, and a block is allocated by the first
    thread that needs it.  The logarithms are modelled bit by bit, the
    allocation protocol as a step relation over all threads, one access to
    shared memory per step.  The array of blocks is read and written without
    synchronisation (createVec asks whether there is a race, and there is one);
    here memory is sequentially consistent, so an access to it is a step like
    the others.  [log_2], which goes through floating point, has no
    caller and is not modelled. *)

From S2P Require Import Prelude.

Module Ubvec.
Definition NUM_INNER_VECS : Z := 32.
Definition MIN_VEC_SIZE : Z := 2048.
Definition LOG_MIN_VEC_SIZE : Z := 11.

(** ** Logarithms *)

(** [S(k)]: [if (n >= (UINT64_C(1) << k)) { i += k; n >>= k; }] *)
Definition log_step (s : Z * Z) (k : Z) : Z * Z :=
  let '(i, n) := s in if Z.shiftl 1 k <=? n then (i + k, Z.shiftr n k) else (i, n).

Definition uint64_log2 (n : Z) : Z :=
  fst (foldl log_step (if n =? 0 then -1 else 0, n) [32; 16; 8; 4; 2; 1]).

(** The table [t] and the loop of [ceil_log2]; [j] is halved every time. *)
Definition ceil_masks : list Z :=
  [0xFFFFFFFF00000000; 0xFFFF0000; 0xFF00; 0xF0; 0xC; 0x2].

Definition ceil_step (s : Z * Z * Z) (t : Z) : Z * Z * Z :=
  let '(y, x, j) := s in
  let k := if Z.land x t =? 0 then 0 else j in
  (y + k, Z.shiftr x k, Z.shiftr j 1).

Definition ceil_log2 (x : Z) : Z :=
  let y := if Z.land x ((x - 1) mod 2 ^ 64) =? 0 then 0 else 1 in
  fst (fst (foldl ceil_step (y, x, 32) ceil_masks)).

(** ** Block and position of an id *)

(** The argument of [uint64_log2] is converted from [int]. *)
Definition speclog (i : Z) : Z :=
  if i =? 0 then 0 else Z.max (uint64_log2 (i mod 2 ^ 64) - LOG_MIN_VEC_SIZE + 1) 0.

Definition get_index (logI i : Z) : Z :=
  let nb := Z.shiftl 1 logI - 1 in
  if MIN_VEC_SIZE <=? i then i - nb - (MIN_VEC_SIZE - 1) else i.

(** [int vecSize = 1 << (logI + LOG_MIN_VEC_SIZE)] *)
Definition vec_size (logI : Z) : res Z :=
  if Z.shiftl 1 (logI + LOG_MIN_VEC_SIZE) <=? INT_MAX
  then Ok (Z.shiftl 1 (logI + LOG_MIN_VEC_SIZE)) else Err SignedOverflow.

(** ** The allocation protocol *)

(** Where a thread is in [getState (i)] and [createVec (logI, i)]. *)
Inductive pc :=
  | Idle
  | TestVec (i : Z)        (** [vecs[logI] == 0] in [getState] *)
  | LoadVal (i : Z)        (** [T* val = vecs[logI]] *)
  | Spin (i : Z)           (** [init[logI].load() == 0], with a null [val] *)
  | CasInit (i : Z)        (** [init[logI].compare_exchange_weak (expected, 0)] *)
  | NewVec (i : Z)         (** [nv = new T[vecSize]; vecs[logI] = nv] *)
  | StoreInit (i : Z)      (** [init[logI].store (1)] *)
  | Index (i : Z)          (** [&(vecs[logI][ind])] *)
  | Return (i vec ind : Z). (** the address of element [ind] of block [vec] *)

(** [blocks] lists the sizes of the blocks allocated so far; a pointer to a
    block is its number. *)
Record state := mkState {
  init : Z -> Z;
  vecs : Z -> option Z;
  blocks : list Z;
  threads : Z -> pc;
}.

Definition empty : state := mkState (fun _ => -1) (fun _ => None) [] (fun _ => Idle).

Definition goto (s : state) (t : Z) (p : pc) : state :=
  mkState (init s) (vecs s) (blocks s) (upd (threads s) t p).

(** An array access whose index is outside the array. *)
Definition in_array (b : bool) : res unit := if b then Ok () else Err OutOfBounds.

(** One step of thread [t]; [call] is the id of its next call, [spurious] lets
    the weak compare-and-swap fail. *)
Definition tstep (t call : Z) (spurious : bool) (s : state) : res state :=
  match threads s t with
  | Idle => Ok (goto s t (TestVec call))
  | TestVec i =>
      _ ← in_array (speclog i <? NUM_INNER_VECS);
      Ok (goto s t (match vecs s (speclog i) with None => LoadVal i | Some _ => Index i end))
  | LoadVal i =>
      Ok (goto s t (match vecs s (speclog i) with None => Spin i | Some _ => Index i end))
  | Spin i => Ok (goto s t (if init s (speclog i) =? 0 then Spin i else CasInit i))
  | CasInit i =>
      if negb spurious && (init s (speclog i) =? -1)
      then Ok (goto (mkState (upd (init s) (speclog i) 0) (vecs s) (blocks s) (threads s)) t (NewVec i))
      else Ok (goto s t (LoadVal i))
  | NewVec i =>
      size ← vec_size (speclog i);
      Ok (goto (mkState (init s) (upd (vecs s) (speclog i) (Some (Z.of_nat (length (blocks s)))))
                 (blocks s ++ [size]) (threads s)) t (StoreInit i))
  | StoreInit i =>
      Ok (goto (mkState (upd (init s) (speclog i) 1) (vecs s) (blocks s) (threads s)) t (LoadVal i))
  | Index i =>
      match vecs s (speclog i) with
      | Some vec =>
          size ← aget (blocks s) vec;
          let ind := get_index (speclog i) i in
          _ ← in_array ((0 <=? ind) && (ind <? size));
          Ok (goto s t (Return i vec ind))
      | None => Err OutOfBounds
      end
  | Return _ _ _ => Ok (goto s t Idle)
  end.

(** The ids for which [vecSize] fits an [int]. *)
Definition id_ok (i : Z) : Prop := 0 <= i < 2 ^ 30.

Definition step (s s' : state) : Prop :=
  exists t call spurious, id_ok call /\ tstep t call spurious s = Ok s'.

(** ** The logarithms are the logarithms *)

Lemma log_step_ok i n k : 0 <= k -> 0 < n < 2 ^ (2 * k) ->
  let '(i', n') := log_step (i, n) k in i' + Z.log2 n' = i + Z.log2 n /\ 0 < n' < 2 ^ k.
Proof.
  intros Hk Hn. cbn. rewrite Z.shiftl_mul_pow2, Z.mul_1_l by exact Hk.
  assert (0 < 2 ^ k) by (apply Z.pow_pos_nonneg; lia).
  replace (2 ^ (2 * k)) with (2 ^ k * 2 ^ k) in Hn by (rewrite <- Z.pow_add_r by lia; f_equal; lia).
  destruct (Z.leb_spec (2 ^ k) n) as [H1|H1]; [|lia]. rewrite Z.log2_shiftr by lia.
  assert (k <= Z.log2 n) by (apply Z.log2_le_pow2; lia). rewrite Z.shiftr_div_pow2 by exact Hk.
  split; [lia|]. split; [apply Z.div_str_pos; lia|apply Z.div_lt_upper_bound; lia].
Qed.

Lemma uint64_log2_ok n : 0 < n < 2 ^ 64 -> uint64_log2 n = Z.log2 n.
Proof.
  intros Hn. unfold uint64_log2. rewrite (proj2 (Z.eqb_neq n 0)) by lia. cbn [foldl].
  pose proof (log_step_ok 0 n 32 ltac:(lia) Hn) as H1. destruct (log_step (0, n) 32) as [i1 n1].
  pose proof (log_step_ok i1 n1 16 ltac:(lia) (proj2 H1)) as H2. destruct (log_step (i1, n1) 16) as [i2 n2].
  pose proof (log_step_ok i2 n2 8 ltac:(lia) (proj2 H2)) as H3. destruct (log_step (i2, n2) 8) as [i3 n3].
  pose proof (log_step_ok i3 n3 4 ltac:(lia) (proj2 H3)) as H4. destruct (log_step (i3, n3) 4) as [i4 n4].
  pose proof (log_step_ok i4 n4 2 ltac:(lia) (proj2 H4)) as H5. destruct (log_step (i4, n4) 2) as [i5 n5].
  pose proof (log_step_ok i5 n5 1 ltac:(lia) (proj2 H5)) as H6. destruct (log_step (i5, n5) 1) as [i6 n6].
  cbn. destruct H6 as [H6 H7]. replace n6 with 1 in H6 by lia. cbn in H6. lia.
Qed.

Lemma land_mask x k : 0 <= k -> 0 <= x < 2 ^ (2 * k) ->
  Z.land x (Z.shiftl (Z.ones k) k) = 0 <-> x < 2 ^ k.
Proof.
  intros Hk Hx. assert (0 < 2 ^ k) by (apply Z.pow_pos_nonneg; lia).
  replace (2 ^ (2 * k)) with (2 ^ k * 2 ^ k) in Hx by (rewrite <- Z.pow_add_r by lia; f_equal; lia).
  assert (Z.land x (Z.shiftl (Z.ones k) k) = x / 2 ^ k * 2 ^ k) as ->.
  { rewrite <- (Z.mod_small (x / 2 ^ k) (2 ^ k)) by
      (split; [apply Z.div_pos; lia|apply Z.div_lt_upper_bound; lia]).
    rewrite <- Z.land_ones, <- Z.shiftr_div_pow2, <- Z.shiftl_mul_pow2 by exact Hk.
    apply Z.bits_inj'. intros m Hm. rewrite Z.land_spec, !Z.shiftl_spec by exact Hm.
    destruct (Z.leb_spec k m).
    - rewrite Z.land_spec, Z.shiftr_spec by lia. do 2 f_equal. lia.
    - rewrite !(Z.testbit_neg_r _ (m - k)) by lia. apply andb_false_r. }
  pose proof (Z.div_mod x (2 ^ k) ltac:(lia)). pose proof (Z.mod_pos_bound x (2 ^ k) ltac:(lia)).
  split; [intros E; lia|]. intros Hlt. rewrite Z.div_small by lia. reflexivity.
Qed.

Lemma ceil_step_ok y x k t : 0 <= k -> t = Z.shiftl (Z.ones k) k -> 0 < x < 2 ^ (2 * k) ->
  let '(y', x', j') := ceil_step (y, x, k) t in
  y' + Z.log2 x' = y + Z.log2 x /\ 0 < x' < 2 ^ k /\ j' = Z.shiftr k 1.
Proof.
  intros Hk -> Hx. pose proof (log_step_ok y x k Hk Hx) as H. cbn in *.
  rewrite Z.shiftl_mul_pow2, Z.mul_1_l in H by exact Hk.
  pose proof (land_mask x k Hk ltac:(lia)) as Hm.
  destruct (Z.eqb_spec (Z.land x (Z.shiftl (Z.ones k) k)) 0), (Z.leb_spec (2 ^ k) x); try lia.
  rewrite Z.add_0_r, Z.shiftr_0_r. intuition.
Qed.

(** [x & (x - 1)] clears the lowest set bit. *)
Lemma land_pred x : 0 < x -> Z.land x (x - 1) = 0 <-> x = 2 ^ Z.log2 x.
Proof.
  intros Hx. pose proof (Z.log2_spec x Hx) as Hl. pose proof (Z.log2_nonneg x) as Hl0.
  split; intros H.
  - destruct (decide (x = 2 ^ Z.log2 x)) as [|Hne]; [assumption|exfalso].
    assert (Z.testbit (Z.land x (x - 1)) (Z.log2 x) = true) as Hb; [|rewrite H, Z.bits_0 in Hb; discriminate].
    rewrite Z.land_spec, Z.bit_log2 by exact Hx. cbn.
    replace (Z.log2 x) with (Z.log2 (x - 1)); [apply Z.bit_log2; lia|].
    apply Z.log2_unique; lia.
  - rewrite H. replace (2 ^ Z.log2 x - 1) with (Z.ones (Z.log2 x)) by (rewrite Z.ones_equiv; lia).
    rewrite Z.land_ones by assumption. apply Z.mod_same. lia.
Qed.

Lemma ceil_log2_ok x : 0 < x < 2 ^ 64 -> ceil_log2 x = Z.log2_up x.
Proof.
  intros Hx. unfold ceil_log2, ceil_masks. cbn [foldl].
  rewrite Z.mod_small by lia.
  set (y := if Z.land x (x - 1) =? 0 then 0 else 1).
  assert (Hy : y + Z.log2 x = Z.log2_up x).
  { unfold y. destruct (Z.eqb_spec (Z.land x (x - 1)) 0) as [E|E]; rewrite land_pred in E by lia.
    - rewrite E at 2. rewrite Z.log2_up_pow2 by apply Z.log2_nonneg. lia.
    - pose proof (Z.le_log2_up_succ_log2 x). pose proof (Z.le_log2_log2_up x).
      assert (Z.log2 x <> Z.log2_up x); [|lia].
      intros [b Hb]%Z.log2_log2_up_exact; [|lia]. apply E. destruct (decide (0 <= b)).
      + rewrite Hb at 2. rewrite Z.log2_pow2 by lia. exact Hb.
      + rewrite Z.pow_neg_r in Hb by lia. lia. }
  pose proof (ceil_step_ok y x 32 0xFFFFFFFF00000000 ltac:(lia) eq_refl Hx) as H1.
  destruct (ceil_step (y, x, 32) _) as [[y1 x1] j1]. destruct H1 as (E1 & H1 & ->).
  pose proof (ceil_step_ok y1 x1 16 0xFFFF0000 ltac:(lia) eq_refl H1) as H2.
  change (Z.shiftr 32 1) with 16. destruct (ceil_step (y1, x1, 16) _) as [[y2 x2] j2]. destruct H2 as (E2 & H2 & ->).
  pose proof (ceil_step_ok y2 x2 8 0xFF00 ltac:(lia) eq_refl H2) as H3.
  change (Z.shiftr 16 1) with 8. destruct (ceil_step (y2, x2, 8) _) as [[y3 x3] j3]. destruct H3 as (E3 & H3 & ->).
  pose proof (ceil_step_ok y3 x3 4 0xF0 ltac:(lia) eq_refl H3) as H4.
  change (Z.shiftr 8 1) with 4. destruct (ceil_step (y3, x3, 4) _) as [[y4 x4] j4]. destruct H4 as (E4 & H4 & ->).
  pose proof (ceil_step_ok y4 x4 2 0xC ltac:(lia) eq_refl H4) as H5.
  change (Z.shiftr 4 1) with 2. destruct (ceil_step (y4, x4, 2) _) as [[y5 x5] j5]. destruct H5 as (E5 & H5 & ->).
  pose proof (ceil_step_ok y5 x5 1 0x2 ltac:(lia) eq_refl H5) as H6.
  change (Z.shiftr 2 1) with 1. destruct (ceil_step (y5, x5, 1) _) as [[y6 x6] j6]. destruct H6 as (E6 & H6 & _).
  cbn. replace x6 with 1 in E6 by lia. cbn in E6. lia.
Qed.

(** ** Every id has a place of its own *)

Lemma speclog_eq i : 0 <= i < 2 ^ 31 -> speclog i = Z.max (Z.log2 i - 10) 0.
Proof.
  intros Hi. unfold speclog, LOG_MIN_VEC_SIZE. destruct (Z.eqb_spec i 0) as [->|]; [reflexivity|].
  rewrite Z.mod_small by lia. rewrite uint64_log2_ok by lia. f_equal. lia.
Qed.

Lemma speclog_range i : id_ok i -> 0 <= speclog i < 20.
Proof.
  intros Hi. unfold id_ok in Hi. rewrite speclog_eq by lia. assert (Z.log2 i < 30); [|lia].
  destruct (decide (i = 0)) as [->|]; [reflexivity|]. apply Z.log2_lt_pow2; lia.
Qed.

Lemma speclog_small i : 0 <= i < 2048 -> speclog i = 0.
Proof.
  intros Hi. rewrite speclog_eq by lia. destruct (decide (i = 0)) as [->|]; [reflexivity|].
  assert (Z.log2 i < 11) by (apply Z.log2_lt_pow2; lia). lia.
Qed.

Lemma speclog_big i : 2048 <= i < 2 ^ 31 -> speclog i = Z.log2 i - 10 /\ 11 <= Z.log2 i.
Proof.
  intros Hi. rewrite speclog_eq by lia. assert (11 <= Z.log2 i) by (apply Z.log2_le_pow2; lia). lia.
Qed.

Lemma vec_size_ok l : 0 <= l < 20 -> vec_size l = Ok (2 ^ (l + 11)).
Proof.
  intros Hl. unfold vec_size, LOG_MIN_VEC_SIZE. rewrite Z.shiftl_mul_pow2, Z.mul_1_l by lia.
  rewrite (proj2 (Z.leb_le _ _)); [reflexivity|].
  transitivity (2 ^ 30); [apply Z.pow_le_mono_r; lia|vm_compute; discriminate].
Qed.

Lemma get_index_range i : id_ok i -> 0 <= get_index (speclog i) i < 2 ^ (speclog i + 11).
Proof.
  intros Hi. unfold id_ok in Hi. unfold get_index, MIN_VEC_SIZE. destruct (Z.leb_spec 2048 i).
  - destruct (speclog_big i) as [-> Hl]; [lia|]. set (k := Z.log2 i) in *.
    pose proof (Z.log2_spec i ltac:(lia)) as [H1 H2]. fold k in H1, H2.
    rewrite Z.shiftl_mul_pow2, Z.mul_1_l by lia. replace (k - 10 + 11) with (Z.succ k) by lia.
    assert (0 < 2 ^ (k - 10)) by (apply Z.pow_pos_nonneg; lia).
    assert (2 ^ k = 2 ^ (k - 10) * 1024) by (change 1024 with (2 ^ 10); rewrite <- Z.pow_add_r by lia; f_equal; lia).
    assert (2 <= 2 ^ (k - 10)) by (transitivity (2 ^ 1); [reflexivity|apply Z.pow_le_mono_r; lia]). lia.
  - rewrite speclog_small by lia. cbn. lia.
Qed.

Lemma place_inj i j : id_ok i -> id_ok j -> speclog i = speclog j ->
  get_index (speclog i) i = get_index (speclog j) j -> i = j.
Proof.
  intros Hi Hj Hs. unfold id_ok in *. rewrite <- Hs. unfold get_index, MIN_VEC_SIZE.
  destruct (Z.leb_spec 2048 i), (Z.leb_spec 2048 j).
  - lia.
  - destruct (speclog_big i) as [E ?]; [lia|]. rewrite (speclog_small j) in Hs by lia. lia.
  - destruct (speclog_big j) as [E ?]; [lia|]. rewrite (speclog_small i) in Hs by lia. lia.
  - lia.
Qed.

(** ** The protocol *)

(** The id a thread is looking up. *)
Definition looking_up (p : pc) : option Z :=
  match p with
  | Idle => None
  | TestVec i | LoadVal i | Spin i | CasInit i | NewVec i | StoreInit i | Index i | Return i _ _ => Some i
  end.

(** The block a thread is about to allocate or to publish. *)
Definition making (p : pc) : option Z :=
  match p with NewVec i | StoreInit i => Some (speclog i) | _ => None end.

(** What a position of a thread says of the shared arrays. *)
Definition place_ok (s : state) (p : pc) : Prop :=
  match p with
  | NewVec i => vecs s (speclog i) = None
  | Index i => vecs s (speclog i) <> None
  | Return i a ind => vecs s (speclog i) = Some a /\ ind = get_index (speclog i) i
  | _ => True
  end.

Record inv (s : state) : Prop := {
  v_ids : forall t i, looking_up (threads s t) = Some i -> id_ok i;
  v_fresh : forall l, init s l = -1 -> vecs s l = None;
  v_making : forall t l, making (threads s t) = Some l -> init s l = 0;
  v_zero : forall l, init s l = 0 -> exists t, making (threads s t) = Some l;
  v_unique : forall t t' l,
    making (threads s t) = Some l -> making (threads s t') = Some l -> t = t';
  v_place : forall t, place_ok s (threads s t);
  v_block : forall l a, vecs s l = Some a -> aget (blocks s) a = Ok (2 ^ (l + 11));
  v_inj : forall l l' a, vecs s l = Some a -> vecs s l' = Some a -> l = l';
}.

Lemma empty_inv : inv empty.
Proof. split; cbn; try discriminate; auto. Qed.

Lemma threads_goto s t p t' : threads (goto s t p) t' = if decide (t' = t) then p else threads s t'.
Proof. reflexivity. Qed.

(** A step that only moves the thread. *)
Lemma vec_goto s t p : inv s ->
  (forall i, looking_up p = Some i -> id_ok i) ->
  making (threads s t) = None -> making p = None -> place_ok s p -> inv (goto s t p).
Proof.
  intros [I1 I2 I3 I4 I5 I6 I7 I8] Hid Hm Hm' Hp. split.
  - intros t' i. rewrite threads_goto. case_decide; [apply Hid|apply I1].
  - exact I2.
  - intros t' l. rewrite threads_goto. case_decide; [congruence|apply I3].
  - intros l Hl. destruct (I4 l Hl) as [t' Ht']. exists t'. rewrite threads_goto, decide_False; congruence.
  - intros t1 t2 l. rewrite !threads_goto. do 2 case_decide; try congruence. apply I5.
  - intros t'. rewrite threads_goto. case_decide; [exact Hp|apply (I6 t')].
  - exact I7.
  - exact I8.
Qed.

(** Winning the compare-and-swap. *)
Lemma inv_cas s t i : inv s -> threads s t = CasInit i -> init s (speclog i) = -1 ->
  inv (goto (mkState (upd (init s) (speclog i) 0) (vecs s) (blocks s) (threads s)) t (NewVec i)).
Proof.
  intros [I1 I2 I3 I4 I5 I6 I7 I8] Ht Hi.
  assert (Hfree : forall t', making (threads s t') <> Some (speclog i)).
  { intros t' Hm%I3. congruence. }
  split; cbn; [| | | | | |exact I7|exact I8].
  - intros t' j. unfold upd. case_decide; [subst; intros Hj; apply (I1 t); rewrite Ht; exact Hj|apply I1].
  - intros l. unfold upd. case_decide; [discriminate|apply I2].
  - intros t' l. unfold upd. case_decide; [intros [= <-]; rewrite decide_True; reflexivity|].
    intros Hm. case_decide; [reflexivity|apply (I3 t'); exact Hm].
  - intros l. unfold upd. case_decide as El.
    + intros _. exists t. rewrite decide_True by reflexivity. cbn. congruence.
    + intros Hl. destruct (I4 l Hl) as [t' Ht']. exists t'. rewrite decide_False; [exact Ht'|].
      intros ->. rewrite Ht in Ht'. discriminate.
  - intros t1 t2 l. unfold upd. do 2 case_decide; try congruence.
    + intros [= <-] Hm. destruct (Hfree _ Hm).
    + intros Hm [= <-]. destruct (Hfree _ Hm).
    + apply I5.
  - intros t'. unfold upd. case_decide; [|apply (I6 t')]. cbn. apply I2. exact Hi.
Qed.

(** Allocating the block. *)
Lemma inv_new s t i : inv s -> threads s t = NewVec i ->
  inv (goto (mkState (init s) (upd (vecs s) (speclog i) (Some (Z.of_nat (length (blocks s)))))
         (blocks s ++ [2 ^ (speclog i + 11)]) (threads s)) t (StoreInit i)).
Proof.
  intros [I1 I2 I3 I4 I5 I6 I7 I8] Ht.
  assert (Hm : making (threads s t) = Some (speclog i)) by (rewrite Ht; reflexivity).
  assert (Hnone : vecs s (speclog i) = None) by (pose proof (I6 t) as H; rewrite Ht in H; exact H).
  assert (Hold : forall l a, vecs s l = Some a -> 0 <= a < Z.of_nat (length (blocks s)))
    by (intros l a Ha%I7; exact (aget_bounds _ _ _ Ha)).
  split; cbn.
  - intros t' j. unfold upd. case_decide; [subst; intros Hj; apply (I1 t); rewrite Ht; exact Hj|apply I1].
  - intros l Hl. unfold upd. case_decide; [subst; rewrite (I3 t _ Hm) in Hl; discriminate|apply I2; exact Hl].
  - intros t' l. unfold upd. case_decide; [subst; intros [= <-]; apply (I3 t); exact Hm|apply I3].
  - intros l Hl. destruct (I4 l Hl) as [t' Ht']. exists t'. unfold upd. case_decide; [|exact Ht'].
    subst. rewrite Ht in Ht'. exact Ht'.
  - intros t1 t2 l. unfold upd. do 2 case_decide; subst; try congruence.
    + intros [= <-] H2. apply (I5 t t2 (speclog i)); auto.
    + intros H1 [= <-]. apply (I5 t1 t (speclog i)); auto.
    + apply I5.
  - intros t'. unfold upd. case_decide; [exact I|]. pose proof (I6 t') as Hp. destruct (threads s t') eqn:E; cbn in *; auto.
    + rewrite decide_False; [exact Hp|]. intros Heq. apply H, (I5 t' t (speclog i)); [rewrite E; cbn; congruence|exact Hm].
    + case_decide; [discriminate|exact Hp].
    + destruct Hp as [Hp Hind]. rewrite decide_False by congruence. auto.
  - intros l a. unfold upd. case_decide as El.
    + intros [= <-]. subst. apply aget_Ok. split; [lia|]. rewrite Nat2Z.id, lookup_app_r, Nat.sub_diag by lia. reflexivity.
    + intros Ha. rewrite aget_app_l; [apply I7; exact Ha|]. apply (Hold l). exact Ha.
  - intros l l' a. unfold upd. do 2 case_decide; subst; try congruence.
    + intros [= <-] Ha%Hold. lia.
    + intros Ha%Hold [= <-]. lia.
    + apply I8.
Qed.

(** Publishing it. *)
Lemma inv_store s t i : inv s -> threads s t = StoreInit i ->
  inv (goto (mkState (upd (init s) (speclog i) 1) (vecs s) (blocks s) (threads s)) t (LoadVal i)).
Proof.
  intros [I1 I2 I3 I4 I5 I6 I7 I8] Ht.
  assert (Hm : making (threads s t) = Some (speclog i)) by (rewrite Ht; reflexivity).
  split; cbn; [| | | | | |exact I7|exact I8].
  - intros t' j. unfold upd. case_decide; [subst; intros Hj; apply (I1 t); rewrite Ht; exact Hj|apply I1].
  - intros l. unfold upd. case_decide; [discriminate|apply I2].
  - intros t' l. unfold upd. case_decide as Et; [discriminate|]. intros H1.
    case_decide; [|apply (I3 t'); exact H1]. subst. destruct Et. apply (I5 t' t (speclog i)); auto.
  - intros l. unfold upd. case_decide; [discriminate|]. intros Hl. destruct (I4 l Hl) as [t' Ht']. exists t'.
    rewrite decide_False; [exact Ht'|]. intros ->. congruence.
  - intros t1 t2 l. unfold upd. do 2 case_decide; try discriminate. apply I5.
  - intros t'. unfold upd. case_decide; [exact I|apply (I6 t')].
Qed.

(** No step fails, every step keeps the invariant, and a block once allocated
    stays where it is. *)
Lemma tstep_ok s t call spurious : inv s -> id_ok call ->
  exists s', tstep t call spurious s = Ok s' /\ inv s' /\
    forall l a, vecs s l = Some a -> vecs s' l = Some a.
Proof.
  intros I0 Hc. pose proof (v_ids s I0 t) as Hid. pose proof (v_place s I0 t) as Hp.
  unfold tstep. destruct (threads s t) as [|i|i|i|i|i|i|i|i a ind] eqn:Et; cbn in Hid, Hp;
    try specialize (Hid i eq_refl).
  - eexists. split; [reflexivity|]. split; [|auto].
    apply vec_goto; [exact I0|intros i [= <-]; exact Hc|rewrite Et; reflexivity|reflexivity|exact I].
  - pose proof (speclog_range i Hid). unfold in_array, NUM_INNER_VECS.
    rewrite (proj2 (Z.ltb_lt _ _)) by lia. rewrite bind_ok_l. eexists. split; [reflexivity|]. split; [|auto].
    destruct (vecs s (speclog i)) eqn:Ev;
      (apply vec_goto; [exact I0|intros j [= <-]; exact Hid|rewrite Et; reflexivity|reflexivity|]); cbn; congruence || exact I.
  - eexists. split; [reflexivity|]. split; [|auto]. destruct (vecs s (speclog i)) eqn:Ev;
      (apply vec_goto; [exact I0|intros j [= <-]; exact Hid|rewrite Et; reflexivity|reflexivity|]); cbn; congruence || exact I.
  - eexists. split; [reflexivity|]. split; [|auto]. destruct (init s (speclog i) =? 0);
      (apply vec_goto; [exact I0|intros j [= <-]; exact Hid|rewrite Et; reflexivity|reflexivity|exact I]).
  - destruct (negb spurious); cbn [andb]; [destruct (Z.eqb_spec (init s (speclog i)) (-1))|];
      (eexists; split; [reflexivity|]; split; [|auto]).
    + apply inv_cas; assumption.
    + apply vec_goto; [exact I0|intros j [= <-]; exact Hid|rewrite Et; reflexivity|reflexivity|exact I].
    + apply vec_goto; [exact I0|intros j [= <-]; exact Hid|rewrite Et; reflexivity|reflexivity|exact I].
  - rewrite vec_size_ok by (apply speclog_range; exact Hid). rewrite bind_ok_l.
    eexists. split; [reflexivity|]. split; [apply inv_new; assumption|].
    intros l a Ha. cbn. rewrite upd_ne; [exact Ha|]. congruence.
  - eexists. split; [reflexivity|]. split; [apply inv_store; assumption|auto].
  - destruct (vecs s (speclog i)) as [a|] eqn:Ev; [|contradiction].
    rewrite (v_block s I0 _ _ Ev), bind_ok_l. pose proof (get_index_range i Hid). unfold in_array.
    rewrite (proj2 (Z.leb_le _ _)), (proj2 (Z.ltb_lt _ _)) by lia. cbn [andb]. rewrite bind_ok_l.
    eexists. split; [reflexivity|]. split; [|auto].
    apply vec_goto; [exact I0|intros j [= <-]; exact Hid|rewrite Et; reflexivity|reflexivity|]. cbn. auto.
  - eexists. split; [reflexivity|]. split; [|auto].
    apply vec_goto; [exact I0|discriminate|rewrite Et; reflexivity|reflexivity|exact I].
Qed.

Lemma step_inv s s' : inv s -> step s s' -> inv s' /\ forall l a, vecs s l = Some a -> vecs s' l = Some a.
Proof.
  intros I0 (t & call & sp & Hc & E). destruct (tstep_ok s t call sp I0 Hc) as (s2 & E2 & H).
  rewrite E2 in E. injection E as ->. exact H.
Qed.

Lemma steps_inv s s' : inv s -> rtc step s s' -> inv s' /\ forall l a, vecs s l = Some a -> vecs s' l = Some a.
Proof.
  intros I0 Hr. revert I0. induction Hr as [s|s s1 s2 Hs _ IH]; intros I0; [auto|].
  destruct (step_inv s s1 I0 Hs) as [I1 H1]. destruct (IH I1) as [I2 H2]. auto.
Qed.

(** ** Properties *)

(** C29: the addresses [getState] hands out are stable and distinct.  For any
    interleaving of any number of threads, two calls return the same address if
    and only if they were made with the same id, however far apart in the run,
    and the address lies inside a block that was allocated. *)
Theorem getState_addresses s s' t t' i i' a a' ind ind' :
  rtc step empty s -> rtc step s s' ->
  threads s t = Return i a ind -> threads s' t' = Return i' a' ind' ->
  (i = i' <-> (a, ind) = (a', ind')) /\
  exists size, aget (blocks s) a = Ok size /\ 0 <= ind < size.
Proof.
  intros Hr Hr' Ht Ht'. destruct (steps_inv _ _ empty_inv Hr) as [I0 _].
  destruct (steps_inv _ _ I0 Hr') as [I1 Hkeep].
  pose proof (v_ids s I0 t i) as Hi. rewrite Ht in Hi. specialize (Hi eq_refl).
  pose proof (v_ids s' I1 t' i') as Hi'. rewrite Ht' in Hi'. specialize (Hi' eq_refl).
  pose proof (v_place s I0 t) as Hp. rewrite Ht in Hp. destruct Hp as [Hv ->].
  pose proof (v_place s' I1 t') as Hp. rewrite Ht' in Hp. destruct Hp as [Hv' ->].
  split; [split|].
  - intros <-. rewrite (Hkeep _ _ Hv) in Hv'. congruence.
  - intros [= <- E]. apply place_inj; [exact Hi|exact Hi'| |exact E].
    exact (v_inj s' I1 _ _ _ (Hkeep _ _ Hv) Hv').
  - exists (2 ^ (speclog i + 11)). split; [exact (v_block s I0 _ _ Hv)|apply get_index_range; exact Hi].
Qed.

(** [getState] of an id below 2^30 never fails, at any point of any
    interleaving, and a thread that spins waits for another thread that is
    between winning the compare-and-swap and publishing the block. *)
Theorem getState_progress s t call spurious :
  rtc step empty s -> id_ok call ->
  (exists s', tstep t call spurious s = Ok s') /\
  (forall i, threads s t = Spin i -> init s (speclog i) = 0 ->
    exists t', t' <> t /\ making (threads s t') = Some (speclog i)).
Proof.
  intros Hr Hc. destruct (steps_inv _ _ empty_inv Hr) as [I0 _]. split.
  - destruct (tstep_ok s t call spurious I0 Hc) as (s' & E & _). exists s'. exact E.
  - intros i Ht Hi. destruct (v_zero s I0 _ Hi) as [t' Hm]. exists t'. split; [|exact Hm].
    intros ->. rewrite Ht in Hm. discriminate.
Qed.

(** On 64-bit numbers [uint64_log2] is the logarithm rounded down and
    [ceil_log2] the logarithm rounded up. *)
Theorem logarithms_correct n : 0 < n < 2 ^ 64 ->
  uint64_log2 n = Z.log2 n /\ ceil_log2 n = Z.log2_up n.
Proof. split; [apply uint64_log2_ok|apply ceil_log2_ok]; assumption. Qed.

(** ** Concrete runs *)

(** Runs along a schedule of threads and ids. *)
Fixpoint run (sched : list (Z * Z)) (s : state) : res state :=
  match sched with
  | [] => Ok s
  | (t, call) :: sched => s ← tstep t call false s; run sched s
  end.

Lemma run_steps sched s s' :
  Forall (fun e => id_ok e.2) sched -> run sched s = Ok s' -> rtc step s s'.
Proof.
  intros F; revert s; induction F as [|[t call] sched Hv _ IH]; intros s H; cbn in H; inv_res.
  - constructor.
  - econstructor; [|apply IH; exact H]. exists t, call, false. auto.
Qed.

(** Thread 1 looks up 5000 while thread 2 looks up 6000, of the same block. *)
Definition race : list (Z * Z) :=
  [(1, 5000); (2, 6000); (1, 0); (2, 0); (1, 0); (2, 0); (1, 0); (2, 0); (1, 0); (2, 0); (1, 0); (1, 0);
   (1, 0); (1, 0); (2, 0); (2, 0)].

Definition after_race : state :=
  match run race empty with Ok s => s | Err _ => empty end.

Lemma race_ok : run race empty = Ok after_race.
Proof. vm_compute. reflexivity. Qed.

Lemma race_steps : rtc step empty after_race.
Proof.
  apply (run_steps race); [|exact race_ok].
  unfold race, id_ok. repeat constructor; cbn; lia.
Qed.

Lemma getState_addresses_witness :
  (5000 = 5000 <-> (0, 2950) = (0, 2950)) /\ exists size, aget (blocks after_race) 0 = Ok size /\ 0 <= 2950 < size.
Proof.
  apply (getState_addresses after_race after_race 1 1 5000 5000 0 0 2950 2950 race_steps (rtc_refl _ _));
    vm_compute; reflexivity.
Defined.

Lemma getState_progress_witness : exists s', tstep 2 0 false after_race = Ok s'.
Proof. apply (getState_progress after_race 2 0 false race_steps). unfold id_ok. lia. Defined.

Lemma logarithms_correct_witness : uint64_log2 1000 = 9 /\ ceil_log2 1000 = 10.
Proof. apply (logarithms_correct 1000). lia. Defined.
End Ubvec.
