(* ===== verification/Paths.v ===== *)
(** * Walks and shortest-path trees

    The theory the four searches share: walks of a weighted digraph, and the
    invariant of the (g, pred) table they all maintain by relaxing arcs. *)

From S2P Require Import Prelude.

Section paths.
(** [edge u v w]: an arc from [u] to [v] of weight [w >= 0]. *)
Context (edge : Z -> Z -> Z -> Prop).
Context (edge_nonneg : forall u v w, edge u v w -> 0 <= w).

(** [walk s v c]: a walk from [s] to [v] of total weight [c]. *)
Inductive walk (s : Z) : Z -> Z -> Prop :=
  | walk_nil : walk s s 0
  | walk_snoc u v c w : walk s u c -> edge u v w -> walk s v (c + w).

Lemma walk_nonneg s v c : walk s v c -> 0 <= c.
Proof using edge_nonneg.
  induction 1 as [|u v c w _ IH He]; [lia|]. apply edge_nonneg in He; lia.
Qed.

Lemma walk_cons u v w x c : edge u v w -> walk v x c -> walk u x (w + c).
Proof.
  intros He; induction 1 as [|y x c w' _ IH Hy].
  - rewrite Z.add_comm. econstructor; [constructor|exact He].
  - rewrite Z.add_assoc. econstructor; eauto.
Qed.

Definition reachable (s v : Z) : Prop := exists c, walk s v c.

Lemma reachable_closed (P : Z -> Prop) s v :
  P s -> (forall u x w, P u -> edge u x w -> P x) -> reachable s v -> P v.
Proof. intros Hs Hstep [c Hw]; induction Hw; eauto. Qed.

(** ** Predecessor chains *)

(** [chain pred s x l]: following [pred] from [x] visits [l] and ends in [s]. *)
Inductive chain (pred : Z -> Z) (s : Z) : Z -> list Z -> Prop :=
  | chain_src : chain pred s s [s]
  | chain_step x l : x <> s -> chain pred s (pred x) l -> chain pred s x (x :: l).

Lemma chain_functional pred s x l1 l2 : chain pred s x l1 -> chain pred s x l2 -> l1 = l2.
Proof.
  intros H1; revert l2; induction H1 as [|x l Hx _ IH]; intros l2 H2;
    inversion H2; subst; try congruence.
  f_equal; auto.
Qed.

Lemma chain_head pred s x l : chain pred s x l -> exists l', l = x :: l'.
Proof. intros H; inversion H; eauto. Qed.

(** Every vertex of a chain starts a suffix of it. *)
Lemma chain_suffix pred s x l y :
  chain pred s x l -> y ∈ l -> exists l1 l2, l = l1 ++ l2 /\ chain pred s y l2.
Proof.
  induction 1 as [|x l Hx Hc IH]; intros Hy.
  - apply list_elem_of_singleton in Hy as ->. exists [], [s]; split; [reflexivity|constructor].
  - apply elem_of_cons in Hy as [->|Hy].
    + exists [], (x :: l); split; [reflexivity|]. constructor; assumption.
    + destruct (IH Hy) as (l1 & l2 & -> & H2). exists (x :: l1), l2; auto.
Qed.

Lemma chain_nodup pred s x l : chain pred s x l -> NoDup l.
Proof.
  induction 1 as [|x l Hx Hc IH]; [apply NoDup_singleton|].
  constructor; [|exact IH]. intros Hin.
  destruct (chain_suffix _ _ _ _ _ Hc Hin) as (l1 & l2 & -> & H2).
  pose proof (chain_step pred s x _ Hx Hc) as H1.
  pose proof (chain_functional _ _ _ _ _ H1 H2) as E.
  apply (f_equal length) in E. cbn in E. rewrite length_app in E. lia.
Qed.

Lemma chain_ext pred pred' s x l :
  chain pred s x l -> (forall y, y ∈ l -> pred' y = pred y) -> chain pred' s x l.
Proof.
  induction 1 as [|x l Hx Hc IH]; intros He; [constructor|].
  constructor; [exact Hx|]. rewrite He by left. apply IH; intros y Hy; apply He; right; exact Hy.
Qed.

(** Redirecting [pred x] to [v] keeps every chain finite, when the chain of
    [v] avoids [x]. *)
Lemma chain_redirect pred pred' s x v lv y l :
  chain pred s v lv -> x ∉ lv -> x <> s ->
  pred' x = v -> (forall z, z <> x -> pred' z = pred z) ->
  chain pred s y l -> exists l', chain pred' s y l'.
Proof.
  intros Hv Hx Hxs Hpx Hpne Hy.
  assert (Hv' : chain pred' s v lv).
  { apply (chain_ext pred); [exact Hv|]. intros z Hz; apply Hpne; congruence. }
  assert (Hx' : chain pred' s x (x :: lv)) by (constructor; [exact Hxs|rewrite Hpx; exact Hv']).
  induction Hy as [|y l Hys Hc [l' IH]]; [eexists; constructor|].
  destruct (decide (y = x)) as [->|Hne]; [eauto|].
  exists (y :: l'). constructor; [exact Hys|]. rewrite Hpne by exact Hne. exact IH.
Qed.

(** ** The table of g-values and predecessors *)

Section tree.
Context (inf s : Z).

(** [inf] is the value of an unreached vertex. *)
Record tree_inv (dist pred : Z -> Z) : Prop := {
  ti_src : dist s = 0;
  ti_inf : 0 < inf;
  ti_walk : forall x, dist x < inf -> walk s x (dist x);
  ti_parent : forall x, x <> s -> dist x < inf ->
    exists w, edge (pred x) x w /\ dist (pred x) + w <= dist x;
  ti_chain : forall x, dist x < inf -> exists l, chain pred s x l;
}.

Lemma ti_nonneg dist pred x : tree_inv dist pred -> 0 <= dist x.
Proof using edge_nonneg.
  intros T. destruct (Z.lt_ge_cases (dist x) inf) as [H|H].
  - eapply walk_nonneg, ti_walk; eauto.
  - pose proof (ti_inf _ _ T); lia.
Qed.

(** The initial table: only the source is reached, at distance 0. *)
Lemma tree_inv_init dist pred :
  0 < inf -> dist s = 0 -> (forall x, x <> s -> inf <= dist x) -> tree_inv dist pred.
Proof.
  intros Hinf Hs Hd.
  assert (Honly : forall x, dist x < inf -> x = s).
  { intros x Hx; destruct (decide (x = s)); [assumption|]. specialize (Hd x); lia. }
  split; auto.
  - intros x Hx; rewrite (Honly x Hx), Hs; constructor.
  - intros x Hne Hx; destruct Hne; auto.
  - intros x Hx; rewrite (Honly x Hx). eexists; constructor.
Qed.

(** The invariant only looks at the values of the table. *)
Lemma tree_inv_ext dist pred dist' pred' :
  tree_inv dist pred -> (forall x, dist' x = dist x) -> (forall x, pred' x = pred x) ->
  tree_inv dist' pred'.
Proof.
  intros [Hs Hinf Hw Hp Hc] Ed Ep; split; try intros x; rewrite ?Ed, ?Ep; auto.

  - intros Hx. destruct (Hc x Hx) as [l Hl]. exists l.
    eapply chain_ext; [exact Hl|]. intros; apply Ep.
Qed.

(** Along a chain g-values do not increase. *)
Lemma chain_dist dist pred x l y :
  tree_inv dist pred -> dist x < inf -> chain pred s x l -> y ∈ l -> dist y <= dist x.
Proof using edge_nonneg.
  intros T Hx Hc; revert y; induction Hc as [|x l Hne Hc IH]; intros y Hy.
  - apply list_elem_of_singleton in Hy as ->; lia.
  - apply elem_of_cons in Hy as [->|Hy]; [lia|].
    destruct (ti_parent _ _ T x Hne Hx) as (w & He & Hw). pose proof (edge_nonneg _ _ _ He).
    specialize (IH ltac:(lia) y Hy). lia.
Qed.

(** Relaxing an arc [(v, x, w)] with a value [d] that [g v] had at some time
    in the past keeps the invariant. *)
Lemma tree_inv_relax dist pred dist' pred' v x w d :
  tree_inv dist pred -> edge v x w ->
  walk s v d -> dist v <= d -> d + w < dist x ->
  d + w < inf ->
  (forall y, dist' y = if decide (y = x) then d + w else dist y) ->
  (forall y, pred' y = if decide (y = x) then v else pred y) ->
  tree_inv dist' pred'.
Proof using edge_nonneg.
  intros T He Hwalk Hd Hlt Hinf Hdist Hpred.
  pose proof (edge_nonneg _ _ _ He) as Hw. pose proof (walk_nonneg _ _ _ Hwalk).
  assert (Hxs : x <> s) by (intros ->; rewrite (ti_src _ _ T) in Hlt; lia).
  assert (Hvx : v <> x) by (intros ->; lia).
  assert (Hmono : forall y, dist' y <= dist y).
  { intros y; rewrite Hdist; case_decide; subst; lia. }
  destruct (ti_chain _ _ T v ltac:(lia)) as [lv Hlv].
  assert (Hnin : x ∉ lv).
  { intros Hin. pose proof (chain_dist _ _ v lv x T ltac:(lia) Hlv Hin). lia. }
  split.
  - rewrite Hdist, decide_False by congruence. apply (ti_src _ _ T).
  - apply (ti_inf _ _ T).
  - intros y Hy; rewrite Hdist in *. case_decide; subst; [|apply (ti_walk _ _ T); exact Hy].
    econstructor; eauto.
  - intros y Hys Hy. rewrite Hpred. case_decide as E; subst.
    + exists w; split; [exact He|]. rewrite !Hdist, decide_False, decide_True by auto. lia.
    + rewrite Hdist, decide_False in Hy by exact E.
      destruct (ti_parent _ _ T y Hys Hy) as (w' & He' & Hw').
      exists w'; split; [exact He'|]. rewrite (Hdist y), decide_False by exact E.
      pose proof (Hmono (pred y)). lia.
  - intros y Hy.
    assert (Hchain : dist y < inf -> exists l, chain pred' s y l).
    { intros Hy'. destruct (ti_chain _ _ T y Hy') as [l Hl].
      eapply (chain_redirect pred pred' s x v); eauto.
      - rewrite Hpred, decide_True by reflexivity; reflexivity.
      - intros z Hz; rewrite Hpred, decide_False by exact Hz; reflexivity. }
    destruct (decide (y = x)) as [->|Hne].
    + exists (x :: lv). constructor; [exact Hxs|].
      rewrite Hpred, decide_True by reflexivity.
      apply (chain_ext pred); [exact Hlv|].
      intros z Hz; rewrite Hpred, decide_False; [reflexivity|congruence].
    + apply Hchain. rewrite Hdist, decide_False in Hy by exact Hne. exact Hy.
Qed.

(** The vertices on the chain of a reached vertex are reached. *)
Lemma chain_reached dist pred x l y :
  tree_inv dist pred -> dist x < inf -> chain pred s x l -> y ∈ l -> dist y < inf.
Proof using edge_nonneg.
  intros T Hx Hc Hy. pose proof (chain_dist dist pred x l y T Hx Hc Hy). lia.
Qed.

(** ... and lie in any set that holds the source and all arc heads. *)
Lemma chain_in_range (R : Z -> Prop) dist pred x l y :
  R s -> (forall u v w, edge u v w -> R v) ->
  tree_inv dist pred -> dist x < inf -> chain pred s x l -> y ∈ l -> R y.
Proof using edge_nonneg.
  intros Hs Hr T Hx Hc Hy. pose proof (chain_reached dist pred x l y T Hx Hc Hy) as Hy'.
  destruct (decide (y = s)) as [->|Hne]; [exact Hs|].
  destruct (ti_parent _ _ T y Hne Hy') as (w & He & _). eauto.
Qed.
End tree.
End paths.

(** ** Graphs that grow *)

Lemma walk_mono (edge edge' : Z -> Z -> Z -> Prop) s v c :
  (forall a b w, edge a b w -> edge' a b w) -> walk edge s v c -> walk edge' s v c.
Proof. intros He; induction 1; [constructor|]. econstructor; eauto. Qed.

Lemma tree_inv_mono (edge edge' : Z -> Z -> Z -> Prop) inf s dist pred :
  (forall a b w, edge a b w -> edge' a b w) -> tree_inv edge inf s dist pred -> tree_inv edge' inf s dist pred.
Proof.
  intros He [H1 H2 H3 H4 H5]. split; auto.
  - intros x Hx. apply (walk_mono edge); auto.
  - intros x Hx Hd. destruct (H4 x Hx Hd) as (w & Hw & Hle). eauto.
Qed.
Arguments walk_nil {edge s}.
Arguments walk_snoc {edge s u v c w}.
