(* ===== verification/SearchSpec.v ===== *)
(** * The contract of the searches

    What every search asks of its caller, and what a result that contains a path
    means; shared by the sequential and the parallel searches. *)

From S2P Require Import Prelude.
From S2P Require Import Interfaces.
From S2P Require Import Paths.

(** What a caller of the search must provide: a source in range, a heuristic
    and arc weights in range, and no sum of the search that overflows. *)
Record search_pre {G} {gops : GraphOps G} (gr : G) {glaws : GraphLaws gr}
    (number : int_type) (h : Z -> Z) (source Wmax Hmax : Z) : Prop := {
  sp_source : 0 <= source < number_vertices gr;
  sp_heur : forall v, 0 <= v < number_vertices gr -> 0 <= h v <= Hmax;
  sp_weight : forall u v w, arc gr u v w -> w <= Wmax;
  sp_fit : number_vertices gr * Wmax + Hmax < int_max number;
  sp_long : int_max number <= LONG_MAX;
  sp_pos : 0 <= Wmax;
}.

(** A path from [source] to [x]: the vertices met from [x] along [pred], each
    step an arc to a vertex whose g-value pays for it, and [d] the length of a
    walk to [x]. *)
Definition path_to {R} {sr : SearchResult R} (edge : Z -> Z -> Z -> Prop) (r : R)
    (source x d : Z) (l : list Z) : Prop :=
  (exists p, (forall y, y ∈ l -> predecessor r y = Ok (p y)) /\ chain p source x l /\
     forall y, y ∈ l -> y <> source ->
       exists w dy dp, edge (p y) y w /\ Interfaces.g r y = Ok dy /\
         Interfaces.g r (p y) = Ok dp /\ dp + w <= dy) /\
  walk edge source x d.

(** The path in a result whose methods read off a tree of walks. *)
Lemma tree_path_to {R} {sr : SearchResult R} {G} {gops : GraphOps G} (gr : G) {glaws : GraphLaws gr}
    (inf source : Z) (D P : Z -> Z) (r : R) (x : Z) :
  0 <= source < number_vertices gr -> tree_inv (arc gr) inf source D P ->
  (forall y, 0 <= y < number_vertices gr -> Interfaces.g r y = Ok (D y) /\ predecessor r y = Ok (P y)) ->
  D x < inf -> exists l, path_to (arc gr) r source x (D x) l.
Proof.
  intros Hs T Hr Hx. destruct (ti_chain _ _ _ _ _ T x Hx) as [l Hl]. exists l.
  assert (Hran : forall y, y ∈ l -> 0 <= y < number_vertices gr).
  { intros y Hy. apply (chain_in_range (arc gr) (arc_nonneg gr) inf source
      (fun z => 0 <= z < number_vertices gr) D P x l y); auto. apply arc_range. }
  split; [exists P; split; [|split; [exact Hl|]]|].
  - intros y Hy. apply (Hr y). auto.
  - intros y Hy Hne.
    pose proof (chain_reached (arc gr) (arc_nonneg gr) inf source D P x l y T Hx Hl Hy) as Hd.
    destruct (ti_parent _ _ _ _ _ T y Hne Hd) as (w & He & Hw).
    exists w, (D y), (D (P y)). split_and!; [exact He| | |exact Hw].
    + apply (Hr y); auto.
    + apply Hr. apply He.
  - apply (ti_walk _ _ _ _ _ T); exact Hx.
Qed.
