(* ===== verification/WGraph.v ===== *)
(** * The grid graphs of src/src/shared/weighted_graph.hpp

    [Graph] (unit costs) and [LifeGraph] (life costs) differ in three places:
    the weight stored for an arc, the weight [weight_between] reports, and the
    width of a weight.  Module WGraph holds the shared text once, over those
    three parameters; Modules Graph and LifeGraph are its instances, with what
    only one class has. *)

From S2P Require Import Prelude.
From S2P Require Import Interfaces.
From S2P Require Import Paths.
From Stdlib Require Import Strings.Ascii.
From Stdlib Require Strings.String.

Module WGraph.

Record coords := mkCoords { row : Z; col : Z }.
Record neighbor := mkNeighbor { vertex : Z; weight : Z }.

#[export] Instance coords_eq_dec : EqDecision coords.
Proof. solve_decision. Defined.
#[export] Instance neighbor_eq_dec : EqDecision neighbor.
Proof. solve_decision. Defined.

Record graph := mkGraph {
  grid : list (list Z);
  vertices : list coords;
  height : Z;
  width : Z;
  neighbor_offsets : list Z;
  neighbors : list neighbor;
}.

Definition OBSTACLE : Z := -1.
Definition drow : list Z := [-1; -1; -1; 0; 0; 1; 1; 1].
Definition dcol : list Z := [-1; 0; 1; -1; 1; -1; 0; 1].
Definition dist : list Z := [14142; 10000; 14142; 10000; 10000; 14142; 10000; 14142].

Definition number_vertices (g : graph) : Z := Z.of_nat (length (vertices g)).

(** [grid[r][c]] *)
Definition grid_get (gr : list (list Z)) (r c : Z) : res Z :=
  row ← aget gr r; aget row c.
Definition grid_at (g : graph) (r c : Z) : res Z := grid_get (grid g) r c.

Definition vertex_at (g : graph) (r c : Z) : res Z := grid_at g r c.

Definition coords_of (g : graph) (v : Z) : res (Z * Z) :=
  c ← aget (vertices g) v; Ok (row c, col c).

Definition degree (g : graph) (v : Z) : res Z :=
  e ← aget (neighbor_offsets g) (v + 1);
  b ← aget (neighbor_offsets g) v;
  Ok (e - b).

Section cost.
(** [arc_weight nghrow d]: the weight stored for an arc into row [nghrow]. *)
Context (arc_weight : Z -> Z -> Z).
(** [between u_row c]: the weight [weight_between] reports for a step of
    base cost [c] whose first vertex is in row [u_row]. *)
Context (between : Z -> Z -> Z).
(** The type of a path length. *)
Context (len_type : int_type).

(** The body shared by [populate_neighbors] and [check_neighbors]: the [i]-th
    of the eight candidate neighbors of [v], when it is on the grid and free. *)
Definition candidate (g : graph) (v i : Z) : res (option neighbor) :=
  cv ← aget (vertices g) v;
  dr ← aget drow i;
  dc ← aget dcol i;
  let nghrow := row cv + dr in
  let nghcol := col cv + dc in
  if (0 <=? nghrow) && (nghrow <? height g) && (0 <=? nghcol) && (nghcol <? width g) then
    u ← grid_at g nghrow nghcol;
    d ← aget dist i;
    Ok (if u =? OBSTACLE then None else Some (mkNeighbor u (arc_weight nghrow d)))
  else Ok None.

(** The inner loop body of [populate_neighbors]: [push_back] and count. *)
Definition push_neighbor (g : graph) (v : Z) (st : list neighbor * Z) (i : Z) :
    res (list neighbor * Z) :=
  let '(nbrs, curr_offset) := st in
  c ← candidate g v i;
  Ok (match c with
      | Some u => (nbrs ++ [u], curr_offset + 1)
      | None => (nbrs, curr_offset)
      end).

Definition populate_vertex (g : graph) (st : list Z * (list neighbor * Z)) (v : Z) :
    res (list Z * (list neighbor * Z)) :=
  let '(offsets, (nbrs, curr_offset)) := st in
  offsets ← aset offsets v curr_offset;
  inner ← foldM (push_neighbor g v) (nbrs, curr_offset) (seqZ 0 8);
  Ok (offsets, inner).

(** [vector::resize (n)]: truncates, or pads with value-initialised elements. *)
Definition vresize {A} (d : A) (n : nat) (l : list A) : list A :=
  take n l ++ replicate (n - length l) d.

Definition populate_neighbors (g : graph) : res graph :=
  let offsets := vresize 0 (S (length (vertices g))) (neighbor_offsets g) in
  '(offsets, (nbrs, curr_offset)) ←
    foldM (populate_vertex g) (offsets, (neighbors g, 0)) (seqZ 0 (number_vertices g));
  offsets ← aset offsets (number_vertices g) curr_offset;
  Ok (mkGraph (grid g) (vertices g) (height g) (width g) offsets nbrs).

(** [check_neighbors]: [None] is an early [return false]; [Some deg] goes on. *)
Definition check_candidate (g : graph) (v : Z) (st : option Z) (i : Z) : res (option Z) :=
  match st with
  | None => Ok None
  | Some deg =>
      c ← candidate g v i;
      match c with
      | None => Ok (Some deg)
      | Some u =>
          off ← aget (neighbor_offsets g) v;
          n ← aget (neighbors g) (off + deg);
          if negb (vertex n =? vertex u) then Ok None
          else if negb (weight n =? weight u) then Ok None
          else Ok (Some (deg + 1))
      end
  end.

Definition check_vertex (g : graph) (ok : bool) (v : Z) : res bool :=
  if ok then
    deg ← foldM (check_candidate g v) (Some 0) (seqZ 0 8);
    match deg with
    | None => Ok false
    | Some deg => d ← degree g v; Ok (deg =? d)
    end
  else Ok false.

Definition check_neighbors (g : graph) : res bool :=
  foldM (check_vertex g) true (seqZ 0 (number_vertices g)).

Definition for_each_neighbor_in_range {S} (g : graph) (v start end_ : Z)
    (f : Z -> Z -> S -> res S) (s : S) : res S :=
  d ← degree g v;
  _ ← assert_ ((0 <=? start) && (start <=? end_) && (end_ <=? d));
  foldM (fun s i =>
    off ← aget (neighbor_offsets g) v;
    u ← aget (neighbors g) (off + i);
    f (vertex u) (weight u) s) s (seqZ start (end_ - start)).

Definition for_each_neighbor_of {S} (g : graph) (v : Z)
    (f : Z -> Z -> S -> res S) (s : S) : res S :=
  degv ← degree g v;
  foldM (fun s i =>
    off ← aget (neighbor_offsets g) v;
    u ← aget (neighbors g) (off + i);
    f (vertex u) (weight u) s) s (seqZ 0 degv).

Definition weight_between (g : graph) (u v : Z) : res Z :=
  cu ← aget (vertices g) u;
  cv ← aget (vertices g) v;
  let diff := Z.abs (row cu - row cv) + Z.abs (col cu - col cv) in
  if diff =? 0 then Ok 0
  else if diff =? 1 then Ok (between (row cu) 10000)
  else if diff =? 2 then Ok (between (row cu) 14142)
  else Err Exited.
End cost.

(** ** Reading a map file *)

Abbreviation stream := (list ascii).

(** The conversions of [fscanf] the constructors use; [None] is a matching or
    input failure, after which the converted variable stays indeterminate. *)
Definition is_space (c : ascii) : bool :=
  let n := nat_of_ascii c in (Nat.eqb n 32 || ((9 <=? n)%nat && (n <=? 13)%nat)).

Fixpoint scan_ws (s : stream) : stream :=
  match s with
  | c :: s' => if is_space c then scan_ws s' else s
  | [] => []
  end.

Fixpoint scan_lit (lit s : stream) : option stream :=
  match lit, s with
  | [], _ => Some s
  | l :: lit', c :: s' => if ascii_dec l c then scan_lit lit' s' else None
  | _ :: _, [] => None
  end.

Definition digit (c : ascii) : option Z :=
  let n := Z.of_nat (nat_of_ascii c) in
  if (48 <=? n) && (n <=? 57) then Some (n - 48) else None.

Fixpoint scan_digits (acc : option Z) (s : stream) : option (Z * stream) :=
  match s with
  | c :: s' =>
      match digit c with
      | Some d => scan_digits (Some (default 0 acc * 10 + d)) s'
      | None => (fun z => (z, s)) <$> acc
      end
  | [] => (fun z => (z, s)) <$> acc
  end.

(** [%d] *)
Definition scan_int (s : stream) : option (Z * stream) :=
  match scan_ws s with
  | "-"%char :: s' => '(z, s'') ← scan_digits None s'; Some (- z, s'')
  | "+"%char :: s' => scan_digits None s'
  | s' => scan_digits None s'
  end.

Definition lit (s : string) : stream := Strings.String.list_ascii_of_string s.

(** [fscanf (fin, "type octile\nheight %d\n", &height)] *)
Definition scan_height (s : stream) : option (Z * stream) :=
  s ← scan_lit (lit "type") s; s ← scan_lit (lit "octile") (scan_ws s);
  s ← scan_lit (lit "height") (scan_ws s);
  '(h, s) ← scan_int s; Some (h, scan_ws s).

(** A literal directive after the last conversion: the characters that match are
    consumed, also when a later one does not, and [fscanf] stops there. *)
Fixpoint scan_tail (lit s : stream) : stream :=
  match lit, s with
  | [], _ => scan_ws s
  | l :: lit', c :: s' => if ascii_dec l c then scan_tail lit' s' else s
  | _ :: _, [] => []
  end.

(** [fscanf (fin, "width %d\n map\n", &width)] *)
Definition scan_width (s : stream) : option (Z * stream) :=
  s ← scan_lit (lit "width") s;
  '(w, s) ← scan_int s;
  Some (w, scan_tail (lit "map") (scan_ws s)).

(** [fscanf (fin, "%c", &c)] in the cell loop: a newline is skipped ([j--;
    continue]); at end of file [c] stays indeterminate. *)
Fixpoint next_char (s : stream) : res (ascii * stream) :=
  match s with
  | [] => Err Uninitialised
  | c :: s' => if ascii_dec c "010"%char then next_char s' else Ok (c, s')
  end.

Definition is_free (c : ascii) : bool := bool_decide (c ∈ lit ".G").
Definition is_blocked (c : ascii) : bool := bool_decide (c ∈ lit "@OTSW").

Record load_state := mkLoad {
  ld_grid : list (list Z);
  ld_vertices : list coords;
  ld_next_id : Z;
  ld_stream : stream;
}.

Definition grid_set (gr : list (list Z)) (i j x : Z) : res (list (list Z)) :=
  r ← aget gr i; r ← aset r j x; aset gr i r.

(** One cell (i, j) of the double loop.  An unknown character is reported on
    stdout and the cell keeps its value. *)
Definition load_cell (st : load_state) (ij : Z * Z) : res load_state :=
  let '(i, j) := ij in
  '(c, s) ← next_char (ld_stream st);
  if is_free c then
    vs ← aset (ld_vertices st) (ld_next_id st) (mkCoords i j);
    gr ← grid_set (ld_grid st) i j (ld_next_id st);
    Ok (mkLoad gr vs (ld_next_id st + 1) s)
  else if is_blocked c then
    gr ← grid_set (ld_grid st) i j OBSTACLE;
    Ok (mkLoad gr (ld_vertices st) (ld_next_id st) s)
  else Ok (mkLoad (ld_grid st) (ld_vertices st) (ld_next_id st) s).

(** The (i, j) of the double loop, in order. *)
Definition cells (h w : Z) : list (Z * Z) :=
  i ← seqZ 0 h; j ← seqZ 0 w; [(i, j)].

(** The two loops, from the stream after the header. *)
Definition load_cells (h w : Z) (s : stream) : res load_state :=
  foldM load_cell
    (mkLoad (replicate (Z.to_nat h) (replicate (Z.to_nat w) 0))
       (replicate (Z.to_nat (w * h)) (mkCoords 0 0)) 0 s)
    (cells h w).

Definition of_option {A} (o : option A) : res A :=
  match o with Some a => Ok a | None => Err Uninitialised end.

(** The constructor [Graph (const char* fname)] on the file's contents.
    [vector::resize] throws on a negative size. *)
Definition construct (arc_weight : Z -> Z -> Z) (file : stream) : res graph :=
  '(h, s) ← of_option (scan_height file);
  '(w, s) ← of_option (scan_width s);
  wh ← mul_int int32 w h;
  _ ← (if (h <? 0) || (wh <? 0) then Err Thrown else Ok ());
  st ← load_cells h w s;
  let vs := vresize (mkCoords 0 0) (Z.to_nat (ld_next_id st)) (ld_vertices st) in
  g ← populate_neighbors arc_weight (mkGraph (ld_grid st) vs h w [] []);
  ok ← check_neighbors arc_weight g;
  _ ← assert_ ok;
  Ok g.

(** The default constructor. *)
Definition empty_graph : graph := mkGraph [] [] 0 0 [] [].

(** ** Paths *)

Section paths.
Context (between : Z -> Z -> Z) (len_type : int_type).

(** [pathlen (res, src, dst)]: [pred_weight curr p] is the weight the loop
    adds for the step between [curr] and its predecessor [p]. *)
Fixpoint pathlen_loop (pred_weight : Z -> Z -> res Z) (pred : Z -> res Z)
    (fuel : nat) (src curr len : Z) : res Z :=
  match fuel with
  | O => Err OutOfFuel
  | S fuel =>
      if curr =? src then Ok len
      else
        p ← pred curr;
        w ← pred_weight curr p;
        len ← add_int len_type len w;
        pathlen_loop pred_weight pred fuel src p len
  end.

(** The path part of [pebble_dump]: [cur_vtx] runs from [dst] back to [src]. *)
Fixpoint dump_path (pred : Z -> res Z) (g : graph) (fuel : nat) (src cur : Z)
    (path : list coords) : res (list coords) :=
  match fuel with
  | O => Err OutOfFuel
  | S fuel =>
      if cur =? src then
        c ← aget (vertices g) cur;
        Ok (reverse (path ++ [c]))
      else
        c ← aget (vertices g) cur;
        p ← pred cur;
        dump_path pred g fuel src p (path ++ [c])
  end.
End paths.

(** A line of the dump for one row of the grid. *)
Definition dump_cell (g : graph) (pebbles : list Z) (src dst : Z) (r : Z) (out : string) (c : Z) :
    res string :=
  v ← grid_at g r c;
  s ← (if v =? OBSTACLE then Ok "@"%string
       else if v =? src then Ok "s"%string
       else if v =? dst then Ok "t"%string
       else
         p ← aget pebbles v;
         Ok (if p =? -1 then "."%string else pretty.pretty p));
  let sep := if c =? width g - 1 then ""%string else " "%string in
  Ok (out +:+ s +:+ sep)%string.

Definition newline : string := String "010" EmptyString.

Definition dump_row (g : graph) (pebbles : list Z) (src dst : Z) (out : string) (r : Z) :
    res string :=
  out ← foldM (dump_cell g pebbles src dst r) out (seqZ 0 (width g));
  Ok (out +:+ newline)%string.

(** [pebble_dump (pebbles, predecessors, src, dst, fname)]: the text written. *)
Definition pebble_dump (fuel : nat) (g : graph) (pebbles predecessors : list Z) (src dst : Z) :
    res string :=
  let out := ("width " +:+ pretty.pretty (width g) +:+ newline +:+
              "height " +:+ pretty.pretty (height g) +:+ newline)%string in
  out ← foldM (dump_row g pebbles src dst) out (seqZ 0 (height g));
  path ← dump_path (aget predecessors) g fuel src dst [];
  Ok (foldl (fun out r => (out +:+ pretty.pretty (row r) +:+ " " +:+
                           pretty.pretty (col r) +:+ newline)%string) out path).

(** [pebble_dump (result, src, dst, fname)]: tabulates the result first. *)
Definition pebble_dump_result `{SearchResult R} (fuel : nat) (g : graph) (result : R) (src dst : Z) :
    res string :=
  '(pebbles, predecessors) ← foldM (fun '(ps, qs) i =>
      p ← pebble result i; q ← predecessor result i; Ok (ps ++ [p], qs ++ [q]))
    ([], []) (seqZ 0 (number_vertices g));
  pebble_dump fuel g pebbles predecessors src dst.

(** ** Well-formed grids and adjacency arrays *)

(** The shape the constructor builds: a rectangular grid whose cells are
    obstacles or vertex ids, and vertices that lie on it. *)
Record wf_shape (g : graph) : Prop := {
  ws_height : height g = Z.of_nat (length (grid g));
  ws_width : forall r gr, aget (grid g) r = Ok gr -> Z.of_nat (length gr) = width g;
  ws_vertex : forall v cv, aget (vertices g) v = Ok cv ->
    0 <= row cv < height g /\ 0 <= col cv < width g;
  ws_cell : forall r c u, grid_at g r c = Ok u ->
    u = OBSTACLE \/ 0 <= u < number_vertices g;
}.

(** Grid and vertex list are inverse to each other. *)
Record wf_grid (g : graph) : Prop := {
  wg_shape : wf_shape g;
  wg_vertex : forall v cv, aget (vertices g) v = Ok cv -> grid_at g (row cv) (col cv) = Ok v;
  wg_cell : forall r c u, grid_at g r c = Ok u -> u <> OBSTACLE ->
    aget (vertices g) u = Ok (mkCoords r c);
}.

Lemma grid_at_in g r c :
  wf_shape g -> 0 <= r < height g -> 0 <= c < width g -> exists u, grid_at g r c = Ok u.
Proof.
  intros S Hr Hc. unfold grid_at, grid_get.
  destruct (aget_in (grid g) r) as [gr Er]; [rewrite <-(ws_height _ S); exact Hr|].
  run_res Er. apply aget_in. rewrite (ws_width _ S _ _ Er). exact Hc.
Qed.

Lemma grid_at_bounds g r c u :
  wf_shape g -> grid_at g r c = Ok u -> 0 <= r < height g /\ 0 <= c < width g.
Proof.
  intros S H. unfold grid_at, grid_get in H. inv_res. pose proof (ws_width _ S _ _ E) as Hw.
  apply aget_bounds in E, H. rewrite (ws_height _ S). lia.
Qed.

Section adjacency.
Context (arc_weight : Z -> Z -> Z).

(** The [i]-th candidate as a total function, and the neighbors of [v]. *)
Definition cand (g : graph) (v i : Z) : option neighbor :=
  match candidate arc_weight g v i with Ok o => o | Err _ => None end.

Definition nbrs (g : graph) (v : Z) : list neighbor := omap (cand g v) (seqZ 0 8).

Lemma candidate_ok g v i :
  wf_shape g -> 0 <= v < number_vertices g -> 0 <= i < 8 ->
  candidate arc_weight g v i = Ok (cand g v i).
Proof.
  intros S Hv Hi. unfold cand.
  enough (exists o, candidate arc_weight g v i = Ok o) as [o ->]; [reflexivity|].
  unfold candidate.
  destruct (aget_in (vertices g) v Hv) as [cv Ev]; run_res Ev.
  destruct (aget_in drow i) as [dr Er]; [cbn; lia|]; run_res Er.
  destruct (aget_in dcol i) as [dc Ec]; [cbn; lia|]; run_res Ec.
  cbn zeta. match goal with |- context [if ?b then _ else _] => destruct b eqn:B end; [|eauto].
  rewrite !andb_true_iff, !Z.leb_le, !Z.ltb_lt in B.
  destruct (grid_at_in g (row cv + dr) (col cv + dc) S) as [u Eu]; [lia|lia|]; run_res Eu.
  destruct (aget_in dist i) as [d Ed]; [cbn; lia|]; run_res Ed. eauto.
Qed.

(** What a candidate is: a free cell one of the eight steps away. *)
Lemma cand_Some g v i n :
  cand g v i = Some n ->
  exists cv dr dc d, aget (vertices g) v = Ok cv /\ aget drow i = Ok dr /\
    aget dcol i = Ok dc /\ aget dist i = Ok d /\
    0 <= row cv + dr < height g /\ 0 <= col cv + dc < width g /\
    grid_at g (row cv + dr) (col cv + dc) = Ok (vertex n) /\
    vertex n <> OBSTACLE /\ weight n = arc_weight (row cv + dr) d.
Proof.
  unfold cand, candidate. intros H.
  destruct (aget (vertices g) v) as [cv|] eqn:Ev; [|discriminate].
  destruct (aget drow i) as [dr|] eqn:Er; [|discriminate].
  destruct (aget dcol i) as [dc|] eqn:Ec; [|discriminate].
  rewrite !bind_ok_l in H. cbn zeta in H.
  destruct (_ && _ && _ && _) eqn:B; [|discriminate].
  rewrite !andb_true_iff, !Z.leb_le, !Z.ltb_lt in B.
  destruct (grid_at g _ _) as [u|] eqn:Eu; [|discriminate].
  destruct (aget dist i) as [d|] eqn:Ed; [|discriminate].
  rewrite !bind_ok_l in H. destruct (Z.eqb_spec u OBSTACLE); [discriminate|].
  injection H as <-. exists cv, dr, dc, d. cbn. split_and!; auto; lia.
Qed.

Lemma cand_intro g v i cv dr dc d u :
  aget (vertices g) v = Ok cv -> aget drow i = Ok dr -> aget dcol i = Ok dc ->
  aget dist i = Ok d -> 0 <= row cv + dr < height g -> 0 <= col cv + dc < width g ->
  grid_at g (row cv + dr) (col cv + dc) = Ok u -> u <> OBSTACLE ->
  cand g v i = Some (mkNeighbor u (arc_weight (row cv + dr) d)).
Proof.
  intros Ev Er Ec Ed Hr Hc Eu Hu. unfold cand, candidate.
  rewrite Ev, Er, Ec, !bind_ok_l. cbn zeta.
  assert ((0 <=? row cv + dr) && (row cv + dr <? height g) && (0 <=? col cv + dc) &&
          (col cv + dc <? width g) = true) as ->.
  { rewrite !andb_true_iff, !Z.leb_le, !Z.ltb_lt. lia. }
  rewrite Eu, Ed, !bind_ok_l. destruct (Z.eqb_spec u OBSTACLE); [contradiction|reflexivity].
Qed.

(** ** [populate_neighbors] *)

Lemma push_neighbors_ok g v (js : list Z) ns k :
  wf_shape g -> 0 <= v < number_vertices g -> (forall i, i ∈ js -> 0 <= i < 8) ->
  foldM (push_neighbor arc_weight g v) (ns, k) js =
    Ok (ns ++ omap (cand g v) js, k + Z.of_nat (length (omap (cand g v) js))).
Proof.
  intros S Hv. revert ns k; induction js as [|i js IH]; intros ns k Hi; cbn.
  - rewrite app_nil_r. do 2 f_equal; lia.
  - rewrite candidate_ok by (auto; apply Hi; left); cbn.
    assert (Hi' : forall j, j ∈ js -> 0 <= j < 8) by (intros j Hj; apply Hi; right; exact Hj).
    destruct (cand g v i) as [u|]; rewrite IH by exact Hi'; cbn; [|reflexivity].
    rewrite <-(assoc_L (++)). do 2 f_equal. lia.
Qed.

(** All arcs leaving the first [k] vertices, and their number. *)
Definition arcs_below (g : graph) (k : Z) : list neighbor := seqZ 0 k ≫= nbrs g.
Definition offset (g : graph) (k : Z) : Z := Z.of_nat (length (arcs_below g k)).

Lemma arcs_below_succ g k : 0 <= k -> arcs_below g (k + 1) = arcs_below g k ++ nbrs g k.
Proof.
  intros Hk. unfold arcs_below. rewrite (seqZ_app 0 k 1) by lia.
  rewrite bind_app, seqZ_one. cbn [mbind list_bind]. rewrite app_nil_r. reflexivity.
Qed.

Lemma offset_succ g k :
  0 <= k -> offset g (k + 1) = offset g k + Z.of_nat (length (nbrs g k)).
Proof. intros Hk; unfold offset; rewrite arcs_below_succ, length_app by exact Hk. lia. Qed.

(** The adjacency arrays describe the grid. *)
Record csr (g : graph) : Prop := {
  csr_shape : wf_shape g;
  csr_offsets : forall v, 0 <= v <= number_vertices g ->
    aget (neighbor_offsets g) v = Ok (offset g v);
  csr_neighbors : neighbors g = arcs_below g (number_vertices g);
}.

Definition with_adjacency (g : graph) (offs : list Z) (ns : list neighbor) : graph :=
  mkGraph (grid g) (vertices g) (height g) (width g) offs ns.

Lemma wf_shape_adjacency g offs ns : wf_shape g -> wf_shape (with_adjacency g offs ns).
Proof. intros [H1 H2 H3 H4]; split; assumption. Qed.

Lemma seqZ_middle k n done x todo :
  seqZ 0 n = done ++ x :: todo -> k = Z.of_nat (length done) -> x = k /\ 0 <= k < n.
Proof.
  intros E ->. assert (Hl : seqZ 0 n !! length done = Some x)
    by (rewrite E; apply list_lookup_middle; reflexivity).
  apply lookup_seqZ in Hl. lia.
Qed.

Lemma populate_ok g :
  wf_shape g -> neighbors g = [] ->
  exists offs ns, populate_neighbors arc_weight g = Ok (with_adjacency g offs ns) /\
    csr (with_adjacency g offs ns).
Proof.
  intros S Hn. unfold populate_neighbors. rewrite Hn.
  set (offs0 := vresize 0 (Datatypes.S (length (vertices g))) (neighbor_offsets g)).
  assert (Hlen0 : Z.of_nat (length offs0) = number_vertices g + 1).
  { unfold offs0, vresize, number_vertices. rewrite length_app, length_take, length_replicate. lia. }
  destruct (foldM_inv (populate_vertex arc_weight g) (fun done '(offs, (ns, k)) =>
      Z.of_nat (length offs) = number_vertices g + 1 /\
      (forall v, 0 <= v < Z.of_nat (length done) -> aget offs v = Ok (offset g v)) /\
      ns = arcs_below g (Z.of_nat (length done)) /\ k = offset g (Z.of_nat (length done)))
    (seqZ 0 (number_vertices g)) (offs0, ([], 0))) as ([offs [ns k]] & E & Hl & Ho & -> & ->).
  - cbn. split_and!; auto; intros; lia.
  - intros done x todo [offs [ns k]] Hsplit (Hl & Ho & -> & ->).
    destruct (seqZ_middle _ _ _ _ _ Hsplit eq_refl) as [-> Hx].
    unfold populate_vertex. rewrite aset_in, bind_ok_l by lia.
    rewrite push_neighbors_ok, bind_ok_l; [|exact S|lia|intros i Hi%elem_of_seqZ; lia].
    eexists; split; [reflexivity|]. cbv beta iota. rewrite length_insert, length_app, Nat.add_1_r.
    fold (nbrs g (Z.of_nat (length done))). rewrite Nat2Z.inj_succ, <-Z.add_1_r.
    rewrite arcs_below_succ, offset_succ by lia. split_and!; auto.
    intros v Hv. rewrite aget_insert by lia. case_decide; subst; [reflexivity|].
    apply Ho; lia.
  - run_res E. rewrite length_seqZ in *.
    replace (Z.of_nat (Z.to_nat (number_vertices g))) with (number_vertices g) in *
      by (unfold number_vertices; lia).
    rewrite aset_in, bind_ok_l by (unfold number_vertices in *; lia).
    do 2 eexists; split; [reflexivity|]. split; [apply wf_shape_adjacency; exact S| |reflexivity].
    intros v Hv. cbn in *. change (number_vertices (with_adjacency _ _ _)) with (number_vertices g) in *.
    rewrite aget_insert by (unfold number_vertices in *; lia).
    case_decide; subst; [reflexivity|]. apply Ho; lia.
Qed.

(** ** Iterating over the neighbors *)

Lemma csr_degree g v :
  csr g -> 0 <= v < number_vertices g -> degree g v = Ok (Z.of_nat (length (nbrs g v))).
Proof.
  intros C Hv. unfold degree. rewrite !(csr_offsets _ C), !bind_ok_l by lia.
  rewrite offset_succ by lia. f_equal; lia.
Qed.

Lemma csr_neighbor g v i :
  csr g -> 0 <= v < number_vertices g -> 0 <= i < Z.of_nat (length (nbrs g v)) ->
  aget (neighbors g) (offset g v + i) = aget (nbrs g v) i.
Proof.
  intros C Hv Hi. rewrite (csr_neighbors _ C). unfold arcs_below.
  replace (number_vertices g) with (v + (1 + (number_vertices g - v - 1))) by lia.
  rewrite (seqZ_app 0 v) by lia. rewrite bind_app. fold (arcs_below g v).
  rewrite (seqZ_app (0 + v) 1) by lia. rewrite bind_app.
  rewrite seqZ_one. cbn [mbind list_bind]. rewrite app_nil_r, Z.add_0_l.
  unfold aget, offset. destruct (Z.leb_spec 0 i); [|lia].
  rewrite (proj2 (Z.leb_le _ _)) by lia.
  rewrite lookup_app_r by lia. rewrite lookup_app_l by (cbn; lia).
  replace (Z.to_nat _ - _)%nat with (Z.to_nat i) by lia. reflexivity.
Qed.

(** A loop over the indices of a list is a loop over the list. *)
Lemma foldM_indices {A B} (f : B -> A -> res B) (l : list A) b0 (gt : Z -> res A) :
  (forall i, 0 <= i < Z.of_nat (length l) -> gt i = aget l i) ->
  foldM (fun b i => a ← gt i; f b a) b0 (seqZ 0 (Z.of_nat (length l))) = foldM f b0 l.
Proof.
  revert b0; induction l as [|a l IH] using rev_ind; intros b0 Hgt; [reflexivity|].
  rewrite length_app, Nat.add_1_r, Nat2Z.inj_succ, <-Z.add_1_r in *; cbn in *.
  rewrite (seqZ_app 0 (Z.of_nat (length l)) 1), seqZ_one, !foldM_app by lia.
  rewrite IH. 2: { intros i Hi. rewrite Hgt by lia. apply aget_app_l; lia. }
  destruct (foldM f b0 l) as [b|e]; [|reflexivity]. rewrite !bind_ok_l. cbn.
  rewrite Hgt by lia. unfold aget. rewrite (proj2 (Z.leb_le _ _)) by lia.
  rewrite Z.add_0_l, Nat2Z.id, lookup_app_r, Nat.sub_diag by lia. reflexivity.
Qed.

Lemma foldM_ext {A B} (f f' : B -> A -> res B) b (l : list A) :
  (forall b x, x ∈ l -> f b x = f' b x) -> foldM f b l = foldM f' b l.
Proof.
  revert b; induction l as [|x l IH]; intros b H; cbn; [reflexivity|].
  rewrite H by left. destruct (f' b x); [cbn|reflexivity].
  apply IH; intros; apply H; right; assumption.
Qed.

Lemma for_each_neighbor_of_ok {S} g v (f : Z -> Z -> S -> res S) s :
  csr g -> 0 <= v < number_vertices g ->
  for_each_neighbor_of g v f s = foldM (fun s n => f (vertex n) (weight n) s) s (nbrs g v).
Proof.
  intros C Hv. unfold for_each_neighbor_of. rewrite csr_degree by assumption. cbn [mbind res_bind].
  rewrite <-(foldM_indices _ (nbrs g v) s (fun i => aget (neighbors g) (offset g v + i)))
    by (intros; apply csr_neighbor; assumption).
  apply foldM_ext. intros b i _. rewrite (csr_offsets _ C) by lia. reflexivity.
Qed.

(** ** [check_neighbors] accepts what [populate_neighbors] built *)

Lemma check_candidates_ok g v :
  csr g -> 0 <= v < number_vertices g ->
  foldM (check_candidate arc_weight g v) (Some 0) (seqZ 0 8) =
    Ok (Some (Z.of_nat (length (nbrs g v)))).
Proof.
  intros C Hv.
  destruct (foldM_inv (check_candidate arc_weight g v) (fun done st =>
      st = Some (Z.of_nat (length (omap (cand g v) done)))) (seqZ 0 8) (Some 0))
    as (st & E & ->); [reflexivity| |exact E].
  intros done i todo st Hsplit ->.
  assert (Hi : 0 <= i < 8).
  { assert (i ∈ seqZ 0 8) as ?%elem_of_seqZ; [|lia].
    rewrite Hsplit; apply elem_of_app; right; left. }
  cbn [check_candidate]. rewrite candidate_ok, bind_ok_l by (auto using csr_shape).
  rewrite omap_app, length_app. cbn.
  destruct (cand g v i) as [u|] eqn:Eu; cbn; [|rewrite Nat.add_0_r; eauto].
  rewrite (csr_offsets _ C), bind_ok_l by lia.
  assert (En : aget (nbrs g v) (Z.of_nat (length (omap (cand g v) done))) = Ok u).
  { unfold nbrs; rewrite Hsplit, omap_app; cbn; rewrite Eu.
    unfold aget; rewrite (proj2 (Z.leb_le _ _)), Nat2Z.id by lia.
    rewrite lookup_app_r, Nat.sub_diag by lia; reflexivity. }
  rewrite csr_neighbor by (auto; apply aget_bounds in En; lia). run_res En.
  rewrite !Z.eqb_refl; cbn. eexists; split; [reflexivity|]. f_equal; lia.
Qed.

Lemma check_neighbors_ok g : csr g -> check_neighbors arc_weight g = Ok true.
Proof.
  intros C. unfold check_neighbors.
  destruct (foldM_inv (check_vertex arc_weight g) (fun _ ok => ok = true)
    (seqZ 0 (number_vertices g)) true) as (ok & E & ->); [reflexivity| |exact E].
  intros done v todo ok Hsplit ->.
  assert (Hv : 0 <= v < number_vertices g).
  { assert (v ∈ seqZ 0 (number_vertices g)) as ?%elem_of_seqZ; [|lia].
    rewrite Hsplit; apply elem_of_app; right; left. }
  exists true; split; [|reflexivity]. unfold check_vertex.
  rewrite check_candidates_ok, bind_ok_l, csr_degree, bind_ok_l by assumption.
  rewrite Z.eqb_refl; reflexivity.
Qed.
End adjacency.

(** ** Loading a map *)

Definition good_char (c : ascii) : Prop := is_free c = true \/ is_blocked c = true.

Definition no_newlines (s : stream) : stream := filter (fun c => c <> "010"%char) s.

Lemma next_char_ok s c t :
  no_newlines s = c :: t -> exists s', next_char s = Ok (c, s') /\ no_newlines s' = t.
Proof.
  induction s as [|a s IH]; [discriminate|].
  unfold no_newlines; rewrite filter_cons. cbn [next_char].
  destruct (ascii_dec a "010"%char) as [->|Hne]; case_decide; try congruence.
  - exact IH.
  - intros [= <- <-]. eauto.
Qed.

Record rect (gr : list (list Z)) (h w : Z) : Prop := {
  rect_h : Z.of_nat (length gr) = h;
  rect_w : forall r row, aget gr r = Ok row -> Z.of_nat (length row) = w;
}.

Lemma grid_set_ok gr h w i j x :
  rect gr h w -> 0 <= i < h -> 0 <= j < w ->
  exists gr', grid_set gr i j x = Ok gr' /\ rect gr' h w /\
    forall i' j', grid_get gr' i' j' =
      if decide (i' = i /\ j' = j) then Ok x else grid_get gr i' j'.
Proof.
  intros [Rh Rw] Hi Hj. unfold grid_set.
  destruct (aget_in gr i) as [r Er]; [lia|]. run_res Er. pose proof (Rw _ _ Er) as Hr.
  rewrite aset_in, bind_ok_l, aset_in by lia. eexists; split; [reflexivity|].
  split; [split|].
  - rewrite length_insert; exact Rh.
  - intros k row. rewrite aget_insert by lia. case_decide; [|apply Rw].
    intros [= <-]. rewrite length_insert; exact Hr.
  - intros i' j'. unfold grid_get. rewrite aget_insert by lia.
    destruct (decide (i' = i)) as [->|Hne]; [|rewrite decide_False by tauto; reflexivity].
    rewrite bind_ok_l, aget_insert, Er, bind_ok_l by lia.
    destruct (decide (j' = j)); [rewrite decide_True by tauto|rewrite decide_False by tauto];
      reflexivity.
Qed.

Lemma elem_of_cells h w i j : (i, j) ∈ cells h w <-> 0 <= i < h /\ 0 <= j < w.
Proof.
  unfold cells. rewrite list_elem_of_bind. setoid_rewrite list_elem_of_bind.
  setoid_rewrite list_elem_of_singleton. setoid_rewrite elem_of_seqZ.
  split; [intros (? & (? & [= -> ->] & ?) & ?); lia|]. intros [Hi Hj].
  exists i; split; [exists j; split; [reflexivity|lia]|lia].
Qed.

Lemma cells_row (i w : Z) : (j ← seqZ 0 w; [(i, j)]) = pair i <$> seqZ 0 w.
Proof. induction (seqZ 0 w) as [|j l IH]; cbn; [reflexivity|]. f_equal; exact IH. Qed.

Lemma cells_NoDup h w : NoDup (cells h w).
Proof.
  unfold cells. generalize (NoDup_seqZ 0 h). induction (seqZ 0 h) as [|i l IH]; intros Hnd; cbn.
  - constructor.
  - inversion Hnd as [|? ? Hni Hnd']; subst. rewrite cells_row. apply NoDup_app. split_and!.
    + apply NoDup_fmap; [intros ? ? [= ->]; reflexivity|apply NoDup_seqZ].
    + intros [a b] (c & [= -> ->] & _)%list_elem_of_fmap.
      rewrite list_elem_of_bind. intros (k & Hk & Hin). rewrite cells_row in Hk.
      apply list_elem_of_fmap in Hk as (? & [= -> ->] & _). contradiction.
    + apply IH; exact Hnd'.
Qed.

Lemma cells_length h w : 0 <= h -> 0 <= w -> Z.of_nat (length (cells h w)) = w * h.
Proof.
  intros Hh Hw. unfold cells. rewrite <-(Z2Nat.id h) at 2 by lia. rewrite <-(length_seqZ 0 h).
  induction (seqZ 0 h) as [|i l IH]; cbn; [lia|].
  rewrite length_app, cells_row, length_fmap, length_seqZ. lia.
Qed.

(** Row-major order. *)
Lemma cells_lookup h w i j :
  0 <= i < h -> 0 <= j < w -> cells h w !! Z.to_nat (i * w + j) = Some (i, j).
Proof.
  intros Hi Hj.
  assert (exists rest, cells h w = cells i w ++ (pair i <$> seqZ 0 w) ++ rest) as [rest ->].
  { unfold cells. replace h with (i + (1 + (h - i - 1))) by lia.
    rewrite seqZ_app, seqZ_app, !bind_app, seqZ_one by lia. cbn. rewrite cells_row, app_nil_r. eauto. }
  pose proof (cells_length i w ltac:(lia) ltac:(lia)) as Hl.
  rewrite lookup_app_r by lia. rewrite lookup_app_l by (rewrite length_fmap, length_seqZ; lia).
  rewrite list_lookup_fmap, lookup_seqZ_lt by lia. cbn. do 2 f_equal. lia.
Qed.

Record load_inv (h w : Z) (chars : stream) (done : list (Z * Z)) (st : load_state) : Prop := {
  li_rect : rect (ld_grid st) h w;
  li_len : Z.of_nat (length (ld_vertices st)) = w * h;
  li_next : 0 <= ld_next_id st <= Z.of_nat (length done);
  li_vertex : forall v cv, v < ld_next_id st -> aget (ld_vertices st) v = Ok cv ->
    (row cv, col cv) ∈ done /\ grid_get (ld_grid st) (row cv) (col cv) = Ok v;
  li_cell : forall i j, (i, j) ∈ done -> exists u, grid_get (ld_grid st) i j = Ok u /\
    (u = OBSTACLE \/
     0 <= u < ld_next_id st /\ aget (ld_vertices st) u = Ok (mkCoords i j));
  li_char : forall k i j c, done !! k = Some (i, j) -> chars !! k = Some c ->
    exists u, grid_get (ld_grid st) i j = Ok u /\ (is_free c = true <-> u <> OBSTACLE);
}.

Lemma load_inv_init h w chars s :
  0 <= h -> 0 <= w ->
  load_inv h w chars [] (mkLoad (replicate (Z.to_nat h) (replicate (Z.to_nat w) 0))
    (replicate (Z.to_nat (w * h)) (mkCoords 0 0)) 0 s).
Proof.
  intros Hh Hw. split; cbn.
  - split; [rewrite length_replicate; lia|].
    intros r row [_ [-> _]%lookup_replicate_1]%aget_Ok. rewrite length_replicate; lia.
  - rewrite length_replicate; lia.
  - lia.
  - intros v cv Hv E%aget_bounds; lia.
  - intros i j H; inversion H.
  - intros k i j c H; discriminate.
Qed.

Lemma lookup_snoc_cases {A} (l : list A) x k y :
  (l ++ [x]) !! k = Some y -> l !! k = Some y \/ k = length l /\ y = x.
Proof.
  rewrite lookup_app. destruct (l !! k) as [z|] eqn:E; [intros [= ->]; auto|].
  intros [Hk [= ->]]%list_lookup_singleton_Some. apply lookup_ge_None in E. right. split; [lia|reflexivity].
Qed.

(** One good character. *)
Lemma load_cell_ok h w chars done st i j c t :
  load_inv h w chars done st -> chars !! length done = Some c -> (i, j) ∉ done -> 0 <= i < h -> 0 <= j < w ->
  Z.of_nat (length done) < w * h ->
  no_newlines (ld_stream st) = c :: t -> good_char c ->
  exists st', load_cell st (i, j) = Ok st' /\ load_inv h w chars (done ++ [(i, j)]) st' /\
    no_newlines (ld_stream st') = t.
Proof.
  intros [R L N Hv Hc Hch] Hlast Hnew Hi Hj Hroom Hs Hgood. cbn [load_cell].
  destruct (next_char_ok _ _ _ Hs) as (s' & Es & Ht). run_res Es.
  assert (Hother : forall i' j', (i', j') ∈ done -> ~ (i' = i /\ j' = j)) by (intros ? ? ? [-> ->]; auto).
  destruct (is_free c) eqn:Ef.
  - rewrite aset_in, bind_ok_l by lia.
    destruct (grid_set_ok _ h w i j (ld_next_id st) R Hi Hj) as (gr' & Eg & R' & Hg). run_res Eg.
    eexists; split; [reflexivity|]. split; [|exact Ht].
    split; cbn; rewrite ?length_app; cbn; [exact R'|rewrite length_insert; exact L|lia| | |].
    + intros v cv Hlt. rewrite aget_insert by lia. rewrite elem_of_app, Hg.
      case_decide as E; [intros [= <-]; cbn; subst; split; [right; constructor|]|].
      * rewrite decide_True by auto; reflexivity.
      * intros Ev. destruct (Hv v cv ltac:(lia) Ev) as [Hd Hgv].
        split; [left; exact Hd|]. rewrite decide_False by (apply Hother; exact Hd). exact Hgv.
    + intros i' j'. rewrite elem_of_app, list_elem_of_singleton, Hg. intros [Hd|[= -> ->]].
      * rewrite decide_False by (apply Hother; exact Hd).
        destruct (Hc i' j' Hd) as (u & Eu & [->|[Hu Ev]]); exists u || eexists; split; eauto.
        right; split; [lia|]. rewrite aget_insert, decide_False by lia. exact Ev.
      * rewrite decide_True by auto. eexists; split; [reflexivity|]. right; split; [lia|].
        rewrite aget_insert, decide_True by (auto; lia). reflexivity.
    + intros k i' j' c'. rewrite Hg. intros [Hk|[Hk [= -> ->]]]%lookup_snoc_cases Hcc.
      * rewrite decide_False by (apply Hother, list_elem_of_lookup; eauto). eauto.
      * rewrite decide_True by auto. eexists; split; [reflexivity|]. simplify_eq.
        rewrite Ef. unfold OBSTACLE. split; [lia|reflexivity].
  - destruct Hgood as [?|Eb]; [congruence|]. rewrite Eb.
    destruct (grid_set_ok _ h w i j OBSTACLE R Hi Hj) as (gr' & Eg & R' & Hg). run_res Eg.
    eexists; split; [reflexivity|]. split; [|exact Ht].
    split; cbn; rewrite ?length_app; cbn; [exact R'|exact L|lia| | |].
    + intros v cv Hlt Ev. destruct (Hv v cv Hlt Ev) as [Hd Hgv]. rewrite elem_of_app, Hg.
      split; [left; exact Hd|]. rewrite decide_False by (apply Hother; exact Hd). exact Hgv.
    + intros i' j'. rewrite elem_of_app, list_elem_of_singleton, Hg. intros [Hd|[= -> ->]].
      * rewrite decide_False by (apply Hother; exact Hd). apply Hc; exact Hd.
      * rewrite decide_True by auto. eauto.
    + intros k i' j' c'. rewrite Hg. intros [Hk|[Hk [= -> ->]]]%lookup_snoc_cases Hcc.
      * rewrite decide_False by (apply Hother, list_elem_of_lookup; eauto). eauto.
      * rewrite decide_True by auto. eexists; split; [reflexivity|]. simplify_eq.
        rewrite Ef. split; [discriminate|congruence].
Qed.

Lemma load_cells_ok h w s :
  0 <= h -> 0 <= w ->
  w * h <= Z.of_nat (length (no_newlines s)) ->
  Forall good_char (take (Z.to_nat (w * h)) (no_newlines s)) ->
  exists st, load_cells h w s = Ok st /\ load_inv h w (no_newlines s) (cells h w) st.
Proof.
  intros Hh Hw Hlen Hgood. unfold load_cells.
  destruct (foldM_inv load_cell (fun done st => load_inv h w (no_newlines s) done st /\
      no_newlines (ld_stream st) = drop (length done) (no_newlines s))
    (cells h w) (mkLoad (replicate (Z.to_nat h) (replicate (Z.to_nat w) 0))
       (replicate (Z.to_nat (w * h)) (mkCoords 0 0)) 0 s)) as (st & E & I & _).
  - split; [apply load_inv_init; assumption|reflexivity].
  - intros done [i j] todo st Hsplit [I Hs].
    pose proof (cells_length h w Hh Hw) as Hl. rewrite Hsplit, length_app in Hl; cbn in Hl.
    assert (Hin : (i, j) ∈ cells h w) by (rewrite Hsplit; set_solver).
    apply elem_of_cells in Hin as [Hi Hj].
    assert (Hnew : (i, j) ∉ done).
    { pose proof (cells_NoDup h w) as Hnd. rewrite Hsplit in Hnd.
      apply NoDup_app in Hnd as (_ & Hd & _). intros H; apply (Hd _ H); left. }
    destruct (lookup_lt_is_Some_2 (no_newlines s) (length done)) as [c Hc]; [lia|].
    pose proof (drop_S _ _ _ Hc) as Hdrop. rewrite Hdrop in Hs.
    destruct (load_cell_ok h w (no_newlines s) done st i j c _ I Hc Hnew Hi Hj ltac:(lia) Hs) as (st' & E' & I' & Hs').
    { rewrite Forall_forall in Hgood. apply Hgood, list_elem_of_lookup. exists (length done).
      rewrite lookup_take_lt by lia. exact Hc. }
    exists st'; split; [exact E'|]. split; [exact I'|].
    rewrite Hs', length_app, Nat.add_1_r. reflexivity.
  - exists st; auto.
Qed.

Lemma aget_take {A} (l : list A) n i a :
  aget (take n l) i = Ok a -> aget l i = Ok a /\ i < Z.of_nat n.
Proof.
  rewrite !aget_Ok. intros [Hi H]. apply lookup_take_Some in H as [H Hn].
  split; [auto|lia].
Qed.

Lemma load_wf_grid h w chars st :
  0 <= h -> 0 <= w -> load_inv h w chars (cells h w) st ->
  wf_grid (mkGraph (ld_grid st)
    (vresize (mkCoords 0 0) (Z.to_nat (ld_next_id st)) (ld_vertices st)) h w [] []).
Proof.
  intros Hh Hw [[Rh Rw] L N Hv Hc _].
  rewrite cells_length in N by assumption.
  assert (vresize (mkCoords 0 0) (Z.to_nat (ld_next_id st)) (ld_vertices st) =
          take (Z.to_nat (ld_next_id st)) (ld_vertices st)) as ->.
  { unfold vresize. replace (_ - _)%nat with O by lia. cbn; apply app_nil_r. }
  assert (Hvert : forall v cv, aget (take (Z.to_nat (ld_next_id st)) (ld_vertices st)) v = Ok cv ->
    (row cv, col cv) ∈ cells h w /\ grid_get (ld_grid st) (row cv) (col cv) = Ok v).
  { intros v cv [E Hlt]%aget_take. apply Hv; [lia|exact E]. }
  assert (Hcell : forall r c u, grid_get (ld_grid st) r c = Ok u -> u = OBSTACLE \/
     0 <= u < ld_next_id st /\ aget (ld_vertices st) u = Ok (mkCoords r c)).
  { intros r c u E. destruct (Hc r c) as (u' & E' & Hu); [|congruence].
    apply elem_of_cells. unfold grid_get in E. inv_res. pose proof (Rw _ _ E0).
    apply aget_bounds in E0, E. lia. }
  split; [split|..]; cbn.
  - symmetry; exact Rh.
  - exact Rw.
  - intros v cv [Hin%elem_of_cells _]%Hvert. exact Hin.
  - intros r c u [->|[Hu _]]%Hcell; [left; reflexivity|right].
    unfold number_vertices; cbn. rewrite length_take. lia.
  - intros v cv [_ Hg]%Hvert. exact Hg.
  - intros r c u [->|[Hu Ev]]%Hcell Hne; [contradiction|].
    apply aget_Ok in Ev as [? Ev]. apply aget_Ok; split; [lia|].
    rewrite lookup_take_lt by lia. exact Ev.
Qed.

Lemma wf_grid_adjacency g offs ns : wf_grid g -> wf_grid (with_adjacency g offs ns).
Proof. intros [S Hv Hc]; split; [apply wf_shape_adjacency; exact S|exact Hv|exact Hc]. Qed.

(** A map file with a good header and enough good characters loads. *)
Record good_map (file rest body : stream) (h w : Z) : Prop := {
  gm_height : scan_height file = Some (h, rest);
  gm_width : scan_width rest = Some (w, body);
  gm_h : 0 <= h;
  gm_w : 0 <= w;
  gm_size : w * h <= int_max int32;
  gm_enough : w * h <= Z.of_nat (length (no_newlines body));
  gm_good : Forall good_char (take (Z.to_nat (w * h)) (no_newlines body));
}.

Lemma construct_ok aw file rest body h w :
  good_map file rest body h w ->
  exists g, construct aw file = Ok g /\ wf_grid g /\ csr aw g /\ height g = h /\ width g = w /\
    forall i j c, 0 <= i < h -> 0 <= j < w -> no_newlines body !! Z.to_nat (i * w + j) = Some c ->
      exists u, grid_at g i j = Ok u /\ (is_free c = true <-> u <> OBSTACLE).
Proof.
  intros [E1 E2 Hh Hw Hsz Hlen Hgood]. unfold construct.
  rewrite E1. cbn [of_option]. rewrite bind_ok_l. rewrite E2. cbn [of_option]. rewrite bind_ok_l.
  rewrite mul_int_in, bind_ok_l by (unfold int_min; cbn in *; lia).
  rewrite (proj2 (Z.ltb_ge h 0)), (proj2 (Z.ltb_ge (w * h) 0)) by lia. cbn [orb]. rewrite bind_ok_l.
  destruct (load_cells_ok h w body Hh Hw Hlen Hgood) as (st & E3 & I). run_res E3.
  pose proof (load_wf_grid h w _ st Hh Hw I) as W.
  destruct (populate_ok aw _ (wg_shape _ W)) as (offs & ns & E4 & C); [reflexivity|]. cbv zeta. run_res E4.
  rewrite (check_neighbors_ok aw _ C), bind_ok_l. cbn [assert_]. rewrite bind_ok_l.
  eexists; split; [reflexivity|]. split; [apply wf_grid_adjacency; exact W|]. split; [exact C|].
  split; [reflexivity|]. split; [reflexivity|].
  intros i j c Hi Hj Hc. apply (li_char _ _ _ _ _ I (Z.to_nat (i * w + j))); [|exact Hc].
  apply cells_lookup; assumption.
Qed.

(** ** The graph interface *)

#[export] Instance graph_ops : GraphOps graph := {|
  Interfaces.number_vertices := number_vertices;
  Interfaces.for_each_neighbor_of := @for_each_neighbor_of;
|}.

(** Base costs of the eight steps, and the positions they connect. *)
Lemma step_cases i dr dc d :
  aget drow i = Ok dr -> aget dcol i = Ok dc -> aget dist i = Ok d ->
  0 <= i < 8 /\ -1 <= dr <= 1 /\ -1 <= dc <= 1 /\
  (Z.abs dr + Z.abs dc = 1 /\ d = 10000 \/ Z.abs dr + Z.abs dc = 2 /\ d = 14142).
Proof.
  intros Hr Hc Hd. pose proof (aget_bounds _ _ _ Hr) as Hi. change (Z.of_nat (length drow)) with 8 in Hi.
  assert (i = 0 \/ i = 1 \/ i = 2 \/ i = 3 \/ i = 4 \/ i = 5 \/ i = 6 \/ i = 7) as Hcase by lia.
  repeat destruct Hcase as [->|Hcase]; subst; vm_compute in Hr, Hc, Hd; simplify_eq; lia.
Qed.

(** Step [7 - i] undoes step [i], at the same base cost. *)
Lemma step_opposite i dr dc d :
  aget drow i = Ok dr -> aget dcol i = Ok dc -> aget dist i = Ok d ->
  aget drow (7 - i) = Ok (- dr) /\ aget dcol (7 - i) = Ok (- dc) /\ aget dist (7 - i) = Ok d.
Proof.
  intros Hr Hc Hd. pose proof (aget_bounds _ _ _ Hr) as Hi. change (Z.of_nat (length drow)) with 8 in Hi.
  assert (i = 0 \/ i = 1 \/ i = 2 \/ i = 3 \/ i = 4 \/ i = 5 \/ i = 6 \/ i = 7) as Hcase by lia.
  repeat destruct Hcase as [->|Hcase]; subst; vm_compute in Hr, Hc, Hd; simplify_eq; auto.
Qed.

Section laws.
Context (arc_weight : Z -> Z -> Z).
Context (arc_weight_nonneg : forall r d, 0 <= r -> 0 <= d -> 0 <= arc_weight r d).

Definition graph_succs (g : graph) (v : Z) : list (Z * Z) :=
  (fun n => (vertex n, weight n)) <$> nbrs arc_weight g v.

Lemma elem_of_nbrs g v n : n ∈ nbrs arc_weight g v <->
  exists i, 0 <= i < 8 /\ cand arc_weight g v i = Some n.
Proof.
  unfold nbrs. rewrite list_elem_of_omap. setoid_rewrite elem_of_seqZ. split; firstorder.
Qed.

Lemma elem_of_graph_succs g v u w : (u, w) ∈ graph_succs g v <->
  exists i, 0 <= i < 8 /\ cand arc_weight g v i = Some (mkNeighbor u w).
Proof.
  unfold graph_succs. rewrite list_elem_of_fmap. split.
  - intros ([u' w'] & [= -> ->] & H). apply elem_of_nbrs; exact H.
  - intros H. exists (mkNeighbor u w). split; [reflexivity|apply elem_of_nbrs; exact H].
Qed.

Lemma foldM_succs {S} (f : Z -> Z -> S -> res S) s l :
  foldM (fun s n => f (vertex n) (weight n) s) s l =
  foldM (fun s '(u, w) => f u w s) s ((fun n => (vertex n, weight n)) <$> l).
Proof.
  revert s; induction l as [|n l IH]; intros s; cbn; [reflexivity|].
  destruct (f (vertex n) (weight n) s); [apply IH|reflexivity].
Qed.

Lemma cand_facts g v i n :
  wf_shape g -> cand arc_weight g v i = Some n ->
  0 <= vertex n < number_vertices g /\ 0 <= weight n.
Proof using arc_weight_nonneg.
  intros S (cv & dr & dc & d & Ev & Er & Ec & Ed & Hr & Hc & Eg & Hne & ->)%cand_Some.
  destruct (ws_cell _ S _ _ _ Eg) as [?|Hu]; [contradiction|]. split; [exact Hu|].
  destruct (step_cases i dr dc d Er Ec Ed) as (_ & _ & _ & Hd).
  apply arc_weight_nonneg; lia.
Qed.

(** A graph with built adjacency arrays is a lawful GRAPH. *)
Definition csr_laws (g : graph) (C : csr arc_weight g) : GraphLaws g.
Proof using arc_weight_nonneg.
  refine {| succs := graph_succs g |}.
  - intros S v f s Hv. cbn. rewrite (for_each_neighbor_of_ok arc_weight g v f s C Hv).
    apply foldM_succs.
  - intros v u w Hv (i & Hi & Hcand)%elem_of_graph_succs.
    exact (proj1 (cand_facts g v i _ (csr_shape _ _ C) Hcand)).
  - intros v u w Hv (i & Hi & Hcand)%elem_of_graph_succs.
    exact (proj2 (cand_facts g v i _ (csr_shape _ _ C) Hcand)).
  - cbn; unfold number_vertices; lia.
Defined.

(** An arc of the grid, seen from both ends. *)
Lemma cand_reverse g v i n :
  wf_grid g -> cand arc_weight g v i = Some n ->
  exists cv cn d, aget (vertices g) v = Ok cv /\ aget (vertices g) (vertex n) = Ok cn /\
    weight n = arc_weight (row cn) d /\
    cand arc_weight g (vertex n) (7 - i) = Some (mkNeighbor v (arc_weight (row cv) d)) /\
    let diff := Z.abs (row cv - row cn) + Z.abs (col cv - col cn) in
    (diff = 1 /\ d = 10000 \/ diff = 2 /\ d = 14142).
Proof.
  intros W Hcand. pose proof Hcand as (cv & dr & dc & d & Ev & Er & Ec & Ed & Hr & Hc & Eg & Hne & Hw)%cand_Some.
  pose proof (wg_cell _ W _ _ _ Eg Hne) as En.
  exists cv, (mkCoords (row cv + dr) (col cv + dc)), d. cbn.
  destruct (step_opposite i dr dc d Er Ec Ed) as (Er' & Ec' & Ed').
  destruct (step_cases i dr dc d Er Ec Ed) as (_ & _ & _ & Hd).
  split; [exact Ev|]. split; [exact En|]. split; [exact Hw|].
  pose proof (ws_vertex _ (wg_shape _ W) _ _ Ev) as Hv.
  split; [|lia].
  replace (row cv) with (row (mkCoords (row cv + dr) (col cv + dc)) + - dr) by (cbn; lia).
  apply (cand_intro arc_weight g (vertex n) (7 - i) (mkCoords (row cv + dr) (col cv + dc)) (- dr) (- dc) d v);
    cbn; auto; try lia.
  - replace (row cv + dr + - dr) with (row cv) by lia.
    replace (col cv + dc + - dc) with (col cv) by lia. apply (wg_vertex _ W); exact Ev.
  - pose proof (aget_bounds _ _ _ Ev). unfold OBSTACLE; lia.
Qed.

(** What [weight_between] returns on the two ends of an arc. *)
Lemma weight_between_arc between g u v w :
  wf_grid g -> (v, w) ∈ graph_succs g u ->
  exists cu cv d, aget (vertices g) u = Ok cu /\ aget (vertices g) v = Ok cv /\
    w = arc_weight (row cv) d /\
    weight_between between g u v = Ok (between (row cu) d) /\
    weight_between between g v u = Ok (between (row cv) d).
Proof.
  intros W (i & Hi & Hcand)%elem_of_graph_succs.
  destruct (cand_reverse g u i _ W Hcand) as (cu & cv & d & Eu & Ev & Hw & _ & Hd).
  cbn in *. exists cu, cv, d. split_and!; auto; unfold weight_between; rewrite Eu, Ev, !bind_ok_l.
  all: repeat (case_match; [f_equal; f_equal; lia || (exfalso; lia)|]); exfalso; lia.
Qed.
End laws.

(** ** Path lengths *)

Section pathlen.
Context (len_type : int_type) (s : Z) (pred_ c : Z -> Z).
Context (pw : Z -> Z -> res Z) (pf : Z -> res Z).

(** Sum of [c x] over the vertices of a chain other than the source. *)
Definition chain_sum (l : list Z) : Z := sumZ (fun x => if decide (x = s) then 0 else c x) l.

Lemma chain_sum_nonneg l : (forall x, x ∈ l -> x <> s -> 0 <= c x) -> 0 <= chain_sum l.
Proof. intros H; apply sumZ_nonneg; intros x Hx; case_decide; [lia|auto]. Qed.

(** The loop adds up the step weights along the predecessor chain. *)
Lemma pathlen_loop_ok fuel x l acc :
  chain pred_ s x l ->
  (forall y, y ∈ l -> y <> s -> pf y = Ok (pred_ y) /\ pw y (pred_ y) = Ok (c y) /\ 0 <= c y) ->
  (length l <= fuel)%nat -> 0 <= acc -> acc + chain_sum l <= int_max len_type ->
  pathlen_loop len_type pw pf fuel s x acc = Ok (acc + chain_sum l).
Proof.
  intros Hc; revert fuel acc; induction Hc as [|x l Hne Hc IH]; intros fuel acc Hl Hf Hacc Hmax.
  - destruct fuel as [|fuel]; [cbn in Hf; lia|]. cbn. rewrite Z.eqb_refl.
    rewrite decide_True by reflexivity. f_equal; lia.
  - destruct fuel as [|fuel]; [cbn in Hf; lia|]. cbn. rewrite (proj2 (Z.eqb_neq x s) Hne).
    destruct (Hl x ltac:(left) Hne) as (Ep & Ew & Hcx). run_res Ep. run_res Ew.
    unfold chain_sum in Hmax |- *; cbn in Hmax, Hf |- *. fold (chain_sum l) in *.
    rewrite decide_False in * by exact Hne.
    assert (0 <= chain_sum l) by (apply chain_sum_nonneg; intros y Hy Hys; apply Hl; auto; right; exact Hy).
    rewrite add_int_in, bind_ok_l by (unfold int_min; lia).
    rewrite IH; [f_equal; lia| |lia|lia|lia].
    intros y Hy; apply Hl; right; exact Hy.
Qed.
End pathlen.

(** In a shortest-path tree whose arcs have weight [c], the chain of [x] spells
    a walk of weight [chain_sum], no heavier than the g-value of [x]. *)
Lemma tree_chain_sum edge inf s dist_ pred_ c x l :
  (forall u v w, edge u v w -> 0 <= w) ->
  tree_inv edge inf s dist_ pred_ ->
  (forall y w, y <> s -> dist_ y < inf -> edge (pred_ y) y w -> w = c y) ->
  dist_ x < inf -> chain pred_ s x l ->
  walk edge s x (chain_sum s c l) /\ chain_sum s c l <= dist_ x.
Proof.
  intros Hnn T Hc Hx Hl. induction Hl as [|x l Hne Hl IH].
  - unfold chain_sum; cbn. rewrite decide_True, Z.add_0_r by reflexivity.
    split; [constructor|]. eapply ti_nonneg; eauto.
  - destruct (ti_parent _ _ _ _ _ T x Hne Hx) as (w & He & Hw). pose proof (Hnn _ _ _ He).
    destruct (IH ltac:(lia)) as [Hwalk Hle]. pose proof (Hc x w Hne Hx He) as ->.
    unfold chain_sum; cbn. fold (chain_sum s c l). rewrite decide_False by exact Hne.
    split; [|lia]. rewrite Z.add_comm. econstructor; eauto.
Qed.
End WGraph.
