(* ===== verification/Graph.v ===== *)
(** * The class [Graph] (src/src/shared/weighted_graph.hpp)

    [Graph] is the instance of WGraph.v whose arcs weigh 10000 or 14142. *)

From S2P Require Import Prelude.
From S2P Require Import Interfaces.
From S2P Require Import WGraph.

Module Graph.
Import WGraph.

(** [u.weight = dist[i]] *)
Definition arc_weight (nghrow d : Z) : Z := d.
(** [return 10000] / [return 14142] *)
Definition between (u_row c : Z) : Z := c.

Definition populate_neighbors : graph -> res graph := WGraph.populate_neighbors arc_weight.
Definition check_neighbors : graph -> res bool := WGraph.check_neighbors arc_weight.
Definition construct : list Ascii.ascii -> res graph := WGraph.construct arc_weight.
Definition weight_between : graph -> Z -> Z -> res Z := WGraph.weight_between between.

(** [pathlen (SearchResult* res, src, dst)] *)
Definition pathlen `{SearchResult R} (fuel : nat) (g : graph) (r : R) (src dst : Z) : res Z :=
  pathlen_loop int32 (fun curr p => weight_between g curr p) (predecessor r) fuel src dst 0.

(** [pathlen (int* predecessors, src, dst)] *)
Definition pathlen_array (fuel : nat) (g : graph) (preds : list Z) (src dst : Z) : res Z :=
  pathlen_loop int32 (fun curr p => weight_between g curr p) (aget preds) fuel src dst 0.
End Graph.
