(* ===== verification/LifeGraph.v ===== *)
(** * The class [LifeGraph] (src/src/shared/weighted_graph.hpp)

    [LifeGraph] is the instance of WGraph.v whose arcs weigh the row of their
    head times 10000 or 14142, with its own [pathlen], [cost_from] and
    [weighted_manhattan]. *)

From S2P Require Import Prelude.
From S2P Require Import Interfaces.
From S2P Require Import WGraph.

Module LifeGraph.
Import WGraph.

(** [u.weight = nghrow * dist[i]] *)
Definition arc_weight (nghrow d : Z) : Z := nghrow * d.
(** [return u_row * 10000L] / [return u_row * 14142L] *)
Definition between (u_row c : Z) : Z := u_row * c.

Definition populate_neighbors : graph -> res graph := WGraph.populate_neighbors arc_weight.
Definition check_neighbors : graph -> res bool := WGraph.check_neighbors arc_weight.
Definition construct : list Ascii.ascii -> res graph := WGraph.construct arc_weight.
Definition empty_graph : graph := WGraph.empty_graph.
Definition number_vertices : graph -> Z := WGraph.number_vertices.
Definition coords_of : graph -> Z -> res (Z * Z) := WGraph.coords_of.
Definition vertex_at : graph -> Z -> Z -> res Z := WGraph.vertex_at.
Definition degree : graph -> Z -> res Z := WGraph.degree.
Definition for_each_neighbor_in_range {S} := @WGraph.for_each_neighbor_in_range S.
Definition for_each_neighbor_of {S} := @WGraph.for_each_neighbor_of S.
Definition weight_between : graph -> Z -> Z -> res Z := WGraph.weight_between between.

(** [pathlen (res, src, dst)]: the arguments of [weight_between] are in the
    other order than in [Graph]. *)
Definition pathlen `{SearchResult R} (fuel : nat) (g : graph) (r : R) (src dst : Z) : res Z :=
  pathlen_loop int64 (fun curr p => weight_between g p curr) (predecessor r) fuel src dst 0.

Definition pebble_dump := WGraph.pebble_dump.
Definition pebble_dump_result `{SearchResult R} := @WGraph.pebble_dump_result R _.

Definition cost_from (a b : Z) : res Z :=
  let last := if b <? a then b + 1 else if a <? b then b - 1 else b in
  s ← add_int int32 a last;
  p ← mul_int int32 s (Z.abs (a - b));
  Ok (Z.quot p 2).

(** [weighted_manhattan (w, u, v)]; [k] is [(long) (10000.0 * w)].  The code
    reads [gx] and [gy] from [vertices[u]], like [x] and [y]. *)
Definition weighted_manhattan (k : Z) (g : graph) (u v : Z) : res Z :=
  cx ← aget (vertices g) u;
  let x := col cx in
  let y := row cx in
  cg ← aget (vertices g) u;
  let gx := col cg in
  let gy := row cg in
  let dx := Z.abs (gx - x) in
  let dy := Z.abs (gy - y) in
  if dy <? dx then
    let max_up := if y <? gy then y else gy in
    let extra := dx - dy in
    let up := if max_up <? Z.quot extra 2 then max_up else Z.quot extra 2 in
    let high_y := (if y <? gy then y else gy) - up in
    let across := extra - 2 * up in
    c1 ← cost_from y high_y;
    c2 ← mul_int int32 across high_y;
    c3 ← cost_from high_y gy;
    s ← add_int int32 c1 c2;
    s ← add_int int32 s c3;
    mul_int int64 s k
  else
    c ← cost_from y gy;
    mul_int int64 c k.
End LifeGraph.
