(* ===== verification/GridGraphs.v ===== *)
(** * Properties of [Graph] and [LifeGraph]

    The neighbor iteration visits exactly the arcs of the map, the graph
    interface holds of both classes, the weights and path lengths, and three
    small maps on which everything is evaluated. *)

From S2P Require Import Prelude.
From S2P Require Import Interfaces.
From S2P Require Import Paths.
From S2P Require Import SearchSpec.
From S2P Require Import WGraph.
From S2P Require Import Graph.
From S2P Require Import LifeGraph.

(** ** Properties *)

Section properties.
Import WGraph.

Lemma Graph_nonneg r d : 0 <= r -> 0 <= d -> 0 <= Graph.arc_weight r d.
Proof. auto. Qed.

Lemma LifeGraph_nonneg r d : 0 <= r -> 0 <= d -> 0 <= LifeGraph.arc_weight r d.
Proof. unfold LifeGraph.arc_weight; intros; nia. Qed.

(** The neighbors the loop visits, in order. *)
Definition visited (g : graph) (v : Z) : res (list (Z * Z)) :=
  WGraph.for_each_neighbor_of g v (fun u w acc => Ok (acc ++ [(u, w)])) [].

Lemma visited_succs aw g v :
  csr aw g -> 0 <= v < WGraph.number_vertices g -> visited g v = Ok (graph_succs aw g v).
Proof.
  intros C Hv. unfold visited. rewrite (for_each_neighbor_of_ok aw) by assumption.
  cut (forall l acc, foldM (fun acc n => Ok (acc ++ [(vertex n, weight n)])) acc l =
         Ok (acc ++ ((fun n => (vertex n, weight n)) <$> l))).
  { intros H; apply (H _ []). }
  induction l as [|n l IH]; intros acc; cbn; [rewrite app_nil_r; reflexivity|].
  rewrite IH, <-(assoc_L (++)). reflexivity.
Qed.

(** Two cells are eight-adjacent at base cost [d]. *)
Definition adjacent (cu cv : coords) (d : Z) : Prop :=
  cu <> cv /\ Z.abs (row cu - row cv) <= 1 /\ Z.abs (col cu - col cv) <= 1 /\
  d = (if decide (row cu = row cv \/ col cu = col cv) then 10000 else 14142).

Lemma adjacent_step cu cv d :
  adjacent cu cv d ->
  exists i dr dc, 0 <= i < 8 /\ aget drow i = Ok dr /\ aget dcol i = Ok dc /\ aget dist i = Ok d /\
    row cv = row cu + dr /\ col cv = col cu + dc.
Proof.
  destruct cu as [r c], cv as [r' c']. intros (Hne & Hr & Hc & ->); cbn in *.
  assert (~ (r = r' /\ c = c')) by (intros [-> ->]; congruence).
  assert (r' - r = -1 \/ r' - r = 0 \/ r' - r = 1) as Hdr by lia.
  assert (c' - c = -1 \/ c' - c = 0 \/ c' - c = 1) as Hdc by lia.
  destruct Hdr as [Er|[Er|Er]], Hdc as [Ec|[Ec|Ec]]; try lia;
    ((case_decide; [|exfalso; lia]) || (case_decide; [exfalso; lia|])).
  - exists 0, (-1), (-1). split_and!; (reflexivity || lia).
  - exists 1, (-1), 0. split_and!; (reflexivity || lia).
  - exists 2, (-1), 1. split_and!; (reflexivity || lia).
  - exists 3, 0, (-1). split_and!; (reflexivity || lia).
  - exists 4, 0, 1. split_and!; (reflexivity || lia).
  - exists 5, 1, (-1). split_and!; (reflexivity || lia).
  - exists 6, 1, 0. split_and!; (reflexivity || lia).
  - exists 7, 1, 1. split_and!; (reflexivity || lia).
Qed.

Lemma step_adjacent aw g v i n cv cn :
  wf_grid g -> cand aw g v i = Some n ->
  aget (vertices g) v = Ok cv -> aget (vertices g) (vertex n) = Ok cn ->
  exists d, adjacent cv cn d /\ weight n = aw (row cn) d /\ aget drow i = Ok (row cn - row cv) /\
    aget dcol i = Ok (col cn - col cv).
Proof.
  intros W (cv' & dr & dc & d & Ev & Er & Ec & Ed & Hr & Hc & Eg & Hne & Hw)%cand_Some Ev' En.
  rewrite Ev in Ev'; injection Ev' as ->.
  rewrite (wg_cell _ W _ _ _ Eg Hne) in En. injection En as <-. cbn.
  destruct (step_cases i dr dc d Er Ec Ed) as (_ & Hdr & Hdc & Hd).
  exists d. split; [split; [|split; [cbn; lia|split; [cbn; lia|]]]|].
  - destruct cv; cbn; intros [= ? ?]; lia.
  - cbn. case_decide; lia.
  - split; [exact Hw|].
    replace (row cv + dr - row cv) with dr by lia.
    replace (col cv + dc - col cv) with dc by lia. auto.
Qed.

(** The arcs of either class: exactly the eight-adjacent free cells. *)
Lemma graph_succs_adjacent aw g v cv u w :
  wf_grid g -> aget (vertices g) v = Ok cv ->
  (u, w) ∈ graph_succs aw g v <->
  exists cu d, aget (vertices g) u = Ok cu /\ adjacent cv cu d /\ w = aw (row cu) d.
Proof.
  intros W Ev. rewrite elem_of_graph_succs. split.
  - intros (i & Hi & Hcand).
    destruct (cand_reverse aw g v i _ W Hcand) as (cv' & cu & _ & _ & Eu & _). cbn in Eu.
    destruct (step_adjacent aw g v i _ cv cu W Hcand Ev Eu) as (d & Ha & Hw & _).
    exists cu, d; auto.
  - intros (cu & d & Eu & Ha & ->).
    destruct (adjacent_step cv cu d Ha) as (i & dr & dc & Hi & Er & Ec & Ed & Hr & Hc).
    exists i; split; [exact Hi|]. rewrite Hr.
    pose proof (ws_vertex _ (wg_shape _ W) _ _ Eu) as Hb.
    apply (cand_intro aw g v i cv dr dc d u); auto; rewrite <-?Hr, <-?Hc; try lia.
    + apply (wg_vertex _ W); exact Eu.
    + apply aget_bounds in Eu; unfold OBSTACLE; lia.
Qed.

(** No neighbor is visited twice. *)
Lemma graph_succs_NoDup aw g v :
  wf_grid g -> NoDup (graph_succs aw g v).*1.
Proof.
  intros W. unfold graph_succs. rewrite <-list_fmap_compose. unfold nbrs.
  assert (Hinj : forall i j n m, cand aw g v i = Some n -> cand aw g v j = Some m ->
    vertex n = vertex m -> i = j).
  { intros i j n m Hi Hj E.
    destruct (cand_reverse aw g v i n W Hi) as (cv & cn & _ & Ev & En & _).
    pose proof En as Em. rewrite E in Em.
    destruct (step_adjacent aw g v i n cv cn W Hi Ev En) as (_ & _ & _ & Ri & Ci).
    destruct (step_adjacent aw g v j m cv cn W Hj Ev Em) as (_ & _ & _ & Rj & Cj).
    assert (Bi : 0 <= i < 8) by (apply aget_bounds in Ri; exact Ri).
    assert (Bj : 0 <= j < 8) by (apply aget_bounds in Rj; exact Rj).
    revert Ri Ci Rj Cj. generalize (row cn - row cv) (col cn - col cv). intros dr dc.
    assert (i = 0 \/ i = 1 \/ i = 2 \/ i = 3 \/ i = 4 \/ i = 5 \/ i = 6 \/ i = 7) as Hci by lia.
    assert (j = 0 \/ j = 1 \/ j = 2 \/ j = 3 \/ j = 4 \/ j = 5 \/ j = 6 \/ j = 7) as Hcj by lia.
    repeat destruct Hci as [->|Hci]; subst; repeat destruct Hcj as [->|Hcj]; subst;
      vm_compute; intros; congruence. }
  generalize (NoDup_seqZ 0 8). induction (seqZ 0 8) as [|i l IH]; intros Hnd; [constructor|].
  inversion Hnd as [|? ? Hni Hnd']; subst. cbn.
  destruct (cand aw g v i) as [n|] eqn:Ei; [|apply IH; exact Hnd'].
  cbn. constructor; [|apply IH; exact Hnd'].
  rewrite list_elem_of_fmap. intros (m & Em & Hm). cbn in Em.
  apply list_elem_of_omap in Hm as (j & Hj & Ej).
  pose proof (Hinj i j n m Ei Ej Em). subst; contradiction.
Qed.

(** The arcs of a grid graph, as a relation. *)
Definition grid_arc (aw : Z -> Z -> Z) (g : graph) (u v w : Z) : Prop :=
  0 <= u < WGraph.number_vertices g /\ (v, w) ∈ graph_succs aw g u.

Section tree.
Context (aw : Z -> Z -> Z) (aw_nonneg : forall r d, 0 <= r -> 0 <= d -> 0 <= aw r d).
Context (g : graph) (W : wf_grid g).
Context (src inf : Z) (dist_ pred_ : Z -> Z).
Context (src_in : 0 <= src < WGraph.number_vertices g).
Context (T : tree_inv (grid_arc aw g) inf src dist_ pred_).

Lemma grid_arc_facts u v w :
  grid_arc aw g u v w -> 0 <= w /\ 0 <= v < WGraph.number_vertices g.
Proof using W aw_nonneg.
  intros [Hu (i & Hi & Hc)%elem_of_graph_succs].
  destruct (cand_facts aw aw_nonneg g u i _ (wg_shape _ W) Hc); auto.
Qed.

Lemma grid_arc_nonneg u v w : grid_arc aw g u v w -> 0 <= w.
Proof using W aw_nonneg. intros H; apply (grid_arc_facts u v w H). Qed.

(** The predecessor chain of a reached vertex: its vertices are vertices of
    the graph, so it is no longer than the graph. *)
Lemma grid_chain x :
  dist_ x < inf -> exists l, chain pred_ src x l /\
    (forall y, y ∈ l -> dist_ y < inf /\ 0 <= y < WGraph.number_vertices g) /\
    Z.of_nat (length l) <= WGraph.number_vertices g.
Proof using T W aw_nonneg src_in.
  intros Hx. destruct (ti_chain _ _ _ _ _ T x Hx) as [l Hl]. exists l; split; [exact Hl|].
  assert (Hin : forall y, y ∈ l -> dist_ y < inf /\ 0 <= y < WGraph.number_vertices g).
  { intros y Hy. split.
    - eapply (chain_reached (grid_arc aw g) grid_arc_nonneg); eauto.
    - eapply (chain_in_range (grid_arc aw g) grid_arc_nonneg inf src
        (fun y => 0 <= y < WGraph.number_vertices g)); eauto.
      intros u v w He; apply (grid_arc_facts u v w He). }
  split; [exact Hin|].
  pose proof (NoDup_range_length l (WGraph.number_vertices g)
    (chain_nodup _ _ _ _ Hl) (fun y Hy => proj2 (Hin y Hy))). lia.
Qed.

Lemma grid_parent y :
  y <> src -> dist_ y < inf -> exists w, grid_arc aw g (pred_ y) y w.
Proof using T. intros H1 H2. destruct (ti_parent _ _ _ _ _ T y H1 H2) as (w & Hw & _); eauto. Qed.
End tree.

(** The heuristic of [LifeGraph] is 0 on every pair of vertices. *)
Lemma weighted_manhattan_zero k g u v :
  wf_grid g -> height g <= 1000000000 -> 0 <= u < WGraph.number_vertices g ->
  LifeGraph.weighted_manhattan k g u v = Ok 0.
Proof.
  intros W Hh Hu. destruct (aget_in (vertices g) u Hu) as [c E].
  pose proof (ws_vertex _ (wg_shape _ W) _ _ E) as [Hr _].
  unfold LifeGraph.weighted_manhattan. run_res E. cbv zeta.
  rewrite !Z.sub_diag, Z.ltb_irrefl. unfold LifeGraph.cost_from. rewrite Z.ltb_irrefl, Z.sub_diag.
  rewrite add_int_in, bind_ok_l by (unfold int_min; cbn; lia).
  unfold mul_int. rewrite !Z.mul_0_r. cbn. reflexivity.
Qed.

(** What [Graph::weight_between] and the arcs of [Graph] say agrees. *)
Lemma Graph_weight_between_arc g u v w :
  wf_grid g -> (v, w) ∈ graph_succs Graph.arc_weight g u ->
  Graph.weight_between g u v = Ok w /\ Graph.weight_between g v u = Ok w.
Proof.
  intros W Hin.
  destruct (weight_between_arc Graph.arc_weight Graph.between g u v w W Hin)
    as (cu & cv & d & _ & _ & -> & E1 & E2). auto.
Qed.

(** ... and that [LifeGraph::weight_between (u, v)] is the weight of the arc
    from [v] to [u]. *)
Lemma LifeGraph_weight_between_arc g u v w :
  wf_grid g -> 0 <= v < WGraph.number_vertices g ->
  (v, w) ∈ graph_succs LifeGraph.arc_weight g u ->
  exists w', LifeGraph.weight_between g u v = Ok w' /\
    (u, w') ∈ graph_succs LifeGraph.arc_weight g v /\ 0 <= w' <= height g * 14142.
Proof.
  intros W Hv Hin. pose proof Hin as (i & Hi & Hc)%elem_of_graph_succs.
  destruct (cand_reverse LifeGraph.arc_weight g u i _ W Hc) as (cu & cn & d & Eu & En & _ & Hrev & Hd).
  cbn in *. exists (row cu * d). split_and!.
  - unfold LifeGraph.weight_between, WGraph.weight_between. rewrite Eu, En, !bind_ok_l.
    repeat (case_match; [unfold LifeGraph.between; f_equal; nia || (exfalso; lia)|]); exfalso; lia.
  - apply elem_of_graph_succs. exists (7 - i). split; [lia|exact Hrev].
  - pose proof (ws_vertex _ (wg_shape _ W) _ _ Eu). nia.
  - pose proof (ws_vertex _ (wg_shape _ W) _ _ Eu). nia.
Qed.

(** The weight the [Graph] loop adds at [y], read off a tree. *)
Definition step_weight (wb : Z -> Z -> res Z) (pred_ : Z -> Z) (y : Z) : Z :=
  match wb y (pred_ y) with Ok w => w | Err _ => 0 end.

Lemma Graph_pathlen_ok `{SearchResult R} g (r : R) src inf dist_ pred_ dst fuel :
  wf_grid g -> 0 <= src < WGraph.number_vertices g ->
  tree_inv (grid_arc Graph.arc_weight g) inf src dist_ pred_ ->
  (forall y, 0 <= y < WGraph.number_vertices g -> predecessor r y = Ok (pred_ y)) ->
  dist_ dst < inf -> dist_ dst <= INT_MAX -> WGraph.number_vertices g <= Z.of_nat fuel ->
  exists len, Graph.pathlen fuel g r src dst = Ok len /\
    walk (grid_arc Graph.arc_weight g) src dst len /\ len <= dist_ dst.
Proof.
  intros W Hsrc T Hp Hdst Hmax Hfuel.
  pose proof (grid_arc_nonneg Graph.arc_weight Graph_nonneg g W) as Hnn.
  destruct (grid_chain _ Graph_nonneg g W src inf dist_ pred_ Hsrc T dst Hdst) as (l & Hl & Hin & Hlen).
  set (c := step_weight (Graph.weight_between g) pred_).
  assert (Hc : forall y w, y <> src -> dist_ y < inf ->
    grid_arc Graph.arc_weight g (pred_ y) y w -> Graph.weight_between g y (pred_ y) = Ok w /\ w = c y).
  { intros y w _ _ [_ He]. destruct (Graph_weight_between_arc g _ _ _ W He) as [_ E].
    unfold c, step_weight; rewrite E; auto. }
  destruct (tree_chain_sum (grid_arc Graph.arc_weight g) inf src dist_ pred_ c dst l)
    as [Hwalk Hle]; auto; [intros; eapply Hc; eauto|].
  exists (chain_sum src c l). split; [|auto].
  unfold Graph.pathlen. rewrite <-(Z.add_0_l (chain_sum src c l)).
  apply (pathlen_loop_ok int32 src pred_ c); auto; [|lia|lia|cbn in *; unfold INT_MAX in Hmax; cbn in Hmax; lia].
  intros y Hy Hne. destruct (Hin y Hy) as [Hr Hb]. split; [auto|].
  destruct (grid_parent _ g src inf dist_ pred_ T y Hne Hr) as [w He].
  destruct (Hc y w Hne Hr He) as [E ->]. split; [exact E|]. eapply Hnn; eauto.
Qed.

(** [len] is the total of the path that the predecessors of [r] give from [dst]
    back to [src], walked that way. *)
Definition walked_back `{SearchResult R} (edge : Z -> Z -> Z -> Prop) (r : R) (src dst len : Z) : Prop :=
  exists p c l, chain p src dst l /\ (forall y, y ∈ l -> predecessor r y = Ok (p y)) /\
    (forall y, y ∈ l -> y <> src -> edge y (p y) (c y)) /\ len = chain_sum src c l.

Lemma LifeGraph_pathlen_ok `{SearchResult R} g (r : R) src inf dist_ pred_ dst fuel :
  wf_grid g -> 0 <= src < WGraph.number_vertices g ->
  tree_inv (grid_arc LifeGraph.arc_weight g) inf src dist_ pred_ ->
  (forall y, 0 <= y < WGraph.number_vertices g -> predecessor r y = Ok (pred_ y)) ->
  dist_ dst < inf -> WGraph.number_vertices g * (height g * 14142) <= LONG_MAX ->
  WGraph.number_vertices g <= Z.of_nat fuel ->
  exists len, LifeGraph.pathlen fuel g r src dst = Ok len /\
    walk (grid_arc LifeGraph.arc_weight g) dst src len /\
    walked_back (grid_arc LifeGraph.arc_weight g) r src dst len.
Proof.
  intros W Hsrc T Hp Hdst Hmax Hfuel.
  pose proof (grid_arc_nonneg LifeGraph.arc_weight LifeGraph_nonneg g W) as Hnn.
  destruct (grid_chain _ LifeGraph_nonneg g W src inf dist_ pred_ Hsrc T dst Hdst) as (l & Hl & Hin & Hlen).
  set (c := step_weight (fun y p => LifeGraph.weight_between g p y) pred_).
  assert (Hc : forall y, y ∈ l -> y <> src ->
    LifeGraph.weight_between g (pred_ y) y = Ok (c y) /\ 0 <= c y <= height g * 14142 /\
    grid_arc LifeGraph.arc_weight g y (pred_ y) (c y)).
  { intros y Hy Hne. destruct (Hin y Hy) as [Hr Hb].
    destruct (grid_parent _ g src inf dist_ pred_ T y Hne Hr) as [w [_ He]].
    destruct (LifeGraph_weight_between_arc g _ _ _ W Hb He) as (w' & E & Harc & Hw').
    unfold c, step_weight; rewrite E. split_and!; auto; try lia. split; auto. }
  assert (Hback : walked_back (grid_arc LifeGraph.arc_weight g) r src dst (chain_sum src c l)).
  { exists pred_, c, l. split; [exact Hl|]. split; [intros y Hy; apply Hp, Hin, Hy|]. split; [intros y Hy Hne; apply Hc; assumption|reflexivity]. }
  assert (Hwalk : walk (grid_arc LifeGraph.arc_weight g) dst src (chain_sum src c l) /\
    chain_sum src c l <= Z.of_nat (length l) * (height g * 14142)).
  { clear Hlen Hin Hback. induction Hl as [|x l Hne Hl IH].
    - unfold chain_sum; cbn. rewrite decide_True by reflexivity. split; [constructor|].
      pose proof (Hc src). destruct (aget_in (vertices g) src Hsrc) as [cs Ecs].
      pose proof (ws_vertex _ (wg_shape _ W) _ _ Ecs). lia.
    - destruct (Hc x ltac:(left) Hne) as (_ & Hb & Harc).
      destruct (ti_parent _ _ _ _ _ T x Hne Hdst) as (w & He & Hw). pose proof (Hnn _ _ _ He).
      destruct IH as [Hw1 Hw2]; [lia|intros y Hy; apply Hc; right; exact Hy|].
      unfold chain_sum; cbn [sumZ]. fold (chain_sum src c l). rewrite decide_False by exact Hne.
      split; [eapply walk_cons; eauto|]. cbn [length]. lia. }
  destruct Hwalk as [Hwalk Hle]. exists (chain_sum src c l). split; [|split; [exact Hwalk|exact Hback]].
  unfold LifeGraph.pathlen. rewrite <-(Z.add_0_l (chain_sum src c l)).
  destruct (aget_in (vertices g) src Hsrc) as [cs Ecs].
  pose proof (ws_vertex _ (wg_shape _ W) _ _ Ecs).
  apply (pathlen_loop_ok int64 src pred_ c); auto; [|lia|lia|unfold LONG_MAX in Hmax; nia].
  intros y Hy Hne. destruct (Hin y Hy) as [Hr Hb], (Hc y Hy Hne) as (E & Hcy & _).
  split_and!; auto; lia.
Qed.

Lemma dump_path_ok g pred_ pf src x l fuel acc :
  chain pred_ src x l ->
  (forall y, y ∈ l -> 0 <= y < WGraph.number_vertices g /\ (y <> src -> pf y = Ok (pred_ y))) ->
  (length l <= fuel)%nat ->
  exists cs, dump_path pf g fuel src x acc = Ok (reverse (acc ++ cs)) /\
    Forall2 (fun v c => aget (vertices g) v = Ok c) l cs.
Proof.
  intros Hl; revert fuel acc; induction Hl as [|x l Hne Hl IH]; intros fuel acc Hin Hf;
    (destruct fuel as [|fuel]; [cbn in Hf; lia|]); cbn.
  - destruct (Hin src ltac:(left)) as [Hb _]. destruct (aget_in (vertices g) src Hb) as [c Ec].
    rewrite Z.eqb_refl. run_res Ec. exists [c]; split; [reflexivity|]. repeat constructor; exact Ec.
  - rewrite (proj2 (Z.eqb_neq x src) Hne). destruct (Hin x ltac:(left)) as [Hb Hp].
    destruct (aget_in (vertices g) x Hb) as [c Ec]. run_res Ec. run_res (Hp Hne).
    destruct (IH fuel (acc ++ [c])) as (cs & E & F); [intros y Hy; apply Hin; right; exact Hy|
      cbn in Hf; lia|].
    exists (c :: cs). rewrite E, <-(assoc_L (++)). split; [reflexivity|]. constructor; auto.
Qed.

(** Weights of [Graph] are the two base costs; of [LifeGraph], base costs
    scaled by a row number. *)
Lemma Graph_weight_le g u v w :
  wf_grid g -> grid_arc Graph.arc_weight g u v w -> w <= 14142.
Proof.
  intros W [_ (i & Hi & Hc)%elem_of_graph_succs].
  destruct (cand_reverse Graph.arc_weight g u i _ W Hc) as (cu & cn & d & _ & _ & Hw & _ & Hd).
  cbn in *. unfold Graph.arc_weight in Hw. lia.
Qed.

Lemma LifeGraph_weight_le g u v w :
  wf_grid g -> grid_arc LifeGraph.arc_weight g u v w -> w <= height g * 14142.
Proof.
  intros W [Hu Hin]. pose proof Hin as (i & Hi & Hc)%elem_of_graph_succs.
  destruct (cand_reverse LifeGraph.arc_weight g u i _ W Hc) as (cu & cn & d & _ & En & Hw & _ & Hd).
  cbn in *. unfold LifeGraph.arc_weight in Hw.
  pose proof (ws_vertex _ (wg_shape _ W) _ _ En). nia.
Qed.

(** The laws of the two classes, for a graph the constructor returned. *)
Definition Graph_laws (g : graph) (C : csr Graph.arc_weight g) : GraphLaws g :=
  csr_laws Graph.arc_weight Graph_nonneg g C.
Definition LifeGraph_laws (g : graph) (C : csr LifeGraph.arc_weight g) : GraphLaws g :=
  csr_laws LifeGraph.arc_weight LifeGraph_nonneg g C.
End properties.

(** ** A small map, for concrete instances *)

Module Sample.
Import WGraph.

Definition nl : string := String (Ascii.ascii_of_nat 10) EmptyString.

(** Two rows of three cells, the last cell of the first row blocked:
    vertices 0 1 in the first row and 2 3 4 in the second. *)
Definition file : list Ascii.ascii :=
  lit ("type octile" +:+ nl +:+ "height 2" +:+ nl +:+ "width 3" +:+ nl +:+ "map" +:+ nl +:+
       "..@" +:+ nl +:+ "..." +:+ nl)%string.

Definition body : list Ascii.ascii := lit ("..@" +:+ nl +:+ "..." +:+ nl)%string.
Definition rest : list Ascii.ascii :=
  lit ("width 3" +:+ nl +:+ "map" +:+ nl +:+ "..@" +:+ nl +:+ "..." +:+ nl)%string.

Lemma good : good_map file rest body 2 3.
Proof.
  split; try (vm_compute; (reflexivity || discriminate)).
  unfold good_char. repeat constructor; (left; reflexivity) || (right; reflexivity).
Defined.

Definition result (r : res graph) : graph :=
  match r with Ok g => g | Err _ => empty_graph end.

Definition graph : graph := result (Graph.construct file).
Definition life : WGraph.graph := result (LifeGraph.construct file).

Lemma graph_ok : wf_grid graph /\ csr Graph.arc_weight graph.
Proof.
  destruct (construct_ok Graph.arc_weight _ _ _ _ _ good) as (g & E & W & C & _).
  unfold graph, Graph.construct. rewrite E. auto.
Qed.

Lemma life_ok : wf_grid life /\ csr LifeGraph.arc_weight life.
Proof.
  destruct (construct_ok LifeGraph.arc_weight _ _ _ _ _ good) as (g & E & W & C & _).
  unfold life, LifeGraph.construct. rewrite E. auto.
Qed.

Example graph_arcs :
  visited graph 0 = Ok [(1, 10000); (2, 10000); (3, 14142)].
Proof. vm_compute. reflexivity. Qed.

Definition graph_laws : GraphLaws graph := Graph_laws graph (proj2 graph_ok).
Definition life_laws : GraphLaws life := LifeGraph_laws life (proj2 life_ok).

(** Arcs of the sample graphs, by evaluation. *)
Lemma graph_arc u v w :
  0 <= u < 5 -> (v, w) ∈ graph_succs Graph.arc_weight graph u ->
  grid_arc Graph.arc_weight graph u v w.
Proof. intros Hu Hin. split; [exact Hu|exact Hin]. Qed.

Lemma graph_walk : walk (grid_arc Graph.arc_weight graph) 0 4 24142.
Proof.
  apply (walk_snoc (edge := grid_arc Graph.arc_weight graph) (s := 0) (u := 1) (c := 10000) (w := 14142)).
  - apply (walk_snoc (edge := grid_arc Graph.arc_weight graph) (s := 0) (u := 0) (c := 0) (w := 10000)).
    + apply walk_nil.
    + apply graph_arc; [lia|]. by_vm_in.
  - apply graph_arc; [lia|]. by_vm_in.
Qed.

Lemma life_walk : walk (grid_arc LifeGraph.arc_weight life) 0 4 24142.
Proof.
  apply (walk_snoc (edge := grid_arc LifeGraph.arc_weight life) (s := 0) (u := 3) (c := 14142) (w := 10000)).
  - apply (walk_snoc (edge := grid_arc LifeGraph.arc_weight life) (s := 0) (u := 0) (c := 0) (w := 14142)).
    + apply walk_nil.
    + split; [vm_compute; split; congruence|]. by_vm_in.
  - split; [vm_compute; split; congruence|]. by_vm_in.
Qed.

(** One row of three cells, the middle one blocked: two isolated vertices. *)
Definition island_body : list Ascii.ascii := lit (".@." +:+ nl)%string.
Definition island_rest : list Ascii.ascii :=
  lit ("width 3" +:+ nl +:+ "map" +:+ nl +:+ ".@." +:+ nl)%string.
Definition island_file : list Ascii.ascii :=
  lit ("type octile" +:+ nl +:+ "height 1" +:+ nl +:+ "width 3" +:+ nl +:+ "map" +:+ nl +:+
       ".@." +:+ nl)%string.

Lemma island_good : good_map island_file island_rest island_body 1 3.
Proof.
  split; try (vm_compute; (reflexivity || discriminate)).
  unfold good_char. repeat constructor; (left; reflexivity) || (right; reflexivity).
Defined.

Definition island : WGraph.graph := result (Graph.construct island_file).

Lemma island_ok : wf_grid island /\ csr Graph.arc_weight island.
Proof.
  destruct (construct_ok Graph.arc_weight _ _ _ _ _ island_good) as (g & E & W & C & _).
  unfold island, Graph.construct. rewrite E. auto.
Qed.

Definition island_laws : GraphLaws island := Graph_laws island (proj2 island_ok).

Lemma island_unreachable : ~ reachable (grid_arc Graph.arc_weight island) 0 1.
Proof.
  intros Hr. cut (1 = 0); [discriminate|].
  apply (reachable_closed (grid_arc Graph.arc_weight island) (fun x => x = 0) 0 1); [reflexivity| |exact Hr].
  intros u x w -> [_ Hin]. vm_compute in Hin. inversion Hin.
Qed.

(** The heuristic of an uninformed search, for which the sample maps satisfy the
    preconditions of every search. *)
Definition zero (v : Z) : Z := 0.

Lemma graph_pre : search_pre (glaws := graph_laws) graph int32 zero 0 14142 0.
Proof.
  split; try (vm_compute; intuition congruence).
  intros u v w. apply (Graph_weight_le graph u v w (proj1 graph_ok)).
Qed.

Lemma island_pre : search_pre (glaws := island_laws) island int32 zero 0 14142 0.
Proof.
  split; try (vm_compute; intuition congruence).
  intros u v w. apply (Graph_weight_le island u v w (proj1 island_ok)).
Qed.
End Sample.
