(* ===== verification/GridSpec.v ===== *)
(** * What the graph classes promise

    The constructor, the adjacency arrays and [weight_between] of Graph and
    LifeGraph, and the places where the two classes differ from their
    comments. *)

From S2P Require Import Prelude.
From S2P Require Import Interfaces.
From S2P Require Import Paths.
From S2P Require Import WGraph.
From S2P Require Import Graph.
From S2P Require Import LifeGraph.
From S2P Require Import GridGraphs.

Module GridSpec.
Import WGraph.

(** The graph of a map: grid cells are vertex ids exactly at the free
    characters, ids and coordinates are inverse to each other, and
    [for_each_neighbor_of] visits every eight-adjacent free cell once. *)
Record loaded (aw : Z -> Z -> Z) (body : list Ascii.ascii) (h w : Z) (g : graph) : Prop := {
  lo_size : height g = h /\ width g = w;
  lo_cells : forall i j c, 0 <= i < h -> 0 <= j < w -> no_newlines body !! Z.to_nat (i * w + j) = Some c ->
    exists u, vertex_at g i j = Ok u /\ (is_free c = true <-> u <> OBSTACLE);
  lo_ids : forall i j u, 0 <= u < WGraph.number_vertices g ->
    vertex_at g i j = Ok u <-> coords_of g u = Ok (i, j);
  lo_neighbors : forall v cv, aget (vertices g) v = Ok cv ->
    exists ns, visited g v = Ok ns /\ NoDup ns.*1 /\ degree g v = Ok (Z.of_nat (length ns)) /\
      forall u wt, (u, wt) ∈ ns <->
        exists cu d, aget (vertices g) u = Ok cu /\ adjacent cv cu d /\ wt = aw (row cu) d;
  lo_check : WGraph.check_neighbors aw g = Ok true;
}.

Lemma construct_loaded aw file rest body h w :
  good_map file rest body h w ->
  exists g, WGraph.construct aw file = Ok g /\ loaded aw body h w g.
Proof.
  intros M. destruct (construct_ok aw _ _ _ _ _ M) as (g & E & W & C & Hh & Hw & Hc).
  exists g. split; [exact E|]. split; auto.
  - intros i j u Hu. unfold vertex_at, coords_of. split.
    + intros Eg. apply (wg_cell _ W) in Eg; [rewrite Eg; reflexivity|unfold OBSTACLE; lia].
    + intros ([r c] & Ev & [= <- <-])%bind_Ok. apply (wg_vertex _ W) in Ev. exact Ev.
  - intros v cv Ev. pose proof (aget_bounds _ _ _ Ev) as Hv.
    exists (graph_succs aw g v). split; [apply visited_succs; assumption|].
    split; [apply graph_succs_NoDup; exact W|]. split.
    + rewrite (csr_degree aw g v C Hv). unfold graph_succs. rewrite length_fmap. reflexivity.
    + intros u wt. apply graph_succs_adjacent; assumption.
  - apply check_neighbors_ok. exact C.
Qed.

(** On a well-formed map the constructor of [Graph] succeeds, and the graph
    it builds has a vertex for every free cell, the coordinates and the id of a
    vertex inverse to each other, and as neighbors of a vertex its eight-adjacent
    free cells, each once, at cost 10000 or 14142. *)
Theorem Graph_construct_correct file rest body h w :
  good_map file rest body h w ->
  exists g, Graph.construct file = Ok g /\ loaded (fun _ d => d) body h w g.
Proof. apply construct_loaded. Qed.

(** The same for [LifeGraph], where entering a cell of row r costs r times
    the base cost. *)
Theorem LifeGraph_construct_correct file rest body h w :
  good_map file rest body h w ->
  exists g, LifeGraph.construct file = Ok g /\ loaded (fun r d => r * d) body h w g.
Proof. apply construct_loaded. Qed.

(** A [Graph] is undirected, and [weight_between] is the weight of the arc
    in either direction. *)
Theorem Graph_weight_between_correct g u v w :
  wf_grid g -> grid_arc Graph.arc_weight g u v w ->
  grid_arc Graph.arc_weight g v u w /\
  Graph.weight_between g u v = Ok w /\ Graph.weight_between g v u = Ok w.
Proof.
  intros W [Hu Hin]. split; [|apply Graph_weight_between_arc; assumption].
  destruct (grid_arc_facts _ Graph_nonneg g W u v w (conj Hu Hin)) as [_ Hv]. split; [exact Hv|].
  pose proof Hin as (i & Hi & Hc)%elem_of_graph_succs.
  destruct (cand_reverse Graph.arc_weight g u i _ W Hc) as (cu & cn & d & _ & _ & Hw & Hrev & _).
  cbn in *. unfold Graph.arc_weight in *. subst d.
  apply elem_of_graph_succs. exists (7 - i). split; [lia|exact Hrev].
Qed.

(** [LifeGraph::weight_between (u, v)] is the weight of the arc from v to u,
    for every arc from u to v. *)
Theorem LifeGraph_weight_between_reversed g u v w :
  wf_grid g -> grid_arc LifeGraph.arc_weight g u v w ->
  exists w', LifeGraph.weight_between g u v = Ok w' /\ grid_arc LifeGraph.arc_weight g v u w'.
Proof.
  intros W [Hu Hin].
  destruct (grid_arc_facts _ LifeGraph_nonneg g W u v w (conj Hu Hin)) as [_ Hv].
  destruct (LifeGraph_weight_between_arc g u v w W Hv Hin) as (w' & E & Hr & _).
  exists w'. split; [exact E|]. split; [exact Hv|exact Hr].
Qed.

(** The arc from 0 to 3 of the sample weighs 14142, [weight_between] says 0. *)
Example LifeGraph_weight_between_differs :
  grid_arc LifeGraph.arc_weight Sample.life 0 3 14142 /\
  LifeGraph.weight_between Sample.life 0 3 = Ok 0.
Proof.
  split; [split; [vm_compute; split; congruence|by_vm_in]|vm_compute; reflexivity].
Qed.

(** ** Concrete instances *)

Lemma Graph_construct_correct_witness :
  exists g, Graph.construct Sample.file = Ok g /\ loaded (fun _ d => d) Sample.body 2 3 g.
Proof. exact (Graph_construct_correct _ _ _ _ _ Sample.good). Defined.

Lemma LifeGraph_construct_correct_witness :
  exists g, LifeGraph.construct Sample.file = Ok g /\ loaded (fun r d => r * d) Sample.body 2 3 g.
Proof. exact (LifeGraph_construct_correct _ _ _ _ _ Sample.good). Defined.

Lemma Graph_weight_between_correct_witness :
  Graph.weight_between Sample.graph 0 1 = Ok 10000 /\ Graph.weight_between Sample.graph 1 0 = Ok 10000.
Proof.
  refine (proj2 (Graph_weight_between_correct Sample.graph 0 1 10000 (proj1 Sample.graph_ok) _)).
  split; [vm_compute; split; congruence|by_vm_in].
Defined.

Lemma LifeGraph_weight_between_reversed_witness :
  exists w', LifeGraph.weight_between Sample.life 0 3 = Ok w' /\
    grid_arc LifeGraph.arc_weight Sample.life 3 0 w'.
Proof.
  refine (LifeGraph_weight_between_reversed Sample.life 0 3 14142 (proj1 Sample.life_ok) _).
  split; [vm_compute; split; congruence|by_vm_in].
Defined.

(** ** Unknown characters and distant cells *)

(** A row of three cells: the second is a character the loader reports and
    skips. *)
Definition odd_file : list Ascii.ascii :=
  lit ("type octile" +:+ Sample.nl +:+ "height 1" +:+ Sample.nl +:+ "width 3" +:+ Sample.nl +:+
       "map" +:+ Sample.nl +:+ ".x." +:+ Sample.nl)%string.
Definition open_file : list Ascii.ascii :=
  lit ("type octile" +:+ Sample.nl +:+ "height 1" +:+ Sample.nl +:+ "width 3" +:+ Sample.nl +:+
       "map" +:+ Sample.nl +:+ "..." +:+ Sample.nl)%string.

(** A character the loader does not know leaves its cell at the initial 0,
    the id of the first vertex: the cell is taken for a second copy of vertex 0,
    which gets an arc to itself and an arc from the cell's other neighbor. *)
Theorem unknown_character_aliases :
  exists g, Graph.construct odd_file = Ok g /\
    vertex_at g 0 1 = Ok 0 /\ coords_of g 0 = Ok (0, 0) /\
    visited g 0 = Ok [(0, 10000)] /\ visited g 1 = Ok [(0, 10000)].
Proof. eexists. split; [vm_compute; reflexivity|]. vm_compute. auto. Qed.

(** [Graph::weight_between] takes two cells of one row that are two columns
    apart for diagonal neighbors, although there is no arc between them. *)
Theorem weight_between_two_apart :
  exists g, Graph.construct open_file = Ok g /\ Graph.weight_between g 0 2 = Ok 14142 /\
    visited g 0 = Ok [(1, 10000)].
Proof. eexists. split; [vm_compute; reflexivity|]. vm_compute. auto. Qed.

End GridSpec.
