(* ===== verification/AStar.v ===== *)
(** * Sequential weighted A* (src/src/astar.hpp)

    [astar] and [astarT<Number>] share their text up to the number type and a
    sanity check of the latter; [search] is that text over a lawful GRAPH and a
    lawful HEAP.  The heuristic is the function the caller passes in. *)

From S2P Require Import Prelude.
From S2P Require Import Interfaces.
From S2P Require Import Paths.

Module AStar.

Record astar_state := mkState { is_expanded : bool; dist : Z; pred : Z }.

(** The object the search returns. *)
Record AStarResult := mkResult {
  n : Z;
  states : list astar_state;
  pebbles : option (list Z);
}.

#[export] Instance AStarResult_SearchResult : SearchResult AStarResult := {|
  Interfaces.is_expanded r vertex := s ← aget (states r) vertex; Ok (is_expanded s);
  Interfaces.predecessor r vertex := s ← aget (states r) vertex; Ok (pred s);
  Interfaces.g r vertex := s ← aget (states r) vertex; Ok (dist s);
  Interfaces.pebble r vertex :=
    match pebbles r with Some p => aget p vertex | None => Ok (-1) end;
|}.

Section definitions.
Context {G H : Type} {gops : GraphOps G} {hops : HeapOps H}.
(** The type [Number] of weights and g-values. *)
Context (number : int_type).
(** [astarT] stops the process on a negative g-value. *)
Context (check_negative : bool).

(** The locals of the search loop. *)
Record search_state := mkSearch {
  ss_states : list astar_state;
  ss_pebbles : option (list Z);
  ss_frontier : H;
}.

Definition initial_states (N : Z) : list astar_state :=
  replicate (Z.to_nat N) (mkState false (int_max number) (-1)).

(** The callback of [for_each_neighbor_of]: relax the arc (v, nbr). *)
Definition relax (heuristic : Z -> Z) (v nbr weight : Z) (st : search_state) :
    res search_state :=
  sv ← aget (ss_states st) v;
  nbrdist ← add_int number (dist sv) weight;
  sn ← aget (ss_states st) nbr;
  if nbrdist <? dist sn then
    f ← add_int number (heuristic nbr) nbrdist;
    frontier ← h_insert f nbr (ss_frontier st);
    states ← aset (ss_states st) nbr (mkState (is_expanded sn) nbrdist v);
    Ok (mkSearch states (ss_pebbles st) frontier)
  else Ok st.

(** The body of [if (!states[v].is_expanded)]. *)
Definition expand (heuristic : Z -> Z) (g : G) (v : Z) (st : search_state) : res search_state :=
  sv ← aget (ss_states st) v;
  states ← aset (ss_states st) v (mkState true (dist sv) (pred sv));
  _ ← (if check_negative && (dist sv <? 0) then Err Exited else Ok ());
  pebbles ← match ss_pebbles st with
            | Some p => p ← aset p v 0; Ok (Some p)
            | None => Ok None
            end;
  for_each_neighbor_of g v (relax heuristic v) (mkSearch states pebbles (ss_frontier st)).

(** [while (true)] *)
Fixpoint loop (fuel : nat) (heuristic : Z -> Z) (g : G) (destination : Z) (st : search_state) :
    res search_state :=
  match fuel with
  | O => Err OutOfFuel
  | S fuel =>
      '(v, frontier) ← h_delete_min (ss_frontier st);
      let st := mkSearch (ss_states st) (ss_pebbles st) frontier in
      if v =? destination then Ok st
      else
        sv ← aget (ss_states st) v;
        if is_expanded sv then loop fuel heuristic g destination st
        else st ← expand heuristic g v st; loop fuel heuristic g destination st
  end.

Definition search (fuel : nat) (heuristic : Z -> Z) (g : G) (source destination : Z)
    (pebble : bool) : res AStarResult :=
  let N := number_vertices g in
  let pebbles := if pebble then Some (replicate (Z.to_nat N) (-1)) else None in
  s0 ← aget (initial_states N) source;
  states ← aset (initial_states N) source (mkState (is_expanded s0) 0 (pred s0));
  frontier ← h_insert (heuristic source) source h_new;
  st ← loop fuel heuristic g destination (mkSearch states pebbles frontier);
  Ok (mkResult N (ss_states st) (ss_pebbles st)).
End definitions.
Arguments search_state : clear implicits.
Arguments mkSearch {H} _ _ _.

(** [astar]: [int] weights. *)
Definition astar {G H} {gops : GraphOps G} {hops : HeapOps H} :=
  search (G := G) (H := H) int32 false.

(** [astarT<..., long>]. *)
Definition astarT {G H} {gops : GraphOps G} {hops : HeapOps H} :=
  search (G := G) (H := H) int64 true.

(** The struct and the result class of [astarT]. *)
Definition astar_stateT : Type := astar_state.
Definition AStarResultT : Type := AStarResult.

(** ** Correctness *)

Section correctness.
Context {G H : Type} {gops : GraphOps G} {hops : HeapOps H} {hlaws : HeapLaws H}.
Context (gr : G) {glaws : GraphLaws gr}.
Context (number : int_type) (check_negative : bool).
Context (h : Z -> Z) (source destination : Z).

Abbreviation N := (number_vertices gr).
Abbreviation inf := (int_max number).
Abbreviation edge := (arc gr).

(** The caller's obligations: the source is a vertex, heuristic values and
    arc weights are in range, and no sum the search forms overflows. *)
Context (Wmax Hmax : Z).
Context (Hsource : 0 <= source < N).
Context (Hheur : forall v, 0 <= v < N -> 0 <= h v <= Hmax).
Context (Hweight : forall u v w, edge u v w -> w <= Wmax).
Context (Hfit : N * Wmax + Hmax < inf) (Hlong : inf <= LONG_MAX) (HW : 0 <= Wmax).

Definition dist_of (s : list astar_state) : Z -> Z := aview dist inf s.
Definition pred_of (s : list astar_state) : Z -> Z := aview pred (-1) s.
Definition exp_of (s : list astar_state) : Z -> bool := aview is_expanded false s.

(** The number of expanded vertices, and the arcs not yet looked at. *)
Definition expanded_count (s : list astar_state) : Z :=
  sumZ (fun x => if exp_of s x then 1 else 0) (seqZ 0 N).
Definition arcs_left (s : list astar_state) : Z :=
  sumZ (fun x => if exp_of s x then 0 else Z.of_nat (length (succs gr x))) (seqZ 0 N).

(** The heuristic is consistent after division by the weight wn / wd. *)
Definition consistent (wn wd : Z) : Prop :=
  1 <= wd <= wn /\ forall u v w, edge u v w -> wd * h u <= wn * w + wd * h v.

(** [d] is within the factor wn / wd of every walk to [x]. *)
Definition bounded (x d : Z) : Prop :=
  forall wn wd, consistent wn wd -> forall c, walk edge source x c -> wd * d <= wn * c.

(** The invariant, with the arcs [proc x] of each expanded vertex that have
    been relaxed, and a bound [B] on all g-values. *)
Record inv (proc : Z -> list (Z * Z)) (B : Z) (s : list astar_state) (l : list (Z * Z)) : Prop := {
  iv_len : Z.of_nat (length s) = N;
  iv_tree : tree_inv edge inf source (dist_of s) (pred_of s);
  iv_bound : forall x, dist_of s x < inf -> dist_of s x <= B;
  iv_entry : forall f x, (f, x) ∈ l ->
    0 <= x < N /\ dist_of s x < inf /\ h x + dist_of s x <= f;
  iv_open : forall x, dist_of s x < inf -> exp_of s x = false -> (h x + dist_of s x, x) ∈ l;
  iv_exp : forall x, exp_of s x = true -> dist_of s x < inf /\
    exists d, dist_of s x <= d /\ bounded x d /\
      forall u w, (u, w) ∈ proc x -> dist_of s u <= d + w /\ dist_of s u < inf;
}.

Lemma edge_nonneg u v w : edge u v w -> 0 <= w.
Proof. apply arc_nonneg. Qed.

Lemma inv_range proc B s l x : inv proc B s l -> dist_of s x < inf -> 0 <= x < N.
Proof.
  intros I Hx. unfold dist_of, aview in Hx. destruct (aget s x) as [a|] eqn:E; [|lia].
  apply aget_bounds in E. rewrite (iv_len _ _ _ _ I) in E. exact E.
Qed.

Lemma inv_get proc B s l x :
  inv proc B s l -> 0 <= x < N ->
  exists a, aget s x = Ok a /\ dist_of s x = dist a /\ pred_of s x = pred a /\
    exp_of s x = is_expanded a.
Proof.
  intros I Hx. destruct (aget_in s x) as [a Ea]; [rewrite (iv_len _ _ _ _ I); exact Hx|].
  exists a. unfold dist_of, pred_of, exp_of. rewrite !(aview_get _ _ _ _ _ Ea). auto.
Qed.

Lemma inv_perm proc B s l l' : inv proc B s l -> l ≡ₚ l' -> inv proc B s l'.
Proof.
  intros [] P; split; auto.
  - intros f x Hin; rewrite <-P in Hin; auto.
  - intros x H1 H2; rewrite <-P; auto.
Qed.

(** ** One relaxation *)

(** The table after a successful relaxation of (v, u). *)
Lemma table_update s u a : 0 <= u < Z.of_nat (length s) ->
  (forall y, dist_of (<[Z.to_nat u := a]> s) y = if decide (y = u) then dist a else dist_of s y) /\
  (forall y, pred_of (<[Z.to_nat u := a]> s) y = if decide (y = u) then pred a else pred_of s y) /\
  (forall y, exp_of (<[Z.to_nat u := a]> s) y =
     if decide (y = u) then is_expanded a else exp_of s y).
Proof. intros Hu; split_and!; intros y; apply aview_insert; exact Hu. Qed.

Definition add_proc (proc : Z -> list (Z * Z)) (v : Z) (a : Z * Z) (x : Z) : list (Z * Z) :=
  if decide (x = v) then proc x ++ [a] else proc x.

(** An arc that needs no update. *)
Lemma inv_relax_keep proc B s l v u w :
  inv proc B s l -> exp_of s v = true ->
  dist_of s u <= dist_of s v + w -> dist_of s u < inf ->
  inv (add_proc proc v (u, w)) B s l.
Proof.
  intros I Hv Hle Hu. destruct I as [L T Bd En Op Ex]. split; auto.
  intros x Hx. destruct (Ex x Hx) as (Hr & d & Hd & Hb & Hp). split; [exact Hr|].
  exists d; split; [exact Hd|]. split; [exact Hb|]. intros u' w' Hin.
  unfold add_proc in Hin. case_decide as E; [subst x|auto].
  apply elem_of_app in Hin as [Hin|Hin%list_elem_of_singleton]; [auto|].
  injection Hin as -> ->. split; [lia|exact Hu].
Qed.

(** An arc that improves its head. *)
Lemma inv_relax_update proc B s l v u w a :
  inv proc B s l -> exp_of s v = true -> edge v u w ->
  aget s u = Ok a -> dist_of s v + w < dist a -> dist_of s v + w <= B -> dist_of s v + w < inf ->
  inv (add_proc proc v (u, w)) B
    (<[Z.to_nat u := mkState (is_expanded a) (dist_of s v + w) v]> s)
    ((h u + (dist_of s v + w), u) :: l).
Proof.
  intros I Hv He Ea Hlt HB Hinf.
  destruct (iv_exp _ _ _ _ I v Hv) as (Hvr & _).
  destruct I as [L T Bd En Op Ex].
  pose proof (aget_bounds _ _ _ Ea) as Hu.
  destruct (table_update s u (mkState (is_expanded a) (dist_of s v + w) v) Hu) as (Dd & Dp & De).
  set (s' := <[Z.to_nat u := _]> s) in *. cbn in Dd, Dp, De.
  assert (Ha : dist_of s u = dist a) by (apply aview_get; exact Ea).
  assert (Hae : exp_of s u = is_expanded a) by (apply aview_get; exact Ea).
  assert (Dmono : forall y, dist_of s' y <= dist_of s y) by (intros y; rewrite Dd; case_decide; subst; lia).
  assert (De' : forall y, exp_of s' y = exp_of s y) by (intros y; rewrite De; case_decide; subst; auto).
  split.
  - unfold s'; rewrite length_insert; exact L.
  - eapply (tree_inv_relax edge edge_nonneg inf source (dist_of s) (pred_of s) _ _ v u w (dist_of s v));
      eauto; [apply (ti_walk _ _ _ _ _ T); exact Hvr|lia|lia].
  - intros x. rewrite Dd. case_decide; [lia|apply Bd].
  - intros f x. rewrite elem_of_cons. intros [[= -> ->]|Hin].
    + split; [lia|]. rewrite Dd, decide_True by reflexivity. lia.
    + destruct (En f x Hin) as (Hx & Hr & Hf). specialize (Dmono x). split_and!; lia.
  - intros x. rewrite De', Dd, elem_of_cons. case_decide as E; [subst x; left; reflexivity|].
    intros; right; auto.
  - intros x. rewrite De'. intros Hx. destruct (Ex x Hx) as (Hr & d & Hd & Hb & Hp).
    pose proof (Dmono x). split; [lia|]. exists d; split; [lia|]. split; [exact Hb|].
    intros u' w' Hin. unfold add_proc in Hin. case_decide as E.
    + subst x. apply elem_of_app in Hin as [Hin|Hin%list_elem_of_singleton].
      * specialize (Hp u' w' Hin). specialize (Dmono u'). lia.
      * injection Hin as -> ->. rewrite Dd, decide_True by reflexivity. lia.
    + specialize (Hp u' w' Hin). specialize (Dmono u'). lia.
Qed.

Lemma relax_ok proc B st l v u w :
  inv proc B (ss_states st) l -> h_rep (ss_frontier st) l ->
  exp_of (ss_states st) v = true -> edge v u w ->
  dist_of (ss_states st) v + Wmax <= B -> B + Hmax < inf ->
  exists st' l', relax number h v u w st = Ok st' /\
    inv (add_proc proc v (u, w)) B (ss_states st') l' /\ h_rep (ss_frontier st') l' /\
    ss_pebbles st' = ss_pebbles st /\
    dist_of (ss_states st') v <= dist_of (ss_states st) v /\
    (forall x, exp_of (ss_states st') x = exp_of (ss_states st) x) /\
    (length l' <= S (length l))%nat.
Proof.
  intros I R Hv He HB Hsum.
  destruct (iv_exp _ _ _ _ I v Hv) as (Hvr & _).
  pose proof (inv_range _ _ _ _ v I Hvr) as Hvn.
  pose proof (arc_range _ _ _ _ He) as Hun. pose proof (edge_nonneg _ _ _ He) as Hw.
  pose proof (Hweight _ _ _ He) as Hw2. pose proof (Hheur u Hun) as Hh.
  pose proof (ti_nonneg edge edge_nonneg inf source _ _ v (iv_tree _ _ _ _ I)) as Hd0.
  destruct (inv_get _ _ _ _ v I Hvn) as (av & Ev & Dv & _).
  destruct (inv_get _ _ _ _ u I Hun) as (au & Eu & Du & _ & Xu).
  unfold relax. run_res Ev. rewrite <-Dv, add_int_in, bind_ok_l by (unfold int_min; lia).
  run_res Eu. destruct (Z.ltb_spec (dist_of (ss_states st) v + w) (dist au)) as [Hlt|Hge].
  - rewrite add_int_in, bind_ok_l by (unfold int_min; lia).
    destruct (h_insert_rep (ss_frontier st) l (h u + (dist_of (ss_states st) v + w)) u R)
      as (fr & Ei & R'); [lia|]. run_res Ei.
    rewrite aset_in, bind_ok_l by (rewrite (iv_len _ _ _ _ I); exact Hun).
    eexists _, _; split; [reflexivity|]. cbn.
    destruct (table_update (ss_states st) u
      (mkState (is_expanded au) (dist_of (ss_states st) v + w) v)) as (Dd & _ & De);
      [rewrite (iv_len _ _ _ _ I); exact Hun|].
    split; [eapply inv_relax_update; eauto; lia|]. split; [exact R'|]. split; [reflexivity|].
    split; [rewrite Dd; case_decide; cbn; subst; lia|].
    split; [intros x; rewrite De; case_decide; cbn; subst; auto|]. cbn; lia.
  - exists st, l. split; [reflexivity|]. split; [apply inv_relax_keep; auto; lia|]. auto with lia.
Qed.

(** ** Popping and expanding a vertex *)

Lemma inv_proc_ext proc proc' B B' s l :
  inv proc B s l -> (forall x, proc' x = proc x) -> B <= B' -> inv proc' B' s l.
Proof.
  intros [L T Bd En Op Ex] E HB; split; auto.
  - intros x Hx; specialize (Bd x Hx); lia.
  - intros x Hx. rewrite E. auto.
Qed.

(** Dropping the entry of a vertex that is expanded. *)
Lemma inv_drop proc B s l l0 p v :
  inv proc B s l -> l ≡ₚ (p, v) :: l0 -> exp_of s v = true -> inv proc B s l0.
Proof.
  intros I P Hv. apply (inv_perm _ _ _ _ _ I) in P. destruct P as [L T Bd En Op Ex].
  split; auto.
  - intros f x Hin; apply En; right; exact Hin.
  - intros x H1 H2. specialize (Op x H1 H2). apply elem_of_cons in Op as [[= <- <-]|?]; [congruence|assumption].
Qed.

Definition proc_at (v : Z) (done : list (Z * Z)) (x : Z) : list (Z * Z) :=
  if decide (x = v) then done else succs gr x.

(** Setting the flag of [v]; none of its arcs is relaxed yet. *)
Lemma inv_mark B s l l0 p v a :
  inv (succs gr) B s l -> l ≡ₚ (p, v) :: l0 ->
  aget s v = Ok a -> dist_of s v < inf -> bounded v (dist_of s v) ->
  inv (proc_at v []) (B + Wmax) (<[Z.to_nat v := mkState true (dist a) (pred a)]> s) l0.
Proof.
  intros I P Ea Hr Hb. pose proof (inv_perm _ _ _ _ _ I P) as [L T Bd En Op Ex].
  pose proof (aget_bounds _ _ _ Ea) as Hv.
  assert (dist_of s v = dist a /\ pred_of s v = pred a) as [Da Pa].
  { unfold dist_of, pred_of; rewrite !(aview_get _ _ _ _ _ Ea); auto. }
  destruct (table_update s v (mkState true (dist a) (pred a)) Hv) as (Dd & Dp & De).
  set (s' := <[Z.to_nat v := _]> s) in *. cbn in Dd, Dp, De.
  assert (Dd' : forall y, dist_of s' y = dist_of s y) by (intros y; rewrite Dd; case_decide; subst; auto).
  assert (Dp' : forall y, pred_of s' y = pred_of s y) by (intros y; rewrite Dp; case_decide; subst; auto).
  split.
  - unfold s'; rewrite length_insert; exact L.
  - eapply tree_inv_ext; [exact T|exact Dd'|exact Dp'].
  - intros x; rewrite Dd'; intros Hx; specialize (Bd x Hx); lia.
  - intros f x Hin. rewrite Dd'. apply En; right; exact Hin.
  - intros x. rewrite Dd', De. case_decide; [discriminate|]. intros H1 H2.
    specialize (Op x H1 H2). apply elem_of_cons in Op as [[= _ ->]|?]; [contradiction|assumption].
  - intros x. rewrite Dd', De. unfold proc_at. case_decide as E.
    + intros _. subst x. split; [exact Hr|]. exists (dist_of s v).
      split; [lia|]. split; [exact Hb|]. intros u w Hin; inversion Hin.
    + intros Hx. destruct (Ex x Hx) as (H1 & d & H2 & H3 & H4). split; [exact H1|].
      exists d; split; [exact H2|]. split; [exact H3|]. intros u w Hin. rewrite Dd'. auto.
Qed.

Definition pebbles_ok (p : option (list Z)) : Prop :=
  match p with Some p => Z.of_nat (length p) = N | None => True end.

Lemma expand_ok B st l l0 p v :
  inv (succs gr) B (ss_states st) l -> l ≡ₚ (p, v) :: l0 ->
  h_rep (ss_frontier st) l0 -> pebbles_ok (ss_pebbles st) ->
  dist_of (ss_states st) v < inf -> exp_of (ss_states st) v = false ->
  bounded v (dist_of (ss_states st) v) -> B + Wmax + Hmax < inf ->
  exists st' l', expand number check_negative h gr v st = Ok st' /\
    inv (succs gr) (B + Wmax) (ss_states st') l' /\ h_rep (ss_frontier st') l' /\
    pebbles_ok (ss_pebbles st') /\
    (forall x, exp_of (ss_states st') x = if decide (x = v) then true else exp_of (ss_states st) x) /\
    (length l' <= length l0 + length (succs gr v))%nat.
Proof.
  intros I P R Hpb Hr Hx Hb Hsum.
  pose proof (inv_range _ _ _ _ v I Hr) as Hv.
  pose proof (ti_nonneg edge edge_nonneg inf source _ _ v (iv_tree _ _ _ _ I)) as Hd0.
  destruct (inv_get _ _ _ _ v I Hv) as (a & Ea & Da & _).
  pose proof (inv_mark B _ l l0 p v a I P Ea Hr Hb) as I0.
  pose proof (iv_bound _ _ _ _ I v Hr) as HB.
  unfold expand. run_res Ea. rewrite aset_in, bind_ok_l by (rewrite (iv_len _ _ _ _ I); exact Hv).
  set (s1 := <[Z.to_nat v := _]> (ss_states st)) in *. rewrite <-Da, (proj2 (Z.ltb_ge (dist_of (ss_states st) v) 0)) by lia.
  rewrite andb_false_r, bind_ok_l.
  assert (exists pb, match ss_pebbles st with
            | Some p => p ← aset p v 0; Ok (Some p) | None => Ok None end = Ok pb /\
            pebbles_ok pb) as (pb & Epb & Hpb').
  { destruct (ss_pebbles st) as [ps|]; cbn in Hpb |- *; [|exists None; auto].
    rewrite aset_in by lia; cbn. eexists; split; [reflexivity|].
    cbn. rewrite length_insert; exact Hpb. }
  run_res Epb.
  rewrite for_each_law by exact Hv.
  destruct (table_update (ss_states st) v (mkState true (dist a) (pred a))) as (Dd & _ & De);
    [rewrite (iv_len _ _ _ _ I); exact Hv|].
  fold s1 in Dd, De. cbn in De, Dd. rewrite <-Da in Dd.
  destruct (foldM_inv (fun st '(u, w) => relax number h v u w st) (fun done st1 =>
      exists l1, inv (proc_at v done) (B + Wmax) (ss_states st1) l1 /\
        h_rep (ss_frontier st1) l1 /\ ss_pebbles st1 = pb /\
        dist_of (ss_states st1) v <= dist_of (ss_states st) v /\
        (forall x, exp_of (ss_states st1) x = exp_of s1 x) /\
        (length l1 <= length l0 + length done)%nat)
    (succs gr v) (mkSearch s1 pb (ss_frontier st))) as (st' & E & l' & I' & R' & Epb' & Hd & He & Hlen).
  - exists l0. cbn. split_and!; auto; [rewrite Dd, decide_True by reflexivity; lia|lia].
  - intros done [u w] todo st1 Hsplit (l1 & I1 & R1 & Epb1 & Hd1 & He1 & Hl1).
    destruct (relax_ok (proc_at v done) (B + Wmax) st1 l1 v u w) as
      (st2 & l2 & E2 & I2 & R2 & Epb2 & Hd2 & He2 & Hl2); auto.
    + rewrite He1, De, decide_True by reflexivity; reflexivity.
    + split; [exact Hv|]. rewrite Hsplit. apply elem_of_app; right; left.
    + lia.
    + exists st2; split; [exact E2|]. exists l2.
      split; [|split; [exact R2|split; [congruence|split; [lia|split]]]].
      * apply (inv_proc_ext _ (proc_at v (done ++ [(u, w)])) _ (B + Wmax) _ _ I2); [|lia].
        intros x. unfold add_proc, proc_at. case_decide; reflexivity.
      * intros x; rewrite He2; apply He1.
      * rewrite length_app; cbn; lia.
  - exists st', l'. rewrite E. split; [reflexivity|]. split_and!; auto; [|congruence|].
    + apply (inv_proc_ext _ (succs gr) _ (B + Wmax) _ _ I'); [|lia].
      intros x. unfold proc_at. case_decide; subst; reflexivity.
    + intros x. rewrite He, De. reflexivity.
Qed.

(** ** Suboptimality: a popped vertex is as close as the weight allows *)

Lemma consistent_walk wn wd x y c :
  consistent wn wd -> walk edge x y c -> wd * h x <= wn * c + wd * h y.
Proof.
  intros [Hwd Hc]; induction 1 as [|u v c w _ IH He]; [lia|]. specialize (Hc u v w He). lia.
Qed.

(** Every walk ends in an expanded vertex or leaves the expanded set through
    a vertex that is open, at a g-value within the factor of the prefix. *)
Lemma walk_frontier B s l wn wd y c :
  inv (succs gr) B s l -> consistent wn wd -> walk edge source y c ->
  exp_of s y = true \/
  exists z cz cr, exp_of s z = false /\ dist_of s z < inf /\ wd * dist_of s z <= wn * cz /\
    walk edge z y cr /\ c = cz + cr.
Proof.
  intros I Hcons. pose proof Hcons as [Hwd _]. destruct (iv_tree _ _ _ _ I) as [Ts Tinf _ _ _].
  induction 1 as [|u x c w Hw IH He].
  - destruct (exp_of s source) eqn:Ex; [left; reflexivity|right].
    exists source, 0, 0. split_and!; auto; [lia|lia|constructor].
  - destruct IH as [Hu|(z & cz & cr & Hz1 & Hz2 & Hz3 & Hz4 & ->)].
    + destruct (exp_of s x) eqn:Ex; [left; reflexivity|right].
      destruct (iv_exp _ _ _ _ I u Hu) as (_ & d & Hd & Hb & Hp).
      destruct (Hp x w (proj2 He)) as [H1 H2].
      pose proof (Hb wn wd Hcons c Hw). pose proof (edge_nonneg _ _ _ He).
      exists x, (c + w), 0. split_and!; auto; [nia|constructor|lia].
    + right. exists z, cz, (cr + w). split_and!; auto; [econstructor; eauto|lia].
Qed.

Lemma popped_bounded B s l l0 p v :
  inv (succs gr) B s l -> l ≡ₚ (p, v) :: l0 ->
  (forall q u, (q, u) ∈ l -> p <= q) -> exp_of s v = false -> bounded v (dist_of s v).
Proof.
  intros I P Hmin Hv wn wd Hcons c Hw. pose proof Hcons as [Hwd _].
  destruct (walk_frontier B s l wn wd v c I Hcons Hw)
    as [?|(z & cz & cr & Hz1 & Hz2 & Hz3 & Hz4 & ->)]; [congruence|].
  pose proof (Hmin _ _ (iv_open _ _ _ _ I z Hz2 Hz1)) as Hz.
  assert (Hin : (p, v) ∈ l) by (rewrite P; left).
  destruct (iv_entry _ _ _ _ I p v Hin) as (_ & _ & Hp).
  pose proof (consistent_walk wn wd z v cr Hcons Hz4). nia.
Qed.

(** ** The loop *)

(** What holds when the search stops at the destination. *)
Record final (s : list astar_state) : Prop := {
  fin_len : Z.of_nat (length s) = N;
  fin_tree : tree_inv edge inf source (dist_of s) (pred_of s);
  fin_dst : dist_of s destination < inf;
  fin_bounded : bounded destination (dist_of s destination);
}.

Lemma unreachable_when_empty B s :
  inv (succs gr) B s [] -> exp_of s destination = false -> ~ reachable edge source destination.
Proof.
  intros I Hd Hr.
  assert (Hall : forall x, dist_of s x < inf -> exp_of s x = true).
  { intros x Hx. destruct (exp_of s x) eqn:E; [reflexivity|].
    pose proof (iv_open _ _ _ _ I x Hx E) as Hin. inversion Hin. }
  assert (dist_of s destination < inf); [|rewrite Hall in Hd; [discriminate|assumption]].
  eapply (reachable_closed edge (fun x => dist_of s x < inf)); [| |exact Hr].
  - destruct (iv_tree _ _ _ _ I) as [-> ? _ _ _]; lia.
  - intros u x w Hu [_ Hin]. destruct (iv_exp _ _ _ _ I u (Hall u Hu)) as (_ & d & _ & _ & Hp).
    apply (Hp x w Hin).
Qed.

Lemma counts_mark s s' v :
  0 <= v < N -> exp_of s v = false ->
  (forall x, exp_of s' x = if decide (x = v) then true else exp_of s x) ->
  expanded_count s' = expanded_count s + 1 /\
  arcs_left s' = arcs_left s - Z.of_nat (length (succs gr v)).
Proof.
  intros Hv Hx He. unfold expanded_count, arcs_left. pose proof (NoDup_seqZ 0 N) as Hnd.
  assert (Hin : v ∈ seqZ 0 N) by (apply elem_of_seqZ; lia).
  split.
  - rewrite (sumZ_update (fun x => if exp_of s x then 1 else 0) _ _ v Hnd Hin).
    + rewrite He, decide_True, Hx by reflexivity; lia.
    + intros y Hy; rewrite He, decide_False by exact Hy; reflexivity.
  - rewrite (sumZ_update (fun x => if exp_of s x then 0 else Z.of_nat (length (succs gr x))) _ _ v Hnd Hin).
    + rewrite He, decide_True, Hx by reflexivity; lia.
    + intros y Hy; rewrite He, decide_False by exact Hy; reflexivity.
Qed.

Lemma counts_bounds s : 0 <= expanded_count s <= N /\ 0 <= arcs_left s.
Proof.
  unfold expanded_count, arcs_left.
  pose proof (sumZ_le (fun x => if exp_of s x then 1 else 0) (fun _ => 1) (seqZ 0 N)) as H1.
  pose proof (number_vertices_nonneg (g := gr)).
  assert (Hs : sumZ (fun _ => 1) (seqZ 0 N) = N) by (rewrite sumZ_const, length_seqZ; lia).
  rewrite Hs in H1. split; [split|].
  - apply sumZ_nonneg; intros x _; destruct (exp_of s x); lia.
  - apply H1; intros x _; destruct (exp_of s x); lia.
  - apply sumZ_nonneg; intros x _; destruct (exp_of s x); lia.
Qed.

Lemma count_room proc B s l v :
  inv proc B s l -> 0 <= v < N -> exp_of s v = false -> expanded_count s + 1 <= N.
Proof.
  intros I Hv Hx.
  destruct (table_update s v (mkState true 0 0)) as (_ & _ & De);
    [rewrite (iv_len _ _ _ _ I); exact Hv|].
  destruct (counts_mark s _ v Hv Hx De) as [<- _]. apply counts_bounds.
Qed.

Lemma loop_ok fuel st l :
  inv (succs gr) (expanded_count (ss_states st) * Wmax) (ss_states st) l ->
  h_rep (ss_frontier st) l -> pebbles_ok (ss_pebbles st) ->
  exp_of (ss_states st) destination = false ->
  Z.of_nat (length l) + arcs_left (ss_states st) < Z.of_nat fuel ->
  (exists st', loop number check_negative fuel h gr destination st = Ok st' /\ final (ss_states st')) \/
  (loop number check_negative fuel h gr destination st = Err AssertFailed /\
   ~ reachable edge source destination).
Proof.
  revert st l; induction fuel as [|fuel IH]; intros st l I R Hpb Hdst Hf.
  { pose proof (counts_bounds (ss_states st)). lia. }
  destruct l as [|e l1] eqn:El.
  { right. cbn. rewrite (h_delete_min_empty _ R). split; [reflexivity|].
    eapply unreachable_when_empty; eauto. }
  rewrite <-El in *. assert (Hne : l <> []) by (rewrite El; discriminate). clear El e l1.
  destruct (h_delete_min_rep _ _ R Hne) as (p & v & fr & l0 & E & R0 & P & Hmin).
  assert (Hlen : length l = S (length l0)) by (rewrite P; reflexivity).
  cbn [loop]. rewrite E, bind_ok_l. cbv beta iota. cbn [ss_states ss_pebbles ss_frontier].
  assert (Hin : (p, v) ∈ l) by (rewrite P; left).
  destruct (iv_entry _ _ _ _ I p v Hin) as (Hv & Hr & _).
  destruct (Z.eqb_spec v destination) as [->|Hnd].
  { left. eexists; split; [reflexivity|]. destruct I as [L T Bd En Op Ex] eqn:EI. split; auto.
    eapply popped_bounded; eauto. }
  destruct (inv_get _ _ _ _ v I Hv) as (a & Ea & Da & _ & Xa). run_res Ea. rewrite <-Xa.
  destruct (exp_of (ss_states st) v) eqn:Ex.
  - apply (IH (mkSearch (ss_states st) (ss_pebbles st) fr) l0); cbn; auto; [|lia].
    eapply inv_drop; eauto.
  - pose proof (popped_bounded _ _ _ _ _ _ I P Hmin Ex) as Hb.
    pose proof (counts_bounds (ss_states st)) as Hc.
    destruct (expand_ok (expanded_count (ss_states st) * Wmax)
      (mkSearch (ss_states st) (ss_pebbles st) fr) l l0 p v)
      as (st' & l' & E' & I' & R' & Hpb' & He & Hl'); auto.
    { pose proof (count_room _ _ _ _ v I Hv Ex). nia. }
    run_res E'. destruct (counts_mark (ss_states st) (ss_states st') v Hv Ex He) as [Hc1 Hc2].
    apply (IH st' l'); auto; [|rewrite He, decide_False by congruence; exact Hdst|lia].
    apply (inv_proc_ext _ (succs gr) _ (expanded_count (ss_states st') * Wmax) _ _ I'); [reflexivity|].
    rewrite Hc1. lia.
Qed.
(** ** The whole search *)

Definition all_arcs : Z := sumZ (fun x => Z.of_nat (length (succs gr x))) (seqZ 0 N).

Lemma aget_replicate {A} (a : A) n i b : aget (replicate n a) i = Ok b -> b = a.
Proof. intros [_ [-> _]%lookup_replicate]%aget_Ok. reflexivity. Qed.

(** The table before the loop. *)
Lemma initial_inv s0 :
  aget (initial_states number N) source = Ok s0 ->
  inv (succs gr) 0 (<[Z.to_nat source := mkState (is_expanded s0) 0 (pred s0)]> (initial_states number N))
    [(h source, source)] /\
  (forall x, exp_of (<[Z.to_nat source := mkState (is_expanded s0) 0 (pred s0)]>
               (initial_states number N)) x = false).
Proof.
  intros E0. pose proof (aget_bounds _ _ _ E0) as Hb.
  pose proof (aget_replicate _ _ _ _ E0) as ->. cbn [is_expanded pred].
  destruct (table_update (initial_states number N) source (mkState false 0 (-1)) Hb) as (Dd & _ & De).
  set (s := <[Z.to_nat source := _]> _) in *. cbn in Dd, De.
  assert (Hd0 : forall x, dist_of (initial_states number N) x = inf).
  { intros x. unfold dist_of, aview. destruct (aget _ x) as [b|] eqn:E; [|reflexivity].
    rewrite (aget_replicate _ _ _ _ E). reflexivity. }
  assert (He0 : forall x, exp_of (initial_states number N) x = false).
  { intros x. unfold exp_of, aview. destruct (aget _ x) as [b|] eqn:E; [|reflexivity].
    rewrite (aget_replicate _ _ _ _ E). reflexivity. }
  pose proof (Hheur source Hsource). pose proof (number_vertices_nonneg (g := gr)).
  assert (Hinf : 0 < inf) by nia.
  assert (Honly : forall x, dist_of s x < inf -> x = source /\ dist_of s x = 0).
  { intros x. rewrite Dd, Hd0. case_decide; [auto|lia]. }
  assert (Hexp : forall x, exp_of s x = false) by (intros x; rewrite De; case_decide; auto).
  split; [|exact Hexp]. split.
  - unfold s. rewrite length_insert. unfold initial_states. rewrite length_replicate. lia.
  - apply tree_inv_init; [exact Hinf|rewrite Dd, decide_True by reflexivity; reflexivity|].
    intros x Hx. rewrite Dd, decide_False, Hd0 by exact Hx. lia.
  - intros x Hx. destruct (Honly x Hx) as [_ ->]. lia.
  - intros f x [= -> ->]%list_elem_of_singleton. rewrite Dd, decide_True by reflexivity. lia.
  - intros x Hx _. destruct (Honly x Hx) as [-> ->]. rewrite Z.add_0_r. left.
  - intros x Hx. rewrite Hexp in Hx. discriminate.
Qed.

Lemma search_ok fuel pebble :
  1 + all_arcs < Z.of_nat fuel ->
  (exists r, search number check_negative fuel h gr source destination pebble = Ok r /\
     n r = N /\ final (states r)) \/
  (search number check_negative fuel h gr source destination pebble = Err AssertFailed /\
   ~ reachable edge source destination).
Proof.
  intros Hf. pose proof (number_vertices_nonneg (g := gr)).
  destruct (aget_in (initial_states number N) source) as [s0 E0].
  { unfold initial_states. rewrite length_replicate. lia. }
  pose proof (aget_bounds _ _ _ E0) as Hb.
  destruct (initial_inv s0 E0) as [I Hexp].
  unfold search. run_res E0. rewrite aset_in, bind_ok_l by exact Hb.
  set (s := <[Z.to_nat source := _]> _) in *.
  pose proof (Hheur source Hsource).
  destruct (h_insert_rep h_new [] (h source) source h_new_rep) as (fr & Ei & R); [nia|].
  run_res Ei.
  set (pb := if pebble then Some (replicate (Z.to_nat N) (-1)) else None).
  assert (Hcnt : expanded_count s = 0 /\ arcs_left s = all_arcs).
  { unfold expanded_count, arcs_left, all_arcs. split.
    - rewrite (sumZ_ext _ (fun _ => 0)); [rewrite sumZ_const; lia|].
      intros x _. rewrite Hexp. reflexivity.
    - apply sumZ_ext. intros x _. rewrite Hexp. reflexivity. }
  destruct Hcnt as [Hc1 Hc2].
  destruct (loop_ok fuel (mkSearch s pb fr) [(h source, source)]) as [(st & E & F)|[E Hu]].
  - cbn [ss_states]. rewrite Hc1. exact I.
  - exact R.
  - unfold pb. destruct pebble; cbn; [rewrite length_replicate; lia|exact Logic.I].
  - apply Hexp.
  - cbn [ss_states length]. rewrite Hc2. lia.
  - left. rewrite E. cbn. eauto.
  - right. rewrite E. auto.
Qed.
End correctness.
End AStar.
