(* ===== verification/AStarSpec.v ===== *)
(** * What the sequential searches promise

    The properties of [astar] and
    [astarT] over any lawful graph and heap, and the whole pipeline of a map
    file, the class Graph, the heap Heap<int> and [astar]. *)

From S2P Require Import Prelude.
From S2P Require Import Interfaces.
From S2P Require Import BinHeap.
From S2P Require Import Paths.
From S2P Require Import SearchSpec.
From S2P Require Import WGraph.
From S2P Require Import Graph.
From S2P Require Import LifeGraph.
From S2P Require Import GridGraphs.
From S2P Require Import AStar.

Module AStarSpec.
Import AStar.

Section specs.
Context {G H : Type} {gops : GraphOps G} {hops : HeapOps H} {hlaws : HeapLaws H}.
Context (gr : G) {glaws : GraphLaws gr}.
Context (number : int_type) (check_negative : bool) (h : Z -> Z) (source destination : Z).
Context (Wmax Hmax : Z) (pre : search_pre gr number h source Wmax Hmax).
Context (fuel : nat) (pebble : bool) (Hfuel : 1 + all_arcs gr < Z.of_nat fuel).

Abbreviation run := (search (H := H) number check_negative fuel h gr source destination pebble).

Lemma run_cases :
  (exists r, run = Ok r /\ n r = number_vertices gr /\ final gr number h source destination (states r)) \/
  (run = Err AssertFailed /\ ~ reachable (arc gr) source destination).
Proof using All.
  destruct pre.
  apply (search_ok gr number check_negative h source destination Wmax Hmax); assumption.
Qed.

Lemma run_final r : run = Ok r -> final gr number h source destination (states r).
Proof using All.
  intros E. destruct run_cases as [(r' & E' & _ & F)|[E' _]]; rewrite E in E'; [|discriminate].
  injection E' as ->. exact F.
Qed.

Lemma g_view r x d : Interfaces.g r x = Ok d -> dist_of number (states r) x = d.
Proof.
  cbn. intros (a & E & [= <-])%bind_Ok. apply aview_get; exact E.
Qed.

Lemma g_in r x : run = Ok r -> 0 <= x < number_vertices gr ->
  Interfaces.g r x = Ok (dist_of number (states r) x) /\
  predecessor r x = Ok (pred_of (states r) x).
Proof using All.
  intros E Hx. apply run_final in E. destruct (aget_in (states r) x) as [a Ea].
  { rewrite (fin_len _ _ _ _ _ _ E). exact Hx. }
  unfold dist_of, pred_of. cbn. rewrite Ea, !(aview_get _ _ _ _ _ Ea). auto.
Qed.

Lemma final_path r x : run = Ok r -> dist_of number (states r) x < int_max number ->
  exists l, path_to (arc gr) r source x (dist_of number (states r) x) l.
Proof using All.
  intros E Hx. apply (tree_path_to gr (int_max number) source (dist_of number (states r)) (pred_of (states r)) r x
    (sp_source _ _ _ _ _ _ pre) (fin_tree _ _ _ _ _ _ (run_final r E)) (fun y => g_in r y E) Hx).
Qed.

(** C20: when the destination can be reached the search returns, for every
    lawful graph and heap, and following [predecessor] from the destination
    gives a path of arcs from the source no longer than the reported
    g-value, which is itself the length of a walk. *)
Theorem search_finds_path :
  reachable (arc gr) source destination ->
  exists r d l, run = Ok r /\ Interfaces.g r destination = Ok d /\
    path_to (arc gr) r source destination d l.
Proof using All.
  intros Hr. destruct run_cases as [(r & E & _ & F)|[_ Hn]]; [|contradiction].
  pose proof (fin_dst _ _ _ _ _ _ F) as Hd.
  destruct (final_path r destination E Hd) as [l Hl].
  exists r, (dist_of number (states r) destination), l. split_and!; auto.
  destruct (aget_in (states r) destination) as [a Ea].
  { rewrite (fin_len _ _ _ _ _ _ F). destruct Hr as [c Hc]. destruct pre.
    inversion Hc; subst; [assumption|]. eapply arc_range; eauto. }
  unfold dist_of. cbn. rewrite Ea, (aview_get _ _ _ _ _ Ea). reflexivity.
Qed.

(** When the destination cannot be reached the search runs the heap
    empty: [delete_min] of an empty heap stops the process. *)
Theorem search_unreachable :
  ~ reachable (arc gr) source destination -> run = Err AssertFailed.
Proof using All.
  intros Hn. destruct run_cases as [(r & E & _ & F)|[E _]]; [|exact E].
  destruct Hn. eexists. apply (ti_walk _ _ _ _ _ (fin_tree _ _ _ _ _ _ F)).
  apply (fin_dst _ _ _ _ _ _ F).
Qed.

(** C21: bounded suboptimality.  With a heuristic that is consistent up to the
    factor wn/wd, the g-value of the destination is within that factor of the
    length of every walk from the source. *)
Theorem search_suboptimal r d wn wd c :
  run = Ok r -> Interfaces.g r destination = Ok d -> consistent gr h wn wd ->
  walk (arc gr) source destination c -> wd * d <= wn * c.
Proof using All.
  intros E Hg%(g_view r) Hc Hw. rewrite <-Hg.
  apply (fin_bounded _ _ _ _ _ _ (run_final r E)); assumption.
Qed.

(** Every vertex with a finite g-value, not only the destination, has a
    predecessor path to the source of at most that length. *)
Theorem search_tree r x d :
  run = Ok r -> Interfaces.g r x = Ok d -> d < int_max number ->
  exists l, path_to (arc gr) r source x d l.
Proof using All.
  intros E Hg%(g_view r) Hd. subst d. apply final_path; assumption.
Qed.
End specs.
End AStarSpec.

(** ** The grid searches, from the map file to the path length *)

Module GridSearch.
Import AStar AStarSpec WGraph.
#[local] Existing Instances BinHeap.Heap_ops BinHeap.Heap_laws.

Lemma graph_succs_length aw g v : (length (graph_succs aw g v) <= 8)%nat.
Proof.
  unfold graph_succs, nbrs. rewrite length_fmap.
  change 8%nat with (length (seqZ 0 8)). generalize (seqZ 0 8).
  induction l as [|i l IH]; cbn; [lia|]. destruct (cand aw g v i); cbn; lia.
Qed.

(** Eight arcs per vertex: enough fuel for the loop of either class. *)
Definition search_fuel (g : graph) : nat := Z.to_nat (2 + 8 * WGraph.number_vertices g).

Section pipeline.
Context (aw : Z -> Z -> Z) (aw_nonneg : forall r d, 0 <= r -> 0 <= d -> 0 <= aw r d).
Context (g : graph) (W : wf_grid g) (C : csr aw g).

Definition laws : GraphLaws g := csr_laws aw aw_nonneg g C.

Lemma all_arcs_fuel : 1 + all_arcs (glaws := laws) g < Z.of_nat (search_fuel g).
Proof.
  unfold all_arcs, search_fuel. change (Interfaces.number_vertices g) with (WGraph.number_vertices g).
  assert (0 <= WGraph.number_vertices g) by (unfold WGraph.number_vertices; lia).
  pose proof (sumZ_le (fun x => Z.of_nat (length (@succs _ _ g laws x))) (fun _ => 8)
    (seqZ 0 (WGraph.number_vertices g))) as H1.
  rewrite sumZ_const, length_seqZ in H1.
  assert (H2 : forall x, x ∈ seqZ 0 (WGraph.number_vertices g) ->
    Z.of_nat (length (@succs _ _ g laws x)) <= 8).
  { intros x _. pose proof (graph_succs_length aw g x). cbn. lia. }
  specialize (H1 H2). lia.
Qed.

Context (number : int_type) (check_negative : bool) (heur : Z -> Z) (src dst Wmax Hmax : Z).

(** The caller's obligations, over the arcs of the grid. *)
Record grid_pre : Prop := {
  gp_source : 0 <= src < WGraph.number_vertices g;
  gp_heur : forall v, 0 <= v < WGraph.number_vertices g -> 0 <= heur v <= Hmax;
  gp_weight : forall u v w, grid_arc aw g u v w -> w <= Wmax;
  gp_pos : 0 <= Wmax;
  gp_fit : WGraph.number_vertices g * Wmax + Hmax < int_max number;
  gp_long : int_max number <= LONG_MAX;
}.

Abbreviation run :=
  (search (H := BinHeap.Heap Z) number check_negative (search_fuel g) heur g src dst).

Lemma grid_search_ok pebble :
  grid_pre -> reachable (grid_arc aw g) src dst ->
  exists r dist_ pred_, run pebble = Ok r /\ Interfaces.g r dst = Ok (dist_ dst) /\
    (forall y, 0 <= y < WGraph.number_vertices g -> predecessor r y = Ok (pred_ y)) /\
    tree_inv (grid_arc aw g) (int_max number) src dist_ pred_ /\ dist_ dst < int_max number /\
    (forall wn wd c, 1 <= wd <= wn ->
       (forall u v w, grid_arc aw g u v w -> wd * heur u <= wn * w + wd * heur v) ->
       walk (grid_arc aw g) src dst c -> wd * dist_ dst <= wn * c).
Proof using W C aw_nonneg.
  intros P Hr.
  assert (pre : search_pre (glaws := laws) g number heur src Wmax Hmax) by (destruct P; split; assumption).
  pose proof (fun H => run_cases (H := BinHeap.Heap Z) (glaws := laws) g number check_negative heur src dst
    Wmax Hmax pre (search_fuel g) pebble H) as Hc.
  destruct (Hc all_arcs_fuel) as [(r & E & _ & F)|[_ Hn]]; [|contradiction]. clear Hc.
  pose proof (g_in (H := BinHeap.Heap Z) (glaws := laws) g number check_negative heur src dst
    Wmax Hmax pre (search_fuel g) pebble all_arcs_fuel r) as Hg.
  assert (Hdst : 0 <= dst < WGraph.number_vertices g).
  { destruct Hr as [c Hc]. inversion Hc as [|u v c' w _ He]; subst; [apply (gp_source P)|].
    eapply (grid_arc_facts aw aw_nonneg); eauto. }
  exists r, (dist_of number (states r)), (pred_of (states r)). split_and!.
  - exact E.
  - apply (Hg dst E Hdst).
  - intros y Hy. apply (Hg y E Hy).
  - apply (fin_tree (glaws := laws) _ _ _ _ _ _ F).
  - apply (fin_dst (glaws := laws) _ _ _ _ _ _ F).
  - intros wn wd c Hw Hcons Hwalk.
    apply (fin_bounded (glaws := laws) _ _ _ _ _ _ F wn wd); [split; assumption|exact Hwalk].
Qed.
End pipeline.


(** C34: the life pipeline.  On a loaded map of at most 10^9 rows
    [weighted_manhattan], which reads both cells from the same vertex, is 0 for
    every pair of vertices and every weight.  [astarT] on a [LifeGraph] with it is
    therefore uniform-cost search: the g-value it reports for a reachable
    destination is minimal whatever the weight [k], provided that no path can
    overflow a [long].  The number [pathlen] prints is the total of the path of
    predecessors walked from the destination back to the source. *)
Theorem life_search_optimal file rest body h w k heur src dst pebble :
  good_map file rest body h w ->
  exists g, LifeGraph.construct file = Ok g /\
    (h <= 1000000000 -> forall k u v, 0 <= u < WGraph.number_vertices g -> LifeGraph.weighted_manhattan k g u v = Ok 0) /\
    (0 <= src < WGraph.number_vertices g ->
     (forall v, 0 <= v < WGraph.number_vertices g ->
        LifeGraph.weighted_manhattan k g v dst = Ok (heur v)) ->
     h <= 1000000000 -> WGraph.number_vertices g * (h * 14142) < LONG_MAX ->
     reachable (grid_arc LifeGraph.arc_weight g) src dst ->
     exists r d len, astarT (H := BinHeap.Heap Z) (search_fuel g) heur g src dst pebble = Ok r /\
       Interfaces.g r dst = Ok d /\ walk (grid_arc LifeGraph.arc_weight g) src dst d /\
       (forall c, walk (grid_arc LifeGraph.arc_weight g) src dst c -> d <= c) /\
       LifeGraph.pathlen (search_fuel g) g r src dst = Ok len /\
       walk (grid_arc LifeGraph.arc_weight g) dst src len /\
       walked_back (grid_arc LifeGraph.arc_weight g) r src dst len).
Proof.
  intros Hmap. destruct (construct_ok LifeGraph.arc_weight _ _ _ _ _ Hmap) as (g & E & W & C & Hh & _).
  exists g. split; [exact E|]. split; [intros Hh2 k' u v; apply weighted_manhattan_zero; [exact W|lia]|].
  intros Hsrc Hheur Hh2 Hfit Hr. rewrite <-Hh in Hfit, Hh2.
  assert (H0 : forall v, 0 <= v < WGraph.number_vertices g -> heur v = 0).
  { intros v Hv. specialize (Hheur v Hv). rewrite weighted_manhattan_zero in Hheur by assumption. congruence. }
  assert (Hhgt : 0 <= height g * 14142).
  { pose proof (ws_height _ (wg_shape _ W)). lia. }
  destruct (grid_search_ok LifeGraph.arc_weight LifeGraph_nonneg g W C int64 true heur src dst
    (height g * 14142) 0 pebble) as (r & d & p & Er & Eg & Hp & T & Hd & Hopt); [|exact Hr|].
  { split; auto; [|intros u v w'; apply LifeGraph_weight_le; exact W|unfold LONG_MAX in Hfit; lia
      |vm_compute; discriminate].
    intros v Hv. rewrite H0 by exact Hv. lia. }
  destruct (LifeGraph_pathlen_ok g r src (int_max int64) d p dst (search_fuel g) W Hsrc T Hp Hd)
    as (len & El & Hw & Hback); [lia|unfold search_fuel, WGraph.number_vertices; lia|].
  exists r, (d dst), len. split_and!; auto.
  - apply (ti_walk _ _ _ _ _ T). exact Hd.
  - intros c Hc. specialize (Hopt 1 1 c). rewrite !Z.mul_1_l in Hopt. apply Hopt; [lia| |exact Hc].
    intros u v w' He. destruct (grid_arc_facts _ LifeGraph_nonneg g W _ _ _ He). destruct He as [Hu _].
    rewrite !H0 by assumption. lia.
Qed.

(** ** Concrete instances, on the maps of [Sample] *)

Module Instances.
Abbreviation H := (BinHeap.Heap Z).
Import Sample (zero, graph_pre, island_pre).

Lemma fuel : 1 + all_arcs (glaws := Sample.graph_laws) Sample.graph < Z.of_nat 100.
Proof. vm_compute. reflexivity. Qed.

Lemma island_fuel : 1 + all_arcs (glaws := Sample.island_laws) Sample.island < Z.of_nat 100.
Proof. vm_compute. reflexivity. Qed.

(** The search of the sample map from vertex 0 to vertex 4. *)
Definition found : res AStarResult :=
  astar (H := H) 100 zero Sample.graph 0 4 false.
Definition found_result : AStarResult :=
  match found with Ok r => r | Err _ => mkResult 0 [] None end.

Lemma found_ok : found = Ok found_result.
Proof. vm_compute. reflexivity. Qed.

Lemma consistent_zero : consistent (glaws := Sample.graph_laws) Sample.graph zero 1 1.
Proof.
  split; [lia|]. intros u v w He. pose proof (arc_nonneg (laws := Sample.graph_laws) _ _ _ _ He).
  unfold zero. lia.
Qed.

Lemma search_finds_path_witness :
  exists r d l, found = Ok r /\ Interfaces.g r 4 = Ok d /\
    path_to (arc (laws := Sample.graph_laws) Sample.graph) r 0 4 d l.
Proof.
  exact (search_finds_path (H := H) (glaws := Sample.graph_laws) Sample.graph int32 false zero 0 4
    14142 0 graph_pre 100 false fuel (ex_intro _ _ Sample.graph_walk)).
Defined.

Lemma search_unreachable_witness :
  astar (H := H) 100 zero Sample.island 0 1 false = Err AssertFailed.
Proof.
  exact (search_unreachable (H := H) (glaws := Sample.island_laws) Sample.island int32 false zero 0 1
    14142 0 island_pre 100 false island_fuel Sample.island_unreachable).
Defined.

Lemma search_suboptimal_witness : 1 * 24142 <= 1 * 24142.
Proof.
  refine (search_suboptimal (H := H) (glaws := Sample.graph_laws) Sample.graph int32 false zero 0 4
    14142 0 graph_pre 100 false fuel found_result 24142 1 1 24142 found_ok _ consistent_zero Sample.graph_walk).
  vm_compute. reflexivity.
Defined.

Lemma search_tree_witness :
  exists l, path_to (arc (laws := Sample.graph_laws) Sample.graph) found_result 0 3 14142 l.
Proof.
  refine (search_tree (H := H) (glaws := Sample.graph_laws) Sample.graph int32 false zero 0 4
    14142 0 graph_pre 100 false fuel found_result 3 14142 found_ok _ _).
  - vm_compute. reflexivity.
  - vm_compute. reflexivity.
Defined.


Lemma life_search_optimal_witness :
  exists r d len, astarT (H := H) (search_fuel Sample.life) zero Sample.life 0 4 false = Ok r /\
    Interfaces.g r 4 = Ok d /\ d <= 24142 /\
    LifeGraph.pathlen (search_fuel Sample.life) Sample.life r 0 4 = Ok len /\
    walked_back (grid_arc LifeGraph.arc_weight Sample.life) r 0 4 len.
Proof.
  destruct (life_search_optimal _ _ _ _ _ 20000 zero 0 4 false Sample.good) as (g & E & K).
  assert (g = Sample.life) as ->.
  { unfold Sample.life. rewrite E. reflexivity. }
  destruct K as [K0 K].
  destruct K as (r & d & len & Er & Ed & _ & Hopt & El & _ & Hback).
  - vm_compute. split; congruence.
  - intros v Hv. apply K0; [lia|exact Hv].
  - lia.
  - vm_compute. reflexivity.
  - exact (ex_intro _ _ Sample.life_walk).
  - exists r, d, len. split; [exact Er|]. split; [exact Ed|]. split; [apply Hopt; exact Sample.life_walk|]. split; [exact El|exact Hback].
Defined.
End Instances.
End GridSearch.
