(* ===== verification/ParWhile.v ===== *)
(** * Work sharing by private deques (src/src/shared/parallel_while.hpp)

    [parallel_while_pwsa] as a machine: every access to a shared variable is one
    step of one worker, and a run is any interleaving of steps.  The loop body
    is a machine of its own (class Body), so that its accesses interleave with
    the protocol's. *)

From S2P Require Import Prelude.

Module ParWhile.

(** [answer_type] and the distinguished values of [request_type]; a request
    that is not negative is the id of the worker that asks. *)
Inductive answer := ANSWER_WAITING | ANSWER_REJECTED | ANSWER_TRANSFERRED.

#[export] Instance answer_eq_dec : EqDecision answer.
Proof. solve_decision. Defined.

Definition REQUEST_BLOCKED : Z := -2.
Definition REQUEST_WAITING : Z := -1.
Definition SIZE_EMPTY : Z := 0.
Definition SIZE_KEEP : Z := 1.
Definition SIZE_SPLIT : Z := 2.

(** What the scheduler decides at a step: the worker [random_other] returns, and
    whether a [compare_exchange_weak] fails spuriously. *)
Record choice := mkChoice { victim : Z; spurious : bool }.

(** The callbacks of [parallel_while_pwsa], over inputs [I], data [P] private to
    a worker, shared data [S] and the program points [B] of the loop body. *)
Class Body (I P S B : Type) := {
  input_new : I;
  size_input : P -> I -> P * Z;
  fork_input : P -> I -> I -> res (P * I * I);
  body_start : B;
  body_step : Z -> choice -> S -> P -> I -> B -> res (S * P * I * (B + bool));
}.

(** The program points of the closure [b].  [other] is the local variable of
    that name, [sz] is [sz]. *)
Inductive pc (B : Type) :=
  | Outer                            (** [while (!is_done.load ())] *)
  | Size                             (** [sz = size_input (my_frontier)] *)
  | BlockLoad                        (** [r = requests[my_id].load ()] *)
  | BlockCas                         (** [compare_exchange_strong (r, REQUEST_BLOCKED)] *)
  | BlockStore (other : Z)           (** [requests[my_id].store (REQUEST_BLOCKED)] *)
  | BlockReject (other : Z)          (** [answers[other].store (ANSWER_REJECTED)] *)
  | Acquire                          (** [while (!is_done.load ())] *)
  | AcqReset                         (** [answers[my_id].store (ANSWER_WAITING)] *)
  | AcqLoad (other : Z)              (** [requests[other].load () != REQUEST_WAITING] *)
  | AcqCas (other : Z)               (** [requests[other].compare_exchange_strong] *)
  | WaitLoad (other : Z)             (** [answers[my_id].load () == ANSWER_WAITING] *)
  | WaitDone (other : Z)             (** [if (is_done.load ()) return] *)
  | AnsLoad (other : Z)              (** [answers[my_id].load () == ANSWER_TRANSFERRED] *)
  | SwapIn                           (** [frontiers[my_id].swap (my_frontier)] *)
  | AssertSize (sz : Z)              (** [assert (sz > 0)] *)
  | RespLoad (sz : Z)                (** [r = requests[my_id].load ()] *)
  | RespUnblock                      (** [requests[my_id].store (REQUEST_WAITING)] *)
  | RespFork (other : Z)             (** [fork_input (my_frontier, frontiers[other])] *)
  | RespAnswer (other : Z) (a : answer) (** [answers[other].store (a)] *)
  | RespReset                        (** [requests[my_id].store (REQUEST_WAITING)] *)
  | Work (b : B)                     (** inside [body (my_frontier)] *)
  | SetDone                          (** [is_done.store (true)] *)
  | Abandoned (other : Z)            (** returned from the waiting loop *)
  | Halted.                          (** returned *)
Arguments Outer {B}. Arguments Size {B}. Arguments BlockLoad {B}. Arguments BlockCas {B}.
Arguments BlockStore {B}. Arguments BlockReject {B}. Arguments Acquire {B}. Arguments AcqReset {B}.
Arguments AcqLoad {B}. Arguments AcqCas {B}. Arguments WaitLoad {B}. Arguments WaitDone {B}.
Arguments AnsLoad {B}. Arguments SwapIn {B}. Arguments AssertSize {B}. Arguments RespLoad {B}.
Arguments RespUnblock {B}. Arguments RespFork {B}. Arguments RespAnswer {B}. Arguments RespReset {B}.
Arguments Work {B}. Arguments SetDone {B}. Arguments Abandoned {B}. Arguments Halted {B}.

Section machine.
Context {I P S B : Type} {body : Body I P S B}.

(** The locals of a worker; the [perworker] arrays hold one cell per id. *)
Record worker := mkWorker { w_pc : pc B; w_input : I; w_priv : P }.

Record global := mkGlobal {
  workers : Z -> worker;
  requests : Z -> Z;
  answers : Z -> answer;
  frontiers : Z -> I;
  is_done : bool;
  shared : S;
}.

(** The state in which the workers enter [b]; only the leader accepts
    requests, and it holds the input. *)
Definition initial (leader : Z) (input : I) (priv : P) (s : S) : global :=
  mkGlobal (fun i => mkWorker Outer (if decide (i = leader) then input else input_new) priv)
    (fun i => if decide (i = leader) then REQUEST_WAITING else REQUEST_BLOCKED)
    (fun _ => ANSWER_WAITING) (fun _ => input_new) false s.

Definition set_worker (g : global) (id : Z) (w : worker) : global :=
  mkGlobal (upd (workers g) id w) (requests g) (answers g) (frontiers g) (is_done g) (shared g).
Definition set_pc (g : global) (id : Z) (p : pc B) : global :=
  set_worker g id (mkWorker p (w_input (workers g id)) (w_priv (workers g id))).
Definition set_request (g : global) (i r : Z) : global :=
  mkGlobal (workers g) (upd (requests g) i r) (answers g) (frontiers g) (is_done g) (shared g).
Definition set_answer (g : global) (i : Z) (a : answer) : global :=
  mkGlobal (workers g) (requests g) (upd (answers g) i a) (frontiers g) (is_done g) (shared g).
Definition set_frontier (g : global) (i : Z) (f : I) : global :=
  mkGlobal (workers g) (requests g) (answers g) (upd (frontiers g) i f) (is_done g) (shared g).
Definition set_done (g : global) : global :=
  mkGlobal (workers g) (requests g) (answers g) (frontiers g) true (shared g).
Definition set_shared (g : global) (s : S) : global :=
  mkGlobal (workers g) (requests g) (answers g) (frontiers g) (is_done g) s.

(** One step of worker [id]. *)
Definition wstep (id : Z) (c : choice) (g : global) : res global :=
  let w := workers g id in
  match w_pc w with
  | Outer => Ok (set_pc g id (if is_done g then Halted else Size))
  | Size =>
      let '(p, sz) := size_input (w_priv w) (w_input w) in
      Ok (set_worker g id
            (mkWorker (if sz =? SIZE_EMPTY then BlockLoad else AssertSize sz) (w_input w) p))
  | BlockLoad =>
      let r := requests g id in
      Ok (set_pc g id (if r =? REQUEST_BLOCKED then Acquire
                       else if r =? REQUEST_WAITING then BlockCas
                       else BlockStore r))
  | BlockCas =>
      if requests g id =? REQUEST_WAITING
      then Ok (set_pc (set_request g id REQUEST_BLOCKED) id Acquire)
      else Ok (set_pc g id BlockLoad)
  | BlockStore other => Ok (set_pc (set_request g id REQUEST_BLOCKED) id (BlockReject other))
  | BlockReject other => Ok (set_pc (set_answer g other ANSWER_REJECTED) id Acquire)
  | Acquire => Ok (set_pc g id (if is_done g then SwapIn else AcqReset))
  | AcqReset => Ok (set_pc (set_answer g id ANSWER_WAITING) id (AcqLoad (victim c)))
  | AcqLoad other =>
      Ok (set_pc g id (if requests g other =? REQUEST_WAITING then AcqCas other else Acquire))
  | AcqCas other =>
      if requests g other =? REQUEST_WAITING
      then Ok (set_pc (set_request g other id) id (WaitLoad other))
      else Ok (set_pc g id Acquire)
  | WaitLoad other =>
      Ok (set_pc g id (if decide (answers g id = ANSWER_WAITING) then WaitDone other
                       else AnsLoad other))
  | WaitDone other => Ok (set_pc g id (if is_done g then Abandoned other else WaitLoad other))
  | AnsLoad other =>
      Ok (set_pc g id (if decide (answers g id = ANSWER_TRANSFERRED) then SwapIn else Acquire))
  | SwapIn =>
      let '(p, sz) := size_input (w_priv w) (frontiers g id) in
      Ok (set_worker (set_frontier g id (w_input w)) id
            (mkWorker (AssertSize sz) (frontiers g id) p))
  | AssertSize sz => _ ← assert_ (0 <? sz); Ok (set_pc g id (RespLoad sz))
  | RespLoad sz =>
      let r := requests g id in
      Ok (set_pc g id
            (if r =? REQUEST_BLOCKED then RespUnblock
             else if 0 <=? r then
               if sz =? SIZE_SPLIT then RespFork r else RespAnswer r ANSWER_REJECTED
             else Work body_start))
  | RespUnblock => Ok (set_pc (set_request g id REQUEST_WAITING) id (Work body_start))
  | RespFork other =>
      '(p, mine, theirs) ← fork_input (w_priv w) (w_input w) (frontiers g other);
      Ok (set_worker (set_frontier g other theirs) id
            (mkWorker (RespAnswer other ANSWER_TRANSFERRED) mine p))
  | RespAnswer other a => Ok (set_pc (set_answer g other a) id RespReset)
  | RespReset => Ok (set_pc (set_request g id REQUEST_WAITING) id (Work body_start))
  | Work b =>
      '(s, p, f, next) ← body_step id c (shared g) (w_priv w) (w_input w) b;
      Ok (set_worker (set_shared g s) id
            (mkWorker match next with
                      | inl b => Work b
                      | inr true => SetDone
                      | inr false => Outer
                      end f p))
  | SetDone => Ok (set_pc (set_done g) id Halted)
  | Abandoned _ | Halted => Ok g
  end.

(** [controller_t::random_other] for worker [id] of [n]: another worker, from the
    next random number. *)
Definition random_other (n id rand : Z) : res Z :=
  _ ← assert_ (1 <? n);
  let v := rand `mod` (n - 1) in
  Ok (if id <=? v then v + 1 else v).

(** The choice of a step is a possible one: the only step that calls
    [random_other] is the one that has just reset the answer. *)
Definition draws (n : Z) (g : global) (id : Z) (c : choice) : Prop :=
  w_pc (workers g id) = AcqReset -> exists rand, 0 <= rand /\ random_other n id rand = Ok (victim c).

(** A step of any of the [n] workers. *)
Definition step (n : Z) (g g' : global) : Prop :=
  exists id c, 0 <= id < n /\ draws n g id c /\ wstep id c g = Ok g'.

(** A worker without others has nobody to ask: [random_other] fails. *)
Definition deserted (n : Z) (g : global) (id : Z) : Prop :=
  w_pc (workers g id) = AcqReset /\ forall rand, 0 <= rand -> random_other n id rand = Err AssertFailed.

Lemma random_other_range n id v : 0 <= id < n ->
  (exists rand, 0 <= rand /\ random_other n id rand = Ok v) <-> 0 <= v < n /\ v <> id.
Proof.
  intros Hid. unfold random_other, assert_. destruct (Z.ltb_spec 1 n) as [Hn|Hn].
  - split.
    + intros (rand & _ & [= <-]). pose proof (Z.mod_pos_bound rand (n - 1) ltac:(lia)).
      destruct (Z.leb_spec id (rand `mod` (n - 1))); lia.
    + intros [Hv Hne]. exists (if id <? v then v - 1 else v).
      split; [destruct (Z.ltb_spec id v); lia|]. rewrite bind_ok_l.
      rewrite Z.mod_small by (destruct (Z.ltb_spec id v); lia).
      destruct (Z.ltb_spec id v); [rewrite (proj2 (Z.leb_le _ _)) by lia|rewrite (proj2 (Z.leb_gt _ _)) by lia]; f_equal; lia.
  - split; [intros (rand & _ & [=])|lia].
Qed.

(** Runs along a schedule, to exhibit executions. *)
Fixpoint run (sched : list (Z * choice)) (g : global) : res global :=
  match sched with
  | [] => Ok g
  | (id, c) :: sched => g ← wstep id c g; run sched g
  end.

Definition valid (n : Z) (e : Z * choice) : bool :=
  (0 <=? e.1) && (e.1 <? n) && (0 <=? victim e.2) && (victim e.2 <? n) && negb (victim e.2 =? e.1).

Lemma run_rtc n sched g g' :
  Forall (fun e => valid n e = true) sched -> run sched g = Ok g' -> rtc (step n) g g'.
Proof.
  intros F; revert g; induction F as [|[id c] sched Hv _ IH]; intros g H; cbn in H; inv_res.
  - constructor.
  - unfold valid in Hv. cbn in Hv. rewrite !andb_true_iff, negb_true_iff, Z.eqb_neq in Hv.
    econstructor; [|apply IH; exact H]. exists id, c. split; [lia|]. split; [|assumption].
    intros _. apply random_other_range; lia.
Qed.

(** [k] steps of worker 0 that never ask anybody, and where they lead: the
    runs of a single worker. *)
Fixpoint run_alone (k : nat) (g : global) : option global :=
  match k with
  | O => Some g
  | Datatypes.S k =>
      match w_pc (workers g 0) with
      | AcqReset => None
      | _ => match wstep 0 (mkChoice 0 false) g with Ok g => run_alone k g | Err _ => None end
      end
  end.

Lemma run_alone_rtc n k g g' : 1 <= n -> run_alone k g = Some g' -> rtc (step n) g g'.
Proof.
  intros Hn. revert g. induction k as [|k IH]; intros g H; cbn in H; [injection H as <-; constructor|].
  assert (Hp : w_pc (workers g 0) <> AcqReset) by (intros E; rewrite E in H; discriminate).
  destruct (wstep 0 (mkChoice 0 false) g) as [g1|] eqn:E; [|destruct (w_pc (workers g 0)); discriminate].
  econstructor; [|apply IH; destruct (w_pc (workers g 0)); exact H || contradiction].
  exists 0, (mkChoice 0 false). split; [lia|]. split; [intros Ep; contradiction|exact E].
Qed.
End machine.
Arguments worker : clear implicits.
Arguments global : clear implicits.

(** ** The protocol invariant *)

(** What the protocol needs of the callbacks: [rep f l] says that input [f]
    holds the items [l], in any order. *)
Class BodyLaws (I P S B item : Type) {body : Body I P S B} := {
  rep : I -> list item -> Prop;
  new_rep : rep input_new [];
  size_empty : forall p f l, rep f l -> (size_input p f).2 = SIZE_EMPTY <-> l = [];
  size_range : forall p f, 0 <= (size_input p f).2;
  size_split : forall p f l, rep f l -> (size_input p f).2 = SIZE_SPLIT -> (2 <= length l)%nat;
  fork_rep : forall p f o l, rep f l -> rep o [] -> (2 <= length l)%nat ->
    exists p' f' o' l1 l2, fork_input p f o = Ok (p', f', o') /\ rep f' l1 /\ rep o' l2 /\
      l1 ++ l2 ≡ₚ l /\ l1 <> [] /\ l2 <> [];
  body_rep : forall id c s p f b s' p' f' next l, rep f l ->
    body_step id c s p f b = Ok (s', p', f', next) -> exists l', rep f' l';
}.

Section theory.
Context {I P S B item : Type} {body : Body I P S B} {laws : BodyLaws I P S B item}.
Abbreviation global := (global I P S B).
Implicit Types (g : global) (Fw Fm : Z -> list item).

Definition pc_of g (i : Z) : pc B := w_pc (workers g i).

(** Worker [i] has asked [k] and has no answer yet. *)
Definition asked g (i k : Z) : Prop :=
  (pc_of g i = WaitLoad k \/ pc_of g i = WaitDone k \/ pc_of g i = Abandoned k) /\
  answers g i = ANSWER_WAITING.

(** The items [i] was handed are in its mailbox and it will look at them. *)
Definition delivered g (i : Z) : Prop :=
  (exists k, pc_of g i = WaitLoad k \/ pc_of g i = WaitDone k \/ pc_of g i = AnsLoad k \/
     pc_of g i = Abandoned k) /\ answers g i = ANSWER_TRANSFERRED.

(** What a worker knows at each program point. *)
Definition local_ok g Fw Fm (i : Z) : Prop :=
  match pc_of g i with
  | Outer | Size | Work _ | SetDone => True
  | BlockLoad | BlockCas => Fw i = []
  | BlockStore j => Fw i = [] /\ requests g i = j /\ 0 <= j
  | BlockReject j => Fw i = [] /\ requests g i = REQUEST_BLOCKED /\ 0 <= j /\ asked g j i
  | Acquire | AcqReset => Fw i = [] /\ requests g i = REQUEST_BLOCKED
  | AcqLoad _ | AcqCas _ =>
      Fw i = [] /\ requests g i = REQUEST_BLOCKED /\ answers g i = ANSWER_WAITING
  | WaitLoad k | WaitDone k =>
      0 <= i /\ Fw i = [] /\ requests g i = REQUEST_BLOCKED /\
      (answers g i = ANSWER_WAITING ->
         requests g k = i /\ pc_of g k <> RespReset \/ pc_of g k = BlockReject i) /\
      (answers g i = ANSWER_TRANSFERRED -> Fm i <> [])
  | AnsLoad _ =>
      Fw i = [] /\ requests g i = REQUEST_BLOCKED /\ answers g i <> ANSWER_WAITING /\
      (answers g i = ANSWER_TRANSFERRED -> Fm i <> [])
  | SwapIn => Fw i = [] /\ requests g i = REQUEST_BLOCKED /\ (Fm i = [] -> is_done g = true)
  | AssertSize sz =>
      0 <= sz /\ (sz = SIZE_EMPTY -> Fw i = [] /\ is_done g = true) /\
      (sz <> SIZE_EMPTY -> Fw i <> []) /\ (sz = SIZE_SPLIT -> (2 <= length (Fw i))%nat)
  | RespLoad sz => Fw i <> [] /\ (sz = SIZE_SPLIT -> (2 <= length (Fw i))%nat)
  | RespUnblock => requests g i = REQUEST_BLOCKED /\ Fw i <> []
  | RespFork j => requests g i = j /\ 0 <= j /\ (2 <= length (Fw i))%nat
  | RespAnswer j a =>
      requests g i = j /\ 0 <= j /\ a <> ANSWER_WAITING /\ Fw i <> [] /\
      (a = ANSWER_TRANSFERRED -> Fm j <> [])
  | RespReset => 0 <= requests g i /\ Fw i <> []
  | Abandoned _ | Halted => is_done g = true
  end.

Record inv g Fw Fm : Prop := {
  pi_rep : forall i, rep (w_input (workers g i)) (Fw i);
  pi_mail_rep : forall i, rep (frontiers g i) (Fm i);
  pi_local : forall i, local_ok g Fw Fm i;
  pi_request : forall k i, requests g k = i -> 0 <= i -> pc_of g k <> RespReset -> asked g i k;
  pi_mail : forall i, Fm i = [] \/ (exists k, pc_of g k = RespAnswer i ANSWER_TRANSFERRED) \/
    delivered g i \/ pc_of g i = SwapIn;
  pi_range : forall k, requests g k = REQUEST_BLOCKED \/ requests g k = REQUEST_WAITING \/
    0 <= requests g k;
}.

(** [asked] determines the worker that is asked. *)
Lemma asked_unique g i k k' : asked g i k -> asked g i k' -> k = k'.
Proof. intros [[?|[?|?]] _] [[?|[?|?]] _]; congruence. Qed.

Lemma set_pc_of g id p j : pc_of (set_pc g id p) j = if decide (j = id) then p else pc_of g j.
Proof. unfold pc_of, set_pc, set_worker, upd; cbn. case_decide; reflexivity. Qed.

Lemma set_pc_input g id p j : w_input (workers (set_pc g id p) j) = w_input (workers g j).
Proof. unfold set_pc, set_worker, upd; cbn. case_decide; subst; reflexivity. Qed.

Lemma set_worker_of g id w j :
  pc_of (set_worker g id w) j = if decide (j = id) then w_pc w else pc_of g j.
Proof. unfold pc_of, set_worker, upd; cbn. case_decide; reflexivity. Qed.

Lemma protocol_initial leader input priv (s : S) l :
  rep input l ->
  inv (initial leader input priv s) (fun i => if decide (i = leader) then l else []) (fun _ => []).
Proof.
  intros R. split; cbn; auto.
  - intros i. case_decide; [exact R|apply new_rep].
  - intros i. apply new_rep.
  - intros k i. case_decide; unfold REQUEST_WAITING, REQUEST_BLOCKED; intros <- Hneg; lia.
  - intros k. case_decide; auto.
Qed.

(** ** What one step changes for the other workers *)

(** [local_ok] of a worker that does not move. *)
Lemma local_stable g g' Fw Fw' Fm Fm' i :
  local_ok g Fw Fm i ->
  pc_of g' i = pc_of g i -> Fw' i = Fw i -> requests g' i = requests g i ->
  answers g' i = answers g i -> (is_done g = true -> is_done g' = true) ->
  (Fm i <> [] -> pc_of g i <> SwapIn -> Fm' i <> []) ->
  (forall j a, pc_of g i = RespAnswer j a -> Fm j <> [] -> Fm' j <> []) ->
  (pc_of g i = SwapIn -> Fm' i = [] -> Fm i = []) ->
  (forall j, asked g j i -> asked g' j i) ->
  (forall k, 0 <= i -> (requests g k = i /\ pc_of g k <> RespReset \/ pc_of g k = BlockReject i) ->
     (exists k', pc_of g i = WaitLoad k' \/ pc_of g i = WaitDone k') -> answers g i = ANSWER_WAITING ->
     requests g' k = i /\ pc_of g' k <> RespReset \/ pc_of g' k = BlockReject i) ->
  local_ok g' Fw' Fm' i.
Proof.
  intros L Hp Hf Hr Ha Hd Hm Hm' Hs Hask Hw. unfold local_ok in *. rewrite Hp, Hf, Hr, Ha.
  destruct (pc_of g i) eqn:Epc; auto; try (destruct_and!; split_and!; solve [auto with congruence]).
  - destruct L as (L0 & L1 & L2 & L3 & L4). split_and!; eauto 6 with congruence.
  - destruct L as (L0 & L1 & L2 & L3 & L4). split_and!; eauto 6 with congruence.
  - destruct L as (L1 & L2 & L3 & L4). split_and!; auto. intros Hz; destruct (L2 Hz); auto.
  - destruct L as (L1 & L2 & L3 & L4 & L5). split_and!; eauto.
Qed.

Lemma pc_upd g g' id w j :
  workers g' = upd (workers g) id w ->
  pc_of g' j = if decide (j = id) then w_pc w else pc_of g j.
Proof. intros E. unfold pc_of, upd. rewrite E. unfold upd. case_decide; reflexivity. Qed.

(** A step that only changes the worker itself, the data shared by the body
    or the flag. *)
Record moved g g' (id : Z) (w : worker I P B) : Prop := {
  mv_workers : workers g' = upd (workers g) id w;
  mv_requests : requests g' = requests g;
  mv_answers : answers g' = answers g;
  mv_frontiers : frontiers g' = frontiers g;
  mv_done : is_done g = true -> is_done g' = true;
}.

(** Program points that say something about other workers. *)
Definition linked (p : pc B) : Prop :=
  match p with
  | RespReset | BlockReject _ | RespAnswer _ _ | SwapIn => True
  | _ => False
  end.

Lemma inv_move g g' Fw Fm id w l :
  inv g Fw Fm -> moved g g' id w -> rep (w_input w) l ->
  local_ok g' (upd Fw id l) Fm id ->
  ~ linked (pc_of g id) -> w_pc w <> RespReset ->
  (forall k, asked g id k -> asked g' id k) ->
  (delivered g id -> delivered g' id \/ w_pc w = SwapIn) ->
  inv g' (upd Fw id l) Fm.
Proof.
  intros [Ir Imr Il Iq Im Ig] [Ew Er Ea Ef Ed] R L Hold Hnew Hask Hdel.
  assert (Hpc : forall j, j <> id -> pc_of g' j = pc_of g j).
  { intros j Hj. rewrite (pc_upd g g' id w j Ew), decide_False by exact Hj. reflexivity. }
  assert (Hid : pc_of g' id = w_pc w) by (rewrite (pc_upd g g' id w id Ew), decide_True; reflexivity).
  assert (Hask' : forall i k, asked g i k -> asked g' i k).
  { intros i k. destruct (decide (i = id)) as [->|Hi]; [apply Hask|].
    unfold asked. rewrite Hpc, Ea by exact Hi. auto. }
  split.
  - intros i. rewrite Ew. unfold upd. case_decide; auto.
  - intros i. rewrite Ef. apply Imr.
  - intros i. destruct (decide (i = id)) as [->|Hi]; [exact L|].
    apply (local_stable g g' Fw (upd Fw id l) Fm Fm i (Il i)); auto; rewrite ?Er, ?Ea; auto.
    + apply upd_ne; exact Hi.
    + intros k _ [[H1 H2]|H1] _ _.
      * left. split; [exact H1|]. destruct (decide (k = id)) as [->|Hk]; [congruence|rewrite Hpc; auto].
      * right. destruct (decide (k = id)) as [->|Hk]; [|rewrite Hpc; auto].
        destruct Hold. rewrite H1. exact Logic.I.
  - intros k i. rewrite Er. intros H1 H2 H3. apply Hask', Iq; auto.
    destruct (decide (k = id)) as [->|Hk]; [|rewrite Hpc in H3; auto].
    intros E. apply Hold. rewrite E. exact Logic.I.
  - intros i. destruct (Im i) as [H|[[k H]|[H|H]]]; [auto| | |].
    + right; left. exists k. rewrite Hpc; [exact H|]. intros ->. apply Hold. rewrite H. exact Logic.I.
    + destruct (decide (i = id)) as [->|Hi]; [right; right; rewrite Hid; auto|].
      right; right; left. unfold delivered in *. rewrite Ea. setoid_rewrite Hpc; auto.
    + right; right; right. rewrite Hpc; [exact H|]. intros ->. apply Hold. rewrite H. exact Logic.I.
  - intros k. rewrite Er. apply Ig.
Qed.

(** The same without a change of the items. *)
Lemma inv_ext g Fw Fw' Fm : inv g Fw Fm -> (forall i, Fw' i = Fw i) -> inv g Fw' Fm.
Proof.
  intros [Ir Imr Il Iq Im Ig] E. split; auto.
  - intros i. rewrite E. auto.
  - intros i. specialize (Il i). unfold local_ok in *. rewrite E. exact Il.
Qed.

Lemma moved_set_pc g id p :
  moved g (set_pc g id p) id (mkWorker p (w_input (workers g id)) (w_priv (workers g id))).
Proof. split; auto. Qed.

Lemma inv_goto g Fw Fm id p :
  inv g Fw Fm -> local_ok (set_pc g id p) Fw Fm id ->
  ~ linked (pc_of g id) -> p <> RespReset ->
  (forall k, asked g id k -> asked (set_pc g id p) id k) ->
  (delivered g id -> delivered (set_pc g id p) id \/ p = SwapIn) ->
  inv (set_pc g id p) Fw Fm.
Proof.
  intros I0 L H1 H2 H3 H4. apply (inv_ext _ (upd Fw id (Fw id))).
  - eapply (inv_move g _ Fw Fm id _ (Fw id) I0 (moved_set_pc g id p)); auto.
    + apply (pi_rep _ _ _ I0).
    + unfold local_ok in *. rewrite upd_eq. exact L.
  - intros i. unfold upd. case_decide; subst; reflexivity.
Qed.

Lemma asked_pc g i k p : pc_of g i = p -> asked g i k -> p = WaitLoad k \/ p = WaitDone k \/ p = Abandoned k.
Proof. intros <- [H _]; exact H. Qed.

Lemma delivered_pc g i : delivered g i ->
  exists k, pc_of g i = WaitLoad k \/ pc_of g i = WaitDone k \/ pc_of g i = AnsLoad k \/
    pc_of g i = Abandoned k.
Proof. intros [H _]; exact H. Qed.

(** Nobody answers a worker that has not asked. *)
Lemma not_asked g Fw Fm id k :
  inv g Fw Fm -> 0 <= id -> (forall k, ~ asked g id k) -> pc_of g k <> RespReset -> requests g k <> id.
Proof. intros I0 Hid Hn Hk E. apply (Hn k). apply (pi_request _ _ _ I0 k id E Hid Hk). Qed.

(** The mailbox of a worker that neither waits nor swaps is empty. *)
Lemma mailbox_empty g Fw Fm id :
  inv g Fw Fm -> 0 <= id -> (forall k, ~ asked g id k) -> ~ delivered g id -> pc_of g id <> SwapIn ->
  Fm id = [].
Proof.
  intros I0 Hid Hn Hd Hs. destruct (pi_mail _ _ _ I0 id) as [H|[[k H]|[H|H]]]; auto; try contradiction.
  pose proof (pi_local _ _ _ I0 k) as L. unfold local_ok in L. rewrite H in L.
  destruct L as (L1 & L2 & _). exfalso. apply (Hn k).
  apply (pi_request _ _ _ I0 k id L1 Hid). rewrite H. discriminate.
Qed.

(** A step from a program point where the worker is neither waiting nor
    linked to another one. *)
Definition quiet (p : pc B) : Prop :=
  match p with
  | WaitLoad _ | WaitDone _ | AnsLoad _ | Abandoned _ => False
  | _ => True
  end.

Lemma quiet_not_asked g i k : quiet (pc_of g i) -> ~ asked g i k.
Proof. intros H [[E|[E|E]] _]; rewrite E in H; exact H. Qed.

Lemma quiet_not_delivered g i : quiet (pc_of g i) -> ~ delivered g i.
Proof. intros H [(k & [E|[E|[E|E]]]) _]; rewrite E in H; exact H. Qed.

Lemma inv_goto_quiet g Fw Fm id p :
  inv g Fw Fm -> quiet (pc_of g id) -> ~ linked (pc_of g id) -> p <> RespReset ->
  local_ok (set_pc g id p) Fw Fm id -> inv (set_pc g id p) Fw Fm.
Proof.
  intros I0 Hq Hl Hp L. apply inv_goto; auto.
  - intros k Hk. destruct (quiet_not_asked g id k Hq Hk).
  - intros Hk. destruct (quiet_not_delivered g id Hq Hk).
Qed.

(** The answer arrives. *)
Lemma inv_answer g Fw Fm id j a p :
  inv g Fw Fm -> 0 <= j -> asked g j id ->
  (pc_of g id = BlockReject j /\ a = ANSWER_REJECTED /\ p = Acquire) \/
  (pc_of g id = RespAnswer j a /\ p = RespReset) ->
  inv (set_pc (set_answer g j a) id p) Fw Fm.
Proof.
  intros I0 Hj Hask Hcase. pose proof (pi_local _ _ _ I0 id) as L. unfold local_ok in L.
  set (g' := set_pc (set_answer g j a) id p).
  assert (Hji : j <> id).
  { intros ->. destruct Hask as [[E|[E|E]] _]; rewrite E in Hcase; destruct Hcase as [[? _]|[? _]]; discriminate. }
  assert (Hpc : forall i, i <> id -> pc_of g' i = pc_of g i).
  { intros i Hi. unfold g'. rewrite set_pc_of, decide_False by exact Hi. reflexivity. }
  assert (Hid : pc_of g' id = p) by (unfold g'; rewrite set_pc_of, decide_True; reflexivity).
  assert (Hans : answers g' = upd (answers g) j a) by reflexivity.
  assert (Ha : a <> ANSWER_WAITING).
  { destruct Hcase as [(E & -> & _)|[E _]]; [discriminate|rewrite E in L; apply L]. }
  assert (Hold : (exists x, pc_of g id = BlockReject x) \/ exists x, pc_of g id = RespAnswer x a).
  { destruct Hcase as [(E & _)|[E _]]; eauto. }
  split.
  - intros i. unfold g'. rewrite set_pc_input. apply (pi_rep _ _ _ I0).
  - intros i. apply (pi_mail_rep _ _ _ I0).
  - intros i. destruct (decide (i = id)) as [->|Hi].
    + unfold local_ok. rewrite Hid. destruct Hcase as [(E & -> & ->)|[E ->]]; rewrite E in L; cbn.
      * destruct_and!; auto.
      * destruct L as (L1 & L2 & _ & L3 & _). split; [lia|exact L3].
    + destruct (decide (i = j)) as [->|Hij].
      * pose proof (pi_local _ _ _ I0 j) as Lj. destruct Hask as [Hpj Haj].
        unfold local_ok in *. rewrite (Hpc j Hji), Hans, upd_eq.
        assert (Htr : a = ANSWER_TRANSFERRED -> Fm j <> []).
        { destruct Hcase as [(E & -> & _)|[E _]]; [discriminate|rewrite E in L; apply L]. }
        destruct Hpj as [E|[E|E]]; rewrite E in *; [| |exact Lj];
          destruct Lj as (L0 & L1 & L2 & _); split_and!; auto; contradiction.
      * apply (local_stable g g' Fw Fw Fm Fm i (pi_local _ _ _ I0 i)); auto.
        -- rewrite Hans, upd_ne by exact Hij. reflexivity.
        -- intros x Hx. destruct (decide (x = j)) as [->|Hxj].
           { pose proof (asked_unique _ _ _ _ Hx Hask). congruence. }
           destruct Hx as [Hx1 Hx2]. split; [|rewrite Hans, upd_ne by exact Hxj; exact Hx2].
           destruct (decide (x = id)) as [->|Hxi]; [|rewrite Hpc by exact Hxi; exact Hx1].
           destruct Hold as [[y E]|[y E]]; rewrite E in Hx1; destruct Hx1 as [?|[?|?]]; discriminate.
        -- intros k Hi0 Hk _ _. destruct (decide (k = id)) as [->|Hki]; [|rewrite Hpc by exact Hki; exact Hk].
           exfalso. destruct Hcase as [(E & _)|[E _]]; rewrite E in L, Hk.
           ++ destruct L as (_ & Lb & _). destruct Hk as [[Hk _]|Hk]; [|congruence].
              rewrite Lb in Hk. unfold REQUEST_BLOCKED in Hk. lia.
           ++ destruct L as (L1 & _). destruct Hk as [[Hk _]|Hk]; [congruence|discriminate].
  - intros k i Hk Hi Hr.
    assert (Hkid : k <> id).
    { intros ->. rewrite Hid in Hr. destruct Hcase as [(E & -> & ->)|[E ->]]; [|contradiction].
      rewrite E in L. destruct L as (_ & Lb & _). change (requests g id = i) in Hk.
      rewrite Lb in Hk. unfold REQUEST_BLOCKED in Hk. lia. }
    rewrite Hpc in Hr by exact Hkid. pose proof (pi_request _ _ _ I0 k i Hk Hi Hr) as Hx.
    destruct (decide (i = j)) as [->|Hij]; [pose proof (asked_unique _ _ _ _ Hx Hask); contradiction|].
    destruct Hx as [Hx1 Hx2]. split; [|rewrite Hans, upd_ne by exact Hij; exact Hx2].
    destruct (decide (i = id)) as [->|Hxi]; [|rewrite Hpc by exact Hxi; exact Hx1].
    destruct Hold as [[y E]|[y E]]; rewrite E in Hx1; destruct Hx1 as [?|[?|?]]; discriminate.
  - intros i. destruct (decide (i = j)) as [->|Hij].
    + destruct a; [contradiction| |].
      * left. destruct (pi_mail _ _ _ I0 j) as [Hm|[[k Hm]|[[_ Hm]|Hm]]]; [exact Hm| | |].
        -- pose proof (pi_local _ _ _ I0 k) as Lk. unfold local_ok in Lk. rewrite Hm in Lk.
           destruct Lk as (Lk & _). pose proof (pi_request _ _ _ I0 k j Lk Hj ltac:(congruence)) as Hx.
           pose proof (asked_unique _ _ _ _ Hx Hask) as ->.
           destruct Hcase as [(E & _)|[E _]]; congruence.
        -- destruct Hask as [_ Hx]. congruence.
        -- destruct Hask as [[?|[?|?]] _]; congruence.
      * right; right; left. split; [|rewrite Hans, upd_eq; reflexivity].
        exists id. rewrite Hpc by exact Hji. destruct Hask as [[?|[?|?]] _]; auto.
    + destruct (pi_mail _ _ _ I0 i) as [Hm|[[k Hm]|[Hm|Hm]]]; [auto| | |].
      * right; left. exists k. rewrite Hpc; [exact Hm|]. intros ->.
        destruct Hcase as [(E & _)|[E _]]; congruence.
      * right; right; left. destruct Hm as [(k & Hm) Hm2]. split; [|rewrite Hans, upd_ne by exact Hij; exact Hm2].
        exists k. rewrite Hpc; [exact Hm|]. intros ->.
        destruct Hcase as [(E & _)|[E _]]; rewrite E in Hm; destruct Hm as [?|[?|[?|?]]]; discriminate.
      * right; right; right. rewrite Hpc; [exact Hm|]. intros ->.
        destruct Hcase as [(E & _)|[E _]]; congruence.
  - apply (pi_range _ _ _ I0).
Qed.

(** A worker overwrites its own request cell with one of the two negative
    values. *)
Lemma inv_own_request g Fw Fm id r p :
  inv g Fw Fm -> r = REQUEST_BLOCKED \/ r = REQUEST_WAITING -> quiet (pc_of g id) -> p <> RespReset ->
  (forall j a, pc_of g id <> BlockReject j /\ pc_of g id <> RespAnswer j a /\ pc_of g id <> SwapIn) ->
  (forall i, 0 <= i -> requests g id = i -> pc_of g id <> RespReset -> p = BlockReject i) ->
  local_ok (set_pc (set_request g id r) id p) Fw Fm id ->
  inv (set_pc (set_request g id r) id p) Fw Fm.
Proof.
  intros I0 Hr Hq Hp Hpcs Hw L. set (g' := set_pc (set_request g id r) id p) in *.
  assert (Hpc : forall i, i <> id -> pc_of g' i = pc_of g i).
  { intros i Hi. unfold g'. rewrite set_pc_of, decide_False by exact Hi. reflexivity. }
  assert (Hid : pc_of g' id = p) by (unfold g'; rewrite set_pc_of, decide_True; reflexivity).
  assert (Hreq : requests g' = upd (requests g) id r) by reflexivity.
  assert (Hask : forall i k, asked g i k -> asked g' i k).
  { intros i k Hx. destruct (decide (i = id)) as [->|Hi]; [destruct (quiet_not_asked g id k Hq Hx)|].
    unfold asked. rewrite Hpc by exact Hi. exact Hx. }
  split.
  - intros i. unfold g'. rewrite set_pc_input. apply (pi_rep _ _ _ I0).
  - intros i. apply (pi_mail_rep _ _ _ I0).
  - intros i. destruct (decide (i = id)) as [->|Hi]; [exact L|].
    apply (local_stable g g' Fw Fw Fm Fm i (pi_local _ _ _ I0 i)); auto.
    + rewrite Hreq, upd_ne by exact Hi. reflexivity.
    + intros k Hi0 Hk _ _. rewrite Hreq. destruct (decide (k = id)) as [->|Hki].
      * destruct Hk as [[H1 H2]|H1]; [right; rewrite Hid; auto|].
        destruct (Hpcs i ANSWER_WAITING) as [? _]. contradiction.
      * rewrite upd_ne, Hpc by exact Hki. exact Hk.
  - intros k i. rewrite Hreq. destruct (decide (k = id)) as [->|Hki]; [rewrite upd_eq; unfold REQUEST_BLOCKED, REQUEST_WAITING in *; lia|].
    rewrite upd_ne, Hpc by exact Hki. intros H1 H2 H3. apply Hask, (pi_request _ _ _ I0); assumption.
  - intros i. destruct (pi_mail _ _ _ I0 i) as [Hm|[[k Hm]|[Hm|Hm]]]; [auto| | |].
    + right; left. exists k. rewrite Hpc; [exact Hm|]. intros ->.
      destruct (Hpcs i ANSWER_TRANSFERRED) as (_ & ? & _). contradiction.
    + right; right; left. destruct (decide (i = id)) as [->|Hi]; [destruct (quiet_not_delivered g id Hq Hm)|].
      unfold delivered. rewrite Hpc by exact Hi. exact Hm.
    + right; right; right. rewrite Hpc; [exact Hm|]. intros ->.
      destruct (Hpcs 0 ANSWER_TRANSFERRED) as (_ & _ & ?). contradiction.
  - intros k. rewrite Hreq. destruct (decide (k = id)) as [->|Hk];
      [rewrite upd_eq|rewrite upd_ne by exact Hk; apply (pi_range _ _ _ I0)].
    unfold REQUEST_BLOCKED, REQUEST_WAITING in *. lia.
Qed.

(** [answers[my_id].store (ANSWER_WAITING)] *)
Lemma inv_reset_answer g Fw Fm id k :
  inv g Fw Fm -> pc_of g id = AcqReset ->
  inv (set_pc (set_answer g id ANSWER_WAITING) id (AcqLoad k)) Fw Fm.
Proof.
  intros I0 E. set (g' := set_pc _ id _).
  assert (Hpc : forall i, i <> id -> pc_of g' i = pc_of g i).
  { intros i Hi. unfold g'. rewrite set_pc_of, decide_False by exact Hi. reflexivity. }
  assert (Hid : pc_of g' id = AcqLoad k) by (unfold g'; rewrite set_pc_of, decide_True; reflexivity).
  assert (Hans : answers g' = upd (answers g) id ANSWER_WAITING) by reflexivity.
  assert (Hq : quiet (pc_of g id)) by (rewrite E; exact Logic.I).
  assert (Hask : forall i j, asked g i j -> asked g' i j).
  { intros i j Hx. destruct (decide (i = id)) as [->|Hi]; [destruct (quiet_not_asked g id j Hq Hx)|].
    unfold asked. rewrite Hpc, Hans, upd_ne by exact Hi. exact Hx. }
  pose proof (pi_local _ _ _ I0 id) as L. unfold local_ok in L. rewrite E in L.
  split.
  - intros i. unfold g'. rewrite set_pc_input. apply (pi_rep _ _ _ I0).
  - intros i. apply (pi_mail_rep _ _ _ I0).
  - intros i. destruct (decide (i = id)) as [->|Hi].
    + unfold local_ok. rewrite Hid, Hans, upd_eq. destruct L; auto.
    + apply (local_stable g g' Fw Fw Fm Fm i (pi_local _ _ _ I0 i)); auto.
      * rewrite Hans, upd_ne by exact Hi. reflexivity.
      * intros x Hi0 Hx _ _. destruct (decide (x = id)) as [->|Hxi]; [|rewrite Hpc by exact Hxi; exact Hx].
        destruct L as [_ Lb]. destruct Hx as [[Hx _]|Hx]; [|congruence].
        rewrite Lb in Hx. unfold REQUEST_BLOCKED in Hx. lia.
  - intros x i H1 H2 H3. apply Hask, (pi_request _ _ _ I0); auto.
    destruct (decide (x = id)) as [->|Hx]; [congruence|]. rewrite Hpc in H3 by exact Hx. exact H3.
  - intros i. destruct (pi_mail _ _ _ I0 i) as [Hm|[[x Hm]|[Hm|Hm]]]; [auto| | |].
    + right; left. exists x. rewrite Hpc; [exact Hm|congruence].
    + right; right; left. destruct (decide (i = id)) as [->|Hi]; [destruct (quiet_not_delivered g id Hq Hm)|].
      unfold delivered. rewrite Hpc, Hans, upd_ne by exact Hi. exact Hm.
    + right; right; right. rewrite Hpc; [exact Hm|congruence].
  - apply (pi_range _ _ _ I0).
Qed.

(** [requests[other].compare_exchange_strong (expected, my_id)] succeeds. *)
Lemma inv_ask g Fw Fm id k :
  inv g Fw Fm -> 0 <= id -> pc_of g id = AcqCas k -> requests g k = REQUEST_WAITING ->
  inv (set_pc (set_request g k id) id (WaitLoad k)) Fw Fm.
Proof.
  intros I0 Hid0 E Hk. set (g' := set_pc _ id _).
  assert (Hpc : forall i, i <> id -> pc_of g' i = pc_of g i).
  { intros i Hi. unfold g'. rewrite set_pc_of, decide_False by exact Hi. reflexivity. }
  assert (Hid : pc_of g' id = WaitLoad k) by (unfold g'; rewrite set_pc_of, decide_True; reflexivity).
  assert (Hreq : requests g' = upd (requests g) k id) by reflexivity.
  assert (Hq : quiet (pc_of g id)) by (rewrite E; exact Logic.I).
  assert (Hask : forall i j, asked g i j -> asked g' i j).
  { intros i j Hx. destruct (decide (i = id)) as [->|Hi]; [destruct (quiet_not_asked g id j Hq Hx)|].
    unfold asked. rewrite Hpc by exact Hi. exact Hx. }
  pose proof (pi_local _ _ _ I0 id) as L. unfold local_ok in L. rewrite E in L. destruct L as (L1 & L2 & L3).
  assert (Hkid : k <> id) by (intros ->; rewrite Hk in L2; discriminate).
  assert (Hkpc : pc_of g k <> RespReset).
  { intros Ek. pose proof (pi_local _ _ _ I0 k) as Lk. unfold local_ok in Lk. rewrite Ek, Hk in Lk.
    unfold REQUEST_WAITING in Lk. lia. }
  assert (Hmy : asked g' id k) by (split; [left; exact Hid|exact L3]).
  split.
  - intros i. unfold g'. rewrite set_pc_input. apply (pi_rep _ _ _ I0).
  - intros i. apply (pi_mail_rep _ _ _ I0).
  - intros i. destruct (decide (i = id)) as [->|Hi].
    + unfold local_ok. rewrite Hid, Hreq, upd_eq, upd_ne by congruence. rewrite Hpc by exact Hkid.
      split_and!; auto. intros Ht. change (answers g id = ANSWER_TRANSFERRED) in Ht. congruence.
    + destruct (decide (i = k)) as [->|Hik].
      * pose proof (pi_local _ _ _ I0 k) as Lk. unfold local_ok in *. rewrite (Hpc k Hi), Hreq, upd_eq.
        rewrite Hk in Lk. unfold REQUEST_WAITING, REQUEST_BLOCKED in Lk.
        destruct (pc_of g k); auto; destruct_and?; try lia; contradiction.
      * apply (local_stable g g' Fw Fw Fm Fm i (pi_local _ _ _ I0 i)); auto.
        -- rewrite Hreq, upd_ne by exact Hik. reflexivity.
        -- intros x Hi0 Hx _ _. rewrite Hreq. destruct (decide (x = k)) as [->|Hxk].
           ++ rewrite Hpc by exact Hkid. destruct Hx as [[Hx _]|Hx]; [|auto].
              rewrite Hk in Hx. unfold REQUEST_WAITING in Hx. lia.
           ++ rewrite upd_ne by exact Hxk. destruct (decide (x = id)) as [->|Hxi]; [|rewrite Hpc by exact Hxi; exact Hx].
              destruct Hx as [[Hx _]|Hx]; [|congruence]. rewrite L2 in Hx. unfold REQUEST_BLOCKED in Hx. lia.
  - intros x i. rewrite Hreq. destruct (decide (x = k)) as [->|Hxk].
    + rewrite upd_eq. intros <- _ _. exact Hmy.
    + rewrite upd_ne by exact Hxk. intros H1 H2 H3. apply Hask, (pi_request _ _ _ I0); auto.
      destruct (decide (x = id)) as [->|Hx]; [congruence|]. rewrite Hpc in H3 by exact Hx. exact H3.
  - intros i. destruct (pi_mail _ _ _ I0 i) as [Hm|[[x Hm]|[Hm|Hm]]]; [auto| | |].
    + right; left. exists x. rewrite Hpc; [exact Hm|congruence].
    + right; right; left. destruct (decide (i = id)) as [->|Hi]; [destruct (quiet_not_delivered g id Hq Hm)|].
      unfold delivered. rewrite Hpc by exact Hi. exact Hm.
    + right; right; right. rewrite Hpc; [exact Hm|congruence].
  - intros x. rewrite Hreq. destruct (decide (x = k)) as [->|Hx];
      [rewrite upd_eq; auto|rewrite upd_ne by exact Hx; apply (pi_range _ _ _ I0)].
Qed.

(** [frontiers[my_id].swap (my_frontier)] *)
Lemma inv_swap g Fw Fm id p sz :
  inv g Fw Fm -> 0 <= id -> pc_of g id = SwapIn ->
  size_input (w_priv (workers g id)) (frontiers g id) = (p, sz) ->
  Fw id = [] /\
  inv (set_worker (set_frontier g id (w_input (workers g id))) id (mkWorker (AssertSize sz) (frontiers g id) p))
    (upd Fw id (Fm id)) (upd Fm id []).
Proof.
  intros I0 Hid0 E Esz. set (g' := set_worker _ id _).
  pose proof (pi_local _ _ _ I0 id) as L. unfold local_ok in L. rewrite E in L. destruct L as (L1 & L2 & L3).
  split; [exact L1|].
  assert (Hpc : forall i, i <> id -> pc_of g' i = pc_of g i).
  { intros i Hi. unfold g'. rewrite set_worker_of, decide_False by exact Hi. reflexivity. }
  assert (Hid : pc_of g' id = AssertSize sz) by (unfold g'; rewrite set_worker_of, decide_True; reflexivity).
  assert (Hq : quiet (pc_of g id)) by (rewrite E; exact Logic.I).
  assert (Hask : forall i j, asked g i j -> asked g' i j).
  { intros i j Hx. destruct (decide (i = id)) as [->|Hi]; [destruct (quiet_not_asked g id j Hq Hx)|].
    unfold asked. rewrite Hpc by exact Hi. exact Hx. }
  assert (Hnans : forall x a, pc_of g x <> RespAnswer id a).
  { intros x a Ex. pose proof (pi_local _ _ _ I0 x) as Lx. unfold local_ok in Lx. rewrite Ex in Lx.
    destruct Lx as (Lx & _). apply (quiet_not_asked g id x Hq), (pi_request _ _ _ I0); auto. congruence. }
  split.
  - intros i. unfold g', upd; cbn. unfold upd. case_decide; cbn; [apply (pi_mail_rep _ _ _ I0)|apply (pi_rep _ _ _ I0)].
  - intros i. unfold g', upd; cbn. unfold upd. case_decide; subst; [rewrite <-L1; apply (pi_rep _ _ _ I0)|
      apply (pi_mail_rep _ _ _ I0)].
  - intros i. destruct (decide (i = id)) as [->|Hi].
    + unfold local_ok. rewrite Hid, upd_eq.
      pose proof (pi_mail_rep _ _ _ I0 id) as R.
      pose proof (size_range (w_priv (workers g id)) (frontiers g id)) as Hr.
      pose proof (size_empty (w_priv (workers g id)) _ _ R) as He.
      pose proof (size_split (w_priv (workers g id)) _ _ R) as Hs.
      rewrite Esz in Hr, He, Hs. cbn in *. split_and!; auto; [|tauto].
      intros Hz. apply He in Hz. auto.
    + apply (local_stable g g' Fw _ Fm _ i (pi_local _ _ _ I0 i)); auto; rewrite ?upd_ne by exact Hi; auto.
      * intros j a Ej. destruct (decide (j = id)) as [->|Hj]; [destruct (Hnans i a Ej)|rewrite upd_ne by exact Hj; auto].
      * intros k Hi0 Hk _ _. destruct (decide (k = id)) as [->|Hki]; [|rewrite Hpc by exact Hki; exact Hk].
        destruct Hk as [[Hk _]|Hk]; [|congruence]. rewrite L2 in Hk. unfold REQUEST_BLOCKED in Hk. lia.
  - intros k i H1 H2 H3. apply Hask, (pi_request _ _ _ I0); auto.
    destruct (decide (k = id)) as [->|Hk]; [congruence|]. rewrite Hpc in H3 by exact Hk. exact H3.
  - intros i. destruct (decide (i = id)) as [->|Hi]; [left; apply upd_eq|]. rewrite upd_ne by exact Hi.
    destruct (pi_mail _ _ _ I0 i) as [Hm|[[x Hm]|[Hm|Hm]]]; [auto| | |].
    + right; left. exists x. rewrite Hpc; [exact Hm|congruence].
    + right; right; left. unfold delivered. rewrite Hpc by exact Hi. exact Hm.
    + right; right; right. rewrite Hpc by exact Hi. exact Hm.
  - apply (pi_range _ _ _ I0).
Qed.

(** The victim [id] of a request finds the requester's mailbox empty and
    nobody else about to answer. *)
Lemma fork_exclusive g Fw Fm id j :
  inv g Fw Fm -> pc_of g id = RespFork j ->
  0 <= j /\ j <> id /\ asked g j id /\ Fm j = [] /\
  forall k a, k <> id -> pc_of g k <> RespFork j /\ pc_of g k <> RespAnswer j a.
Proof.
  intros I0 E. pose proof (pi_local _ _ _ I0 id) as L. unfold local_ok in L. rewrite E in L.
  destruct L as (L1 & L2 & L3).
  assert (Ha : asked g j id) by (apply (pi_request _ _ _ I0); auto; congruence).
  assert (Hex : forall k a, k <> id -> pc_of g k <> RespFork j /\ pc_of g k <> RespAnswer j a).
  { intros k a Hk. split; intros Ek; pose proof (pi_local _ _ _ I0 k) as Lk; unfold local_ok in Lk;
      rewrite Ek in Lk; destruct Lk as (Lk & _); apply Hk, (asked_unique g j); auto;
      apply (pi_request _ _ _ I0); auto; congruence. }
  split_and!; auto.
  - intros ->. destruct Ha as [[?|[?|?]] _]; congruence.
  - destruct (pi_mail _ _ _ I0 j) as [Hm|[[k Hm]|[[_ Hm]|Hm]]]; [exact Hm| | |].
    + destruct (decide (k = id)) as [->|Hk]; [congruence|].
      destruct (Hex k ANSWER_TRANSFERRED Hk). contradiction.
    + destruct Ha as [_ Ha]. congruence.
    + destruct Ha as [[?|[?|?]] _]; congruence.
Qed.

(** [fork_input (my_frontier, frontiers[other])] *)
Lemma inv_fork g Fw Fm id j p f o l1 l2 :
  inv g Fw Fm -> pc_of g id = RespFork j -> rep f l1 -> rep o l2 -> l1 <> [] -> l2 <> [] ->
  inv (set_worker (set_frontier g j o) id (mkWorker (RespAnswer j ANSWER_TRANSFERRED) f p))
    (upd Fw id l1) (upd Fm j l2).
Proof.
  intros I0 E Rf Ro H1 H2. set (g' := set_worker _ id _).
  destruct (fork_exclusive g Fw Fm id j I0 E) as (Hj0 & Hj & Ha & _ & Hex).
  pose proof (pi_local _ _ _ I0 id) as L. unfold local_ok in L. rewrite E in L. destruct L as (L1 & _ & _).
  assert (Hpc : forall i, i <> id -> pc_of g' i = pc_of g i).
  { intros i Hi. unfold g'. rewrite set_worker_of, decide_False by exact Hi. reflexivity. }
  assert (Hid : pc_of g' id = RespAnswer j ANSWER_TRANSFERRED)
    by (unfold g'; rewrite set_worker_of, decide_True; reflexivity).
  assert (Hq : quiet (pc_of g id)) by (rewrite E; exact Logic.I).
  assert (Hask : forall i k, asked g i k -> asked g' i k).
  { intros i k Hx. destruct (decide (i = id)) as [->|Hi]; [destruct (quiet_not_asked g id k Hq Hx)|].
    unfold asked. rewrite Hpc by exact Hi. exact Hx. }
  assert (Hup : forall i, Fm i <> [] -> upd Fm j l2 i <> []).
  { intros i. unfold upd. case_decide; auto. }
  split.
  - intros i. unfold g', upd; cbn. unfold upd. case_decide; cbn; [exact Rf|apply (pi_rep _ _ _ I0)].
  - intros i. unfold g', upd; cbn. unfold upd. case_decide; cbn; [exact Ro|apply (pi_mail_rep _ _ _ I0)].
  - intros i. destruct (decide (i = id)) as [->|Hi].
    + unfold local_ok. rewrite Hid, !upd_eq. split_and!; auto.
    + apply (local_stable g g' Fw _ Fm _ i (pi_local _ _ _ I0 i)); auto; rewrite ?upd_ne by exact Hi; auto.
      * intros Es. destruct (decide (i = j)) as [->|Hij]; [rewrite upd_eq; intros; contradiction|].
        rewrite upd_ne by exact Hij. auto.
      * intros k Hi0 Hk _ _. destruct (decide (k = id)) as [->|Hki]; [|rewrite Hpc by exact Hki; exact Hk].
        rewrite Hid. left. destruct Hk as [[Hk _]|Hk]; [|congruence]. split; [exact Hk|discriminate].
  - intros k i Hk Hi Hr. apply Hask, (pi_request _ _ _ I0); auto.
    destruct (decide (k = id)) as [->|Hkid]; [congruence|]. rewrite Hpc in Hr by exact Hkid. exact Hr.
  - intros i. destruct (decide (i = j)) as [->|Hij].
    + right; left. exists id. exact Hid.
    + rewrite upd_ne by exact Hij. destruct (pi_mail _ _ _ I0 i) as [Hm|[[x Hm]|[Hm|Hm]]]; [auto| | |].
      * right; left. exists x. rewrite Hpc; [exact Hm|congruence].
      * right; right; left. destruct (decide (i = id)) as [->|Hi]; [destruct (quiet_not_delivered g id Hq Hm)|].
        unfold delivered. rewrite Hpc by exact Hi. exact Hm.
      * right; right; right. rewrite Hpc; [exact Hm|congruence].
  - apply (pi_range _ _ _ I0).
Qed.

(** How a step of the protocol moves items: not at all, out of the mailbox,
    or half of the worker's input into an empty mailbox. *)
Inductive flow (id : Z) Fw Fm : (Z -> list item) -> (Z -> list item) -> Prop :=
  | flow_keep : flow id Fw Fm Fw Fm
  | flow_swap : Fw id = [] -> flow id Fw Fm (upd Fw id (Fm id)) (upd Fm id [])
  | flow_fork j l1 l2 : j <> id -> Fm j = [] -> l1 ++ l2 ≡ₚ Fw id -> l1 <> [] -> l2 <> [] ->
      flow id Fw Fm (upd Fw id l1) (upd Fm j l2).

(** What a step outside the loop body leaves alone. *)
Record frame g g' (id : Z) : Prop := {
  fr_shared : shared g' = shared g;
  fr_others : forall j, j <> id -> workers g' j = workers g j;
  fr_enter : forall b, pc_of g' id = Work b -> b = body_start;
  fr_done : is_done g' = true -> is_done g = true \/ pc_of g id = SetDone;
}.

Lemma frame_goto g0 g id p :
  workers g0 = workers g -> shared g0 = shared g -> is_done g0 = is_done g ->
  (forall b, p = Work b -> b = body_start) -> frame g (set_pc g0 id p) id.
Proof.
  intros Ew Es Ed Hp. split.
  - exact Es.
  - intros j Hj. cbn. rewrite upd_ne, Ew by exact Hj. reflexivity.
  - intros b. rewrite set_pc_of, decide_True by reflexivity. apply Hp.
  - cbn. rewrite Ed. auto.
Qed.

Lemma frame_set_worker g0 g id w :
  workers g0 = workers g -> shared g0 = shared g -> is_done g0 = is_done g ->
  (forall b, w_pc w = Work b -> b = body_start) -> frame g (set_worker g0 id w) id.
Proof.
  intros Ew Es Ed Hp. split.
  - exact Es.
  - intros j Hj. cbn. rewrite upd_ne, Ew by exact Hj. reflexivity.
  - intros b. rewrite set_worker_of, decide_True by reflexivity. apply Hp.
  - cbn. rewrite Ed. auto.
Qed.

Ltac here := unfold local_ok; rewrite set_pc_of, decide_True by reflexivity; cbn.

(** The result of a step, for each group of program points. *)
Definition preserved g Fw Fm id g' : Prop :=
  exists Fw' Fm', inv g' Fw' Fm' /\ flow id Fw Fm Fw' Fm' /\ frame g g' id.

Lemma preserved_keep g Fw Fm id g' : inv g' Fw Fm -> frame g g' id -> preserved g Fw Fm id g'.
Proof. intros H1 H2. exists Fw, Fm. split; [exact H1|]. split; [constructor|exact H2]. Qed.

(** A worker that neither waits nor is linked to another one moves on with
    the same input. *)
Lemma step_quiet g Fw Fm id p :
  inv g Fw Fm -> quiet (pc_of g id) -> ~ linked (pc_of g id) -> p <> RespReset ->
  (forall b, p = Work b -> b = body_start) ->
  local_ok (set_pc g id p) Fw Fm id -> preserved g Fw Fm id (set_pc g id p).
Proof.
  intros I0 Hq Hl Hp Hb L.
  apply preserved_keep; [apply inv_goto_quiet; auto|apply frame_goto; auto].
Qed.

Lemma step_block g g' Fw Fm id c :
  inv g Fw Fm -> 0 <= id -> pc_of g id = BlockLoad \/ pc_of g id = BlockCas ->
  wstep id c g = Ok g' -> preserved g Fw Fm id g'.
Proof.
  intros I0 Hid E H. pose proof (pi_local _ _ _ I0 id) as L. unfold local_ok in L.
  unfold wstep in H. fold (pc_of g id) in H.
  destruct E as [E|E]; rewrite E in L, H; cbv beta iota in H.
  - injection H as <-. apply step_quiet; auto; rewrite ?E; try exact Logic.I; auto.
    + destruct (Z.eqb_spec (requests g id) REQUEST_BLOCKED); [discriminate|].
      destruct (Z.eqb_spec (requests g id) REQUEST_WAITING); discriminate.
    + intros b. destruct (_ =? _); [discriminate|]. destruct (_ =? _); discriminate.
    + here. destruct (Z.eqb_spec (requests g id) REQUEST_BLOCKED) as [Hb|Hb]; [auto|].
      destruct (Z.eqb_spec (requests g id) REQUEST_WAITING) as [Hw|Hw]; [exact L|].
      pose proof (pi_range _ _ _ I0 id). split_and!; auto; lia.
  - destruct (Z.eqb_spec (requests g id) REQUEST_WAITING) as [Hw|Hw]; injection H as <-.
    + apply preserved_keep; [|apply frame_goto; auto; discriminate].
      apply inv_own_request; auto; rewrite ?E; try exact Logic.I; try discriminate.
      * intros j a. split_and!; discriminate.
      * intros i Hi Hr. rewrite Hw in Hr. unfold REQUEST_WAITING in Hr. lia.
      * here. unfold upd. rewrite decide_True by reflexivity. auto.
    + apply step_quiet; auto; rewrite ?E; try exact Logic.I; auto; try discriminate.
      here. exact L.
Qed.

Lemma step_reject g g' Fw Fm id c j :
  inv g Fw Fm -> pc_of g id = BlockStore j \/ pc_of g id = BlockReject j ->
  wstep id c g = Ok g' -> preserved g Fw Fm id g'.
Proof.
  intros I0 E H. pose proof (pi_local _ _ _ I0 id) as L. unfold local_ok in L.
  unfold wstep in H. fold (pc_of g id) in H.
  destruct E as [E|E]; rewrite E in L, H; injection H as <-;
    (apply preserved_keep; [|apply frame_goto; auto; discriminate]).
  - destruct L as (L1 & L2 & L3). apply inv_own_request; auto; rewrite ?E; try exact Logic.I; try discriminate.
    + intros j' a. split_and!; discriminate.
    + intros i _ Hi _. congruence.
    + here. unfold upd at 1. rewrite decide_True by reflexivity. split_and!; auto.
      pose proof (pi_request _ _ _ I0 id j L2 L3 ltac:(congruence)) as Ha.
      assert (j <> id) by (intros ->; destruct Ha as [[?|[?|?]] _]; congruence).
      unfold asked. rewrite set_pc_of, decide_False by assumption. exact Ha.
  - destruct L as (L1 & L2 & L3 & L4). apply inv_answer; auto.
Qed.

Lemma step_acquire g g' Fw Fm id c k :
  inv g Fw Fm -> 0 <= id ->
  pc_of g id = Acquire \/ pc_of g id = AcqReset \/ pc_of g id = AcqLoad k \/ pc_of g id = AcqCas k ->
  wstep id c g = Ok g' -> preserved g Fw Fm id g'.
Proof.
  intros I0 Hid E H. pose proof (pi_local _ _ _ I0 id) as L. unfold local_ok in L.
  unfold wstep in H. fold (pc_of g id) in H.
  destruct E as [E|[E|[E|E]]]; rewrite E in L, H; cbv beta iota in H.
  - injection H as <-. apply step_quiet; auto; rewrite ?E; try exact Logic.I; auto; destruct (is_done g) eqn:Ed;
      try discriminate; here; destruct_and!; split_and!; auto.
  - injection H as <-. apply preserved_keep; [|apply frame_goto; auto; discriminate].
    apply inv_reset_answer; assumption.
  - injection H as <-. apply step_quiet; auto; rewrite ?E; try exact Logic.I; auto;
      destruct (_ =? _); try discriminate; here; destruct_and!; auto.
  - destruct (Z.eqb_spec (requests g k) REQUEST_WAITING) as [Hk|Hk]; injection H as <-.
    + apply preserved_keep; [|apply frame_goto; auto; discriminate]. apply inv_ask; assumption.
    + apply step_quiet; auto; rewrite ?E; try exact Logic.I; auto; try discriminate.
      here. destruct_and!; auto.
Qed.

Lemma step_wait g g' Fw Fm id c k :
  inv g Fw Fm -> 0 <= id ->
  pc_of g id = WaitLoad k \/ pc_of g id = WaitDone k \/ pc_of g id = AnsLoad k ->
  wstep id c g = Ok g' -> preserved g Fw Fm id g'.
Proof.
  intros I0 Hid E H. pose proof (pi_local _ _ _ I0 id) as L. unfold local_ok in L.
  unfold wstep in H. fold (pc_of g id) in H.
  assert (Hkeep : forall p, (forall j, p <> BlockReject j) ->
    (requests g k = id /\ pc_of g k <> RespReset \/ pc_of g k = BlockReject id) -> p <> RespReset ->
    ~ linked (pc_of g id) ->
    requests g k = id /\ pc_of (set_pc g id p) k <> RespReset \/ pc_of (set_pc g id p) k = BlockReject id).
  { intros p Hp Hk Hr Hl. rewrite set_pc_of. destruct (decide (k = id)) as [->|Hkid]; [|exact Hk].
    destruct Hk as [[Hk _]|Hk]; [auto|]. destruct Hl. rewrite Hk. exact Logic.I. }
  destruct E as [E|[E|E]]; rewrite E in L, H; cbv beta iota in H; injection H as <-.
  - destruct L as (L0 & L1 & L2 & L3 & L4).
    apply preserved_keep; [|apply frame_goto; auto; destruct (decide _); discriminate].
    destruct (decide (answers g id = ANSWER_WAITING)) as [Ha|Ha].
    + apply inv_goto; auto; rewrite ?E; auto; try discriminate.
      * here. split_and!; auto. intros _. apply Hkeep; auto; try discriminate. rewrite E; auto.
      * intros x [[Hx|[Hx|Hx]] _]; rewrite E in Hx; try discriminate. injection Hx as <-.
        split; [|exact Ha]. rewrite set_pc_of, decide_True by reflexivity. auto.
      * intros [_ Hd]. congruence.
    + apply inv_goto; auto; rewrite ?E; auto; try discriminate.
      * here. auto.
      * intros x [_ Hx]. contradiction.
      * intros [_ Hd]. left. split; [|exact Hd]. exists k. rewrite set_pc_of, decide_True by reflexivity. auto.
  - destruct L as (L0 & L1 & L2 & L3 & L4).
    apply preserved_keep; [|apply frame_goto; auto; destruct (is_done g); discriminate].
    assert (Hpc : forall p, p = Abandoned k \/ p = WaitLoad k ->
      (forall x, asked g id x -> asked (set_pc g id p) id x) /\ (delivered g id -> delivered (set_pc g id p) id)).
    { intros p Hp. split.
      - intros x [[Hx|[Hx|Hx]] Ha]; rewrite E in Hx; try discriminate. injection Hx as <-.
        split; [|exact Ha]. rewrite set_pc_of, decide_True by reflexivity. destruct Hp; auto.
      - intros [_ Hd]. split; [|exact Hd]. exists k. rewrite set_pc_of, decide_True by reflexivity.
        destruct Hp; auto. }
    destruct (is_done g) eqn:Ed.
    + destruct (Hpc (Abandoned k)) as [H1 H2]; auto.
      apply inv_goto; auto; rewrite ?E; auto; try discriminate. here. exact Ed.
    + destruct (Hpc (WaitLoad k)) as [H1 H2]; auto.
      apply inv_goto; auto; rewrite ?E; auto; try discriminate.
      here. split_and!; auto. intros Ha. apply Hkeep; auto; try discriminate. rewrite E; auto.
  - destruct L as (L1 & L2 & L3 & L4).
    apply preserved_keep; [|apply frame_goto; auto; destruct (decide _); discriminate].
    assert (Hna : forall x, ~ asked g id x) by (intros x [_ Hx]; contradiction).
    destruct (decide (answers g id = ANSWER_TRANSFERRED)) as [Ha|Ha].
    + apply inv_goto; auto; rewrite ?E; auto; try discriminate.
      * here. split_and!; auto. intros Hm. destruct (L4 Ha Hm).
      * intros x Hx. destruct (Hna x Hx).
    + apply inv_goto; auto; rewrite ?E; auto; try discriminate.
      * here. auto.
      * intros x Hx. destruct (Hna x Hx).
      * intros [_ Hd]. contradiction.
Qed.

Lemma step_respond g g' Fw Fm id c :
  inv g Fw Fm -> 0 <= id ->
  (exists sz, pc_of g id = AssertSize sz \/ pc_of g id = RespLoad sz) \/
  pc_of g id = RespUnblock \/ pc_of g id = RespReset ->
  wstep id c g = Ok g' -> preserved g Fw Fm id g'.
Proof.
  intros I0 Hid E H. pose proof (pi_local _ _ _ I0 id) as L. unfold local_ok in L.
  unfold wstep in H. fold (pc_of g id) in H.
  destruct E as [[sz [E|E]]|[E|E]]; rewrite E in L, H; cbv beta iota in H.
  - unfold assert_ in H. destruct (Z.ltb_spec 0 sz) as [Hsz|Hsz]; [|discriminate].
    rewrite bind_ok_l in H. injection H as <-.
    apply step_quiet; auto; rewrite ?E; try exact Logic.I; auto; try discriminate.
    here. destruct L as (L1 & L2 & L3 & L4). split; [|exact L4].
    apply L3. unfold SIZE_EMPTY. lia.
  - injection H as <-. destruct L as (L1 & L2).
    apply step_quiet; auto; rewrite ?E; try exact Logic.I; auto.
    + repeat (destruct (_ =? _) || destruct (_ <=? _)); discriminate.
    + intros b. repeat (destruct (_ =? _) || destruct (_ <=? _)); congruence.
    + here. destruct (Z.eqb_spec (requests g id) REQUEST_BLOCKED) as [Hb|Hb]; [auto|].
      destruct (Z.leb_spec 0 (requests g id)) as [Hr|Hr]; [|exact Logic.I].
      destruct (Z.eqb_spec sz SIZE_SPLIT) as [Hs|Hs]; split_and!; auto; discriminate.
  - injection H as <-. apply preserved_keep; [|apply frame_goto; auto; congruence].
    apply inv_own_request; auto; rewrite ?E; try exact Logic.I; try discriminate.
    + intros j' a. split_and!; discriminate.
    + intros i Hi Hr _. destruct L as [Lb _]. rewrite Lb in Hr. unfold REQUEST_BLOCKED in Hr. lia.
    + here. exact Logic.I.
  - injection H as <-. apply preserved_keep; [|apply frame_goto; auto; congruence].
    apply inv_own_request; auto; rewrite ?E; try exact Logic.I; try discriminate.
    + intros j' a. split_and!; discriminate.
    + intros i Hi Hr Hne. contradiction.
    + here. exact Logic.I.
Qed.

Lemma step_transfer g g' Fw Fm id c j a :
  inv g Fw Fm -> 0 <= id ->
  pc_of g id = SwapIn \/ pc_of g id = RespFork j \/ pc_of g id = RespAnswer j a ->
  wstep id c g = Ok g' -> preserved g Fw Fm id g'.
Proof.
  intros I0 Hid E H. pose proof (pi_local _ _ _ I0 id) as L. unfold local_ok in L.
  unfold wstep in H. fold (pc_of g id) in H.
  destruct E as [E|[E|E]]; rewrite E in L, H; cbv beta iota in H.
  - destruct (size_input _ _) as [p sz] eqn:Esz. injection H as <-.
    destruct (inv_swap g Fw Fm id p sz I0 Hid E Esz) as [Hf I1].
    eexists _, _. split; [exact I1|]. split; [constructor; exact Hf|].
    apply frame_set_worker; auto. discriminate.
  - destruct (fork_exclusive g Fw Fm id j I0 E) as (Hj0 & Hj & Ha & Hm & _).
    pose proof (pi_mail_rep _ _ _ I0 j) as Rm. rewrite Hm in Rm.
    destruct (fork_rep (w_priv (workers g id)) _ _ _ (pi_rep _ _ _ I0 id) Rm) as
      (p & f & o & l1 & l2 & Ef & R1 & R2 & Hperm & H1 & H2); [apply L|].
    rewrite Ef, bind_ok_l in H. injection H as <-.
    exists (upd Fw id l1), (upd Fm j l2). split; [apply inv_fork; assumption|].
    split; [constructor; assumption|]. apply frame_set_worker; auto. discriminate.
  - injection H as <-. destruct L as (L1 & L2 & L3 & L4).
    apply preserved_keep; [|apply frame_goto; auto; discriminate].
    apply inv_answer; auto. apply (pi_request _ _ _ I0); auto; congruence.
Qed.

Lemma step_rest g g' Fw Fm id c k :
  inv g Fw Fm ->
  pc_of g id = Outer \/ pc_of g id = Size \/ pc_of g id = SetDone \/ pc_of g id = Abandoned k \/
  pc_of g id = Halted ->
  wstep id c g = Ok g' -> preserved g Fw Fm id g'.
Proof.
  intros I0 E H. pose proof (pi_local _ _ _ I0 id) as L. unfold local_ok in L.
  unfold wstep in H. fold (pc_of g id) in H.
  destruct E as [E|[E|[E|[E|E]]]]; rewrite E in L, H; cbv beta iota in H.
  - injection H as <-. apply step_quiet; auto; rewrite ?E; try exact Logic.I; auto; destruct (is_done g) eqn:Ed; try discriminate;
      here; auto.
  - pose proof (pi_rep _ _ _ I0 id) as R.
    pose proof (size_range (w_priv (workers g id)) (w_input (workers g id))) as Hr.
    pose proof (size_empty (w_priv (workers g id)) _ _ R) as He.
    pose proof (size_split (w_priv (workers g id)) _ _ R) as Hs.
    destruct (size_input _ _) as [p sz] eqn:Esz. cbn in Hr, He, Hs. injection H as <-.
    apply preserved_keep.
    + apply (inv_ext _ (upd Fw id (Fw id))); [|intros i; unfold upd; case_decide; subst; reflexivity].
      eapply inv_move; [exact I0|split; reflexivity || auto|exact R| | | | |].
      * unfold local_ok. rewrite set_worker_of, decide_True, upd_eq by reflexivity. cbn.
        destruct (Z.eqb_spec sz SIZE_EMPTY) as [Hz|Hz]; [tauto|]. split_and!; auto; [contradiction|tauto].
      * rewrite E. auto.
      * cbn. destruct (_ =? _); discriminate.
      * intros x Hx. destruct (quiet_not_asked g id x); [rewrite E; exact Logic.I|exact Hx].
      * intros Hx. destruct (quiet_not_delivered g id); [rewrite E; exact Logic.I|exact Hx].
    + apply frame_set_worker; auto. cbn. intros b. destruct (_ =? _); discriminate.
  - injection H as <-. apply preserved_keep.
    + apply (inv_ext _ (upd Fw id (Fw id))); [|intros i; unfold upd; case_decide; subst; reflexivity].
      eapply (inv_move g _ Fw Fm id (mkWorker Halted (w_input (workers g id)) (w_priv (workers g id))));
        [exact I0|split; reflexivity || auto|apply (pi_rep _ _ _ I0)| | | | |].
      * unfold local_ok, pc_of. cbn. rewrite upd_eq. reflexivity.
      * rewrite E. auto.
      * discriminate.
      * intros x Hx. destruct (quiet_not_asked g id x); [rewrite E; exact Logic.I|exact Hx].
      * intros Hx. destruct (quiet_not_delivered g id); [rewrite E; exact Logic.I|exact Hx].
    + split; auto.
      * intros j Hj. cbn. rewrite upd_ne by exact Hj. reflexivity.
      * intros b. unfold pc_of. cbn. rewrite upd_eq. discriminate.
  - injection H as <-. apply preserved_keep; [exact I0|]. split; auto. congruence.
  - injection H as <-. apply preserved_keep; [exact I0|]. split; auto. congruence.
Qed.

(** Every step outside the loop body keeps the invariant. *)
Lemma protocol_step g g' Fw Fm id c :
  inv g Fw Fm -> 0 <= id -> (forall b, pc_of g id <> Work b) -> wstep id c g = Ok g' ->
  preserved g Fw Fm id g'.
Proof.
  intros I0 Hid Hw H. destruct (pc_of g id) as [] eqn:E; try (destruct (Hw b); reflexivity).
  - apply (step_rest g g' Fw Fm id c 0); auto.
  - apply (step_rest g g' Fw Fm id c 0); auto.
  - apply (step_block g g' Fw Fm id c); auto.
  - apply (step_block g g' Fw Fm id c); auto.
  - apply (step_reject g g' Fw Fm id c other); auto.
  - apply (step_reject g g' Fw Fm id c other); auto.
  - apply (step_acquire g g' Fw Fm id c 0); auto.
  - apply (step_acquire g g' Fw Fm id c 0); auto.
  - apply (step_acquire g g' Fw Fm id c other); auto.
  - apply (step_acquire g g' Fw Fm id c other); auto.
  - apply (step_wait g g' Fw Fm id c other); auto.
  - apply (step_wait g g' Fw Fm id c other); auto.
  - apply (step_wait g g' Fw Fm id c other); auto.
  - apply (step_transfer g g' Fw Fm id c 0 ANSWER_WAITING); auto.
  - apply (step_respond g g' Fw Fm id c); eauto.
  - apply (step_respond g g' Fw Fm id c); eauto.
  - apply (step_respond g g' Fw Fm id c); auto.
  - apply (step_transfer g g' Fw Fm id c other ANSWER_WAITING); auto.
  - apply (step_transfer g g' Fw Fm id c other a); auto.
  - apply (step_respond g g' Fw Fm id c); auto.
  - apply (step_rest g g' Fw Fm id c 0); auto.
  - apply (step_rest g g' Fw Fm id c other); auto.
  - apply (step_rest g g' Fw Fm id c 0); auto 6.
Qed.

(** Only the loop body makes a worker set the flag. *)
Lemma protocol_not_found g g' id c :
  (forall b, pc_of g id <> Work b) -> wstep id c g = Ok g' -> pc_of g' id <> SetDone.
Proof.
  intros Hw Hs. unfold wstep in Hs. fold (pc_of g id) in Hs.
  destruct (pc_of g id) as [] eqn:Ep; try (destruct (Hw b); reflexivity); cbv beta iota in Hs;
    repeat match type of Hs with context [size_input ?a ?b] => destruct (size_input a b) end;
    repeat match type of Hs with context [if ?b then _ else _] => destruct b end;
    inv_res; try discriminate; repeat match goal with x : _ * _ |- _ => destruct x end; inv_res;
    unfold pc_of in *; cbn; rewrite ?upd_eq; cbn; congruence.
Qed.

(** A step of the loop body keeps it, whatever the body did to its input. *)
Lemma work_step g Fw Fm id b s p f next l :
  inv g Fw Fm -> pc_of g id = Work b -> rep f l ->
  inv (set_worker (set_shared g s) id
         (mkWorker match next with inl b => Work b | inr true => SetDone | inr false => Outer end f p))
    (upd Fw id l) Fm.
Proof.
  intros I0 E R. eapply inv_move; [exact I0|split; reflexivity || auto|exact R| | | | |].
  - unfold local_ok. rewrite set_worker_of, decide_True by reflexivity. cbn.
    destruct next as [b'|[]]; exact Logic.I.
  - rewrite E. auto.
  - cbn. destruct next as [b'|[]]; discriminate.
  - intros x Hx. destruct (quiet_not_asked g id x); [rewrite E; exact Logic.I|exact Hx].
  - intros Hx. destruct (quiet_not_delivered g id); [rewrite E; exact Logic.I|exact Hx].
Qed.

(** The only error of the protocol is the assertion, after the flag is set. *)
Lemma protocol_error g Fw Fm id c e :
  inv g Fw Fm -> (forall b, pc_of g id <> Work b) -> wstep id c g = Err e ->
  e = AssertFailed /\ is_done g = true /\ pc_of g id = AssertSize 0.
Proof.
  intros I0 Hw H. pose proof (pi_local _ _ _ I0 id) as L. unfold local_ok in L.
  unfold wstep in H. fold (pc_of g id) in H.
  destruct (pc_of g id) as [] eqn:E; try (destruct (Hw b); reflexivity); try discriminate.
  - destruct (size_input _ _); discriminate.
  - destruct (requests g id =? REQUEST_WAITING); discriminate.
  - destruct (requests g other =? REQUEST_WAITING); discriminate.
  - destruct (size_input _ _); discriminate.
  - unfold assert_ in H. destruct (Z.ltb_spec 0 sz) as [Hsz|Hsz]; [discriminate|].
    injection H as <-. destruct L as (L1 & L2 & _).
    assert (sz = 0) as -> by lia. destruct L2; auto.
  - destruct (fork_exclusive g Fw Fm id other I0 E) as (_ & _ & _ & Hm & _).
    pose proof (pi_mail_rep _ _ _ I0 other) as Rm. rewrite Hm in Rm.
    destruct (fork_rep (w_priv (workers g id)) _ _ _ (pi_rep _ _ _ I0 id) Rm) as
      (p & f & o & l1 & l2 & Ef & _); [apply L|].
    rewrite Ef in H. discriminate.
Qed.

(** ** Runs *)

(** A worker that works has a step of its body; the invariant survives it as
    far as the protocol is concerned. *)
Lemma any_step n g g' Fw Fm :
  inv g Fw Fm -> step n g g' -> exists Fw' Fm', inv g' Fw' Fm'.
Proof.
  intros I0 (id & c & Hid & _ & Hs).
  destruct (pc_of g id) as [] eqn:E;
    try (destruct (protocol_step g g' Fw Fm id c I0 ltac:(lia) ltac:(congruence) Hs) as (Fw' & Fm' & I1 & _);
         eauto; fail).
  unfold wstep in Hs. fold (pc_of g id) in Hs. rewrite E in Hs.
  destruct (body_step _ _ _ _ _ _) as [[[[s p] f] next]|e] eqn:Eb; [|discriminate].
  rewrite bind_ok_l in Hs. injection Hs as <-.
  destruct (body_rep _ _ _ _ _ _ _ _ _ _ _ (pi_rep _ _ _ I0 id) Eb) as [l R].
  exists (upd Fw id l), Fm. apply (work_step g Fw Fm id b s p f next l I0 E R).
Qed.

Lemma run_inv n leader input priv (s : S) l g :
  rep input l -> rtc (step n) (initial leader input priv s) g -> exists Fw Fm, inv g Fw Fm.
Proof.
  intros R Hr. apply (rtc_invariant (step n) (fun g => exists Fw Fm, inv g Fw Fm) _ _) with (2 := Hr).
  - intros a b (Fw & Fm & I0) Hab. apply (any_step n a b Fw Fm I0 Hab).
  - eexists _, _. apply protocol_initial. exact R.
Qed.

(** ** Conservation of items *)

Definition total (ids : list Z) Fw Fm : list item := (ids ≫= Fw) ++ (ids ≫= Fm).

Lemma bind_upd_perm (F : Z -> list item) ids id l :
  NoDup ids -> id ∈ ids -> exists rest, ids ≫= F ≡ₚ F id ++ rest /\ ids ≫= upd F id l ≡ₚ l ++ rest.
Proof.
  intros Hnd Hin. apply list_elem_of_split in Hin as (l1 & l2 & ->).
  exists ((l1 ≫= F) ++ (l2 ≫= F)).
  assert (Hne : forall k, id ∉ k -> k ≫= upd F id l = k ≫= F).
  { induction k as [|x k IH]; intros Hk; [reflexivity|]. cbn. rewrite upd_ne by set_solver.
    f_equal. apply IH. set_solver. }
  apply NoDup_app in Hnd as (_ & Hd & Hnd). inversion Hnd as [|? ? Hni _]; subst.
  rewrite !bind_app. cbn. rewrite upd_eq, !Hne; [|exact Hni|intros H; apply (Hd id H); left].
  split; rewrite !(assoc_L (++)); apply Permutation_app_tail, Permutation_app_comm.
Qed.

Lemma flow_total ids id Fw Fm Fw' Fm' :
  NoDup ids -> id ∈ ids -> (forall j, Fm j <> [] \/ Fm' j <> [] -> j ∈ ids) ->
  flow id Fw Fm Fw' Fm' -> total ids Fw' Fm' ≡ₚ total ids Fw Fm.
Proof.
  intros Hnd Hid Hj Hfl. revert Hj.
  destruct Hfl as [|He|j l1 l2 Hne Hm Pm H1 H2]; intros Hj; [reflexivity| |]; unfold total.
  - destruct (bind_upd_perm Fw ids id (Fm id) Hnd Hid) as (r1 & E1 & E1').
    destruct (bind_upd_perm Fm ids id [] Hnd Hid) as (r2 & E2 & E2').
    rewrite E1, E1', E2, E2', He. cbn. rewrite (assoc_L (++)), (Permutation_app_comm r1). reflexivity.
  - destruct (bind_upd_perm Fw ids id l1 Hnd Hid) as (r1 & E1 & E1').
    destruct (bind_upd_perm Fm ids j l2 Hnd) as (r2 & E2 & E2'); [apply Hj; right; rewrite upd_eq; exact H2|].
    rewrite E1, E1', E2, E2', Hm, <-Pm. cbn.
    rewrite <-!(assoc_L (++)). apply Permutation_app_head. rewrite !(assoc_L (++)).
    apply Permutation_app_tail, Permutation_app_comm.
Qed.

(** ** Starvation *)

(** Nobody holds an item, nobody is inside the loop body, and the flag is not
    set. *)
Definition starved g : Prop :=
  is_done g = false /\
  (exists Fw Fm, inv g Fw Fm /\ forall i, Fw i = [] /\ Fm i = []) /\
  forall i, (forall b, pc_of g i <> Work b) /\ pc_of g i <> SetDone.

Lemma no_enter g g' Fw Fm id c b :
  inv g Fw Fm -> Fw id = [] -> (forall b, pc_of g id <> Work b) -> wstep id c g = Ok g' ->
  pc_of g' id <> Work b.
Proof.
  intros I0 Hf Hw Hs Hb. pose proof (pi_local _ _ _ I0 id) as L. unfold local_ok in L. rewrite Hf in L.
  unfold wstep in Hs. fold (pc_of g id) in Hs.
  destruct (pc_of g id) as [] eqn:Ep; try (destruct (Hw b0); reflexivity); cbv beta iota in Hs;
    try (destruct L; contradiction); try (destruct_and!; contradiction);
    repeat match type of Hs with context [size_input ?a ?b] => destruct (size_input a b) end;
    repeat match type of Hs with context [if ?b then _ else _] => destruct b end;
    inv_res; try discriminate; repeat match goal with x : _ * _ |- _ => destruct x end; inv_res;
    unfold pc_of in *; cbn in Hb; rewrite ?upd_eq in Hb; cbn in Hb; congruence.
Qed.

Lemma starved_step n g g' : starved g -> step n g g' -> starved g'.
Proof.
  intros (Hd & (Fw & Fm & I0 & He) & Hp) (id & c & Hid & _ & Hs).
  destruct (Hp id) as [Hw Hset].
  destruct (protocol_step g g' Fw Fm id c I0 ltac:(lia) Hw Hs) as (Fw' & Fm' & I1 & Fl & [Fs Fo Fe Fd]).
  split; [|split].
  - destruct (is_done g') eqn:Ed; [|reflexivity]. destruct (Fd eq_refl); [congruence|contradiction].
  - exists Fw', Fm'. split; [exact I1|]. destruct Fl as [|_|j l1 l2 _ _ Pm H1 _]; [exact He| |].
    + intros i. unfold upd. destruct (He id), (He i). repeat case_decide; auto.
    + destruct (He id) as [Hf _]. rewrite Hf in Pm. apply Permutation_nil_r, app_nil in Pm as [-> _]. contradiction.
  - intros i. destruct (decide (i = id)) as [->|Hne].
    + split; [intros b; apply (no_enter g g' Fw Fm id c b I0 (proj1 (He id)) Hw Hs)|].
      apply (protocol_not_found g g' id c Hw Hs).
    + unfold pc_of in *. rewrite Fo by exact Hne. apply Hp.
Qed.
End theory.
End ParWhile.
