(* ===== verification/ParWhileSim.v ===== *)
(** * Replacing the loop body of the work-sharing loop

    Two bodies over the same inputs and private data run side by side: when
    every step of one is matched by steps of the other, so is every step of
    [parallel_while_pwsa] with the one by steps of [parallel_while_pwsa] with the
    other, in any interleaving. *)

From S2P Require Import Prelude.
From S2P Require Import ParWhile.

Module ParWhileSim.
Import ParWhile.

(** Program points up to where in the body a worker is. *)
Definition erase {B} (p : pc B) : pc unit :=
  match p with
  | Outer => Outer | Size => Size | BlockLoad => BlockLoad | BlockCas => BlockCas
  | BlockStore k => BlockStore k | BlockReject k => BlockReject k
  | Acquire => Acquire | AcqReset => AcqReset | AcqLoad k => AcqLoad k | AcqCas k => AcqCas k
  | WaitLoad k => WaitLoad k | WaitDone k => WaitDone k | AnsLoad k => AnsLoad k | SwapIn => SwapIn
  | AssertSize sz => AssertSize sz | RespLoad sz => RespLoad sz | RespUnblock => RespUnblock
  | RespFork k => RespFork k | RespAnswer k a => RespAnswer k a | RespReset => RespReset
  | Work _ => Work tt | SetDone => SetDone | Abandoned k => Abandoned k | Halted => Halted
  end.

Section sim.
Context {I P S1 B1 S2 B2 : Type} {b1 : Body I P S1 B1} {b2 : Body I P S2 B2}.
Abbreviation global1 := (global I P S1 B1).
Abbreviation global2 := (global I P S2 B2).
Abbreviation step1 := (body_step (Body := b1)).
Abbreviation step2 := (body_step (Body := b2)).

(** Steps of worker [id] in the second body. *)
Inductive exec (id : Z) (c : choice) : S2 * P * I * B2 -> S2 * P * I * (B2 + bool) -> Prop :=
  | exec_here s p f b : exec id c (s, p, f, b) (s, p, f, inl b)
  | exec_last s p f b s' p' f' r : step2 id c s p f b = Ok (s', p', f', inr r) ->
      exec id c (s, p, f, b) (s', p', f', inr r)
  | exec_more s p f b s' p' f' b' out : step2 id c s p f b = Ok (s', p', f', inl b') ->
      exec id c (s', p', f', b') out -> exec id c (s, p, f, b) out.

Lemma exec_one id c s p f b s' p' f' next : step2 id c s p f b = Ok (s', p', f', next) ->
  exec id c (s, p, f, b) (s', p', f', next).
Proof. destruct next; intros E; [eapply exec_more; [exact E|constructor]|apply exec_last; exact E]. Qed.

(** [R] relates the shared data, [Q] the points of a worker; [J] is what is
    known of the input of a worker, [Bd] of the first shared data after the
    step; [blame] relates the points at which an error shows. *)
Context (R : S1 -> S2 -> Prop) (Q : S1 -> B1 -> B2 -> Prop) (J : S2 -> I -> Prop) (Bd : S1 -> Prop) (blame : B1 -> B2 -> Prop).

Definition next_rel (s : S1) (x : B1 + bool) (y : B2 + bool) : Prop :=
  match x, y with inl a, inl b => Q s a b | inr a, inr b => a = b | _, _ => False end.

Record simulation : Prop := {
  sm_new : input_new (Body := b1) = input_new (Body := b2);
  sm_size : forall p f, size_input (Body := b1) p f = size_input (Body := b2) p f;
  sm_fork : forall p f o, fork_input (Body := b1) p f o = fork_input (Body := b2) p f o;
  sm_start : forall s1 s2, R s1 s2 -> Q s1 (body_start (Body := b1)) (body_start (Body := b2));
  sm_step : forall id c s1 s2 p f a b s1' p' f' next, R s1 s2 -> Q s1 a b -> J s2 f ->
    step1 id c s1 p f a = Ok (s1', p', f', next) -> Bd s1' ->
    (forall a b, Q s1 a b -> Q s1' a b) /\
    exists s2' next2, exec id c (s2, p, f, b) (s2', p', f', next2) /\ R s1' s2' /\ next_rel s1' next next2;
  sm_err : forall id c s1 s2 p f a b e, R s1 s2 -> Q s1 a b -> J s2 f -> step1 id c s1 p f a = Err e ->
    exists s2' f' b', exec id c (s2, p, f, b) (s2', p, f', inl b') /\ step2 id c s2' p f' b' = Err e /\ blame a b';
}.
Context (sim : simulation).

Definition pc_rel (s : S1) (p : pc B1) (q : pc B2) : Prop :=
  erase p = erase q /\ forall a b, p = Work a -> q = Work b -> Q s a b.

Record related (g1 : global1) (g2 : global2) : Prop := {
  re_shared : R (shared g1) (shared g2);
  re_requests : requests g1 = requests g2;
  re_answers : answers g1 = answers g2;
  re_frontiers : frontiers g1 = frontiers g2;
  re_done : is_done g1 = is_done g2;
  re_pc : forall i, pc_rel (shared g1) (w_pc (workers g1 i)) (w_pc (workers g2 i));
  re_input : forall i, w_input (workers g1 i) = w_input (workers g2 i);
  re_priv : forall i, w_priv (workers g1 i) = w_priv (workers g2 i);
}.

Lemma pc_rel_same s p q : erase p = erase q -> (forall a, p <> Work a) -> pc_rel s p q.
Proof. intros E Hn. split; [exact E|]. intros a b Ha. destruct (Hn a Ha). Qed.

Lemma pc_rel_work s a b : Q s a b -> pc_rel s (Work a) (Work b).
Proof. intros HQ. split; [reflexivity|]. intros a' b' [= <-] [= <-]. exact HQ. Qed.

Lemma pc_rel_start s1 s2 : R s1 s2 -> pc_rel s1 (Work (body_start (Body := b1))) (Work (body_start (Body := b2))).
Proof. intros HR. apply pc_rel_work, (sm_start sim _ s2 HR). Qed.

(** One worker changes. *)
Lemma related_worker g1 g2 id p q f x : related g1 g2 -> pc_rel (shared g1) p q ->
  related (set_worker g1 id (mkWorker p f x)) (set_worker g2 id (mkWorker q f x)).
Proof.
  intros [H1 H2 H3 H4 H5 H6 H7 H8] Hp. split; cbn; auto; intros i; unfold upd; case_decide; cbn; auto.
Qed.

Lemma related_pc g1 g2 id p q : related g1 g2 -> pc_rel (shared g1) p q -> related (set_pc g1 id p) (set_pc g2 id q).
Proof. intros H Hp. unfold set_pc. rewrite (re_input _ _ H), (re_priv _ _ H). apply related_worker; assumption. Qed.

Lemma related_request g1 g2 i r : related g1 g2 -> related (set_request g1 i r) (set_request g2 i r).
Proof. intros [H1 H2 H3 H4 H5 H6 H7 H8]. split; cbn; congruence || auto. Qed.
Lemma related_answer g1 g2 i r : related g1 g2 -> related (set_answer g1 i r) (set_answer g2 i r).
Proof. intros [H1 H2 H3 H4 H5 H6 H7 H8]. split; cbn; congruence || auto. Qed.
Lemma related_frontier g1 g2 i r : related g1 g2 -> related (set_frontier g1 i r) (set_frontier g2 i r).
Proof. intros [H1 H2 H3 H4 H5 H6 H7 H8]. split; cbn; congruence || auto. Qed.
Lemma related_set_done g1 g2 : related g1 g2 -> related (set_done g1) (set_done g2).
Proof. intros [H1 H2 H3 H4 H5 H6 H7 H8]. split; cbn; congruence || auto. Qed.

Lemma related_initial leader input priv s1 s2 : R s1 s2 ->
  related (initial (body := b1) leader input priv s1) (initial (body := b2) leader input priv s2).
Proof.
  intros H. split; cbn; auto.
  - rewrite (sm_new sim). reflexivity.
  - intros i. apply pc_rel_same; [reflexivity|discriminate].
  - intros i. rewrite (sm_new sim). reflexivity.
Qed.

(** Outside the body both machines do the same. *)
Lemma related_protocol g1 g2 id c : related g1 g2 -> (forall a, w_pc (workers g1 id) <> Work a) ->
  match wstep (body := b1) id c g1, wstep (body := b2) id c g2 with
  | Ok g1', Ok g2' => related g1' g2' /\ shared g1' = shared g1
  | Err e, Err e' => e = e'
  | _, _ => False
  end.
Proof using sim.
  intros Hrel Hw. pose proof Hrel as [H1 H2 H3 H4 H5 H6 H7 H8]. destruct (H6 id) as [He _].
  unfold wstep. rewrite <- (H7 id), <- (H8 id), <- H2, <- H3, <- H4, <- H5.
  destruct (w_pc (workers g1 id)) eqn:Ep; destruct (w_pc (workers g2 id)) eqn:Eq; try discriminate;
    first [injection He as <- <-|injection He as <-|idtac]; try (destruct (Hw _ eq_refl); fail); cbn [erase] in *.
  all: repeat match goal with
    | |- context [size_input (Body := b2) ?a ?b] => rewrite <- (sm_size sim a b)
    | |- context [fork_input (Body := b2) ?a ?b ?c] => rewrite <- (sm_fork sim a b c)
    | |- context [let '(_, _) := ?x in _] => destruct x eqn:?
    | |- context [?x ≫= _] => destruct x eqn:?; [rewrite ?bind_ok_l|reflexivity]
    | x : _ * _ |- _ => destruct x
    end.
  all: repeat match goal with
    | |- context [if ?b then _ else _] => destruct b eqn:?
    end.
  all: try (split; [|reflexivity]).
  all: repeat first [exact Hrel|apply related_set_done|apply related_request|apply related_answer|apply related_frontier
    |apply related_pc|apply related_worker|apply (pc_rel_start _ _ H1)|apply pc_rel_same; [reflexivity|discriminate]].
Qed.

(** Where the machine puts the outcome of a body step. *)
Definition next_pc {B} (x : B + bool) : pc B :=
  match x with inl b => Work b | inr true => SetDone | inr false => Outer end.

(** [g'] is [g] but for worker [id] and the shared data. *)
Record moved {S B} (g : global I P S B) (id : Z) (w : worker I P B) (s : S) (g' : global I P S B) : Prop := {
  mv_id : workers g' id = w;
  mv_others : forall j, j <> id -> workers g' j = workers g j;
  mv_shared : shared g' = s;
  mv_requests : requests g' = requests g;
  mv_answers : answers g' = answers g;
  mv_frontiers : frontiers g' = frontiers g;
  mv_done : is_done g' = is_done g;
}.

Lemma moved_set {S B} (g : global I P S B) id w s : moved g id w s (set_worker (set_shared g s) id w).
Proof. split; cbn; auto; [apply upd_eq|]. intros j Hj. apply upd_ne. exact Hj. Qed.

Lemma moved_trans {S B} (g g1 g2 : global I P S B) id w w' s s' : moved g id w s g1 -> moved g1 id w' s' g2 -> moved g id w' s' g2.
Proof.
  intros [] []. split; congruence || auto. intros j Hj. rewrite mv_others1 by exact Hj. auto.
Qed.

Lemma exec_steps n id c x y : exec id c x y -> 0 <= id < n ->
  forall (g : global2) s p f b, x = (s, p, f, b) -> workers g id = mkWorker (Work b) f p -> shared g = s ->
  let '(s', p', f', next) := y in
  exists g', rtc (step (body := b2) n) g g' /\ moved g id (mkWorker (next_pc next) f' p') s' g'.
Proof.
  intros He Hid. induction He as [s p f b|s p f b s' p' f' r E|s p f b s' p' f' b' out E He IH];
    intros g s0 p0 f0 b0 [= <- <- <- <-] Hw Hs.
  - exists g. split; [constructor|]. split; auto.
  - exists (set_worker (set_shared g s') id (mkWorker (next_pc (inr r)) f' p')). split; [|apply moved_set].
    apply rtc_once. exists id, c. split; [exact Hid|]. split; [intros Ep; rewrite Hw in Ep; discriminate|]. unfold wstep. rewrite Hw, Hs. cbn. rewrite E. reflexivity.
  - set (g1 := set_worker (set_shared g s') id (mkWorker (Work b') f' p')).
    destruct out as [[[s2 p2] f2] next].
    destruct (IH g1 s' p' f' b' eq_refl (upd_eq _ _ _) eq_refl) as (g2 & Hr & Hm).
    exists g2. split; [|eapply moved_trans; [apply moved_set|exact Hm]].
    eapply rtc_l; [|exact Hr]. exists id, c. split; [exact Hid|]. split; [intros Ep; rewrite Hw in Ep; discriminate|]. unfold wstep. rewrite Hw, Hs. cbn. rewrite E. reflexivity.
Qed.

Lemma related_moved (g1 g1' : global1) (g2 g2' : global2) id w1 w2 s1' s2' : related g1 g2 ->
  moved g1 id w1 s1' g1' -> moved g2 id w2 s2' g2' -> R s1' s2' -> (forall a b, Q (shared g1) a b -> Q s1' a b) ->
  pc_rel s1' (w_pc w1) (w_pc w2) -> w_input w1 = w_input w2 -> w_priv w1 = w_priv w2 -> related g1' g2'.
Proof.
  intros [H1 H2 H3 H4 H5 H6 H7 H8] [A1 A2 A3 A4 A5 A6 A7] [B1' B2' B3 B4 B5 B6 B7] HR Hmono Hp Hi Hpr.
  split; try congruence.
  - intros i. rewrite A3. destruct (decide (i = id)) as [->|Hne]; [rewrite A1, B1'; exact Hp|].
    rewrite A2, B2' by exact Hne. destruct (H6 i) as [E K]. split; [exact E|]. eauto.
  - intros i. destruct (decide (i = id)) as [->|Hne]; [congruence|]. rewrite A2, B2' by exact Hne. auto.
  - intros i. destruct (decide (i = id)) as [->|Hne]; [congruence|]. rewrite A2, B2' by exact Hne. auto.
Qed.

(** Related workers draw at the same points. *)
Lemma related_draws n (g1 : global1) (g2 : global2) id c : related g1 g2 -> draws n g1 id c -> draws n g2 id c.
Proof.
  intros Hrel Hd Ep. apply Hd. pose proof (re_pc _ _ Hrel id) as [He _]. rewrite Ep in He.
  destruct (w_pc (workers g1 id)); try discriminate. reflexivity.
Qed.

(** A step of the first machine is matched by steps of the second. *)
Lemma related_step n (g1 g1' : global1) (g2 : global2) : related g1 g2 -> (forall i, J (shared g2) (w_input (workers g2 i))) ->
  step (body := b1) n g1 g1' -> Bd (shared g1') ->
  exists g2', rtc (step (body := b2) n) g2 g2' /\ related g1' g2'.
Proof using sim.
  intros Hrel HJ (id & c & Hid & Hv & Hs) HB. destruct (w_pc (workers g1 id)) eqn:Ep;
    try (pose proof (related_protocol g1 g2 id c Hrel ltac:(congruence)) as Hp; rewrite Hs in Hp;
         destruct (wstep (body := b2) id c g2) as [g2'|e] eqn:Es2; [|contradiction];
         exists g2'; split; [apply rtc_once; exists id, c; split; [exact Hid|];
           split; [apply (related_draws n g1 g2 id c Hrel Hv)|exact Es2]|apply Hp]; fail).
  destruct (re_pc _ _ Hrel id) as [Ee HQ]. rewrite Ep in Ee. destruct (w_pc (workers g2 id)) as [] eqn:Eq; try discriminate.
  specialize (HQ b b0 Ep eq_refl).
  unfold wstep in Hs. rewrite Ep in Hs. apply bind_Ok in Hs as ([[[s1' p'] f'] next] & Es & [= <-]).
  cbn [shared set_worker set_shared] in HB.
  pose proof (HJ id) as HJi. rewrite <- (re_input _ _ Hrel id) in HJi.
  destruct (sm_step sim id c _ _ _ _ _ _ _ _ _ _ (re_shared _ _ Hrel) HQ HJi Es HB) as (Hmono & s2' & next2 & He & HR & Hn).
  destruct (exec_steps n id c _ _ He Hid g2 (shared g2) (w_priv (workers g2 id)) (w_input (workers g2 id)) b0) as (g2' & Hr & Hm).
  - rewrite (re_priv _ _ Hrel), (re_input _ _ Hrel). reflexivity.
  - rewrite <- Eq. destruct (workers g2 id); reflexivity.
  - reflexivity.
  - exists g2'. split; [exact Hr|].
    eapply related_moved; [exact Hrel|apply moved_set|exact Hm|exact HR|exact Hmono|..]; cbn; auto.
    destruct next as [a|r], next2 as [a2|r2]; cbn in Hn; try contradiction; [apply pc_rel_work; exact Hn|].
    subst r2. apply pc_rel_same; destruct r; reflexivity || discriminate.
Qed.

(** An error of the first machine is one of the second. *)
Lemma related_error n (g1 : global1) (g2 : global2) id c e : related g1 g2 -> (forall i, J (shared g2) (w_input (workers g2 i))) ->
  0 <= id < n -> wstep (body := b1) id c g1 = Err e ->
  exists g2', rtc (step (body := b2) n) g2 g2' /\ wstep (body := b2) id c g2' = Err e /\
    is_done g2' = is_done g1 /\ w_priv (workers g2' id) = w_priv (workers g1 id) /\
    ((forall a, w_pc (workers g1 id) <> Work a) /\ erase (w_pc (workers g2' id)) = erase (w_pc (workers g1 id)) \/
     exists a b, w_pc (workers g1 id) = Work a /\ w_pc (workers g2' id) = Work b /\ blame a b).
Proof using sim.
  intros Hrel HJ Hid Hs. destruct (w_pc (workers g1 id)) eqn:Ep;
    try (pose proof (related_protocol g1 g2 id c Hrel ltac:(congruence)) as Hp; rewrite Hs in Hp;
         destruct (wstep (body := b2) id c g2) as [g2'|e'] eqn:Es2; [contradiction|]; subst e';
         exists g2; split; [constructor|]; split; [exact Es2|];
         split; [symmetry; apply (re_done _ _ Hrel)|]; split; [symmetry; apply (re_priv _ _ Hrel)|];
         left; split; [congruence|]; rewrite <- Ep; symmetry; apply (re_pc _ _ Hrel id); fail).
  destruct (re_pc _ _ Hrel id) as [Ee HQ]. rewrite Ep in Ee. destruct (w_pc (workers g2 id)) as [] eqn:Eq; try discriminate.
  specialize (HQ b b0 Ep eq_refl). unfold wstep in Hs. rewrite Ep in Hs.
  apply bind_Err in Hs as [Es|([[[? ?] ?] ?] & _ & Es)]; [|discriminate].
  pose proof (HJ id) as HJi. rewrite <- (re_input _ _ Hrel id) in HJi.
  destruct (sm_err sim id c _ _ _ _ _ _ _ (re_shared _ _ Hrel) HQ HJi Es) as (s2' & f' & b' & He & Es2 & Hb).
  destruct (exec_steps n id c _ _ He Hid g2 (shared g2) (w_priv (workers g2 id)) (w_input (workers g2 id)) b0) as (g2' & Hr & Hm).
  - rewrite (re_priv _ _ Hrel), (re_input _ _ Hrel). reflexivity.
  - rewrite <- Eq. destruct (workers g2 id); reflexivity.
  - reflexivity.
  - exists g2'. split; [exact Hr|]. destruct Hm as [M1 M2 M3 M4 M5 M6 M7]. cbn [next_pc] in M1.
    split; [unfold wstep; rewrite M1, M3; cbn; rewrite Es2; reflexivity|].
    split; [rewrite M7; symmetry; apply (re_done _ _ Hrel)|]. split; [rewrite M1; reflexivity|].
    right. exists b, b'. split; [reflexivity|]. split; [rewrite M1; reflexivity|exact Hb].
Qed.
End sim.
End ParWhileSim.
