(* ===== verification/Pwsa.v ===== *)
(** * Parallel weighted search A* (src/src/pwsa.hpp)

    [do_work] of [pwsa_pc] and [pwsa_pcT<Number>] as the loop body of
    [parallel_while_pwsa]: every access to [states], which all workers share, is
    one step.  The two templates share their text up to the number type and a
    sanity check of the latter. *)

From S2P Require Import Prelude.
From S2P Require Import Interfaces.
From S2P Require Import Paths.
From S2P Require Import ParWhile.

Module Pwsa.
Import ParWhile.

Record vertpack := mkPack { distance : Z; pred : Z }.

#[export] Instance vertpack_eq_dec : EqDecision vertpack.
Proof. solve_decision. Defined.

Record pwsa_state := mkState { is_expanded : bool; gpred : vertpack; h : Z }.

(** The object the search returns. *)
Record PWSAResult := mkResult {
  n : Z;
  states : list pwsa_state;
  pebbles : option (list Z);
}.

#[export] Instance PWSAResult_SearchResult : SearchResult PWSAResult := {|
  Interfaces.is_expanded r vertex := s ← aget (states r) vertex; Ok (is_expanded s);
  Interfaces.predecessor r vertex := s ← aget (states r) vertex; Ok (pred (gpred s));
  Interfaces.g r vertex := s ← aget (states r) vertex; Ok (distance (gpred s));
  Interfaces.pebble r vertex :=
    match pebbles r with Some p => aget p vertex | None => Ok (-1) end;
|}.

(** The memory the workers share. *)
Record shared_state := mkShared {
  sh_states : list pwsa_state;
  sh_pebbles : option (list Z);
}.

(** The program points of [do_work].  [steps] is [steps_this_round]; [v] the
    vertex popped; [vd] is [vdistance]; [todo] the arcs of [v] the callback has
    not been called on, [nbr] the head of the current one and [mine] is
    [mine.distance]. *)
Inductive point :=
  | Loop (steps : Z)
  | TestExp (steps v : Z)                   (** [states[v].is_expanded.load ()] *)
  | CasExp (steps v : Z)                    (** [compare_exchange_strong (orig, true)] *)
  | LoadG (steps v : Z)                     (** [states[v].gpred.load ().distance] *)
  | Arcs (steps v vd : Z) (todo : list (Z * Z))
  | LoadN (steps v vd nbr mine : Z) (todo : list (Z * Z))   (** [states[nbr].gpred.load ()] *)
  | CasN (steps v vd nbr mine : Z) (gpred_nbr : vertpack) (todo : list (Z * Z))
                                            (** [compare_exchange_weak (gpred_nbr, mine)] *)
  | TestN (steps v vd nbr mine : Z) (todo : list (Z * Z))   (** [states[nbr].is_expanded.load ()] *)
  | HeurTest (steps v vd nbr mine : Z) (todo : list (Z * Z))  (** [states[nbr].h == -1] *)
  | HeurStore (steps v vd nbr mine : Z) (todo : list (Z * Z)) (** [states[nbr].h = heuristic (nbr)] *)
  | Insert (steps v vd nbr mine : Z) (todo : list (Z * Z)).   (** [frontier.insert (...)] *)

Section definitions.
Context {G H : Type} {gops : GraphOps G} {hops : HeapOps H}.
(** [Number], and whether a negative g-value stops the process. *)
Context (number : int_type) (check_negative : bool).
Context (graph : G) (heuristic : Z -> Z) (source destination : Z).
Context (split_cutoff poll_cutoff : Z).

(** [size]: 0 no work left, 1 don't split, 2 split; the private counter is
    [steps_since_load_balancing.mine ()]. *)
Definition size (counter : Z) (frontier : H) : Z * Z :=
  let sz := h_size frontier in
  if sz =? 0 then (0, 0)
  else if (split_cutoff <? sz) || ((split_cutoff <? counter) && (1 <? sz)) then (counter, 2)
  else (counter, 1).

Definition fork (counter : Z) (src dst : H) : res (Z * H * H) :=
  '(src, dst) ← h_split src dst;
  Ok (0, src, dst).

(** The arcs on which [for_each_neighbor_of (v, f)] calls [f], in order. *)
Definition arcs_of (v : Z) : res (list (Z * Z)) :=
  for_each_neighbor_of graph v (fun nbr weight acc => Ok (acc ++ [(nbr, weight)])) [].

Definition set_state (s : shared_state) (v : Z) (f : pwsa_state -> pwsa_state) : res shared_state :=
  a ← aget (sh_states s) v;
  sts ← aset (sh_states s) v (f a);
  Ok (mkShared sts (sh_pebbles s)).

Definition set_pebble (s : shared_state) (v id : Z) : res shared_state :=
  match sh_pebbles s with
  | Some p => p ← aset p v id; Ok (mkShared (sh_states s) (Some p))
  | None => Ok s
  end.

(** One step of [do_work]; [inr b] is [return b]. *)
Definition do_work (id : Z) (c : choice) (s : shared_state) (counter : Z) (frontier : H) (p : point) :
    res (shared_state * Z * H * (point + bool)) :=
  match p with
  | Loop steps =>
      if (steps <? poll_cutoff) && (0 <? h_size frontier) then
        '(v, frontier) ← h_delete_min frontier;
        Ok (s, counter, frontier, inl (TestExp (steps + 1) v))
      else
        counter ← add_int int32 counter steps;
        Ok (s, counter, frontier, inr false)
  | TestExp steps v =>
      a ← aget (sh_states s) v;
      Ok (s, counter, frontier, inl (if is_expanded a then Loop steps else CasExp steps v))
  | CasExp steps v =>
      a ← aget (sh_states s) v;
      if is_expanded a then Ok (s, counter, frontier, inl (Loop steps))
      else
        s ← set_state s v (fun a => mkState true (gpred a) (h a));
        s ← set_pebble s v id;
        Ok (s, counter, frontier, if v =? destination then inr true else inl (LoadG steps v))
  | LoadG steps v =>
      a ← aget (sh_states s) v;
      let vd := distance (gpred a) in
      _ ← (if check_negative && (vd <? 0) then Err Exited else Ok ());
      todo ← arcs_of v;
      Ok (s, counter, frontier, inl (Arcs steps v vd todo))
  | Arcs steps v vd [] => Ok (s, counter, frontier, inl (Loop steps))
  | Arcs steps v vd ((nbr, weight) :: todo) =>
      mine ← add_int number vd weight;
      Ok (s, counter, frontier, inl (LoadN steps v vd nbr mine todo))
  | LoadN steps v vd nbr mine todo =>
      a ← aget (sh_states s) nbr;
      Ok (s, counter, frontier,
          inl (if mine <? distance (gpred a) then CasN steps v vd nbr mine (gpred a) todo
               else Arcs steps v vd todo))
  | CasN steps v vd nbr mine gpred_nbr todo =>
      a ← aget (sh_states s) nbr;
      if negb (spurious c) && bool_decide (gpred a = gpred_nbr) then
        s ← set_state s nbr (fun a => mkState (is_expanded a) (mkPack mine v) (h a));
        Ok (s, counter, frontier, inl (TestN steps v vd nbr mine todo))
      else Ok (s, counter, frontier, inl (LoadN steps v vd nbr mine todo))
  | TestN steps v vd nbr mine todo =>
      a ← aget (sh_states s) nbr;
      Ok (s, counter, frontier,
          inl (if is_expanded a then Arcs steps v vd todo else HeurTest steps v vd nbr mine todo))
  | HeurTest steps v vd nbr mine todo =>
      a ← aget (sh_states s) nbr;
      Ok (s, counter, frontier,
          inl (if h a =? -1 then HeurStore steps v vd nbr mine todo
               else Insert steps v vd nbr mine todo))
  | HeurStore steps v vd nbr mine todo =>
      s ← set_state s nbr (fun a => mkState (is_expanded a) (gpred a) (heuristic nbr));
      Ok (s, counter, frontier, inl (Insert steps v vd nbr mine todo))
  | Insert steps v vd nbr mine todo =>
      a ← aget (sh_states s) nbr;
      f ← add_int number mine (h a);
      frontier ← h_insert f nbr frontier;
      Ok (s, counter, frontier, inl (Arcs steps v vd todo))
  end.

Definition pwsa_body : Body H Z shared_state point := {|
  input_new := h_new;
  size_input := size;
  fork_input := fork;
  body_start := Loop 0;
  body_step := do_work;
|}.

(** The code before [parallel_while_pwsa]: the table, the source's g-value,
    the memoised heuristic of the source and the initial frontier. *)
Definition setup (pebble : bool) : res (shared_state * H) :=
  let N := number_vertices graph in
  let s := mkShared (replicate (Z.to_nat N) (mkState false (mkPack (int_max number) (-1)) (-1)))
             (if pebble then Some (replicate (Z.to_nat N) (-1)) else None) in
  s ← set_state s source (fun a => mkState (is_expanded a) (mkPack 0 source) (h a));
  a ← aget (sh_states s) source;
  s ← (if h a =? -1 then set_state s source (fun a => mkState (is_expanded a) (gpred a) (heuristic source))
       else Ok s);
  a ← aget (sh_states s) source;
  initF ← h_insert (h a) source h_new;
  Ok (s, initF).

(** The state in which the workers start. *)
Definition start (leader : Z) (pebble : bool) : res (global H Z shared_state point) :=
  '(s, initF) ← setup pebble;
  Ok (initial (body := pwsa_body) leader initF 0 s).

(** The result, read off when [parallel_while_pwsa] returns. *)
Definition result (g : global H Z shared_state point) : PWSAResult :=
  mkResult (number_vertices graph) (sh_states (shared g)) (sh_pebbles (shared g)).
End definitions.

(** [pwsa_pc], over [int], and [pwsa_pcT<Number>] for [Number = long]. *)
Definition pwsa_pc {G H} {gops : GraphOps G} {hops : HeapOps H} :=
  start (G := G) (H := H) int32 false.
Definition pwsa_pcT {G H} {gops : GraphOps G} {hops : HeapOps H} :=
  start (G := G) (H := H) int64 true.

(** The structs and the result class of [pwsa_pcT]. *)
Definition vertpackT : Type := vertpack.
Definition pwsa_stateT : Type := pwsa_state.
Definition PWSAResultT : Type := PWSAResult.
End Pwsa.
