(* ===== verification/SimplePwsa.v ===== *)
(** * The simple parallel search (src/src/pwsa.hpp)

    [pwsa], the variant the driver calls simple_wPWSA*: [do_work] differs from
    [pwsa_pc] in how a neighbor is updated.  The shared table is the same. *)

From S2P Require Import Prelude.
From S2P Require Import Interfaces.
From S2P Require Import BinHeap.
From S2P Require Import WGraph.
From S2P Require Import Graph.
From S2P Require Import LifeGraph.
From S2P Require Import GridGraphs.
From S2P Require Import ParWhile.
From S2P Require Import Pwsa.

Module SimplePwsa.
Import ParWhile Pwsa.

(** The program points of [do_work]; [prev] is [prev_distance]. *)
Inductive spoint :=
  | SLoop (steps : Z)
  | STestExp (steps v : Z)
  | SCasExp (steps v : Z)
  | SLoadG (steps v : Z)
  | SArcs (steps v vd : Z) (todo : list (Z * Z))
  | SLoadPrev (steps v vd nbr mine : Z) (todo : list (Z * Z))    (** [nbr_prev = states[nbr].gpred.load ()] *)
  | SWhile (steps v vd nbr mine prev : Z) (nbr_prev : vertpack) (todo : list (Z * Z))
                                                (** [while (nbr_prev.distance == prev_distance)] *)
  | SReload (steps v vd nbr mine : Z) (todo : list (Z * Z))      (** [nbr_prev = states[nbr].gpred.load ()] *)
  | SCasN (steps v vd nbr mine : Z) (nbr_prev : vertpack) (todo : list (Z * Z))
                                                (** [compare_exchange_weak (nbr_prev, mine)] *)
  | STestN (steps v vd nbr mine : Z) (todo : list (Z * Z))
  | SHeurTest (steps v vd nbr mine : Z) (todo : list (Z * Z))
  | SHeurStore (steps v vd nbr mine : Z) (todo : list (Z * Z))
  | SInsert (steps v vd nbr mine : Z) (todo : list (Z * Z)).

Section definitions.
Context {G H : Type} {gops : GraphOps G} {hops : HeapOps H}.
Context (graph : G) (heuristic : Z -> Z) (source destination : Z).
Context (split_cutoff poll_cutoff : Z).

Definition simple_do_work (id : Z) (c : choice) (s : shared_state) (counter : Z) (frontier : H) (p : spoint) :
    res (shared_state * Z * H * (spoint + bool)) :=
  match p with
  | SLoop steps =>
      if (steps <? poll_cutoff) && (0 <? h_size frontier) then
        '(v, frontier) ← h_delete_min frontier;
        Ok (s, counter, frontier, inl (STestExp (steps + 1) v))
      else
        counter ← add_int int32 counter steps;
        Ok (s, counter, frontier, inr false)
  | STestExp steps v =>
      a ← aget (sh_states s) v;
      Ok (s, counter, frontier, inl (if is_expanded a then SLoop steps else SCasExp steps v))
  | SCasExp steps v =>
      a ← aget (sh_states s) v;
      if is_expanded a then Ok (s, counter, frontier, inl (SLoop steps))
      else
        s ← set_state s v (fun a => mkState true (gpred a) (h a));
        s ← set_pebble s v id;
        Ok (s, counter, frontier, if v =? destination then inr true else inl (SLoadG steps v))
  | SLoadG steps v =>
      a ← aget (sh_states s) v;
      todo ← arcs_of graph v;
      Ok (s, counter, frontier, inl (SArcs steps v (distance (gpred a)) todo))
  | SArcs steps v vd [] => Ok (s, counter, frontier, inl (SLoop steps))
  | SArcs steps v vd ((nbr, weight) :: todo) =>
      mine ← add_int int32 vd weight;
      Ok (s, counter, frontier, inl (SLoadPrev steps v vd nbr mine todo))
  | SLoadPrev steps v vd nbr mine todo =>
      a ← aget (sh_states s) nbr;
      Ok (s, counter, frontier,
          inl (SWhile steps v vd nbr mine (distance (gpred a)) (gpred a) todo))
  | SWhile steps v vd nbr mine prev nbr_prev todo =>
      Ok (s, counter, frontier,
          inl (if distance nbr_prev =? prev then SReload steps v vd nbr mine todo
               else SArcs steps v vd todo))
  | SReload steps v vd nbr mine todo =>
      a ← aget (sh_states s) nbr;
      Ok (s, counter, frontier, inl (SCasN steps v vd nbr mine (gpred a) todo))
  | SCasN steps v vd nbr mine nbr_prev todo =>
      a ← aget (sh_states s) nbr;
      if negb (spurious c) && bool_decide (gpred a = nbr_prev) then
        s ← set_state s nbr (fun a => mkState (is_expanded a) (mkPack mine v) (h a));
        Ok (s, counter, frontier, inl (STestN steps v vd nbr mine todo))
      else Ok (s, counter, frontier, inl (SArcs steps v vd todo))
  | STestN steps v vd nbr mine todo =>
      a ← aget (sh_states s) nbr;
      Ok (s, counter, frontier,
          inl (if is_expanded a then SArcs steps v vd todo else SHeurTest steps v vd nbr mine todo))
  | SHeurTest steps v vd nbr mine todo =>
      a ← aget (sh_states s) nbr;
      Ok (s, counter, frontier,
          inl (if h a =? -1 then SHeurStore steps v vd nbr mine todo
               else SInsert steps v vd nbr mine todo))
  | SHeurStore steps v vd nbr mine todo =>
      s ← set_state s nbr (fun a => mkState (is_expanded a) (gpred a) (heuristic nbr));
      Ok (s, counter, frontier, inl (SInsert steps v vd nbr mine todo))
  | SInsert steps v vd nbr mine todo =>
      a ← aget (sh_states s) nbr;
      f ← add_int int32 mine (h a);
      frontier ← h_insert f nbr frontier;
      Ok (s, counter, frontier, inl (SArcs steps v vd todo))
  end.

Definition simple_body : Body H Z shared_state spoint := {|
  input_new := h_new;
  size_input := size split_cutoff;
  fork_input := fork;
  body_start := SLoop 0;
  body_step := simple_do_work;
|}.

Definition simple_start (leader : Z) (pebble : bool) : res (global H Z shared_state spoint) :=
  '(s, initF) ← setup int32 graph heuristic source pebble;
  Ok (initial (body := simple_body) leader initF 0 s).

Definition simple_result (g : global H Z shared_state spoint) : PWSAResult :=
  mkResult (number_vertices graph) (sh_states (shared g)) (sh_pebbles (shared g)).
End definitions.

(** ** A run that loses the path *)

Module Run.
#[local] Existing Instances BinHeap.Heap_ops BinHeap.Heap_laws WGraph.graph_ops.
Abbreviation Heap := (BinHeap.Heap Z).
Abbreviation st := (global Heap Z shared_state spoint).
Import Sample (zero).

Definition body : Body Heap Z shared_state spoint := simple_body (H := Heap) Sample.graph zero 4 1 1.
Definition begin : res st := simple_start (H := Heap) Sample.graph zero 0 4 1 1 0 false.

(** Worker 0 alone takes 200 steps; no operation fails spuriously. *)
Definition sched : list (Z * choice) := repeat (0, mkChoice 1 false) 200.

Definition facts (r : res st) : bool :=
  match r with
  | Ok s =>
      let p := simple_result Sample.graph s in
      is_done s && bool_decide (predecessor p 4 = Ok 3) && bool_decide (predecessor p 3 = Ok 2) &&
      bool_decide (predecessor p 2 = Ok 3) && bool_decide (Interfaces.g p 0 = Ok 48284)
  | Err _ => false
  end.

Lemma last_facts : facts (s ← begin; run (body := body) sched s) = true.
Proof. vm_compute. reflexivity. Qed.

(** Predecessors that run in a circle give no path length. *)
Lemma circle (pred : Z -> res Z) wt fuel curr len :
  pred 4 = Ok 3 -> pred 3 = Ok 2 -> pred 2 = Ok 3 -> curr = 4 \/ curr = 3 \/ curr = 2 ->
  is_ok (WGraph.pathlen_loop int32 wt pred fuel 0 curr len) = false.
Proof.
  intros H4 H3 H2. revert curr len. induction fuel as [|fuel IH]; intros curr len Hc; [reflexivity|].
  cbn [WGraph.pathlen_loop]. destruct (Z.eqb_spec curr 0) as [->|Hne]; [lia|].
  destruct Hc as [ -> | [ -> | -> ] ]; rewrite ?H4, ?H3, ?H2, bind_ok_l; (destruct (wt _ _) as [w|]; [|reflexivity]);
    rewrite bind_ok_l; (destruct (add_int int32 len w) as [len'|]; [|reflexivity]); rewrite bind_ok_l;
    apply IH; auto.
Qed.

Definition source_at_zero (r : res st) : bool :=
  match r with
  | Ok s => bool_decide (Interfaces.g (simple_result Sample.graph s) 0 = Ok 0)
  | Err _ => false
  end.

Lemma begin_facts : source_at_zero begin = true.
Proof. vm_compute. reflexivity. Qed.

(** What the two evaluations say. *)
Lemma run_facts (b : res st) (l : list (Z * choice)) :
  Forall (fun e => valid 2 e = true) l ->
  facts (s ← b; run (body := body) l s) = true -> source_at_zero b = true ->
  exists g0 g, b = Ok g0 /\ rtc (step (body := body) 2) g0 g /\ is_done g = true /\
    Interfaces.g (simple_result Sample.graph g0) 0 = Ok 0 /\
    Interfaces.g (simple_result Sample.graph g) 0 = Ok 48284 /\
    forall fuel, is_ok (Graph.pathlen fuel Sample.graph (simple_result Sample.graph g) 0 4) = false.
Proof.
  intros Hv F Hz. destruct b as [g0|e]; [|discriminate]. rewrite bind_ok_l in F.
  destruct (run l g0) as [g|e] eqn:Er; [|discriminate]. exists g0, g.
  unfold facts in F. rewrite !andb_true_iff, !bool_decide_eq_true in F.
  destruct F as ((((Hd & P4) & P3) & P2) & Hg). apply bool_decide_eq_true in Hz.
  split; [reflexivity|]. split; [apply (run_rtc (body := body) 2 l); assumption|].
  split; [exact Hd|]. split; [exact Hz|]. split; [exact Hg|].
  intros fuel. apply circle; auto.
Qed.

Lemma sched_valid : Forall (fun e => valid 2 e = true) sched.
Proof.
  apply Forall_forall. intros e He. apply list_elem_of_In, repeat_spec in He as ->. reflexivity.
Qed.

(** C36: [pwsa] overwrites the g-value of a neighbor without comparing it with
    the new one.  On a map of five vertices a single worker raises the g-value
    of the source from 0 to 48284 and ends, flag set, with predecessors that
    run in a circle: no number of iterations of [pathlen] reaches the source. *)
Theorem simple_pwsa_breaks_path :
  exists g0 g, begin = Ok g0 /\ rtc (step (body := body) 2) g0 g /\ is_done g = true /\
    Interfaces.g (simple_result Sample.graph g0) 0 = Ok 0 /\
    Interfaces.g (simple_result Sample.graph g) 0 = Ok 48284 /\
    forall fuel, is_ok (Graph.pathlen fuel Sample.graph (simple_result Sample.graph g) 0 4) = false.
Proof.
  exact (run_facts begin sched sched_valid last_facts begin_facts).
Qed.
End Run.
End SimplePwsa.
