(* ===== verification/PwsaInv.v ===== *)
(** * The invariant of parallel weighted search

    The table of PWSA* at every reachable state of the machine of Pwsa.v: the
    g-values and predecessors form a tree of walks from the source, no vertex
    that has been reached is lost, and no vertex is expanded twice. *)

From S2P Require Import Prelude.
From S2P Require Import Interfaces.
From S2P Require Import Paths.
From S2P Require Import ParWhile.
From S2P Require Import Pwsa.

Module PwsaInv.
Import ParWhile Pwsa.

(** ** What a program point holds *)

(** The vertex the worker has won and is expanding. *)
Definition expanding (p : point) : option Z :=
  match p with
  | Loop _ | TestExp _ _ | CasExp _ _ => None
  | LoadG _ v | Arcs _ v _ _ | LoadN _ v _ _ _ _ | CasN _ v _ _ _ _ _ | TestN _ v _ _ _ _
  | HeurTest _ v _ _ _ _ | HeurStore _ v _ _ _ _ | Insert _ v _ _ _ _ => Some v
  end.

(** The vertex the worker has taken out of its frontier, or is about to put in. *)
Definition carried (p : point) : option Z :=
  match p with
  | TestExp _ v | CasExp _ v => Some v
  | TestN _ _ _ nbr _ _ | HeurTest _ _ _ nbr _ _ | HeurStore _ _ _ nbr _ _ | Insert _ _ _ nbr _ _ => Some nbr
  | _ => None
  end.

(** The heads of the arcs still to relax. *)
Definition heads (p : point) : list Z :=
  match p with
  | Arcs _ _ _ todo | TestN _ _ _ _ _ todo | HeurTest _ _ _ _ _ todo | HeurStore _ _ _ _ _ todo
  | Insert _ _ _ _ _ todo => todo.*1
  | LoadN _ _ _ nbr _ todo | CasN _ _ _ nbr _ _ todo => nbr :: todo.*1
  | _ => []
  end.

Definition at_load (p : point) : bool := match p with LoadG _ _ => true | _ => false end.

Section invariant.
Context {G H : Type} {gops : GraphOps G} {hops : HeapOps H} {hlaws : HeapLaws H}.
Context (gr : G) {glaws : GraphLaws gr}.
Context (number : int_type) (check_negative : bool) (heuristic : Z -> Z) (source destination : Z).
Context (split_cutoff poll_cutoff : Z).

Abbreviation N := (number_vertices gr).
Abbreviation inf := (int_max number).
Abbreviation edge := (arc gr).

(** The caller's obligations, as for the sequential search. *)
Context (Wmax Hmax : Z).
Context (Hsource : 0 <= source < N).
Context (Hheur : forall v, 0 <= v < N -> 0 <= heuristic v <= Hmax).
Context (Hweight : forall u v w, edge u v w -> w <= Wmax).
Context (Hfit : N * Wmax + Hmax < inf) (Hlong : inf <= LONG_MAX) (HW : 0 <= Wmax).
Context (Hsplit : 1 <= split_cutoff).

Definition D (s : shared_state) : Z -> Z := aview (fun a => distance (gpred a)) inf (sh_states s).
Definition Pr (s : shared_state) : Z -> Z := aview (fun a => pred (gpred a)) (-1) (sh_states s).
Definition E (s : shared_state) : Z -> bool := aview is_expanded false (sh_states s).
Definition Hv (s : shared_state) : Z -> Z := aview h (-1) (sh_states s).

(** The value [vd] that [v] had when it was loaded. *)
Definition loaded_ok (s : shared_state) (L v vd : Z) : Prop :=
  0 <= v < N /\ E s v = true /\ v <> destination /\ walk edge source v vd /\ D s v <= vd /\ vd + Wmax <= L.

Definition arc_ok (v vd nbr mine : Z) (todo : list (Z * Z)) : Prop :=
  (nbr, mine - vd) ∈ succs gr v /\ todo ⊆ succs gr v.

Definition point_ok (s : shared_state) (L : Z) (p : point) : Prop :=
  match p with
  | Loop _ => True
  | TestExp _ v | CasExp _ v => 0 <= v < N /\ D s v < inf
  | LoadG _ v => 0 <= v < N /\ E s v = true /\ v <> destination
  | Arcs _ v vd todo => loaded_ok s L v vd /\ todo ⊆ succs gr v
  | LoadN _ v vd nbr mine todo => loaded_ok s L v vd /\ arc_ok v vd nbr mine todo
  | CasN _ v vd nbr mine expected todo =>
      loaded_ok s L v vd /\ arc_ok v vd nbr mine todo /\ mine < distance expected
  | TestN _ v vd nbr mine todo | HeurTest _ v vd nbr mine todo | HeurStore _ v vd nbr mine todo =>
      loaded_ok s L v vd /\ arc_ok v vd nbr mine todo /\ D s nbr <= mine
  | Insert _ v vd nbr mine todo =>
      loaded_ok s L v vd /\ arc_ok v vd nbr mine todo /\ D s nbr <= mine /\ Hv s nbr = heuristic nbr
  end.

(** [act i] is where worker [i] is inside [do_work], [ent] the entries of all
    frontiers, [loaded] the expanded vertices whose g-value has been loaded. *)
Record pinv (s : shared_state) (act : Z -> option point) (ent : Z * Z -> Prop) (loaded : list Z) : Prop := {
  pv_len : Z.of_nat (length (sh_states s)) = N;
  pv_pebbles : forall p, sh_pebbles s = Some p -> Z.of_nat (length p) = N;
  pv_tree : tree_inv edge inf source (D s) (Pr s);
  pv_heur : forall x, Hv s x = -1 \/ Hv s x = heuristic x;
  pv_ent : forall f x, ent (f, x) -> 0 <= x < N /\ D s x < inf;
  pv_open : forall x, D s x < inf -> E s x = false ->
    (exists f, ent (f, x)) \/ exists i p, act i = Some p /\ carried p = Some x;
  pv_exp : forall x, E s x = true -> D s x < inf /\ (x <> destination -> forall u w, (u, w) ∈ succs gr x ->
    D s u < inf \/ exists i p, act i = Some p /\ expanding p = Some x /\ (at_load p = true \/ u ∈ heads p));
  pv_unique : forall i j p q v, act i = Some p -> act j = Some q ->
    expanding p = Some v -> expanding q = Some v -> i = j;
  pv_loaded : NoDup loaded /\ forall x, x ∈ loaded -> E s x = true /\
    forall i p, act i = Some p -> expanding p = Some x -> at_load p = false;
  pv_bound : forall x, D s x < inf -> D s x <= Wmax * Z.of_nat (length loaded);
  pv_point : forall i p, act i = Some p -> point_ok s (Wmax * Z.of_nat (length loaded)) p;
}.

Lemma pwsa_edge_nonneg u v w : edge u v w -> 0 <= w.
Proof. apply arc_nonneg. Qed.

Lemma E_range s act ent loaded x : pinv s act ent loaded -> E s x = true -> 0 <= x < N.
Proof.
  intros I0 Hx. unfold E, aview in Hx. destruct (aget (sh_states s) x) as [a|] eqn:Ea; [|discriminate].
  apply aget_bounds in Ea. rewrite (pv_len _ _ _ _ I0) in Ea. exact Ea.
Qed.

Lemma D_range s act ent loaded x : pinv s act ent loaded -> D s x < inf -> 0 <= x < N.
Proof.
  intros I0 Hx. unfold D, aview in Hx. destruct (aget (sh_states s) x) as [a|] eqn:Ea; [|lia].
  apply aget_bounds in Ea. rewrite (pv_len _ _ _ _ I0) in Ea. exact Ea.
Qed.

Lemma state_get s act ent loaded x : pinv s act ent loaded -> 0 <= x < N ->
  exists a, aget (sh_states s) x = Ok a /\ D s x = distance (gpred a) /\ Pr s x = pred (gpred a) /\
    E s x = is_expanded a /\ Hv s x = h a.
Proof.
  intros I0 Hx. destruct (aget_in (sh_states s) x) as [a Ea]; [rewrite (pv_len _ _ _ _ I0); exact Hx|].
  exists a. unfold D, Pr, E, Hv. rewrite !(aview_get _ _ _ _ _ Ea). auto.
Qed.

Lemma loaded_length s act ent loaded : pinv s act ent loaded -> Z.of_nat (length loaded) <= N.
Proof.
  intros I0. destruct (pv_loaded _ _ _ _ I0) as [Hnd Hl].
  pose proof (number_vertices_nonneg (g := gr)).
  pose proof (NoDup_range_length loaded N Hnd). specialize (H1 ltac:(intros x Hx; eapply E_range; eauto; apply Hl; exact Hx)).
  lia.
Qed.

(** Program points look at the table only through values that improve. *)
Lemma point_ok_mono s s' L L' p :
  point_ok s L p -> (forall x, D s' x <= D s x) -> (forall x, E s x = true -> E s' x = true) ->
  (forall x, Hv s x = heuristic x -> Hv s' x = heuristic x) -> L <= L' -> point_ok s' L' p.
Proof.
  intros Hp HD HE HH HL.
  assert (Hl : forall v vd, loaded_ok s L v vd -> loaded_ok s' L' v vd).
  { intros v vd (H1 & H2 & H3 & H4 & H5 & H6). specialize (HD v). split_and!; auto; lia. }
  assert (Hd : forall x y, D s x <= y -> D s' x <= y) by (intros x y Hx; specialize (HD x); lia).
  destruct p; cbn in *.
  - exact Logic.I.
  - destruct Hp as [H1 H2]. specialize (HD v). split; [exact H1|lia].
  - destruct Hp as [H1 H2]. specialize (HD v). split; [exact H1|lia].
  - destruct Hp as (H1 & H2 & H3). auto.
  - destruct Hp as (H1 & H2). auto.
  - destruct Hp as (H1 & H2). auto.
  - destruct Hp as (H1 & H2 & H3). auto.
  - destruct Hp as (H1 & H2 & H3). auto.
  - destruct Hp as (H1 & H2 & H3). auto.
  - destruct Hp as (H1 & H2 & H3). auto.
  - destruct Hp as (H1 & H2 & H3 & H4). auto.
Qed.

(** ** Moves that leave the table and the frontiers alone *)

Definition carriedO (o : option point) : option Z := o ≫= carried.
Definition expandingO (o : option point) : option Z := o ≫= expanding.

Lemma pinv_move s act ent ent' loaded id o :
  pinv s act ent loaded ->
  (forall f x, ent' (f, x) -> 0 <= x < N /\ D s x < inf) ->
  (forall f x, ent (f, x) -> E s x = false -> (exists f', ent' (f', x)) \/ carriedO o = Some x) ->
  (forall q, o = Some q -> point_ok s (Wmax * Z.of_nat (length loaded)) q) ->
  (forall p x, act id = Some p -> carried p = Some x -> E s x = false ->
     (exists f, ent' (f, x)) \/ carriedO o = Some x) ->
  (forall p x u, act id = Some p -> expanding p = Some x -> at_load p = true \/ u ∈ heads p ->
     D s u < inf \/ exists q, o = Some q /\ expanding q = Some x /\ (at_load q = true \/ u ∈ heads q)) ->
  (forall q v, o = Some q -> expanding q = Some v -> exists p, act id = Some p /\ expanding p = Some v) ->
  (forall q, o = Some q -> at_load q = false) ->
  pinv s (upd act id o) ent' loaded.
Proof.
  intros [L P T Hh En Op Ex Un Lo Bd Pt] Hent' Hent Hpt Hcar Hpend Hexp Hload. split; auto.
  - assert (Hid : forall x, carriedO o = Some x -> exists i p, upd act id o i = Some p /\ carried p = Some x).
    { intros x Ho. exists id. rewrite upd_eq. destruct o as [q|]; [|discriminate]. exists q. auto. }
    intros x Hx Hex. destruct (Op x Hx Hex) as [[f Hf]|(i & p & Hi & Hc)].
    + destruct (Hent f x Hf Hex) as [?|Ho]; auto.
    + destruct (decide (i = id)) as [->|Hne].
      * destruct (Hcar p x Hi Hc Hex) as [Hf|Ho]; auto.
      * right. exists i, p. rewrite upd_ne by exact Hne. auto.
  - intros x Hx. destruct (Ex x Hx) as [Hr Ha]. split; [exact Hr|]. intros Hd u w Hin.
    destruct (Ha Hd u w Hin) as [Hu|(i & p & Hi & Hep & Hp)]; [auto|].
    destruct (decide (i = id)) as [->|Hne].
    + destruct (Hpend p x u Hi Hep Hp) as [Hu|(q & -> & Hq)]; [auto|]. right. exists id, q. rewrite upd_eq. auto.
    + right. exists i, p. rewrite upd_ne by exact Hne. auto.
  - intros i j p q v. unfold upd. repeat case_decide; subst; auto.
    + intros Hp Hq Hep Heq. destruct (Hexp _ _ Hp Hep) as (p' & Hp' & Hep'). eauto.
    + intros Hp Hq Hep Heq. destruct (Hexp _ _ Hq Heq) as (p' & Hp' & Hep'). eauto.
    + intros Hp Hq Hep Heq. eauto.
  - destruct Lo as [Hnd Hlo]. split; [exact Hnd|]. intros x Hx. destruct (Hlo x Hx) as [H1 H2].
    split; [exact H1|]. intros i p. unfold upd. case_decide; subst; eauto.
  - intros i p. unfold upd. case_decide; eauto.
Qed.

(** The invariant looks at [act] and [ent] pointwise. *)
Lemma pinv_ext s act act' ent ent' loaded :
  pinv s act ent loaded -> (forall i, act' i = act i) -> (forall e, ent' e <-> ent e) ->
  pinv s act' ent' loaded.
Proof.
  intros [L P T Hh En Op Ex Un Lo Bd Pt] Ha He. split; auto.
  - intros f x Hin%He. eauto.
  - intros x Hx Hex. destruct (Op x Hx Hex) as [[f Hf]|(i & p & Hi & Hc)].
    + left. exists f. apply He; exact Hf.
    + right. exists i, p. rewrite Ha. auto.
  - intros x Hx. destruct (Ex x Hx) as [H1 H2]. split; [exact H1|]. intros Hd u w Hin.
    destruct (H2 Hd u w Hin) as [Hu|(i & p & Hi & Hp)]; [auto|]. right. exists i, p. rewrite Ha. auto.
  - intros i j p q v. rewrite !Ha. eauto.
  - destruct Lo as [H1 H2]. split; [exact H1|]. intros x Hx. destruct (H2 x Hx) as [H3 H4].
    split; [exact H3|]. intros i p. rewrite Ha. eauto.
  - intros i p. rewrite Ha. eauto.
Qed.

(** ** Moves that write the table *)

(** [states[v]] replaced by [f] of itself. *)
Lemma set_state_ok s act ent loaded v f a :
  pinv s act ent loaded -> aget (sh_states s) v = Ok a ->
  exists s', set_state s v f = Ok s' /\ sh_pebbles s' = sh_pebbles s /\
    length (sh_states s') = length (sh_states s) /\
    (forall y, D s' y = if decide (y = v) then distance (gpred (f a)) else D s y) /\
    (forall y, Pr s' y = if decide (y = v) then pred (gpred (f a)) else Pr s y) /\
    (forall y, E s' y = if decide (y = v) then is_expanded (f a) else E s y) /\
    (forall y, Hv s' y = if decide (y = v) then h (f a) else Hv s y).
Proof.
  intros I0 Ea. pose proof (aget_bounds _ _ _ Ea) as Hb. unfold set_state. run_res Ea.
  rewrite aset_in, bind_ok_l by exact Hb. eexists. split; [reflexivity|]. cbn.
  split; [reflexivity|]. split; [apply length_insert|].
  split_and!; intros y.
  - apply (aview_insert (fun a => distance (gpred a))); exact Hb.
  - apply (aview_insert (fun a => pred (gpred a))); exact Hb.
  - apply (aview_insert is_expanded); exact Hb.
  - apply (aview_insert h); exact Hb.
Qed.

(** The flag of [v] is won. *)
Lemma pinv_expand s s' act ent loaded id st v :
  pinv s act ent loaded -> act id = Some (CasExp st v) -> E s v = false ->
  Z.of_nat (length (sh_states s')) = N ->
  (forall p, sh_pebbles s' = Some p -> Z.of_nat (length p) = N) ->
  (forall y, D s' y = D s y) -> (forall y, Pr s' y = Pr s y) -> (forall y, Hv s' y = Hv s y) ->
  (forall y, E s' y = if decide (y = v) then true else E s y) ->
  pinv s' (upd act id (if v =? destination then None else Some (LoadG st v))) ent loaded.
Proof.
  intros I0 Hid Hv0 HL HP HD HPr HH HE. pose proof I0 as [L P T Hh En Op Ex Un Lo Bd Pt].
  assert (HE' : forall y, E s y = true -> E s' y = true) by (intros y Hy; rewrite HE; case_decide; auto).
  assert (Hnone : forall i p, act i = Some p -> expanding p <> Some v).
  { intros i p Hi Hp. pose proof (Pt i p Hi) as Hok.
    assert (E s v = true); [|congruence].
    destruct p; cbn in Hp, Hok; simplify_eq; unfold loaded_ok in Hok; tauto. }
  pose proof (Pt id _ Hid) as [Hvr Hvd].
  split; auto.
  - eapply tree_inv_ext; eauto.
  - intros x. rewrite HH. auto.
  - intros f x Hin. rewrite HD. eauto.
  - intros x. rewrite HD, HE. case_decide as Hx; [discriminate|]. intros H1 H2.
    destruct (Op x H1 H2) as [Hf|(i & p & Hi & Hc)]; [auto|].
    right. exists i, p. split; [|exact Hc]. rewrite upd_ne; [exact Hi|].
    intros ->. rewrite Hid in Hi. injection Hi as <-. cbn in Hc. congruence.
  - intros x. rewrite HE, HD. case_decide as Hx.
    + subst x. intros _. split; [exact Hvd|]. intros Hd u w Hin. right. exists id, (LoadG st v).
      rewrite upd_eq, (proj2 (Z.eqb_neq v destination) Hd). auto.
    + intros Hex. destruct (Ex x Hex) as [H1 H2]. split; [exact H1|]. intros Hd u w Hin.
      rewrite HD. destruct (H2 Hd u w Hin) as [Hu|(i & p & Hi & Hep & Hp)]; [auto|].
      right. exists i, p. split; [|auto]. rewrite upd_ne; [exact Hi|].
      intros ->. rewrite Hid in Hi. injection Hi as <-. discriminate.
  - intros i j p q x. unfold upd. repeat case_decide; subst; auto; [| |eauto];
      destruct (v =? destination); try discriminate.
    + intros [= <-] Hq [= <-] Hx. destruct (Hnone _ _ Hq Hx).
    + intros Hp [= <-] Hx [= <-]. destruct (Hnone _ _ Hp Hx).
  - destruct Lo as [Hnd Hlo]. split; [exact Hnd|]. intros x Hx. destruct (Hlo x Hx) as [H1 H2].
    split; [auto|]. intros i p. unfold upd. case_decide; [|eauto].
    destruct (v =? destination); [discriminate|]. intros [= <-] [= <-]. congruence.
  - intros x. rewrite HD. auto.
  - intros i p. unfold upd. case_decide.
    + destruct (Z.eqb_spec v destination) as [|Hd]; [discriminate|]. intros [= <-]. cbn.
      split; [exact Hvr|]. rewrite HE, decide_True by reflexivity. auto.
    + intros Hi. apply (point_ok_mono s _ _ _ _ (Pt i p Hi)); auto; [intros x; rewrite HD; lia| |lia].
      intros x Hx. rewrite HH. exact Hx.
Qed.

(** [vdistance] is loaded. *)
Lemma pinv_load s act ent loaded id st v :
  pinv s act ent loaded -> act id = Some (LoadG st v) ->
  pinv s (upd act id (Some (Arcs st v (D s v) (succs gr v)))) ent (v :: loaded).
Proof.
  intros I0 Hid. pose proof (pv_point _ _ _ _ I0 id _ Hid) as (Hvr & Hve & Hvd).
  pose proof I0 as [L P T Hh En Op Ex Un Lo Bd Pt]. destruct Lo as [Hnd Hlo].
  assert (Hlen : Wmax * Z.of_nat (length (v :: loaded)) = Wmax * Z.of_nat (length loaded) + Wmax)
    by (cbn; lia).
  assert (Hnin : v ∉ loaded).
  { intros Hin. destruct (Hlo v Hin) as [_ H2]. specialize (H2 id _ Hid eq_refl). discriminate. }
  split; auto.
  - intros x H1 H2. destruct (Op x H1 H2) as [Hf|(i & p & Hi & Hc)]; [auto|].
    right. exists i, p. split; [|exact Hc]. rewrite upd_ne; [exact Hi|].
    intros ->. rewrite Hid in Hi. injection Hi as <-. discriminate.
  - intros x Hx. destruct (Ex x Hx) as [H1 H2]. split; [exact H1|]. intros Hd u w Hin.
    destruct (H2 Hd u w Hin) as [Hu|(i & p & Hi & Hep & Hp)]; [auto|].
    right. destruct (decide (i = id)) as [->|Hne].
    + rewrite Hid in Hi. injection Hi as <-. cbn in Hep. injection Hep as <-.
      exists id. rewrite upd_eq. eexists. split; [reflexivity|]. split; [reflexivity|]. right. cbn.
      apply list_elem_of_fmap. exists (u, w). auto.
    + exists i, p. rewrite upd_ne by exact Hne. auto.
  - intros i j p q x. unfold upd. repeat case_decide; subst; auto; [| |eauto].
    + intros [= <-] Hq [= <-] Hx. apply (Un _ _ _ _ _ Hid Hq eq_refl Hx).
    + intros Hp [= <-] Hx [= <-]. apply (Un _ _ _ _ _ Hp Hid Hx eq_refl).
  - split; [constructor; assumption|]. intros x [->|Hx]%elem_of_cons.
    + split; [exact Hve|]. intros i p. unfold upd. case_decide as Hi; [intros [= <-]; reflexivity|].
      intros Hp Hx. destruct Hi. apply (Un _ _ _ _ _ Hp Hid Hx eq_refl).
    + destruct (Hlo x Hx) as [H1 H2]. split; [exact H1|]. intros i p. unfold upd.
      case_decide; [intros [= <-]; reflexivity|eauto].
  - intros x Hx. rewrite Hlen. specialize (Bd x Hx). lia.
  - intros i p. rewrite Hlen. unfold upd. case_decide.
    + intros [= <-]. cbn. destruct (Ex v Hve) as [Hr _]. specialize (Bd v Hr).
      split; [|set_solver]. split; [exact Hvr|]. split; [exact Hve|]. split; [exact Hvd|].
      split; [apply (ti_walk _ _ _ _ _ T); exact Hr|lia].
    + intros Hi. apply (point_ok_mono s s _ _ _ (Pt i p Hi)); auto; [intros; lia|lia].
Qed.

(** The compare-and-swap of [gpred] succeeds. *)
Lemma pinv_relax s s' act ent loaded id st v vd nbr mine expected todo :
  pinv s act ent loaded -> act id = Some (CasN st v vd nbr mine expected todo) ->
  mine < D s nbr ->
  Z.of_nat (length (sh_states s')) = N -> sh_pebbles s' = sh_pebbles s ->
  (forall y, D s' y = if decide (y = nbr) then mine else D s y) ->
  (forall y, Pr s' y = if decide (y = nbr) then v else Pr s y) ->
  (forall y, E s' y = E s y) -> (forall y, Hv s' y = Hv s y) ->
  pinv s' (upd act id (Some (TestN st v vd nbr mine todo))) ent loaded.
Proof.
  intros I0 Hid Hlt HL HP HD HPr HE HH. pose proof (loaded_length _ _ _ _ I0) as Hlen.
  pose proof (pv_point _ _ _ _ I0 id _ Hid) as (Hl & Ha & _).
  pose proof I0 as [L P T Hh En Op Ex Un Lo Bd Pt].
  pose proof Hl as (Hvr & Hve & Hvd & Hwalk & Hdv & Hroom). destruct Ha as [Harc Htodo].
  assert (He : edge v nbr (mine - vd)) by (split; assumption).
  pose proof (Hweight _ _ _ He) as Hw. pose proof (pwsa_edge_nonneg _ _ _ He).
  assert (HmL : mine <= Wmax * Z.of_nat (length loaded)) by lia.
  assert (Hmi : mine < inf) by (pose proof (Hheur source Hsource); nia).
  assert (Dmono : forall y, D s' y <= D s y) by (intros y; rewrite HD; case_decide; subst; lia).
  assert (Dfin : forall y, D s y < inf -> D s' y < inf) by (intros y Hy; specialize (Dmono y); lia).
  split; auto.
  - intros p. rewrite HP. auto.
  - eapply (tree_inv_relax edge pwsa_edge_nonneg inf source (D s) (Pr s) _ _ v nbr (mine - vd) vd); eauto;
      [lia|lia|intros y; rewrite HD; case_decide; lia].
  - intros x. rewrite HH. auto.
  - intros f x Hin. destruct (En f x Hin). auto.
  - intros x. rewrite HE. destruct (decide (x = nbr)) as [->|Hx].
    + intros _ _. right. exists id. rewrite upd_eq. eexists. split; reflexivity.
    + rewrite HD, decide_False by exact Hx. intros H1 H2.
      destruct (Op x H1 H2) as [Hf|(i & p & Hi & Hc)]; [auto|].
      right. exists i, p. split; [|exact Hc]. rewrite upd_ne; [exact Hi|].
      intros ->. rewrite Hid in Hi. injection Hi as <-. discriminate.
  - intros x. rewrite HE. intros Hx. destruct (Ex x Hx) as [H1 H2]. split; [auto|]. intros Hd u w Hin.
    destruct (decide (u = nbr)) as [->|Hu]; [left; rewrite HD, decide_True by reflexivity; exact Hmi|].
    destruct (H2 Hd u w Hin) as [Hr|(i & p & Hi & Hep & Hp)]; [auto|]. right.
    destruct (decide (i = id)) as [->|Hne]; [|exists i, p; rewrite upd_ne by exact Hne; auto].
    rewrite Hid in Hi. injection Hi as <-. exists id. rewrite upd_eq. eexists. split; [reflexivity|].
    split; [exact Hep|]. right. destruct Hp as [Hp|Hp]; [discriminate|]. cbn in Hp |- *.
    apply elem_of_cons in Hp as [?|Hp]; [contradiction|exact Hp].
  - intros i j p q x. unfold upd. repeat case_decide; subst; auto; [| |eauto].
    + intros [= <-] Hq [= <-] Hx. apply (Un _ _ _ _ _ Hid Hq eq_refl Hx).
    + intros Hp [= <-] Hx [= <-]. apply (Un _ _ _ _ _ Hp Hid Hx eq_refl).
  - destruct Lo as [Hnd Hlo]. split; [exact Hnd|]. intros x Hx. rewrite HE.
    destruct (Hlo x Hx) as [H1 H2]. split; [exact H1|]. intros i p. unfold upd.
    case_decide; [intros [= <-]; reflexivity|eauto].
  - intros x. rewrite HD. case_decide; auto.
  - intros i p. unfold upd. case_decide as Hi.
    + intros [= <-]. cbn. split; [|split; [split; assumption|rewrite HD, decide_True by reflexivity; lia]].
      specialize (Dmono v). unfold loaded_ok. rewrite HE. split; [exact Hvr|]. split; [exact Hve|]. split; [exact Hvd|].
      split; [exact Hwalk|lia].
    + intros Hp. apply (point_ok_mono s s' _ _ _ (Pt i p Hp)); auto; try lia.
      * intros x. rewrite HE. auto.
      * intros x. rewrite HH. auto.
Qed.

(** The heuristic of [nbr] is memoised. *)
Lemma pinv_memo s s' act ent loaded nbr :
  pinv s act ent loaded ->
  Z.of_nat (length (sh_states s')) = N -> sh_pebbles s' = sh_pebbles s ->
  (forall y, D s' y = D s y) -> (forall y, Pr s' y = Pr s y) -> (forall y, E s' y = E s y) ->
  (forall y, Hv s' y = if decide (y = nbr) then heuristic nbr else Hv s y) ->
  pinv s' act ent loaded.
Proof.
  intros I0 HL HP HD HPr HE HH. destruct I0 as [L P T Hh En Op Ex Un Lo Bd Pt]. split; auto.
  - intros p. rewrite HP. auto.
  - eapply tree_inv_ext; eauto.
  - intros x. rewrite HH. case_decide; subst; auto.
  - intros f x Hin. rewrite HD. eauto.
  - intros x. rewrite HD, HE. auto.
  - intros x. rewrite HE, HD. intros Hx. destruct (Ex x Hx) as [H1 H2]. split; [exact H1|].
    intros Hd u w Hin. rewrite HD. eauto.
  - destruct Lo as [Hnd Hlo]. split; [exact Hnd|]. intros x Hx. rewrite HE. auto.
  - intros x. rewrite HD. auto.
  - intros i p Hi. apply (point_ok_mono s s' _ _ _ (Pt i p Hi)); try lia.
    + intros x. rewrite HD. lia.
    + intros x. rewrite HE. auto.
    + intros x Hx. rewrite HH. case_decide; subst; auto.
Qed.

Lemma pinv_heur s s' act ent loaded id st v vd nbr mine todo :
  pinv s act ent loaded -> act id = Some (HeurStore st v vd nbr mine todo) ->
  Z.of_nat (length (sh_states s')) = N -> sh_pebbles s' = sh_pebbles s ->
  (forall y, D s' y = D s y) -> (forall y, Pr s' y = Pr s y) -> (forall y, E s' y = E s y) ->
  (forall y, Hv s' y = if decide (y = nbr) then heuristic nbr else Hv s y) ->
  pinv s' (upd act id (Some (Insert st v vd nbr mine todo))) ent loaded.
Proof.
  intros I0 Hid HL HP HD HPr HE HH.
  pose proof (pinv_memo s s' act ent loaded nbr I0 HL HP HD HPr HE HH) as I1.
  apply (pinv_move s' act ent ent); auto.
  - apply (pv_ent _ _ _ _ I1).
  - intros f x Hin _. left. eauto.
  - intros q [= <-]. pose proof (pv_point _ _ _ _ I1 id _ Hid) as (H1 & H2 & H3). cbn.
    split; [exact H1|]. split; [exact H2|]. split; [exact H3|].
    rewrite HH, decide_True by reflexivity. reflexivity.
  - intros p x Hp Hc _. rewrite Hid in Hp. injection Hp as <-. right. exact Hc.
  - intros p x u Hp He Hu. rewrite Hid in Hp. injection Hp as <-. right. eexists. split; [reflexivity|]. auto.
  - intros q x [= <-] Hx. eauto.
  - intros q [= <-]. reflexivity.
Qed.

(** A worker that holds no vertex stays that way. *)
Lemma pinv_idle s act ent loaded id :
  pinv s act ent loaded -> act id = None -> pinv s (upd act id None) ent loaded.
Proof.
  intros I0 Hid. apply (pinv_ext s act _ ent); [exact I0| |reflexivity].
  intros i. unfold upd. case_decide; congruence.
Qed.

(** An entry is taken out of a frontier. *)
Lemma pinv_pop s act (ent ent' : Z * Z -> Prop) loaded id st f v :
  pinv s act ent loaded -> act id = None \/ (exists st', act id = Some (Loop st')) ->
  (forall e, ent e <-> e = (f, v) \/ ent' e) ->
  pinv s (upd act id (Some (TestExp st v))) ent' loaded.
Proof.
  intros I0 Hid He.
  assert (Hno : forall p, act id = Some p -> carried p = None /\ expanding p = None).
  { intros p Hp. destruct Hid as [Hid|[st' Hid]]; rewrite Hid in Hp; [discriminate|injection Hp as <-; auto]. }
  apply (pinv_move s act ent); auto.
  - intros g x Hx. apply (pv_ent _ _ _ _ I0 g). apply He. auto.
  - intros g x Hx _. apply He in Hx as [[= -> ->]|Hx]; [right; reflexivity|left; eauto].
  - intros q [= <-]. apply (pv_ent _ _ _ _ I0 f). apply He. auto.
  - intros p x Hp Hc. destruct (Hno p Hp). congruence.
  - intros p x u Hp Hc. destruct (Hno p Hp). congruence.
  - intros q x [= <-]. discriminate.
  - intros q [= <-]. reflexivity.
Qed.

(** A vertex that turns out to be expanded is dropped; one that does not is
    kept. *)
Lemma pinv_test s act ent loaded id st v o :
  pinv s act ent loaded -> act id = Some (TestExp st v) \/ act id = Some (CasExp st v) ->
  E s v = true /\ (o = None \/ o = Some (Loop st)) \/ E s v = false /\ o = Some (CasExp st v) ->
  pinv s (upd act id o) ent loaded.
Proof.
  intros I0 Hid Ho.
  assert (Hp : forall p, act id = Some p -> carried p = Some v /\ expanding p = None /\ point_ok s (Wmax * Z.of_nat (length loaded)) p).
  { intros p Hp. pose proof (pv_point _ _ _ _ I0 id p Hp). destruct Hid as [Hid|Hid]; rewrite Hid in Hp; injection Hp as <-; auto. }
  assert (Hv0 : 0 <= v < N /\ D s v < inf).
  { destruct Hid as [Hid|Hid]; apply (Hp _ Hid). }
  apply (pinv_move s act ent ent); auto.
  - apply (pv_ent _ _ _ _ I0).
  - intros f x Hin _. eauto.
  - intros q ->. destruct Ho as [[_ [?|[= ->]]]|[_ [= ->]]]; [discriminate|exact Logic.I|exact Hv0].
  - intros p x Hpp Hc Hx. destruct (Hp p Hpp) as (Hc' & _). right.
    destruct Ho as [[? _]|[_ ->]]; [congruence|]. cbn. congruence.
  - intros p x u Hpp He. destruct (Hp p Hpp) as (_ & He' & _). congruence.
  - intros q x -> He. destruct Ho as [[_ [?|[= ->]]]|[_ [= ->]]]; discriminate.
  - intros q ->. destruct Ho as [[_ [?|[= ->]]]|[_ [= ->]]]; [discriminate|reflexivity|reflexivity].
Qed.

(** An arc that does not improve its head. *)
Lemma pinv_arc_keep s act ent loaded id st v vd nbr w todo :
  pinv s act ent loaded -> act id = Some (Arcs st v vd ((nbr, w) :: todo)) -> D s nbr <= vd + w ->
  pinv s (upd act id (Some (Arcs st v vd todo))) ent loaded.
Proof.
  intros I0 Hid Hle. pose proof (pv_point _ _ _ _ I0 id _ Hid) as [Hl Ht].
  assert (He : edge v nbr w) by (split; [apply Hl|apply Ht; left]).
  pose proof (Hweight _ _ _ He). pose proof (loaded_length _ _ _ _ I0). pose proof (Hheur source Hsource).
  apply (pinv_move s act ent ent); auto.
  - apply (pv_ent _ _ _ _ I0).
  - intros f x Hin _. eauto.
  - intros q [= <-]. split; [exact Hl|]. intros e Hin. apply Ht. right. exact Hin.
  - intros p x Hp. rewrite Hid in Hp. injection Hp as <-. discriminate.
  - intros p x u Hp Hx Hu. rewrite Hid in Hp. injection Hp as <-. destruct Hu as [?|Hu]; [discriminate|].
    cbn in Hu. apply elem_of_cons in Hu as [->|Hu].
    + left. destruct Hl as (_ & _ & _ & _ & _ & Hroom). nia.
    + right. eexists. split; [reflexivity|]. auto.
  - intros q x [= <-] Hx. eauto.
  - intros q [= <-]. reflexivity.
Qed.

(** An arc that does: the update of the table, and the new entry. *)
Lemma pinv_arc_update s s' act ent ent' loaded id st v vd nbr w todo f :
  pinv s act ent loaded -> act id = Some (Arcs st v vd ((nbr, w) :: todo)) -> vd + w < D s nbr ->
  Z.of_nat (length (sh_states s')) = N -> sh_pebbles s' = sh_pebbles s ->
  (forall y, D s' y = if decide (y = nbr) then vd + w else D s y) ->
  (forall y, Pr s' y = if decide (y = nbr) then v else Pr s y) ->
  (forall y, E s' y = E s y) -> (forall y, Hv s' y = Hv s y) ->
  (forall e, ent' e <-> e = (f, nbr) \/ ent e) ->
  pinv s' (upd act id (Some (Arcs st v vd todo))) ent' loaded.
Proof.
  intros I0 Hid Hlt HL HP HD HPr HE HH Hent. pose proof (pv_point _ _ _ _ I0 id _ Hid) as [Hl Ht].
  assert (Hin : (nbr, w) ∈ succs gr v) by (apply Ht; left).
  assert (He : edge v nbr w) by (split; [apply Hl|exact Hin]).
  set (cas := CasN st v vd nbr (vd + w) (mkPack (D s nbr) 0) todo).
  assert (I1 : pinv s (upd act id (Some cas)) ent loaded).
  { apply (pinv_move s act ent ent); auto.
    - apply (pv_ent _ _ _ _ I0).
    - intros f0 x Hx _. eauto.
    - intros q [= <-]. split; [exact Hl|]. split; [split|exact Hlt].
      + replace (vd + w - vd) with w by lia. exact Hin.
      + intros e Hx. apply Ht. right. exact Hx.
    - intros p x Hp. rewrite Hid in Hp. injection Hp as <-. discriminate.
    - intros p x u Hp Hx Hu. rewrite Hid in Hp. injection Hp as <-. destruct Hu as [?|Hu]; [discriminate|].
      right. eexists. split; [reflexivity|]. auto.
    - intros q x [= <-] Hx. eauto.
    - intros q [= <-]. reflexivity. }
  pose proof (pinv_relax s s' _ ent loaded id st v vd nbr (vd + w) _ todo I1 (upd_eq _ _ _) Hlt HL HP HD HPr HE HH) as I2.
  apply (pinv_ext s' (upd (upd (upd act id (Some cas)) id (Some (TestN st v vd nbr (vd + w) todo))) id
    (Some (Arcs st v vd todo))) _ ent').
  - apply (pinv_move s' _ ent ent'); auto.
    + intros f0 x Hx. apply Hent in Hx as [[= -> ->]|Hx]; [|apply (pv_ent _ _ _ _ I2 f0 x Hx)].
      split; [eapply arc_range; exact He|]. rewrite HD, decide_True by reflexivity.
      pose proof (Hweight _ _ _ He). pose proof (loaded_length _ _ _ _ I0). pose proof (Hheur source Hsource).
      destruct Hl as (_ & _ & _ & _ & _ & Hroom). nia.
    + intros f0 x Hx _. left. exists f0. apply Hent. auto.
    + intros q [= <-]. pose proof (pv_point _ _ _ _ I2 id _ (upd_eq _ _ _)) as (H1 & H2 & _).
      split; [exact H1|]. apply H2.
    + intros p x Hp Hc _. rewrite upd_eq in Hp. injection Hp as <-. injection Hc as <-. left. exists f. apply Hent. auto.
    + intros p x u Hp Hx Hu. rewrite upd_eq in Hp. injection Hp as <-. destruct Hu as [?|Hu]; [discriminate|].
      right. eexists. split; [reflexivity|]. auto.
    + intros q x [= <-] Hx. eexists. split; [apply upd_eq|]. exact Hx.
    + intros q [= <-]. reflexivity.
  - intros i. unfold upd. repeat case_decide; reflexivity.
  - reflexivity.
Qed.

(** The expansion of a vertex is over. *)
Lemma pinv_finish s act ent loaded id st v vd o :
  pinv s act ent loaded -> act id = Some (Arcs st v vd []) -> o = None \/ o = Some (Loop st) ->
  pinv s (upd act id o) ent loaded.
Proof.
  intros I0 Hid Ho. apply (pinv_move s act ent ent); auto.
  - apply (pv_ent _ _ _ _ I0).
  - intros f x Hin _. eauto.
  - intros q ->. destruct Ho as [?|[= ->]]; [discriminate|exact Logic.I].
  - intros p x Hp. rewrite Hid in Hp. injection Hp as <-. discriminate.
  - intros p x u Hp Hx Hu. rewrite Hid in Hp. injection Hp as <-.
    destruct Hu as [?|Hu]; [discriminate|inversion Hu].
  - intros q x -> Hx. destruct Ho as [?|[= ->]]; discriminate.
  - intros q ->. destruct Ho as [?|[= ->]]; [discriminate|reflexivity].
Qed.

(** ** One step of [do_work] *)

Abbreviation work := (do_work (H := H) number check_negative gr heuristic destination poll_cutoff).

Lemma arcs_of_succs v : 0 <= v < N -> arcs_of gr v = Ok (succs gr v).
Proof.
  intros Hvr. unfold arcs_of. rewrite for_each_law by exact Hvr.
  cut (forall (l acc : list (Z * Z)), foldM (fun acc '(u, w) => Ok (acc ++ [(u, w)])) acc l = Ok (acc ++ l)).
  { intros Hf. apply (Hf _ []). }
  induction l as [|[u w] l IH]; intros acc; cbn; [rewrite app_nil_r; reflexivity|].
  rewrite IH, <-(assoc_L (++)). reflexivity.
Qed.

Definition next_point (next : point + bool) : option point :=
  match next with inl q => Some q | inr _ => None end.

(** What a step of the body did; [rest] are the entries of the other
    frontiers. *)
Record stepped (s s' : shared_state) (act : Z -> option point) (rest : Z * Z -> Prop)
    (id : Z) (p : point) (next : point + bool) (l' : list (Z * Z)) : Prop := {
  sd_inv : exists loaded', pinv s' (upd act id (next_point next)) (fun e => e ∈ l' \/ rest e) loaded';
  sd_dist : forall x, D s' x <= D s x;
  sd_exp : forall x, E s x = true -> E s' x = true;
  sd_new : forall x, E s' x = true -> E s x = true \/ exists st, p = CasExp st x;
  sd_found : next = inr true -> E s' destination = true;
  sd_won : forall st x, p = CasExp st x -> E s' x = true;
}.

(** A step that changes neither the table nor the frontier. *)
Lemma stepped_move s act rest loaded id p next l :
  pinv s act (fun e => e ∈ l \/ rest e) loaded -> act id = Some p ->
  (forall q, next = inl q -> point_ok s (Wmax * Z.of_nat (length loaded)) q /\ at_load q = false /\
     (expanding q = expanding p \/ expanding q = None)) ->
  (forall x, carried p = Some x -> E s x = false -> carriedO (next_point next) = Some x) ->
  (forall x u, expanding p = Some x -> at_load p = true \/ u ∈ heads p ->
     D s u < inf \/ exists q, next = inl q /\ expanding q = Some x /\ u ∈ heads q) ->
  next <> inr true -> (forall st x, p = CasExp st x -> E s x = true) ->
  stepped s s act rest id p next l.
Proof.
  intros I0 Hid Hq Hc Hp Hn Hwon. split; auto; [|intros; lia].
  exists loaded. apply (pinv_move s act (fun e => e ∈ l \/ rest e)); auto.
  - apply (pv_ent _ _ _ _ I0).
  - intros f x Hin _. eauto.
  - intros q Hnq. destruct next as [q'|]; [|discriminate]. injection Hnq as <-. apply Hq; reflexivity.
  - intros p' x Hp' Hx Hex. rewrite Hid in Hp'. injection Hp' as <-. auto.
  - intros p' x u Hp' Hx Hu. rewrite Hid in Hp'. injection Hp' as <-.
    destruct (Hp x u Hx Hu) as [?|(q & -> & H1 & H2)]; [auto|]. right. exists q. auto.
  - intros q v Hnq Hv0. destruct next as [q'|]; [|discriminate]. injection Hnq as <-.
    destruct (Hq q' eq_refl) as (_ & _ & [He|He]); [|congruence]. exists p. split; [exact Hid|congruence].
  - intros q Hnq. destruct next as [q'|]; [|discriminate]. injection Hnq as <-. apply Hq; reflexivity.
Qed.

Definition work_ok (id : Z) (c : choice) s counter f p act rest : Prop :=
  exists s' counter' f' next l', work id c s counter f p = Ok (s', counter', f', next) /\
    h_rep f' l' /\ stepped s s' act rest id p next l'.

Lemma work_loop id c s counter f st act rest loaded l :
  pinv s act (fun e => e ∈ l \/ rest e) loaded -> act id = Some (Loop st) -> h_rep f l ->
  (work id c s counter f (Loop st) = Err SignedOverflow /\ in_int int32 (counter + st) = false) \/
  work_ok id c s counter f (Loop st) act rest.
Proof.
  intros I0 Hid R. unfold work_ok, do_work. rewrite (h_size_rep _ _ R).
  destruct ((st <? poll_cutoff) && (0 <? Z.of_nat (length l))) eqn:Ec.
  - right. apply andb_prop in Ec as [_ Hl%Z.ltb_lt].
    destruct (h_delete_min_rep f l R) as (q & v & f' & l' & Ed & R' & P & _); [intros ->; cbn in Hl; lia|].
    run_res Ed. do 5 eexists. split; [reflexivity|]. split; [exact R'|].
    assert (Hin : (q, v) ∈ l) by (rewrite P; left).
    split; auto; try discriminate; [|intros; lia]. exists loaded.
    apply (pinv_move s act (fun e => e ∈ l \/ rest e)); auto.
    + intros f0 x [Hx|Hx]; apply (pv_ent _ _ _ _ I0 f0); [left; rewrite P; right; exact Hx|right; exact Hx].
    + intros f0 x [Hx|Hx] _; [|left; exists f0; right; exact Hx].
      rewrite P, elem_of_cons in Hx. destruct Hx as [[= -> ->]|Hx]; [right; reflexivity|left; eauto].
    + intros q' [= <-]. apply (pv_ent _ _ _ _ I0 q). left; exact Hin.
    + intros p' x Hp'. rewrite Hid in Hp'. injection Hp' as <-. discriminate.
    + intros p' x u Hp'. rewrite Hid in Hp'. injection Hp' as <-. discriminate.
    + intros q' x [= <-]. discriminate.
    + intros q' [= <-]. reflexivity.
  - unfold add_int. destruct (in_int int32 (counter + st)) eqn:Ei; [right|left; auto].
    cbn. do 5 eexists. split; [reflexivity|]. split; [exact R|].
    apply (stepped_move s act rest loaded); auto; discriminate.
Qed.

Section step.
Context (id : Z) (c : choice) (s : shared_state) (counter : Z) (f : H) (l : list (Z * Z)).
Context (act : Z -> option point) (rest : Z * Z -> Prop) (loaded : list Z).
Context (I0 : pinv s act (fun e => e ∈ l \/ rest e) loaded) (R : h_rep f l).

Abbreviation ok := (fun p => work_ok id c s counter f p act rest).

(** Finish a step that only moves on. *)
Lemma move_ok p q :
  act id = Some p -> work id c s counter f p = Ok (s, counter, f, inl q) ->
  point_ok s (Wmax * Z.of_nat (length loaded)) q -> at_load q = false ->
  (expanding q = expanding p \/ expanding q = None) ->
  (forall x, carried p = Some x -> E s x = false -> carried q = Some x) ->
  (forall x u, expanding p = Some x -> at_load p = true \/ u ∈ heads p ->
     D s u < inf \/ expanding q = Some x /\ u ∈ heads q) ->
  (forall st x, p = CasExp st x -> E s x = true) ->
  ok p.
Proof.
  intros Hid Eq Hpt Hl He Hc Hp Hwon. do 5 eexists. split; [exact Eq|]. split; [exact R|].
  apply (stepped_move s act rest loaded); auto.
  - intros q' [= <-]. auto.
  - intros x u Hx Hu. destruct (Hp x u Hx Hu) as [?|[? ?]]; [auto|]. right. eauto.
Qed.

Lemma work_test st v : act id = Some (TestExp st v) -> ok (TestExp st v).
Proof.
  intros Hid. pose proof (pv_point _ _ _ _ I0 id _ Hid) as [Hvr Hvd].
  destruct (state_get _ _ _ _ v I0 Hvr) as (a & Ea & _ & _ & Xa & _).
  apply (move_ok _ (if is_expanded a then Loop st else CasExp st v)); auto; try discriminate.
  - cbn. run_res Ea. reflexivity.
  - destruct (is_expanded a); cbn; auto.
  - destruct (is_expanded a); reflexivity.
  - destruct (is_expanded a); auto.
  - intros x [= <-] Hx. rewrite Xa in Hx. rewrite Hx. reflexivity.
Qed.

Lemma work_cas_exp st v : act id = Some (CasExp st v) -> ok (CasExp st v).
Proof.
  intros Hid. pose proof (pv_point _ _ _ _ I0 id _ Hid) as [Hvr Hvd].
  destruct (state_get _ _ _ _ v I0 Hvr) as (a & Ea & Da & Pa & Xa & Ha).
  destruct (is_expanded a) eqn:Ex.
  - apply (move_ok _ (Loop st)); cbn; auto; try discriminate.
    + run_res Ea. rewrite Ex. reflexivity.
    + intros x [= <-] Hx. congruence.
    + intros st' x [= _ <-]. congruence.
  - destruct (set_state_ok s _ _ _ v (fun a => mkState true (gpred a) (h a)) a I0 Ea)
      as (s1 & E1 & P1 & L1 & D1 & Pr1 & X1 & H1). cbn in D1, Pr1, X1, H1.
    assert (exists s2, set_pebble s1 v id = Ok s2 /\ sh_states s2 = sh_states s1 /\
      forall p, sh_pebbles s2 = Some p -> Z.of_nat (length p) = N) as (s2 & E2 & S2 & P2).
    { unfold set_pebble. rewrite P1. pose proof (pv_pebbles _ _ _ _ I0) as Hp.
      destruct (sh_pebbles s) as [ps|] eqn:Eps.
      - specialize (Hp ps eq_refl). rewrite aset_in, bind_ok_l by lia. eexists. split; [reflexivity|].
        split; [reflexivity|]. cbn. intros p [= <-]. rewrite length_insert. exact Hp.
      - eexists. split; [reflexivity|]. split; [reflexivity|]. rewrite P1. discriminate. }
    assert (D2 : forall y, D s2 y = D s y).
    { intros y. unfold D. rewrite S2. fold (D s1 y). rewrite D1. case_decide; subst; auto. }
    assert (X2 : forall y, E s2 y = if decide (y = v) then true else E s y).
    { intros y. unfold E. rewrite S2. fold (E s1 y). apply X1. }
    do 5 eexists. split; [cbn; run_res Ea; rewrite Ex; run_res E1; run_res E2; reflexivity|].
    split; [exact R|]. split.
    + exists loaded. pose proof (pinv_expand s s2 act _ loaded id st v I0 Hid) as Hexp.
      assert (Hn : next_point (if v =? destination then inr true else inl (LoadG st v)) =
              if v =? destination then None else Some (LoadG st v)) by (destruct (v =? destination); reflexivity).
      rewrite Hn. apply Hexp; auto.
      * rewrite S2, L1. apply (pv_len _ _ _ _ I0).
      * intros y. unfold Pr. rewrite S2. fold (Pr s1 y). rewrite Pr1. case_decide; subst; auto.
      * intros y. unfold Hv. rewrite S2. fold (Hv s1 y). rewrite H1. case_decide; subst; auto.
    + intros x. rewrite D2. lia.
    + intros x Hx. rewrite X2. case_decide; auto.
    + intros x. rewrite X2. case_decide; [subst; eauto|auto].
    + destruct (Z.eqb_spec v destination) as [->|]; [|discriminate].
      intros _. rewrite X2, decide_True by reflexivity. reflexivity.
    + intros st' x [= _ <-]. rewrite X2, decide_True by reflexivity. reflexivity.
Qed.

Lemma work_load st v : act id = Some (LoadG st v) -> ok (LoadG st v).
Proof.
  intros Hid. pose proof (pv_point _ _ _ _ I0 id _ Hid) as (Hvr & Hve & Hvd).
  destruct (state_get _ _ _ _ v I0 Hvr) as (a & Ea & Da & _).
  pose proof (ti_nonneg edge pwsa_edge_nonneg inf source _ _ v (pv_tree _ _ _ _ I0)) as Hd0.
  do 5 eexists. split.
  - cbn. run_res Ea. rewrite (proj2 (Z.ltb_ge _ 0)) by lia. rewrite andb_false_r, bind_ok_l.
    run_res (arcs_of_succs v Hvr). reflexivity.
  - split; [exact R|]. split; auto; try discriminate; [|intros; lia].
    exists (v :: loaded). rewrite <-Da. apply (pinv_load s act _ loaded id st v I0 Hid).
Qed.

Lemma work_arcs st v vd todo : act id = Some (Arcs st v vd todo) -> ok (Arcs st v vd todo).
Proof.
  intros Hid. pose proof (pv_point _ _ _ _ I0 id _ Hid) as [Hl Ht].
  pose proof Hl as (Hvr & Hve & Hvd & Hwalk & Hdv & Hroom).
  destruct todo as [|[nbr w] todo].
  - apply (move_ok _ (Loop st)); cbn; auto; try discriminate.
    intros x u _ [?|Hu]; [discriminate|inversion Hu].
  - assert (Hin : (nbr, w) ∈ succs gr v) by (apply Ht; left).
    assert (He : edge v nbr w) by (split; assumption).
    pose proof (Hweight _ _ _ He). pose proof (pwsa_edge_nonneg _ _ _ He).
    pose proof (loaded_length _ _ _ _ I0). pose proof (walk_nonneg edge pwsa_edge_nonneg _ _ _ Hwalk).
    pose proof (Hheur source Hsource).
    apply (move_ok _ (LoadN st v vd nbr (vd + w) todo)); cbn; auto; try discriminate.
    + rewrite add_int_in, bind_ok_l by (unfold int_min; nia). reflexivity.
    + split; [exact Hl|]. split; [replace (vd + w - vd) with w by lia; exact Hin|].
      intros e Hin'. apply Ht. right. exact Hin'.
    + intros x u Hx [?|Hu]; [discriminate|auto].
Qed.

Lemma work_load_n st v vd nbr mine todo :
  act id = Some (LoadN st v vd nbr mine todo) -> ok (LoadN st v vd nbr mine todo).
Proof.
  intros Hid. pose proof (pv_point _ _ _ _ I0 id _ Hid) as [Hl Ha].
  pose proof Hl as (Hvr & Hve & Hvd & Hwalk & Hdv & Hroom). destruct Ha as [Harc Htodo].
  assert (He : edge v nbr (mine - vd)) by (split; assumption).
  pose proof (Hweight _ _ _ He). pose proof (loaded_length _ _ _ _ I0). pose proof (Hheur source Hsource).
  destruct (state_get _ _ _ _ nbr I0 (arc_range _ _ _ _ He)) as (a & Ea & Da & _).
  apply (move_ok _ (if mine <? distance (gpred a) then CasN st v vd nbr mine (gpred a) todo
                    else Arcs st v vd todo)); auto; try discriminate.
  - cbn. run_res Ea. reflexivity.
  - destruct (Z.ltb_spec mine (distance (gpred a))); cbn; auto. split_and!; auto. split; auto.
  - destruct (mine <? _); reflexivity.
  - destruct (mine <? _); auto.
  - intros x u Hx [?|Hu]; [discriminate|].
    destruct (Z.ltb_spec mine (distance (gpred a))); [right; auto|].
    cbn in Hu. apply elem_of_cons in Hu as [->|Hu]; [left; nia|right; auto].
Qed.

Lemma work_cas_n st v vd nbr mine expected todo :
  act id = Some (CasN st v vd nbr mine expected todo) -> ok (CasN st v vd nbr mine expected todo).
Proof.
  intros Hid. pose proof (pv_point _ _ _ _ I0 id _ Hid) as (Hl & Ha & Hlt).
  assert (He : edge v nbr (mine - vd)) by (destruct Hl, Ha; split; assumption).
  destruct (state_get _ _ _ _ nbr I0 (arc_range _ _ _ _ He)) as (a & Ea & Da & Pa & Xa & Hha).
  destruct (negb (spurious c) && bool_decide (gpred a = expected)) eqn:Ec.
  - apply andb_prop in Ec as [Es%negb_true_iff Ec%bool_decide_eq_true_1]. subst expected.
    destruct (set_state_ok s _ _ _ nbr (fun a => mkState (is_expanded a) (mkPack mine v) (h a)) a I0 Ea)
      as (s1 & E1 & P1 & L1 & D1 & Pr1 & X1 & H1). cbn in D1, Pr1, X1, H1.
    do 5 eexists. split.
    { cbn. run_res Ea. rewrite Es, bool_decide_eq_true_2 by reflexivity. cbn. run_res E1. reflexivity. }
    split; [exact R|].
    assert (X1' : forall y, E s1 y = E s y) by (intros y; rewrite X1; case_decide; subst; auto).
    split.
    + exists loaded. apply (pinv_relax s s1 act _ loaded id st v vd nbr mine (gpred a) todo); auto.
      * rewrite Da. exact Hlt.
      * rewrite L1. apply (pv_len _ _ _ _ I0).
      * intros y. rewrite H1. case_decide; subst; auto.
    + intros x. rewrite D1. case_decide; subst; lia.
    + intros x. rewrite X1'. auto.
    + intros x. rewrite X1'. auto.
    + discriminate.
    + discriminate.
  - apply (move_ok _ (LoadN st v vd nbr mine todo)); auto; try discriminate.
    + cbn. run_res Ea. rewrite Ec. reflexivity.
    + cbn. auto.
    + intros x u Hx [?|Hu]; [discriminate|auto].
Qed.

Lemma work_test_n st v vd nbr mine todo :
  act id = Some (TestN st v vd nbr mine todo) -> ok (TestN st v vd nbr mine todo).
Proof.
  intros Hid. pose proof (pv_point _ _ _ _ I0 id _ Hid) as (Hl & Ha & Hd).
  assert (He : edge v nbr (mine - vd)) by (destruct Hl, Ha; split; assumption).
  destruct (state_get _ _ _ _ nbr I0 (arc_range _ _ _ _ He)) as (a & Ea & Da & Pa & Xa & Hha).
  apply (move_ok _ (if is_expanded a then Arcs st v vd todo else HeurTest st v vd nbr mine todo)); auto; try discriminate.
  - cbn. run_res Ea. reflexivity.
  - destruct (is_expanded a); cbn; auto. split; [exact Hl|]. destruct Ha; assumption.
  - destruct (is_expanded a); reflexivity.
  - destruct (is_expanded a); auto.
  - intros x [= <-] Hx. rewrite Xa in Hx. rewrite Hx. reflexivity.
  - intros x u Hx [?|Hu]; [discriminate|]. right. destruct (is_expanded a); auto.
Qed.

Lemma work_heur_test st v vd nbr mine todo :
  act id = Some (HeurTest st v vd nbr mine todo) -> ok (HeurTest st v vd nbr mine todo).
Proof.
  intros Hid. pose proof (pv_point _ _ _ _ I0 id _ Hid) as (Hl & Ha & Hd).
  assert (He : edge v nbr (mine - vd)) by (destruct Hl, Ha; split; assumption).
  destruct (state_get _ _ _ _ nbr I0 (arc_range _ _ _ _ He)) as (a & Ea & Da & Pa & Xa & Hha).
  apply (move_ok _ (if h a =? -1 then HeurStore st v vd nbr mine todo else Insert st v vd nbr mine todo)); auto; try discriminate.
  - cbn. run_res Ea. reflexivity.
  - destruct (Z.eqb_spec (h a) (-1)) as [Eh|Eh]; cbn; auto.
    split; [exact Hl|]. split; [exact Ha|]. split; [exact Hd|].
    destruct (pv_heur _ _ _ _ I0 nbr); [congruence|assumption].
  - destruct (h a =? -1); reflexivity.
  - destruct (h a =? -1); auto.
  - intros x [= <-] _. destruct (h a =? -1); reflexivity.
  - intros x u Hx [?|Hu]; [discriminate|]. right. destruct (h a =? -1); auto.
Qed.

Lemma work_heur_store st v vd nbr mine todo :
  act id = Some (HeurStore st v vd nbr mine todo) -> ok (HeurStore st v vd nbr mine todo).
Proof.
  intros Hid. pose proof (pv_point _ _ _ _ I0 id _ Hid) as (Hl & Ha & Hd).
  assert (He : edge v nbr (mine - vd)) by (destruct Hl, Ha; split; assumption).
  destruct (state_get _ _ _ _ nbr I0 (arc_range _ _ _ _ He)) as (a & Ea & Da & Pa & Xa & Hha).
  destruct (set_state_ok s _ _ _ nbr (fun a => mkState (is_expanded a) (gpred a) (heuristic nbr)) a I0 Ea)
    as (s1 & E1 & P1 & L1 & D1 & Pr1 & X1 & H1). cbn in D1, Pr1, X1, H1.
  assert (D1' : forall y, D s1 y = D s y) by (intros y; rewrite D1; case_decide; subst; auto).
  assert (X1' : forall y, E s1 y = E s y) by (intros y; rewrite X1; case_decide; subst; auto).
  do 5 eexists. split; [cbn; run_res E1; reflexivity|]. split; [exact R|]. split.
  - exists loaded. apply (pinv_heur s s1 act _ loaded id st v vd nbr mine todo); auto.
    + rewrite L1. apply (pv_len _ _ _ _ I0).
    + intros y. rewrite Pr1. case_decide; subst; auto.
  - intros x. rewrite D1'. lia.
  - intros x. rewrite X1'. auto.
  - intros x. rewrite X1'. auto.
  - discriminate.
  - discriminate.
Qed.

Lemma work_insert st v vd nbr mine todo :
  act id = Some (Insert st v vd nbr mine todo) -> ok (Insert st v vd nbr mine todo).
Proof.
  intros Hid. pose proof (pv_point _ _ _ _ I0 id _ Hid) as (Hl & Ha & Hd & Hh).
  pose proof Hl as (Hvr & Hve & Hvd & Hwalk & Hdv & Hroom). destruct Ha as [Harc Htodo].
  assert (He : edge v nbr (mine - vd)) by (split; assumption).
  pose proof (arc_range _ _ _ _ He) as Hnr.
  destruct (state_get _ _ _ _ nbr I0 Hnr) as (a & Ea & Da & Pa & Xa & Hha).
  pose proof (Hweight _ _ _ He). pose proof (pwsa_edge_nonneg _ _ _ He). pose proof (Hheur nbr Hnr).
  pose proof (loaded_length _ _ _ _ I0). pose proof (walk_nonneg edge pwsa_edge_nonneg _ _ _ Hwalk).
  assert (Hm : 0 <= mine <= N * Wmax) by nia.
  destruct (h_insert_rep f l (mine + h a) nbr R) as (f' & Ei & R'); [rewrite <-Hha, Hh; lia|].
  do 5 eexists. split.
  - cbn. run_res Ea. rewrite add_int_in, bind_ok_l by (rewrite <-Hha, Hh; unfold int_min; lia).
    run_res Ei. reflexivity.
  - split; [exact R'|]. split; auto; try discriminate; [|intros; lia]. exists loaded.
    apply (pinv_move s act (fun e => e ∈ l \/ rest e)); auto.
    + intros f0 x [Hx|Hx]; [|apply (pv_ent _ _ _ _ I0 f0); right; exact Hx].
      apply elem_of_cons in Hx as [[= -> ->]|Hx]; [split; [exact Hnr|lia]|].
      apply (pv_ent _ _ _ _ I0 f0); left; exact Hx.
    + intros f0 x [Hx|Hx] _; left; exists f0; [left; right; exact Hx|right; exact Hx].
    + intros q [= <-]. cbn. auto.
    + intros p x Hp Hc _. rewrite Hid in Hp. injection Hp as <-. cbn in Hc. injection Hc as <-.
      left. eexists. left; left.
    + intros p x u Hp Hx [Hu|Hu]; rewrite Hid in Hp; injection Hp as <-; [discriminate|].
      right. eexists. split; [reflexivity|]. auto.
    + intros q x [= <-] Hx. eauto.
    + intros q [= <-]. reflexivity.
Qed.

(** The whole of [do_work]: a step succeeds and keeps the invariant; the
    only error is the overflow of the private step counter. *)
Lemma work_step_ok p :
  act id = Some p ->
  (exists st, p = Loop st /\ work id c s counter f p = Err SignedOverflow /\
     in_int int32 (counter + st) = false) \/
  ok p.
Proof.
  destruct p; intros Hid; [|right..].
  - destruct (work_loop id c s counter f steps act rest loaded l I0 Hid R) as [[H1 H2]|?]; [left; eauto|auto].
  - apply work_test; exact Hid.
  - apply work_cas_exp; exact Hid.
  - apply work_load; exact Hid.
  - apply work_arcs; exact Hid.
  - apply work_load_n; exact Hid.
  - apply work_cas_n; exact Hid.
  - apply work_test_n; exact Hid.
  - apply work_heur_test; exact Hid.
  - apply work_heur_store; exact Hid.
  - apply work_insert; exact Hid.
Qed.
End step.

(** ** The callbacks satisfy the protocol's laws *)

#[local] Instance body : Body H Z shared_state point :=
  pwsa_body number check_negative gr heuristic destination split_cutoff poll_cutoff.

Lemma work_rep id c s counter f p s' counter' f' next l :
  h_rep f l -> work id c s counter f p = Ok (s', counter', f', next) -> exists l', h_rep f' l'.
Proof.
  intros R Hw. destruct p; cbn in Hw.
  - destruct (_ && _) eqn:Ec; [|inv_res; eauto].
    apply andb_prop in Ec as [_ Ec%Z.ltb_lt]. rewrite (h_size_rep _ _ R) in Ec.
    destruct (h_delete_min_rep f l R) as (q & v & f1 & l' & Ed & R' & _); [intros ->; cbn in Ec; lia|].
    rewrite Ed, bind_ok_l in Hw. injection Hw as <- <- <- <-. eauto.
  - inv_res. eauto.
  - apply bind_Ok in Hw as (a & _ & Hw). destruct (is_expanded a); inv_res; eauto.
  - inv_res. eauto.
  - destruct todo as [|[nbr w] todo]; inv_res; eauto.
  - inv_res. eauto.
  - apply bind_Ok in Hw as (a & _ & Hw). destruct (_ && _); inv_res; eauto.
  - inv_res. eauto.
  - inv_res. eauto.
  - inv_res. eauto.
  - apply bind_Ok in Hw as (a & _ & Hw). apply bind_Ok in Hw as (q & Hq & Hw).
    apply bind_Ok in Hw as (f1 & Hf & Hw). injection Hw as <- <- <- <-.
    apply add_int_Ok in Hq as [-> Hq].
    destruct (h_insert_rep f l (mine + h a) nbr R) as (f2 & Ei & R'); [lia|].
    rewrite Ei in Hf. injection Hf as <-. eauto.
Qed.

#[local] Instance laws : BodyLaws H Z shared_state point (Z * Z) (body := body).
Proof.
  refine {| rep := h_rep |}.
  - apply h_new_rep.
  - intros counter f l R. cbn. unfold size. rewrite (h_size_rep _ _ R).
    destruct (Z.eqb_spec (Z.of_nat (length l)) 0) as [Hl|Hl].
    + split; [intros _; apply length_zero_iff_nil; lia|reflexivity].
    + split; [|intros ->; cbn in Hl; lia]. unfold SIZE_EMPTY. destruct (_ || _); discriminate.
  - intros counter f. cbn. unfold size. destruct (_ =? _); [cbn; lia|]. destruct (_ || _); cbn; lia.
  - intros counter f l R. cbn. unfold size. rewrite (h_size_rep _ _ R).
    destruct (Z.eqb_spec (Z.of_nat (length l)) 0) as [Hl|Hl]; [discriminate|].
    destruct (_ || _) eqn:Eo; [|discriminate]. intros _.
    apply orb_prop in Eo as [Eo%Z.ltb_lt|Eo]; [lia|].
    apply andb_prop in Eo as [_ Eo%Z.ltb_lt]. lia.
  - intros counter f o l R Ro Hl. cbn. unfold fork.
    destruct (h_split_rep f o l R Ro ltac:(lia)) as (f' & o' & l1 & l2 & Es & R1 & R2 & P & H1 & H2).
    run_res Es. exists 0, f', o', l1, l2. split; [reflexivity|]. auto.
  - intros id c s p f b s' p' f' next l R Hw. exact (work_rep id c s p f b s' p' f' next l R Hw).
Defined.

(** ** The invariant of the whole machine *)

Abbreviation state := (global H Z shared_state point).

Definition act_of (g : state) (i : Z) : option point :=
  match pc_of g i with Work p => Some p | _ => None end.

Definition entries (Fw Fm : Z -> list (Z * Z)) (e : Z * Z) : Prop :=
  (exists i, e ∈ Fw i) \/ (exists i, e ∈ Fm i).

Record ginv (g : state) (Fw Fm : Z -> list (Z * Z)) (loaded : list Z) : Prop := {
  gi_protocol : inv g Fw Fm;
  gi_table : pinv (shared g) (act_of g) (entries Fw Fm) loaded;
  gi_found : is_done g = true \/ (exists i, pc_of g i = SetDone) -> E (shared g) destination = true;
}.

Lemma act_of_work g i p : act_of g i = Some p <-> pc_of g i = Work p.
Proof. unfold act_of. destruct (pc_of g i); split; congruence. Qed.

Lemma flow_entries id Fw Fm Fw' Fm' e : flow id Fw Fm Fw' Fm' -> entries Fw' Fm' e <-> entries Fw Fm e.
Proof.
  intros [|He|j l1 l2 Hj Hm P H1 H2]; [reflexivity| |]; unfold entries.
  - split.
    + intros [[i Hi]|[i Hi]]; unfold upd in Hi; case_decide; subst; eauto. inversion Hi.
    + intros [[i Hi]|[i Hi]]; destruct (decide (i = id)) as [->|Hid].
      * rewrite He in Hi. inversion Hi.
      * left. exists i. rewrite upd_ne by exact Hid. exact Hi.
      * left. exists id. rewrite upd_eq. exact Hi.
      * right. exists i. rewrite upd_ne by exact Hid. exact Hi.
  - split.
    + intros [[i Hi]|[i Hi]]; unfold upd in Hi; case_decide; subst; eauto; left; exists id; rewrite <-P;
        apply elem_of_app; auto.
    + intros [[i Hi]|[i Hi]].
      * destruct (decide (i = id)) as [->|Hid].
        -- rewrite <-P in Hi. apply elem_of_app in Hi as [Hi|Hi].
           ++ left. exists id. rewrite upd_eq. exact Hi.
           ++ right. exists j. rewrite upd_eq. exact Hi.
        -- left. exists i. rewrite upd_ne by exact Hid. exact Hi.
      * right. destruct (decide (i = j)) as [->|Hij]; [rewrite Hm in Hi; inversion Hi|].
        exists i. rewrite upd_ne by exact Hij. exact Hi.
Qed.

(** Steps of the protocol leave the table alone. *)
Lemma ginv_protocol g g' Fw Fm loaded id c :
  ginv g Fw Fm loaded -> 0 <= id -> (forall p, pc_of g id <> Work p) -> wstep id c g = Ok g' ->
  shared g' = shared g /\ exists Fw' Fm', ginv g' Fw' Fm' loaded.
Proof.
  intros [I1 I2 I3] Hid Hw Hs.
  destruct (protocol_step g g' Fw Fm id c I1 Hid Hw Hs) as (Fw' & Fm' & I1' & Fl & [Fs Fo Fe Fd]).
  split; [exact Fs|]. exists Fw', Fm'.
  assert (Hact : forall j, j <> id -> act_of g' j = act_of g j).
  { intros j Hj. unfold act_of, pc_of. rewrite Fo by exact Hj. reflexivity. }
  assert (Hold : act_of g id = None).
  { unfold act_of. destruct (pc_of g id) eqn:Ep; auto. destruct (Hw b); reflexivity. }
  split; [exact I1'| |].
  - rewrite Fs. apply (pinv_ext _ (upd (act_of g) id (act_of g' id)) _ (entries Fw Fm)).
    + apply (pinv_move _ (act_of g) (entries Fw Fm)); auto; try congruence.
      * apply (pv_ent _ _ _ _ I2).
      * intros f x Hin _. eauto.
      * intros q Hq. apply act_of_work in Hq. rewrite (Fe _ Hq). exact Logic.I.
      * intros q v Hq. apply act_of_work in Hq. rewrite (Fe _ Hq). discriminate.
      * intros q Hq. apply act_of_work in Hq. rewrite (Fe _ Hq). reflexivity.
    + intros i. unfold upd. case_decide; subst; auto.
    + intros e. apply (flow_entries id). exact Fl.
  - rewrite Fs. intros [Hd|[i Hi]].
    + apply I3. destruct (Fd Hd) as [?|Hset]; [auto|]. right. exists id. exact Hset.
    + apply I3. right. exists i. destruct (decide (i = id)) as [->|Hne].
      * destruct (protocol_not_found g g' id c Hw Hs Hi).
      * unfold pc_of in *. rewrite <-Fo by exact Hne. exact Hi.
Qed.

(** Steps of the loop body. *)
Lemma ginv_work g g' Fw Fm loaded id c p :
  ginv g Fw Fm loaded -> pc_of g id = Work p -> wstep id c g = Ok g' ->
  (forall x, D (shared g') x <= D (shared g) x) /\
  (forall x, E (shared g) x = true -> E (shared g') x = true) /\
  (forall x, E (shared g') x = true -> E (shared g) x = true \/ exists st, p = CasExp st x) /\
  (forall st x, p = CasExp st x -> E (shared g') x = true) /\
  exists Fw' loaded', ginv g' Fw' Fm loaded'.
Proof.
  intros [I1 I2 I3] Ep Hs.
  set (rest := fun e => (exists i, i <> id /\ e ∈ Fw i) \/ (exists i, e ∈ Fm i)).
  assert (Hent : forall l e, entries (upd Fw id l) Fm e <-> e ∈ l \/ rest e).
  { intros l e. unfold entries, rest. split.
    - intros [[i Hi]|Hi]; [|auto]. unfold upd in Hi. case_decide; eauto.
    - intros [Hi|[(i & Hne & Hi)|Hi]]; [left; exists id; rewrite upd_eq; exact Hi| |auto].
      left. exists i. rewrite upd_ne by exact Hne. exact Hi. }
  assert (I2' : pinv (shared g) (act_of g) (fun e => e ∈ Fw id \/ rest e) loaded).
  { apply (pinv_ext _ (act_of g) _ (entries Fw Fm)); auto. intros e. rewrite <-Hent. unfold entries.
    split; (intros [[i Hi]|Hi]; [left|auto]); exists i; unfold upd in *; case_decide; subst; auto. }
  pose proof (proj2 (act_of_work g id p) Ep) as Hact.
  unfold wstep in Hs. fold (pc_of g id) in Hs. rewrite Ep in Hs.
  destruct (work_step_ok id c (shared g) (w_priv (workers g id)) (w_input (workers g id)) (Fw id)
    (act_of g) rest loaded I2' (pi_rep _ _ _ I1 id) p Hact)
    as [(st & _ & Er & _)|(s' & counter' & f' & next & l' & Er & R' & Hst)];
    cbn [body_step body pwsa_body] in Hs; rewrite Er in Hs; [discriminate|].
  rewrite bind_ok_l in Hs. injection Hs as <-. cbn [shared set_worker set_shared].
  destruct Hst as [[loaded' I4] Hd He Hn Hf Hwon]. split; [exact Hd|]. split; [exact He|].
  split; [exact Hn|]. split; [exact Hwon|].
  exists (upd Fw id l'), loaded'.
  pose proof (work_step g Fw Fm id p s' counter' f' next l' I1 Ep R') as I1'.
  split; [exact I1'| |].
  - cbn [shared set_worker set_shared]. eapply pinv_ext; [exact I4| |].
    + intros i. unfold act_of. rewrite set_worker_of. unfold upd. case_decide.
      * cbn. destruct next as [q|[]]; reflexivity.
      * reflexivity.
    + intros e. apply Hent.
  - cbn [shared set_worker set_shared is_done]. intros [Hd'|[i Hi]].
    + apply He, I3. auto.
    + rewrite set_worker_of in Hi. case_decide.
      * cbn in Hi. destruct next as [q|[]]; try discriminate. auto.
      * apply He, I3. right. exists i. exact Hi.
Qed.

(** Any step. *)
Lemma ginv_step n g g' Fw Fm loaded :
  ginv g Fw Fm loaded -> step n g g' ->
  (forall x, D (shared g') x <= D (shared g) x) /\
  (forall x, E (shared g) x = true -> E (shared g') x = true) /\
  exists Fw' Fm' loaded', ginv g' Fw' Fm' loaded'.
Proof.
  intros I0 (id & c & Hid & _ & Hs).
  destruct (pc_of g id) as [] eqn:Ep;
    try (destruct (ginv_protocol g g' Fw Fm loaded id c I0 ltac:(lia) ltac:(congruence) Hs) as (-> & Fw' & Fm' & I1);
         split; [intros; lia|]; split; [auto|]; eauto; fail).
  destruct (ginv_work g g' Fw Fm loaded id c b I0 Ep Hs) as (H1 & H2 & _ & _ & Fw' & loaded' & I1). eauto 6.
Qed.

(** The errors of the whole machine. *)
Lemma ginv_error g Fw Fm loaded id c e :
  ginv g Fw Fm loaded -> wstep id c g = Err e ->
  (e = AssertFailed /\ is_done g = true /\ pc_of g id = AssertSize 0) \/
  (e = SignedOverflow /\ exists st, pc_of g id = Work (Loop st) /\
     in_int int32 (w_priv (workers g id) + st) = false).
Proof.
  intros [I1 I2 I3] Hs.
  destruct (pc_of g id) as [] eqn:Ep;
    try (left; rewrite <-Ep; apply (protocol_error g Fw Fm id c e I1); [congruence|exact Hs]; fail).
  right.
  set (rest := fun e => (exists i, i <> id /\ e ∈ Fw i) \/ (exists i, e ∈ Fm i)).
  assert (I2' : pinv (shared g) (act_of g) (fun e => e ∈ Fw id \/ rest e) loaded).
  { apply (pinv_ext _ (act_of g) _ (entries Fw Fm)); auto. intros x. unfold entries, rest. split.
    - intros [Hi|[(i & _ & Hi)|Hi]]; eauto.
    - intros [[i Hi]|Hi]; [|auto]. destruct (decide (i = id)) as [->|Hne]; eauto. }
  pose proof (proj2 (act_of_work g id b) Ep) as Hact.
  unfold wstep in Hs. fold (pc_of g id) in Hs. rewrite Ep in Hs.
  destruct (work_step_ok id c (shared g) (w_priv (workers g id)) (w_input (workers g id)) (Fw id)
    (act_of g) rest loaded I2' (pi_rep _ _ _ I1 id) b Hact)
    as [(st & -> & Er & Hov)|(s' & counter' & f' & next & l' & Er & R' & Hst)];
    cbn [body_step body pwsa_body] in Hs; rewrite Er in Hs; [|discriminate].
  injection Hs as <-. split; [reflexivity|]. eauto.
Qed.

(** ** The initial state *)

Abbreviation init_table :=
  (replicate (Z.to_nat N) (mkState false (mkPack inf (-1)) (-1))).

Lemma init_view s : sh_states s = init_table ->
  (forall x, D s x = inf) /\ (forall x, E s x = false) /\ (forall x, Hv s x = -1).
Proof.
  intros Es. unfold D, E, Hv, aview. rewrite Es. split_and!; intros x;
    (destruct (aget init_table x) as [a|] eqn:Ea; [|reflexivity];
     apply aget_Ok in Ea as [_ [-> _]%lookup_replicate_1]; reflexivity).
Qed.

Lemma inf_pos : 0 < inf.
Proof. pose proof (Hheur source Hsource). pose proof (number_vertices_nonneg (g := gr)). nia. Qed.

(** The table and the frontier before the workers start. *)
Lemma setup_ok pebble :
  exists s f, setup (H := H) number gr heuristic source pebble = Ok (s, f) /\
    h_rep f [(heuristic source, source)] /\ (forall x, E s x = false) /\
    pinv s (fun _ => None) (fun e => e = (heuristic source, source)) [].
Proof.
  pose proof inf_pos as Hinf. pose proof (Hheur source Hsource) as Hs.
  pose proof (number_vertices_nonneg (g := gr)) as HN.
  set (s0 := mkShared init_table (if pebble then Some (replicate (Z.to_nat N) (-1)) else None)).
  destruct (init_view s0 eq_refl) as (D0 & E0 & H0).
  destruct (aget_in (sh_states s0) source) as [a Ea]; [cbn; rewrite length_replicate; lia|].
  pose proof (aget_bounds _ _ _ Ea) as Hb.
  assert (Ha : a = mkState false (mkPack inf (-1)) (-1)).
  { apply aget_Ok in Ea as [_ [-> _]%lookup_replicate_1]. reflexivity. }
  set (a1 := mkState false (mkPack 0 source) (-1)).
  set (a2 := mkState false (mkPack 0 source) (heuristic source)).
  set (s1 := mkShared (<[Z.to_nat source := a1]> (sh_states s0)) (sh_pebbles s0)).
  set (s2 := mkShared (<[Z.to_nat source := a2]> (sh_states s1)) (sh_pebbles s0)).
  assert (L1 : Z.of_nat (length (sh_states s1)) = N) by (cbn; rewrite length_insert, length_replicate; lia).
  assert (E1 : aget (sh_states s1) source = Ok a1)
    by (cbn; rewrite aget_insert, decide_True by (auto; exact Hb); reflexivity).
  assert (E2 : aget (sh_states s2) source = Ok a2)
    by (cbn; rewrite aget_insert, decide_True by (auto; rewrite length_insert; exact Hb); reflexivity).
  destruct (h_insert_rep h_new [] (heuristic source) source h_new_rep) as (f & Ef & R); [lia|].
  exists s2, f.
  assert (Hset : forall s v fn b, aget (sh_states s) v = Ok b ->
    set_state s v fn = Ok (mkShared (<[Z.to_nat v := fn b]> (sh_states s)) (sh_pebbles s))).
  { intros s v fn b Eb. unfold set_state. run_res Eb. rewrite aset_in by (eapply aget_bounds; eauto). reflexivity. }
  split; [|split; [exact R|]].
  { unfold setup. fold s0. cbv zeta. rewrite (Hset s0 source _ a Ea), bind_ok_l. rewrite Ha. cbn [is_expanded h].
    fold a1. fold s1. run_res E1. cbn [h a1]. rewrite Z.eqb_refl, (Hset s1 source _ a1 E1), bind_ok_l.
    cbn [is_expanded gpred a1]. fold a2. change (sh_pebbles s1) with (sh_pebbles s0). fold s2.
    run_res E2. cbn [h a2]. run_res Ef. reflexivity. }
  assert (Hview : forall {A} (fn : pwsa_state -> A) d y,
    aview fn d (sh_states s2) y = if decide (y = source) then fn a2 else aview fn d (sh_states s0) y).
  { intros A fn d y. cbn [sh_states s2]. rewrite aview_insert by lia. case_decide; [reflexivity|].
    cbn [sh_states s1]. rewrite aview_insert, decide_False by auto. reflexivity. }
  assert (D2 : forall y, D s2 y = if decide (y = source) then 0 else inf).
  { intros y. unfold D. rewrite (Hview Z (fun a => distance (gpred a))). case_decide; [reflexivity|apply D0]. }
  assert (X2 : forall y, E s2 y = false).
  { intros y. unfold E. rewrite (Hview bool is_expanded). case_decide; [reflexivity|apply E0]. }
  split; [exact X2|].
  assert (Honly : forall x, D s2 x < inf -> x = source) by (intros x; rewrite D2; case_decide; [auto|lia]).
  split.
  - cbn. rewrite !length_insert, length_replicate. lia.
  - cbn. destruct pebble; [|discriminate]. intros p [= <-]. rewrite length_replicate. lia.
  - apply tree_inv_init; [exact Hinf|rewrite D2, decide_True by reflexivity; reflexivity|].
    intros x Hx. rewrite D2, decide_False by exact Hx. lia.
  - intros x. unfold Hv. rewrite (Hview Z h). case_decide; [subst; right; reflexivity|left; apply H0].
  - intros q x [= -> ->]. split; [exact Hsource|]. rewrite D2, decide_True by reflexivity. exact Hinf.
  - intros x Hx _. rewrite (Honly x Hx). left. eauto.
  - intros x. rewrite X2. discriminate.
  - discriminate.
  - split; [constructor|]. intros x Hx. inversion Hx.
  - intros x Hx. rewrite (Honly x Hx), D2, decide_True by reflexivity. cbn. lia.
  - discriminate.
Qed.

Lemma start_ok leader pebble :
  exists g Fw Fm, start (H := H) number check_negative gr heuristic source destination split_cutoff poll_cutoff
      leader pebble = Ok g /\ ginv g Fw Fm [] /\ is_done g = false /\
    forall x, E (shared g) x = false.
Proof.
  destruct (setup_ok pebble) as (s & f & Es & R & Ex & I0).
  unfold start. rewrite Es, bind_ok_l. cbv beta iota.
  eexists _, _, _. split; [reflexivity|]. split; [|split; [reflexivity|exact Ex]].
  split; [apply protocol_initial; exact R| |].
  - eapply pinv_ext; [exact I0| |].
    + reflexivity.
    + intros e. unfold entries. split.
      * intros [[i Hi]|[i Hi]]; [|inversion Hi]. case_decide; [|inversion Hi].
        apply list_elem_of_singleton in Hi. exact Hi.
      * intros ->. left. exists leader. rewrite decide_True by reflexivity. left.
  - intros [Hd|[i Hi]]; discriminate.
Qed.

(** The invariant of every reachable state. *)
Lemma reachable_inv n g0 g leader pebble :
  start (H := H) number check_negative gr heuristic source destination split_cutoff poll_cutoff
    leader pebble = Ok g0 ->
  rtc (step n) g0 g -> exists Fw Fm loaded, ginv g Fw Fm loaded.
Proof.
  intros Hs Hr. destruct (start_ok leader pebble) as (g1 & Fw & Fm & E1 & I1 & _).
  rewrite Hs in E1. injection E1 as <-.
  apply (rtc_invariant (step n) (fun g => exists Fw Fm loaded, ginv g Fw Fm loaded) g0 g); [|exact Hr|eauto].
  intros a b (Fa & Ma & la & Ia) Hab. apply (ginv_step n a b Fa Ma la Ia Hab).
Qed.
End invariant.
End PwsaInv.
