(* ===== verification/PwsaSpec.v ===== *)
(** * What parallel weighted search promises

    The properties of [pwsa_pc] and [pwsa_pcT] at every state their workers can
    reach, for any number of workers and any interleaving. *)

From S2P Require Import Prelude.
From S2P Require Import Interfaces.
From S2P Require Import BinHeap.
From S2P Require Import Paths.
From S2P Require Import SearchSpec.
From S2P Require Import WGraph.
From S2P Require Import Graph.
From S2P Require Import LifeGraph.
From S2P Require Import GridGraphs.
From S2P Require Import ParWhile.
From S2P Require Import Pwsa.
From S2P Require Import PwsaInv.

Module PwsaSpec.
Import ParWhile Pwsa PwsaInv.

Section specs.
Context {G H : Type} {gops : GraphOps G} {hops : HeapOps H} {hlaws : HeapLaws H}.
Context (gr : G) {glaws : GraphLaws gr}.
Context (number : int_type) (check_negative : bool) (heuristic : Z -> Z) (source destination : Z).
Context (split_cutoff poll_cutoff Wmax Hmax : Z).
Context (pre : search_pre gr number heuristic source Wmax Hmax) (Hsplit : 1 <= split_cutoff).
Context (workers_count leader : Z) (pebble : bool).

#[local] Instance bd : Body H Z shared_state point :=
  pwsa_body number check_negative gr heuristic destination split_cutoff poll_cutoff.

Abbreviation edge := (arc gr).
Abbreviation begin :=
  (start (H := H) number check_negative gr heuristic source destination split_cutoff poll_cutoff leader pebble).
Abbreviation steps := (rtc (step workers_count)).
Abbreviation state := (global H Z shared_state point).
Implicit Types (g : state).

Definition invariant (g : state) : Prop :=
  exists Fw Fm loaded, ginv gr number check_negative heuristic source destination split_cutoff poll_cutoff
    Wmax (sp_long _ _ _ _ _ _ pre) Hsplit g Fw Fm loaded.

Lemma reach g0 g : begin = Ok g0 -> steps g0 g -> invariant g.
Proof.
  intros Hs Hr. destruct pre as [H1 H2 H3 H4 H5 H6] eqn:E. unfold invariant. rewrite E. cbn [sp_long].
  eapply (reachable_inv gr number check_negative heuristic source destination split_cutoff poll_cutoff
    Wmax Hmax H1 H2 H3 H4 H5 H6 Hsplit workers_count g0 g leader pebble); assumption.
Qed.

Lemma invariant_step g g' : invariant g -> step workers_count g g' ->
  (forall x, D number (shared g') x <= D number (shared g) x) /\
  (forall x, E (shared g) x = true -> E (shared g') x = true) /\ invariant g'.
Proof.
  intros (Fw & Fm & loaded & I0) Hs. unfold invariant. destruct pre as [H1 H2 H3 H4 H5 H6] eqn:E.
  cbn [sp_long] in *.
  exact (ginv_step gr number check_negative heuristic source destination split_cutoff poll_cutoff
    Wmax Hmax H1 H2 H3 H4 H5 H6 Hsplit workers_count g g' Fw Fm loaded I0 Hs).
Qed.

(** The methods of the result are the views of the table. *)
Lemma result_view g x d :
  Interfaces.g (result gr g) x = Ok d -> D number (shared g) x = d.
Proof. cbn. intros (a & Ea & [= <-])%bind_Ok. apply (aview_get (fun a => distance (gpred a))); exact Ea. Qed.

Lemma result_get g x : invariant g -> 0 <= x < number_vertices gr ->
  Interfaces.g (result gr g) x = Ok (D number (shared g) x) /\
  predecessor (result gr g) x = Ok (Pr (shared g) x) /\
  Interfaces.is_expanded (result gr g) x = Ok (E (shared g) x).
Proof.
  intros (Fw & Fm & loaded & [_ I0 _]) Hx.
  destruct (aget_in (sh_states (shared g)) x) as [a Ea].
  { rewrite (pv_len _ _ _ _ _ _ _ _ _ _ I0). exact Hx. }
  unfold D, Pr, E. cbn. rewrite Ea, !(aview_get _ _ _ _ _ Ea). auto.
Qed.

Lemma invariant_tree g : invariant g ->
  tree_inv edge (int_max number) source (D number (shared g)) (Pr (shared g)).
Proof. intros (Fw & Fm & loaded & [_ I0 _]). apply (pv_tree _ _ _ _ _ _ _ _ _ _ I0). Qed.

Lemma tree_path g x : invariant g -> D number (shared g) x < int_max number ->
  exists l, path_to edge (result gr g) source x (D number (shared g) x) l.
Proof.
  intros I0 Hx. apply (tree_path_to gr (int_max number) source (D number (shared g)) (Pr (shared g)) (result gr g) x
    (sp_source _ _ _ _ _ _ pre) (invariant_tree g I0)); [|exact Hx].
  intros y Hy. destruct (result_get g y I0 Hy) as (H1 & H2 & _). auto.
Qed.


(** C5: at every reachable state, also in the middle of concurrent updates,
    following the predecessors from any vertex with a finite g-value gives a
    path of arcs from the source, along which the g-values pay for the arcs,
    and the g-value is the length of a walk. *)
Theorem pwsa_tree g0 g x d :
  begin = Ok g0 -> steps g0 g -> Interfaces.g (result gr g) x = Ok d -> d < int_max number ->
  exists l, path_to edge (result gr g) source x d l.
Proof.
  intros Hs Hr Hg%result_view Hd. subst d. apply tree_path; [apply (reach g0 g Hs Hr)|exact Hd].
Qed.

Lemma done_path g : invariant g -> is_done g = true ->
  exists d l, Interfaces.g (result gr g) destination = Ok d /\
    Interfaces.is_expanded (result gr g) destination = Ok true /\
    path_to edge (result gr g) source destination d l.
Proof.
  intros I0 Hd. pose proof I0 as (Fw & Fm & loaded & [_ I1 I2]).
  assert (Hx : E (shared g) destination = true) by (apply I2; auto).
  destruct (pv_exp _ _ _ _ _ _ _ _ _ _ I1 destination Hx) as [Hf _].
  pose proof (E_range _ _ _ _ _ _ _ _ _ _ _ I1 Hx) as Hran.
  destruct (result_get g destination I0 Hran) as (E1 & _ & E3). rewrite Hx in E3.
  destruct (tree_path g destination I0 Hf) as [l Hl]. eauto.
Qed.

(** C1: whenever the flag is set, the result holds a path from the source to
    the destination; so the workers stop only after the destination has been
    expanded, and never when it cannot be reached. *)
Theorem pwsa_done g0 g :
  begin = Ok g0 -> steps g0 g -> is_done g = true ->
  reachable edge source destination /\
  exists d l, Interfaces.g (result gr g) destination = Ok d /\
    Interfaces.is_expanded (result gr g) destination = Ok true /\
    path_to edge (result gr g) source destination d l.
Proof.
  intros Hs Hr Hd. destruct (done_path g (reach g0 g Hs Hr) Hd) as (d & l & H1 & H2 & H3).
  split; [|eauto]. exists d. apply H3.
Qed.

(** Along any run the g-value of a vertex never grows and an expanded
    vertex stays expanded. *)
Theorem pwsa_monotone g0 g g' x d d' :
  begin = Ok g0 -> steps g0 g -> steps g g' ->
  Interfaces.g (result gr g) x = Ok d -> Interfaces.g (result gr g') x = Ok d' ->
  d' <= d /\ (Interfaces.is_expanded (result gr g) x = Ok true ->
              Interfaces.is_expanded (result gr g') x = Ok true).
Proof.
  intros Hs Hr Hr' Hd%result_view Hd'.
  assert (Hr2 : steps g0 g') by (etransitivity; eassumption).
  assert (0 <= x < number_vertices gr) as Hx.
  { destruct (reach g0 g' Hs Hr2) as (? & ? & ? & [_ I1 _]).
    apply bind_Ok in Hd' as (a & Ea%aget_bounds & _). rewrite <-(pv_len _ _ _ _ _ _ _ _ _ _ I1). exact Ea. }
  apply result_view in Hd'. subst d d'.
  pose proof (reach g0 g Hs Hr) as I0. pose proof (reach g0 g' Hs Hr2) as I1.
  rewrite (proj2 (proj2 (result_get g x I0 Hx))), (proj2 (proj2 (result_get g' x I1 Hx))). clear I1 Hr Hr2.
  induction Hr' as [g|g g1 g' Hstep _ IH]; [split; [lia|auto]|].
  destruct (invariant_step g g1 I0 Hstep) as (HD & HE & I1). destruct (IH I1) as [H1 H2].
  specialize (HD x). split; [lia|]. intros [= Ht]. apply H2. rewrite (HE x Ht). reflexivity.
Qed.

(** The vertex whose flag worker [id] wins in its next step. *)
Definition won (g : state) (id : Z) : list Z :=
  match pc_of g id with
  | Work (CasExp _ v) => if E (shared g) v then [] else [v]
  | _ => []
  end.

(** The vertex that worker [id], which has just moved, goes on to expand: it is
    past the test of its compare-and-swap, at the load of the g-value from which
    the arcs are relaxed, or it has found the destination. *)
Definition expands (g' : state) (id : Z) : list Z :=
  match pc_of g' id with
  | Work (LoadG _ v) => [v]
  | SetDone => [destination]
  | _ => []
  end.

(** Runs with the log of the expansions: what each step leads its worker to
    expand, whatever the flags say. *)
Inductive logged (g0 : state) : list Z -> state -> Prop :=
  | logged_start : logged g0 [] g0
  | logged_step log g g' id c :
      logged g0 log g -> 0 <= id < workers_count -> draws workers_count g id c ->
      wstep id c g = Ok g' -> logged g0 (log ++ expands g' id) g'.

Lemma logged_steps g0 log g : logged g0 log g -> steps g0 g.
Proof.
  induction 1 as [|log g g' id c _ IH Hid Hv Hs]; [constructor|].
  eapply rtc_r; [exact IH|]. exists id, c. auto.
Qed.

Lemma set_worker_pc (g : state) id w : pc_of (set_worker g id w) id = w_pc w.
Proof. unfold pc_of, set_worker. cbn. rewrite upd_eq. reflexivity. Qed.

(** A step of [do_work] leads to an expansion exactly where the flag was found
    unset. *)
Lemma do_work_expands id c s counter f p s' counter' f' next :
  do_work (H := H) number check_negative gr heuristic destination poll_cutoff id c s counter f p = Ok (s', counter', f', next) ->
  match next with inl (LoadG _ v) => [v] | inr true => [destination] | _ => [] end =
  match p with CasExp _ v => if E s v then [] else [v] | _ => [] end.
Proof.
  intros E0. unfold do_work in E0. unfold E, aview.
  destruct p as [| | | |? ? ? [|[? ?] ?]| | | | | |]; cbn zeta in E0;
    repeat match type of E0 with
    | (if ?b then _ else _) = _ => destruct b eqn:?
    | (?x ≫= _) = _ => apply bind_Ok in E0 as (? & ? & E0)
    end; repeat match goal with x : _ * _ |- _ => destruct x end; inv_res;
    repeat match goal with |- context [if ?b then _ else _] => destruct b eqn:? end; try reflexivity;
    match goal with Ha : aget _ _ = Ok _, Hb : match _ with Ok _ => _ | Err _ => _ end = _ |- _ => rewrite Ha in Hb end;
    try congruence.
  match goal with Hv : (_ =? _) = true |- _ => apply Z.eqb_eq in Hv as -> end. reflexivity.
Qed.

(** So a worker goes on to expand exactly the vertex whose flag it won. *)
Lemma expands_won g g' id c : wstep id c g = Ok g' -> expands g' id = won g id.
Proof.
  intros Hs. unfold won, expands. unfold wstep in Hs. fold (pc_of g id) in Hs.
  destruct (pc_of g id) as [] eqn:Ep; cbv beta iota in Hs;
    repeat match type of Hs with context [size_input ?a ?b] => destruct (size_input a b) end;
    repeat match type of Hs with context [if ?b then _ else _] => destruct b end;
    inv_res; repeat match goal with x : _ * _ |- _ => destruct x end; inv_res;
    unfold set_pc; rewrite ?set_worker_pc; cbn [w_pc]; rewrite ?Ep; try reflexivity.
  match goal with Hb : body_step _ _ _ _ _ _ = Ok _ |- _ => rewrite <-(do_work_expands _ _ _ _ _ _ _ _ _ _ Hb) end.
  destruct s as [[]|[]]; reflexivity.
Qed.

Lemma won_step g g' id c : invariant g -> 0 <= id -> wstep id c g = Ok g' ->
  forall x, E (shared g') x = true <-> E (shared g) x = true \/ x ∈ won g id.
Proof.
  intros (Fw & Fm & loaded & I0) Hid Hs x. destruct pre as [H1 H2 H3 H4 H5 H6] eqn:Epre. cbn [sp_long] in *.
  unfold won. destruct (pc_of g id) as [] eqn:Ep;
    try (destruct (ginv_protocol gr number check_negative heuristic source destination split_cutoff poll_cutoff
           Wmax H5 Hsplit g g' Fw Fm loaded id c I0 Hid
           ltac:(congruence) Hs) as [-> _]; split; [auto|intros [?|Hin]; [assumption|inversion Hin]]; fail).
  destruct (ginv_work gr number check_negative heuristic source destination split_cutoff poll_cutoff
    Wmax Hmax H1 H2 H3 H4 H5 H6 Hsplit g g' Fw Fm loaded id c b I0 Ep Hs) as (_ & HE & Hn & Hw & _).
  split.
  - intros Hx. destruct (Hn x Hx) as [?|[st ->]]; [auto|]. destruct (E (shared g) x) eqn:Ex; [auto|].
    right. left.
  - intros [Hx|Hx]; [auto|]. destruct b as [| |st v| | | | | | | |]; try (inversion Hx; fail).
    destruct (E (shared g) v); [inversion Hx|]. apply list_elem_of_singleton in Hx as ->. eauto.
Qed.

(** C14: no vertex is expanded twice, by whichever workers: the log of the
    vertices that a worker went on to expand after its compare-and-swap holds
    every vertex at most once, and the flags set are those of the logged
    vertices. *)
Theorem pwsa_expands_once g0 log g :
  begin = Ok g0 -> logged g0 log g ->
  NoDup log /\ forall v, v ∈ log <-> Interfaces.is_expanded (result gr g) v = Ok true.
Proof.
  intros Hs Hl.
  assert (Hcut : NoDup log /\ forall v, v ∈ log <-> E (shared g) v = true).
  { induction Hl as [|log g g' id c Hl IH Hid Hv Hst].
    - split; [constructor|]. intros v. destruct pre as [H1 H2 H3 H4 H5 H6].
      destruct (start_ok gr number check_negative heuristic source destination split_cutoff poll_cutoff
        Wmax Hmax H1 H2 H4 H5 H6 Hsplit leader pebble) as (g1 & _ & _ & E0 & _ & _ & Hx).
      rewrite Hs in E0. injection E0 as <-. rewrite Hx. split; [intros Hin; inversion Hin|discriminate].
    - destruct IH as [Hnd Hin].
      pose proof (won_step g g' id c (reach g0 g Hs (logged_steps g0 log g Hl)) ltac:(lia) Hst) as Hw.
      rewrite (expands_won g g' id c Hst). split.
      + apply NoDup_app. split; [exact Hnd|]. unfold won in *.
        destruct (pc_of g id) as [] eqn:Ep; try (split; [intros ? ? Hx; inversion Hx|constructor]; fail).
        destruct b; try (split; [intros ? ? Hx; inversion Hx|constructor]; fail).
        destruct (E (shared g) v) eqn:Ex; [split; [intros ? ? Hx; inversion Hx|constructor]|].
        split; [|apply NoDup_singleton]. intros y Hy ->%list_elem_of_singleton.
        apply Hin in Hy. congruence.
      + intros v. rewrite elem_of_app, Hin, Hw. reflexivity. }
  destruct Hcut as [Hnd Hin]. split; [exact Hnd|]. intros v. rewrite Hin. cbn. unfold E, aview.
  destruct (aget (sh_states (shared g)) v) as [a|]; cbn; split; congruence.
Qed.

(** C15: no reached vertex is lost.  If at a reachable state all frontiers and
    mailboxes are empty, nobody is inside [do_work], and the destination has
    not been expanded, then it cannot be reached. *)
Theorem pwsa_loses_nothing g0 g :
  begin = Ok g0 -> steps g0 g ->
  (forall i, h_size (w_input (workers g i)) = 0 /\ h_size (frontiers g i) = 0 /\
     forall p, pc_of g i <> Work p) ->
  Interfaces.is_expanded (result gr g) destination = Ok false -> ~ reachable edge source destination.
Proof.
  intros Hs Hr Hq Hd Hreach. destruct (reach g0 g Hs Hr) as (Fw & Fm & loaded & [I1 I2 _]).
  assert (Hemp : forall e, ~ entries Fw Fm e).
  { intros e [[i Hi]|[i Hi]]; destruct (Hq i) as (H1 & H2 & _).
    - pose proof (h_size_rep _ _ (pi_rep _ _ _ I1 i)) as Hl. rewrite H1 in Hl.
      destruct (Fw i); [inversion Hi|cbn in Hl; lia].
    - pose proof (h_size_rep _ _ (pi_mail_rep _ _ _ I1 i)) as Hl. rewrite H2 in Hl.
      destruct (Fm i); [inversion Hi|cbn in Hl; lia]. }
  assert (Hact : forall i p, act_of g i <> Some p).
  { intros i p Hp%act_of_work. apply (proj2 (proj2 (Hq i)) p Hp). }
  assert (Hexp : forall x, D number (shared g) x < int_max number -> E (shared g) x = true).
  { intros x Hx. destruct (E (shared g) x) eqn:Ex; [reflexivity|].
    destruct (pv_open _ _ _ _ _ _ _ _ _ _ I2 x Hx Ex) as [[f Hf]|(i & p & Hp & _)].
    - destruct (Hemp _ Hf).
    - destruct (Hact _ _ Hp). }
  assert (Hdst : E (shared g) destination = false).
  { unfold E, aview. cbn in Hd. apply bind_Ok in Hd as (a & -> & [= Ha]). exact Ha. }
  assert (D number (shared g) destination < int_max number); [|rewrite Hexp in Hdst; [discriminate|assumption]].
  apply (reachable_closed edge (fun x => D number (shared g) x < int_max number) source); [| |exact Hreach].
  - pose proof (pv_tree _ _ _ _ _ _ _ _ _ _ I2) as [-> Hi _ _ _]. exact Hi.
  - intros u x w Hu [_ Hin]. pose proof (Hexp u Hu) as Hue.
    destruct (pv_exp _ _ _ _ _ _ _ _ _ _ I2 u Hue) as [_ Ha].
    destruct (Ha ltac:(congruence) x w Hin) as [?|(i & p & Hp & _)]; [assumption|destruct (Hact _ _ Hp)].
Qed.

(** C35: when the destination cannot be reached the flag is never set and no
    worker ever returns: [parallel_while_pwsa] has no other way to end. *)
Theorem pwsa_unreachable_runs_forever g0 g :
  begin = Ok g0 -> steps g0 g -> ~ reachable edge source destination ->
  is_done g = false /\ forall i, pc_of g i <> Halted /\ forall k, pc_of g i <> Abandoned k.
Proof.
  intros Hs Hr Hn. pose proof (reach g0 g Hs Hr) as I0.
  assert (Hd : is_done g = false).
  { destruct (is_done g) eqn:Ed; [|reflexivity]. destruct Hn.
    destruct (done_path g I0 Ed) as (d & l & _ & _ & Hp). exists d. apply Hp. }
  split; [exact Hd|]. destruct I0 as (Fw & Fm & loaded & [I1 _ _]). intros i.
  pose proof (pi_local _ _ _ I1 i) as L. unfold local_ok in L.
  split; [intros Ep|intros k Ep]; rewrite Ep in L; congruence.
Qed.
End specs.

(** ** Concrete runs, of two workers on the sample maps *)

Module Instances.
#[local] Existing Instances BinHeap.Heap_ops BinHeap.Heap_laws WGraph.graph_ops.
Abbreviation Heap := (BinHeap.Heap Z).
Abbreviation st := (global Heap Z shared_state point).
Import Sample (zero, graph_pre, island_pre).
Definition c0 : choice := mkChoice 1 false.
Definition c1 : choice := mkChoice 0 false.

(** The searches of the sample and of the island map, with K = D = 1. *)
Definition body (g : WGraph.graph) (dst : Z) : Body Heap Z shared_state point :=
  bd (H := Heap) g int32 false zero dst 1 1.
Definition begin (g : WGraph.graph) (dst : Z) : res st :=
  start (H := Heap) int32 false g zero 0 dst 1 1 0 false.

(** The state after a schedule, and its default. *)
Definition after (g : WGraph.graph) (dst : Z) (sched : list (Z * choice)) : st :=
  match (s ← begin g dst; run (body := body g dst) sched s) with
  | Ok s => s
  | Err _ => initial (body := body g dst) 0 BinHeap.new_heap 0 (mkShared [] None)
  end.

Definition first (g : WGraph.graph) (dst : Z) : st := after g dst [].

Lemma begin_first g dst : is_ok (begin g dst) = true -> begin g dst = Ok (first g dst).
Proof. intros [s Hs]%is_ok_true. unfold first, after. rewrite Hs. reflexivity. Qed.

Lemma begin_ok dst : begin Sample.graph dst = Ok (first Sample.graph dst).
Proof. apply begin_first. vm_compute. reflexivity. Qed.

Lemma island_begin_ok : begin Sample.island 1 = Ok (first Sample.island 1).
Proof. apply begin_first. vm_compute. reflexivity. Qed.

(** Schedules: [k0] steps of worker 0, [k1] of worker 1, [k2] of worker 0. *)
Definition sched (k0 k1 k2 : nat) : list (Z * choice) :=
  repeat (0, c0) k0 ++ repeat (1, c1) k1 ++ repeat (0, c0) k2.

Lemma two_valid k0 k1 k2 : Forall (fun e => valid 2 e = true) (sched k0 k1 k2).
Proof. unfold sched. repeat apply Forall_app_2; apply Forall_forall; intros e He;
  apply list_elem_of_In, repeat_spec in He as ->; reflexivity. Qed.

Lemma after_steps g dst k0 k1 k2 :
  is_ok (s ← begin g dst; run (body := body g dst) (sched k0 k1 k2) s) = true ->
  rtc (step (body := body g dst) 2) (first g dst) (after g dst (sched k0 k1 k2)).
Proof.
  intros [s Hs]%is_ok_true. unfold after. rewrite Hs. unfold first, after.
  destruct (begin g dst) as [s0|e]; [|discriminate]. rewrite bind_ok_l in *.
  apply (run_rtc (body := body g dst) 2 (sched k0 k1 k2)); [apply two_valid|exact Hs].
Qed.

Lemma one : 1 <= 1. Proof. lia. Qed.


(** Worker 0 has expanded the source. *)
Lemma run_source : is_ok (s ← begin Sample.graph 4; run (body := body Sample.graph 4) (sched 31 0 0) s) = true.
Proof. vm_compute. reflexivity. Qed.

Lemma pwsa_tree_witness :
  exists l, path_to (arc (laws := Sample.graph_laws) Sample.graph)
    (result Sample.graph (after Sample.graph 4 (sched 31 0 0))) 0 3 14142 l.
Proof.
  refine (pwsa_tree (H := Heap) (glaws := Sample.graph_laws) Sample.graph int32 false zero 0 4 1 1
    14142 0 graph_pre one 2 0 false _ _ 3 14142 (begin_ok 4) (after_steps Sample.graph 4 31 0 0 run_source) _ _).
  - vm_compute. reflexivity.
  - vm_compute. reflexivity.
Defined.

Lemma run_done : is_ok (s ← begin Sample.graph 1; run (body := body Sample.graph 1) (sched 39 0 0) s) = true.
Proof. vm_compute. reflexivity. Qed.

Lemma pwsa_done_witness :
  exists d l, Interfaces.g (result Sample.graph (after Sample.graph 1 (sched 39 0 0))) 1 = Ok d /\
    path_to (arc (laws := Sample.graph_laws) Sample.graph)
      (result Sample.graph (after Sample.graph 1 (sched 39 0 0))) 0 1 d l.
Proof.
  destruct (pwsa_done (H := Heap) (glaws := Sample.graph_laws) Sample.graph int32 false zero 0 1 1 1
    14142 0 graph_pre one 2 0 false _ _ (begin_ok 1) (after_steps Sample.graph 1 39 0 0 run_done)) as (_ & d & l & H1 & _ & H2).
  - vm_compute. reflexivity.
  - exists d, l. split; [exact H1|exact H2].
Defined.

(** Continuing a run. *)
Lemma after_app g dst s1 s2 :
  is_ok (s ← begin g dst; run (body := body g dst) s1 s) = true ->
  is_ok (run (body := body g dst) s2 (after g dst s1)) = true ->
  Forall (fun e => valid 2 e = true) s2 ->
  rtc (step (body := body g dst) 2) (after g dst s1) (after g dst (s1 ++ s2)).
Proof.
  intros [a Ha]%is_ok_true [b Hb]%is_ok_true Hv.
  assert (Ea : after g dst s1 = a) by (unfold after; rewrite Ha; reflexivity).
  rewrite Ea in *. apply (run_rtc (body := body g dst) 2 s2); [exact Hv|].
  unfold after. destruct (begin g dst) as [s0|]; [|discriminate]. rewrite bind_ok_l in *.
  assert (Happ : forall l1 s, run (body := body g dst) (l1 ++ s2) s =
    (s' ← run (body := body g dst) l1 s; run (body := body g dst) s2 s')).
  { induction l1 as [|[id c] l1 IH]; intros s; cbn; [reflexivity|]. destruct (wstep id c s); cbn; auto. }
  rewrite Happ, Ha, bind_ok_l, Hb. reflexivity.
Qed.

Lemma pwsa_monotone_witness :
  2147483647 >= 14142 /\
  (Interfaces.is_expanded (result Sample.graph (first Sample.graph 4)) 3 = Ok true ->
   Interfaces.is_expanded (result Sample.graph (after Sample.graph 4 (sched 31 0 0))) 3 = Ok true).
Proof.
  destruct (pwsa_monotone (H := Heap) (glaws := Sample.graph_laws) Sample.graph int32 false zero 0 4 1 1
    14142 0 graph_pre one 2 0 false (first Sample.graph 4) (first Sample.graph 4)
    (after Sample.graph 4 (sched 31 0 0)) 3 2147483647 14142 (begin_ok 4) (rtc_refl _ _)
    (after_steps Sample.graph 4 31 0 0 run_source)) as [H1 H2].
  - vm_compute. reflexivity.
  - vm_compute. reflexivity.
  - split; [lia|exact H2].
Defined.

(** The log of a schedule. *)
Fixpoint log_of (g : WGraph.graph) (dst : Z) (l : list (Z * choice)) (s : st) : list Z :=
  match l with
  | [] => []
  | (id, c) :: l =>
      match wstep (body := body g dst) id c s with
      | Ok s => expands (H := Heap) dst s id ++ log_of g dst l s
      | Err _ => []
      end
  end.

Lemma log_of_logged g dst l s0 s s' log :
  logged (H := Heap) g int32 false zero dst 1 1 2 s0 log s ->
  Forall (fun e => valid 2 e = true) l -> run (body := body g dst) l s = Ok s' ->
  logged (H := Heap) g int32 false zero dst 1 1 2 s0 (log ++ log_of g dst l s) s'.
Proof.
  intros Hl F. revert s log Hl. induction F as [|[id c] l Hv _ IH]; intros s log Hl Hr.
  - cbn in *. injection Hr as <-. rewrite app_nil_r. exact Hl.
  - cbn [run] in Hr. apply bind_Ok in Hr as (s1 & E1 & Hr). cbn [log_of].
    rewrite E1, (assoc_L (++)). apply IH; [|exact Hr].
    unfold valid in Hv. cbn in Hv. rewrite !andb_true_iff, negb_true_iff, Z.eqb_neq in Hv.
    eapply logged_step; eauto; [lia|]. intros _. apply random_other_range; lia.
Qed.

Lemma source_log :
  logged (H := Heap) Sample.graph int32 false zero 4 1 1 2 (first Sample.graph 4) [0]
    (after Sample.graph 4 (sched 31 0 0)).
Proof.
  assert (Hl : log_of Sample.graph 4 (sched 31 0 0) (first Sample.graph 4) = [0]) by (vm_compute; reflexivity).
  pose proof run_source as [s Hs]%is_ok_true.
  assert (Ea : after Sample.graph 4 (sched 31 0 0) = s) by (unfold after; rewrite Hs; reflexivity).
  rewrite Ea. rewrite begin_ok, bind_ok_l in Hs.
  pose proof (log_of_logged Sample.graph 4 (sched 31 0 0) (first Sample.graph 4)
    (first Sample.graph 4) s [] (logged_start _ _ _ _ _ _ _ _ _) (two_valid 31 0 0) Hs) as Hlog.
  rewrite Hl in Hlog. exact Hlog.
Qed.

Lemma pwsa_expands_once_witness :
  NoDup [0] /\ forall v, v ∈ [0] <->
    Interfaces.is_expanded (result Sample.graph (after Sample.graph 4 (sched 31 0 0))) v = Ok true.
Proof.
  exact (pwsa_expands_once (H := Heap) (glaws := Sample.graph_laws) Sample.graph int32 false zero 0 4 1 1
    14142 0 graph_pre one 2 0 false _ _ _ (begin_ok 4) source_log).
Defined.

Lemma run_island : is_ok (s ← begin Sample.island 1; run (body := body Sample.island 1) (sched 12 0 0) s) = true.
Proof. vm_compute. reflexivity. Qed.

Lemma pwsa_loses_nothing_witness :
  ~ reachable (arc (laws := Sample.island_laws) Sample.island) 0 1.
Proof.
  refine (pwsa_loses_nothing (H := Heap) (glaws := Sample.island_laws) Sample.island int32 false zero 0 1 1 1
    14142 0 island_pre one 2 0 false _ _ island_begin_ok (after_steps Sample.island 1 12 0 0 run_island) _ _).
  - intros i. destruct i; vm_compute; split_and!; (reflexivity || intros; discriminate).
  - vm_compute. reflexivity.
Defined.

Lemma pwsa_unreachable_runs_forever_witness :
  is_done (after Sample.island 1 (sched 12 0 0)) = false.
Proof.
  exact (proj1 (pwsa_unreachable_runs_forever (H := Heap) (glaws := Sample.island_laws) Sample.island int32 false
    zero 0 1 1 1 14142 0 island_pre one 2 0 false _ _ island_begin_ok
    (after_steps Sample.island 1 12 0 0 run_island) Sample.island_unreachable)).
Defined.

(** Worker 1 is in the acquire loop when worker 0 pops the destination. *)
Definition late : list (Z * choice) := repeat (1, c1) 3 ++ repeat (0, c0) 8 ++ repeat (1, c1) 2.

(** C40: the assertion [sz > 0] of the protocol does not hold: when the flag is
    set while a worker looks for work, the worker leaves the loop with an empty
    frontier and runs into it. *)
Theorem pwsa_assertion_fails :
  exists g0 g, begin Sample.graph 0 = Ok g0 /\ rtc (step (body := body Sample.graph 0) 2) g0 g /\
    is_done g = true /\ wstep (body := body Sample.graph 0) 1 c1 g = Err AssertFailed.
Proof.
  exists (first Sample.graph 0), (after Sample.graph 0 late).
  split; [apply begin_ok|]. split; [|split; vm_compute; reflexivity].
  apply (after_app Sample.graph 0 []); [vm_compute; reflexivity|vm_compute; reflexivity|].
  repeat constructor.
Qed.
End Instances.
End PwsaSpec.
