(* ===== verification/ParWhileSpec.v ===== *)
(** * What the work-sharing protocol promises

    The properties of [parallel_while_pwsa] for any callbacks that satisfy
    BodyLaws, any number of workers and any interleaving, with instances from
    the parallel search of the sample map. *)

From S2P Require Import Prelude.
From S2P Require Import Interfaces.
From S2P Require Import BinHeap.
From S2P Require Import Paths.
From S2P Require Import SearchSpec.
From S2P Require Import WGraph.
From S2P Require Import Graph.
From S2P Require Import LifeGraph.
From S2P Require Import GridGraphs.
From S2P Require Import ParWhile.
From S2P Require Import Pwsa.
From S2P Require Import PwsaInv.
From S2P Require Import PwsaSpec.

Module ParWhileSpec.
Import ParWhile.

Section specs.
Context {I P S B item : Type} {body : Body I P S B} {laws : BodyLaws I P S B item}.
Context (n leader : Z) (input : I) (priv : P) (s : S) (l : list item).
Context (R : rep input l).

Abbreviation reachable_state := (rtc (step (body := body) n) (initial leader input priv s)).

(** C27: a worker writes into another worker's mailbox only while the owner is
    in its waiting loop with no answer yet, the mailbox is empty, and no third
    worker writes to it or is about to announce it: the plain, non-atomic
    array [frontiers] is free of data races. *)
Theorem mailbox_exclusive g k i :
  reachable_state g -> pc_of g k = RespFork i ->
  asked g i k /\ rep (frontiers g i) [] /\
  forall k', k' <> k -> pc_of g k' <> RespFork i /\ pc_of g k' <> RespAnswer i ANSWER_TRANSFERRED.
Proof.
  intros Hr E. destruct (run_inv n leader input priv s l g R Hr) as (Fw & Fm & I0).
  destruct (fork_exclusive g Fw Fm k i I0 E) as (_ & _ & Ha & Hm & Hex).
  split; [exact Ha|]. split; [rewrite <-Hm; apply (pi_mail_rep _ _ _ I0)|]. intros k' Hk. apply Hex. exact Hk.
Qed.

(** Outside the loop body the protocol has one error: its assertion, in a
    state where the flag is set. *)
Theorem protocol_errors g id c e :
  reachable_state g -> (forall b, pc_of g id <> Work b) -> wstep id c g = Err e ->
  e = AssertFailed /\ is_done g = true /\ pc_of g id = AssertSize 0.
Proof.
  intros Hr Hw Hs. destruct (run_inv n leader input priv s l g R Hr) as (Fw & Fm & I0).
  apply (protocol_error g Fw Fm id c e I0 Hw Hs).
Qed.

(** No request is forgotten.  While a worker waits without an answer, its
    request is registered with the worker it asked, which has not dealt with
    it, or that worker is about to reject it; and an answer
    ANSWER_TRANSFERRED comes with a non-empty mailbox. *)
Theorem request_registered g i k :
  reachable_state g -> pc_of g i = WaitLoad k \/ pc_of g i = WaitDone k ->
  (answers g i = ANSWER_WAITING ->
     requests g k = i /\ pc_of g k <> RespReset \/ pc_of g k = BlockReject i) /\
  (answers g i = ANSWER_TRANSFERRED -> exists m, rep (frontiers g i) m /\ m <> []).
Proof.
  intros Hr E. destruct (run_inv n leader input priv s l g R Hr) as (Fw & Fm & I0).
  pose proof (pi_local _ _ _ I0 i) as L. unfold local_ok in L.
  destruct E as [E|E]; rewrite E in L; destruct L as (_ & _ & _ & L1 & L2); split; auto; intros Ha;
    exists (Fm i); (split; [apply (pi_mail_rep _ _ _ I0)|auto]).
Qed.

(** C28: the protocol neither loses nor duplicates work: a step outside the
    loop body leaves the multiset of the items of all frontiers and mailboxes
    unchanged. *)
Theorem items_conserved g g' id c :
  reachable_state g -> 0 <= id -> (forall b, pc_of g id <> Work b) -> wstep id c g = Ok g' ->
  exists Fw Fm Fw' Fm',
    (forall i, rep (w_input (workers g i)) (Fw i) /\ rep (frontiers g i) (Fm i)) /\
    (forall i, rep (w_input (workers g' i)) (Fw' i) /\ rep (frontiers g' i) (Fm' i)) /\
    forall ids, NoDup ids -> id ∈ ids -> (forall j, Fm j <> [] \/ Fm' j <> [] -> j ∈ ids) ->
      total ids Fw' Fm' ≡ₚ total ids Fw Fm.
Proof.
  intros Hr Hid Hw Hs. destruct (run_inv n leader input priv s l g R Hr) as (Fw & Fm & I0).
  destruct (protocol_step g g' Fw Fm id c I0 Hid Hw Hs) as (Fw' & Fm' & I1 & Fl & _).
  exists Fw, Fm, Fw', Fm'.
  split; [intros i; split; [apply (pi_rep _ _ _ I0)|apply (pi_mail_rep _ _ _ I0)]|].
  split; [intros i; split; [apply (pi_rep _ _ _ I1)|apply (pi_mail_rep _ _ _ I1)]|].
  intros ids Hnd Hin Hj. apply (flow_total ids id Fw Fm Fw' Fm'); assumption.
Qed.

(** Starvation is forever.  From a reachable state in which every frontier
    and mailbox is empty, no worker is in the loop body and the flag is not
    set, no run ever sets the flag, so no worker ever returns. *)
Theorem starvation g g' :
  reachable_state g ->
  (forall i, (forall m, rep (w_input (workers g i)) m -> m = []) /\
             (forall m, rep (frontiers g i) m -> m = []) /\
             (forall b, pc_of g i <> Work b) /\ pc_of g i <> SetDone) ->
  is_done g = false -> rtc (step (body := body) n) g g' ->
  is_done g' = false /\ forall i, pc_of g' i <> Halted /\ forall k, pc_of g' i <> Abandoned k.
Proof.
  intros Hr Hq Hd Hr'. destruct (run_inv n leader input priv s l g R Hr) as (Fw & Fm & I0).
  assert (Hs : starved g).
  { split; [exact Hd|]. split.
    - exists Fw, Fm. split; [exact I0|]. intros i. destruct (Hq i) as (H1 & H2 & _).
      split; [apply H1, (pi_rep _ _ _ I0)|apply H2, (pi_mail_rep _ _ _ I0)].
    - intros i. apply (Hq i). }
  assert (Hs' : starved g').
  { apply (rtc_invariant (step (body := body) n) starved g g'); auto. intros a b. apply starved_step. }
  destruct Hs' as (Hd' & (Fw' & Fm' & I1 & _) & _). split; [exact Hd'|]. intros i.
  pose proof (pi_local _ _ _ I1 i) as L. unfold local_ok in L.
  split; [intros Ep|intros k Ep]; rewrite Ep in L; congruence.
Qed.
End specs.

(** ** Instances: the parallel search of the sample maps *)

Module Instances.
Import Pwsa PwsaSpec.Instances.
Import Sample (zero, graph_pre, island_pre).
#[local] Existing Instances BinHeap.Heap_ops BinHeap.Heap_laws WGraph.graph_ops.

Definition search_laws (g : WGraph.graph) (dst : Z) :
    BodyLaws Heap Z shared_state point (Z * Z) (body := body g dst) :=
  PwsaInv.laws (H := Heap) g int32 false zero dst 1 1 ltac:(vm_compute; discriminate) one.

(** The states of these runs are reachable from an initial state. *)
Lemma from_initial g dst sched :
  is_ok (s ← begin g dst; run (body := body g dst) sched s) = true ->
  Forall (fun e => valid 2 e = true) sched ->
  (forall s f, setup (H := Heap) int32 g zero 0 false = Ok (s, f) -> h_rep f [(0, 0)]) ->
  exists f s, rep (BodyLaws := search_laws g dst) f [(0, 0)] /\
    rtc (step (body := body g dst) 2) (initial (body := body g dst) 0 f 0 s) (after g dst sched).
Proof.
  intros [a Ha]%is_ok_true Hv Hrep. unfold after. rewrite Ha.
  unfold begin, start in Ha. destruct (setup _ _ _ _ _) as [[s f]|e] eqn:Es; [|discriminate].
  rewrite !bind_ok_l in Ha. exists f, s. split; [apply (Hrep s f eq_refl)|].
  apply (run_rtc (body := body g dst) 2 sched); [exact Hv|exact Ha].
Qed.

Lemma setup_rep g (gl : GraphLaws g) :
  search_pre (glaws := gl) g int32 zero 0 14142 0 ->
  forall s f, setup (H := Heap) int32 g zero 0 false = Ok (s, f) -> h_rep f [(0, 0)].
Proof.
  intros [H1 H2 H3 H4 H5 H6] s f Es.
  destruct (PwsaInv.setup_ok (H := Heap) (glaws := gl) g int32 zero 0 0 1 14142 0 H1 H2 H4 H5 H6 one false)
    as (s' & f' & Es' & R & _).
  rewrite Es in Es'. injection Es' as _ <-. exact R.
Qed.

Abbreviation forked := (after Sample.graph 4 (sched 31 7 4)).

Lemma forked_ok : is_ok (s ← begin Sample.graph 4; run (body := body Sample.graph 4) (sched 31 7 4) s) = true.
Proof. vm_compute. reflexivity. Qed.

Lemma mailbox_exclusive_witness : asked forked 1 0.
Proof.
  destruct (from_initial Sample.graph 4 (sched 31 7 4) forked_ok (two_valid 31 7 4)
    (setup_rep _ _ graph_pre)) as (f & s & R & Hr).
  refine (proj1 (mailbox_exclusive (laws := search_laws Sample.graph 4) 2 0 f 0 s [(0, 0)] R forked 0 1 Hr _)).
  vm_compute. reflexivity.
Defined.

Lemma request_registered_witness :
  requests forked 0 = 1 /\ pc_of forked 0 <> RespReset \/ pc_of forked 0 = BlockReject 1.
Proof.
  destruct (from_initial Sample.graph 4 (sched 31 7 4) forked_ok (two_valid 31 7 4)
    (setup_rep _ _ graph_pre)) as (f & s & R & Hr).
  refine (proj1 (request_registered (laws := search_laws Sample.graph 4) 2 0 f 0 s [(0, 0)] R forked 1 0 Hr _) _).
  - left. vm_compute. reflexivity.
  - vm_compute. reflexivity.
Defined.

Lemma items_conserved_witness :
  exists g', wstep (body := body Sample.graph 4) 0 c0 forked = Ok g' /\
  exists Fw Fm Fw' Fm' : Z -> list (Z * Z), forall ids, NoDup ids -> 0 ∈ ids ->
    (forall j, Fm j <> [] \/ Fm' j <> [] -> j ∈ ids) -> total ids Fw' Fm' ≡ₚ total ids Fw Fm.
Proof.
  destruct (from_initial Sample.graph 4 (sched 31 7 4) forked_ok (two_valid 31 7 4)
    (setup_rep _ _ graph_pre)) as (f & s & R & Hr).
  assert (Hok : is_ok (wstep (body := body Sample.graph 4) 0 c0 forked) = true) by (vm_compute; reflexivity).
  apply is_ok_true in Hok as [g' Eg]. exists g'. split; [exact Eg|].
  destruct (items_conserved (laws := search_laws Sample.graph 4) 2 0 f 0 s [(0, 0)] R forked g' 0 c0 Hr
    ltac:(lia)) as (Fw & Fm & Fw' & Fm' & _ & _ & Hc).
  - intros b. assert (Ep : pc_of forked 0 = RespFork 1) by (vm_compute; reflexivity). rewrite Ep. discriminate.
  - exact Eg.
  - exists Fw, Fm, Fw', Fm'. exact Hc.
Defined.

(** Worker 1 runs into the assertion. *)
Abbreviation stuck := (after Sample.graph 0 late).

Lemma stuck_ok : is_ok (s ← begin Sample.graph 0; run (body := body Sample.graph 0) late s) = true.
Proof. vm_compute. reflexivity. Qed.

Lemma late_valid : Forall (fun e => valid 2 e = true) late.
Proof. repeat constructor. Qed.

Lemma protocol_errors_witness : pc_of stuck 1 = AssertSize 0.
Proof.
  destruct (from_initial Sample.graph 0 late stuck_ok late_valid
    (setup_rep _ _ graph_pre)) as (f & s & R & Hr).
  refine (proj2 (proj2 (protocol_errors (laws := search_laws Sample.graph 0) 2 0 f 0 s [(0, 0)] R stuck 1 c1
    AssertFailed Hr _ _))).
  - intros b. assert (Ep : pc_of stuck 1 = AssertSize 0) by (vm_compute; reflexivity). rewrite Ep. discriminate.
  - vm_compute. reflexivity.
Defined.

Abbreviation idle := (after Sample.island 1 (sched 12 0 0)).

Lemma starvation_witness : is_done idle = false.
Proof.
  destruct (from_initial Sample.island 1 (sched 12 0 0) run_island (two_valid 12 0 0)
    (setup_rep _ _ island_pre)) as (f & s & R & Hr).
  refine (proj1 (starvation (laws := search_laws Sample.island 1) 2 0 f 0 s [(0, 0)] R idle idle Hr _ _ (rtc_refl _ _))).
  - assert (Hz : forall i, h_size (w_input (workers idle i)) = 0 /\ h_size (frontiers idle i) = 0 /\
      (forall b, pc_of idle i <> Work b) /\ pc_of idle i <> SetDone).
    { intros i. destruct i; vm_compute; split_and!; (reflexivity || discriminate || intros; discriminate). }
    intros i. destruct (Hz i) as (H1 & H2 & H3 & H4). split_and!; auto.
    + intros m Rm. apply h_size_rep in Rm. rewrite H1 in Rm. destruct m; [reflexivity|cbn in Rm; lia].
    + intros m Rm. apply h_size_rep in Rm. rewrite H2 in Rm. destruct m; [reflexivity|cbn in Rm; lia].
  - vm_compute. reflexivity.
Defined.
End Instances.
End ParWhileSpec.
