(* ===== verification/Nav2D.v ===== *)
(** * The 2D grid environment (src/libsbpl, environment_nav2D)

    [EnvironmentNAV2D] hands a planner integer state ids for the cells of a
    grid: a hash table from coordinates to entries and a table from ids to
    entries, both filled as the search meets new cells.  The mutex around the
    tables and the busy loop of [GetSuccs] have no effect on one caller. *)

From S2P Require Import Prelude.
From S2P Require Import Doubles.

Module Nav2D.
Definition ENVNAV2D_COSTMULT : Z := 1000.
Definition ENVNAV2D_DEFAULTOBSTHRESH : Z := 1.
Definition ENVNAV2D_MAXDIRS : Z := 16.
Definition NUMOFINDICES_STATEID2IND : Z := 2.

(** [EnvNAV2DConfig_t].  [Grid2D] is indexed by x, then y; an entry of the
    [intersects] tables is the pair of its two cells. *)
Record ENV_NAV2D_CONFIG := mkCfg {
  EnvWidth_c : Z; EnvHeight_c : Z;
  StartX_c : Z; StartY_c : Z; EndX_c : Z; EndY_c : Z;
  Grid2D : list (list Z);
  obsthresh : Z;
  dx_ : list Z; dy_ : list Z;
  dxintersects_ : list (Z * Z); dyintersects_ : list (Z * Z);
  dxy_distance_mm_ : list Z;
  numofdirs : Z;
}.

(** [EnvNAV2DHashEntry_t]: never changed once it is created. *)
Record ENVHASHENTRY := mkEntry { stateID : Z; X : Z; Y : Z }.

#[export] Instance entry_eq_dec : EqDecision ENVHASHENTRY.
Proof. solve_decision. Defined.

(** The object: its configuration, the members of [EnvironmentNAV2D_t], and the
    planner's index table.  A bin of the hash table that holds no entry is not
    stored. *)
Record EnvironmentNAV2D := mkEnv {
  cfg : ENV_NAV2D_CONFIG;
  startstateid : Z; goalstateid : Z;
  bInitialized : bool;
  HashTableSize : Z;
  Coord2StateIDHashTable : gmap Z (list ENVHASHENTRY);
  StateID2CoordTable : list ENVHASHENTRY;
  StateID2IndexMapping : list (list (option Z));
}.

Definition set_cfg (c : ENV_NAV2D_CONFIG) (env : EnvironmentNAV2D) : EnvironmentNAV2D :=
  mkEnv c (startstateid env) (goalstateid env) (bInitialized env) (HashTableSize env)
    (Coord2StateIDHashTable env) (StateID2CoordTable env) (StateID2IndexMapping env).

Definition set_ids (start goal : Z) (env : EnvironmentNAV2D) : EnvironmentNAV2D :=
  mkEnv (cfg env) start goal (bInitialized env) (HashTableSize env)
    (Coord2StateIDHashTable env) (StateID2CoordTable env) (StateID2IndexMapping env).

Definition set_endpoints (sx sy ex ey : Z) (c : ENV_NAV2D_CONFIG) : ENV_NAV2D_CONFIG :=
  mkCfg (EnvWidth_c c) (EnvHeight_c c) sx sy ex ey (Grid2D c) (obsthresh c) (dx_ c) (dy_ c)
    (dxintersects_ c) (dyintersects_ c) (dxy_distance_mm_ c) (numofdirs c).

Definition set_grid (g : list (list Z)) (c : ENV_NAV2D_CONFIG) : ENV_NAV2D_CONFIG :=
  mkCfg (EnvWidth_c c) (EnvHeight_c c) (StartX_c c) (StartY_c c) (EndX_c c) (EndY_c c) g (obsthresh c)
    (dx_ c) (dy_ c) (dxintersects_ c) (dyintersects_ c) (dxy_distance_mm_ c) (numofdirs c).

Definition set_size (w h : Z) (c : ENV_NAV2D_CONFIG) : ENV_NAV2D_CONFIG :=
  mkCfg w h (StartX_c c) (StartY_c c) (EndX_c c) (EndY_c c) (Grid2D c) (obsthresh c)
    (dx_ c) (dy_ c) (dxintersects_ c) (dyintersects_ c) (dxy_distance_mm_ c) (numofdirs c).

Definition set_params (thresh dirs : Z) (c : ENV_NAV2D_CONFIG) : ENV_NAV2D_CONFIG :=
  mkCfg (EnvWidth_c c) (EnvHeight_c c) (StartX_c c) (StartY_c c) (EndX_c c) (EndY_c c) (Grid2D c) thresh
    (dx_ c) (dy_ c) (dxintersects_ c) (dyintersects_ c) (dxy_distance_mm_ c) dirs.

(** The constructor; [mem] is what the memory of the object holds, the vectors
    are constructed empty. *)
Definition construct (mem : EnvironmentNAV2D) : EnvironmentNAV2D :=
  mkEnv (set_params ENVNAV2D_DEFAULTOBSTHRESH 8 (cfg mem)) (startstateid mem) (goalstateid mem) false
    (HashTableSize mem) (Coord2StateIDHashTable mem) [] [].

(** ** The hash table *)

(** Conversion to [unsigned int]. *)
Definition u32 (z : Z) : Z := z mod 2 ^ 32.

Definition inthash (key : Z) : Z :=
  let key := u32 (key + u32 (Z.shiftl key 12)) in
  let key := Z.lxor key (Z.shiftr key 22) in
  let key := u32 (key + u32 (Z.shiftl key 4)) in
  let key := Z.lxor key (Z.shiftr key 9) in
  let key := u32 (key + u32 (Z.shiftl key 10)) in
  let key := Z.lxor key (Z.shiftr key 2) in
  let key := u32 (key + u32 (Z.shiftl key 7)) in
  let key := Z.lxor key (Z.shiftr key 12) in
  key.

Definition GETHASHBIN (env : EnvironmentNAV2D) (X1 X2 : Z) : Z :=
  Z.land (inthash (u32 (inthash (u32 X1) + u32 (Z.shiftl (inthash (u32 X2)) 1))))
    (u32 (HashTableSize env - 1)).

Arguments inthash : simpl never.
Arguments GETHASHBIN : simpl never.

(** [Coord2StateIDHashTable[i]] *)
Definition bin (env : EnvironmentNAV2D) (i : Z) : res (list ENVHASHENTRY) :=
  if (0 <=? i) && (i <? HashTableSize env)
  then Ok (default [] (Coord2StateIDHashTable env !! i)) else Err OutOfBounds.

Definition at_coord (x y : Z) (e : ENVHASHENTRY) : bool := (X e =? x) && (Y e =? y).

Definition GetHashEntry (env : EnvironmentNAV2D) (x y : Z) : res (option ENVHASHENTRY) :=
  b ← bin env (GETHASHBIN env x y);
  Ok (List.find (at_coord x y) b).

Definition CreateNewHashEntry (env : EnvironmentNAV2D) (x y : Z) :
    res (ENVHASHENTRY * EnvironmentNAV2D) :=
  let e := mkEntry (Z.of_nat (length (StateID2CoordTable env))) x y in
  let i := GETHASHBIN env x y in
  b ← bin env i;
  let row := replicate (Z.to_nat NUMOFINDICES_STATEID2IND) in
  mapping ← aset (StateID2IndexMapping env ++ [row None]) (stateID e) (row (Some (-1)));
  if negb (stateID e =? Z.of_nat (length mapping) - 1) then Err Thrown
  else Ok (e, mkEnv (cfg env) (startstateid env) (goalstateid env) (bInitialized env) (HashTableSize env)
    (<[i := b ++ [e]]> (Coord2StateIDHashTable env)) (StateID2CoordTable env ++ [e]) mapping).

(** [if((e = GetHashEntry(x, y)) == NULL) e = CreateNewHashEntry(x, y);] *)
Definition entry_at (env : EnvironmentNAV2D) (x y : Z) : res (ENVHASHENTRY * EnvironmentNAV2D) :=
  e ← GetHashEntry env x y;
  match e with
  | Some e => Ok (e, env)
  | None => CreateNewHashEntry env x y
  end.

Definition GetStateFromCoord (env : EnvironmentNAV2D) (x y : Z) : res (Z * EnvironmentNAV2D) :=
  '(e, env) ← entry_at env x y;
  Ok (stateID e, env).

Definition GetCoordFromState (env : EnvironmentNAV2D) (id : Z) : res (Z * Z) :=
  e ← aget (StateID2CoordTable env) id;
  Ok (X e, Y e).

Definition SizeofCreatedEnv (env : EnvironmentNAV2D) : Z := Z.of_nat (length (StateID2CoordTable env)).

Definition AreEquivalent (env : EnvironmentNAV2D) (id1 id2 : Z) : res bool :=
  e1 ← aget (StateID2CoordTable env) id1;
  e2 ← aget (StateID2CoordTable env) id2;
  Ok ((X e1 =? X e2) && (Y e1 =? Y e2)).

(** ** The grid *)

(** [Grid2D[x][y]] *)
Definition grid (c : ENV_NAV2D_CONFIG) (x y : Z) : res Z :=
  col ← aget (Grid2D c) x;
  aget col y.

Definition IsWithinMapCell (c : ENV_NAV2D_CONFIG) (x y : Z) : bool :=
  (0 <=? x) && (x <? EnvWidth_c c) && (0 <=? y) && (y <? EnvHeight_c c).

Definition IsValidCell (c : ENV_NAV2D_CONFIG) (x y : Z) : res bool :=
  if IsWithinMapCell c x y then v ← grid c x y; Ok (v <? obsthresh c) else Ok false.

Definition IsObstacle (env : EnvironmentNAV2D) (x y : Z) : res bool :=
  v ← grid (cfg env) x y; Ok (obsthresh (cfg env) <=? v).

Definition GetMapCost (env : EnvironmentNAV2D) (x y : Z) : res Z := grid (cfg env) x y.

(** [Grid2D[x][y] = v] *)
Definition write_grid (g : list (list Z)) (x y v : Z) : res (list (list Z)) :=
  col ← aget g x;
  col ← aset col y v;
  aset g x col.

(** [newcost] is an unsigned char. *)
Definition UpdateCost (env : EnvironmentNAV2D) (x y newcost : Z) : res (bool * EnvironmentNAV2D) :=
  g ← write_grid (Grid2D (cfg env)) x y newcost;
  Ok (true, set_cfg (set_grid g (cfg env)) env).

Definition GetEnvParms (env : EnvironmentNAV2D) : Z * Z * Z * Z * Z * Z * Z :=
  let c := cfg env in
  (EnvWidth_c c, EnvHeight_c c, StartX_c c, StartY_c c, EndX_c c, EndY_c c, obsthresh c).

Definition SetEnvParameter (env : EnvironmentNAV2D) (parameter : string) (value : Z) :
    bool * EnvironmentNAV2D :=
  if bInitialized env then (false, env)
  else if decide (parameter = "is16connected"%string) then
    (true, set_cfg (set_params (obsthresh (cfg env)) (if negb (value =? 0) then 16 else 8) (cfg env)) env)
  else (false, env).

(** ** Initialisation *)

(** The nested loops that fill the grid, column by column of the file. *)
Definition fill_grid (w h : Z) (value : Z -> Z -> res Z) (g : list (list Z)) : res (list (list Z)) :=
  foldM (fun g y => foldM (fun g x => v ← value x y; write_grid g x y v) g (seqZ 0 w)) g (seqZ 0 h).

(** [mapdata[x+y*width]], 0 without a map. *)
Definition map_value (mapdata : option (list Z)) (width x y : Z) : res Z :=
  match mapdata with
  | None => Ok 0
  | Some m => row ← mul_int int32 y width; i ← add_int int32 x row; aget m i
  end.

(** The cells of the new array are all written by the loops. *)
Definition new_grid (w h : Z) : list (list Z) := replicate (Z.to_nat w) (replicate (Z.to_nat h) 0).

Definition SetConfiguration (c : ENV_NAV2D_CONFIG) (width height : Z) (mapdata : option (list Z))
    (startx starty goalx goaly : Z) : res ENV_NAV2D_CONFIG :=
  let c := set_endpoints startx starty (EndX_c c) (EndY_c c) (set_size width height c) in
  if (StartX_c c <? 0) || (EnvWidth_c c <=? StartX_c c) then Err Thrown else
  if (StartY_c c <? 0) || (EnvHeight_c c <=? StartY_c c) then Err Thrown else
  let c := set_endpoints startx starty goalx goaly c in
  g ← fill_grid (EnvWidth_c c) (EnvHeight_c c) (map_value mapdata width)
        (new_grid (EnvWidth_c c) (EnvHeight_c c));
  Ok (set_grid g c).

(** The moves: the eight neighbors, then the eight knight moves, each with the
    two cells a knight move passes through. *)
Definition moves : list (Z * Z * (Z * Z) * (Z * Z)) :=
  [(1, 1, (0, 1), (1, 0)); (1, 0, (0, 0), (0, 0)); (1, -1, (0, 1), (-1, 0)); (0, 1, (0, 0), (0, 0));
   (0, -1, (0, 0), (0, 0)); (-1, 1, (0, -1), (1, 0)); (-1, 0, (0, 0), (0, 0)); (-1, -1, (0, -1), (-1, 0));
   (2, 1, (1, 1), (0, 1)); (1, 2, (0, 1), (1, 1)); (-1, 2, (0, -1), (1, 1)); (-2, 1, (-1, -1), (0, 1));
   (-2, -1, (-1, -1), (0, -1)); (-1, -2, (0, -1), (-1, -1)); (1, -2, (0, 1), (-1, -1));
   (2, -1, (1, 1), (0, -1))].

Definition Computedxy (c : ENV_NAV2D_CONFIG) : res ENV_NAV2D_CONFIG :=
  let dx := (fun '(x, _, _, _) => x) <$> moves in
  let dy := (fun '(_, y, _, _) => y) <$> moves in
  diagonal ← Doubles.to_type int32 (Doubles.ceil (Doubles.mul (Doubles.of_int ENVNAV2D_COSTMULT) (Doubles.literal 1414 1000)));
  knight ← Doubles.to_type int32 (Doubles.ceil (Doubles.mul (Doubles.of_int ENVNAV2D_COSTMULT) (Doubles.literal 2236 1000)));
  dist ← foldM (fun l dind =>
      x ← aget dx dind; y ← aget dy dind;
      Ok (l ++ [if negb (x =? 0) && negb (y =? 0) then if dind <=? 7 then diagonal else knight
                else ENVNAV2D_COSTMULT])) [] (seqZ 0 ENVNAV2D_MAXDIRS);
  Ok (mkCfg (EnvWidth_c c) (EnvHeight_c c) (StartX_c c) (StartY_c c) (EndX_c c) (EndY_c c) (Grid2D c)
    (obsthresh c) dx dy ((fun '(_, _, ix, _) => ix) <$> moves) ((fun '(_, _, _, iy) => iy) <$> moves)
    dist (numofdirs c)).

(** The index table is not cleared. *)
Definition InitializeEnvironment (env : EnvironmentNAV2D) : res EnvironmentNAV2D :=
  let env := mkEnv (cfg env) (startstateid env) (goalstateid env) (bInitialized env) (64 * 1024) ∅ []
    (StateID2IndexMapping env) in
  '(e, env) ← entry_at env (StartX_c (cfg env)) (StartY_c (cfg env));
  let env := set_ids (stateID e) (goalstateid env) env in
  '(e, env) ← entry_at env (EndX_c (cfg env)) (EndY_c (cfg env));
  let env := set_ids (startstateid env) (stateID e) env in
  Ok (mkEnv (cfg env) (startstateid env) (goalstateid env) true (HashTableSize env)
    (Coord2StateIDHashTable env) (StateID2CoordTable env) (StateID2IndexMapping env)).

(** [ComputeHeuristicValues] only prints. *)
Definition InitGeneral (env : EnvironmentNAV2D) : res (bool * EnvironmentNAV2D) :=
  c ← Computedxy (cfg env);
  env ← InitializeEnvironment (set_cfg c env);
  Ok (true, env).

(** [thresh] is an unsigned char. *)
Definition InitializeEnv (env : EnvironmentNAV2D) (width height : Z) (mapdata : option (list Z))
    (startx starty goalx goaly thresh : Z) : res (bool * EnvironmentNAV2D) :=
  c ← SetConfiguration (set_params thresh (numofdirs (cfg env)) (cfg env)) width height mapdata
        startx starty goalx goaly;
  InitGeneral (set_cfg c env).

(** The overload without start and goal. *)
Definition InitializeEnv_origin (env : EnvironmentNAV2D) (width height : Z) (mapdata : option (list Z))
    (thresh : Z) : res (bool * EnvironmentNAV2D) :=
  InitializeEnv env width height mapdata 0 0 0 0 thresh.

(** The goal and start ids written to the [MDPConfig]. *)
Definition InitializeMDPCfg (env : EnvironmentNAV2D) : Z * Z := (goalstateid env, startstateid env).

(** The id of the cell, -1 outside the map. *)
Definition SetGoal (env : EnvironmentNAV2D) (x y : Z) : res (Z * EnvironmentNAV2D) :=
  if negb (IsWithinMapCell (cfg env) x y) then Ok (-1, env) else
  _ ← IsValidCell (cfg env) x y;
  '(e, env) ← entry_at env x y;
  let env := set_ids (startstateid env) (stateID e) env in
  Ok (goalstateid env, set_cfg (set_endpoints (StartX_c (cfg env)) (StartY_c (cfg env)) x y (cfg env)) env).

Definition SetStart (env : EnvironmentNAV2D) (x y : Z) : res (Z * EnvironmentNAV2D) :=
  if negb (IsWithinMapCell (cfg env) x y) then Ok (-1, env) else
  _ ← IsValidCell (cfg env) x y;
  '(e, env) ← entry_at env x y;
  let env := set_ids (stateID e) (goalstateid env) env in
  Ok (startstateid env, set_cfg (set_endpoints x y (EndX_c (cfg env)) (EndY_c (cfg env)) (cfg env)) env).

(** ** Heuristics *)

Definition EuclideanDistance (X1 Y1 X2 Y2 : Z) : res Z :=
  dx ← add_int int32 X1 (- X2);
  dx2 ← mul_int int32 dx dx;
  dy ← add_int int32 Y1 (- Y2);
  dy2 ← mul_int int32 dy dy;
  sqdist ← add_int int32 dx2 dy2;
  Doubles.to_int (Doubles.mul (Doubles.of_int ENVNAV2D_COSTMULT) (Doubles.sqrt (Doubles.of_int sqdist))).

Definition GetFromToHeuristic (env : EnvironmentNAV2D) (from to : Z) : res Z :=
  f ← aget (StateID2CoordTable env) from;
  t ← aget (StateID2CoordTable env) to;
  EuclideanDistance (X f) (Y f) (X t) (Y t).

Definition GetGoalHeuristic (env : EnvironmentNAV2D) (id : Z) : res Z :=
  GetFromToHeuristic env id (goalstateid env).

Definition GetStartHeuristic (env : EnvironmentNAV2D) (id : Z) : res Z :=
  GetFromToHeuristic env (startstateid env) id.

Definition fastHeuristic (env : EnvironmentNAV2D) (id1 id2 : Z) : res Z :=
  s1 ← aget (StateID2CoordTable env) id1;
  s2 ← aget (StateID2CoordTable env) id2;
  x ← add_int int32 (X s1) (- X s2);
  y ← add_int int32 (Y s1) (- Y s2);
  let dx := Doubles.mul (Doubles.of_int x) (Doubles.of_int ENVNAV2D_COSTMULT) in
  let dy := Doubles.mul (Doubles.of_int y) (Doubles.of_int ENVNAV2D_COSTMULT) in
  Doubles.to_int (Doubles.sqrt (Doubles.add (Doubles.mul dx dx) (Doubles.mul dy dy))).

(** ** Successors and predecessors *)

(** A cell close enough to the border that a move can leave the map. *)
Definition test_bounds (c : ENV_NAV2D_CONFIG) (e : ENVHASHENTRY) : bool :=
  (X e <=? 1) || (EnvWidth_c c - 2 <=? X e) || (Y e <=? 1) || (EnvHeight_c c - 2 <=? Y e).

(** The largest cost among the cells move [aind] from [e] to (nx, ny) passes. *)
Definition max_cost (c : ENV_NAV2D_CONFIG) (e : ENVHASHENTRY) (nx ny aind costmult : Z) : res Z :=
  if negb (nx =? X e) && negb (ny =? Y e) && (aind <=? 7) then
    v ← grid c (X e) ny;
    let costmult := Z.max costmult v in
    v ← grid c nx (Y e);
    Ok (Z.max costmult v)
  else if 7 <? aind then
    ix ← aget (dxintersects_ c) aind;
    iy ← aget (dyintersects_ c) aind;
    v ← grid c (X e + fst ix) (Y e + fst iy);
    let costmult := Z.max costmult v in
    v ← grid c (X e + snd ix) (Y e + snd iy);
    Ok (Z.max costmult v)
  else Ok costmult.

(** One iteration of the loops over the actions: the cell the move leads to and
    its cost, none when the loop goes on.  [target] is the cost of the target
    cell when the move is taken backwards. *)
Definition try_move (c : ENV_NAV2D_CONFIG) (e : ENVHASHENTRY) (target : option Z) (aind : Z) :
    res (option (Z * Z * Z)) :=
  dx ← aget (dx_ c) aind;
  dy ← aget (dy_ c) aind;
  nx ← add_int int32 (X e) dx;
  ny ← add_int int32 (Y e) dy;
  ok ← if test_bounds c e then IsValidCell c nx ny else Ok true;
  if negb ok then Ok None else
  base ← match target with Some v => Ok v | None => grid c nx ny end;
  costmult ← max_cost c e nx ny aind base;
  if obsthresh c <=? costmult then Ok None else
  d ← aget (dxy_distance_mm_ c) aind;
  cost ← mul_int int32 (costmult + 1) d;
  Ok (Some (nx, ny, cost)).

(** The body of the loops over the actions; [emit] takes the id and cost of the
    move. *)
Definition one_move {S : Type} (emit : Z -> Z -> Z -> S -> S) (e : ENVHASHENTRY) (target : option Z)
    (st : S * EnvironmentNAV2D) (aind : Z) : res (S * EnvironmentNAV2D) :=
  let '(acc, env) := st in
  m ← try_move (cfg env) e target aind;
  match m with
  | None => Ok (acc, env)
  | Some (nx, ny, cost) =>
      '(out, env) ← entry_at env nx ny;
      Ok (emit aind (stateID out) cost acc, env)
  end.

Definition for_each_move {S : Type} (emit : Z -> Z -> Z -> S -> S) (e : ENVHASHENTRY) (target : option Z)
    (env : EnvironmentNAV2D) (acc : S) : res (S * EnvironmentNAV2D) :=
  foldM (one_move emit e target) (acc, env) (seqZ 0 (numofdirs (cfg env))).

(** [push_back] on the vectors of ids and costs. *)
Definition push_arc (aind id cost : Z) (v : list Z * list Z) : list Z * list Z :=
  (fst v ++ [id], snd v ++ [cost]).

Definition GetSuccs (env : EnvironmentNAV2D) (id : Z) : res (list Z * list Z * EnvironmentNAV2D) :=
  if id =? goalstateid env then Ok ([], [], env) else
  e ← aget (StateID2CoordTable env) id;
  for_each_move push_arc e None env ([], []).

(** [GetSuccs] by several threads: the entry is read, and each successor looked up
    or created, under the mutex; the threads interleave between these. *)
Inductive GetSuccs_call :=
  | Absorbed
  | Moving (e : ENVHASHENTRY) (aind : Z) (v : list Z * list Z).

Definition GetSuccs_begin (env : EnvironmentNAV2D) (id : Z) : res GetSuccs_call :=
  if id =? goalstateid env then Ok Absorbed else
  e ← aget (StateID2CoordTable env) id; Ok (Moving e 0 ([], [])).

Definition GetSuccs_next (env : EnvironmentNAV2D) (k : GetSuccs_call) :
    res (EnvironmentNAV2D * (GetSuccs_call + (list Z * list Z))) :=
  match k with
  | Absorbed => Ok (env, inr ([], []))
  | Moving e aind v =>
      if aind <? numofdirs (cfg env) then
        '(v, env) ← one_move push_arc e None (v, env) aind;
        Ok (env, inl (Moving e (aind + 1) v))
      else Ok (env, inr v)
  end.

Definition GetPreds (env : EnvironmentNAV2D) (id : Z) : res (list Z * list Z * EnvironmentNAV2D) :=
  e ← aget (StateID2CoordTable env) id;
  v ← grid (cfg env) (X e) (Y e);
  if obsthresh (cfg env) <=? v then Ok ([], [], env) else
  for_each_move push_arc e (Some v) env ([], []).

(** [CMDPACTION] and [CMDPSTATE] of utils/mdp: an action with its outcomes (id,
    cost, probability). *)
Record CMDPACTION := mkAction { ActionID : Z; Outcomes : list (Z * Z * Doubles.double) }.
Record CMDPSTATE := mkMDPState { StateID : Z; Actions : list CMDPACTION }.

Definition push_action (aind id cost : Z) (s : CMDPSTATE) : CMDPSTATE :=
  mkMDPState (StateID s) (Actions s ++ [mkAction aind [(id, cost, Doubles.of_int 1)]]).

Definition SetAllActionsandAllOutcomes (env : EnvironmentNAV2D) (state : CMDPSTATE) :
    res (CMDPSTATE * EnvironmentNAV2D) :=
  if StateID state =? goalstateid env then Ok (state, env) else
  e ← aget (StateID2CoordTable env) (StateID state);
  for_each_move push_action e None env state.

(** [GetPredsofChangedEdges] and [GetSuccsofChangedEdges] have the same body. *)
Definition ChangedEdges (env : EnvironmentNAV2D) (changedcells : list (Z * Z)) (ids : list Z) :
    res (list Z * EnvironmentNAV2D) :=
  foldM (fun '(ids, env) '(x, y) =>
      '(id, env) ← GetStateFromCoord env x y;
      foldM (fun '(ids, env) aind =>
          dx ← aget (dx_ (cfg env)) aind;
          dy ← aget (dy_ (cfg env)) aind;
          affx ← add_int int32 x dx;
          affy ← add_int int32 y dy;
          if negb (IsWithinMapCell (cfg env) affx affy) then Ok (ids, env) else
          '(id, env) ← GetStateFromCoord env affx affy;
          Ok (ids ++ [id], env)) (ids ++ [id], env) (seqZ 0 (numofdirs (cfg env))))
    (ids, env) changedcells.

Definition GetPredsofChangedEdges := ChangedEdges.
Definition GetSuccsofChangedEdges := ChangedEdges.
End Nav2D.
