(* ===== verification/Nav2DSpec.v ===== *)
(** * Properties of the 2D grid environment

    The invariant of the id tables, the moves of the grid against a reference
    definition, and the contract of the environment with a planner. *)

From S2P Require Import Prelude.
From S2P Require Import Doubles.
From S2P Require Import Nav2D.

Module Nav2DSpec.
Import Nav2D.

(** ** The hash function *)

Lemma u32_range z : 0 <= u32 z < 2 ^ 32.
Proof. apply Z.mod_pos_bound. reflexivity. Qed.

(** A shift to the right and an exclusive or stay below 2^32. *)
Lemma lxor_shiftr_range z n : 0 <= n -> 0 <= z < 2 ^ 32 -> 0 <= Z.lxor z (Z.shiftr z n) < 2 ^ 32.
Proof.
  intros Hn Hz. assert (Hs : 0 <= Z.shiftr z n < 2 ^ 32).
  { split; [apply Z.shiftr_nonneg; lia|]. rewrite Z.shiftr_div_pow2 by exact Hn.
    pose proof (Z.pow_pos_nonneg 2 n). assert (z / 2 ^ n <= z); [|lia].
    apply Z.div_le_upper_bound; nia. }
  split; [apply Z.lxor_nonneg; lia|].
  destruct (Z.eq_dec (Z.lxor z (Z.shiftr z n)) 0) as [->|Hne]; [reflexivity|].
  apply Z.log2_lt_pow2; [pose proof (proj2 (Z.lxor_nonneg z (Z.shiftr z n))); lia|].
  pose proof (Z.log2_lxor z (Z.shiftr z n) ltac:(lia) ltac:(lia)) as Hl.
  assert (Hlog : forall y, 0 <= y < 2 ^ 32 -> Z.log2 y < 32).
  { intros y Hy. destruct (Z.eq_dec y 0) as [->|]; [reflexivity|]. apply Z.log2_lt_pow2; lia. }
  pose proof (Hlog z Hz). pose proof (Hlog _ Hs). lia.
Qed.

Lemma inthash_range k : 0 <= inthash k < 2 ^ 32.
Proof. unfold inthash. apply lxor_shiftr_range; [lia|apply u32_range]. Qed.

Lemma GETHASHBIN_range env x y : HashTableSize env = 64 * 1024 -> 0 <= GETHASHBIN env x y < HashTableSize env.
Proof.
  intros Hs. unfold GETHASHBIN. rewrite Hs. change (u32 (64 * 1024 - 1)) with (Z.ones 16).
  rewrite Z.land_ones by lia. apply Z.mod_pos_bound. reflexivity.
Qed.

Lemma hashbin_ext env env' x y : HashTableSize env' = HashTableSize env -> GETHASHBIN env' x y = GETHASHBIN env x y.
Proof. unfold GETHASHBIN. intros ->. reflexivity. Qed.

(** ** The tables *)

(** The size of the largest map whose squared distances fit [int]. *)
Definition MAX_SIDE : Z := 32767.

(** A configuration the initialisation produces. *)
Record cfg_ok (c : ENV_NAV2D_CONFIG) : Prop := {
  co_width : 0 < EnvWidth_c c <= MAX_SIDE;
  co_height : 0 < EnvHeight_c c <= MAX_SIDE;
  co_grid : forall x y, 0 <= x < EnvWidth_c c -> 0 <= y < EnvHeight_c c ->
    exists v, grid c x y = Ok v /\ 0 <= v <= 255;
  co_thresh : 0 <= obsthresh c <= 255;
  co_dirs : numofdirs c = 8 \/ numofdirs c = 16;
  co_moves : Computedxy c = Ok c;
}.

Definition in_map (c : ENV_NAV2D_CONFIG) (x y : Z) : Prop := 0 <= x < EnvWidth_c c /\ 0 <= y < EnvHeight_c c.

Lemma within_map c x y : IsWithinMapCell c x y = true <-> in_map c x y.
Proof. unfold IsWithinMapCell, in_map. rewrite !andb_true_iff, !Z.leb_le, !Z.ltb_lt. tauto. Qed.

(** Ids and coordinates are inverse to each other, and the bin of a cell holds
    its entry. *)
Record env_ok (env : EnvironmentNAV2D) : Prop := {
  eo_cfg : cfg_ok (cfg env);
  eo_size : HashTableSize env = 64 * 1024;
  eo_ids : forall i e, aget (StateID2CoordTable env) i = Ok e -> stateID e = i;
  eo_coords : forall e, e ∈ StateID2CoordTable env -> in_map (cfg env) (X e) (Y e);
  eo_inj : forall e e', e ∈ StateID2CoordTable env -> e' ∈ StateID2CoordTable env ->
    X e = X e' -> Y e = Y e' -> e = e';
  eo_bins : forall b e, e ∈ default [] (Coord2StateIDHashTable env !! b) <->
    e ∈ StateID2CoordTable env /\ b = GETHASHBIN env (X e) (Y e);
  eo_index : length (StateID2IndexMapping env) = length (StateID2CoordTable env);
}.

(** The cell a state id stands for. *)
Definition cell_of (env : EnvironmentNAV2D) (i : Z) : option (Z * Z) :=
  match aget (StateID2CoordTable env) i with Ok e => Some (X e, Y e) | Err _ => None end.

(** Nothing that was issued changes. *)
Definition extends (env env' : EnvironmentNAV2D) : Prop :=
  cfg env' = cfg env /\ startstateid env' = startstateid env /\ goalstateid env' = goalstateid env /\
  exists l, StateID2CoordTable env' = StateID2CoordTable env ++ l.

#[export] Instance extends_preorder : PreOrder extends.
Proof.
  split.
  - intros env. split_and!; auto. exists []. rewrite app_nil_r. reflexivity.
  - intros a b c (C1 & S1 & G1 & l1 & E1) (C2 & S2 & G2 & l2 & E2).
    split_and!; [congruence..|]. exists (l1 ++ l2). rewrite E2, E1, (assoc_L (++)). reflexivity.
Qed.

Lemma extends_cell env env' i p : extends env env' -> cell_of env i = Some p -> cell_of env' i = Some p.
Proof.
  intros (_ & _ & _ & l & E). unfold cell_of. destruct (aget (StateID2CoordTable env) i) as [e|] eqn:Ee; [|discriminate].
  rewrite E, aget_app_l, Ee by (apply aget_bounds in Ee; lia). auto.
Qed.

Lemma aget_elem {A} (l : list A) i a : aget l i = Ok a -> a ∈ l.
Proof. intros [_ H]%aget_Ok. eapply list_elem_of_lookup_2. exact H. Qed.

Lemma elem_aget {A} (l : list A) a : a ∈ l -> exists i, aget l i = Ok a /\ 0 <= i < Z.of_nat (length l).
Proof.
  intros [n Hn]%list_elem_of_lookup_1. exists (Z.of_nat n).
  pose proof (lookup_lt_Some _ _ _ Hn). split; [|lia]. apply aget_Ok. rewrite Nat2Z.id. split; [lia|exact Hn].
Qed.

Section tables.
Context (env : EnvironmentNAV2D) (I : env_ok env).

Lemma at_coord_true x y e : at_coord x y e = true <-> X e = x /\ Y e = y.
Proof. unfold at_coord. rewrite andb_true_iff, !Z.eqb_eq. reflexivity. Qed.

Lemma GetHashEntry_ok x y : exists r, GetHashEntry env x y = Ok r /\
  match r with
  | Some e => e ∈ StateID2CoordTable env /\ X e = x /\ Y e = y
  | None => forall e, e ∈ StateID2CoordTable env -> ~ (X e = x /\ Y e = y)
  end.
Proof using I.
  unfold GetHashEntry, bin. pose proof (GETHASHBIN_range env x y (eo_size _ I)) as Hr.
  rewrite (proj2 (Z.leb_le 0 _)), (proj2 (Z.ltb_lt _ (HashTableSize env))) by lia. cbn [andb].
  rewrite bind_ok_l. eexists. split; [reflexivity|].
  destruct (List.find _ _) as [e|] eqn:Ef.
  - apply List.find_some in Ef as [Hin Hc]. apply at_coord_true in Hc.
    apply list_elem_of_In, (eo_bins _ I) in Hin. tauto.
  - intros e He [Hx Hy].
    assert (Hin : e ∈ default [] (Coord2StateIDHashTable env !! GETHASHBIN env x y)).
    { apply (eo_bins _ I). split; [exact He|]. rewrite Hx, Hy. reflexivity. }
    apply list_elem_of_In in Hin. pose proof (List.find_none _ _ Ef e Hin) as Hn.
    rewrite (proj2 (at_coord_true x y e)) in Hn by auto. discriminate.
Qed.

(** [CreateNewHashEntry] of a cell that has no entry. *)
Lemma CreateNewHashEntry_ok x y :
  in_map (cfg env) x y -> (forall e, e ∈ StateID2CoordTable env -> ~ (X e = x /\ Y e = y)) ->
  exists e env', CreateNewHashEntry env x y = Ok (e, env') /\ env_ok env' /\ extends env env' /\
    StateID2CoordTable env' = StateID2CoordTable env ++ [e] /\ X e = x /\ Y e = y.
Proof using I.
  intros Hm Hnew. unfold CreateNewHashEntry, bin. pose proof (GETHASHBIN_range env x y (eo_size _ I)) as Hr.
  rewrite (proj2 (Z.leb_le 0 _)), (proj2 (Z.ltb_lt _ (HashTableSize env))) by lia. cbn [andb].
  rewrite bind_ok_l. pose proof (eo_index _ I) as Hlen.
  set (e := mkEntry _ x y). cbn [stateID].
  rewrite aset_in, bind_ok_l by (rewrite length_app; cbn; lia).
  rewrite length_insert, length_app, Hlen. cbn [length stateID e].
  rewrite (proj2 (Z.eqb_eq _ _)) by lia. cbn [negb].
  eexists e, _. split; [reflexivity|].
  assert (Hext : extends env (mkEnv (cfg env) (startstateid env) (goalstateid env) (bInitialized env) (HashTableSize env)
    (<[GETHASHBIN env x y:=default [] (Coord2StateIDHashTable env !! GETHASHBIN env x y) ++ [e]]> (Coord2StateIDHashTable env))
    (StateID2CoordTable env ++ [e]) (<[Z.to_nat (Z.of_nat (length (StateID2CoordTable env))) :=
       replicate (Z.to_nat NUMOFINDICES_STATEID2IND) (Some (-1))]> (StateID2IndexMapping env ++ [replicate (Z.to_nat NUMOFINDICES_STATEID2IND) None]))))
    by (split_and!; eauto).
  split; [|split; [exact Hext|split; [reflexivity|split; reflexivity]]].
  split; cbn.
  - apply (eo_cfg _ I).
  - apply (eo_size _ I).
  - intros i e' He'. destruct (Z.lt_ge_cases i (Z.of_nat (length (StateID2CoordTable env)))) as [Hi|Hi].
    + rewrite aget_app_l in He' by exact Hi. apply (eo_ids _ I). exact He'.
    + pose proof (aget_bounds _ _ _ He') as Hb. rewrite length_app in Hb. cbn in Hb.
      assert (i = Z.of_nat (length (StateID2CoordTable env))) as -> by lia.
      apply aget_Ok in He' as [_ He']. rewrite Nat2Z.id, list_lookup_middle in He' by reflexivity.
      injection He' as <-. reflexivity.
  - intros e' [He'| ->%list_elem_of_singleton]%elem_of_app; [apply (eo_coords _ I); exact He'|exact Hm].
  - intros e1 e2 [H1| ->%list_elem_of_singleton]%elem_of_app [H2| ->%list_elem_of_singleton]%elem_of_app Hx Hy.
    + apply (eo_inj _ I); assumption.
    + destruct (Hnew e1 H1). split; [exact Hx|exact Hy].
    + destruct (Hnew e2 H2). split; [symmetry; exact Hx|symmetry; exact Hy].
    + reflexivity.
  - intros b e'. rewrite (hashbin_ext env _ (X e') (Y e')) by reflexivity.
    rewrite elem_of_app, list_elem_of_singleton.
    destruct (decide (b = GETHASHBIN env x y)) as [->|Hb].
    + rewrite lookup_insert_eq. cbn. rewrite elem_of_app, list_elem_of_singleton, (eo_bins _ I).
      split; [|tauto]. intros [H| ->]; [tauto|]. split; [auto|reflexivity].
    + rewrite lookup_insert_ne, (eo_bins _ I) by congruence. split; [tauto|].
      intros [[H| ->] ?]; [tauto|]. contradiction.
  - rewrite length_insert, !length_app, Hlen. reflexivity.
Qed.

Lemma entry_at_ok x y : in_map (cfg env) x y ->
  exists e env', entry_at env x y = Ok (e, env') /\ env_ok env' /\ extends env env' /\
    e ∈ StateID2CoordTable env' /\ X e = x /\ Y e = y.
Proof using I.
  intros Hm. unfold entry_at. destruct (GetHashEntry_ok x y) as ([e|] & -> & Hr); rewrite bind_ok_l.
  - exists e, env. split_and!; auto; [reflexivity|apply Hr..].
  - destruct (CreateNewHashEntry_ok x y Hm Hr) as (e & env' & E & O & Ex & Et & Hx & Hy).
    exists e, env'. split_and!; auto. rewrite Et, elem_of_app, list_elem_of_singleton. auto.
Qed.

(** The table after [entry_at]: as it was when the cell has an entry, one entry
    longer otherwise. *)
Lemma entry_at_table x y e env' : in_map (cfg env) x y -> entry_at env x y = Ok (e, env') ->
  StateID2CoordTable env' = StateID2CoordTable env /\ e ∈ StateID2CoordTable env \/
  StateID2CoordTable env' = StateID2CoordTable env ++ [e] /\ stateID e = Z.of_nat (length (StateID2CoordTable env)) /\
    forall e', e' ∈ StateID2CoordTable env -> ~ (X e' = x /\ Y e' = y).
Proof using I.
  intros Hm. unfold entry_at. destruct (GetHashEntry_ok x y) as ([e0|] & -> & Hr); rewrite bind_ok_l.
  - intros [= <- <-]. left. split; [reflexivity|apply Hr].
  - destruct (CreateNewHashEntry_ok x y Hm Hr) as (e1 & env1 & E & O & _ & Et & _). rewrite E. intros [= <- <-].
    right. split; [exact Et|]. split; [|exact Hr]. symmetry. pose proof (eo_ids _ O (Z.of_nat (length (StateID2CoordTable env))) e1) as Hid.
    rewrite Et in Hid. symmetry. apply Hid. apply aget_Ok. split; [lia|]. rewrite Nat2Z.id, lookup_app_r, Nat.sub_diag by lia. reflexivity.
Qed.

(** An entry of the table, found through its id. *)
Lemma entry_id e : e ∈ StateID2CoordTable env -> aget (StateID2CoordTable env) (stateID e) = Ok e.
Proof using I.
  intros (i & E & _)%elem_aget. rewrite (eo_ids _ I i e E). exact E.
Qed.

Lemma cell_inj i j p : cell_of env i = Some p -> cell_of env j = Some p -> i = j.
Proof using I.
  unfold cell_of. destruct (aget _ i) as [e|] eqn:Ei; [|discriminate]. intros [= <-].
  destruct (aget _ j) as [e'|] eqn:Ej; [|discriminate]. intros [= Hx Hy].
  assert (e' = e) as -> by (apply (eo_inj _ I); eauto using aget_elem).
  rewrite <- (eo_ids _ I i e Ei). apply (eo_ids _ I j e Ej).
Qed.

Lemma cell_range i p : cell_of env i = Some p ->
  in_map (cfg env) (fst p) (snd p) /\ 0 <= i < Z.of_nat (length (StateID2CoordTable env)).
Proof using I.
  unfold cell_of. destruct (aget _ i) as [e|] eqn:Ei; [|discriminate]. intros [= <-].
  split; [apply (eo_coords _ I); eapply aget_elem; exact Ei|eapply aget_bounds; exact Ei].
Qed.
End tables.

(** ** The moves of the grid *)

(** A move: its vector and the offsets of two cells on its way. *)
Abbreviation move := (Z * Z * (Z * Z) * (Z * Z))%type.

(** The cells a move from (x, y) enters: the target, and for a diagonal move
    the two cells beside it, for a knight move the two on its way. *)
Definition entered (m : move) (x y aind : Z) : list (Z * Z) :=
  let '(dx, dy, ix, iy) := m in
  (x + dx, y + dy) ::
  (if 7 <? aind then [(x + fst ix, y + fst iy); (x + snd ix, y + snd iy)]
   else if negb (dx =? 0) && negb (dy =? 0) then [(x, y + dy); (x + dx, y)] else []).

Definition value_at (c : ENV_NAV2D_CONFIG) (p : Z * Z) : Z :=
  match grid c (fst p) (snd p) with Ok v => v | Err _ => 0 end.

Definition largest (c : ENV_NAV2D_CONFIG) (l : list (Z * Z)) : Z := foldr Z.max 0 (value_at c <$> l).

Definition inside (c : ENV_NAV2D_CONFIG) (p : Z * Z) : bool := IsWithinMapCell c (fst p) (snd p).

(** The length of a move, in thousandths of a cell. *)
Definition length_of (m : move) (aind : Z) : Z :=
  let '(dx, dy, _, _) := m in
  if (dx =? 0) || (dy =? 0) then 1000 else if aind <=? 7 then 1414 else 2236.

(** The reference: a move leads to its target when every cell it enters is
    inside the map and below the threshold. *)
Definition legal (c : ENV_NAV2D_CONFIG) (x y aind : Z) : option (Z * Z * Z) :=
  match moves !! Z.to_nat aind with
  | None => None
  | Some m =>
      let l := entered m x y aind in
      if forallb (inside c) l && (largest c l <? obsthresh c)
      then Some (x + m.1.1.1, y + m.1.1.2, (largest c l + 1) * length_of m aind) else None
  end.

(** The cells of the move reversed: the cell itself instead of the target. *)
Definition entered_back (m : move) (x y aind : Z) : list (Z * Z) := (x, y) :: tail (entered m x y aind).

(** The reference for a move backwards from (x, y).  The cell it comes from is
    tested for obstacles only near the border. *)
Definition legal_back (c : ENV_NAV2D_CONFIG) (e : ENVHASHENTRY) (aind : Z) : option (Z * Z * Z) :=
  match moves !! Z.to_nat aind with
  | None => None
  | Some m =>
      let from := (X e + m.1.1.1, Y e + m.1.1.2) in
      let l := entered_back m (X e) (Y e) aind in
      if inside c from && (negb (test_bounds c e) || (value_at c from <? obsthresh c)) &&
         (largest c l <? obsthresh c)
      then Some (from, (largest c l + 1) * length_of m aind) else None
  end.

Lemma computed c : Computedxy c = Ok (mkCfg (EnvWidth_c c) (EnvHeight_c c) (StartX_c c) (StartY_c c) (EndX_c c)
  (EndY_c c) (Grid2D c) (obsthresh c) ((fun '(x, _, _, _) => x) <$> moves) ((fun '(_, y, _, _) => y) <$> moves)
  ((fun '(_, _, ix, _) => ix) <$> moves) ((fun '(_, _, _, iy) => iy) <$> moves)
  (imap (fun i m => length_of m (Z.of_nat i)) moves) (numofdirs c)).
Proof.
  unfold Computedxy.
  assert (Doubles.to_type int32 (Doubles.ceil (Doubles.mul (Doubles.of_int ENVNAV2D_COSTMULT) (Doubles.literal 1414 1000))) = Ok 1414)
    as -> by (vm_compute; reflexivity).
  assert (Doubles.to_type int32 (Doubles.ceil (Doubles.mul (Doubles.of_int ENVNAV2D_COSTMULT) (Doubles.literal 2236 1000))) = Ok 2236)
    as -> by (vm_compute; reflexivity).
  reflexivity.
Qed.

(** What the proofs need of a move: the tables hold it, it is short, and the
    cells on its way lie between its ends. *)
Definition short (i : nat) (m : move) : bool :=
  let '(dx, dy, ix, iy) := m in
  let between d i := (Z.min 0 d <=? i) && (i <=? Z.max 0 d) in
  (-2 <=? dx) && (dx <=? 2) && (-2 <=? dy) && (dy <=? 2) &&
  between dx (fst ix) && between dx (snd ix) && between dy (fst iy) && between dy (snd iy) &&
  (bool_decide (i <= 7)%nat || (negb (dx =? 0) && negb (dy =? 0))).

Lemma moves_short i m : moves !! i = Some m -> short i m = true.
Proof.
  intros H. assert (Hall : forallb (fun p => short (fst p) (snd p)) (imap pair moves) = true) by (vm_compute; reflexivity).
  rewrite forallb_forall in Hall. apply (Hall (i, m)). apply list_elem_of_In, elem_of_lookup_imap. eauto.
Qed.

Section moving.
Context (c : ENV_NAV2D_CONFIG) (C : cfg_ok c).

Lemma tables_of aind : 0 <= aind < numofdirs c -> exists dx dy ix iy, 
  moves !! Z.to_nat aind = Some (dx, dy, ix, iy) /\ aget (dx_ c) aind = Ok dx /\ aget (dy_ c) aind = Ok dy /\
  aget (dxintersects_ c) aind = Ok ix /\ aget (dyintersects_ c) aind = Ok iy /\
  aget (dxy_distance_mm_ c) aind = Ok (length_of (dx, dy, ix, iy) aind) /\
  short (Z.to_nat aind) (dx, dy, ix, iy) = true.
Proof using C.
  intros Ha. pose proof (co_moves _ C) as Hm. rewrite computed in Hm.
  pose proof (fun A (d : A) f => f_equal (fun r => match r with Ok a => f a | Err _ => d end) Hm) as F.
  pose proof (F _ [] dx_) as E1. pose proof (F _ [] dy_) as E2. pose proof (F _ [] dxintersects_) as E3.
  pose proof (F _ [] dyintersects_) as E4. pose proof (F _ [] dxy_distance_mm_) as E5. cbv beta iota in E1, E2, E3, E4, E5.
  destruct (lookup_lt_is_Some_2 moves (Z.to_nat aind)) as [[[[dx dy] ix] iy] Em].
  { cbn. destruct (co_dirs _ C) as [E|E]; rewrite E in Ha; lia. }
  exists dx, dy, ix, iy. split; [exact Em|].
  rewrite <- E1, <- E2, <- E3, <- E4, <- E5.
  cbv beta iota delta [dx_ dy_ dxintersects_ dyintersects_ dxy_distance_mm_].
  split_and!; try (apply aget_Ok; split; [lia|]; rewrite list_lookup_fmap, Em; reflexivity).
  - apply aget_Ok. split; [lia|]. rewrite list_lookup_imap, Em. cbn. rewrite Z2Nat.id by lia. reflexivity.
  - apply moves_short. exact Em.
Qed.

Lemma grid_value x y : in_map c x y -> grid c x y = Ok (value_at c (x, y)) /\ 0 <= value_at c (x, y) <= 255.
Proof using C.
  intros [Hx Hy]. destruct (co_grid _ C x y Hx Hy) as (v & E & Hv). unfold value_at. cbn. rewrite E. auto.
Qed.

(** The part of the loop after the bounds test. *)
Lemma max_cost_ok e dx dy ix iy aind base : short (Z.to_nat aind) (dx, dy, ix, iy) = true -> 0 <= aind ->
  in_map c (X e) (Y e) -> in_map c (X e + dx) (Y e + dy) -> 0 <= base ->
  aget (dxintersects_ c) aind = Ok ix -> aget (dyintersects_ c) aind = Ok iy ->
  max_cost c e (X e + dx) (Y e + dy) aind base =
    Ok (Z.max base (largest c (tail (entered (dx, dy, ix, iy) (X e) (Y e) aind)))) /\
  forallb (inside c) (tail (entered (dx, dy, ix, iy) (X e) (Y e) aind)) = true /\
  0 <= largest c (tail (entered (dx, dy, ix, iy) (X e) (Y e) aind)) <= 255.
Proof using C.
  unfold short. destruct ix as [ix0 ix1], iy as [iy0 iy1]. cbn [fst snd].
  rewrite !andb_true_iff, orb_true_iff, !Z.leb_le, bool_decide_eq_true, andb_true_iff, !negb_true_iff, !Z.eqb_neq.
  intros Hs Ha [Hx Hy] [Hnx Hny] Hb Eix Eiy. unfold max_cost, entered. cbn [tail fst snd].
  assert (H1 : forall i j, Z.min 0 dx <= i <= Z.max 0 dx -> Z.min 0 dy <= j <= Z.max 0 dy -> in_map c (X e + i) (Y e + j))
    by (intros i j Hi Hj; split; lia).
  destruct (Z.ltb_spec 7 aind) as [H7|H7].
  - rewrite (proj2 (Z.leb_gt aind 7)) by lia. rewrite andb_false_r.
    rewrite Eix, Eiy, !bind_ok_l. cbn [fst snd].
    destruct (grid_value (X e + ix0) (Y e + iy0)) as [-> V1]; [apply H1; lia|].
    destruct (grid_value (X e + ix1) (Y e + iy1)) as [-> V2]; [apply H1; lia|].
    rewrite !bind_ok_l. unfold largest, inside. cbn [forallb foldr fmap list_fmap fst snd]. rewrite !(proj2 (within_map c _ _)) by (apply H1; lia).
    split_and!; [f_equal; lia|reflexivity|lia..].
  - rewrite (proj2 (Z.leb_le aind 7)) by lia. rewrite andb_true_r.
    replace (X e + dx =? X e) with (dx =? 0) by (destruct (Z.eqb_spec dx 0), (Z.eqb_spec (X e + dx) (X e)); lia).
    replace (Y e + dy =? Y e) with (dy =? 0) by (destruct (Z.eqb_spec dy 0), (Z.eqb_spec (Y e + dy) (Y e)); lia).
    destruct (negb (dx =? 0) && negb (dy =? 0)).
    + destruct (grid_value (X e) (Y e + dy)) as [-> V1]; [split; lia|].
      destruct (grid_value (X e + dx) (Y e)) as [-> V2]; [split; lia|].
      rewrite !bind_ok_l. unfold largest, inside. cbn [forallb foldr fmap list_fmap fst snd]. rewrite !(proj2 (within_map c _ _)) by (split; lia).
      split_and!; [f_equal; lia|reflexivity|lia..].
    + unfold largest, inside. cbn [forallb foldr fmap list_fmap fst snd]. split_and!; [f_equal; lia|reflexivity|lia..].
Qed.

Lemma try_move_ok e aind : 0 <= aind < numofdirs c -> in_map c (X e) (Y e) ->
  try_move c e None aind = Ok (legal c (X e) (Y e) aind).
Proof using C.
  intros Ha Hm. destruct (tables_of aind Ha) as (dx & dy & ix & iy & Em & E1 & E2 & E3 & E4 & E5 & Hs).
  unfold try_move, legal. rewrite E1, E2, Em, !bind_ok_l. cbn [fst snd].
  pose proof (co_width _ C) as HW. pose proof (co_height _ C) as HH. unfold MAX_SIDE in *. pose proof Hm as [Hx Hy].
  pose proof (co_dirs _ C) as Hdirs.
  assert (Hd : -2 <= dx <= 2 /\ -2 <= dy <= 2) by (unfold short in Hs; rewrite !andb_true_iff, !Z.leb_le in Hs; lia).
  rewrite !add_int_in, !bind_ok_l by (unfold int_min, int32; cbn; lia).
  assert (Hcell : forallb (inside c) (entered (dx, dy, ix, iy) (X e) (Y e) aind) =
    IsWithinMapCell c (X e + dx) (Y e + dy) && forallb (inside c) (tail (entered (dx, dy, ix, iy) (X e) (Y e) aind))) by reflexivity.
  rewrite Hcell. clear Hcell.
  destruct (IsWithinMapCell c (X e + dx) (Y e + dy)) eqn:Ew.
  - apply within_map in Ew. destruct (grid_value _ _ Ew) as [Ev Hv].
    destruct (max_cost_ok e dx dy ix iy aind (value_at c (X e + dx, Y e + dy)) Hs ltac:(lia) Hm Ew ltac:(lia) E3 E4) as (Emax & Hin & Hr).
    rewrite Hin. cbn [andb].
    assert (HL : largest c (entered (dx, dy, ix, iy) (X e) (Y e) aind) =
      Z.max (value_at c (X e + dx, Y e + dy)) (largest c (tail (entered (dx, dy, ix, iy) (X e) (Y e) aind)))) by reflexivity.
    rewrite HL. set (rest := largest c (tail _)) in *. set (v := value_at c _) in *.
    assert (Hcont : (base ← grid c (X e + dx) (Y e + dy);
      costmult ← max_cost c e (X e + dx) (Y e + dy) aind base;
      if obsthresh c <=? costmult then Ok None else
      d ← aget (dxy_distance_mm_ c) aind; cost ← mul_int int32 (costmult + 1) d;
      Ok (Some (X e + dx, Y e + dy, cost))) = Ok (if Z.max v rest <? obsthresh c
        then Some (X e + dx, Y e + dy, (Z.max v rest + 1) * length_of (dx, dy, ix, iy) aind) else None)).
    { rewrite Ev, bind_ok_l, Emax, bind_ok_l.
      destruct (Z.leb_spec (obsthresh c) (Z.max v rest)), (Z.ltb_spec (Z.max v rest) (obsthresh c)); try lia; [reflexivity|].
      rewrite E5, bind_ok_l, mul_int_in; [reflexivity|].
      assert (1000 <= length_of (dx, dy, ix, iy) aind <= 2236) by (cbn; destruct (_ || _); [lia|]; destruct (aind <=? 7); lia).
      unfold int_min, int32. cbn [int_max]. nia. }
    destruct (test_bounds c e).
    + unfold IsValidCell. rewrite (proj2 (within_map c _ _)) by exact Ew. rewrite Ev, !bind_ok_l.
      destruct (Z.ltb_spec v (obsthresh c)); cbn [negb].
      * rewrite <- Hcont, Ev. reflexivity.
      * rewrite (proj2 (Z.ltb_ge (Z.max v rest) _)) by lia. reflexivity.
    + rewrite bind_ok_l. cbn [negb]. exact Hcont.
  - cbn [andb]. unfold test_bounds. destruct (_ || _) eqn:Et.
    + unfold IsValidCell. rewrite Ew. reflexivity.
    + rewrite !orb_false_iff, !Z.leb_gt in Et. exfalso.
      assert (IsWithinMapCell c (X e + dx) (Y e + dy) = true) by (apply within_map; split; lia). congruence.
Qed.

Lemma try_move_back_ok e aind : 0 <= aind < numofdirs c -> in_map c (X e) (Y e) ->
  try_move c e (Some (value_at c (X e, Y e))) aind = Ok (legal_back c e aind).
Proof using C.
  intros Ha Hm. destruct (tables_of aind Ha) as (dx & dy & ix & iy & Em & E1 & E2 & E3 & E4 & E5 & Hs).
  unfold try_move, legal_back. rewrite E1, E2, Em, !bind_ok_l. cbn [fst snd].
  pose proof (co_width _ C) as HW. pose proof (co_height _ C) as HH. unfold MAX_SIDE in *. pose proof Hm as [Hx Hy].
  pose proof (co_dirs _ C) as Hdirs.
  assert (Hd : -2 <= dx <= 2 /\ -2 <= dy <= 2) by (unfold short in Hs; rewrite !andb_true_iff, !Z.leb_le in Hs; lia).
  rewrite !add_int_in, !bind_ok_l by (unfold int_min, int32; cbn; lia).
  change (inside c (X e + dx, Y e + dy)) with (IsWithinMapCell c (X e + dx) (Y e + dy)).
  destruct (grid_value (X e) (Y e) Hm) as [_ Hv].
  destruct (IsWithinMapCell c (X e + dx) (Y e + dy)) eqn:Ew.
  - apply within_map in Ew. cbn [andb].
    destruct (max_cost_ok e dx dy ix iy aind (value_at c (X e, Y e)) Hs ltac:(lia) Hm Ew ltac:(lia) E3 E4) as (Emax & _ & Hr).
    assert (HL : largest c (entered_back (dx, dy, ix, iy) (X e) (Y e) aind) =
      Z.max (value_at c (X e, Y e)) (largest c (tail (entered (dx, dy, ix, iy) (X e) (Y e) aind)))) by reflexivity.
    rewrite HL. set (rest := largest c (tail _)) in *. set (v := value_at c (X e, Y e)) in *.
    assert (Hok : (if test_bounds c e then IsValidCell c (X e + dx) (Y e + dy) else Ok true) =
      Ok (negb (test_bounds c e) || (value_at c (X e + dx, Y e + dy) <? obsthresh c))).
    { destruct (test_bounds c e); [|reflexivity]. unfold IsValidCell.
      rewrite (proj2 (within_map c _ _)) by exact Ew. destruct (grid_value _ _ Ew) as [-> _]. reflexivity. }
    rewrite Hok, bind_ok_l. destruct (_ || _); cbn [negb andb]; [|reflexivity].
    rewrite Emax, bind_ok_l.
    destruct (Z.leb_spec (obsthresh c) (Z.max v rest)), (Z.ltb_spec (Z.max v rest) (obsthresh c)); try lia; [reflexivity|].
    rewrite E5, bind_ok_l, mul_int_in; [reflexivity|].
    assert (1000 <= length_of (dx, dy, ix, iy) aind <= 2236) by (cbn; destruct (_ || _); [lia|]; destruct (aind <=? 7); lia).
    unfold int_min, int32. cbn [int_max]. nia.
  - cbn [andb]. unfold test_bounds. destruct (_ || _) eqn:Et.
    + unfold IsValidCell. rewrite Ew. reflexivity.
    + rewrite !orb_false_iff, !Z.leb_gt in Et. exfalso.
      assert (IsWithinMapCell c (X e + dx) (Y e + dy) = true) by (apply within_map; split; lia). congruence.
Qed.

Lemma legal_in_map x y aind nx ny cost : legal c x y aind = Some (nx, ny, cost) -> in_map c nx ny.
Proof.
  unfold legal. destruct (moves !! _) as [[[[dx dy] ix] iy]|]; [|discriminate].
  destruct (forallb _ _ && _) eqn:E; [|discriminate]. intros [= <- <- _].
  rewrite !andb_true_iff in E. destruct E as [E _]. rewrite forallb_forall in E.
  apply within_map. apply (E (x + dx, y + dy)). left. reflexivity.
Qed.

Lemma legal_back_in_map e aind nx ny cost : legal_back c e aind = Some (nx, ny, cost) -> in_map c nx ny.
Proof.
  unfold legal_back. destruct (moves !! _) as [[[[dx dy] ix] iy]|]; [|discriminate].
  destruct (_ && _) eqn:E; [|discriminate]. intros [= <- <- _].
  rewrite !andb_true_iff in E. destruct E as [[E _] _]. apply within_map. exact E.
Qed.
End moving.

(** ** The loop over the moves *)

(** What the loop emits: for each move that is taken, its number, the id of its
    cell and its cost. *)
Definition taken (mv : Z -> option (Z * Z * Z)) (l : list Z) : list (Z * (Z * Z * Z)) :=
  omap (fun a => pair a <$> mv a) l.

Lemma for_each_move_ok {S} (emit : Z -> Z -> Z -> S -> S) e target env (acc : S) (mv : Z -> option (Z * Z * Z)) :
  env_ok env ->
  (forall a, 0 <= a < numofdirs (cfg env) -> try_move (cfg env) e target a = Ok (mv a)) ->
  (forall a x y w, mv a = Some (x, y, w) -> in_map (cfg env) x y) ->
  exists outs env', for_each_move emit e target env acc =
      Ok (fold_left (fun s '(a, i, w) => emit a i w s) outs acc, env') /\
    env_ok env' /\ extends env env' /\
    Forall2 (fun '(a, i, w) '(b, (x, y, v)) => a = b /\ w = v /\ cell_of env' i = Some (x, y)) outs
      (taken mv (seqZ 0 (numofdirs (cfg env)))).
Proof.
  intros I Htry Hin. unfold for_each_move.
  destruct (foldM_inv (one_move emit e target)
    (fun done st => exists outs, st.1 = fold_left (fun s '(a, i, w) => emit a i w s) outs acc /\
      env_ok st.2 /\ extends env st.2 /\
      Forall2 (fun '(a, i, w) '(b, (x, y, v)) => a = b /\ w = v /\ cell_of st.2 i = Some (x, y)) outs (taken mv done))
    (seqZ 0 (numofdirs (cfg env))) (acc, env)) as ([acc' env'] & E & outs & HS & O & X & F).
  - exists []. split_and!; [reflexivity|exact I|reflexivity|constructor].
  - intros done a todo [acc1 env1] Hl (outs & H1 & O1 & X1 & F1). cbn [fst snd] in *.
    assert (Ha : 0 <= a < numofdirs (cfg env)).
    { assert (a ∈ seqZ 0 (numofdirs (cfg env))) as Hr%elem_of_seqZ by (rewrite Hl; apply elem_of_app; right; left). lia. }
    pose proof X1 as (C1 & _). unfold one_move. rewrite C1, (Htry a Ha), bind_ok_l. unfold taken. rewrite omap_app. cbn [omap list_omap].
    destruct (mv a) as [[[nx ny] w]|] eqn:Em; cbn [fmap option_fmap option_map].
    + destruct (entry_at_ok env1 O1 nx ny) as (out & env2 & E2 & O2 & X2 & Hout & Hx & Hy).
      { rewrite C1. apply (Hin a _ _ w). exact Em. }
      rewrite E2, bind_ok_l. eexists. split; [reflexivity|]. cbn [fst snd].
      exists (outs ++ [(a, stateID out, w)]). split_and!.
      * rewrite fold_left_app, H1. reflexivity.
      * exact O2.
      * etransitivity; eassumption.
      * apply Forall2_app; [|constructor; [|constructor]].
        -- eapply Forall2_impl; [exact F1|]. intros [[? ?] ?] [? [[? ?] ?]] (-> & -> & Hc). split_and!; auto.
           eapply extends_cell; eassumption.
        -- split_and!; auto. unfold cell_of. rewrite (entry_id env2 O2 out Hout), Hx, Hy. reflexivity.
    + eexists. split; [reflexivity|]. cbn [fst snd]. exists outs. rewrite app_nil_r. auto.
  - cbn [fst snd] in *. subst acc'. exists outs, env'. auto.
Qed.

Lemma push_arc_all outs v :
  fold_left (fun s '(a, i, w) => push_arc a i w s) outs v =
  (v.1 ++ ((fun '(_, i, _) => i) <$> outs), v.2 ++ ((fun '(_, _, w) => w) <$> outs)).
Proof.
  revert v. induction outs as [|[[a i] w] outs IH]; intros v; cbn.
  - rewrite !app_nil_r. destruct v; reflexivity.
  - rewrite IH. unfold push_arc. cbn. rewrite <- !(assoc_L (++)). reflexivity.
Qed.

(** The neighbors of a cell with their costs. *)
Definition neighbors (mv : Z -> option (Z * Z * Z)) (dirs : Z) : list (Z * Z * Z) := omap mv (seqZ 0 dirs).

Lemma taken_neighbors mv l : snd <$> taken mv l = omap mv l.
Proof.
  induction l as [|a l IH]; [reflexivity|]. unfold taken in *. cbn. destruct (mv a); cbn; rewrite IH; reflexivity.
Qed.

(** The two vectors a planner gets, against the cells and costs they stand for. *)
Definition arcs_as (env : EnvironmentNAV2D) (ids costs : list Z) (l : list (Z * Z * Z)) : Prop :=
  cell_of env <$> ids = Some ∘ fst <$> l /\ costs = snd <$> l.

Lemma emitted_arcs env' outs mv l :
  Forall2 (fun '(a, i, w) '(b, (x, y, v)) => a = b /\ w = v /\ cell_of env' i = Some (x, y)) outs (taken mv l) ->
  arcs_as env' ((fun '(_, i, _) => i) <$> outs) ((fun '(_, _, w) => w) <$> outs) (omap mv l).
Proof.
  intros F. rewrite <- taken_neighbors. unfold arcs_as. induction F as [|[[a i] w] [b [[x y] v]] outs l' (-> & -> & Hc) F [IH1 IH2]].
  - split; reflexivity.
  - cbn. rewrite Hc, IH1, IH2. split; reflexivity.
Qed.

Section arcs.
Context (env : EnvironmentNAV2D) (I : env_ok env) (id x y : Z) (Hid : cell_of env id = Some (x, y)).

Lemma entry_of_cell : exists e, aget (StateID2CoordTable env) id = Ok e /\ X e = x /\ Y e = y /\ in_map (cfg env) x y.
Proof using I Hid.
  pose proof (cell_range env I id _ Hid) as [Hm _]. revert Hid. unfold cell_of.
  destruct (aget _ id) as [e|]; [|discriminate]. intros [= <- <-]. eauto.
Qed.

Lemma GetSuccs_ok : id <> goalstateid env -> exists ids costs env',
  GetSuccs env id = Ok (ids, costs, env') /\ env_ok env' /\ extends env env' /\
  arcs_as env' ids costs (neighbors (legal (cfg env) x y) (numofdirs (cfg env))).
Proof using I Hid.
  intros Hg. destruct entry_of_cell as (e & Ee & Hx & Hy & Hm). unfold GetSuccs.
  rewrite (proj2 (Z.eqb_neq _ _) Hg), Ee, bind_ok_l.
  destruct (for_each_move_ok push_arc e None env ([], []) (legal (cfg env) x y) I) as (outs & env' & -> & O & Ex & F).
  - intros a Ha. rewrite (try_move_ok (cfg env) (eo_cfg _ I)) by (rewrite ?Hx, ?Hy; assumption). rewrite Hx, Hy. reflexivity.
  - intros a nx ny w. apply legal_in_map.
  - rewrite push_arc_all. cbn [fst snd app]. eexists _, _, env'. split_and!; [reflexivity|exact O|exact Ex|..];
      apply (emitted_arcs env' outs); exact F.
Qed.

Lemma GetPreds_ok : exists e ids costs env', aget (StateID2CoordTable env) id = Ok e /\
  GetPreds env id = Ok (ids, costs, env') /\ env_ok env' /\ extends env env' /\
  arcs_as env' ids costs (if obsthresh (cfg env) <=? value_at (cfg env) (x, y) then []
    else neighbors (legal_back (cfg env) e) (numofdirs (cfg env))).
Proof using I Hid.
  destruct entry_of_cell as (e & Ee & Hx & Hy & Hm). exists e. unfold GetPreds. rewrite Ee, bind_ok_l, Hx, Hy.
  destruct (grid_value (cfg env) (eo_cfg _ I) x y Hm) as [-> Hv]. rewrite bind_ok_l.
  destruct (obsthresh (cfg env) <=? value_at (cfg env) (x, y)).
  - exists [], [], env. split_and!; auto; [reflexivity|split; reflexivity].
  - destruct (for_each_move_ok push_arc e (Some (value_at (cfg env) (x, y))) env ([], []) (legal_back (cfg env) e) I) as (outs & env' & -> & O & Ex & F).
    + intros a Ha. rewrite <- Hx, <- Hy. apply (try_move_back_ok (cfg env) (eo_cfg _ I)); [exact Ha|rewrite Hx, Hy; exact Hm].
    + intros a nx ny w. apply legal_back_in_map.
    + rewrite push_arc_all. cbn [fst snd app]. eexists _, _, env'. split_and!; [reflexivity|reflexivity|exact O|exact Ex|..];
        apply (emitted_arcs env' outs); exact F.
Qed.
End arcs.

(** ** Moves forwards and backwards *)

(** The index of the opposite move. *)
Definition opposite (aind : Z) : Z :=
  nth (Z.to_nat aind) [7; 6; 5; 4; 3; 2; 1; 0; 12; 13; 14; 15; 8; 9; 10; 11] 0.

Lemma largest_perm c l l' : l ≡ₚ l' -> largest c l = largest c l'.
Proof.
  unfold largest. induction 1 as [|p l l' _ IH|p q l|l1 l2 l3 _ IH1 _ IH2]; cbn in *; [reflexivity|rewrite IH; reflexivity|lia|congruence].
Qed.

Definition action_list : list nat := seq 0 16.

(** Reversed, a move has the opposite vector and passes the same cells. *)
Lemma opposite_move aind dx dy ix iy : moves !! Z.to_nat aind = Some (dx, dy, ix, iy) -> 0 <= aind ->
  exists ix' iy', moves !! Z.to_nat (opposite aind) = Some (- dx, - dy, ix', iy') /\
    0 <= opposite aind < 16 /\ opposite (opposite aind) = aind /\ (opposite aind < 8 <-> aind < 8) /\
    length_of (- dx, - dy, ix', iy') (opposite aind) = length_of (dx, dy, ix, iy) aind /\
    forall x y, entered (- dx, - dy, ix', iy') (x + dx) (y + dy) (opposite aind) =
      (x, y) :: rev (tail (entered (dx, dy, ix, iy) x y aind)).
Proof.
  intros Em Ha. assert (Hn : (Z.to_nat aind < 16)%nat) by (apply lookup_lt_Some in Em; exact Em).
  assert (Hz : aind ∈ [0; 1; 2; 3; 4; 5; 6; 7; 8; 9; 10; 11; 12; 13; 14; 15])
    by (change [0; 1; 2; 3; 4; 5; 6; 7; 8; 9; 10; 11; 12; 13; 14; 15] with (seqZ 0 16); apply elem_of_seqZ; lia).
  repeat (apply elem_of_cons in Hz as [->|Hz]); [..|inversion Hz];
    vm_compute in Em; injection Em as <- <- <- <-; eexists _, _;
    (split; [vm_compute; reflexivity|]); (split; [vm_compute; split; congruence|]);
    (split; [reflexivity|]); (split; [vm_compute; split; congruence|]); (split; [reflexivity|]);
    intros x y; cbv -[Z.add]; repeat match goal with |- _ :: _ = _ :: _ => f_equal | |- (_, _) = (_, _) => f_equal end; lia.
Qed.

Section reversal.
Context (c : ENV_NAV2D_CONFIG) (C : cfg_ok c).

Lemma legal_reverse e aind dx dy ix iy w : 0 <= aind < numofdirs c ->
  moves !! Z.to_nat aind = Some (dx, dy, ix, iy) -> in_map c (X e) (Y e) ->
  value_at c (X e + dx, Y e + dy) < obsthresh c -> in_map c (X e + dx) (Y e + dy) ->
  legal_back c e aind = Some (X e + dx, Y e + dy, w) <->
  legal c (X e + dx) (Y e + dy) (opposite aind) = Some (X e, Y e, w).
Proof using C.
  intros Ha Em Ht Hfree Hp. destruct (opposite_move aind dx dy ix iy Em ltac:(lia)) as (ix' & iy' & Em' & _ & _ & _ & Hlen & Hent).
  destruct (tables_of c C aind Ha) as (dx0 & dy0 & ix0 & iy0 & Em0 & _ & _ & Ex & Ey & _ & Hs).
  rewrite Em in Em0. injection Em0 as <- <- <- <-.
  destruct (max_cost_ok c C e dx dy ix iy aind 0 Hs ltac:(lia) Ht Hp ltac:(lia) Ex Ey) as (_ & Hin & _).
  unfold legal_back, legal. rewrite Em, Em', Hent, Hlen. cbn [fst snd].
  replace (X e + dx + - dx) with (X e) by lia. replace (Y e + dy + - dy) with (Y e) by lia.
  assert (Hins : forallb (inside c) ((X e, Y e) :: rev (tail (entered (dx, dy, ix, iy) (X e) (Y e) aind))) = true).
  { apply forallb_forall. intros q [<-|Hq].
    - apply within_map. exact Ht.
    - apply in_rev in Hq. rewrite forallb_forall in Hin. auto. }
  rewrite Hins. unfold entered_back.
  rewrite (largest_perm c ((X e, Y e) :: rev _) ((X e, Y e) :: tail (entered (dx, dy, ix, iy) (X e) (Y e) aind)))
    by (f_equiv; symmetry; apply Permutation_rev).
  unfold inside at 1. cbn [fst snd]. rewrite (proj2 (within_map c _ _) Hp), (proj2 (Z.ltb_lt _ _) Hfree), orb_true_r. cbn [andb].
  destruct (_ <? _); split; intros [= <-]; reflexivity.
Qed.

(** A cell is a predecessor at a cost exactly when this one is its successor at
    that cost, for cells that are not obstacles. *)
Lemma preds_succs e px py w : in_map c (X e) (Y e) -> in_map c px py -> value_at c (px, py) < obsthresh c ->
  (px, py, w) ∈ neighbors (legal_back c e) (numofdirs c) <->
  (X e, Y e, w) ∈ neighbors (legal c px py) (numofdirs c).
Proof using C.
  intros Ht Hp Hfree. unfold neighbors. rewrite !list_elem_of_omap.
  assert (Hopp : forall a, a ∈ seqZ 0 (numofdirs c) -> opposite a ∈ seqZ 0 (numofdirs c) /\ opposite (opposite a) = a).
  { intros a Ha%elem_of_seqZ. destruct (tables_of c C a ltac:(lia)) as (dx & dy & ix & iy & Em & _).
    destruct (opposite_move a dx dy ix iy Em ltac:(lia)) as (_ & _ & _ & Hr & Hoo & H8 & _).
    split; [apply elem_of_seqZ; destruct (co_dirs c C) as [E|E]; rewrite E in *; lia|exact Hoo]. }
  split.
  - intros (a & Ha & E). exists (opposite a). split; [apply Hopp; exact Ha|]. apply elem_of_seqZ in Ha.
    destruct (tables_of c C a ltac:(lia)) as (dx & dy & ix & iy & Em & _).
    assert (px = X e + dx /\ py = Y e + dy) as [-> ->].
    { revert E. unfold legal_back. rewrite Em. destruct (_ && _); [|discriminate]. intros [= <- <- _]. auto. }
    apply (legal_reverse e a dx dy ix iy w ltac:(lia) Em Ht Hfree Hp). exact E.
  - intros (b & Hb & E). destruct (Hopp b Hb) as [Ha Hoo]. exists (opposite b). split; [exact Ha|].
    apply elem_of_seqZ in Ha, Hb.
    destruct (tables_of c C b ltac:(lia)) as (dx & dy & ix & iy & Em & _).
    destruct (opposite_move b dx dy ix iy Em ltac:(lia)) as (ix' & iy' & Em' & _).
    assert (X e = px + dx /\ Y e = py + dy) as [Hx Hy].
    { revert E. unfold legal. rewrite Em. destruct (_ && _); [|discriminate]. intros [= <- <- _]. auto. }
    assert (Hpx : px = X e + - dx) by lia. assert (Hpy : py = Y e + - dy) by lia. rewrite Hpx, Hpy in *.
    apply (legal_reverse e (opposite b) (- dx) (- dy) ix' iy' w ltac:(lia) Em' Ht Hfree Hp). rewrite Hoo. exact E.
Qed.
End reversal.
End Nav2DSpec.
