(* ===== verification/Nav2DEnv.v ===== *)
(** * The 2D grid environment as a whole

    Initialisation, the invariant through every public operation, the round trip
    of ids and coordinates, and the contract of Environment.v. *)

From S2P Require Import Prelude.
From S2P Require Import Doubles.
From S2P Require Import Environment.
From S2P Require Import Nav2D.
From S2P Require Import Nav2DSpec.

Module Nav2DEnv.
Import Nav2D Nav2DSpec.

(** ** Filling the grid *)

(** The array has [w] columns of [h] cells. *)
Definition shaped (w h : Z) (g : list (list Z)) : Prop :=
  Z.of_nat (length g) = w /\ forall col, col ∈ g -> Z.of_nat (length col) = h.

Definition cell (g : list (list Z)) (x y : Z) : res Z := col ← aget g x; aget col y.

Lemma write_grid_ok w h g x y v : shaped w h g -> 0 <= x < w -> 0 <= y < h ->
  exists g', write_grid g x y v = Ok g' /\ shaped w h g' /\
    forall x' y', cell g' x' y' = if decide (x' = x /\ y' = y) then Ok v else cell g x' y'.
Proof.
  intros [Hw Hh] Hx Hy. unfold write_grid. destruct (aget_in g x) as [col Ec]; [lia|].
  pose proof (Hh col (aget_elem _ _ _ Ec)) as Hc. rewrite Ec, bind_ok_l.
  rewrite aset_in, bind_ok_l, aset_in by lia. eexists. split; [reflexivity|]. split.
  - split; [rewrite length_insert; exact Hw|]. intros c [n Hn]%list_elem_of_lookup_1.
    destruct (decide (n = Z.to_nat x)) as [->|Hne].
    + rewrite list_lookup_insert_eq in Hn by (apply aget_Ok in Ec as [_ Ec]; eapply lookup_lt_Some; exact Ec).
      injection Hn as <-. rewrite length_insert. exact Hc.
    + rewrite list_lookup_insert_ne in Hn by congruence. apply Hh. eapply list_elem_of_lookup_2. exact Hn.
  - intros x' y'. unfold cell. rewrite aget_insert by lia. destruct (decide (x' = x)) as [->|Hne].
    + rewrite bind_ok_l, aget_insert, Ec, bind_ok_l by lia.
      destruct (decide (y' = y)), (decide (x = x /\ y' = y)); tauto.
    + rewrite decide_False by tauto. reflexivity.
Qed.

Lemma fill_grid_ok w h value (f : Z -> Z -> Z) g : shaped w h g ->
  (forall x y, 0 <= x < w -> 0 <= y < h -> value x y = Ok (f x y)) ->
  exists g', fill_grid w h value g = Ok g' /\ shaped w h g' /\
    forall x y, 0 <= x < w -> 0 <= y < h -> cell g' x y = Ok (f x y).
Proof.
  intros Hg Hv. unfold fill_grid.
  destruct (foldM_inv (fun g y => foldM (fun g x => v ← value x y; write_grid g x y v) g (seqZ 0 w))
    (fun done g => shaped w h g /\ forall x y, 0 <= x < w -> y ∈ done -> cell g x y = Ok (f x y))
    (seqZ 0 h) g) as (g' & E & Hs & Hf).
  - split; [exact Hg|]. intros x y _ Hy. inversion Hy.
  - intros done y todo g1 Hl [Hs1 Hf1].
    assert (Hy : 0 <= y < h).
    { assert (y ∈ seqZ 0 h) as H%elem_of_seqZ by (rewrite Hl; apply elem_of_app; right; left). lia. }
    destruct (foldM_inv (fun g x => v ← value x y; write_grid g x y v)
      (fun donex g => shaped w h g /\ (forall x, x ∈ donex -> cell g x y = Ok (f x y)) /\
        forall x y', 0 <= x < w -> y' ∈ done -> cell g x y' = Ok (f x y')) (seqZ 0 w) g1) as (g2 & E2 & Hs2 & Hr2 & Hf2).
    + split; [exact Hs1|]. split; [intros x Hx; inversion Hx|exact Hf1].
    + intros donex x todox g3 Hlx (Hs3 & Hr3 & Hf3).
      assert (Hx : 0 <= x < w).
      { assert (x ∈ seqZ 0 w) as H%elem_of_seqZ by (rewrite Hlx; apply elem_of_app; right; left). lia. }
      rewrite Hv, bind_ok_l by assumption.
      destruct (write_grid_ok w h g3 x y (f x y) Hs3 Hx Hy) as (g4 & E4 & Hs4 & Hc4).
      exists g4. split; [exact E4|]. split; [exact Hs4|]. split.
      * intros x' [Hx'| ->%list_elem_of_singleton]%elem_of_app; rewrite Hc4; case_decide as Hd; auto.
        -- destruct Hd as [-> _]. reflexivity.
        -- tauto.
      * intros x' y' Hx' Hy'. rewrite Hc4. case_decide as Hd; [destruct Hd as [-> ->]; reflexivity|auto].
    + exists g2. split; [exact E2|]. split; [exact Hs2|].
      intros x y' Hx [Hy'| ->%list_elem_of_singleton]%elem_of_app; [auto|]. apply Hr2. apply elem_of_seqZ. lia.
  - exists g'. split; [exact E|]. split; [exact Hs|]. intros x y Hx Hy. apply Hf; [exact Hx|]. apply elem_of_seqZ. lia.
Qed.

Lemma new_grid_shaped w h : 0 <= w -> 0 <= h -> shaped w h (new_grid w h).
Proof.
  intros Hw Hh. unfold new_grid. split; [rewrite length_replicate; lia|].
  intros col [-> _]%elem_of_replicate. rewrite length_replicate. lia.
Qed.

(** ** Initialisation *)

(** A map the caller may pass: one unsigned char per cell, row by row. *)
Record map_ok (w h : Z) (mapdata : option (list Z)) (f : Z -> Z -> Z) : Prop := {
  mo_width : 0 < w <= MAX_SIDE;
  mo_height : 0 < h <= MAX_SIDE;
  mo_value : forall x y, 0 <= x < w -> 0 <= y < h -> map_value mapdata w x y = Ok (f x y) /\ 0 <= f x y <= 255;
}.

(** Any list of [w * h] bytes is such a map. *)
Lemma bytes_map_ok w h m : 0 < w <= MAX_SIDE -> 0 < h <= MAX_SIDE -> w * h <= Z.of_nat (length m) ->
  (forall b, b ∈ m -> 0 <= b <= 255) ->
  map_ok w h (Some m) (fun x y => match aget m (x + y * w) with Ok v => v | Err _ => 0 end).
Proof.
  intros Hw Hh Hl Hb. split; [exact Hw|exact Hh|]. intros x y Hx Hy. unfold MAX_SIDE in *.
  assert (Hi : 0 <= x + y * w < w * h) by nia.
  unfold map_value. rewrite mul_int_in, bind_ok_l, add_int_in, bind_ok_l by (unfold int_min, int32; cbn [int_max]; nia).
  destruct (aget_in m (x + y * w)) as [v Ev]; [lia|]. rewrite Ev. split; [reflexivity|]. apply Hb. eapply aget_elem. exact Ev.
Qed.

Lemma SetConfiguration_ok c w h mapdata f sx sy gx gy : map_ok w h mapdata f -> 0 <= sx < w -> 0 <= sy < h ->
  exists g, SetConfiguration c w h mapdata sx sy gx gy = Ok (set_grid g (set_endpoints sx sy gx gy (set_size w h c))) /\
    forall x y, 0 <= x < w -> 0 <= y < h -> cell g x y = Ok (f x y).
Proof.
  intros [Hw Hh Hf] Hx Hy. unfold SetConfiguration. cbn [StartX_c StartY_c EnvWidth_c EnvHeight_c set_endpoints set_size].
  rewrite (proj2 (Z.ltb_ge sx 0)), (proj2 (Z.leb_gt w sx)), (proj2 (Z.ltb_ge sy 0)), (proj2 (Z.leb_gt h sy)) by lia. cbn [orb].
  destruct (fill_grid_ok w h (map_value mapdata w) f (new_grid w h)) as (g & -> & _ & Hg).
  - apply new_grid_shaped; lia.
  - intros x y Hx' Hy'. apply Hf; assumption.
  - rewrite bind_ok_l. exists g. split; [reflexivity|exact Hg].
Qed.

Lemma SetConfiguration_bad_start c w h mapdata sx sy gx gy : ~ (0 <= sx < w /\ 0 <= sy < h) ->
  SetConfiguration c w h mapdata sx sy gx gy = Err Thrown.
Proof.
  intros Hn. unfold SetConfiguration. cbn [StartX_c StartY_c EnvWidth_c EnvHeight_c set_endpoints set_size].
  destruct (Z.ltb_spec sx 0), (Z.leb_spec w sx), (Z.ltb_spec sy 0), (Z.leb_spec h sy); cbn; try reflexivity. lia.
Qed.

(** The tables right after they are emptied. *)
Lemma env_ok_empty c s g b : cfg_ok c -> env_ok (mkEnv c s g b (64 * 1024) ∅ [] []).
Proof.
  intros C. split; cbn; try reflexivity; [exact C|..].
  - intros i e He. apply aget_bounds in He. cbn in He. lia.
  - intros e He. inversion He.
  - intros e e' He. inversion He.
  - intros k e. rewrite lookup_empty. cbn. split; [intros H; inversion H|intros [H _]; inversion H].
Qed.

(** The invariant does not look at the ids of start and goal and the flag. *)
Lemma env_ok_ext env env' : env_ok env -> cfg env' = cfg env -> HashTableSize env' = HashTableSize env ->
  Coord2StateIDHashTable env' = Coord2StateIDHashTable env -> StateID2CoordTable env' = StateID2CoordTable env ->
  StateID2IndexMapping env' = StateID2IndexMapping env -> env_ok env'.
Proof.
  intros [H1 H2 H3 H4 H5 H6 H7] E1 E2 E3 E4 E5. split; rewrite ?E1, ?E2, ?E3, ?E4, ?E5; try assumption.
  intros b e. rewrite (hashbin_ext env env' _ _ E2). apply H6.
Qed.

Lemma env_ok_set_ids env s g : env_ok env -> env_ok (set_ids s g env).
Proof. intros H. apply (env_ok_ext env); [exact H|reflexivity..]. Qed.

Lemma env_ok_initialised env b : env_ok env -> env_ok (mkEnv (cfg env) (startstateid env) (goalstateid env) b
  (HashTableSize env) (Coord2StateIDHashTable env) (StateID2CoordTable env) (StateID2IndexMapping env)).
Proof. intros H. apply (env_ok_ext env); [exact H|reflexivity..]. Qed.

Lemma InitializeEnvironment_ok env : cfg_ok (cfg env) -> StateID2IndexMapping env = [] ->
  in_map (cfg env) (StartX_c (cfg env)) (StartY_c (cfg env)) ->
  in_map (cfg env) (EndX_c (cfg env)) (EndY_c (cfg env)) ->
  exists env', InitializeEnvironment env = Ok env' /\ env_ok env' /\ cfg env' = cfg env /\
    cell_of env' (startstateid env') = Some (StartX_c (cfg env), StartY_c (cfg env)) /\
    cell_of env' (goalstateid env') = Some (EndX_c (cfg env), EndY_c (cfg env)) /\
    startstateid env' = 0 /\
    goalstateid env' = if decide ((StartX_c (cfg env), StartY_c (cfg env)) = (EndX_c (cfg env), EndY_c (cfg env))) then 0 else 1.
Proof.
  intros C Hm Hs Hg. unfold InitializeEnvironment. rewrite Hm.
  set (env0 := mkEnv _ _ _ _ _ _ _ _).
  assert (I0 : env_ok env0) by (apply env_ok_empty; exact C).
  destruct (entry_at_ok env0 I0 (StartX_c (cfg env)) (StartY_c (cfg env)) Hs) as (e1 & env1 & E1 & I1 & X1 & H1 & Hx1 & Hy1).
  change (StartX_c (cfg env0)) with (StartX_c (cfg env)). change (StartY_c (cfg env0)) with (StartY_c (cfg env)).
  assert (T1 : StateID2CoordTable env1 = [e1] /\ stateID e1 = 0).
  { destruct (entry_at_table env0 I0 _ _ _ _ Hs E1) as [[_ Hin]|(T & Hid & _)]; [inversion Hin|]. rewrite T. auto. }
  rewrite E1, bind_ok_l. pose proof X1 as (C1 & _). change (cfg env0) with (cfg env) in C1.
  set (env1' := set_ids (stateID e1) (goalstateid env1) env1).
  assert (I1' : env_ok env1') by (apply env_ok_set_ids; exact I1).
  change (cfg env1') with (cfg env1). rewrite C1.
  destruct (entry_at_ok env1' I1' (EndX_c (cfg env)) (EndY_c (cfg env))) as (e2 & env2 & E2 & I2 & X2 & H2 & Hx2 & Hy2).
  { change (cfg env1') with (cfg env1). rewrite C1. exact Hg. }
  assert (T2 : stateID e2 = if decide ((StartX_c (cfg env), StartY_c (cfg env)) = (EndX_c (cfg env), EndY_c (cfg env))) then 0 else 1).
  { pose proof T1 as [T Hid]. assert (Hg' : in_map (cfg env1') (EndX_c (cfg env)) (EndY_c (cfg env))) by (change (cfg env1') with (cfg env1); rewrite C1; exact Hg).
    destruct (entry_at_table env1' I1' _ _ _ _ Hg' E2) as [[_ Hin]|(_ & Hid2 & Hnew)];
      change (StateID2CoordTable env1') with (StateID2CoordTable env1) in *; rewrite T in *.
    - apply list_elem_of_singleton in Hin as ->. rewrite decide_True by congruence. exact Hid.
    - rewrite decide_False; [exact Hid2|]. intros [= Ex Ey]. apply (Hnew e1); [left|]. split; congruence. }
  rewrite E2, bind_ok_l. cbn [cfg startstateid goalstateid set_ids HashTableSize Coord2StateIDHashTable StateID2CoordTable StateID2IndexMapping].
  eexists. split; [reflexivity|]. split; [|split; [|split; [|split; [|split]]]].
  - apply (env_ok_initialised (set_ids (startstateid env2) (stateID e2) env2)). apply env_ok_set_ids. exact I2.
  - cbn. destruct X2 as (C2 & _). rewrite C2. exact C1.
  - cbn. pose proof X2 as (_ & S2 & _). rewrite S2. cbn.
    assert (cell_of env2 (stateID e1) = Some (StartX_c (cfg env), StartY_c (cfg env))) as Hc; [|exact Hc].
    apply (extends_cell env1'); [exact X2|]. unfold cell_of. change (StateID2CoordTable env1') with (StateID2CoordTable env1).
    rewrite (entry_id env1 I1 e1 H1), Hx1, Hy1. reflexivity.
  - cbn. unfold cell_of. cbn. rewrite (entry_id env2 I2 e2 H2), Hx2, Hy2. reflexivity.
  - cbn. pose proof X2 as (_ & S2 & _). rewrite S2. apply T1.
  - exact T2.
Qed.

(** The object right after construction. *)
Definition fresh (env : EnvironmentNAV2D) : Prop :=
  StateID2IndexMapping env = [] /\ (numofdirs (cfg env) = 8 \/ numofdirs (cfg env) = 16).

Lemma InitializeEnv_ok env w h mapdata f sx sy gx gy thresh :
  fresh env -> map_ok w h mapdata f -> 0 <= sx < w -> 0 <= sy < h -> 0 <= gx < w -> 0 <= gy < h -> 0 <= thresh <= 255 ->
  exists env', InitializeEnv env w h mapdata sx sy gx gy thresh = Ok (true, env') /\ env_ok env' /\
    EnvWidth_c (cfg env') = w /\ EnvHeight_c (cfg env') = h /\ obsthresh (cfg env') = thresh /\
    numofdirs (cfg env') = numofdirs (cfg env) /\
    (forall x y, 0 <= x < w -> 0 <= y < h -> grid (cfg env') x y = Ok (f x y)) /\
    cell_of env' (startstateid env') = Some (sx, sy) /\ cell_of env' (goalstateid env') = Some (gx, gy) /\
    startstateid env' = 0 /\ goalstateid env' = if decide ((sx, sy) = (gx, gy)) then 0 else 1.
Proof.
  intros [Hi Hdirs] M Hsx Hsy Hgx Hgy Ht. unfold InitializeEnv.
  destruct (SetConfiguration_ok (set_params thresh (numofdirs (cfg env)) (cfg env)) w h mapdata f sx sy gx gy M Hsx Hsy)
    as (g & -> & Hg). rewrite bind_ok_l. unfold InitGeneral. cbn [cfg set_cfg].
  set (c0 := set_grid _ _). rewrite (computed c0), bind_ok_l.
  set (c1 := mkCfg _ _ _ _ _ _ _ _ _ _ _ _ _ _).
  assert (C : cfg_ok c1).
  { destruct M as [Mw Mh Mv]. split; cbn; auto.
    - intros x y Hx Hy. destruct (Mv x y Hx Hy) as [_ Hr]. exists (f x y). split; [apply Hg; assumption|exact Hr]. 
  }
  destruct (InitializeEnvironment_ok (set_cfg c1 (set_cfg c0 env))) as (env' & -> & I & Ec & Es & Eg & Ei & Ej).
  - exact C.
  - exact Hi.
  - split; cbn; assumption.
  - split; cbn; assumption.
  - rewrite bind_ok_l. exists env'. rewrite Ec. split; [reflexivity|]. split; [exact I|].
    split_and!; try reflexivity; try assumption.
Qed.

(** A second initialisation of the same object: the index table still has its
    rows, so the first entry created throws. *)
Lemma InitializeEnvironment_again env : cfg_ok (cfg env) -> StateID2IndexMapping env <> [] ->
  InitializeEnvironment env = Err Thrown.
Proof.
  intros C Hm. unfold InitializeEnvironment, entry_at, GetHashEntry, CreateNewHashEntry, bin. cbn [HashTableSize Coord2StateIDHashTable cfg].
  set (env0 := mkEnv _ _ _ _ _ _ _ _).
  pose proof (GETHASHBIN_range env0 (StartX_c (cfg env)) (StartY_c (cfg env)) eq_refl) as Hr.
  change (HashTableSize env0) with (64 * 1024) in Hr.
  rewrite (proj2 (Z.leb_le 0 _)), (proj2 (Z.ltb_lt _ (64 * 1024))) by lia. cbn [andb].
  rewrite bind_ok_l, lookup_empty. cbn [default List.find]. rewrite !bind_ok_l.
  cbn [StateID2CoordTable length StateID2IndexMapping stateID env0].
  rewrite aset_in, bind_ok_l by (rewrite length_app; cbn; lia). rewrite length_insert, length_app.
  destruct (StateID2IndexMapping env) as [|r l]; [contradiction|]. cbn [length].
  rewrite (proj2 (Z.eqb_neq _ _)) by lia. reflexivity.
Qed.

(** ** Heuristics *)

Lemma square_bound d b : - b <= d <= b -> 0 <= d * d <= b * b.
Proof. nia. Qed.

Lemma EuclideanDistance_ok c x1 y1 x2 y2 : cfg_ok c -> in_map c x1 y1 -> in_map c x2 y2 ->
  exists h, EuclideanDistance x1 y1 x2 y2 = Ok h /\ 0 <= h <= 2 ^ 26.
Proof.
  intros C [Hx1 Hy1] [Hx2 Hy2]. pose proof (co_width _ C) as HW. pose proof (co_height _ C) as HH. unfold MAX_SIDE in *.
  unfold EuclideanDistance.
  rewrite (add_int_in int32 x1 (- x2)), bind_ok_l by (unfold int_min, int32; cbn [int_max]; lia).
  pose proof (square_bound (x1 + - x2) 32766 ltac:(lia)).
  rewrite (mul_int_in int32 (x1 + - x2) (x1 + - x2)), bind_ok_l by (unfold int_min, int32; cbn [int_max]; lia).
  rewrite (add_int_in int32 y1 (- y2)), bind_ok_l by (unfold int_min, int32; cbn [int_max]; lia).
  pose proof (square_bound (y1 + - y2) 32766 ltac:(lia)).
  rewrite (mul_int_in int32 (y1 + - y2) (y1 + - y2)), bind_ok_l by (unfold int_min, int32; cbn [int_max]; lia).
  rewrite add_int_in, bind_ok_l by (unfold int_min, int32; cbn [int_max]; lia).
  set (d := (x1 + - x2) * (x1 + - x2) + (y1 + - y2) * (y1 + - y2)) in *.
  apply (Doubles.to_type_upto int32 26); [lia|vm_compute; discriminate|].
  apply (Doubles.mul_upto 10 16); [lia| |].
  - apply Doubles.of_int_upto; [lia|]. vm_compute. split; discriminate.
  - apply Doubles.sqrt_upto; [lia|]. apply Doubles.of_int_upto; [lia|]. split; [lia|]. change (2 ^ (2 * 16)) with 4294967296. lia.
Qed.

Lemma GetFromToHeuristic_ok env i j p q : env_ok env -> cell_of env i = Some p -> cell_of env j = Some q ->
  exists h, GetFromToHeuristic env i j = Ok h /\ 0 <= h <= 2 ^ 26.
Proof.
  intros I Hi Hj. destruct p as [x y], q as [x' y'].
  destruct (entry_of_cell env I i x y Hi) as (e & Ee & Hx & Hy & Hm).
  destruct (entry_of_cell env I j x' y' Hj) as (e' & Ee' & Hx' & Hy' & Hm').
  unfold GetFromToHeuristic. rewrite Ee, Ee', !bind_ok_l, Hx, Hy, Hx', Hy'.
  exact (EuclideanDistance_ok (cfg env) x y x' y' (eo_cfg _ I) Hm Hm').
Qed.

(** ** The contract with a planner *)

#[export] Instance Nav2D_env_ops : EnvOps EnvironmentNAV2D := {|
  env_succs := GetSuccs;
  env_goal_heuristic := GetGoalHeuristic;
  env_ensure_heuristics env _ := Ok env;
|}.

(** The graph of a map: cells and moves, the goal absorbing. *)
Definition grid_succ (c : ENV_NAV2D_CONFIG) (goal : Z * Z) (p : Z * Z) : list (Z * Z * Z) :=
  if decide (p = goal) then [] else neighbors (legal c p.1 p.2) (numofdirs c).

(** The environment serves the map [c] with this goal. *)
Record serves (c : ENV_NAV2D_CONFIG) (goal : Z * Z) (env : EnvironmentNAV2D) : Prop := {
  sv_ok : env_ok env;
  sv_cfg : cfg env = c;
  sv_goal : cell_of env (goalstateid env) = Some goal;
}.

Lemma neighbors_length mv n : (length (neighbors mv n) <= Z.to_nat n)%nat.
Proof.
  unfold neighbors. rewrite <- (length_seqZ 0 n). generalize (seqZ 0 n).
  induction l as [|a l IH]; cbn; [lia|]. destruct (mv a); cbn; lia.
Qed.

Lemma legal_cost c x y aind p w : cfg_ok c -> legal c x y aind = Some (p, w) -> 1000 <= w <= 255 * 2236.
Proof.
  intros C. unfold legal. destruct (moves !! _) as [m|]; [|discriminate].
  destruct (forallb _ _ && _) eqn:E; [|discriminate]. intros [= _ <-].
  apply andb_true_iff in E as [_ E%Z.ltb_lt]. pose proof (co_thresh _ C).
  assert (0 <= largest c (entered m x y aind)) by (unfold largest; induction (value_at c <$> _); cbn; lia).
  assert (1000 <= length_of m aind <= 2236).
  { destruct m as [[[dx dy] ix] iy]. cbn. destruct (_ || _); [lia|]. destruct (aind <=? 7); lia. }
  nia.
Qed.

Lemma state_count env : env_ok env -> Z.of_nat (length (StateID2CoordTable env)) <= EnvWidth_c (cfg env) * EnvHeight_c (cfg env).
Proof.
  intros I. pose proof (co_width _ (eo_cfg _ I)). pose proof (co_height _ (eo_cfg _ I)).
  set (W := EnvWidth_c (cfg env)) in *. set (H1 := EnvHeight_c (cfg env)) in *.
  pose proof (NoDup_range_length ((fun e => X e + W * Y e) <$> StateID2CoordTable env) (W * H1)) as Hl.
  rewrite length_fmap in Hl. rewrite Z.max_r in Hl by nia. apply Hl.
  - apply NoDup_fmap_2_strong.
    + intros e e' He He' Heq. pose proof (eo_coords _ I e He) as [Hx Hy]. pose proof (eo_coords _ I e' He') as [Hx' Hy'].
      fold W in Hx, Hx'. fold H1 in Hy, Hy'. assert (Y e = Y e') by nia. apply (eo_inj _ I); auto; nia.
    + apply NoDup_alt. intros i j e Hi Hj.
      pose proof (eo_ids _ I (Z.of_nat i) e) as Ei. pose proof (eo_ids _ I (Z.of_nat j) e) as Ej.
      assert (Z.of_nat i = Z.of_nat j) as ?%Nat2Z.inj; [|assumption].
      rewrite <- Ei, <- Ej; [reflexivity|apply aget_Ok; rewrite Nat2Z.id; split; [lia|assumption]..].
  - intros k (e & -> & He)%list_elem_of_fmap. pose proof (eo_coords _ I e He) as [Hx Hy]. fold W in Hx. fold H1 in Hy. nia.
Qed.

Lemma serves_extends c goal env env' : serves c goal env -> env_ok env' -> extends env env' -> serves c goal env'.
Proof.
  intros [I Hc Hg] I' X. split; [exact I'|destruct X as (-> & _); exact Hc|].
  pose proof X as (_ & _ & -> & _). eapply extends_cell; eassumption.
Qed.

Section contract.
Context (c : ENV_NAV2D_CONFIG) (C : cfg_ok c) (goal : Z * Z).

#[export] Instance Nav2D_env_laws :
  EnvLaws (E := EnvironmentNAV2D) (grid_succ c goal) (EnvWidth_c c * EnvHeight_c c) 16 (255 * 2236) (2 ^ 26).
Proof using C.
  unshelve eapply Build_EnvLaws; [exact (serves c goal)|exact cell_of|exact extends|..].
  - exact extends_preorder.
  - intros e i j x [I _ _]. apply cell_inj. exact I.
  - intros e i x [I <- _] Hc. pose proof (cell_range e I i x Hc) as [_ Hr]. pose proof (state_count e I). lia.
  - intros e e' i x Hx. apply extends_cell. exact Hx.
  - intros e i [x y] S Hi. pose proof S as [I Hc Hg]. cbn [env_succs Nav2D_env_ops]. unfold grid_succ. case_decide as Hd.
    + assert (i = goalstateid e) as -> by (apply (cell_inj e I i _ (x, y)); [exact Hi|rewrite Hg, Hd; reflexivity]).
      exists [], [], e. unfold GetSuccs. rewrite Z.eqb_refl. split_and!; [reflexivity|exact S|reflexivity..].
    + destruct (GetSuccs_ok e I i x y Hi) as (ids & costs & e' & E & O & X & H1 & H2).
      { intros ->. rewrite Hg in Hi. congruence. }
      rewrite Hc in H1, H2. exists ids, costs, e'. split_and!; auto. exact (serves_extends c goal e e' S O X).
  - intros e i x [I Hc Hg] Hi. exact (GetFromToHeuristic_ok e i _ _ _ I Hi Hg).
  - intros e b S. exists e. split; [reflexivity|]. split; [exact S|reflexivity].
  - intros p. unfold grid_succ. case_decide; [cbn; lia|].
    pose proof (neighbors_length (legal c p.1 p.2) (numofdirs c)). pose proof (co_dirs _ C). lia.
  - intros p q w. unfold grid_succ. case_decide; [intros Hin; inversion Hin|]. unfold neighbors.
    intros (a & _ & E)%list_elem_of_omap. pose proof (legal_cost c _ _ _ _ _ C E). lia.
Defined.
End contract.
End Nav2DEnv.
