(* ===== verification/Nav2DCalls.v ===== *)
(** * The 2D grid environment under concurrent calls

    [GetSuccs] as a sequence of critical sections: run alone it is [GetSuccs];
    interleaved with others that create states it still lists the moves. *)

From S2P Require Import Prelude.
From S2P Require Import Environment.
From S2P Require Import Nav2D.
From S2P Require Import Nav2DSpec.
From S2P Require Import Nav2DEnv.

Module Nav2DCalls.
Import Nav2D Nav2DSpec Nav2DEnv.

#[export] Instance Nav2D_call_ops : EnvCallOps EnvironmentNAV2D GetSuccs_call := {|
  succs_call := GetSuccs_begin;
  succs_step := GetSuccs_next;
|}.

(** The call run to its end, with nobody in between. *)
Fixpoint finish (fuel : nat) (env : EnvironmentNAV2D) (k : GetSuccs_call) : res (list Z * list Z * EnvironmentNAV2D) :=
  match fuel with
  | O => Err OutOfFuel
  | S fuel =>
      '(env, r) ← GetSuccs_next env k;
      match r with inl k => finish fuel env k | inr (ids, costs) => Ok (ids, costs, env) end
  end.

Section contract.
Context (c : ENV_NAV2D_CONFIG) (C : cfg_ok c) (goal : Z * Z).

Definition call_ok (env : EnvironmentNAV2D) (p : Z * Z) (k : GetSuccs_call) : Prop :=
  match k with
  | Absorbed => p = goal
  | Moving e aind v => p <> goal /\ (X e, Y e) = p /\ in_map c (X e) (Y e) /\ 0 <= aind <= numofdirs c /\
      arcs_as env v.1 v.2 (neighbors (legal c p.1 p.2) aind)
  end.

Definition moves_left (k : GetSuccs_call) : nat :=
  match k with Absorbed => 0 | Moving _ aind _ => Z.to_nat (numofdirs c - aind) end.

Lemma arcs_as_extends env env' ids costs l : extends env env' -> arcs_as env ids costs l -> arcs_as env' ids costs l.
Proof.
  intros X [H1 H2]. split; [|exact H2]. revert ids H1. clear H2. induction l as [|a l IH]; intros [|i ids] H; cbn in *; try discriminate; [reflexivity|].
  injection H as H1 H2. rewrite (IH ids H2). f_equal. apply (extends_cell env); assumption.
Qed.

Lemma next_move env p e aind v : serves c goal env -> call_ok env p (Moving e aind v) -> aind < numofdirs c ->
  exists v' env', one_move push_arc e None (v, env) aind = Ok (v', env') /\ serves c goal env' /\ extends env env' /\
    arcs_as env' v'.1 v'.2 (neighbors (legal c p.1 p.2) (aind + 1)).
Proof using C.
  intros S (Hp & <- & Hm & Ha & Hv) Hlt. pose proof S as [I Hc Hg]. cbn [fst snd] in *.
  unfold one_move. rewrite Hc, (try_move_ok c C e aind) by (assumption || lia). rewrite bind_ok_l.
  assert (Hn : neighbors (legal c (X e) (Y e)) (aind + 1) =
    neighbors (legal c (X e) (Y e)) aind ++ match legal c (X e) (Y e) aind with Some m => [m] | None => [] end).
  { unfold neighbors. rewrite <- (Z2Nat.id aind) by lia. replace (Z.of_nat (Z.to_nat aind) + 1) with (Z.of_nat (Datatypes.S (Z.to_nat aind))) by lia.
    rewrite seqZ_S, omap_app, Z.add_0_l. cbn. destruct (legal _ _ _ _); reflexivity. }
  destruct (legal c (X e) (Y e) aind) as [[[nx ny] w]|] eqn:El.
  - destruct (entry_at_ok env I nx ny) as (out & env' & -> & O & Ex & Hout & Hx & Hy).
    { rewrite Hc. apply (legal_in_map c _ _ _ _ _ _ El). }
    rewrite bind_ok_l. eexists _, env'. split; [reflexivity|]. split; [exact (serves_extends c goal env env' S O Ex)|]. split; [exact Ex|].
    rewrite Hn. destruct (arcs_as_extends _ _ _ _ _ Ex Hv) as [H1 H2]. unfold push_arc, arcs_as. cbn [fst snd].
    rewrite !fmap_app, H1, H2. split; [|reflexivity]. cbn. unfold cell_of. rewrite (entry_id env' O out Hout), Hx, Hy. reflexivity.
  - exists v, env. split; [reflexivity|]. split; [exact S|]. split; [reflexivity|]. rewrite Hn, app_nil_r. exact Hv.
Qed.

Lemma finish_moves p e v env a n : serves c goal env -> call_ok env p (Moving e a v) -> Z.of_nat n = numofdirs c - a ->
  finish (Datatypes.S n) env (Moving e a v) =
  ('(v, env) ← foldM (one_move push_arc e None) (v, env) (seqZ a (numofdirs c - a)); Ok (v, env)).
Proof using C.
  revert a v env. induction n as [|n IH]; intros a v env S K Hn.
  - cbn [finish GetSuccs_next]. rewrite (sv_cfg _ _ _ S), (proj2 (Z.ltb_ge a _)) by lia.
    replace (numofdirs c - a) with 0 by lia. cbn. destruct v; reflexivity.
  - assert (Hlt : a < numofdirs c) by lia. destruct (next_move env p e a v S K Hlt) as (v' & env' & E & S' & X & Hv).
    rewrite (seqZ_cons a) by lia. cbn [foldM]. rewrite E, bind_ok_l.
    transitivity (finish (Datatypes.S n) env' (Moving e (a + 1) v')).
    + remember (Datatypes.S n) as m. cbn [finish GetSuccs_next]. rewrite (sv_cfg _ _ _ S), (proj2 (Z.ltb_lt a _)), E by lia. reflexivity.
    + destruct K as (H1 & H2 & H3 & H4 & _).
      rewrite IH; [|exact S'|cbn; split_and!; auto; try lia; apply Hv || apply H3|lia].
      f_equal. f_equal. f_equal; lia.
Qed.

Lemma call_begins env id p e : serves c goal env -> cell_of env id = Some p -> id <> goalstateid env ->
  (X e, Y e) = p -> in_map c (X e) (Y e) -> call_ok env p (Moving e 0 ([], [])).
Proof using C.
  intros S Hi Hne <- Hm. pose proof (co_dirs _ C). split; [|split; [reflexivity|split; [exact Hm|split; [lia|split; reflexivity]]]].
  intros Heq. apply Hne, (cell_inj env (sv_ok _ _ _ S) _ _ _ Hi). rewrite (sv_goal _ _ _ S), Heq. reflexivity.
Qed.

(** Alone, the critical sections add up to [GetSuccs]. *)
Lemma GetSuccs_alone env id p : serves c goal env -> cell_of env id = Some p ->
  (k ← GetSuccs_begin env id; finish (Datatypes.S (Z.to_nat (numofdirs c))) env k) = GetSuccs env id.
Proof using C.
  intros S Hi. pose proof S as [I Hc Hg]. pose proof (co_dirs _ C). destruct p as [x y]. unfold GetSuccs_begin, GetSuccs.
  destruct (Z.eqb_spec id (goalstateid env)) as [->|Hne]; [reflexivity|].
  destruct (entry_of_cell env I id x y Hi) as (e & -> & Hx & Hy & Hm). rewrite !bind_ok_l. rewrite Hc in Hm.
  rewrite (finish_moves (x, y)); [|exact S| |lia].
  - unfold for_each_move. rewrite Hc, Z.sub_0_r. destruct (foldM _ _ _) as [[[ids costs] env']|err]; reflexivity.
  - apply (call_begins env id); auto; rewrite Hx, Hy; [reflexivity|exact Hm].
Qed.

#[export] Instance Nav2D_call_laws :
  EnvCallLaws (E := EnvironmentNAV2D) (grid_succ c goal) (EnvWidth_c c * EnvHeight_c c) 16 (255 * 2236) (2 ^ 26)
    (laws := Nav2D_env_laws c C goal).
Proof using C.
  unshelve eapply Build_EnvCallLaws; [exact call_ok|exact (fun k => Datatypes.S (moves_left k))|..]; cbn [env_inv node env_le Nav2D_env_laws].
  - intros e e' i x S S' X Hi. cbn. unfold GetGoalHeuristic, GetFromToHeuristic.
    destruct x as [x y]. destruct goal as [xg yg] eqn:Eg. pose proof X as (_ & _ & Hg & _). rewrite Hg.
    destruct S as [I Hc Hgo]. destruct S' as [I' Hc' Hgo']. rewrite Hg in Hgo'.
    destruct (entry_of_cell e I i x y Hi) as (a & -> & Hx & Hy & _).
    destruct (entry_of_cell e I (goalstateid e) xg yg Hgo) as (b & -> & Hx' & Hy' & _).
    destruct (entry_of_cell e' I' i x y (extends_cell _ _ _ _ X Hi)) as (a' & -> & Hx2 & Hy2 & _).
    destruct (entry_of_cell e' I' (goalstateid e) xg yg Hgo') as (b' & -> & Hx2' & Hy2' & _).
    rewrite !bind_ok_l, Hx, Hy, Hx', Hy', Hx2, Hy2, Hx2', Hy2'. reflexivity.
  - intros e e' p [|en aind v] _ X; [auto|]. intros (H1 & H2 & H3 & H4 & H5). split_and!; auto; try lia.
    apply (arcs_as_extends e); [exact X|exact H5].
  - intros e i p S Hi. pose proof S as [I Hc Hg]. destruct p as [x y]. unfold succs_call, Nav2D_call_ops, GetSuccs_begin.
    destruct (Z.eqb_spec i (goalstateid e)) as [->|Hne].
    + exists Absorbed. split; [reflexivity|]. cbn. congruence.
    + destruct (entry_of_cell e I i x y Hi) as (a & -> & Hx & Hy & Hm). rewrite bind_ok_l.
      exists (Moving a 0 ([], [])). split; [reflexivity|]. rewrite Hc in Hm.
      apply (call_begins e i); auto; rewrite Hx, Hy; [reflexivity|exact Hm].
  - intros e p [|a aind v] S Hk; cbn [succs_step Nav2D_call_ops GetSuccs_next].
    + exists e, (inr ([], [])). split; [reflexivity|]. split; [exact S|]. split; [reflexivity|]. cbn in Hk. subst p.
      unfold grid_succ. rewrite decide_True by reflexivity. split; reflexivity.
    + pose proof S as [I Hc Hg]. rewrite Hc. destruct (Z.ltb_spec aind (numofdirs c)) as [Hlt|Hge].
      * destruct (next_move e p a aind v S Hk Hlt) as (v' & e' & -> & S' & X & Hv). rewrite bind_ok_l.
        exists e', (inl (Moving a (aind + 1) v')). split; [reflexivity|]. split; [exact S'|]. split; [exact X|].
        destruct Hk as (H1 & H2 & H3 & H4 & _). cbn. split; [split_and!; auto; try lia; apply Hv || apply H3|lia].
      * destruct Hk as (H1 & H2 & H3 & H4 & H5). assert (aind = numofdirs c) as -> by lia.
        exists e, (inr v). split; [reflexivity|]. split; [exact S|]. split; [reflexivity|]. destruct v as [ids costs].
        unfold grid_succ. rewrite decide_False by exact H1. exact H5.
Defined.
End contract.
End Nav2DCalls.
