(* ===== verification/Nav2DProps.v ===== *)
(** * Properties of the 2D grid environment

    What the initialisation establishes, the round trip of ids and coordinates,
    the successors against the reference, successors against predecessors, and
    the operations that keep the tables consistent. *)

From S2P Require Import Prelude.
From S2P Require Import Doubles.
From S2P Require Import Environment.
From S2P Require Import Nav2D.
From S2P Require Import Nav2DSpec.
From S2P Require Import Nav2DEnv.

Module Nav2DProps.
Import Nav2D Nav2DSpec Nav2DEnv.

(** ** Operations that keep the invariant *)

Lemma env_ok_set_cfg env c : env_ok env -> cfg_ok c ->
  EnvWidth_c c = EnvWidth_c (cfg env) -> EnvHeight_c c = EnvHeight_c (cfg env) -> env_ok (set_cfg c env).
Proof.
  intros [H1 H2 H3 H4 H5 H6 H7] C Ew Eh. refine (Build_env_ok (set_cfg c env) C H2 H3 _ H5 _ H7).
  - intros e He. destruct (H4 e He) as [Hx Hy]. split; cbn; [rewrite Ew|rewrite Eh]; assumption.
  - intros b e. rewrite (hashbin_ext env (set_cfg c env)) by reflexivity. apply H6.
Qed.

(** Changing start and goal does not invalidate a configuration. *)
Lemma cfg_ok_endpoints c sx sy ex ey : cfg_ok c -> cfg_ok (set_endpoints sx sy ex ey c).
Proof.
  intros [H1 H2 H3 H4 H5 H6]. split; cbn; auto.
  rewrite (computed (set_endpoints sx sy ex ey c)). rewrite (computed c) in H6.
  pose proof (f_equal (fun r => match r with Ok a => set_endpoints sx sy ex ey a | Err _ => c end) H6) as H7.
  exact (f_equal Ok H7).
Qed.

Lemma cfg_ok_grid c g : cfg_ok c -> (forall x y, in_map c x y -> exists v, cell g x y = Ok v /\ 0 <= v <= 255) ->
  cfg_ok (set_grid g c).
Proof.
  intros [H1 H2 H3 H4 H5 H6] Hg. split; cbn; auto.
  - intros x y Hx Hy. apply Hg. split; assumption.
  - rewrite (computed (set_grid g c)). rewrite (computed c) in H6.
    pose proof (f_equal (fun r => match r with Ok a => set_grid g a | Err _ => c end) H6) as H7.
    exact (f_equal Ok H7).
Qed.

Lemma UpdateCost_ok env x y v : env_ok env -> in_map (cfg env) x y -> 0 <= v <= 255 ->
  exists env', UpdateCost env x y v = Ok (true, env') /\ env_ok env' /\
    StateID2CoordTable env' = StateID2CoordTable env /\
    forall x' y', GetMapCost env' x' y' = if decide (x' = x /\ y' = y) then Ok v else GetMapCost env x' y'.
Proof.
  intros I [Hx Hy] Hv. pose proof (eo_cfg _ I) as C. unfold UpdateCost, write_grid.
  destruct (co_grid _ C x y Hx Hy) as (old & Eg & _). unfold grid in Eg. apply bind_Ok in Eg as (col & Ec & Er).
  pose proof (aget_bounds _ _ _ Ec). pose proof (aget_bounds _ _ _ Er).
  rewrite Ec, bind_ok_l, aset_in, bind_ok_l, aset_in, bind_ok_l by assumption.
  set (g' := <[Z.to_nat x := _]> (Grid2D (cfg env))).
  assert (Hc : forall x' y', cell g' x' y' = if decide (x' = x /\ y' = y) then Ok v else grid (cfg env) x' y').
  { intros x' y'. unfold cell, g', grid. rewrite aget_insert by assumption. destruct (decide (x' = x)) as [->|Hne].
    - rewrite bind_ok_l, aget_insert, Ec, bind_ok_l by assumption.
      destruct (decide (y' = y)), (decide (x = x /\ y' = y)); tauto.
    - rewrite decide_False by tauto. reflexivity. }
  eexists. split; [reflexivity|]. split; [|split; [reflexivity|exact Hc]].
  apply env_ok_set_cfg; [exact I| |reflexivity|reflexivity]. apply cfg_ok_grid; [exact C|].
  intros x' y' [Hx' Hy']. rewrite Hc. case_decide; [eauto|]. apply (co_grid _ C); assumption.
Qed.

Lemma GetStateFromCoord_ok env x y : env_ok env -> in_map (cfg env) x y ->
  exists id env', GetStateFromCoord env x y = Ok (id, env') /\ env_ok env' /\ extends env env' /\
    cell_of env' id = Some (x, y).
Proof.
  intros I Hm. unfold GetStateFromCoord. destruct (entry_at_ok env I x y Hm) as (e & env' & E & O & X & He & Hx & Hy).
  rewrite E, bind_ok_l. eexists _, env'. split; [reflexivity|]. split; [exact O|]. split; [exact X|].
  unfold cell_of. rewrite (entry_id env' O e He), Hx, Hy. reflexivity.
Qed.

(** The cell a move from (x, y) leads to, if it is in the map. *)
Definition touched (c : ENV_NAV2D_CONFIG) (x y aind : Z) : option (Z * Z) :=
  match moves !! Z.to_nat aind with
  | Some m => if IsWithinMapCell c (x + m.1.1.1) (y + m.1.1.2) then Some (x + m.1.1.1, y + m.1.1.2) else None
  | None => None
  end.

(** The cells whose arcs a changed cell affects: itself, and those a move away
    from it inside the map, in the order of the directions. *)
Definition affected (c : ENV_NAV2D_CONFIG) (p : Z * Z) : list (Z * Z) :=
  p :: omap (touched c p.1 p.2) (seqZ 0 (numofdirs c)).

(** The ids [l] stand for the cells [ps]. *)
Definition stand_for (env : EnvironmentNAV2D) (l : list Z) (ps : list (Z * Z)) : Prop := Forall2 (fun i p => cell_of env i = Some p) l ps.

Lemma stand_for_extends env env' l ps : extends env env' -> stand_for env l ps -> stand_for env' l ps.
Proof. intros X H. eapply Forall2_impl; [exact H|]. intros i p. apply extends_cell. exact X. Qed.

(** The loop over the directions. *)
Lemma affected_ok env x y v : env_ok env -> in_map (cfg env) x y ->
  exists l env', foldM (fun '(ids, env) aind =>
      dx ← aget (dx_ (cfg env)) aind;
      dy ← aget (dy_ (cfg env)) aind;
      affx ← add_int int32 x dx;
      affy ← add_int int32 y dy;
      if negb (IsWithinMapCell (cfg env) affx affy) then Ok (ids, env) else
      '(id, env) ← GetStateFromCoord env affx affy;
      Ok (ids ++ [id], env)) (v, env) (seqZ 0 (numofdirs (cfg env))) = Ok (v ++ l, env') /\
    env_ok env' /\ extends env env' /\ stand_for env' l (omap (touched (cfg env) x y) (seqZ 0 (numofdirs (cfg env)))).
Proof.
  intros I [Hx Hy].
  match goal with |- context [foldM ?f _ _] => destruct (foldM_inv f
    (fun done st => env_ok st.2 /\ extends env st.2 /\ exists l, st.1 = v ++ l /\ stand_for st.2 l (omap (touched (cfg env) x y) done))
    (seqZ 0 (numofdirs (cfg env))) (v, env)) as ([ids' env'] & E & O & X & l & El & H) end.
  - split; [exact I|]. split; [reflexivity|]. exists []. rewrite app_nil_r. split; [reflexivity|constructor].
  - intros done a todo [ids env1] Hl (O1 & X1 & l & El & K). cbn [fst snd] in *. subst ids. pose proof X1 as (C1 & _).
    assert (Ha : 0 <= a < numofdirs (cfg env1)).
    { assert (a ∈ seqZ 0 (numofdirs (cfg env))) as Hr%elem_of_seqZ by (rewrite Hl; apply elem_of_app; right; left). rewrite C1. lia. }
    destruct (tables_of (cfg env1) (eo_cfg _ O1) a Ha) as (dx & dy & ix & iy & Em & -> & -> & _ & _ & _ & Hs).
    rewrite !bind_ok_l.
    assert (Hd : -2 <= dx <= 2 /\ -2 <= dy <= 2) by (unfold short in Hs; rewrite !andb_true_iff, !Z.leb_le in Hs; lia).
    pose proof (co_width _ (eo_cfg _ I)). pose proof (co_height _ (eo_cfg _ I)). unfold MAX_SIDE in *.
    rewrite !add_int_in, !bind_ok_l by (unfold int_min, int32; cbn [int_max]; lia). rewrite C1.
    assert (Ht : omap (touched (cfg env) x y) (done ++ [a]) = omap (touched (cfg env) x y) done ++
      if IsWithinMapCell (cfg env) (x + dx) (y + dy) then [(x + dx, y + dy)] else []).
    { rewrite omap_app. f_equal. cbn. unfold touched. rewrite Em. cbn. destruct (IsWithinMapCell _ _ _); reflexivity. }
    destruct (IsWithinMapCell (cfg env) (x + dx) (y + dy)) eqn:Ew; cbn [negb].
    + apply within_map in Ew. rewrite <- C1 in Ew. destruct (GetStateFromCoord_ok env1 (x + dx) (y + dy) O1 Ew) as (id & env2 & E2 & O2 & X2 & H2).
      rewrite E2, bind_ok_l. eexists. split; [reflexivity|]. cbn [fst snd]. split; [exact O2|]. split; [etransitivity; eassumption|].
      exists (l ++ [id]). split; [rewrite (assoc_L (++)); reflexivity|]. rewrite Ht.
      apply Forall2_app; [exact (stand_for_extends _ _ _ _ X2 K)|]. constructor; [exact H2|constructor].
    + eexists. split; [reflexivity|]. cbn [fst snd]. rewrite Ht, app_nil_r. eauto.
  - exists l, env'. cbn [fst snd] in *. subst ids'. auto.
Qed.

Lemma ChangedEdges_ok env cells ids : env_ok env -> (forall p, p ∈ cells -> in_map (cfg env) p.1 p.2) ->
  exists l env', ChangedEdges env cells ids = Ok (ids ++ l, env') /\ env_ok env' /\ extends env env' /\
    stand_for env' l (cells ≫= affected (cfg env)).
Proof.
  intros I Hc. unfold ChangedEdges.
  match goal with |- context [foldM ?f _ _] => destruct (foldM_inv f
    (fun done st => env_ok st.2 /\ extends env st.2 /\ exists l, st.1 = ids ++ l /\ stand_for st.2 l (done ≫= affected (cfg env))) cells (ids, env))
    as ([ids' env'] & E & O & X & l & El & H) end.
  - split; [exact I|]. split; [reflexivity|]. exists []. rewrite app_nil_r. split; [reflexivity|constructor].
  - intros done [x y] todo [ids1 env1] Hl (O1 & X1 & l & El1 & K1). cbn [fst snd] in *. subst ids1.
    pose proof X1 as (C1 & _).
    assert (Hm : in_map (cfg env) x y) by (apply (Hc (x, y)); rewrite Hl; apply elem_of_app; right; left).
    destruct (GetStateFromCoord_ok env1 x y O1) as (id & env2 & E2 & O2 & X2 & H2); [rewrite C1; exact Hm|].
    rewrite E2, bind_ok_l. pose proof X2 as (C2 & _). rewrite <- C1, <- C2 in Hm.
    destruct (affected_ok env2 x y ((ids ++ l) ++ [id]) O2 Hm) as (l3 & env3 & -> & O3 & X3 & K3). rewrite C2, C1 in K3.
    eexists. split; [reflexivity|]. cbn [fst snd]. split; [exact O3|].
    split; [etransitivity; [exact X1|]; etransitivity; eassumption|].
    exists (l ++ id :: l3). split; [rewrite <- !(assoc_L (++)); reflexivity|]. rewrite bind_app. cbn [mbind list_bind]. rewrite app_nil_r.
    apply Forall2_app; [apply (stand_for_extends env1); [etransitivity; eassumption|exact K1]|].
    constructor; [exact (extends_cell _ _ _ _ X3 H2)|exact K3].
  - exists l, env'. cbn [fst snd] in *. subst ids'. auto.
Qed.

Lemma SetGoal_ok env x y : env_ok env -> in_map (cfg env) x y ->
  exists id env', SetGoal env x y = Ok (id, env') /\ env_ok env' /\ goalstateid env' = id /\
    startstateid env' = startstateid env /\ cell_of env' id = Some (x, y) /\
    (EndX_c (cfg env'), EndY_c (cfg env')) = (x, y).
Proof.
  intros I Hm. unfold SetGoal, IsValidCell. rewrite (proj2 (within_map _ _ _) Hm). cbn [negb].
  destruct (grid_value (cfg env) (eo_cfg _ I) x y Hm) as [-> _]. rewrite !bind_ok_l.
  destruct (entry_at_ok env I x y Hm) as (e & env' & -> & O & (C1 & S1 & _) & He & Hx & Hy). rewrite bind_ok_l.
  eexists _, _. split; [reflexivity|]. split.
  - apply env_ok_set_cfg; [apply env_ok_set_ids; exact O|apply cfg_ok_endpoints; exact (eo_cfg _ O)|reflexivity..].
  - cbn. split_and!; [reflexivity|exact S1| |reflexivity].
    unfold cell_of. cbn. rewrite (entry_id env' O e He), Hx, Hy. reflexivity.
Qed.

Lemma SetStart_ok env x y : env_ok env -> in_map (cfg env) x y ->
  exists id env', SetStart env x y = Ok (id, env') /\ env_ok env' /\ startstateid env' = id /\
    goalstateid env' = goalstateid env /\ cell_of env' id = Some (x, y) /\
    (StartX_c (cfg env'), StartY_c (cfg env')) = (x, y).
Proof.
  intros I Hm. unfold SetStart, IsValidCell. rewrite (proj2 (within_map _ _ _) Hm). cbn [negb].
  destruct (grid_value (cfg env) (eo_cfg _ I) x y Hm) as [-> _]. rewrite !bind_ok_l.
  destruct (entry_at_ok env I x y Hm) as (e & env' & -> & O & (C1 & _ & G1 & _) & He & Hx & Hy). rewrite bind_ok_l.
  eexists _, _. split; [reflexivity|]. split.
  - apply env_ok_set_cfg; [apply env_ok_set_ids; exact O|apply cfg_ok_endpoints; exact (eo_cfg _ O)|reflexivity..].
  - cbn. split_and!; [reflexivity|exact G1| |reflexivity].
    unfold cell_of. cbn. rewrite (entry_id env' O e He), Hx, Hy. reflexivity.
Qed.

Lemma push_action_all outs s :
  fold_left (fun s '(a, i, w) => push_action a i w s) outs s =
  mkMDPState (StateID s) (Actions s ++ ((fun '(a, i, w) => mkAction a [(i, w, Doubles.of_int 1)]) <$> outs)).
Proof.
  revert s. induction outs as [|[[a i] w] outs IH]; intros [id acts]; cbn.
  - rewrite app_nil_r. reflexivity.
  - rewrite IH. cbn. rewrite <- (assoc_L (++)). reflexivity.
Qed.

(** The single outcome of an action of the MDP view, as a pair of cell and cost. *)
Definition outcome_cell (env : EnvironmentNAV2D) (a : CMDPACTION) : option (Z * Z * Z) :=
  match Outcomes a with
  | [(i, w, _)] => (fun p => (p, w)) <$> cell_of env i
  | _ => None
  end.

Lemma SetAllActions_ok env state x y : env_ok env -> cell_of env (StateID state) = Some (x, y) ->
  StateID state <> goalstateid env ->
  exists acts env', SetAllActionsandAllOutcomes env state =
      Ok (mkMDPState (StateID state) (Actions state ++ acts), env') /\ env_ok env' /\ extends env env' /\
    outcome_cell env' <$> acts = Some <$> neighbors (legal (cfg env) x y) (numofdirs (cfg env)).
Proof.
  intros I Hid Hg. destruct (entry_of_cell env I _ x y Hid) as (e & Ee & Hx & Hy & Hm). unfold SetAllActionsandAllOutcomes.
  rewrite (proj2 (Z.eqb_neq _ _) Hg), Ee, bind_ok_l.
  destruct (for_each_move_ok push_action e None env state (legal (cfg env) x y) I) as (outs & env' & -> & O & Ex & F).
  - intros a Ha. rewrite (try_move_ok (cfg env) (eo_cfg _ I)) by (rewrite ?Hx, ?Hy; assumption). rewrite Hx, Hy. reflexivity.
  - intros a nx ny w. apply legal_in_map.
  - rewrite push_action_all. eexists _, env'. split; [reflexivity|]. split; [exact O|]. split; [exact Ex|].
    unfold neighbors. rewrite <- taken_neighbors.
    induction F as [|[[a i] w] [b [[x' y'] v]] outs l' (-> & -> & Hc) F IH]; [reflexivity|].
    rewrite !fmap_cons. f_equal; [unfold outcome_cell; cbn; rewrite Hc; reflexivity|exact IH].
Qed.

(** ** Properties *)

(** C22: initialising a new environment with a map of bytes succeeds and
    establishes the invariant: the grid holds the map, the start has id 0, the
    goal id 1, or 0 when it is the start, and the ids have those coordinates;
    a start outside the map throws, and so does initialising the same object
    again, because its index table is never cleared.  (The goal must be in the
    map: the code does not test it.) *)
Theorem InitializeEnv_correct env w h mapdata f sx sy gx gy thresh :
  fresh env -> map_ok w h mapdata f -> 0 <= gx < w -> 0 <= gy < h -> 0 <= thresh <= 255 ->
  (0 <= sx < w -> 0 <= sy < h ->
     exists env', InitializeEnv env w h mapdata sx sy gx gy thresh = Ok (true, env') /\ env_ok env' /\
       (forall x y, 0 <= x < w -> 0 <= y < h -> GetMapCost env' x y = Ok (f x y)) /\
       GetCoordFromState env' (startstateid env') = Ok (sx, sy) /\
       GetCoordFromState env' (goalstateid env') = Ok (gx, gy) /\
       startstateid env' = 0 /\ goalstateid env' = (if decide ((sx, sy) = (gx, gy)) then 0 else 1) /\
       InitializeEnv env' w h mapdata sx sy gx gy thresh = Err Thrown) /\
  (~ (0 <= sx < w /\ 0 <= sy < h) -> InitializeEnv env w h mapdata sx sy gx gy thresh = Err Thrown).
Proof.
  intros F M Hgx Hgy Ht. split.
  - intros Hsx Hsy. destruct (InitializeEnv_ok env w h mapdata f sx sy gx gy thresh F M Hsx Hsy Hgx Hgy Ht)
      as (env' & E & I & _ & _ & _ & Hd & Hg & Hs & Hgo & Hi0 & Hi1). exists env'. split; [exact E|]. split; [exact I|]. split; [exact Hg|].
    assert (Hcoord : forall i p, cell_of env' i = Some p -> GetCoordFromState env' i = Ok p).
    { intros i p. unfold cell_of, GetCoordFromState. destruct (aget _ i); [intros [= <-]; reflexivity|discriminate]. }
    split; [apply Hcoord; exact Hs|]. split; [apply Hcoord; exact Hgo|].
    split; [exact Hi0|]. split; [exact Hi1|]. unfold InitializeEnv, InitGeneral.
    destruct (SetConfiguration_ok (set_params thresh (numofdirs (cfg env')) (cfg env')) w h mapdata f sx sy gx gy M Hsx Hsy)
      as (g & -> & Hgg). rewrite bind_ok_l. cbn [cfg set_cfg]. rewrite computed, bind_ok_l.
    rewrite InitializeEnvironment_again; [reflexivity| |].
    + destruct M as [Mw Mh Mv]. cbn [cfg set_cfg]. split; cbn; auto.
      * intros x y Hx Hy. destruct (Mv x y Hx Hy) as [_ Hr]. exists (f x y). split; [apply Hgg; assumption|exact Hr].
      * rewrite Hd. apply F.
    + cbn. intros Hnil. pose proof (eo_index _ I) as Hl. rewrite Hnil in Hl. cbn in Hl.
      unfold cell_of in Hs. destruct (aget _ _) eqn:Ea; [|discriminate]. apply aget_bounds in Ea. lia.
  - intros Hn. unfold InitializeEnv. rewrite (SetConfiguration_bad_start _ w h mapdata sx sy gx gy Hn). reflexivity.
Qed.

(** C23: coordinates to ids and back: [GetStateFromCoord] of a cell of the map
    yields an id whose coordinates are that cell, the same id every time; no id
    issued before changes, and two ids never have the same coordinates. *)
Theorem ids_roundtrip env x y : env_ok env -> in_map (cfg env) x y ->
  exists id env', GetStateFromCoord env x y = Ok (id, env') /\ env_ok env' /\
    GetCoordFromState env' id = Ok (x, y) /\ GetStateFromCoord env' x y = Ok (id, env') /\
    (forall i p, GetCoordFromState env i = Ok p -> GetCoordFromState env' i = Ok p) /\
    (forall i j p, GetCoordFromState env' i = Ok p -> GetCoordFromState env' j = Ok p -> i = j).
Proof.
  intros I Hm. destruct (GetStateFromCoord_ok env x y I Hm) as (id & env' & E & O & X & Hc).
  assert (Hcell : forall e i p, GetCoordFromState e i = Ok p <-> cell_of e i = Some p).
  { intros e i p. unfold cell_of, GetCoordFromState. destruct (aget _ i); cbn; split; congruence. }
  exists id, env'. split; [exact E|]. split; [exact O|]. split; [apply Hcell; exact Hc|]. split; [|split].
  - unfold GetStateFromCoord, entry_at. destruct (GetHashEntry_ok env' O x y) as ([e|] & -> & Hr); rewrite bind_ok_l.
    + destruct Hr as (He & Hx & Hy). rewrite bind_ok_l. f_equal. f_equal.
      apply (cell_inj env' O (stateID e) id (x, y)); [|exact Hc].
      unfold cell_of. rewrite (entry_id env' O e He), Hx, Hy. reflexivity.
    + exfalso. destruct (entry_of_cell env' O id x y Hc) as (e & He & Hx & Hy & _). apply (Hr e (aget_elem _ _ _ He)). auto.
  - intros i p. rewrite !Hcell. apply extends_cell. exact X.
  - intros i j p. rewrite !Hcell. apply cell_inj. exact O.
Qed.

(** C13: the successors of a state are exactly the moves of the reference
    definition, in order, with their costs: testing the bounds only near the
    border skips nothing and reads no cell outside the map.  A move costs its
    length times one more than the largest value of the cells it enters; the
    value of the cell it leaves does not count, although the comment on
    [InitializeEnv] in the header says so (see [source_value_ignored]).  The MDP
    view has the same moves; the goal has none. *)
Theorem GetSuccs_correct env id x y :
  env_ok env -> GetCoordFromState env id = Ok (x, y) ->
  exists ids costs env', GetSuccs env id = Ok (ids, costs, env') /\ env_ok env' /\
    (if id =? goalstateid env then ids = [] /\ costs = []
     else arcs_as env' ids costs (neighbors (legal (cfg env) x y) (numofdirs (cfg env))) /\
       exists acts env'', SetAllActionsandAllOutcomes env (mkMDPState id []) = Ok (mkMDPState id acts, env'') /\
         env_ok env'' /\ outcome_cell env'' <$> acts = Some <$> neighbors (legal (cfg env) x y) (numofdirs (cfg env))).
Proof.
  intros I Hc. assert (Hid : cell_of env id = Some (x, y)).
  { revert Hc. unfold cell_of, GetCoordFromState. destruct (aget _ id); cbn; congruence. }
  destruct (Z.eqb_spec id (goalstateid env)) as [->|Hg].
  - exists [], [], env. unfold GetSuccs. rewrite Z.eqb_refl. auto.
  - destruct (GetSuccs_ok env I id x y Hid Hg) as (ids & costs & env' & E & O & _ & HA).
    exists ids, costs, env'. split; [exact E|]. split; [exact O|]. split; [exact HA|].
    destruct (SetAllActions_ok env (mkMDPState id []) x y I Hid Hg) as (acts & env'' & E2 & O2 & _ & H2). eauto.
Qed.

(** No move enters the cell it leaves. *)
Lemma not_entered m x y aind : moves !! Z.to_nat aind = Some m -> (x, y) ∉ entered m x y aind.
Proof.
  intros Hm Hin. destruct (Z.to_nat aind) as [|n] eqn:En.
  - injection Hm as <-. unfold entered in Hin. rewrite (proj2 (Z.ltb_ge 7 aind)) in Hin by lia.
    cbn [fst snd Z.eqb negb andb app] in Hin. rewrite ?elem_of_cons, ?elem_of_nil in Hin. destruct_or?; try contradiction; injection Hin; lia.
  - assert (Ha : aind = Z.of_nat (Datatypes.S n)) by lia. clear En. subst aind.
    do 15 (destruct n as [|n]; [injection Hm as <-; unfold entered in Hin; match type of Hin with context [7 <? ?z] => let b := eval vm_compute in (7 <? z) in change (7 <? z) with b in Hin end;
      cbn [fst snd Z.eqb negb andb app] in Hin;
      rewrite ?elem_of_cons, ?elem_of_nil in Hin; destruct_or?; try contradiction; injection Hin; lia|]).
    discriminate.
Qed.

(** Changing the value of a cell changes none of the moves that leave it, nor
    their costs. *)
Theorem source_value_ignored env x y v aind : env_ok env -> in_map (cfg env) x y -> 0 <= v <= 255 ->
  exists env', UpdateCost env x y v = Ok (true, env') /\ legal (cfg env') x y aind = legal (cfg env) x y aind.
Proof.
  intros I Hm Hv. destruct (UpdateCost_ok env x y v I Hm Hv) as (env' & E & _ & _ & Hg). exists env'. split; [exact E|].
  assert (Hc : exists g, cfg env' = set_grid g (cfg env)).
  { unfold UpdateCost in E. apply bind_Ok in E as (g & _ & [= <-]). exists g. reflexivity. }
  destruct Hc as [g Hc]. unfold legal. destruct (moves !! Z.to_nat aind) as [m|] eqn:Em; [|reflexivity].
  pose proof (not_entered m x y aind Em) as Hn.
  assert (Hi : forall l, forallb (inside (cfg env')) l = forallb (inside (cfg env)) l) by (intros l; rewrite Hc; reflexivity).
  assert (Hl : largest (cfg env') (entered m x y aind) = largest (cfg env) (entered m x y aind)).
  { unfold largest. f_equal. apply list_fmap_ext. intros i p Hp. unfold value_at.
    change (grid (cfg env') p.1 p.2) with (GetMapCost env' p.1 p.2). rewrite Hg, decide_False; [reflexivity|].
    intros [Hx Hy]. apply Hn. destruct p. cbn in Hx, Hy. subst. eapply list_elem_of_lookup_2. exact Hp. }
  rewrite Hi, Hl, Hc. reflexivity.
Qed.

(** [GetPreds] is the converse of [GetSuccs]: for cells that are not
    obstacles, other than the absorbing goal, a state is a predecessor at some
    cost exactly when it has this one as a successor at that cost. *)
Theorem GetPreds_GetSuccs env target source xt yt xs ys :
  env_ok env -> GetCoordFromState env target = Ok (xt, yt) -> GetCoordFromState env source = Ok (xs, ys) ->
  IsObstacle env xs ys = Ok false -> source <> goalstateid env ->
  exists preds pcosts env1 succs scosts env2,
    GetPreds env target = Ok (preds, pcosts, env1) /\ GetSuccs env1 source = Ok (succs, scosts, env2) /\
    forall w, (source, w) ∈ zip preds pcosts <-> (target, w) ∈ zip succs scosts.
Proof.
  intros I Ht Hs Hobs Hg.
  assert (Hcell : forall e i p, GetCoordFromState e i = Ok p <-> cell_of e i = Some p).
  { intros e i p. unfold cell_of, GetCoordFromState. destruct (aget _ i); cbn; split; congruence. }
  apply Hcell in Ht, Hs.
  destruct (GetPreds_ok env I target xt yt Ht) as (e & preds & pcosts & env1 & Ee & E1 & O1 & X1 & A1).
  pose proof X1 as (C1 & _ & G1 & _).
  destruct (GetSuccs_ok env1 O1 source xs ys) as (succs & scosts & env2 & E2 & O2 & X2 & A2);
    [eapply extends_cell; eassumption|congruence|]. rewrite C1 in A2.
  exists preds, pcosts, env1, succs, scosts, env2. split; [exact E1|]. split; [exact E2|].
  destruct (entry_of_cell env I target xt yt Ht) as (e' & Ee' & Hxt & Hyt & Hmt). rewrite Ee in Ee'. injection Ee' as <-.
  destruct (entry_of_cell env I source xs ys Hs) as (es & _ & _ & _ & Hms).
  pose proof (grid_value (cfg env) (eo_cfg _ I) xs ys Hms) as [Egs _].
  assert (Hfree : value_at (cfg env) (xs, ys) < obsthresh (cfg env)).
  { unfold IsObstacle in Hobs. rewrite Egs in Hobs. cbn in Hobs. injection Hobs as Hobs. apply Z.leb_gt in Hobs. exact Hobs. }
  (* an arc of a list is the pair of its cell and cost *)
  assert (Harc : forall e ids costs l i p w, env_ok e -> arcs_as e ids costs l -> cell_of e i = Some p ->
    (i, w) ∈ zip ids costs <-> (p, w) ∈ l).
  { clear. intros e ids costs l i p w O [H1 ->] Hp. revert ids H1.
    induction l as [|[q v] l IH]; intros [|j ids] H1; cbn in *; try discriminate; [split; intros H; inversion H|].
    injection H1 as Hj H1. rewrite !elem_of_cons, (IH ids H1). split.
    - intros [[= -> ->]|?]; [left; congruence|auto].
    - intros [[= -> ->]|?]; [|auto]. left. f_equal. exact (cell_inj e O i j q Hp Hj). }
  intros w. rewrite (Harc env1 preds pcosts _ source (xs, ys) w O1 A1 (extends_cell _ _ _ _ X1 Hs)).
  rewrite (Harc env2 succs scosts _ target (xt, yt) w O2 A2 (extends_cell _ _ _ _ X2 (extends_cell _ _ _ _ X1 Ht))).
  rewrite <- Hxt, <- Hyt. rewrite <- (preds_succs (cfg env) (eo_cfg _ I) e xs ys w); [|rewrite Hxt, Hyt; exact Hmt|exact Hms|exact Hfree].
  rewrite Hxt, Hyt. destruct (Z.leb_spec (obsthresh (cfg env)) (value_at (cfg env) (xt, yt))) as [Hob|]; [|reflexivity].
  split; [intros H; inversion H|]. unfold neighbors. intros (a & Ha & E)%list_elem_of_omap. exfalso. revert E.
  unfold legal_back. destruct (moves !! _) as [[[[dx dy] ix] iy]|]; [|discriminate].
  rewrite Hxt, Hyt.
  rewrite (proj2 (Z.ltb_ge (largest (cfg env) (entered_back (dx, dy, ix, iy) xt yt a)) (obsthresh (cfg env))))
    by (unfold largest, entered_back; rewrite fmap_cons; cbn [foldr]; lia). rewrite andb_false_r. discriminate.
Qed.

(** C24: every operation that changes the environment keeps its invariant and
    does what it promises.  [SetGoal] and [SetStart] of a cell of the map return
    the id of that cell, which becomes the goal (the start), leave the other end
    alone and record the coordinates; outside the map they return -1 and change
    nothing.  [UpdateCost] changes that cell of the map and no other.
    [GetPredsofChangedEdges], whose body [GetSuccsofChangedEdges] repeats, appends
    for every changed cell its id and those of the cells a move away from it
    inside the map, in the order of the directions. *)
Theorem operations_keep env : env_ok env ->
  (forall x y, in_map (cfg env) x y ->
     (exists id env', SetGoal env x y = Ok (id, env') /\ env_ok env' /\ goalstateid env' = id /\ GetCoordFromState env' id = Ok (x, y) /\
        startstateid env' = startstateid env /\ (EndX_c (cfg env'), EndY_c (cfg env')) = (x, y)) /\
     (exists id env', SetStart env x y = Ok (id, env') /\ env_ok env' /\ startstateid env' = id /\ GetCoordFromState env' id = Ok (x, y) /\
        goalstateid env' = goalstateid env /\ (StartX_c (cfg env'), StartY_c (cfg env')) = (x, y)) /\
     (forall v, 0 <= v <= 255 -> exists env', UpdateCost env x y v = Ok (true, env') /\ env_ok env' /\
        forall x' y', GetMapCost env' x' y' = if decide (x' = x /\ y' = y) then Ok v else GetMapCost env x' y')) /\
  (forall x y, ~ in_map (cfg env) x y -> SetGoal env x y = Ok (-1, env) /\ SetStart env x y = Ok (-1, env)) /\
  (forall cells ids, (forall p, p ∈ cells -> in_map (cfg env) p.1 p.2) ->
     exists l env', GetPredsofChangedEdges env cells ids = Ok (ids ++ l, env') /\ GetSuccsofChangedEdges env cells ids = Ok (ids ++ l, env') /\
       env_ok env' /\ GetCoordFromState env' <$> l = Ok <$> (cells ≫= affected (cfg env))).
Proof.
  intros I. assert (Hcell : forall e i p, cell_of e i = Some p -> GetCoordFromState e i = Ok p).
  { intros e i p. unfold cell_of, GetCoordFromState. destruct (aget _ i); [intros [= <-]; reflexivity|discriminate]. }
  split; [|split].
  - intros x y Hm. split; [|split].
    + destruct (SetGoal_ok env x y I Hm) as (id & env' & E & O & H1 & H2 & Hc & H3). exists id, env'. auto 6.
    + destruct (SetStart_ok env x y I Hm) as (id & env' & E & O & H1 & H2 & Hc & H3). exists id, env'. auto 6.
    + intros v Hv. destruct (UpdateCost_ok env x y v I Hm Hv) as (env' & E & O & _ & Hu). eauto.
  - intros x y Hn. unfold SetGoal, SetStart.
    destruct (IsWithinMapCell (cfg env) x y) eqn:E; [apply within_map in E; contradiction|]. auto.
  - intros cells ids Hcells. destruct (ChangedEdges_ok env cells ids I Hcells) as (l & env' & E & O & _ & H).
    exists l, env'. split; [exact E|]. split; [exact E|]. split; [exact O|]. clear E.
    induction H as [|i p l ps Hi _ IH]; [reflexivity|]. rewrite !fmap_cons, IH, (Hcell _ _ _ Hi). reflexivity.
Qed.

(** ** A concrete map: four columns, three rows, an obstacle in the middle *)

Definition no_cfg : ENV_NAV2D_CONFIG := mkCfg 0 0 0 0 0 0 [] 0 [] [] [] [] [] 8.
Definition new_env : EnvironmentNAV2D := construct (mkEnv no_cfg 0 0 false 0 ∅ [] []).

Definition island : list Z := [0; 0; 0; 0; 0; 9; 0; 0; 0; 0; 0; 0].

Definition sample_env : EnvironmentNAV2D :=
  match InitializeEnv new_env 4 3 (Some island) 0 0 3 2 1 with Ok (_, env) => env | Err _ => new_env end.

Lemma sample_initialised : InitializeEnv new_env 4 3 (Some island) 0 0 3 2 1 = Ok (true, sample_env).
Proof. vm_compute. reflexivity. Qed.

Lemma new_env_fresh : fresh new_env.
Proof. split; [reflexivity|left; reflexivity]. Qed.

Lemma island_map : map_ok 4 3 (Some island) (fun x y => match aget island (x + y * 4) with Ok v => v | Err _ => 0 end).
Proof.
  apply bytes_map_ok; [vm_compute; split; congruence..|vm_compute; congruence|].
  intros b Hb. assert (H : forallb (fun b => (0 <=? b) && (b <=? 255)) island = true) by reflexivity.
  rewrite forallb_forall in H. specialize (H b). rewrite andb_true_iff, !Z.leb_le in H. apply H, list_elem_of_In. exact Hb.
Qed.

Lemma ok_pair_inj {A B} (a a' : A) (b b' : B) : Ok (a, b) = Ok (a', b') -> b = b'.
Proof. congruence. Qed.

Lemma sample_ok : env_ok sample_env.
Proof.
  destruct (InitializeEnv_ok new_env 4 3 (Some island) _ 0 0 3 2 1 new_env_fresh island_map) as (env' & E & I & _); [lia..|].
  rewrite sample_initialised in E. rewrite (ok_pair_inj _ _ _ _ E). exact I.
Qed.

Lemma InitializeEnv_correct_witness : exists env', InitializeEnv new_env 4 3 (Some island) 0 0 3 2 1 = Ok (true, env') /\ env_ok env'.
Proof.
  destruct (proj1 (InitializeEnv_correct new_env 4 3 (Some island) _ 0 0 3 2 1 new_env_fresh island_map
    ltac:(lia) ltac:(lia) ltac:(lia)) ltac:(lia) ltac:(lia)) as (env' & E & I & _).
  exists env'. split; [exact E|exact I].
Defined.

Lemma ids_roundtrip_witness : exists id env', GetStateFromCoord sample_env 2 1 = Ok (id, env') /\ GetCoordFromState env' id = Ok (2, 1).
Proof.
  destruct (ids_roundtrip sample_env 2 1 sample_ok ltac:(vm_compute; split; split; congruence)) as (id & env' & E & _ & Hc & _).
  exists id, env'. split; [exact E|exact Hc].
Defined.

Lemma GetSuccs_correct_witness : exists ids costs env', GetSuccs sample_env 0 = Ok (ids, costs, env') /\ costs = [1000; 1000].
Proof.
  destruct (GetSuccs_correct sample_env 0 0 0 sample_ok ltac:(vm_compute; reflexivity)) as (ids & costs & env' & E & _ & H).
  exists ids, costs, env'. split; [exact E|].
  assert (Hg : (0 =? goalstateid sample_env) = false) by (vm_compute; reflexivity). rewrite Hg in H.
  destruct H as [[_ H] _]. rewrite H. vm_compute. reflexivity.
Defined.

Lemma GetPreds_GetSuccs_witness : exists preds pcosts env1 succs scosts env2,
  GetPreds sample_env 1 = Ok (preds, pcosts, env1) /\ GetSuccs env1 0 = Ok (succs, scosts, env2) /\
  forall w, (0, w) ∈ zip preds pcosts <-> (1, w) ∈ zip succs scosts.
Proof.
  apply (GetPreds_GetSuccs sample_env 1 0 3 2 0 0 sample_ok); vm_compute; congruence.
Defined.

Lemma operations_keep_witness : exists env', UpdateCost sample_env 1 1 0 = Ok (true, env') /\ env_ok env'.
Proof.
  destruct (operations_keep sample_env sample_ok) as [H _].
  destruct (H 1 1 ltac:(vm_compute; split; split; congruence)) as (_ & _ & H3).
  destruct (H3 0 ltac:(lia)) as (env' & E & O & _). exists env'. split; [exact E|exact O].
Defined.

(** [GetGoalHeuristic] overestimates.  On an empty map of six by six cells
    the heuristic of the start is 7071, and the five diagonal moves to the goal
    cost 1414 each, 7070 in all. *)
Theorem heuristic_overestimates : exists env,
  InitializeEnv new_env 6 6 None 0 0 5 5 1 = Ok (true, env) /\
  GetGoalHeuristic env (startstateid env) = Ok 7071 /\
  (forall i, 0 <= i < 5 -> (i + 1, i + 1, 1414) ∈ neighbors (legal (cfg env) i i) (numofdirs (cfg env))) /\
  5 * 1414 < 7071.
Proof.
  eexists. split; [vm_compute; reflexivity|]. split; [vm_compute; reflexivity|]. split; [|lia].
  intros i Hi. assert (Hi' : i = 0 \/ i = 1 \/ i = 2 \/ i = 3 \/ i = 4) by lia.
  destruct Hi' as [-> |[-> |[-> |[-> | ->]]]]; by_vm_in.
Qed.
End Nav2DProps.
