(* ===== verification/WAStarPlanner.v ===== *)
(** * The sequential planner (src/libsbpl: pwsaplanner.h, pwsaplanner.cpp)

    [wAStarPlanner]: weighted A* over an environment, with the states in a
    [ubvec] and the frontier in a [Heap<int>].  A pointer to a state is the id
    of the state: Ubvec.v shows that addresses of ids are stable and distinct.
    Printing, timing and the statistics file have no effect on the result. *)

From S2P Require Import Prelude.
From S2P Require Import Doubles.
From S2P Require Import Environment.
From S2P Require Import Interfaces.

Module WAStarPlanner.

Definition INFINITECOST : Z := 1000000000.

(** [h] has no value before the state is initialised. *)
Record astarState := mkState { pred : Z; g : Z; expanded : bool; initialized : bool; h : option Z }.

Definition new_state : astarState := mkState (-1) INT_MAX false false None.

(** [ubvec<astarState>]: a state is constructed when its block is. *)
Abbreviation ubvec := (gmap Z astarState).

Definition state_at (t : ubvec) (id : Z) : astarState := default new_state (t !! id).

(** [getState]: ids from 0 to 2^30 - 1 have an address. *)
Definition getState (t : ubvec) (id : Z) : res astarState :=
  if (0 <=? id) && (id <? 2 ^ 30) then Ok (state_at t id) else Err OutOfBounds.

Section planner.
Context {E H : Type} {eops : EnvOps E} {hops : HeapOps H}.

Record wAStarPlanner := mkPlanner {
  environment_ : E;
  states : ubvec;
  eps : Doubles.double;
  start_state_id : Z;
  goal_state_id : Z;
}.

Definition set_states (t : ubvec) (p : wAStarPlanner) : wAStarPlanner :=
  mkPlanner (environment_ p) t (eps p) (start_state_id p) (goal_state_id p).
Definition set_environment (e : E) (p : wAStarPlanner) : wAStarPlanner :=
  mkPlanner e (states p) (eps p) (start_state_id p) (goal_state_id p).

(** [wAStarPlanner::GetState]: the heuristic is computed once. *)
Definition GetState (p : wAStarPlanner) (id : Z) : res (astarState * wAStarPlanner) :=
  s ← getState (states p) id;
  if negb (initialized s) then
    hv ← env_goal_heuristic (environment_ p) id;
    let s := mkState (pred s) (g s) (expanded s) true (Some hv) in
    Ok (s, set_states (<[id := s]> (states p)) p)
  else Ok (s, p).

(** The heuristic passed to [wAStar]: a double. *)
Definition heuristic (p : wAStarPlanner) (v : Z) : res (Doubles.double * wAStarPlanner) :=
  '(s, p) ← GetState p v;
  match h s with
  | Some hv => Ok (Doubles.mul (eps p) (Doubles.of_int hv), p)
  | None => Err Uninitialised
  end.

(** The callback of [for_each_neighbor_of]: [g] is an unsigned int, [nghdist] an
    int, the priority a long. *)
Definition relax (v ngh weight : Z) (p : wAStarPlanner) (frontier : H) : res (wAStarPlanner * H) :=
  vState ← getState (states p) v;
  let nghdist := to_sint (to_uint (g vState + to_uint weight)) in
  '(nghState, p) ← GetState p ngh;
  if to_uint nghdist <? g nghState then
    '(hv, p) ← heuristic p ngh;
    priority ← Doubles.to_long (Doubles.add hv (Doubles.of_int nghdist));
    frontier ← h_insert priority ngh frontier;
    nghState ← getState (states p) ngh;
    let s := mkState v (to_uint nghdist) (expanded nghState) (initialized nghState) (h nghState) in
    Ok (set_states (<[ngh := s]> (states p)) p, frontier)
  else Ok (p, frontier).

(** [for_each_neighbor_of (v, f)] *)
Definition for_each_neighbor_of {S : Type} (p : wAStarPlanner) (v : Z)
    (f : Z -> Z -> wAStarPlanner -> S -> res (wAStarPlanner * S)) (acc : S) : res (wAStarPlanner * S) :=
  '(_, p) ← GetState p v;
  '(SuccIDV, CostV, e) ← env_succs (environment_ p) v;
  foldM (fun '(p, acc) sind =>
      nghId ← aget SuccIDV sind;
      weight ← aget CostV sind;
      f nghId weight p acc) (set_environment e p, acc) (seqZ 0 (Z.of_nat (length SuccIDV))).

(** The body of [if (!vState->expanded)]. *)
Definition expand (v : Z) (p : wAStarPlanner) (frontier : H) : res (wAStarPlanner * H) :=
  s ← getState (states p) v;
  let p := set_states (<[v := mkState (pred s) (g s) true (initialized s) (h s)]> (states p)) p in
  for_each_neighbor_of p v (relax v) frontier.

(** [while (dest->g == INT_MAX)] *)
Fixpoint wAStar_loop (fuel : nat) (destination : Z) (p : wAStarPlanner) (frontier : H) :
    res (wAStarPlanner * H) :=
  match fuel with
  | O => Err OutOfFuel
  | S fuel =>
      dest ← getState (states p) destination;
      if negb (g dest =? INT_MAX) then Ok (p, frontier) else
      '(v, frontier) ← h_delete_min frontier;
      '(vState, p) ← GetState p v;
      if expanded vState then wAStar_loop fuel destination p frontier
      else '(p, frontier) ← expand v p frontier; wAStar_loop fuel destination p frontier
  end.

Definition wAStar (fuel : nat) (p : wAStarPlanner) (source destination : Z) : res wAStarPlanner :=
  '(src, p) ← GetState p source;
  let p := set_states (<[source := mkState source 0 (expanded src) (initialized src) (h src)]> (states p)) p in
  '(hv, p) ← heuristic p source;
  priority ← Doubles.to_long hv;
  frontier ← h_insert priority source h_new;
  '(_, p) ← GetState p destination;
  '(p, _) ← wAStar_loop fuel destination p frontier;
  Ok p.

Definition run_wAStar (fuel : nat) (p : wAStarPlanner) : res wAStarPlanner :=
  wAStar fuel p (start_state_id p) (goal_state_id p).

(** The cheapest of the arcs to [cur_id], INFINITECOST when there is none. *)
Definition action_cost (SuccIDV CostV : list Z) (cur_id : Z) : res Z :=
  foldM (fun actioncost i =>
      s ← aget SuccIDV i;
      if s =? cur_id then c ← aget CostV i; Ok (if c <? actioncost then c else actioncost)
      else Ok actioncost) INFINITECOST (seqZ 0 (Z.of_nat (length SuccIDV))).

(** The loop of [GetSearchPath]; [cur_id] is the id of [state]. *)
Fixpoint path_loop (fuel : nat) (p : wAStarPlanner) (cur_id : Z) (wholePathIds : list Z) (solcost : Z) :
    res (list Z * Z * wAStarPlanner) :=
  match fuel with
  | O => Err OutOfFuel
  | S fuel =>
      if cur_id =? start_state_id p then Ok (wholePathIds, solcost, p) else
      state ← getState (states p) cur_id;
      if pred state =? -1 then Ok (wholePathIds, solcost, p) else
      if g state =? INT_MAX then Ok (wholePathIds, solcost, p) else
      '(SuccIDV, CostV, e) ← env_succs (environment_ p) (pred state);
      let p := set_environment e p in
      actioncost ← action_cost SuccIDV CostV cur_id;
      solcost ← add_int int32 solcost actioncost;
      '(_, p) ← GetState p (pred state);
      path_loop fuel p (pred state) (wholePathIds ++ [pred state]) solcost
  end.

Definition GetSearchPath (fuel : nat) (p : wAStarPlanner) : res (list Z * Z * wAStarPlanner) :=
  '(wholePathIds, solcost, p) ← path_loop fuel p (goal_state_id p) [goal_state_id p] 0;
  wholePathIds ← reverse_in_place wholePathIds;
  Ok (wholePathIds, solcost, p).

Definition initializeSearch (p : wAStarPlanner) : res wAStarPlanner :=
  '(_, p) ← GetState p (goal_state_id p);
  '(start, p) ← GetState p (start_state_id p);
  let s := mkState (pred start) 0 (expanded start) (initialized start) (h start) in
  let p := set_states (<[start_state_id p := s]> (states p)) p in
  e ← env_ensure_heuristics (environment_ p) true;
  Ok (set_environment e p).

(** The path and its cost; [PathCost] stays unset when there is none. *)
Definition Search (fuel : nat) (p : wAStarPlanner) : res (bool * list Z * option Z * wAStarPlanner) :=
  p ← initializeSearch p;
  p ← run_wAStar fuel p;
  '(goal, p) ← GetState p (goal_state_id p);
  if g goal =? INT_MAX then Ok (false, [], None, p) else
  '(pathIds, PathCost, p) ← GetSearchPath fuel p;
  Ok (true, pathIds, Some PathCost, p).

Definition set_goal (id : Z) (p : wAStarPlanner) : Z * wAStarPlanner :=
  (1, mkPlanner (environment_ p) (states p) (eps p) (start_state_id p) id).

Definition set_start (id : Z) (p : wAStarPlanner) : Z * wAStarPlanner :=
  (1, mkPlanner (environment_ p) (states p) (eps p) id (goal_state_id p)).

(** [replan (start, goal, ...)]: the value returned, and the path and its cost
    when they are written.  A new [ubvec] each time; on the early returns it is
    not deleted. *)
Definition replan (fuel : nat) (start goal : Z) (initial_eps : Doubles.double) (p : wAStarPlanner) :
    res (Z * option (list Z * Z) * wAStarPlanner) :=
  let p := set_states ∅ p in
  let '(_, p) := set_start start p in
  let '(_, p) := set_goal goal p in
  let p := mkPlanner (environment_ p) (states p) initial_eps (start_state_id p) (goal_state_id p) in
  if goal_state_id p <? 0 then Ok (0, None, p) else
  if start_state_id p <? 0 then Ok (0, None, p) else
  '(solnFound, pathIds, PathCost, p) ← Search fuel p;
  match PathCost with
  | Some c => Ok (if (solnFound : bool) then 1 else 0, Some (pathIds, c),
      mkPlanner (environment_ p) ∅ (eps p) (-1) (-1))
  | None => Err Uninitialised
  end.

(** The overload that plans between the ids set before. *)
Definition replan_again (fuel : nat) (initial_eps : Doubles.double) (p : wAStarPlanner) :=
  replan fuel (start_state_id p) (goal_state_id p) initial_eps p.
End planner.
Arguments wAStarPlanner : clear implicits.
End WAStarPlanner.
