(* ===== verification/WAStarSpec.v ===== *)
(** * Properties of the sequential planner

    Over any lawful environment and heap: [replan] finds a path whenever the
    goal can be reached, with the cost it reports. *)

From S2P Require Import Prelude.
From S2P Require Import Doubles.
From S2P Require Import Environment.
From S2P Require Import Interfaces.
From S2P Require Import Paths.
From S2P Require Import WAStarPlanner.

Module WAStarSpec.
Import WAStarPlanner.

(** The arc chosen on the way back is the cheapest one. *)
Lemma action_cost_least (ids costs : list Z) v : length costs = length ids -> exists c, action_cost ids costs v = Ok c /\
  (c = INFINITECOST \/ exists k, aget ids k = Ok v /\ aget costs k = Ok c) /\ c <= INFINITECOST /\
  forall k w, aget ids k = Ok v -> aget costs k = Ok w -> c <= w.
Proof.
  intros Hlen. unfold action_cost. match goal with |- context [foldM ?F _ _] => set (body := F) end.
  destruct (foldM_inv body (fun done c => (c = INFINITECOST \/ exists k, aget ids k = Ok v /\ aget costs k = Ok c) /\ c <= INFINITECOST /\
      forall k w', k ∈ done -> aget ids k = Ok v -> aget costs k = Ok w' -> c <= w')
    (seqZ 0 (Z.of_nat (length ids))) INFINITECOST) as (c & E1 & K1 & K2 & K3).
  - split_and!; [auto|lia|]. intros k w' Hk. inversion Hk.
  - intros done k todo c Hs (K1 & K2 & K3).
    assert (Hk : 0 <= k < Z.of_nat (length ids)).
    { assert (k ∈ seqZ 0 (Z.of_nat (length ids))) as Hin by (rewrite Hs; apply elem_of_app; right; left).
      apply elem_of_seqZ in Hin. lia. }
    destruct (aget_in ids k Hk) as [i Ei]. destruct (aget_in costs k ltac:(lia)) as [w1 Ew]. unfold body. rewrite Ei, bind_ok_l.
    destruct (Z.eqb_spec i v) as [->|Hne].
    + rewrite Ew, bind_ok_l. eexists. split; [reflexivity|].
      split; [destruct (w1 <? c); eauto|]. split; [destruct (Z.ltb_spec w1 c); lia|].
      intros k' w' [Hk1| ->%list_elem_of_singleton]%elem_of_app Ei' Ew'.
      * specialize (K3 k' w' Hk1 Ei' Ew'). destruct (Z.ltb_spec w1 c); lia.
      * rewrite Ew in Ew'. injection Ew' as <-. destruct (Z.ltb_spec w1 c); lia.
    + eexists. split; [reflexivity|]. split_and!; [exact K1|exact K2|].
      intros k' w' [Hk1| ->%list_elem_of_singleton]%elem_of_app Ei' Ew'; [eauto|congruence].
  - exists c. split_and!; auto. intros k w Ei Ew. eapply K3; [|exact Ei|exact Ew]. apply elem_of_seqZ. pose proof (aget_bounds _ _ _ Ei). lia.
Qed.

Section specs.
Context {E H : Type} {eops : EnvOps E} {hops : HeapOps H} {hlaws : HeapLaws H}.
Context {Node : Type} (succ : Node -> list (Node * Z)) (max_id max_deg max_cost max_heur : Z).
Context {elaws : EnvLaws (E := E) succ max_id max_deg max_cost max_heur}.
Context (Hids : max_id <= 2 ^ 30) (Hfit : max_id * max_cost < INT_MAX) (Hheur : max_heur <= 2 ^ 31).
Context (Hcost0 : 0 <= max_cost) (Hdeg0 : 0 <= max_deg).
Context (source destination : Z).

Abbreviation planner := (wAStarPlanner E).
Abbreviation node := (Environment.node succ).
Abbreviation env_inv := (Environment.env_inv succ).
Abbreviation env_le := (Environment.env_le succ).

(** An arc between states that have ids. *)
Definition edge (e : E) (u v w : Z) : Prop :=
  exists x y, node e u = Some x /\ node e v = Some y /\ (y, w) ∈ succ x.

Lemma edge_mono e e' u v w : env_le e e' -> edge e u v w -> edge e' u v w.
Proof. intros L (x & y & Hx & Hy & Hin). exists x, y. split_and!; [eapply node_mono; eassumption..|exact Hin]. Qed.

Lemma edge_cost e u v w : edge e u v w -> 0 <= w <= max_cost.
Proof using elaws. intros (x & y & _ & _ & Hin). eapply succ_cost. exact Hin. Qed.

Lemma wastar_edge_nonneg e u v w : edge e u v w -> 0 <= w.
Proof using elaws. intros He. apply edge_cost in He. lia. Qed.

(** ** The table *)

Definition D (t : ubvec) (x : Z) : Z := g (state_at t x).
Definition P (t : ubvec) (x : Z) : Z := pred (state_at t x).
Definition Ex (t : ubvec) (x : Z) : bool := expanded (state_at t x).

Lemma state_at_insert t x s y : state_at (<[x := s]> t) y = if decide (y = x) then s else state_at t y.
Proof.
  unfold state_at. case_decide as Hd; [subst; rewrite lookup_insert_eq; reflexivity|].
  rewrite lookup_insert_ne by congruence. reflexivity.
Qed.

(** Tables that differ in the memoised heuristics only. *)
Definition same_search (t t' : ubvec) : Prop :=
  forall x, D t' x = D t x /\ P t' x = P t x /\ Ex t' x = Ex t x.

Lemma same_search_refl t : same_search t t.
Proof. intros x. auto. Qed.

(** The memo holds what the environment answers: a number within its bound. *)
Definition memo_ok (t : ubvec) : Prop := forall x, initialized (state_at t x) = true ->
  exists hv, h (state_at t x) = Some hv /\ 0 <= hv <= max_heur.

Lemma id_in_range e i x : env_inv e -> node e i = Some x -> forall t, getState t i = Ok (state_at t i).
Proof using Hids.
  intros I Hi t. pose proof (node_range e i x I Hi). unfold getState.
  rewrite (proj2 (Z.leb_le 0 i)), (proj2 (Z.ltb_lt i (2 ^ 30))) by lia. reflexivity.
Qed.

Lemma GetState_ok (p : planner) i x : env_inv (environment_ p) -> node (environment_ p) i = Some x -> memo_ok (states p) ->
  exists s t hv, GetState p i = Ok (s, set_states t p) /\ s = state_at t i /\ same_search (states p) t /\ memo_ok t /\
    initialized s = true /\ h s = Some hv /\ 0 <= hv <= max_heur.
Proof using Hids.
  intros I Hi M. unfold GetState. rewrite (id_in_range _ _ _ I Hi), bind_ok_l.
  destruct (initialized (state_at (states p) i)) eqn:Ei; cbn [negb].
  - destruct (M i Ei) as (hv & Eh & Hr). exists (state_at (states p) i), (states p), hv.
    split_and!; auto; [destruct p; reflexivity|apply same_search_refl|lia..].
  - destruct (heuristic_law _ _ _ I Hi) as (hv & Eh & Hr). rewrite Eh, bind_ok_l.
    set (s := mkState _ _ _ true (Some hv)). exists s, (<[i := s]> (states p)), hv.
    split; [reflexivity|]. split; [rewrite state_at_insert, decide_True; reflexivity|].
    split; [|split; [|split_and!; [reflexivity..|lia|lia]]].
    + intros y. unfold D, P, Ex. rewrite state_at_insert. case_decide; subst; auto.
    + intros y Hy. rewrite state_at_insert in *. case_decide; [eauto|]. apply M. exact Hy.
Qed.

Lemma heuristic_ok (p : planner) i x : Doubles.upto 20 (eps p) ->
  env_inv (environment_ p) -> node (environment_ p) i = Some x -> memo_ok (states p) ->
  exists d t, heuristic p i = Ok (d, set_states t p) /\ Doubles.upto 51 d /\ same_search (states p) t /\ memo_ok t /\
    initialized (state_at t i) = true.
Proof using Hids Hheur.
  intros He I Hi M. unfold heuristic.
  destruct (GetState_ok p i x I Hi M) as (s & t & hv & -> & Es & Hs & Ht & Hin & Eh & Hr). rewrite bind_ok_l, Eh.
  exists (Doubles.mul (eps p) (Doubles.of_int hv)), t. split; [reflexivity|]. split; [|split_and!; [exact Hs|exact Ht|congruence]].
  apply (Doubles.mul_upto 20 31); [lia|exact He|]. apply Doubles.of_int_upto; lia.
Qed.

(** ** The invariant of the search *)

(** [l]: the entries of the frontier; [expd]: the expanded states, [skip] those
    whose arcs are still being relaxed. *)
Record winv (e : E) (t : ubvec) (f : H) (l : list (Z * Z)) (expd skip : list Z) : Prop := {
  w_env : env_inv e;
  w_heap : h_rep f l;
  w_tree : tree_inv (edge e) INT_MAX source (D t) (P t);
  w_known : forall x, D t x < INT_MAX -> exists n, node e x = Some n;
  w_entry : forall q x, (q, x) ∈ l -> D t x < INT_MAX;
  w_open : forall x, D t x < INT_MAX -> Ex t x = false -> exists q, (q, x) ∈ l;
  w_nodup : NoDup expd;
  w_flag : forall x, Ex t x = true <-> x ∈ expd;
  w_reached : forall x, x ∈ expd -> D t x < INT_MAX;
  w_closed : forall x n m w, x ∈ expd -> x ∉ skip -> node e x = Some n -> (m, w) ∈ succ n ->
    exists y, node e y = Some m /\ D t y < INT_MAX;
  w_bound : forall x, D t x < INT_MAX -> D t x <= Z.of_nat (length expd) * max_cost;
  w_le : forall x, D t x <= INT_MAX;
  w_memo : memo_ok t;
}.

Lemma winv_same e t t' f l expd skip : winv e t f l expd skip -> same_search t t' -> memo_ok t' -> winv e t' f l expd skip.
Proof.
  intros [H1 H2 H3 H4 H5 H6 H7 H8 H9 H10 H11 Hle H12] S M.
  assert (SD : forall x, D t' x = D t x) by (intros x; apply S).
  assert (SE : forall x, Ex t' x = Ex t x) by (intros x; apply S).
  split; auto; try (intros x; rewrite ?SD, ?SE; auto; fail).
  - apply (tree_inv_ext (edge e) INT_MAX source (D t) (P t)); [exact H3|exact SD|intros x; apply S].
  - intros q x Hin. rewrite SD. eauto.
  - intros x n m w Hx Hs Hn Hm. destruct (H10 x n m w Hx Hs Hn Hm) as (y & Hy & Hd). exists y. rewrite SD. auto.
Qed.

(** Expanded states have ids, so there are at most [max_id] of them. *)
Lemma expd_length e t f l expd skip : winv e t f l expd skip -> Z.of_nat (length expd) <= Z.max 0 max_id.
Proof.
  intros I. apply NoDup_range_length; [apply (w_nodup _ _ _ _ _ _ I)|].
  intros x Hx. destruct (w_known _ _ _ _ _ _ I x (w_reached _ _ _ _ _ _ I x Hx)) as [n Hn].
  eapply node_range; [apply (w_env _ _ _ _ _ _ I)|exact Hn].
Qed.

Lemma D_nonneg e t f l expd skip x : winv e t f l expd skip -> 0 <= D t x.
Proof using elaws. intros I. apply (ti_nonneg (edge e) (wastar_edge_nonneg e) INT_MAX source _ (P t)). apply (w_tree _ _ _ _ _ _ I). Qed.

(** ** One arc *)

Lemma wastar_relax_ok (p : planner) (f : H) l expd skip v i w : Doubles.upto 20 (eps p) ->
  winv (environment_ p) (states p) f l expd skip ->
  edge (environment_ p) v i w -> D (states p) v < INT_MAX ->
  D (states p) v + w <= Z.of_nat (length expd) * max_cost -> Z.of_nat (length expd) <= max_id ->
  exists t' f' l', relax v i w p f = Ok (set_states t' p, f') /\
    winv (environment_ p) t' f' l' expd skip /\ (forall x, D t' x <= D (states p) x) /\
    D t' v = D (states p) v /\ D t' i < INT_MAX /\ (length l' <= S (length l))%nat.
Proof using Hids Hfit Hheur Hcost0.
  intros He I Hedge Hv Hsum Hn. pose proof Hedge as (nv & ni & Kv & Ki & _). pose proof (w_env _ _ _ _ _ _ I) as Ie.
  pose proof (edge_cost _ _ _ _ Hedge) as Hw. pose proof (D_nonneg _ _ _ _ _ _ v I) as Hv0.
  assert (Hmax : D (states p) v + w < INT_MAX) by nia. unfold INT_MAX in *. cbn [int_max int32] in *.
  assert (HI : INT_MAX = 2147483647) by reflexivity.
  unfold relax. rewrite (id_in_range _ _ _ Ie Kv), bind_ok_l. change (g (state_at (states p) v)) with (D (states p) v).
  rewrite (to_uint_id w), (to_uint_id (D (states p) v + w)), to_sint_id by (cbn [int_max int32]; lia).
  destruct (GetState_ok p i ni Ie Ki (w_memo _ _ _ _ _ _ I)) as (s & t1 & hv & -> & Es & S1 & M1 & _ & _ & _).
  rewrite bind_ok_l. rewrite (to_uint_id (D (states p) v + w)) by lia.
  assert (Hg : g s = D (states p) i) by (rewrite Es; apply (S1 i)). rewrite Hg.
  pose proof (winv_same _ _ t1 _ _ _ _ I S1 M1) as I1.
  destruct (Z.ltb_spec (D (states p) v + w) (D (states p) i)) as [Hlt|Hge].
  - assert (Ki' : node (environment_ (set_states t1 p)) i = Some ni) by exact Ki.
    destruct (heuristic_ok (set_states t1 p) i ni He Ie Ki' M1) as (d & t2 & -> & Hd & S2 & M2 & Hin2). rewrite bind_ok_l.
    pose proof (winv_same _ _ t2 _ _ _ _ I1 S2 M2) as I2. cbn [states set_states] in S2.
    destruct (Doubles.to_type_upto int64 52 (Doubles.add d (Doubles.of_int (D (states p) v + w)))) as (k & Ek & Hk).
    { lia. }
    { vm_compute. discriminate. }
    { apply (Doubles.add_upto 51); [lia|exact Hd|]. apply Doubles.of_int_upto; lia. }
    unfold Doubles.to_long. rewrite Ek, bind_ok_l.
    destruct (h_insert_rep f l k i (w_heap _ _ _ _ _ _ I)) as (f' & Ef & R').
    { etransitivity; [apply Hk|]. vm_compute. discriminate. }
    rewrite Ef, bind_ok_l. cbn [set_states states]. rewrite (id_in_range _ _ _ Ie Ki), bind_ok_l.
    set (s' := mkState v _ _ _ _). set (t' := <[i := s']> t2).
    assert (D2 : forall x, D t2 x = D (states p) x) by (intros x; destruct (S2 x) as [-> _]; apply S1).
    assert (D' : forall x, D t' x = if decide (x = i) then D (states p) v + w else D t2 x)
      by (intros x; unfold D at 1, t'; rewrite state_at_insert; case_decide; reflexivity).
    assert (P' : forall x, P t' x = if decide (x = i) then v else P t2 x)
      by (intros x; unfold P at 1, t'; rewrite state_at_insert; case_decide; reflexivity).
    assert (E' : forall x, Ex t' x = Ex t2 x)
      by (intros x; unfold Ex, t'; rewrite state_at_insert; case_decide; subst; reflexivity).
    assert (Hmono : forall x, D t' x <= D (states p) x) by (intros x; rewrite D', D2; case_decide; subst; lia).
    exists t', f', ((k, i) :: l). split; [reflexivity|]. split; [|split; [exact Hmono|split; [|split]]].
    + destruct I2 as [J1 J2 J3 J4 J5 J6 J7 J8 J9 J10 J11 Jle J12]. split; auto.
      * rewrite <- (D2 v) in Hmax, Hlt, Hv. rewrite <- (D2 i) in Hlt.
        apply (tree_inv_relax _ (wastar_edge_nonneg _) INT_MAX source (D t2) (P t2) _ _ v i w (D t2 v) J3 Hedge).
        -- apply (ti_walk _ _ _ _ _ J3). exact Hv.
        -- lia.
        -- lia.
        -- unfold INT_MAX. cbn [int_max int32]. lia.
        -- intros y. rewrite D', <- (D2 v). reflexivity.
        -- exact P'.
      * intros x. rewrite D'. case_decide as Hx; [subst; eauto|apply J4].
      * intros q x [[= -> ->]|Hin]%elem_of_cons; [rewrite D', decide_True by reflexivity; lia|].
        pose proof (J5 q x Hin). pose proof (Hmono x) as Hm. rewrite <- D2 in Hm. lia.
      * intros x. rewrite D', E'. case_decide as Hx; [intros _ _; subst; exists k; left|].
        intros Hdx Hex. destruct (J6 x Hdx Hex) as [q Hq]. exists q. right. exact Hq.
      * intros x. rewrite E'. apply J8.
      * intros x Hx. pose proof (J9 x Hx). pose proof (Hmono x) as Hm. rewrite <- D2 in Hm. lia.
      * intros x n m w' Hx Hs Hnx Hm. destruct (J10 x n m w' Hx Hs Hnx Hm) as (y & Hy & Hdy). exists y.
        split; [exact Hy|]. pose proof (Hmono y) as Hm'. rewrite <- D2 in Hm'. lia.
      * intros x. rewrite D'. case_decide; [intros _; exact Hsum|apply J11].
      * intros x. rewrite D'. case_decide; [lia|apply Jle].
      * intros x. unfold t'. rewrite state_at_insert. case_decide; [subst; cbn|]; apply J12.
    + rewrite D', D2. case_decide as Hx; [subst; lia|reflexivity].
    + rewrite D', decide_True by reflexivity. exact Hmax.
    + reflexivity.
  - exists t1, f, l. assert (D1 : forall x, D t1 x = D (states p) x) by (intros x; apply S1).
    split; [reflexivity|]. split; [exact I1|]. split; [intros x; rewrite D1; lia|].
    split; [apply D1|]. split; [rewrite D1; lia|lia].
Qed.
(** ** The arcs out of a state *)

Lemma succs_index e x (ids : list Z) k : node e <$> ids = Some ∘ fst <$> succ x ->
  0 <= k < Z.of_nat (length ids) ->
  exists i y w, aget ids k = Ok i /\ aget (snd <$> succ x) k = Ok w /\ node e i = Some y /\
    succ x !! Z.to_nat k = Some (y, w).
Proof.
  intros Hn Hk. destruct (aget_in ids k Hk) as [i Ei]. rewrite aget_fmap. apply aget_Ok in Ei as [H0 Ei].
  apply (f_equal (fun l => l !! Z.to_nat k)) in Hn. rewrite !list_lookup_fmap, Ei in Hn. cbn in Hn.
  destruct (succ x !! Z.to_nat k) as [[y w]|] eqn:Es; [|discriminate]. injection Hn as Hn.
  exists i, y, w. split; [apply aget_Ok; auto|]. split; [|auto].
  rewrite (proj2 (aget_Ok (succ x) k (y, w))) by auto. reflexivity.
Qed.

Lemma succs_length e x (ids : list Z) : node e <$> ids = Some ∘ fst <$> succ x -> length ids = length (succ x).
Proof. intros Hn. apply (f_equal length) in Hn. rewrite !length_fmap in Hn. exact Hn. Qed.

(** Ids are added while the search runs. *)
Lemma winv_env e e' t f l expd skip : winv e t f l expd skip -> env_le e e' -> env_inv e' -> winv e' t f l expd skip.
Proof.
  intros [H1 H2 H3 H4 H5 H6 H7 H8 H9 H10 H11 Hle H12] L I. split; auto.
  - eapply tree_inv_mono; [|exact H3]. intros a b w. apply edge_mono. exact L.
  - intros x Hx. destruct (H4 x Hx) as [n Hn]. exists n. eapply node_mono; eassumption.
  - intros x n m w Hx Hs Hn Hm. destruct (H4 x (H9 x Hx)) as [n0 Hn0].
    pose proof (node_mono _ _ _ _ L Hn0) as Hn'. rewrite Hn in Hn'. injection Hn' as ->.
    destruct (H10 x n0 m w Hx Hs Hn0 Hm) as (y & Hy & Hd). exists y. split; [eapply node_mono; eassumption|exact Hd].
Qed.

(** ** Expanding a state *)

Lemma wastar_expand_ok (p : planner) (f : H) v l expd : Doubles.upto 20 (eps p) ->
  winv (environment_ p) (states p) f l expd [v] -> v ∈ expd -> Ex (states p) v = true ->
  D (states p) v <= Z.of_nat (length expd - 1) * max_cost ->
  exists e' t' f' l', for_each_neighbor_of p v (relax v) f = Ok (set_states t' (set_environment e' p), f') /\
    env_le (environment_ p) e' /\ winv e' t' f' l' expd [] /\ Z.of_nat (length l') <= Z.of_nat (length l) + max_deg.
Proof using Hids Hfit Hheur Hcost0.
  intros He I Hv Hf Hb. destruct (w_known _ _ _ _ _ _ I v (w_reached _ _ _ _ _ _ I v Hv)) as [n Hn].
  pose proof (w_env _ _ _ _ _ _ I) as Ie. unfold for_each_neighbor_of.
  destruct (GetState_ok p v n Ie Hn (w_memo _ _ _ _ _ _ I)) as (s & t0 & hv & -> & _ & S0 & M0 & _).
  rewrite bind_ok_l. cbn [environment_ set_states].
  pose proof (winv_same _ _ _ _ _ _ _ I S0 M0) as I0.
  destruct (succs_law _ _ _ Ie Hn) as (ids & costs & e' & -> & Ie' & L & Hids' & ->). rewrite bind_ok_l.
  pose proof (winv_env _ _ _ _ _ _ _ I0 L Ie') as I1. pose proof (node_mono _ _ _ _ L Hn) as Hn'.
  set (p1 := set_environment e' (set_states t0 p)).
  pose proof (expd_length _ _ _ _ _ _ I1) as Hlen.
  assert (Hpos : (0 < length expd)%nat) by (destruct expd; [inversion Hv|cbn; lia]).
  match goal with |- context [foldM ?F _ _] => set (body := F) end.
  destruct (foldM_inv body (fun done '(p', f') => exists t' l', p' = set_states t' (set_environment e' p) /\
      winv e' t' f' l' expd [v] /\ D t' v = D (states p) v /\ (length l' <= length l + length done)%nat /\
      forall k, k ∈ done -> exists i, aget ids k = Ok i /\ D t' i < INT_MAX)
    (seqZ 0 (Z.of_nat (length ids))) (p1, f)) as ((p' & f') & E1 & K).
  - exists t0, l. split_and!; [reflexivity|exact I1|apply S0|cbn; lia|]. intros k Hk. inversion Hk.
  - intros done k todo (p' & f') Hs (t' & l' & -> & I' & Hd & Hl & Hdone).
    assert (Hk : 0 <= k < Z.of_nat (length ids)).
    { assert (k ∈ seqZ 0 (Z.of_nat (length ids))) as Hin by (rewrite Hs; apply elem_of_app; right; left).
      apply elem_of_seqZ in Hin. lia. }
    destruct (succs_index e' n ids k Hids' Hk) as (i & y & w & Ei & Ew & Hi & Hy).
    unfold body. rewrite Ei, Ew, !bind_ok_l.
    assert (Hedge : edge e' v i w).
    { exists n, y. split_and!; [exact Hn'|exact Hi|]. eapply list_elem_of_lookup_2. exact Hy. }
    pose proof (edge_cost _ _ _ _ Hedge) as Hw.
    destruct (wastar_relax_ok (set_states t' (set_environment e' p)) f' l' expd [v] v i w He I' Hedge)
      as (t2 & f2 & l2 & -> & I2 & Hmono & Hd2 & Hi2 & Hl2).
    + cbn [states set_states]. apply (w_reached _ _ _ _ _ _ I' v Hv).
    + cbn [states set_states]. rewrite Hd. nia.
    + lia.
    + eexists. split; [reflexivity|]. exists t2, l2. split; [reflexivity|]. split; [exact I2|].
      split; [rewrite Hd2; exact Hd|]. split; [rewrite length_app; cbn [length]; lia|].
      intros k' [Hk'| ->%list_elem_of_singleton]%elem_of_app; [|eauto].
      destruct (Hdone k' Hk') as (i' & Ei' & Hi'). exists i'. split; [exact Ei'|].
      pose proof (Hmono i') as Hm. cbn [states set_states] in Hm. lia.
  - destruct K as (t' & l' & -> & I' & Hd & Hl & Hdone). rewrite length_seqZ, Nat2Z.id in Hl.
    exists e', t', f', l'. split; [exact E1|]. split; [exact L|]. split.
    + destruct I' as [J1 J2 J3 J4 J5 J6 J7 J8 J9 J10 J11 Jle J12]. split; auto.
      intros x n' m w Hx _ Hnx Hm. destruct (decide (x = v)) as [->|Hne].
      2:{ eapply J10; [exact Hx| |exact Hnx|exact Hm]. rewrite list_elem_of_singleton. exact Hne. }
      rewrite Hn' in Hnx. injection Hnx as ->. apply list_elem_of_lookup_1 in Hm as [k Hk].
      assert (Hkl : (k < length ids)%nat) by (rewrite (succs_length _ _ _ Hids'); eapply lookup_lt_Some; exact Hk).
      destruct (succs_index e' n' ids (Z.of_nat k) Hids') as (i & y & w' & Ei & _ & Hi & Hy); [lia|].
      rewrite Nat2Z.id, Hk in Hy. injection Hy as -> ->.
      destruct (Hdone (Z.of_nat k)) as (i' & Ei' & Hd'); [apply elem_of_seqZ; lia|].
      rewrite Ei in Ei'. injection Ei' as ->. eauto.
    + pose proof (succ_degree n) as Hdeg. rewrite <- (succs_length _ _ _ Hids') in Hdeg. lia.
Qed.

(** ** The loop *)

(** An arc of the graph, whatever its cost. *)
Definition next (n m : Node) : Prop := exists w, (m, w) ∈ succ n.

Lemma entry_ok e t f l expd q v : winv e t f l expd [] -> (q, v) ∈ l ->
  exists n, node e v = Some n /\ D t v < INT_MAX.
Proof.
  intros I Hin. pose proof (w_entry _ _ _ _ _ _ I q v Hin) as Hd.
  destruct (w_known _ _ _ _ _ _ I v Hd) as [n Hn]. eauto.
Qed.

(** A state popped a second time. *)
Lemma pop_expanded e t f f' l l' q v expd : winv e t f l expd [] -> h_rep f' l' -> l ≡ₚ (q, v) :: l' ->
  Ex t v = true -> winv e t f' l' expd [].
Proof.
  intros [H1 H2 H3 H4 H5 H6 H7 H8 H9 H10 H11 Hle H12] R Hp Hex. split; auto.
  - intros q' x Hin. apply (H5 q' x). rewrite Hp. right. exact Hin.
  - intros x Hd Hx. destruct (H6 x Hd Hx) as [q' Hq]. rewrite Hp in Hq.
    apply elem_of_cons in Hq as [[= -> ->]|Hq]; [congruence|eauto].
Qed.

(** A state popped for the first time is flagged, its arcs still to be relaxed. *)
Lemma pop_new e t f f' l l' q v expd : winv e t f l expd [] -> h_rep f' l' -> l ≡ₚ (q, v) :: l' ->
  Ex t v = false ->
  winv e (<[v := mkState (P t v) (D t v) true (initialized (state_at t v)) (h (state_at t v))]> t) f' l' (v :: expd) [v].
Proof using Hcost0.
  intros I R Hp Hex. assert (Hd : D t v < INT_MAX) by (apply (w_entry _ _ _ _ _ _ I q); rewrite Hp; left).
  destruct I as [H1 H2 H3 H4 H5 H6 H7 H8 H9 H10 H11 Hle H12].
  set (s := mkState _ _ _ _ _). set (t' := <[v := s]> t).
  assert (D' : forall x, D t' x = D t x) by (intros x; unfold D at 1, t'; rewrite state_at_insert; case_decide; subst; reflexivity).
  assert (P' : forall x, P t' x = P t x) by (intros x; unfold P at 1, t'; rewrite state_at_insert; case_decide; subst; reflexivity).
  assert (E' : forall x, Ex t' x = if decide (x = v) then true else Ex t x)
    by (intros x; unfold Ex at 1, t'; rewrite state_at_insert; case_decide; reflexivity).
  split; auto; try (intros x; rewrite ?D'; auto; fail).
  - apply (tree_inv_ext _ _ _ (D t) (P t)); assumption.
  - intros q' x Hin. rewrite D'. apply (H5 q' x). rewrite Hp. right. exact Hin.
  - intros x. rewrite D', E'. intros Hdx Hx. case_decide as Hxv; [discriminate|].
    destruct (H6 x Hdx Hx) as [q' Hq]. rewrite Hp in Hq. apply elem_of_cons in Hq as [[= _ Hq]|Hq]; [congruence|eauto].
  - constructor; [|exact H7]. intros Hin. apply H8 in Hin. congruence.
  - intros x. rewrite E', elem_of_cons, <- H8. case_decide; tauto.
  - intros x [->|Hx]%elem_of_cons; rewrite D'; auto.
  - intros x n m w Hx Hs Hn Hm. rewrite list_elem_of_singleton in Hs. apply elem_of_cons in Hx as [->|Hx]; [contradiction|].
    destruct (H10 x n m w Hx) as (y & Hy & Hdy); [intros Hin; inversion Hin|exact Hn|exact Hm|].
    exists y. rewrite D'. auto.
  - intros x. rewrite D'. intros Hx. specialize (H11 x Hx). cbn [length]. nia.
  - intros x. unfold t'. rewrite state_at_insert. case_decide; [subst; cbn|]; apply H12.
Qed.

(** An empty frontier: every state the source leads to has been expanded. *)
Lemma exhausted e t f expd ns nd : winv e t f [] expd [] ->
  node e source = Some ns -> node e destination = Some nd -> D t destination = INT_MAX -> ~ rtc next ns nd.
Proof.
  intros I Hns Hnd Hd Hr.
  assert (exists y, node e y = Some nd /\ D t y < INT_MAX) as (y & Hy & Hdy).
  { refine (rtc_invariant next (fun n => exists y, node e y = Some n /\ D t y < INT_MAX) ns nd _ Hr _).
    2:{ exists source. split; [exact Hns|]. rewrite (ti_src _ _ _ _ _ (w_tree _ _ _ _ _ _ I)). reflexivity. }
    intros n m (x & Hx & Hdx) (w & Hw). destruct (Ex t x) eqn:Ee.
    - apply (w_closed _ _ _ _ _ _ I x n m w); [apply (w_flag _ _ _ _ _ _ I); exact Ee|intros Hin; inversion Hin|exact Hx|exact Hw].
    - destruct (w_open _ _ _ _ _ _ I x Hdx Ee) as [q Hq]. inversion Hq. }
  rewrite (node_inj _ _ _ _ (w_env _ _ _ _ _ _ I) Hy Hnd) in Hdy. lia.
Qed.

Abbreviation budget l expd := (Z.of_nat (length l) + (Z.max 0 max_id - Z.of_nat (length expd)) * max_deg).

Lemma wAStar_loop_ok fuel (p : planner) (f : H) l expd ns nd : Doubles.upto 20 (eps p) ->
  winv (environment_ p) (states p) f l expd [] ->
  node (environment_ p) source = Some ns -> node (environment_ p) destination = Some nd ->
  budget l expd < Z.of_nat fuel ->
  (exists e' t' f' l' expd', wAStar_loop fuel destination p f = Ok (set_states t' (set_environment e' p), f') /\
     env_le (environment_ p) e' /\ winv e' t' f' l' expd' [] /\ D t' destination < INT_MAX) \/
  (wAStar_loop fuel destination p f = Err AssertFailed /\ ~ rtc next ns nd).
Proof using Hids Hfit Hheur Hcost0 Hdeg0.
  revert p f l expd. induction fuel as [|fuel IH]; intros p f l expd He I Hns Hnd Hf.
  { pose proof (expd_length _ _ _ _ _ _ I). nia. }
  cbn [wAStar_loop]. rewrite (id_in_range _ _ _ (w_env _ _ _ _ _ _ I) Hnd), bind_ok_l.
  change (g (state_at (states p) destination)) with (D (states p) destination).
  destruct (Z.eqb_spec (D (states p) destination) INT_MAX) as [Hd|Hd]; cbn [negb].
  2:{ left. exists (environment_ p), (states p), f, l, expd. split; [destruct p; reflexivity|].
      split; [reflexivity|]. split; [exact I|]. pose proof (w_le _ _ _ _ _ _ I destination). lia. }
  destruct (decide (l = [])) as [->|Hl].
  { right. rewrite (h_delete_min_empty f (w_heap _ _ _ _ _ _ I)), bind_err_l. split; [reflexivity|].
    eapply exhausted; eassumption. }
  destruct (h_delete_min_rep f l (w_heap _ _ _ _ _ _ I) Hl) as (q & v & f' & l' & -> & R' & Hp & _).
  rewrite bind_ok_l.
  destruct (entry_ok _ _ _ _ _ q v I) as (n & Hn & Hdv); [rewrite Hp; left|].
  destruct (GetState_ok p v n (w_env _ _ _ _ _ _ I) Hn (w_memo _ _ _ _ _ _ I)) as (s & t0 & hv & -> & Es & S0 & M0 & _).
  rewrite bind_ok_l. assert (Hex : expanded s = Ex t0 v) by (rewrite Es; reflexivity). rewrite Hex.
  pose proof (winv_same _ _ _ _ _ _ _ I S0 M0) as I0.
  assert (Hll : length l = S (length l')) by (rewrite Hp; reflexivity).
  destruct (Ex t0 v) eqn:Ee.
  - pose proof (pop_expanded _ _ _ _ _ _ _ _ _ I0 R' Hp Ee) as I1.
    destruct (IH (set_states t0 p) f' l' expd He I1 Hns Hnd) as [(e' & t' & f2 & l2 & expd' & E1 & K)|K]; [lia| |right; exact K].
    left. exists e', t', f2, l2, expd'. split; [exact E1|exact K].
  - pose proof (pop_new _ _ _ _ _ _ _ _ _ I0 R' Hp Ee) as I1. unfold expand.
    cbn [states set_states]. rewrite (id_in_range _ _ _ (w_env _ _ _ _ _ _ I) Hn), bind_ok_l.
    set (t1 := <[v := _]> t0) in *.
    assert (D1 : D t1 v = D t0 v) by (unfold D at 1, t1; rewrite state_at_insert, decide_True; reflexivity).
    pose proof (expd_length _ _ _ _ _ _ I1) as Hlen. cbn [length] in Hlen.
    destruct (wastar_expand_ok (set_states t1 p) f' v l' (v :: expd)) as (e' & t' & f2 & l2 & E1 & L & I2 & Hl2).
    + exact He.
    + exact I1.
    + left.
    + unfold Ex. cbn [states set_states]. unfold t1. rewrite state_at_insert, decide_True; reflexivity.
    + cbn [states set_states length]. rewrite D1. replace (S (length expd) - 1)%nat with (length expd) by lia.
      apply (w_bound _ _ _ _ _ _ I0). destruct (S0 v) as [-> _]. exact Hdv.
    + change (set_states _ (set_states t0 p)) with (set_states t1 p). rewrite E1, bind_ok_l.
      destruct (IH (set_states t' (set_environment e' p)) f2 l2 (v :: expd) He I2) as [(e2 & t2 & f3 & l3 & expd' & E2 & L2 & K)|K].
      * eapply node_mono; [exact L|exact Hns].
      * eapply node_mono; [exact L|exact Hnd].
      * cbn [length]. nia.
      * left. exists e2, t2, f3, l3, expd'. split; [exact E2|]. split; [etransitivity; eassumption|exact K].
      * right. exact K.
Qed.
(** ** The search *)

(** The table before the search: only the source has a distance. *)
Record fresh (t : ubvec) : Prop := {
  f_dist : forall x, D t x = if decide (x = source) then 0 else INT_MAX;
  f_flag : forall x, Ex t x = false;
  f_memo : memo_ok t;
}.

Lemma fresh_same t t' : fresh t -> same_search t t' -> memo_ok t' -> fresh t'.
Proof. intros [H1 H2 H3] S M. split; [intros x; destruct (S x) as [-> _]; auto|intros x; destruct (S x) as (_ & _ & ->); auto|exact M]. Qed.

(** Writing the source's distance and predecessor. *)
Definition unreached (t : ubvec) : Prop :=
  (forall x, x <> source -> D t x = INT_MAX) /\ (forall x, Ex t x = false) /\ memo_ok t.

Lemma unreached_same t t' : unreached t -> same_search t t' -> memo_ok t' -> unreached t'.
Proof. intros (H1 & H2 & H3) S M. split_and!; [intros x; destruct (S x) as [-> _]; auto|intros x; destruct (S x) as (_ & _ & ->); auto|exact M]. Qed.

Lemma fresh_unreached t : fresh t -> unreached t.
Proof. intros [H1 H2 H3]. split_and!; auto. intros x Hx. rewrite H1, decide_False by exact Hx. reflexivity. Qed.

Lemma fresh_source t x0 s : unreached t -> s = state_at t source -> initialized s = true ->
  fresh (<[source := mkState x0 0 (expanded s) (initialized s) (h s)]> t).
Proof.
  intros K -> Hi.
  destruct K as (K1 & K2 & K3). split.
  - intros x. unfold D. rewrite state_at_insert. case_decide; [reflexivity|]. apply K1. assumption.
  - intros x. unfold Ex. rewrite state_at_insert. case_decide; apply K2.
  - intros x. rewrite state_at_insert. case_decide; [subst; cbn|]; apply K3.
Qed.

Lemma winv_init e t f k n : env_inv e -> node e source = Some n -> fresh t -> h_rep f [(k, source)] ->
  winv e t f [(k, source)] [] [].
Proof.
  intros Ie Hn [H1 H2 H3] R.
  assert (Hs : forall x, D t x < INT_MAX -> x = source).
  { intros x. rewrite H1. case_decide; [auto|lia]. }
  split; auto.
  - apply tree_inv_init; [reflexivity|rewrite H1, decide_True; reflexivity|].
    intros x Hx. rewrite H1, decide_False by exact Hx. lia.
  - intros x Hx. rewrite (Hs x Hx). eauto.
  - intros q x [= -> ->]%list_elem_of_singleton. rewrite H1, decide_True by reflexivity. reflexivity.
  - intros x Hx _. rewrite (Hs x Hx). exists k. left.
  - constructor.
  - intros x. rewrite H2. split; [discriminate|]. intros Hin; inversion Hin.
  - intros x Hin; inversion Hin.
  - intros x n' m w Hin; inversion Hin.
  - intros x Hx. rewrite (Hs x Hx), H1, decide_True by reflexivity. cbn. lia.
  - intros x. rewrite H1. case_decide; [vm_compute; discriminate|lia].
Qed.

(** What the search leaves: [D]/[P] is a tree rooted at the source that spans the destination. *)
Record found (e : E) (t : ubvec) : Prop := {
  fd_env : env_inv e;
  fd_tree : tree_inv (edge e) INT_MAX source (D t) (P t);
  fd_known : forall x, D t x < INT_MAX -> exists n, node e x = Some n;
  fd_dst : D t destination < INT_MAX;
  fd_memo : memo_ok t;
}.

Lemma wAStar_ok fuel (p : planner) ns nd : Doubles.upto 20 (eps p) -> env_inv (environment_ p) -> fresh (states p) ->
  node (environment_ p) source = Some ns -> node (environment_ p) destination = Some nd ->
  Z.max 0 max_id * max_deg + 1 < Z.of_nat fuel ->
  (exists e' t', wAStar fuel p source destination = Ok (set_states t' (set_environment e' p)) /\
     env_le (environment_ p) e' /\ found e' t') \/
  (wAStar fuel p source destination = Err AssertFailed /\ ~ rtc next ns nd).
Proof using Hids Hfit Hheur Hcost0 Hdeg0 hlaws.
  intros He Ie F Hns Hnd Hf. unfold wAStar.
  destruct (GetState_ok p source ns Ie Hns (f_memo _ F)) as (s & t0 & hv & -> & Es & S0 & M0 & Hi & _).
  rewrite bind_ok_l. cbn [states set_states]. pose proof (fresh_same _ _ F S0 M0) as F0.
  pose proof (fresh_source t0 source s (fresh_unreached _ F0) Es Hi) as F1. set (t1 := <[source := _]> t0) in *.
  change (set_states t1 (set_states t0 p)) with (set_states t1 p).
  destruct (heuristic_ok (set_states t1 p) source ns He Ie Hns (f_memo _ F1)) as (d & t2 & -> & Hd & S2 & M2 & _).
  rewrite bind_ok_l. pose proof (fresh_same _ _ F1 S2 M2) as F2.
  destruct (Doubles.to_type_upto int64 51 d) as (k & Ek & Hk); [lia|vm_compute; discriminate|exact Hd|].
  unfold Doubles.to_long. rewrite Ek, bind_ok_l.
  destruct (h_insert_rep (h_new (H := H)) [] k source h_new_rep) as (f & -> & R).
  { etransitivity; [apply Hk|]. vm_compute. discriminate. }
  rewrite bind_ok_l. change (set_states t2 (set_states t1 p)) with (set_states t2 p).
  destruct (GetState_ok (set_states t2 p) destination nd Ie Hnd (f_memo _ F2)) as (s3 & t3 & hv3 & -> & _ & S3 & M3 & _).
  rewrite bind_ok_l. pose proof (fresh_same _ _ F2 S3 M3) as F3.
  change (set_states t3 (set_states t2 p)) with (set_states t3 p).
  destruct (wAStar_loop_ok fuel (set_states t3 p) f [(k, source)] [] ns nd)
    as [(e' & t' & f' & l' & expd & E1 & L & I & Hdst)|[E1 Hn]].
  - exact He.
  - eapply winv_init; eassumption.
  - exact Hns.
  - exact Hnd.
  - cbn [length]. lia.
  - left. exists e', t'. rewrite E1. split; [reflexivity|]. split; [exact L|]. destruct I. split; assumption.
  - right. rewrite E1. auto.
Qed.

(** ** The path *)

(** [route v l c]: [l] leads from the source to [v] along arcs that are the
    cheapest between their ends; [c] is their total. *)
Inductive route (e : E) : Z -> list Z -> Z -> Prop :=
  | route_source : route e source [source] 0
  | route_snoc u v l c w : route e u l c -> edge e u v w -> (forall w', edge e u v w' -> w <= w') ->
      route e v (l ++ [v]) (c + w).

Lemma edge_back e e' u v x y w : env_le e e' -> node e u = Some x -> node e v = Some y ->
  edge e' u v w -> edge e u v w.
Proof.
  intros L Hx Hy (x' & y' & Hx' & Hy' & Hin).
  rewrite (node_mono _ _ _ _ L Hx) in Hx'. rewrite (node_mono _ _ _ _ L Hy) in Hy'.
  injection Hx' as ->. injection Hy' as ->. exists x', y'. auto.
Qed.

Lemma route_mono e e' v l c : env_le e e' -> route e v l c -> route e' v l c.
Proof.
  intros L; induction 1 as [|u v l c w _ IH He Hm]; [constructor|].
  econstructor; [exact IH|eapply edge_mono; eassumption|]. destruct He as (x & y & Hx & Hy & _).
  intros w' Hw'. apply Hm. eapply edge_back; eassumption.
Qed.

Lemma route_walk e v l c : route e v l c -> walk (edge e) source v c.
Proof. induction 1; [constructor|]. econstructor; eassumption. Qed.

(** The cheapest arc from [u] to [v]. *)
Lemma action_cost_ok e u v x (ids : list Z) w : max_cost <= INFINITECOST ->
  env_inv e -> node e u = Some x -> node e <$> ids = Some ∘ fst <$> succ x -> edge e u v w ->
  exists c, action_cost ids (snd <$> succ x) v = Ok c /\ edge e u v c /\ forall w', edge e u v w' -> c <= w'.
Proof using elaws.
  intros Hinf Ie Hx Hids' Hw.
  assert (Hedge : forall w', edge e u v w' <-> exists k, aget ids k = Ok v /\ aget (snd <$> succ x) k = Ok w').
  { intros w'. split.
    - intros (x' & y & Hx' & Hy & Hin). rewrite Hx in Hx'. injection Hx' as <-.
      apply list_elem_of_lookup_1 in Hin as [k Hk].
      assert (Hkl : (k < length ids)%nat) by (rewrite (succs_length _ _ _ Hids'); eapply lookup_lt_Some; exact Hk).
      destruct (succs_index e x ids (Z.of_nat k) Hids') as (i & y' & w2 & Ei & Ew & Hi & Hk'); [lia|].
      rewrite Nat2Z.id, Hk in Hk'. injection Hk' as <- <-. exists (Z.of_nat k).
      rewrite (node_inj _ _ _ _ Ie Hi Hy) in Ei. auto.
    - intros (k & Ei & Ew). destruct (succs_index e x ids k Hids' (aget_bounds _ _ _ Ei)) as (i & y & w2 & Ei' & Ew' & Hi & Hk').
      rewrite Ei in Ei'. rewrite Ew in Ew'. injection Ei' as <-. injection Ew' as <-.
      exists x, y. split_and!; [exact Hx|exact Hi|]. eapply list_elem_of_lookup_2. exact Hk'. }
  destruct (action_cost_least ids (snd <$> succ x) v) as (c & E1 & K1 & _ & K3).
  { rewrite length_fmap. symmetry. eapply succs_length. exact Hids'. }
  assert (Hmin : forall w', edge e u v w' -> c <= w') by (intros w' (k & Ei & Ew)%Hedge; eauto).
  exists c. split; [exact E1|]. split; [|exact Hmin]. destruct K1 as [->|K1]; [|apply Hedge; exact K1].
  pose proof (Hmin w Hw). pose proof (edge_cost _ _ _ _ Hw). replace INFINITECOST with w by lia. exact Hw.
Qed.
Lemma found_same e t t' : found e t -> same_search t t' -> memo_ok t' -> found e t'.
Proof.
  intros [H1 H2 H3 H4 H5] S M. split; auto.
  - apply (tree_inv_ext _ _ _ (D t) (P t)); [exact H2|intros x; apply S|intros x; apply S].
  - intros x. destruct (S x) as [-> _]. apply H3.
  - destruct (S destination) as [-> _]. exact H4.
Qed.

Lemma found_env e e' t : found e t -> env_le e e' -> env_inv e' -> found e' t.
Proof.
  intros [H1 H2 H3 H4 H5] L I. split; auto.
  - eapply tree_inv_mono; [|exact H2]. intros a b w. apply edge_mono. exact L.
  - intros x Hx. destruct (H3 x Hx) as [n Hn]. exists n. eapply node_mono; eassumption.
Qed.

Lemma path_loop_ok fuel (p : planner) cur lc acc sol : max_cost <= INFINITECOST -> start_state_id p = source ->
  found (environment_ p) (states p) -> chain (P (states p)) source cur lc -> D (states p) cur < INT_MAX ->
  (length lc <= fuel)%nat -> 0 <= sol -> sol + D (states p) cur < INT_MAX ->
  exists e' t' c, path_loop fuel p cur acc sol = Ok (acc ++ tail lc, sol + c, set_states t' (set_environment e' p)) /\
    env_le (environment_ p) e' /\ found e' t' /\ route e' cur (reverse lc) c /\ c <= D (states p) cur.
Proof using Hids Hcost0.
  intros Hinf. revert p cur lc acc sol. induction fuel as [|fuel IH]; intros p cur lc acc sol Hst F Hc Hd Hf Hs0 Hs.
  { inversion Hc; subst; cbn in Hf; lia. }
  pose proof (fd_tree _ _ F) as T. pose proof (fd_env _ _ F) as Ie. cbn [path_loop]. rewrite Hst.
  inversion Hc as [Hcur|cur' lc' Hne Hc' Hcur]; subst.
  - rewrite Z.eqb_refl. exists (environment_ p), (states p), 0. rewrite app_nil_r, Z.add_0_r.
    split; [destruct p; reflexivity|]. split; [reflexivity|]. split; [exact F|].
    split; [constructor|rewrite (ti_src _ _ _ _ _ T); lia].
  - rewrite (proj2 (Z.eqb_neq _ _) Hne).
    destruct (fd_known _ _ F cur Hd) as [n Hn]. rewrite (id_in_range _ _ _ Ie Hn), bind_ok_l.
    change (pred (state_at (states p) cur)) with (P (states p) cur).
    change (g (state_at (states p) cur)) with (D (states p) cur).
    destruct (ti_parent _ _ _ _ _ T cur Hne Hd) as (w & Hedge & Hw). set (u := P (states p) cur) in *.
    pose proof Hedge as (nu & n' & Hu & Hn' & _). rewrite Hn in Hn'. injection Hn' as <-.
    pose proof (node_range _ _ _ Ie Hu) as Hr. rewrite (proj2 (Z.eqb_neq u (-1))), (proj2 (Z.eqb_neq _ INT_MAX)) by lia.
    destruct (succs_law _ _ _ Ie Hu) as (ids & costs & e1 & -> & Ie1 & L1 & Hids' & ->). rewrite bind_ok_l.
    pose proof (edge_mono _ _ _ _ _ L1 Hedge) as Hedge1. pose proof (node_mono _ _ _ _ L1 Hu) as Hu1.
    destruct (action_cost_ok e1 u cur nu ids w Hinf Ie1 Hu1 Hids' Hedge1) as (c1 & -> & Hc1 & Hmin1). rewrite bind_ok_l.
    pose proof (Hmin1 w Hedge1) as Hle. pose proof (edge_cost _ _ _ _ Hc1) as Hc10.
    pose proof (ti_nonneg _ (wastar_edge_nonneg _) _ _ _ _ u T) as Hu0. pose proof (edge_cost _ _ _ _ Hedge) as Hw0.
    rewrite add_int_in by (unfold int_min; change (int_max int32) with INT_MAX; lia). rewrite bind_ok_l.
    destruct (GetState_ok (set_environment e1 p) u nu Ie1 Hu1 (fd_memo _ _ F)) as (s & t1 & hv & -> & _ & S1 & M1 & _).
    rewrite bind_ok_l. cbn [states set_environment] in S1.
    pose proof (found_same _ _ _ (found_env _ _ _ F L1 Ie1) S1 M1) as F1.
    destruct (S1 u) as (Hdu & _ & _).
    destruct (IH (set_states t1 (set_environment e1 p)) u lc' (acc ++ [u]) (sol + c1))
      as (e' & t' & c & E1 & L & F' & R & Hcle).
    + exact Hst.
    + exact F1.
    + cbn [states set_states]. eapply chain_ext; [exact Hc'|]. intros y _. apply S1.
    + cbn [states set_states]. lia.
    + cbn [length] in Hf. lia.
    + lia.
    + cbn [states set_states]. lia.
    + cbn [states set_states environment_ set_environment] in *.
      exists e', t', (c + c1). rewrite E1. destruct (chain_head _ _ _ _ Hc') as [l'' ->]. cbn [tail].
      split; [f_equal; f_equal; f_equal; [rewrite <- (assoc_L (++)); reflexivity|lia]|].
      split; [etransitivity; eassumption|]. split; [exact F'|]. split; [|lia].
      rewrite (reverse_cons (u :: l'') cur). econstructor; [exact R|eapply edge_mono; eassumption|].
      intros w' Hw'. apply Hmin1. eapply edge_back; [exact L|exact Hu1|eapply node_mono; eassumption|exact Hw'].
Qed.

Lemma GetSearchPath_ok fuel (p : planner) : max_cost <= INFINITECOST -> start_state_id p = source ->
  goal_state_id p = destination -> found (environment_ p) (states p) -> Z.max 0 max_id <= Z.of_nat fuel ->
  exists e' t' l c, GetSearchPath fuel p = Ok (l, c, set_states t' (set_environment e' p)) /\
    env_le (environment_ p) e' /\ env_inv e' /\ route e' destination l c /\ c <= D (states p) destination.
Proof using Hids Hcost0.
  intros Hinf Hst Hg F Hf. pose proof (fd_tree _ _ F) as T. unfold GetSearchPath. rewrite Hg.
  destruct (ti_chain _ _ _ _ _ T destination (fd_dst _ _ F)) as [lc Hc].
  destruct (path_loop_ok fuel p destination lc [destination] 0 Hinf Hst F Hc (fd_dst _ _ F))
    as (e' & t' & c & -> & L & F' & R & Hle).
  - enough (Z.of_nat (length lc) <= Z.max 0 max_id) by lia.
    apply NoDup_range_length; [eapply chain_nodup; exact Hc|]. intros x Hx.
    pose proof (chain_reached _ (wastar_edge_nonneg _) _ _ _ _ _ _ x T (fd_dst _ _ F) Hc Hx) as Hd.
    destruct (fd_known _ _ F x Hd) as [n Hn]. eapply node_range; [apply (fd_env _ _ F)|exact Hn].
  - lia.
  - apply (fd_dst _ _ F).
  - rewrite bind_ok_l, reverse_in_place_rev, bind_ok_l. exists e', t', (reverse lc), c.
    destruct (chain_head _ _ _ _ Hc) as [l' ->]. pose proof (fd_env _ _ F'). auto.
Qed.

(** ** [replan] *)

Lemma initializeSearch_ok (p : planner) ns nd : env_inv (environment_ p) -> states p = ∅ ->
  start_state_id p = source -> goal_state_id p = destination ->
  node (environment_ p) source = Some ns -> node (environment_ p) destination = Some nd ->
  exists e' t', initializeSearch p = Ok (set_states t' (set_environment e' p)) /\
    env_inv e' /\ env_le (environment_ p) e' /\ fresh t'.
Proof using Hids.
  intros Ie Ht Hst Hg Hns Hnd. unfold initializeSearch. rewrite Hg.
  assert (U : unreached (states p)).
  { rewrite Ht. split_and!; [intros x _; reflexivity|intros x; reflexivity|]. intros x Hx. discriminate. }
  destruct (GetState_ok p destination nd Ie Hnd (proj2 (proj2 U))) as (s1 & t1 & hv1 & -> & _ & S1 & M1 & _).
  rewrite bind_ok_l. pose proof (unreached_same _ _ U S1 M1) as U1.
  change (start_state_id (set_states t1 p)) with (start_state_id p). rewrite Hst.
  destruct (GetState_ok (set_states t1 p) source ns Ie Hns (proj2 (proj2 U1))) as (s & t2 & hv2 & -> & Es & S2 & M2 & Hi & _).
  rewrite bind_ok_l. pose proof (unreached_same _ _ U1 S2 M2) as U2.
  change (set_states t2 (set_states t1 p)) with (set_states t2 p).
  pose proof (fresh_source t2 (pred s) s U2 Es Hi) as F. cbn [states set_states start_state_id] in *.
  rewrite Hst. destruct (ensure_law _ true Ie) as (e' & Ee & Ie' & L).
  set (t' := <[source := _]> t2) in *. cbn [environment_ set_states]. rewrite Ee, bind_ok_l.
  exists e', t'. auto.
Qed.

Lemma replan_cases fuel eps0 (p : planner) ns nd : max_cost <= INFINITECOST -> Doubles.upto 20 eps0 ->
  env_inv (environment_ p) ->
  node (environment_ p) source = Some ns -> node (environment_ p) destination = Some nd ->
  Z.max 0 max_id * (max_deg + 1) + 1 < Z.of_nat fuel ->
  (exists l c p', replan fuel source destination eps0 p = Ok (1, Some (l, c), p') /\
     env_le (environment_ p) (environment_ p') /\ env_inv (environment_ p') /\
     route (environment_ p') destination l c /\ c < INT_MAX) \/
  (replan fuel source destination eps0 p = Err AssertFailed /\ ~ rtc next ns nd).
Proof using Hids Hfit Hheur Hcost0 Hdeg0 hlaws.
  intros Hinf He Ie Hns Hnd Hf. pose proof (node_range _ _ _ Ie Hns) as Hr1. pose proof (node_range _ _ _ Ie Hnd) as Hr2.
  unfold replan, set_start, set_goal. cbn [environment_ states eps start_state_id goal_state_id set_states].
  rewrite !(proj2 (Z.ltb_ge _ 0)) by lia. set (p0 := mkPlanner _ _ _ _ _). unfold Search.
  destruct (initializeSearch_ok p0 ns nd Ie eq_refl eq_refl eq_refl Hns Hnd) as (e1 & t1 & -> & Ie1 & L1 & F1).
  rewrite bind_ok_l. unfold run_wAStar. cbn [start_state_id goal_state_id set_states set_environment p0].
  pose proof (node_mono _ _ _ _ L1 Hns) as Hns1. pose proof (node_mono _ _ _ _ L1 Hnd) as Hnd1.
  destruct (wAStar_ok fuel (set_states t1 (set_environment e1 p0)) ns nd He Ie1 F1 Hns1 Hnd1)
    as [(e2 & t2 & -> & L2 & F2)|[-> Hn]]; [lia| |right; auto].
  left. rewrite bind_ok_l. set (p2 := set_states t2 _). change (goal_state_id p2) with destination.
  destruct (GetState_ok p2 destination nd (fd_env _ _ F2) (node_mono _ _ _ _ L2 Hnd1) (fd_memo _ _ F2))
    as (s & t3 & hv & -> & Es & S3 & M3 & _).
  rewrite bind_ok_l. pose proof (found_same _ _ _ F2 S3 M3) as F3. pose proof (fd_dst _ _ F3) as Hd.
  assert (Eg : g s = D t3 destination) by (rewrite Es; reflexivity). rewrite Eg.
  rewrite (proj2 (Z.eqb_neq _ INT_MAX)) by lia.
  destruct (GetSearchPath_ok fuel (set_states t3 p2) Hinf eq_refl eq_refl F3)
    as (e4 & t4 & l & c & -> & L4 & Ie4 & R & Hc); [lia|].
  rewrite bind_ok_l. cbn [states set_states] in Hc. exists l, c. eexists. split; [reflexivity|].
  cbn [environment_ set_states set_environment p2]. split; [|split; [exact Ie4|split; [exact R|lia]]].
  etransitivity; [exact L1|]. etransitivity; [exact L2|exact L4].
Qed.
(** ** Properties *)

(** A path of the graph by arcs that are the cheapest between their ends. *)
Inductive path_of (a : Node) : Node -> list Node -> Z -> Prop :=
  | path_start : path_of a a [a] 0
  | path_next x y l c w : path_of a x l c -> (y, w) ∈ succ x -> (forall w', (y, w') ∈ succ x -> w <= w') ->
      path_of a y (l ++ [y]) (c + w).

Lemma route_path e ns v y l c : node e source = Some ns -> node e v = Some y -> route e v l c ->
  exists ys, node e <$> l = Some <$> ys /\ path_of ns y ys c.
Proof.
  intros Hns Hy R. revert y Hy. induction R as [|u v l c w R IH He Hm]; intros y Hy.
  - exists [ns]. rewrite Hns in Hy. injection Hy as <-. cbn. rewrite Hns. split; [reflexivity|constructor].
  - destruct He as (x & y' & Hx & Hy' & Hin). rewrite Hy in Hy'. injection Hy' as <-.
    destruct (IH x Hx) as (ys & E1 & Pth). exists (ys ++ [y]). rewrite !fmap_app, E1. cbn. rewrite Hy.
    split; [reflexivity|]. econstructor; [exact Pth|exact Hin|]. intros w' Hw'. apply Hm. exists x, y. auto.
Qed.

(** [replan] decides reachability.  When the goal can be reached it returns
    1 and the ids of a path from the start to the goal whose arcs are each the
    cheapest between their ends, with their exact total as the cost; when not,
    it pops an empty heap.  The loop ends within the fuel and no arithmetic
    overflows. *)
Theorem replan_decides fuel eps0 (p : planner) ns nd : max_cost <= INFINITECOST -> Doubles.upto 20 eps0 ->
  env_inv (environment_ p) ->
  node (environment_ p) source = Some ns -> node (environment_ p) destination = Some nd ->
  Z.max 0 max_id * (max_deg + 1) + 1 < Z.of_nat fuel ->
  (rtc next ns nd -> exists l c p' path, replan fuel source destination eps0 p = Ok (1, Some (l, c), p') /\
     env_le (environment_ p) (environment_ p') /\ env_inv (environment_ p') /\
     node (environment_ p') <$> l = Some <$> path /\ path_of ns nd path c) /\
  (~ rtc next ns nd -> replan fuel source destination eps0 p = Err AssertFailed).
Proof using Hids Hfit Hheur Hcost0 Hdeg0 hlaws.
  intros Hinf He Ie Hns Hnd Hf.
  destruct (replan_cases fuel eps0 p ns nd Hinf He Ie Hns Hnd Hf) as [(l & c & p' & E1 & L & Ie' & R & _)|[E1 Hn]].
  - assert (K : exists path, node (environment_ p') <$> l = Some <$> path /\ path_of ns nd path c).
    { eapply route_path; [eapply node_mono; eassumption..|exact R]. }
    split; [destruct K as (path & K); exists l, c, p', path; auto|]. intros Hn. exfalso. apply Hn.
    destruct K as (path & _ & K). clear - K. induction K as [|x y l c w _ IH Hin _]; [constructor|].
    eapply rtc_r; [exact IH|]. exists w. exact Hin.
  - split; [contradiction|]. intros _. exact E1.
Qed.

(** A negative goal or start id is refused with 0, before any search. *)
Theorem replan_negative fuel start goal eps0 (p : planner) : goal < 0 \/ start < 0 ->
  exists p', replan fuel start goal eps0 p = Ok (0, None, p') /\ environment_ p' = environment_ p.
Proof using.
  intros Hn. unfold replan, set_start, set_goal. cbn [goal_state_id start_state_id].
  destruct (Z.ltb_spec goal 0); [eexists; split; reflexivity|].
  destruct (Z.ltb_spec start 0); [eexists; split; reflexivity|lia].
Qed.
End specs.
End WAStarSpec.
