(* ===== verification/WAStarProps.v ===== *)
(** * The sequential planner on a 2D grid map

    The composition of the planner, its heap and the grid environment. *)

From S2P Require Import Prelude.
From S2P Require Import Doubles.
From S2P Require Import Environment.
From S2P Require Import Interfaces.
From S2P Require Import BinHeap.
From S2P Require Import WAStarPlanner.
From S2P Require Import WAStarSpec.
From S2P Require Import Nav2D.
From S2P Require Import Nav2DSpec.
From S2P Require Import Nav2DEnv.
From S2P Require Import Nav2DProps.

Module WAStarProps.
Import WAStarPlanner WAStarSpec Nav2D Nav2DSpec Nav2DEnv Nav2DProps.
#[local] Existing Instances BinHeap.Heap_ops BinHeap.Heap_laws.

Abbreviation heap := (BinHeap.Heap Z).
Abbreviation grid_planner := (wAStarPlanner EnvironmentNAV2D).
Abbreviation grid_replan fuel start goal eps0 p := (replan (H := heap) fuel start goal eps0 (p : grid_planner)).

(** Seventeen entries per cell of the map. *)
Definition grid_fuel (c : ENV_NAV2D_CONFIG) : nat := Z.to_nat (EnvWidth_c c * EnvHeight_c c * 17 + 2).

Lemma map_size c : cfg_ok c -> 0 < EnvWidth_c c * EnvHeight_c c <= 2 ^ 30.
Proof.
  intros C. pose proof (co_width _ C) as Hw. pose proof (co_height _ C) as Hh. unfold MAX_SIDE in *.
  split; [nia|]. transitivity (32767 * 32767); [nia|lia].
Qed.

Lemma cells_coords env (ids : list Z) (cells : list (Z * Z)) : (forall e i q, GetCoordFromState e i = Ok q <-> cell_of e i = Some q) ->
  cell_of env <$> ids = Some <$> cells -> GetCoordFromState env <$> ids = Ok <$> cells.
Proof.
  intros Hcell. revert cells. induction ids as [|j ids IH]; intros [|r cells] Hn; try discriminate; [reflexivity|].
  rewrite !fmap_cons in *. injection Hn as Hr Hn. f_equal; [apply Hcell; exact Hr|auto].
Qed.

(** C7: planning on a grid map.  With [Heap<int>] and an environment that is
    set up, [replan] between its start and goal returns the ids of a sequence of
    cells from start to goal by legal moves and their exact total when there is
    one, and fails when there is none, on every map whose longest path costs
    less than INT_MAX. *)
Theorem grid_replan_decides eps0 (p : grid_planner) sc gc :
  env_ok (environment_ p) -> Doubles.upto 20 eps0 ->
  GetCoordFromState (environment_ p) (startstateid (environment_ p)) = Ok sc ->
  GetCoordFromState (environment_ p) (goalstateid (environment_ p)) = Ok gc ->
  EnvWidth_c (cfg (environment_ p)) * EnvHeight_c (cfg (environment_ p)) * (255 * 2236) < INT_MAX ->
  let arcs := grid_succ (cfg (environment_ p)) gc in
  let answer := grid_replan (grid_fuel (cfg (environment_ p)))
    (startstateid (environment_ p)) (goalstateid (environment_ p)) eps0 p in
  (rtc (next arcs) sc gc -> exists ids cost p' cells, answer = Ok (1, Some (ids, cost), p') /\
     env_ok (environment_ p') /\
     GetCoordFromState (environment_ p') <$> ids = Ok <$> cells /\ path_of arcs sc gc cells cost) /\
  (~ rtc (next arcs) sc gc -> answer = Err AssertFailed).
Proof.
  intros I He Hs Hg Hfit arcs answer.
  assert (Hcell : forall e i q, GetCoordFromState e i = Ok q <-> cell_of e i = Some q).
  { intros e i q. unfold cell_of, GetCoordFromState. destruct (aget _ i); cbn; split; congruence. }
  apply Hcell in Hs, Hg. pose proof (map_size _ (eo_cfg _ I)) as Hsize.
  pose proof (replan_decides (H := heap) (elaws := Nav2D_env_laws _ (eo_cfg _ I) gc) (grid_succ (cfg (environment_ p)) gc)
    (EnvWidth_c (cfg (environment_ p)) * EnvHeight_c (cfg (environment_ p))) 16 (255 * 2236) (2 ^ 26) ltac:(lia) Hfit ltac:(lia) ltac:(lia) ltac:(lia)) as Hd.
  destruct (Hd (startstateid (environment_ p)) (goalstateid (environment_ p)) (grid_fuel (cfg (environment_ p))) eps0 p sc gc ltac:(vm_compute; discriminate) He) as [H1 H2].
  - split; [exact I|reflexivity|exact Hg].
  - exact Hs.
  - exact Hg.
  - unfold grid_fuel. lia.
  - split; [|exact H2]. intros Hr. destruct (H1 Hr) as (ids & cost & p' & cells & E & L & [I' _ _] & Hn & Pth).
    exists ids, cost, p', cells. split; [exact E|]. split; [exact I'|]. split; [|exact Pth].
    apply cells_coords; [exact Hcell|exact Hn].
Qed.

Lemma grid_replan_decides_witness : exists ids cost p' cells,
  grid_replan (grid_fuel (cfg sample_env)) (startstateid sample_env) (goalstateid sample_env) (Doubles.of_int 1)
    (mkPlanner sample_env ∅ (Doubles.of_int 1) (-1) (-1)) = Ok (1, Some (ids, cost), p') /\
  path_of (grid_succ (cfg sample_env) (3, 2)) (0, 0) (3, 2) cells cost.
Proof.
  pose proof (grid_replan_decides (Doubles.of_int 1) (mkPlanner sample_env ∅ (Doubles.of_int 1) (-1) (-1))
    (0, 0) (3, 2) sample_ok) as Hd.
  destruct Hd as [Hd _].
  - apply Doubles.of_int_upto; [lia|]. vm_compute. split; discriminate.
  - vm_compute. reflexivity.
  - vm_compute. reflexivity.
  - vm_compute. reflexivity.
  - destruct Hd as (ids & cost & p' & cells & E & _ & _ & K); [|exists ids, cost, p', cells; split; [exact E|exact K]].
    apply rtc_l with (y := (1, 0)); [exists 1000; by_vm_in|].
    apply rtc_l with (y := (2, 0)); [exists 1000; by_vm_in|].
    apply rtc_l with (y := (3, 0)); [exists 1000; by_vm_in|].
    apply rtc_l with (y := (3, 1)); [exists 1000; by_vm_in|].
    apply rtc_once. exists 1000. by_vm_in.
Defined.

(** ** A dear shortcut *)

Definition dear_map : list Z := [0; 8; 0; 0].
(** The path and its cost, of a successful [replan]. *)
Definition answer_of (r : res (Z * option (list Z * Z) * grid_planner)) : option (list Z * Z) :=
  match r with Ok (_, a, _) => a | Err _ => None end.

(** The planner is not optimal, whatever the heuristic.  It stops when the
    goal is generated, not when it is taken from the frontier: on a map of two
    by two cells it returns the diagonal move of cost 12726 although two
    straight moves cost 2000, with the unweighted and even with a zero heuristic. *)
Theorem replan_not_optimal : exists env,
  InitializeEnv new_env 2 2 (Some dear_map) 0 0 1 1 9 = Ok (true, env) /\
  (forall eps0, eps0 ∈ [Doubles.of_int 0; Doubles.of_int 1] ->
     answer_of (grid_replan (grid_fuel (cfg env)) (startstateid env) (goalstateid env) eps0
       (mkPlanner env ∅ eps0 (-1) (-1))) = Some ([startstateid env; goalstateid env], 12726)) /\
  (0, 1, 1000) ∈ grid_succ (cfg env) (1, 1) (0, 0) /\ (1, 1, 1000) ∈ grid_succ (cfg env) (1, 1) (0, 1).
Proof.
  eexists. split; [vm_compute; reflexivity|]. split; [|split; by_vm_in].
  intros eps0 H. apply elem_of_cons in H as [->|H]; [vm_compute; reflexivity|].
  apply list_elem_of_singleton in H as ->. vm_compute. reflexivity.
Qed.
End WAStarProps.
