(* ===== verification/EnvGraph.v ===== *)
(** * The graph of the ids of an environment

    An environment numbers the states as a search meets them.  It can always be
    grown until every successor of a known state has an id; the ids of such a
    closed environment are the vertices of a finite lawful graph, on which the
    searches over graphs can be run. *)

From S2P Require Import Prelude.
From S2P Require Import Doubles.
From S2P Require Import Environment.
From S2P Require Import Interfaces.
From S2P Require Import Paths.
From S2P Require Import WAStarPlanner.
From S2P Require Import WAStarSpec.

Module EnvGraph.

(** A graph given by the arcs leaving each of its vertices. *)
Record idgraph := mkId { ig_vertices : Z; ig_arcs : Z -> list (Z * Z) }.

#[export] Instance idgraph_ops : GraphOps idgraph := {|
  Interfaces.number_vertices := ig_vertices;
  Interfaces.for_each_neighbor_of _ g v f s := foldM (fun s '(u, w) => f u w s) s (ig_arcs g v);
|}.

Section closure.
Context {E : Type} {eops : EnvOps E}.
Context {Node : Type} (succ : Node -> list (Node * Z)) (max_id max_deg max_cost max_heur : Z).
Context {elaws : EnvLaws (E := E) succ max_id max_deg max_cost max_heur}.

Abbreviation node := (Environment.node succ).
Abbreviation env_inv := (Environment.env_inv succ).
Abbreviation env_le := (Environment.env_le succ).

Definition known (e : E) (i : Z) : Prop := exists x, node e i = Some x.

Lemma known_mono e e' i : env_le e e' -> known e i -> known e' i.
Proof. intros L [x Hx]. exists x. eapply node_mono; eassumption. Qed.

Lemma known_range e i : env_inv e -> known e i -> 0 <= i < max_id.
Proof. intros I [x Hx]. eapply node_range; eassumption. Qed.

(** Every successor of a known state has an id. *)
Definition closed (e : E) : Prop := forall i x y w, node e i = Some x -> (y, w) ∈ succ x -> exists j, node e j = Some y.

Definition knownb (e : E) (i : Z) : bool := match node e i with Some _ => true | None => false end.
Definition count (e : E) : nat := length (filter (fun i => knownb e i = true) (seqZ 0 max_id)).

Lemma knownb_known e i : knownb e i = true <-> known e i.
Proof. unfold knownb, known. destruct (node e i); split; eauto; try discriminate. intros [x Hx]. discriminate. Qed.

Lemma knownb_mono e e' i : env_le e e' -> knownb e i = true -> knownb e' i = true.
Proof. rewrite !knownb_known. apply known_mono. Qed.

Lemma filter_known_le e e' l : env_le e e' ->
  (length (filter (fun i => knownb e i = true) l) <= length (filter (fun i => knownb e' i = true) l))%nat.
Proof.
  intros L. induction l as [|i l IH]; [reflexivity|]. rewrite !filter_cons.
  pose proof (knownb_mono e e' i L). repeat case_decide; cbn; tauto || lia.
Qed.

Lemma filter_known_eq e e' l i : env_le e e' ->
  length (filter (fun i => knownb e' i = true) l) = length (filter (fun i => knownb e i = true) l) ->
  i ∈ l -> knownb e' i = true -> knownb e i = true.
Proof.
  intros L. induction l as [|j l IH]; intros Hc Hin Hi; [inversion Hin|]. rewrite !filter_cons in Hc.
  pose proof (filter_known_le e e' l L). pose proof (knownb_mono e e' j L). apply elem_of_cons in Hin as [->|Hin].
  - rewrite (decide_True _ _ Hi) in Hc. case_decide; [assumption|]. cbn in Hc. lia.
  - apply IH; auto. repeat case_decide; cbn in Hc; tauto || lia.
Qed.

Lemma count_eq e e' i : env_inv e' -> env_le e e' -> count e' = count e -> known e' i -> known e i.
Proof.
  intros I L Hc Hi. pose proof (known_range e' i I Hi). rewrite <- knownb_known in *.
  eapply filter_known_eq; [exact L|exact Hc|apply elem_of_seqZ; lia|exact Hi].
Qed.

(** The successors of the states in a list get their ids. *)
Lemma one_round e (l : list Z) : env_inv e -> exists e', env_inv e' /\ env_le e e' /\
  forall i x y w, i ∈ l -> node e i = Some x -> (y, w) ∈ succ x -> exists j, node e' j = Some y.
Proof.
  intros I. induction l as [|i l (e1 & I1 & L1 & H1)].
  - exists e. split; [exact I|]. split; [reflexivity|]. intros i x y w Hi. inversion Hi.
  - destruct (node e i) as [x|] eqn:Ex.
    + destruct (succs_law e1 i x I1 (node_mono _ _ _ _ L1 Ex)) as (ids & costs & e2 & _ & I2 & L2 & Hids & _).
      exists e2. split; [exact I2|]. split; [etransitivity; eassumption|].
      intros i' x' y w [->|Hi']%elem_of_cons Ex' Hy.
      * rewrite Ex in Ex'. injection Ex' as <-.
        assert (Hy' : Some y ∈ node e2 <$> ids).
        { rewrite Hids. apply list_elem_of_fmap. exists (y, w). auto. }
        apply list_elem_of_fmap in Hy' as (j & Hj & _). exists j. symmetry. exact Hj.
      * destruct (H1 i' x' y w Hi' Ex' Hy) as [j Hj]. exists j. eapply node_mono; eassumption.
    + exists e1. split; [exact I1|]. split; [exact L1|]. intros i' x' y w [->|Hi']%elem_of_cons Ex'; [congruence|]. eauto.
Qed.

Lemma completion e : env_inv e -> exists e', env_inv e' /\ env_le e e' /\ closed e'.
Proof.
  remember (Z.to_nat max_id - count e)%nat as k eqn:Hk. revert e Hk. induction (lt_wf k) as [k _ IH]. intros e Hk I.
  destruct (one_round e (seqZ 0 max_id) I) as (e1 & I1 & L1 & H1).
  destruct (decide (count e1 = count e)) as [Hc|Hc].
  - exists e. split; [exact I|]. split; [reflexivity|]. intros i x y w Hi Hy.
    destruct (H1 i x y w) as [j Hj]; [|exact Hi|exact Hy|].
    + pose proof (node_range _ _ _ I Hi). apply elem_of_seqZ. lia.
    + destruct (count_eq e e1 j I1 L1 Hc ltac:(eexists; exact Hj)) as [y' Hj'].
      exists j. rewrite Hj'. rewrite <- Hj. symmetry. eapply node_mono; eassumption.
  - pose proof (filter_known_le _ _ (seqZ 0 max_id) L1 : (count e <= count e1)%nat). assert (count e1 <= Z.to_nat max_id)%nat.
    { unfold count. etransitivity; [apply length_filter|]. rewrite length_seqZ. reflexivity. }
    destruct (IH (Z.to_nat max_id - count e1)%nat ltac:(lia) e1 eq_refl I1) as (e2 & I2 & L2 & C2).
    exists e2. split; [exact I2|]. split; [etransitivity; eassumption|exact C2].
Qed.

(** ** The graph of a closed environment *)

Abbreviation edge := (WAStarSpec.edge succ max_id max_deg max_cost max_heur).

Definition arcs_at (e : E) (v : Z) : list (Z * Z) :=
  match node e v with
  | Some _ => match env_succs e v with Ok (ids, costs, _) => zip ids costs | Err _ => [] end
  | None => []
  end.

Definition graph_of (e : E) : idgraph := mkId max_id (arcs_at e).

(** Ids of the same states are the same ids. *)
Lemma ids_unique e ids ids' (l : list Node) : env_inv e -> node e <$> ids = Some <$> l -> node e <$> ids' = Some <$> l -> ids = ids'.
Proof.
  intros I. revert ids' l. induction ids as [|i ids IH]; intros [|j ids'] [|y l] H1 H2; cbn in *; try discriminate; [reflexivity|].
  injection H1 as H1 H1'. injection H2 as H2 H2'. f_equal; [|eapply IH; eassumption].
  eapply node_inj; eassumption.
Qed.

Section closed_env.
Context (e : E) (I : env_inv e) (Cl : closed e) (Hmax : 0 <= max_id).

Lemma arcs_at_known v x : node e v = Some x ->
  exists ids, arcs_at e v = zip ids (snd <$> succ x) /\ node e <$> ids = Some <$> (fst <$> succ x).
Proof using I Cl.
  intros Hv. destruct (succs_law e v x I Hv) as (ids & costs & e' & E1 & I' & L & Hids & ->).
  exists ids. unfold arcs_at. rewrite Hv, E1. split; [reflexivity|].
  rewrite <- list_fmap_compose.
  assert (Hy : forall y, y ∈ fst <$> succ x -> exists j, node e j = Some y).
  { intros y ([y' w] & -> & Hin)%list_elem_of_fmap. eapply Cl; eassumption. }
  rewrite list_fmap_compose in Hids |- *. revert Hids Hy. generalize (fst <$> succ x). clear - I' L.
  intros l. revert ids. induction l as [|y l IH]; intros [|i ids] H Hy; cbn in *; try discriminate; [reflexivity|].
  injection H as H1 H2. rewrite (IH ids H2) by (intros y' Hy'; apply Hy; right; exact Hy'). f_equal.
  destruct (Hy y) as [j Hj]; [left|]. rewrite (node_inj e' i j y I' H1 (node_mono _ _ _ _ L Hj)). exact Hj.
Qed.

Lemma arcs_at_edge u v w : known e u -> (v, w) ∈ arcs_at e u <-> edge e u v w.
Proof using I Cl.
  intros [x Hx]. destruct (arcs_at_known u x Hx) as (ids & -> & Hids). unfold WAStarSpec.edge. split.
  - intros Hin. assert (exists y, node e v = Some y /\ (y, w) ∈ succ x) as (y & Hy & Hyw); [|exists x, y; auto].
    revert ids Hids Hin. induction (succ x) as [|[y c] l IH]; intros [|i ids] H Hin; cbn in *; try discriminate; [inversion Hin..|].
    injection H as H1 H2. apply elem_of_cons in Hin as [[= -> ->]|Hin].
    + exists y. split; [exact H1|left].
    + destruct (IH ids H2 Hin) as (y' & Hy' & Hin'). exists y'. split; [exact Hy'|right; exact Hin'].
  - intros (x' & y & Hx' & Hy & Hin). rewrite Hx in Hx'. injection Hx' as <-. revert ids Hids.
    induction (succ x) as [|[y' c] l IH]; intros [|i ids] H; cbn in *; try discriminate; [inversion Hin..|].
    injection H as H1 H2. apply elem_of_cons in Hin as [[= <- <-]|Hin].
    + rewrite (node_inj e v i y I Hy H1). left.
    + right. apply IH; assumption.
Qed.

Lemma arcs_at_unknown u : ~ known e u -> arcs_at e u = [].
Proof. intros Hn. unfold arcs_at. destruct (node e u) as [x|] eqn:Ex; [|reflexivity]. destruct Hn. exists x. exact Ex. Qed.

Lemma arcs_at_in u v w : (v, w) ∈ arcs_at e u -> edge e u v w.
Proof using I Cl.
  intros Hin. apply arcs_at_edge; [|exact Hin]. unfold arcs_at, known in *. destruct (node e u) eqn:Ex; [eauto|inversion Hin].
Qed.

#[export] Instance graph_of_laws : GraphLaws (graph_of e).
Proof using I Cl Hmax.
  unshelve eapply Build_GraphLaws; [exact (arcs_at e)|..]; cbn.
  - reflexivity.
  - intros v u w _ Hin%arcs_at_in. destruct Hin as (x & y & _ & Hy & _). eapply node_range; eassumption.
  - intros v u w _ Hin%arcs_at_in. eapply WAStarSpec.wastar_edge_nonneg. exact Hin.
  - exact Hmax.
Defined.

Lemma ids_arc u v w : arc (graph_of e) u v w <-> edge e u v w.
Proof.
  unfold arc. cbn. split.
  - intros [_ Hin]. apply arcs_at_in. exact Hin.
  - intros He. pose proof He as (x & y & Hx & _). split; [eapply node_range; eassumption|]. apply arcs_at_edge; [eexists; exact Hx|exact He].
Qed.
End closed_env.
End closure.
End EnvGraph.
