(* ===== verification/PwsaPlanner.v ===== *)
(** * The concurrent planner (src/libsbpl: pwsaplanner.h, pwsaplanner.cpp, pwsa.h)

    [pwsaPlanner]: [pwsa_pc] over the states and arcs an environment creates as
    the search meets them.  The states live in a [ubvec], which all workers
    share, as they share the environment; a pointer to a state is its id.  The
    loop body is a machine, a step per access to shared data; a critical section
    of the environment is a step. *)

From S2P Require Import Prelude.
From S2P Require Import Doubles.
From S2P Require Import Environment.
From S2P Require Import Interfaces.
From S2P Require Import ParWhile.
From S2P Require Import Pwsa.
From S2P Require Import WAStarPlanner.

Module PwsaPlanner.
Import ParWhile.
#[local] Existing Instance Pwsa.vertpack_eq_dec.

(** [vertpack] and [pwsa_state] are those of pwsa.hpp. *)
Definition new_state : Pwsa.pwsa_state := Pwsa.mkState false (Pwsa.mkPack INT_MAX (-1)) (-1).

(** [ubvec<pwsa_state>] *)
Abbreviation ubvec := (gmap Z Pwsa.pwsa_state).
Definition state_at (t : ubvec) (id : Z) : Pwsa.pwsa_state := default new_state (t !! id).

(** [getState]: ids from 0 to 2^30 - 1 have an address. *)
Definition getState (t : ubvec) (id : Z) : res Pwsa.pwsa_state :=
  if (0 <=? id) && (id <? 2 ^ 30) then Ok (state_at t id) else Err OutOfBounds.

Definition set_h (hv : Z) (a : Pwsa.pwsa_state) : Pwsa.pwsa_state := Pwsa.mkState (Pwsa.is_expanded a) (Pwsa.gpred a) hv.
Definition set_gpred (v : Pwsa.vertpack) (a : Pwsa.pwsa_state) : Pwsa.pwsa_state := Pwsa.mkState (Pwsa.is_expanded a) v (Pwsa.h a).
Definition set_expanded (a : Pwsa.pwsa_state) : Pwsa.pwsa_state := Pwsa.mkState true (Pwsa.gpred a) (Pwsa.h a).

(** The program points of [do_work], as in Pwsa.v, and those inside [GetState]
    and [for_each_neighbor_of]. *)
Inductive point (C : Type) :=
  | Loop (steps : Z)
  | GetV (steps v : Z)                      (** [GetState (v)]: [state->h == -1] *)
  | HeurV (steps v : Z)                     (** [environment_->GetGoalHeuristic (v)] *)
  | StoreV (steps v hv : Z)                 (** [state->h = ...] *)
  | TestExp (steps v : Z)
  | CasExp (steps v : Z)
  | LoadG (steps v : Z)
  | CallSuccs (steps v vd : Z)              (** [environment_->GetSuccs (v, ...)] *)
  | Succs (steps v vd : Z) (k : C)
  | Arcs (steps v vd : Z) (todo : list (Z * Z))
  | GetN (steps v vd nbr mine : Z) (todo : list (Z * Z))       (** [GetState (nbr)] *)
  | HeurN (steps v vd nbr mine : Z) (todo : list (Z * Z))
  | StoreN (steps v vd nbr mine hv : Z) (todo : list (Z * Z))
  | LoadN (steps v vd nbr mine : Z) (todo : list (Z * Z))
  | CasN (steps v vd nbr mine : Z) (gpred_nbr : Pwsa.vertpack) (todo : list (Z * Z))
  | TestN (steps v vd nbr mine : Z) (todo : list (Z * Z))
  | Insert (steps v vd nbr mine : Z) (todo : list (Z * Z)).
Arguments Loop {C}. Arguments GetV {C}. Arguments HeurV {C}. Arguments StoreV {C}. Arguments TestExp {C}.
Arguments CasExp {C}. Arguments LoadG {C}. Arguments CallSuccs {C}. Arguments Succs {C}. Arguments Arcs {C}.
Arguments GetN {C}. Arguments HeurN {C}. Arguments StoreN {C}. Arguments LoadN {C}. Arguments CasN {C}.
Arguments TestN {C}. Arguments Insert {C}.

(** The pairs on which [for_each_neighbor_of] calls its function. *)
Definition pairs (SuccIDV CostV : list Z) : res (list (Z * Z)) :=
  foldM (fun acc sind =>
      nghId ← aget SuccIDV sind;
      weight ← aget CostV sind;
      Ok (acc ++ [(nghId, weight)])) [] (seqZ 0 (Z.of_nat (length SuccIDV))).

Section planner.
Context {E C H : Type} {eops : EnvOps E} {cops : EnvCallOps E C} {hops : HeapOps H}.

(** What the workers share. *)
Record shared_state := mkShared { sh_env : E; sh_states : ubvec }.

Definition at_ (s : shared_state) (id : Z) : Pwsa.pwsa_state := state_at (sh_states s) id.
Definition set_at (s : shared_state) (id : Z) (f : Pwsa.pwsa_state -> Pwsa.pwsa_state) : shared_state :=
  mkShared (sh_env s) (<[id := f (at_ s id)]> (sh_states s)).

Section search.
Context (eps : Doubles.double) (source destination split_cutoff poll_cutoff : Z).

(** [(int) (captured_eps * state->h)] *)
Definition heuristic (a : Pwsa.pwsa_state) : res Z :=
  Doubles.to_int (Doubles.mul eps (Doubles.of_int (Pwsa.h a))).

(** One step of [do_work]; [inr b] is [return b]. *)
Definition do_work (id : Z) (c : choice) (s : shared_state) (counter : Z) (frontier : H) (p : point C) :
    res (shared_state * Z * H * (point C + bool)) :=
  match p with
  | Loop steps =>
      if (steps <? poll_cutoff) && (0 <? h_size frontier) then
        '(v, frontier) ← h_delete_min frontier;
        Ok (s, counter, frontier, inl (GetV (steps + 1) v))
      else
        counter ← add_int int32 counter steps;
        Ok (s, counter, frontier, inr false)
  | GetV steps v =>
      a ← getState (sh_states s) v;
      Ok (s, counter, frontier, inl (if Pwsa.h a =? -1 then HeurV steps v else TestExp steps v))
  | HeurV steps v =>
      hv ← env_goal_heuristic (sh_env s) v;
      Ok (s, counter, frontier, inl (StoreV steps v hv))
  | StoreV steps v hv => Ok (set_at s v (set_h hv), counter, frontier, inl (TestExp steps v))
  | TestExp steps v =>
      Ok (s, counter, frontier, inl (if Pwsa.is_expanded (at_ s v) then Loop steps else CasExp steps v))
  | CasExp steps v =>
      if Pwsa.is_expanded (at_ s v) then Ok (s, counter, frontier, inl (Loop steps))
      else Ok (set_at s v set_expanded, counter, frontier,
               if v =? destination then inr true else inl (LoadG steps v))
  | LoadG steps v =>
      Ok (s, counter, frontier, inl (CallSuccs steps v (Pwsa.distance (Pwsa.gpred (at_ s v)))))
  | CallSuccs steps v vd =>
      k ← succs_call (sh_env s) v;
      Ok (s, counter, frontier, inl (Succs steps v vd k))
  | Succs steps v vd k =>
      '(e, r) ← succs_step (sh_env s) k;
      p ← match r with
          | inl k => Ok (Succs steps v vd k)
          | inr (SuccIDV, CostV) => todo ← pairs SuccIDV CostV; Ok (Arcs steps v vd todo)
          end;
      Ok (mkShared e (sh_states s), counter, frontier, inl p)
  | Arcs steps v vd [] => Ok (s, counter, frontier, inl (Loop steps))
  | Arcs steps v vd ((nbr, weight) :: todo) =>
      mine ← add_int int32 vd weight;
      Ok (s, counter, frontier, inl (GetN steps v vd nbr mine todo))
  | GetN steps v vd nbr mine todo =>
      a ← getState (sh_states s) nbr;
      Ok (s, counter, frontier,
          inl (if Pwsa.h a =? -1 then HeurN steps v vd nbr mine todo else LoadN steps v vd nbr mine todo))
  | HeurN steps v vd nbr mine todo =>
      hv ← env_goal_heuristic (sh_env s) nbr;
      Ok (s, counter, frontier, inl (StoreN steps v vd nbr mine hv todo))
  | StoreN steps v vd nbr mine hv todo =>
      Ok (set_at s nbr (set_h hv), counter, frontier, inl (LoadN steps v vd nbr mine todo))
  | LoadN steps v vd nbr mine todo =>
      let gpred_nbr := Pwsa.gpred (at_ s nbr) in
      Ok (s, counter, frontier,
          inl (if mine <? Pwsa.distance gpred_nbr then CasN steps v vd nbr mine gpred_nbr todo
               else Arcs steps v vd todo))
  | CasN steps v vd nbr mine gpred_nbr todo =>
      if negb (spurious c) && bool_decide (Pwsa.gpred (at_ s nbr) = gpred_nbr) then
        Ok (set_at s nbr (set_gpred (Pwsa.mkPack mine v)), counter, frontier, inl (TestN steps v vd nbr mine todo))
      else Ok (s, counter, frontier, inl (LoadN steps v vd nbr mine todo))
  | TestN steps v vd nbr mine todo =>
      Ok (s, counter, frontier,
          inl (if Pwsa.is_expanded (at_ s nbr) then Arcs steps v vd todo else Insert steps v vd nbr mine todo))
  | Insert steps v vd nbr mine todo =>
      hv ← heuristic (at_ s nbr);
      f ← add_int int32 mine hv;
      frontier ← h_insert f nbr frontier;
      Ok (s, counter, frontier, inl (Arcs steps v vd todo))
  end.

Definition pwsa_body : Body H Z shared_state (point C) := {|
  input_new := h_new;
  size_input := Pwsa.size split_cutoff;
  fork_input := Pwsa.fork;
  body_start := Loop 0;
  body_step := do_work;
|}.

(** [GetState], when nobody else runs. *)
Definition GetState (s : shared_state) (id : Z) : res (Pwsa.pwsa_state * shared_state) :=
  a ← getState (sh_states s) id;
  if Pwsa.h a =? -1 then
    hv ← env_goal_heuristic (sh_env s) id;
    Ok (set_h hv a, set_at s id (set_h hv))
  else Ok (a, s).

(** [pwsa_pc] up to [parallel_while_pwsa]. *)
Definition setup (s : shared_state) : res (shared_state * H) :=
  '(_, s) ← GetState s source;
  let s := set_at s source (set_gpred (Pwsa.mkPack 0 source)) in
  heur ← heuristic (at_ s source);
  initF ← h_insert heur source h_new;
  Ok (s, initF).

Definition pwsa_pc (leader : Z) (s : shared_state) : res (global H Z shared_state (point C)) :=
  '(s, initF) ← setup s;
  Ok (initial (body := pwsa_body) leader initF 0 s).
End search.

Record pwsaPlanner := mkPlanner {
  shared_ : shared_state;                   (** [environment_] and [states] *)
  eps : Doubles.double;
  num_threads : Z;
  start_state_id : Z;
  goal_state_id : Z;
}.

Definition set_shared (s : shared_state) (p : pwsaPlanner) : pwsaPlanner :=
  mkPlanner s (eps p) (num_threads p) (start_state_id p) (goal_state_id p).

Definition initializeSearch (p : pwsaPlanner) : res pwsaPlanner :=
  '(_, s) ← GetState (shared_ p) (goal_state_id p);
  '(_, s) ← GetState s (start_state_id p);
  e ← env_ensure_heuristics (sh_env s) true;
  Ok (set_shared (mkShared e (sh_states s)) p).

Definition split_cutoff : Z := 5.
Definition poll_cutoff : Z := 5.

(** The state in which the workers of [run_pwsa] start. *)
Definition run_pwsa (leader : Z) (p : pwsaPlanner) : res (global H Z shared_state (point C)) :=
  pwsa_pc (eps p) (start_state_id p) (goal_state_id p) split_cutoff poll_cutoff leader (shared_ p).

(** The loop body they run, and their steps. *)
Definition planner_body (p : pwsaPlanner) : Body H Z shared_state (point C) :=
  pwsa_body (eps p) (goal_state_id p) split_cutoff poll_cutoff.
Definition worker_step (p : pwsaPlanner) : global H Z shared_state (point C) -> global H Z shared_state (point C) -> Prop :=
  step (body := planner_body p) (num_threads p).

(** The worker has returned from the loop. *)
Definition returned (g : global H Z shared_state (point C)) (i : Z) : Prop :=
  match w_pc (workers g i) with Halted | Abandoned _ => True | _ => False end.

(** The loop of [GetSearchPath]; [cur_id] is the id of [state]. *)
Fixpoint path_loop (fuel : nat) (p : pwsaPlanner) (cur_id : Z) (wholePathIds : list Z) (solcost : Z) :
    res (list Z * Z * pwsaPlanner) :=
  match fuel with
  | O => Err OutOfFuel
  | S fuel =>
      if cur_id =? start_state_id p then Ok (wholePathIds, solcost, p) else
      let gpred := Pwsa.gpred (at_ (shared_ p) cur_id) in
      if Pwsa.pred gpred =? -1 then Ok (wholePathIds, solcost, p) else
      if Pwsa.distance gpred =? INT_MAX then Ok (wholePathIds, solcost, p) else
      '(SuccIDV, CostV, e) ← env_succs (sh_env (shared_ p)) (Pwsa.pred gpred);
      let p := set_shared (mkShared e (sh_states (shared_ p))) p in
      actioncost ← WAStarPlanner.action_cost SuccIDV CostV cur_id;
      solcost ← add_int int32 solcost actioncost;
      '(_, s) ← GetState (shared_ p) (Pwsa.pred gpred);
      path_loop fuel (set_shared s p) (Pwsa.pred gpred) (wholePathIds ++ [Pwsa.pred gpred]) solcost
  end.

Definition GetSearchPath (fuel : nat) (p : pwsaPlanner) : res (list Z * Z * pwsaPlanner) :=
  '(wholePathIds, solcost, p) ← path_loop fuel p (goal_state_id p) [goal_state_id p] 0;
  wholePathIds ← reverse_in_place wholePathIds;
  Ok (wholePathIds, solcost, p).

(** [Search] before and after the workers run; [PathCost] stays unset when there
    is no solution. *)
Definition Search_launch (leader : Z) (p : pwsaPlanner) : res (pwsaPlanner * global H Z shared_state (point C)) :=
  p ← initializeSearch p;
  g ← run_pwsa leader p;
  Ok (p, g).

Definition Search_finish (fuel : nat) (g : global H Z shared_state (point C)) (p : pwsaPlanner) :
    res (bool * list Z * option Z * pwsaPlanner) :=
  '(goal, s) ← GetState (shared g) (goal_state_id p);
  let p := set_shared s p in
  if Pwsa.distance (Pwsa.gpred goal) =? INT_MAX then Ok (false, [], None, p) else
  '(pathIds, PathCost, p) ← GetSearchPath fuel p;
  Ok (true, pathIds, Some PathCost, p).

Definition set_goal (id : Z) (p : pwsaPlanner) : Z * pwsaPlanner :=
  (1, mkPlanner (shared_ p) (eps p) (num_threads p) (start_state_id p) id).
Definition set_start (id : Z) (p : pwsaPlanner) : Z * pwsaPlanner :=
  (1, mkPlanner (shared_ p) (eps p) (num_threads p) id (goal_state_id p)).

(** [replan (start, goal, ...)] before the search: [inl] is an early return; the
    [ubvec] is new. *)
Definition replan_begin (start goal : Z) (initial_eps : Doubles.double) (threads : Z) (p : pwsaPlanner) :
    Z * pwsaPlanner + pwsaPlanner :=
  let p := set_shared (mkShared (sh_env (shared_ p)) ∅) p in
  let '(_, p) := set_start start p in
  let '(_, p) := set_goal goal p in
  let p := mkPlanner (shared_ p) initial_eps threads (start_state_id p) (goal_state_id p) in
  if goal_state_id p <? 0 then inl (0, p) else
  if start_state_id p <? 0 then inl (0, p) else inr p.

(** ... and after it. *)
Definition replan_end (r : bool * list Z * option Z * pwsaPlanner) : res (Z * (list Z * Z) * pwsaPlanner) :=
  let '(solnFound, pathIds, PathCost, p) := r in
  match PathCost with
  | Some c => Ok (if (solnFound : bool) then 1 else 0, (pathIds, c),
      mkPlanner (mkShared (sh_env (shared_ p)) ∅) (eps p) (num_threads p) (-1) (-1))
  | None => Err Uninitialised
  end.

(** The whole of [replan]: the workers may interleave in any way, and the search
    is over when all have returned.  It stops when a step fails, or when a
    single worker, its frontier empty, calls [random_other]. *)
Inductive replan (fuel : nat) (leader start goal : Z) (initial_eps : Doubles.double) (threads : Z) (p : pwsaPlanner) :
    res (Z * option (list Z * Z) * pwsaPlanner) -> Prop :=
  | replan_early r p' : replan_begin start goal initial_eps threads p = inl (r, p') ->
      replan fuel leader start goal initial_eps threads p (Ok (r, None, p'))
  | replan_fails p' e : replan_begin start goal initial_eps threads p = inr p' ->
      Search_launch leader p' = Err e -> replan fuel leader start goal initial_eps threads p (Err e)
  | replan_breaks p' p1 g0 g id c e : replan_begin start goal initial_eps threads p = inr p' ->
      Search_launch leader p' = Ok (p1, g0) -> rtc (worker_step p1) g0 g ->
      0 <= id < num_threads p1 ->
      wstep (body := planner_body p1) id c g = Err e -> replan fuel leader start goal initial_eps threads p (Err e)
  | replan_deserted p' p1 g0 g id : replan_begin start goal initial_eps threads p = inr p' ->
      Search_launch leader p' = Ok (p1, g0) -> rtc (worker_step p1) g0 g ->
      0 <= id < num_threads p1 -> deserted (num_threads p1) g id ->
      replan fuel leader start goal initial_eps threads p (Err AssertFailed)
  | replan_returns p' p1 g0 g : replan_begin start goal initial_eps threads p = inr p' ->
      Search_launch leader p' = Ok (p1, g0) -> rtc (worker_step p1) g0 g ->
      (forall i, 0 <= i < num_threads p1 -> returned g i) ->
      replan fuel leader start goal initial_eps threads p
        (r ← Search_finish fuel g p1; '(code, sol, p) ← replan_end r; Ok (code, Some sol, p)).

(** The overload that plans between the ids set before. *)
Definition replan_again (fuel : nat) (leader : Z) (initial_eps : Doubles.double) (threads : Z) (p : pwsaPlanner) :=
  replan fuel leader (start_state_id p) (goal_state_id p) initial_eps threads p.
End planner.
Arguments shared_state : clear implicits.
Arguments pwsaPlanner : clear implicits.
End PwsaPlanner.
