(* ===== verification/PwsaPlannerSim.v ===== *)
(** * The concurrent planner refines PWSA* on a graph

    Whatever ids the environment gives out during a run, the run is one of
    [pwsa_pc] on the graph of the ids of a closed environment that extends the
    one at its end: the loop bodies simulate each other step by step. *)

From S2P Require Import Prelude.
From S2P Require Import Doubles.
From S2P Require Import Environment.
From S2P Require Import Interfaces.
From S2P Require Import ParWhile.
From S2P Require Import ParWhileSim.
From S2P Require Import Pwsa.
From S2P Require Import WAStarSpec.
From S2P Require Import EnvGraph.
From S2P Require Import PwsaPlanner.

Module PwsaPlannerSim.
Import ParWhile ParWhileSim PwsaPlanner EnvGraph.

Lemma pairs_zip ids costs : length costs = length ids -> pairs ids costs = Ok (zip ids costs).
Proof.
  intros Hl. unfold pairs. destruct (foldM_inv (fun acc sind => nghId ← aget ids sind; weight ← aget costs sind; Ok (acc ++ [(nghId, weight)]))
    (fun done acc => acc = zip (take (length done) ids) (take (length done) costs)) (seqZ 0 (Z.of_nat (length ids))) []) as (acc & -> & E).
  - reflexivity.
  - intros done i todo acc Hs ->. assert (Hi : i = Z.of_nat (length done) /\ 0 <= i < Z.of_nat (length ids)).
    { assert (Hk : seqZ 0 (Z.of_nat (length ids)) !! length done = Some i) by (rewrite Hs; apply list_lookup_middle; reflexivity).
      apply lookup_seqZ in Hk. lia. }
    destruct Hi as [Hi Hb]. destruct (aget_in ids i Hb) as [a Ea]. destruct (aget_in costs i) as [c Ec]; [lia|].
    rewrite Ea, Ec, !bind_ok_l. eexists. split; [reflexivity|].
    apply aget_Ok in Ea as [_ Ea], Ec as [_ Ec]. rewrite Hi, Nat2Z.id in Ea, Ec.
    rewrite length_app. cbn. rewrite Nat.add_1_r, (take_S_r _ _ _ Ea), (take_S_r _ _ _ Ec), zip_with_app; [reflexivity|].
    rewrite !length_take. lia.
  - rewrite length_seqZ, Nat2Z.id, !take_ge in E by lia. congruence.
Qed.

Section sim.
Context {E C H : Type} {eops : EnvOps E} {cops : EnvCallOps E C} {hops : HeapOps H}.
Context {Node : Type} (succ : Node -> list (Node * Z)) (max_id max_deg max_cost max_heur : Z).
Context {elaws : EnvLaws (E := E) succ max_id max_deg max_cost max_heur}.
Context {claws : EnvCallLaws (C := C) succ max_id max_deg max_cost max_heur}.
Context (Hids : 0 <= max_id <= 2 ^ 30).
Context (eps0 : Doubles.double) (ka kh : Z) (Hka : 0 <= ka) (Hkh : 0 <= kh) (Hk : ka + kh <= 30).
Context (Heps : Doubles.upto ka eps0) (Hheur : max_heur <= 2 ^ kh).
Context (destination cutoff poll : Z).

Abbreviation node := (Environment.node succ).
Abbreviation env_inv := (Environment.env_inv succ).
Abbreviation env_le := (Environment.env_le succ).
Abbreviation known := (EnvGraph.known succ max_id max_deg max_cost max_heur).
Abbreviation point := (PwsaPlanner.point C).
Abbreviation shared_state := (PwsaPlanner.shared_state E).
Abbreviation hv_of s v := (Pwsa.h (at_ s v)).

(** The closed environment at the end. *)
Context (es : E) (Ies : env_inv es) (Cl : closed succ max_id max_deg max_cost max_heur es).
Abbreviation gr := (graph_of succ max_id max_deg max_cost max_heur es).
Abbreviation arcs_of := (arcs_at succ max_id max_deg max_cost max_heur es).

(** The heuristic of the search on the graph. *)
Definition heur (v : Z) : Z :=
  match node es v with
  | Some _ =>
      match env_goal_heuristic es v with
      | Ok hv => match Doubles.to_int (Doubles.mul eps0 (Doubles.of_int hv)) with Ok z => z | Err _ => 0 end
      | Err _ => 0
      end
  | None => 0
  end.

Definition heur_is (v hv : Z) : Prop := known es v /\ env_goal_heuristic es v = Ok hv.

Lemma heur_is_ok v hv : heur_is v hv -> Doubles.to_int (Doubles.mul eps0 (Doubles.of_int hv)) = Ok (heur v) /\
  0 <= heur v <= 2 ^ (ka + kh) /\ 0 <= hv.
Proof.
  intros [[x Hx] Eh]. destruct (heuristic_law es v x Ies Hx) as (h' & Eh' & Hr). rewrite Eh in Eh'. injection Eh' as <-.
  unfold heur. rewrite Hx, Eh.
  destruct (Doubles.to_type_upto int32 (ka + kh) (Doubles.mul eps0 (Doubles.of_int hv))) as (z & Ez & Hz); [lia| |..].
  - assert (2 ^ (ka + kh) <= 2 ^ 30) by (apply Z.pow_le_mono_r; lia). etransitivity; [eassumption|]. vm_compute. discriminate.
  - apply Doubles.mul_upto; [lia|exact Heps|]. apply Doubles.of_int_upto; lia.
  - unfold Doubles.to_int. rewrite Ez. split; [reflexivity|lia].
Qed.

Lemma heur_range v : 0 <= heur v <= 2 ^ (ka + kh).
Proof.
  assert (0 <= 2 ^ (ka + kh)) by (apply Z.pow_nonneg; lia). unfold heur.
  destruct (node es v) as [x|] eqn:Hx; [|lia]. destruct (env_goal_heuristic es v) as [hv|] eqn:Eh; [|lia].
  destruct (heur_is_ok v hv) as (Ez & Hr & _); [split; [exists x; exact Hx|exact Eh]|].
  unfold heur in Hr. rewrite Hx, Eh in Hr. exact Hr.
Qed.

(** ** The relation of the shared data *)

Record sim_rel (s1 : shared_state) (s2 : Pwsa.shared_state) : Prop := {
  sr_inv : env_inv (sh_env s1);
  sr_le : env_le (sh_env s1) es;
  sr_len : Z.of_nat (length (Pwsa.sh_states s2)) = max_id;
  sr_peb : Pwsa.sh_pebbles s2 = None;
  sr_at : forall v, 0 <= v < max_id -> exists a, aget (Pwsa.sh_states s2) v = Ok a /\
    Pwsa.is_expanded a = Pwsa.is_expanded (at_ s1 v) /\ Pwsa.gpred a = Pwsa.gpred (at_ s1 v) /\
    (Pwsa.h a = -1 \/ Pwsa.h a = heur v);
  sr_known : forall v, Pwsa.distance (Pwsa.gpred (at_ s1 v)) < INT_MAX -> known (sh_env s1) v;
  sr_memo : forall v, hv_of s1 v = -1 \/ heur_is v (hv_of s1 v);
}.

Definition memo_set (s : shared_state) (v : Z) : Prop := hv_of s v <> -1.
Definition todo_ok (s : shared_state) (todo : list (Z * Z)) : Prop := forall a, a ∈ todo -> known (sh_env s) a.1.

(** What a worker knows, and the point of the other search it is at. *)
Definition point_rel (s : shared_state) (p : point) (q : Pwsa.point) : Prop :=
  match p with
  | Loop st => q = Pwsa.Loop st
  | GetV st v | HeurV st v => q = Pwsa.TestExp st v /\ known (sh_env s) v
  | StoreV st v hv => q = Pwsa.TestExp st v /\ known (sh_env s) v /\ heur_is v hv
  | TestExp st v => q = Pwsa.TestExp st v /\ known (sh_env s) v
  | CasExp st v => q = Pwsa.CasExp st v /\ known (sh_env s) v
  | LoadG st v => q = Pwsa.LoadG st v /\ known (sh_env s) v
  | CallSuccs st v vd => q = Pwsa.Arcs st v vd (arcs_of v) /\ known (sh_env s) v
  | Succs st v vd k => q = Pwsa.Arcs st v vd (arcs_of v) /\ exists x, node (sh_env s) v = Some x /\ calling succ (sh_env s) x k
  | Arcs st v vd todo => q = Pwsa.Arcs st v vd todo /\ todo_ok s todo
  | GetN st v vd nbr mine todo | HeurN st v vd nbr mine todo =>
      q = Pwsa.LoadN st v vd nbr mine todo /\ known (sh_env s) nbr /\ todo_ok s todo
  | StoreN st v vd nbr mine hv todo =>
      q = Pwsa.LoadN st v vd nbr mine todo /\ known (sh_env s) nbr /\ todo_ok s todo /\ heur_is nbr hv
  | LoadN st v vd nbr mine todo =>
      q = Pwsa.LoadN st v vd nbr mine todo /\ known (sh_env s) nbr /\ todo_ok s todo /\ memo_set s nbr
  | CasN st v vd nbr mine g todo =>
      q = Pwsa.CasN st v vd nbr mine g todo /\ known (sh_env s) nbr /\ todo_ok s todo /\ memo_set s nbr
  | TestN st v vd nbr mine todo =>
      q = Pwsa.TestN st v vd nbr mine todo /\ known (sh_env s) nbr /\ todo_ok s todo /\ memo_set s nbr
  | Insert st v vd nbr mine todo =>
      q = Pwsa.HeurTest st v vd nbr mine todo /\ known (sh_env s) nbr /\ todo_ok s todo /\ memo_set s nbr
  end.

(** The shared data of the planner only grow. *)
Definition grows (s s' : shared_state) : Prop :=
  env_inv (sh_env s') /\ env_le (sh_env s) (sh_env s') /\ forall v, memo_set s v -> memo_set s' v.

Lemma point_rel_mono s s' p q : grows s s' -> point_rel s p q -> point_rel s' p q.
Proof.
  intros (I' & L & M). assert (K : forall v, known (sh_env s) v -> known (sh_env s') v) by (intros v; apply known_mono; exact L).
  assert (T : forall l, todo_ok s l -> todo_ok s' l) by (intros l Hl a Ha; auto).
  destruct p; cbn [point_rel]; try exact id;
    try (intros (H1 & H2 & H3 & H4); split; [exact H1|split; [apply K; exact H2|split; [apply T; exact H3|auto]]]; fail);
    try (intros (H1 & H2 & H3); split; [exact H1|split; [apply K; exact H2|auto]]; fail);
    try (intros (H1 & H2); split; [exact H1|auto]; fail).
  intros (H1 & x & Hx & Hc). split; [exact H1|]. exists x.
  split; [eapply node_mono; eassumption|eapply calling_mono; eassumption].
Qed.

(** ** Writes *)

Lemma at_set (s : shared_state) v f x : at_ (set_at s v f) x = if decide (x = v) then f (at_ s v) else at_ s x.
Proof.
  unfold set_at, at_ at 1, state_at. cbn [sh_states]. case_decide as Hd; [subst; rewrite lookup_insert_eq; reflexivity|].
  rewrite lookup_insert_ne by congruence. reflexivity.
Qed.

Lemma grows_refl s1 s2 : sim_rel s1 s2 -> grows s1 s1.
Proof. intros S. split; [apply (sr_inv _ _ S)|]. split; [reflexivity|auto]. Qed.

(** The heuristic of a state is stored. *)
Lemma sim_memo s1 s2 v hv : sim_rel s1 s2 -> heur_is v hv ->
  sim_rel (set_at s1 v (set_h hv)) s2 /\ grows s1 (set_at s1 v (set_h hv)) /\ memo_set (set_at s1 v (set_h hv)) v.
Proof.
  intros S Hh. destruct (heur_is_ok v hv Hh) as (_ & _ & Hv).
  assert (Hm : memo_set (set_at s1 v (set_h hv)) v) by (unfold memo_set; rewrite at_set, decide_True by reflexivity; cbn; lia).
  split; [|split; [|exact Hm]].
  - split; try apply S.
    + intros x Hx. destruct (sr_at _ _ S x Hx) as (a & H1 & H2 & H3 & H4). exists a. rewrite at_set.
      case_decide as Hd; [subst x|]; auto.
    + intros x. rewrite at_set. case_decide as Hd; [subst x|]; apply (sr_known _ _ S).
    + intros x. rewrite at_set. case_decide as Hd; [subst x; right; exact Hh|]. apply (sr_memo _ _ S).
  - split; [apply (sr_inv _ _ S)|]. split; [reflexivity|]. intros x Hx. unfold memo_set. rewrite at_set.
    case_decide as Hd; [cbn; lia|exact Hx].
Qed.

(** The same write to both tables. *)
Lemma sim_write s1 s2 v f : sim_rel s1 s2 -> 0 <= v < max_id -> (forall a, Pwsa.h (f a) = Pwsa.h a) ->
  (forall a b, Pwsa.is_expanded a = Pwsa.is_expanded b -> Pwsa.gpred a = Pwsa.gpred b ->
     Pwsa.is_expanded (f a) = Pwsa.is_expanded (f b) /\ Pwsa.gpred (f a) = Pwsa.gpred (f b)) ->
  (Pwsa.distance (Pwsa.gpred (f (at_ s1 v))) < INT_MAX -> known (sh_env s1) v) ->
  exists s2', Pwsa.set_state s2 v f = Ok s2' /\ sim_rel (set_at s1 v f) s2' /\ grows s1 (set_at s1 v f).
Proof.
  intros S Hv Hf Hff Hk'. destruct (sr_at _ _ S v Hv) as (a & Ea & H1 & H2 & H3). pose proof (aget_bounds _ _ _ Ea) as Hb.
  unfold Pwsa.set_state. rewrite Ea, bind_ok_l, aset_in, bind_ok_l by exact Hb. eexists. split; [reflexivity|]. split.
  - split; cbn [Pwsa.sh_states Pwsa.sh_pebbles]; try apply S.
    + rewrite length_insert. apply S.
    + intros x Hx. rewrite aget_insert, at_set by exact Hb. case_decide as Hd; [|apply (sr_at _ _ S x Hx)]. subst x.
      exists (f a). destruct (Hff a (at_ s1 v) H1 H2) as [H4 H5]. rewrite Hf. auto.
    + intros x. rewrite at_set. case_decide as Hd; [subst x; exact Hk'|]. apply (sr_known _ _ S).
    + intros x. rewrite at_set. case_decide as Hd; [subst x; rewrite Hf|]; apply (sr_memo _ _ S).
  - split; [apply (sr_inv _ _ S)|]. split; [reflexivity|]. intros x Hx. unfold memo_set. rewrite at_set.
    case_decide as Hd; [subst x; rewrite Hf|]; exact Hx.
Qed.

Lemma sim_env s1 s2 e : sim_rel s1 s2 -> env_inv e -> env_le (sh_env s1) e -> env_le e es ->
  sim_rel (mkShared e (sh_states s1)) s2 /\ grows s1 (mkShared e (sh_states s1)).
Proof.
  intros S I' L Le. split.
  - split; cbn [sh_env]; try apply S; try assumption. intros x Hx. eapply known_mono; [exact L|]. apply (sr_known _ _ S). exact Hx.
  - split; [exact I'|]. split; [exact L|auto].
Qed.

Lemma sim_get s1 s2 v : sim_rel s1 s2 -> known (sh_env s1) v -> 0 <= v < max_id /\ getState (sh_states s1) v = Ok (at_ s1 v) /\
  exists a, aget (Pwsa.sh_states s2) v = Ok a /\ Pwsa.is_expanded a = Pwsa.is_expanded (at_ s1 v) /\
    Pwsa.gpred a = Pwsa.gpred (at_ s1 v) /\ (Pwsa.h a = -1 \/ Pwsa.h a = heur v).
Proof.
  intros S Hk'. pose proof (known_range _ _ _ _ _ _ _ (sr_inv _ _ S) Hk') as Hr. split; [exact Hr|]. split.
  - unfold getState. rewrite (proj2 (Z.leb_le 0 v)), (proj2 (Z.ltb_lt v (2 ^ 30))) by lia. reflexivity.
  - apply (sr_at _ _ S v Hr).
Qed.

Lemma sim_heuristic s1 s2 v : sim_rel s1 s2 -> known (sh_env s1) v ->
  exists hv, env_goal_heuristic (sh_env s1) v = Ok hv /\ heur_is v hv.
Proof.
  intros S [x Hx]. destruct (heuristic_law _ _ _ (sr_inv _ _ S) Hx) as (hv & E1 & _). exists hv. split; [exact E1|].
  split; [exists x; eapply node_mono; [apply (sr_le _ _ S)|exact Hx]|].
  rewrite <- E1. eapply heuristic_mono; [apply (sr_inv _ _ S)|exact Ies|apply (sr_le _ _ S)|exact Hx].
Qed.

(** ** Steps of the bodies *)

#[local] Instance b1 : Body H Z shared_state point := pwsa_body eps0 destination cutoff poll.
#[local] Instance b2 : Body H Z Pwsa.shared_state Pwsa.point := Pwsa.pwsa_body int32 false gr heur destination cutoff poll.

(** Every vertex in a heap has been reached. *)
Definition reached (s2 : Pwsa.shared_state) (f : H) : Prop := forall v f', h_delete_min f = Ok (v, f') ->
  exists a, aget (Pwsa.sh_states s2) v = Ok a /\ Pwsa.distance (Pwsa.gpred a) < INT_MAX.
Definition bounded (s1 : shared_state) : Prop := env_le (sh_env s1) es.
(** Only at the head of the loop can the points of an error agree. *)
Definition blame (p : point) (q : Pwsa.point) : Prop := forall st, q = Pwsa.Loop st -> p = Loop st.

Definition matched id c (s1 : shared_state) s2 p f q s1' p' f' next : Prop :=
  grows s1 s1' /\ exists s2' next2, exec (b2 := b2) id c (s2, p, f, q) (s2', p', f', next2) /\ sim_rel s1' s2' /\
    next_rel point_rel s1' next next2.

(** The other search stands still. *)
Lemma match_here id c s1 s2 p f q s1' p1 : sim_rel s1' s2 -> grows s1 s1' -> point_rel s1' p1 q ->
  matched id c s1 s2 p f q s1' p f (inl p1).
Proof. intros S G Hp. split; [exact G|]. exists s2, (inl q). split; [constructor|]. auto. Qed.

(** ... or does the step as well. *)
Lemma match_one id c s1 s2 p f q s1' p' f' next s2' next2 : Pwsa.do_work int32 false gr heur destination poll id c s2 p f q = Ok (s2', p', f', next2) ->
  sim_rel s1' s2' -> grows s1 s1' -> next_rel point_rel s1' next next2 -> matched id c s1 s2 p f q s1' p' f' next.
Proof. intros E1 S G Hn. split; [exact G|]. exists s2', next2. split; [apply exec_one; exact E1|]. auto. Qed.

Lemma no_error {A} (e : error) (x : res A) y : x = Ok y -> x = Err e -> False.
Proof. congruence. Qed.

Lemma arcs_of_graph v : Pwsa.arcs_of gr v = Ok (arcs_of v).
Proof.
  unfold Pwsa.arcs_of, for_each_neighbor_of. cbn [idgraph_ops graph_of ig_arcs].
  enough (K : forall (acc l : list (Z * Z)), foldM (fun acc '(u, w) => Ok (acc ++ [(u, w)])) acc l = Ok (acc ++ l)) by apply K.
  intros acc l. revert acc. induction l as [|[u w] l IH]; intros acc; cbn; [rewrite app_nil_r; reflexivity|].
  rewrite IH, <- (assoc_L (++)). reflexivity.
Qed.

Section one_step.
Context (id : Z) (c : choice) (s1 : shared_state) (s2 : Pwsa.shared_state) (S : sim_rel s1 s2) (p : Z) (f : H).

Abbreviation work := (do_work eps0 destination poll id c s1 p f).
Abbreviation work2 := (Pwsa.do_work int32 false gr heur destination poll id c s2 p f).

(** What has to be shown of a step. *)
Definition step_sim (a : point) (q : Pwsa.point) : Prop :=
  match work a with
  | Ok (s1', p', f', next) => bounded s1' -> matched id c s1 s2 p f q s1' p' f' next
  | Err e => exists s2' f' q', exec (b2 := b2) id c (s2, p, f, q) (s2', p, f', inl q') /\
      Pwsa.do_work int32 false gr heur destination poll id c s2' p f' q' = Err e /\ blame a q'
  end.

Lemma sim_loop st : reached s2 f -> step_sim (Loop st) (Pwsa.Loop st).
Proof.
  intros J. unfold step_sim, do_work. destruct ((st <? poll) && (0 <? h_size f)) eqn:Eb.
  - destruct (h_delete_min f) as [[v f']|e] eqn:Ed; [rewrite bind_ok_l; intros _|].
    + destruct (J v f' Ed) as (a & Ea & Hd).
      apply (match_one _ _ _ _ _ _ _ _ _ _ _ s2 (inl (Pwsa.TestExp (st + 1) v))); [|exact S|eapply grows_refl; exact S|].
      * unfold Pwsa.do_work. rewrite Eb, Ed. reflexivity.
      * split; [reflexivity|]. pose proof (aget_bounds _ _ _ Ea) as Hb. rewrite (sr_len _ _ S) in Hb.
        destruct (sr_at _ _ S v Hb) as (a' & Ea' & _ & Hg & _). rewrite Ea in Ea'. injection Ea' as <-.
        apply (sr_known _ _ S). rewrite <- Hg. exact Hd.
    + exists s2, f, (Pwsa.Loop st). split; [constructor|]. split; [|intros st' [= <-]; reflexivity].
      unfold Pwsa.do_work. rewrite Eb, Ed. reflexivity.
  - destruct (add_int int32 p st) as [k|e] eqn:Ea; [rewrite bind_ok_l; intros _|].
    + apply (match_one _ _ _ _ _ _ _ _ _ _ _ s2 (inr false)); [|exact S|eapply grows_refl; exact S|reflexivity].
      unfold Pwsa.do_work. rewrite Eb, Ea. reflexivity.
    + exists s2, f, (Pwsa.Loop st). split; [constructor|]. split; [|intros st' [= <-]; reflexivity].
      unfold Pwsa.do_work. rewrite Eb, Ea. reflexivity.
Qed.

Lemma sim_getv st v q : point_rel s1 (GetV st v) q -> step_sim (GetV st v) q.
Proof.
  intros [-> Hv]. unfold step_sim, do_work. destruct (sim_get _ _ _ S Hv) as (_ & -> & _). rewrite bind_ok_l. intros _.
  apply match_here; [exact S|eapply grows_refl; exact S|]. destruct (hv_of s1 v =? -1); split; auto.
Qed.

Lemma sim_heurv st v q : point_rel s1 (HeurV st v) q -> step_sim (HeurV st v) q.
Proof.
  intros [-> Hv]. unfold step_sim, do_work. destruct (sim_heuristic _ _ _ S Hv) as (hv & -> & Hh). rewrite bind_ok_l. intros _.
  apply match_here; [exact S|eapply grows_refl; exact S|]. split; auto.
Qed.

Lemma sim_storev st v hv q : point_rel s1 (StoreV st v hv) q -> step_sim (StoreV st v hv) q.
Proof.
  intros (-> & Hv & Hh). unfold step_sim, do_work. intros _. destruct (sim_memo _ _ _ _ S Hh) as (S' & G & _).
  apply match_here; [exact S'|exact G|]. split; [reflexivity|exact Hv].
Qed.

Lemma sim_testexp st v q : point_rel s1 (TestExp st v) q -> step_sim (TestExp st v) q.
Proof.
  intros [-> Hv]. unfold step_sim, do_work. intros _. destruct (sim_get _ _ _ S Hv) as (_ & _ & a & Ea & Hx & _ & _).
  eapply match_one; [unfold Pwsa.do_work; rewrite Ea, bind_ok_l; reflexivity|exact S|eapply grows_refl; exact S|].
  rewrite Hx. destruct (Pwsa.is_expanded (at_ s1 v)); [reflexivity|]. split; auto.
Qed.

Lemma sim_casexp st v q : point_rel s1 (CasExp st v) q -> step_sim (CasExp st v) q.
Proof.
  intros [-> Hv]. unfold step_sim, do_work. destruct (sim_get _ _ _ S Hv) as (Hr & _ & a & Ea & Hx & _ & _).
  destruct (Pwsa.is_expanded (at_ s1 v)) eqn:Ex; intros _.
  - eapply match_one; [unfold Pwsa.do_work; rewrite Ea, bind_ok_l, Hx; reflexivity|exact S|eapply grows_refl; exact S|reflexivity].
  - destruct (sim_write _ _ v set_expanded S Hr) as (s2' & Es & S' & G); [reflexivity|auto|intros _; exact Hv|].
    eapply match_one; [unfold Pwsa.do_work; rewrite Ea, bind_ok_l, Hx|exact S'|exact G|].
    + change (fun a => Pwsa.mkState true (Pwsa.gpred a) (Pwsa.h a)) with set_expanded. rewrite Es, bind_ok_l.
      unfold Pwsa.set_pebble. rewrite (sr_peb _ _ S'), bind_ok_l. reflexivity.
    + destruct (v =? destination); [reflexivity|]. split; [reflexivity|exact Hv].
Qed.

Lemma sim_loadg st v q : point_rel s1 (LoadG st v) q -> step_sim (LoadG st v) q.
Proof.
  intros [-> Hv]. unfold step_sim, do_work. intros _. destruct (sim_get _ _ _ S Hv) as (_ & _ & a & Ea & _ & Hg & _).
  eapply match_one; [unfold Pwsa.do_work; rewrite Ea, bind_ok_l; cbn [andb]; rewrite bind_ok_l, arcs_of_graph, bind_ok_l; reflexivity
    |exact S|eapply grows_refl; exact S|]. rewrite Hg. split; auto.
Qed.

Lemma sim_callsuccs st v vd q : point_rel s1 (CallSuccs st v vd) q -> step_sim (CallSuccs st v vd) q.
Proof.
  intros [-> [x Hx]]. unfold step_sim, do_work. destruct (call_law _ _ _ (sr_inv _ _ S) Hx) as (k & -> & Hc). rewrite bind_ok_l.
  intros _. apply match_here; [exact S|eapply grows_refl; exact S|]. split; [reflexivity|]. eauto.
Qed.

Lemma known_zip e (ids costs : list Z) (l : list Node) : node e <$> ids = Some <$> l -> forall a, a ∈ zip ids costs -> known e a.1.
Proof.
  intros Hl [u w] Hin%elem_of_zip_l. cbn. assert (Hu : node e u ∈ node e <$> ids) by (apply list_elem_of_fmap_2; exact Hin).
  rewrite Hl in Hu. apply list_elem_of_fmap in Hu as (y & Hy & _). exists y. exact Hy.
Qed.

Lemma sim_succs st v vd k q : point_rel s1 (Succs st v vd k) q -> step_sim (Succs st v vd k) q.
Proof.
  intros (-> & x & Hx & Hc). unfold step_sim, do_work.
  destruct (step_law _ _ _ (sr_inv _ _ S) Hc) as (e' & r & -> & I' & L & Hr). rewrite bind_ok_l.
  destruct r as [k'|[ids costs]].
  - rewrite bind_ok_l. intros Hb. cbn in Hb. destruct (sim_env _ _ _ S I' L Hb) as [S' G].
    apply match_here; [exact S'|exact G|]. split; [reflexivity|]. exists x. split; [eapply node_mono; eassumption|apply Hr].
  - destruct Hr as [Hi ->]. assert (Hlen : length (snd <$> succ x) = length ids).
    { rewrite length_fmap, <- (length_fmap (Some ∘ fst) (succ x)), <- Hi, length_fmap. reflexivity. }
    rewrite (pairs_zip ids _ Hlen), !bind_ok_l. intros Hb. cbn in Hb. destruct (sim_env _ _ _ S I' L Hb) as [S' G].
    rewrite list_fmap_compose in Hi.
    apply match_here; [exact S'|exact G|]. split; [|intros a Ha; eapply known_zip; eassumption].
    destruct (arcs_at_known succ max_id max_deg max_cost max_heur es Ies Cl v x) as (ids' & -> & Hi').
    { eapply node_mono; [apply (sr_le _ _ S)|exact Hx]. }
    f_equal. f_equal. eapply (ids_unique succ max_id max_deg max_cost max_heur es); [exact Ies|exact Hi'|].
    clear - Hi Hb. revert Hi. generalize (fst <$> succ x). induction ids as [|i ids IH]; intros [|y l] Hl; cbn in *; try discriminate; [reflexivity|].
    injection Hl as H1 H2. rewrite (IH l H2), (node_mono _ _ _ _ Hb H1). reflexivity.
Qed.

Lemma sim_arcs st v vd todo q : point_rel s1 (Arcs st v vd todo) q -> step_sim (Arcs st v vd todo) q.
Proof.
  intros [-> Ht]. unfold step_sim, do_work. destruct todo as [|[nbr w] todo].
  - intros _. eapply match_one; [reflexivity|exact S|eapply grows_refl; exact S|reflexivity].
  - destruct (add_int int32 vd w) as [mine|e] eqn:Ea; [rewrite bind_ok_l; intros _|].
    + eapply match_one; [unfold Pwsa.do_work; rewrite Ea, bind_ok_l; reflexivity|exact S|eapply grows_refl; exact S|].
      split; [reflexivity|]. split; [apply (Ht (nbr, w)); left|]. intros a Ha. apply Ht. right. exact Ha.
    + exists s2, f, (Pwsa.Arcs st v vd ((nbr, w) :: todo)). split; [constructor|]. split; [|discriminate].
      unfold Pwsa.do_work. rewrite Ea. reflexivity.
Qed.

Lemma sim_getn st v vd nbr mine todo q : point_rel s1 (GetN st v vd nbr mine todo) q -> step_sim (GetN st v vd nbr mine todo) q.
Proof.
  intros (-> & Hn & Ht). unfold step_sim, do_work. destruct (sim_get _ _ _ S Hn) as (_ & -> & _). rewrite bind_ok_l. intros _.
  apply match_here; [exact S|eapply grows_refl; exact S|]. destruct (Z.eqb_spec (hv_of s1 nbr) (-1)); cbn; auto.
Qed.

Lemma sim_heurn st v vd nbr mine todo q : point_rel s1 (HeurN st v vd nbr mine todo) q -> step_sim (HeurN st v vd nbr mine todo) q.
Proof.
  intros (-> & Hn & Ht). unfold step_sim, do_work. destruct (sim_heuristic _ _ _ S Hn) as (hv & -> & Hh). rewrite bind_ok_l.
  intros _. apply match_here; [exact S|eapply grows_refl; exact S|]. cbn. auto.
Qed.

Lemma sim_storen st v vd nbr mine hv todo q : point_rel s1 (StoreN st v vd nbr mine hv todo) q -> step_sim (StoreN st v vd nbr mine hv todo) q.
Proof.
  intros (-> & Hn & Ht & Hh). unfold step_sim, do_work. intros _. destruct (sim_memo _ _ _ _ S Hh) as (S' & G & Hm).
  apply match_here; [exact S'|exact G|]. cbn. auto.
Qed.

Lemma sim_loadn st v vd nbr mine todo q : point_rel s1 (LoadN st v vd nbr mine todo) q -> step_sim (LoadN st v vd nbr mine todo) q.
Proof.
  intros (-> & Hn & Ht & Hm). unfold step_sim, do_work. intros _. destruct (sim_get _ _ _ S Hn) as (_ & _ & a & Ea & _ & Hg & _).
  eapply match_one; [unfold Pwsa.do_work; rewrite Ea, bind_ok_l; reflexivity|exact S|eapply grows_refl; exact S|].
  rewrite Hg. destruct (mine <? _); cbn; auto.
Qed.

Lemma sim_casn st v vd nbr mine g todo q : point_rel s1 (CasN st v vd nbr mine g todo) q -> step_sim (CasN st v vd nbr mine g todo) q.
Proof.
  intros (-> & Hn & Ht & Hm). unfold step_sim, do_work. destruct (sim_get _ _ _ S Hn) as (Hr & _ & a & Ea & _ & Hg & _).
  destruct (negb (spurious c) && bool_decide (Pwsa.gpred (at_ s1 nbr) = g)) eqn:Ec; intros _.
  - destruct (sim_write _ _ nbr (set_gpred (Pwsa.mkPack mine v)) S Hr) as (s2' & Es & S' & G); [reflexivity|auto|intros _; exact Hn|].
    eapply match_one; [unfold Pwsa.do_work; rewrite Ea, bind_ok_l, Hg, Ec|exact S'|exact G|].
    + change (fun a => Pwsa.mkState (Pwsa.is_expanded a) (Pwsa.mkPack mine v) (Pwsa.h a)) with (set_gpred (Pwsa.mkPack mine v)).
      rewrite Es, bind_ok_l. reflexivity.
    + cbn. split; [reflexivity|]. split; [exact Hn|]. split; [exact Ht|]. apply G. exact Hm.
  - eapply match_one; [unfold Pwsa.do_work; rewrite Ea, bind_ok_l, Hg, Ec; reflexivity|exact S|eapply grows_refl; exact S|].
    cbn. auto.
Qed.

Lemma sim_testn st v vd nbr mine todo q : point_rel s1 (TestN st v vd nbr mine todo) q -> step_sim (TestN st v vd nbr mine todo) q.
Proof.
  intros (-> & Hn & Ht & Hm). unfold step_sim, do_work. intros _. destruct (sim_get _ _ _ S Hn) as (_ & _ & a & Ea & Hx & _ & _).
  eapply match_one; [unfold Pwsa.do_work; rewrite Ea, bind_ok_l; reflexivity|exact S|eapply grows_refl; exact S|].
  rewrite Hx. destruct (Pwsa.is_expanded (at_ s1 nbr)); cbn; auto.
Qed.

(** The other search computes the heuristic now, if it has not before. *)
Lemma sim_heurtest st v vd nbr mine todo : known (sh_env s1) nbr -> exists s2' a, sim_rel s1 s2' /\
  aget (Pwsa.sh_states s2') nbr = Ok a /\ Pwsa.h a = heur nbr /\
  forall out, exec (b2 := b2) id c (s2', p, f, Pwsa.Insert st v vd nbr mine todo) out ->
    exec (b2 := b2) id c (s2, p, f, Pwsa.HeurTest st v vd nbr mine todo) out.
Proof.
  intros Hn. destruct (sim_get _ _ _ S Hn) as (Hr & _ & a & Ea & Hx & Hg & Hh).
  destruct (Z.eqb_spec (Pwsa.h a) (-1)) as [E1|E1].
  - set (a' := Pwsa.mkState (Pwsa.is_expanded a) (Pwsa.gpred a) (heur nbr)).
    pose proof (aget_bounds _ _ _ Ea) as Hb.
    exists (Pwsa.mkShared (<[Z.to_nat nbr := a']> (Pwsa.sh_states s2)) (Pwsa.sh_pebbles s2)), a'. split; [|split; [|split; [reflexivity|]]].
    + split; cbn [Pwsa.sh_states Pwsa.sh_pebbles]; try apply S.
      * rewrite length_insert. apply S.
      * intros x Hxr. rewrite aget_insert by exact Hb. case_decide as Hd; [|apply (sr_at _ _ S x Hxr)]. subst x. exists a'. auto.
    + cbn. rewrite aget_insert, decide_True by auto. reflexivity.
    + intros out He. eapply exec_more; [|eapply (exec_more id c s2 p f (Pwsa.HeurStore st v vd nbr mine todo)); [|exact He]]; cbn; unfold Pwsa.do_work.
      * rewrite Ea, bind_ok_l, E1. reflexivity.
      * unfold Pwsa.set_state. rewrite Ea, bind_ok_l, aset_in, !bind_ok_l by exact Hb. reflexivity.
  - exists s2, a. split; [exact S|]. split; [exact Ea|]. split; [tauto|]. intros out He. eapply exec_more; [|exact He].
    cbn. unfold Pwsa.do_work. rewrite Ea, bind_ok_l, (proj2 (Z.eqb_neq _ _) E1). reflexivity.
Qed.

Lemma sim_insert st v vd nbr mine todo q : point_rel s1 (Insert st v vd nbr mine todo) q -> step_sim (Insert st v vd nbr mine todo) q.
Proof.
  intros (-> & Hn & Ht & Hm). destruct (sim_heurtest st v vd nbr mine todo Hn) as (s2' & a & S' & Ea & Hh & Hex).
  unfold step_sim, do_work, heuristic. destruct (sr_memo _ _ S nbr) as [|Hi]; [contradiction|].
  destruct (heur_is_ok nbr _ Hi) as (-> & _ & _). rewrite bind_ok_l.
  destruct (add_int int32 mine (heur nbr)) as [k|e] eqn:Ek; [rewrite bind_ok_l; destruct (h_insert k nbr f) as [f'|e] eqn:Ef|];
    [rewrite bind_ok_l; intros _|exists s2', f, (Pwsa.Insert st v vd nbr mine todo); split; [apply Hex; constructor|]; split; [|discriminate];
      unfold Pwsa.do_work; rewrite Ea, bind_ok_l, Hh, Ek..].
  - split; [eapply grows_refl; exact S|]. exists s2', (inl (Pwsa.Arcs st v vd todo)). split; [|split; [exact S'|split; auto]].
    apply Hex, exec_one. cbn. unfold Pwsa.do_work. rewrite Ea, bind_ok_l, Hh, Ek, bind_ok_l, Ef. reflexivity.
  - rewrite bind_ok_l, Ef. reflexivity.
  - reflexivity.
Qed.

Lemma sim_point a q : point_rel s1 a q -> reached s2 f -> step_sim a q.
Proof.
  intros Hp J. destruct a; first [apply sim_getv|apply sim_heurv|apply sim_storev|apply sim_testexp|apply sim_casexp|apply sim_loadg
    |apply sim_callsuccs|apply sim_succs|apply sim_arcs|apply sim_getn|apply sim_heurn|apply sim_storen|apply sim_loadn
    |apply sim_casn|apply sim_testn|apply sim_insert|cbn in Hp; subst q; apply sim_loop]; auto.
Qed.
End one_step.

(** The two loop bodies simulate each other. *)
Lemma body_simulation : simulation (b1 := b1) (b2 := b2) sim_rel point_rel reached bounded blame.
Proof.
  split; try reflexivity.
  - intros id c s1 s2 p f a b s1' p' f' next S Hp J E1 Hb. pose proof (sim_point id c s1 s2 S p f a b Hp J) as K.
    unfold step_sim in K. cbn in E1. rewrite E1 in K. destruct (K Hb) as [G K']. split; [|exact K'].
    intros a' b'. apply point_rel_mono. exact G.
  - intros id c s1 s2 p f a b e S Hp J E1. pose proof (sim_point id c s1 s2 S p f a b Hp J) as K.
    unfold step_sim in K. cbn in E1. rewrite E1 in K. exact K.
Qed.
End sim.
End PwsaPlannerSim.
