(* ===== verification/PwsaPlannerSpec.v ===== *)
(** * Properties of the concurrent planner

    Over any lawful environment and heap, any number of threads and any
    interleaving: a run of the planner is a run of PWSA* on the graph of the ids
    it met, so it stops only with a path, which it returns with its cost. *)

From S2P Require Import Prelude.
From S2P Require Import Doubles.
From S2P Require Import Environment.
From S2P Require Import Interfaces.
From S2P Require Import Paths.
From S2P Require Import SearchSpec.
From S2P Require Import ParWhile.
From S2P Require Import ParWhileSim.
From S2P Require Import Pwsa.
From S2P Require Import PwsaInv.
From S2P Require Import PwsaSpec.
From S2P Require Import WAStarPlanner.
From S2P Require Import WAStarSpec.
From S2P Require Import EnvGraph.
From S2P Require Import PwsaPlanner.
From S2P Require Import PwsaPlannerSim.

Module PwsaPlannerSpec.
Import ParWhile ParWhileSim PwsaPlanner EnvGraph PwsaPlannerSim.

Section specs.
Context {E C H : Type} {eops : EnvOps E} {cops : EnvCallOps E C} {hops : HeapOps H} {hlaws : HeapLaws H}.
Context {Node : Type} (succ : Node -> list (Node * Z)) (max_id max_deg max_cost max_heur : Z).
Context {elaws : EnvLaws (E := E) succ max_id max_deg max_cost max_heur}.
Context {claws : EnvCallLaws (C := C) succ max_id max_deg max_cost max_heur}.
Context (Hids : 0 <= max_id <= 2 ^ 30) (Hcost : 0 <= max_cost).
Context (eps0 : Doubles.double) (ka kh : Z) (Hka : 0 <= ka) (Hkh : 0 <= kh) (Hk : ka + kh <= 30).
Context (Heps : Doubles.upto ka eps0) (Hheur : max_heur <= 2 ^ kh).
Context (Hfit : max_id * max_cost + 2 ^ (ka + kh) < INT_MAX).
Context (source destination cutoff poll n leader : Z) (Hcutoff : 1 <= cutoff).

Abbreviation node := (Environment.node succ).
Abbreviation env_inv := (Environment.env_inv succ).
Abbreviation env_le := (Environment.env_le succ).
Abbreviation known := (EnvGraph.known succ max_id max_deg max_cost max_heur).
Abbreviation closed := (EnvGraph.closed succ max_id max_deg max_cost max_heur).
Abbreviation graph_of := (EnvGraph.graph_of succ max_id max_deg max_cost max_heur).
Abbreviation edge := (WAStarSpec.edge succ max_id max_deg max_cost max_heur).
Abbreviation heur := (PwsaPlannerSim.heur succ max_id max_deg max_cost max_heur eps0).
Abbreviation sim_rel := (PwsaPlannerSim.sim_rel succ max_id max_deg max_cost max_heur eps0).
Abbreviation point_rel := (PwsaPlannerSim.point_rel succ max_id max_deg max_cost max_heur).
Abbreviation point := (PwsaPlanner.point C).
Abbreviation shared_state := (PwsaPlanner.shared_state E).
Abbreviation state := (global H Z shared_state point).
Abbreviation gstate := (global H Z Pwsa.shared_state Pwsa.point).

Abbreviation b1 := (PwsaPlannerSim.b1 (E := E) (C := C) (H := H) eps0 destination cutoff poll).
Abbreviation b2 es := (PwsaPlannerSim.b2 (H := H) succ max_id max_deg max_cost max_heur eps0 destination cutoff poll es).

(** The search on the graph of a closed environment, and its caller's
    obligations. *)
Section on_graph.
Context (es : E) (Ies : env_inv es) (Cl : closed es) (Hsource : known es source).
#[local] Instance gl : GraphLaws (graph_of es) := graph_of_laws succ max_id max_deg max_cost max_heur es Ies Cl (proj1 Hids).

Lemma ids_pre : search_pre (graph_of es) int32 (heur es) source max_cost (2 ^ (ka + kh)).
Proof.
  split.
  - exact (known_range _ _ _ _ _ _ _ Ies Hsource).
  - intros v _. eapply heur_range; eassumption.
  - intros u v w Ha. apply (ids_arc succ max_id max_deg max_cost max_heur es Ies Cl (proj1 Hids)) in Ha. apply (WAStarSpec.edge_cost _ _ _ _ _ _ _ _ _ Ha).
  - exact Hfit.
  - vm_compute. discriminate.
  - exact Hcost.
Qed.

Definition graph_start : res gstate :=
  Pwsa.start int32 false (graph_of es) (heur es) source destination cutoff poll leader false.
Abbreviation graph_steps := (rtc (step (body := b2 es) n)).

(** What the runs of the search are known to keep. *)
Lemma graph_invariant h0 h : graph_start = Ok h0 -> graph_steps h0 h ->
  PwsaSpec.invariant (graph_of es) int32 false (heur es) source destination cutoff poll max_cost (2 ^ (ka + kh)) ids_pre Hcutoff h.
Proof. intros Es Hr. exact (PwsaSpec.reach _ _ _ _ _ _ _ _ _ _ _ _ n leader false h0 h Es Hr). Qed.

Lemma graph_reached h0 h i : graph_start = Ok h0 -> graph_steps h0 h -> reached (shared h) (w_input (workers h i)).
Proof.
  intros Es Hr v f' Ed. destruct (graph_invariant h0 h Es Hr) as (Fw & Fm & loaded & [I1 I2 _]).
  pose proof (pi_rep _ _ _ I1 i) as R. destruct (Fw i) as [|e l] eqn:EF.
  - rewrite (h_delete_min_empty _ R) in Ed. discriminate.
  - destruct (h_delete_min_rep _ _ R ltac:(discriminate)) as (p & v' & h' & l' & Ed' & _ & Pl & _).
    rewrite Ed in Ed'. injection Ed' as <- <-.
    assert (Hin : PwsaInv.entries Fw Fm (p, v)) by (left; exists i; rewrite EF, Pl; left).
    destruct (PwsaInv.pv_ent _ _ _ _ _ _ _ _ _ _ I2 p v Hin) as [_ Hd].
    unfold PwsaInv.D, aview in Hd. destruct (aget (Pwsa.sh_states (shared h)) v) as [a|]; [eauto|]. cbn in Hd. lia.
Qed.

Lemma graph_error h0 h id c e : graph_start = Ok h0 -> graph_steps h0 h -> wstep (body := b2 es) id c h = Err e ->
  (e = AssertFailed /\ is_done h = true /\ pc_of h id = AssertSize 0) \/
  (e = SignedOverflow /\ exists st, pc_of h id = Work (Pwsa.Loop st) /\ in_int int32 (w_priv (workers h id) + st) = false).
Proof.
  intros Es Hr He. destruct (graph_invariant h0 h Es Hr) as (Fw & Fm & loaded & I1).
  exact (PwsaInv.ginv_error (graph_of es) int32 false (heur es) source destination cutoff poll max_cost (2 ^ (ka + kh))
    (sp_source _ _ _ _ _ _ ids_pre) (sp_heur _ _ _ _ _ _ ids_pre) (sp_weight _ _ _ _ _ _ ids_pre) (sp_fit _ _ _ _ _ _ ids_pre)
    (sp_long _ _ _ _ _ _ ids_pre) (sp_pos _ _ _ _ _ _ ids_pre) Hcutoff h Fw Fm loaded id c e I1 He).
Qed.
End on_graph.

(** ** Before the workers start *)

(** The memo holds what the environment answers. *)
Definition memo_ok (s : shared_state) : Prop := forall v, Pwsa.h (at_ s v) = -1 \/
  known (sh_env s) v /\ env_goal_heuristic (sh_env s) v = Ok (Pwsa.h (at_ s v)).

(** Shared data that differ in the memo only. *)
Definition same_search (s s' : shared_state) : Prop := sh_env s' = sh_env s /\
  forall v, Pwsa.is_expanded (at_ s' v) = Pwsa.is_expanded (at_ s v) /\ Pwsa.gpred (at_ s' v) = Pwsa.gpred (at_ s v).

Lemma planner_GetState_ok (s : shared_state) v : env_inv (sh_env s) -> known (sh_env s) v -> memo_ok s ->
  exists s', GetState s v = Ok (at_ s' v, s') /\ same_search s s' /\ memo_ok s' /\ Pwsa.h (at_ s' v) <> -1.
Proof.
  intros I Hv M. pose proof (known_range _ _ _ _ _ _ _ I Hv) as Hr. unfold GetState, getState.
  rewrite (proj2 (Z.leb_le 0 v)), (proj2 (Z.ltb_lt v (2 ^ 30))) by lia. cbn [andb]. rewrite bind_ok_l.
  change (state_at (sh_states s) v) with (at_ s v). destruct (Z.eqb_spec (Pwsa.h (at_ s v)) (-1)) as [E1|E1].
  - pose proof Hv as [x Hx]. destruct (heuristic_law _ _ _ I Hx) as (hv & Eh & Hh & _). rewrite Eh, bind_ok_l.
    exists (set_at s v (set_h hv)). split; [|split; [|split]].
    + rewrite at_set, decide_True by reflexivity. reflexivity.
    + split; [reflexivity|]. intros x'. rewrite at_set. case_decide; subst; auto.
    + intros x'. rewrite at_set. case_decide as Hd; [subst x'; right; auto|apply M].
    + rewrite at_set, decide_True by reflexivity. cbn. lia.
  - exists s. split; [reflexivity|]. split; [split; auto|]. auto.
Qed.

(** The table before the search. *)
Definition unreached (s : shared_state) : Prop := env_inv (sh_env s) /\ memo_ok s /\
  forall v, Pwsa.is_expanded (at_ s v) = false /\ Pwsa.gpred (at_ s v) = Pwsa.mkPack INT_MAX (-1).

Lemma planner_unreached_same s s' : unreached s -> same_search s s' -> memo_ok s' -> unreached s'.
Proof.
  intros (I & _ & U) [He Hs] M. split; [rewrite He; exact I|]. split; [exact M|].
  intros v. destruct (Hs v) as [-> ->]. apply U.
Qed.

Lemma memo_heur_is es s v : env_inv es -> env_inv (sh_env s) -> env_le (sh_env s) es -> memo_ok s -> Pwsa.h (at_ s v) <> -1 ->
  heur_is succ max_id max_deg max_cost max_heur es v (Pwsa.h (at_ s v)).
Proof.
  intros Ies I L M Hn. destruct (M v) as [|[[x Hx] Eh]]; [contradiction|]. split; [eapply known_mono; [exact L|eexists; exact Hx]|].
  rewrite <- Eh. eapply heuristic_mono; eassumption.
Qed.

(** The table of the search on the graph before its workers start. *)
Lemma graph_setup es k f : env_inv es -> known es source -> heur es source = k -> h_insert k source h_new = Ok f ->
  exists t, Pwsa.setup int32 (graph_of es) (heur es) source false = Ok (Pwsa.mkShared t None, f) /\
    Z.of_nat (length t) = max_id /\ forall v, 0 <= v < max_id ->
      aget t v = Ok (if decide (v = source) then Pwsa.mkState false (Pwsa.mkPack 0 source) k
                     else Pwsa.mkState false (Pwsa.mkPack INT_MAX (-1)) (-1)).
Proof.
  intros Ies Hs Hk' Ef. pose proof (known_range _ _ _ _ _ _ _ Ies Hs) as Hr.
  set (a0 := Pwsa.mkState false (Pwsa.mkPack INT_MAX (-1)) (-1)). set (t0 := replicate (Z.to_nat max_id) a0).
  assert (L0 : Z.of_nat (length t0) = max_id) by (unfold t0; rewrite length_replicate; lia).
  assert (G0 : forall v, 0 <= v < max_id -> aget t0 v = Ok a0).
  { intros v Hv. unfold aget, t0. rewrite (proj2 (Z.leb_le 0 v)), lookup_replicate_2 by lia. reflexivity. }
  assert (Hset : forall t v fn b, aget t v = Ok b ->
    Pwsa.set_state (Pwsa.mkShared t None) v fn = Ok (Pwsa.mkShared (<[Z.to_nat v := fn b]> t) None)).
  { intros t v fn b Eb. unfold Pwsa.set_state. cbn [Pwsa.sh_states Pwsa.sh_pebbles]. rewrite Eb, bind_ok_l, aset_in by (eapply aget_bounds; exact Eb). reflexivity. }
  set (a1 := Pwsa.mkState false (Pwsa.mkPack 0 source) (-1)). set (a2 := Pwsa.mkState false (Pwsa.mkPack 0 source) k).
  set (t1 := <[Z.to_nat source := a1]> t0). set (t2 := <[Z.to_nat source := a2]> t1).
  assert (E1 : aget t1 source = Ok a1) by (unfold t1; rewrite aget_insert, decide_True by (auto; lia); reflexivity).
  assert (L1 : Z.of_nat (length t1) = max_id) by (unfold t1; rewrite length_insert; exact L0).
  assert (E2 : aget t2 source = Ok a2) by (unfold t2; rewrite aget_insert, decide_True by (auto; lia); reflexivity).
  exists t2. split; [|split].
  - unfold Pwsa.setup. cbn [number_vertices idgraph_ops graph_of ig_vertices]. change (int_max int32) with INT_MAX. fold a0 t0.
    cbv zeta. rewrite (Hset t0 source _ a0 (G0 source Hr)), bind_ok_l. change (<[Z.to_nat source := _]> t0) with t1.
    cbn [Pwsa.sh_states]. rewrite E1, bind_ok_l. cbn [Pwsa.h a1]. rewrite Z.eqb_refl, (Hset t1 source _ a1 E1), bind_ok_l.
    cbn [Pwsa.is_expanded Pwsa.gpred a1]. rewrite Hk'. fold a2 t2. cbn [Pwsa.sh_states]. rewrite E2, bind_ok_l. cbn [Pwsa.h a2].
    rewrite Ef, bind_ok_l. reflexivity.
  - unfold t2. rewrite length_insert. exact L1.
  - intros v Hv. unfold t2. rewrite aget_insert by lia. case_decide; [reflexivity|]. unfold t1.
    rewrite aget_insert, decide_False by (auto; lia). apply G0. exact Hv.
Qed.

Lemma planner_setup_ok (s : shared_state) : unreached s -> known (sh_env s) source -> exists s1 f, setup eps0 source s = Ok (s1, f) /\
  sh_env s1 = sh_env s /\ forall es, env_inv es -> env_le (sh_env s) es -> exists s2,
    Pwsa.setup int32 (graph_of es) (heur es) source false = Ok (s2, f) /\ sim_rel es s1 s2.
Proof.
  intros (I & M & U) Hs. destruct (planner_GetState_ok s source I Hs M) as (s' & Eg & [Ee Es] & M' & Hn).
  unfold setup. rewrite Eg, bind_ok_l. set (s1 := set_at s' source _).
  assert (I' : env_inv (sh_env s')) by (rewrite Ee; exact I).
  assert (Hh : Pwsa.h (at_ s1 source) = Pwsa.h (at_ s' source)) by (unfold s1; rewrite at_set, decide_True; reflexivity).
  destruct (completion succ max_id max_deg max_cost max_heur (sh_env s') I') as (e0 & I0 & L0 & _).
  pose proof (memo_heur_is e0 s' source I0 I' L0 M' Hn) as K0.
  destruct (heur_is_ok succ max_id max_deg max_cost max_heur eps0 ka kh Hka Hkh Hk Heps Hheur e0 I0 _ _ K0) as (Ek & Hr & _).
  unfold heuristic. rewrite Hh, Ek, bind_ok_l.
  destruct (h_insert_rep (h_new (H := H)) [] (heur e0 source) source h_new_rep) as (f & Ef & _).
  { assert (2 ^ (ka + kh) <= 2 ^ 30) by (apply Z.pow_le_mono_r; lia). change LONG_MAX with 9223372036854775807. lia. }
  rewrite Ef, bind_ok_l. exists s1, f. split; [reflexivity|]. split; [exact Ee|].
  intros es Ies L. rewrite <- Ee in L. pose proof (memo_heur_is es s' source Ies I' L M' Hn) as K.
  destruct (heur_is_ok succ max_id max_deg max_cost max_heur eps0 ka kh Hka Hkh Hk Heps Hheur es Ies _ _ K) as (Ek' & _ & _).
  rewrite Ek in Ek'. injection Ek' as Ek'.
  destruct (graph_setup es (heur e0 source) f Ies ltac:(apply K) (eq_sym Ek') Ef) as (t & Et & Hl & Ht).
  exists (Pwsa.mkShared t None). split; [exact Et|]. split; cbn [Pwsa.sh_states Pwsa.sh_pebbles].
  - exact I'.
  - exact L.
  - exact Hl.
  - reflexivity.
  - intros v Hv. eexists. split; [apply Ht; exact Hv|]. unfold s1. rewrite at_set. destruct (Es v) as [Ex Egp]. destruct (U v) as [Ux Ug].
    destruct (Es source) as [Ex' _]. destruct (U source) as [Ux' _].
    case_decide as Hd; cbn; [rewrite Ex', Ux', Ek', Hd; auto|]. rewrite Ex, Egp, Ux, Ug. auto.
  - intros v. unfold s1. rewrite at_set. case_decide as Hd; [intros _; rewrite Hd; cbn; rewrite Ee; exact Hs|].
    destruct (Es v) as [_ ->]. destruct (U v) as [_ ->]. cbn. lia.
  - intros v. unfold s1. rewrite at_set. case_decide as Hd; [right; subst v; exact K|].
    destruct (decide (Pwsa.h (at_ s' v) = -1)) as [|Hn']; [auto|]. right. apply memo_heur_is; assumption.
Qed.
(** ** Runs *)

Abbreviation sim es := (body_simulation succ max_id max_deg max_cost max_heur Hids eps0 ka kh Hka Hkh Hk Heps Hheur destination cutoff poll es).
Abbreviation like es g h := (related (sim_rel es) (point_rel es) g h).
Abbreviation planner_step := (step (body := b1) n).

(** Only a call of [GetSuccs] changes the environment. *)
Lemma do_work_env id c (s s' : shared_state) counter counter' (f f' : H) p next :
  do_work eps0 destination poll id c s counter f p = Ok (s', counter', f', next) ->
  sh_env s' = sh_env s \/ exists st v vd k r, p = Succs st v vd k /\ succs_step (sh_env s) k = Ok (sh_env s', r).
Proof.
  intros E1. destruct p as [| | | | | | | |st v vd k|? ? ? [|[? ?] ?]| | | | | | |]; cbn in E1;
    try (left; repeat match type of E1 with context [if ?b then _ else _] => destruct b end;
      inv_res; repeat match goal with x : _ * _ |- _ => destruct x end; inv_res; reflexivity).
  right. apply bind_Ok in E1 as ([e r] & Er & E1). apply bind_Ok in E1 as (q & _ & [= <- _ _ _]). exists st, v, vd, k, r. auto.
Qed.

Section env_grows.
Context (es : E) (Ies : env_inv es) (Cl : closed es).

Lemma env_grows g h g' : like es g h -> planner_step g g' -> env_inv (sh_env (shared g')) /\ env_le (sh_env (shared g)) (sh_env (shared g')).
Proof.
  intros K (id & c & Hid & _ & Hs). pose proof (sr_inv _ _ _ _ _ _ _ _ _ (re_shared _ _ _ _ K)) as I0.
  destruct (w_pc (workers g id)) as [] eqn:Ep;
    try (pose proof (related_protocol _ _ _ _ _ (sim es Ies Cl) g h id c K ltac:(congruence)) as Hp; rewrite Hs in Hp;
      destruct (wstep (body := b2 es) id c h); [destruct Hp as [_ ->]; split; [exact I0|reflexivity]|contradiction]; fail).
  unfold wstep in Hs. rewrite Ep in Hs. apply bind_Ok in Hs as ([[[s1' p'] f'] next] & Es & [= <-]). cbn [shared set_worker ParWhile.set_shared].
  destruct (do_work_env _ _ _ _ _ _ _ _ _ _ Es) as [->|(st & v & vd & k & r & -> & Er)]; [split; [exact I0|reflexivity]|].
  destruct (re_pc _ _ _ _ K id) as [Ee HQ]. rewrite Ep in Ee. destruct (w_pc (workers h id)) as [] eqn:Eq; try discriminate.
  destruct (HQ _ _ Ep eq_refl) as (_ & x & _ & Hc).
  destruct (step_law _ _ _ I0 Hc) as (e' & r' & Er' & I' & L & _). rewrite Er in Er'. injection Er' as <- _. auto.
Qed.
End env_grows.

(** The run so far, seen from any closed environment to come. *)
Definition refined (e0 : E) (g : state) : Prop :=
  env_inv (sh_env (shared g)) /\ env_le e0 (sh_env (shared g)) /\
  forall es, env_inv es -> closed es -> env_le (sh_env (shared g)) es ->
    exists h0 h, graph_start es = Ok h0 /\ rtc (step (body := b2 es) n) h0 h /\ like es g h.

Lemma refined_start (s : shared_state) : unreached s -> known (sh_env s) source ->
  exists g0, pwsa_pc eps0 source destination cutoff poll leader s = Ok g0 /\ refined (sh_env s) g0.
Proof.
  intros U Hs. destruct (planner_setup_ok s U Hs) as (s1 & f & Es & Ee & K). unfold pwsa_pc. rewrite Es, bind_ok_l.
  eexists. split; [reflexivity|]. unfold refined. cbn [shared initial]. rewrite Ee. split; [apply U|]. split; [reflexivity|].
  intros es Ies Cl L. destruct (K es Ies L) as (s2 & E2 & R). unfold graph_start, Pwsa.start. rewrite E2, bind_ok_l.
  eexists _, _. split; [reflexivity|]. split; [constructor|]. apply (related_initial _ _ _ _ _ (sim es Ies Cl)). exact R.
Qed.

Lemma refined_step e0 g g' : known e0 source -> refined e0 g -> planner_step g g' -> refined e0 g'.
Proof.
  intros Hs (I0 & L0 & K) St. destruct (completion succ max_id max_deg max_cost max_heur _ I0) as (ec & Ic & Lc & Cc).
  destruct (K ec Ic Cc Lc) as (h0 & h & _ & _ & Hrel). destruct (env_grows ec Ic Cc g h g' Hrel St) as [I1 L1].
  split; [exact I1|]. split; [etransitivity; eassumption|]. intros es Ies Cl L.
  assert (L' : env_le (sh_env (shared g)) es) by (etransitivity; eassumption).
  destruct (K es Ies Cl L') as (h1 & h2 & E1 & R1 & Hrel').
  assert (Hs' : known es source) by (eapply known_mono; [|exact Hs]; etransitivity; eassumption).
  destruct (related_step _ _ _ _ _ (sim es Ies Cl) n g g' h2 Hrel') as (h3 & R3 & Hrel3); [|exact St|exact L|].
  - intros i. eapply graph_reached; eassumption.
  - exists h1, h3. split; [exact E1|]. split; [etransitivity; eassumption|exact Hrel3].
Qed.

Lemma refined_run e0 g0 g : known e0 source -> refined e0 g0 -> rtc planner_step g0 g -> refined e0 g.
Proof. intros Hs R0 Hr. induction Hr as [g|g g1 g' St _ IH]; [exact R0|]. apply IH. eapply refined_step; eassumption. Qed.
(** ** The table the workers leave *)

Definition dist (s : shared_state) (v : Z) : Z := Pwsa.distance (Pwsa.gpred (at_ s v)).
Definition parent (s : shared_state) (v : Z) : Z := Pwsa.pred (Pwsa.gpred (at_ s v)).

(** A tree rooted at the source that spans the destination. *)
Record found (s : shared_state) : Prop := {
  fd_env : env_inv (sh_env s);
  fd_known : forall v, dist s v < INT_MAX -> known (sh_env s) v;
  fd_source : dist s source = 0;
  fd_nonneg : forall v, 0 <= dist s v;
  fd_parent : forall v, v <> source -> dist s v < INT_MAX ->
    exists w, edge (sh_env s) (parent s v) v w /\ dist s (parent s v) + w <= dist s v;
  fd_chain : exists l, chain (parent s) source destination l /\ forall v, v ∈ l -> dist s v < INT_MAX;
  fd_goal : dist s destination < INT_MAX;
}.

Lemma like_view es (g : state) (h : gstate) v : like es g h -> 0 <= v < max_id ->
  PwsaInv.D int32 (shared h) v = dist (shared g) v /\ PwsaInv.Pr (shared h) v = parent (shared g) v.
Proof.
  intros K Hv. destruct (sr_at _ _ _ _ _ _ _ _ _ (re_shared _ _ _ _ K) v Hv) as (a & Ea & _ & Eg & _).
  unfold PwsaInv.D, PwsaInv.Pr, dist, parent. rewrite <- Eg, (aview_get _ _ _ _ _ Ea), (aview_get _ _ _ _ _ Ea). auto.
Qed.

Section leaves.
Context (es : E) (Ies : env_inv es) (Cl : closed es) (Hsource : known es source) (g : state) (h0 h : gstate).
Context (E0 : graph_start es = Ok h0) (R : rtc (step (body := b2 es) n) h0 h) (Hrel : like es g h).
#[local] Instance gl' : GraphLaws (graph_of es) := gl es Ies Cl.
Abbreviation garc := (arc (graph_of es)).
Abbreviation gdist := (PwsaInv.D int32 (shared h)).
Abbreviation gparent := (PwsaInv.Pr (shared h)).

Lemma graph_edge u v w : garc u v w <-> edge es u v w.
Proof using All. exact (ids_arc succ max_id max_deg max_cost max_heur es Ies Cl (proj1 Hids) u v w). Qed.

Lemma garc_nonneg u v w : garc u v w -> 0 <= w.
Proof using All. intros Ha%graph_edge. eapply WAStarSpec.wastar_edge_nonneg. exact Ha. Qed.

Lemma graph_tree : tree_inv garc INT_MAX source gdist gparent.
Proof using All. exact (PwsaSpec.invariant_tree _ _ _ _ _ _ _ _ _ _ (ids_pre es Ies Cl Hsource) Hcutoff h (graph_invariant es Ies Cl Hsource h0 h E0 R)). Qed.

Lemma returned_done i : returned g i -> is_done h = true.
Proof using All.
  intros Hret. destruct (graph_invariant es Ies Cl Hsource h0 h E0 R) as (Fw & Fm & loaded & [I1 _ _]).
  pose proof (pi_local _ _ _ I1 i) as L. unfold local_ok, pc_of in L. destruct (re_pc _ _ _ _ Hrel i) as [Ee _]. unfold returned in Hret.
  destruct (w_pc (workers g i)); try contradiction; destruct (w_pc (workers h i)); try discriminate; exact L.
Qed.

Lemma goal_reached : is_done h = true -> gdist destination < INT_MAX /\ 0 <= destination < max_id.
Proof using All.
  intros Hd. destruct (graph_invariant es Ies Cl Hsource h0 h E0 R) as (Fw & Fm & loaded & [_ I1 I2]).
  assert (Hx : PwsaInv.E (shared h) destination = true) by (apply I2; auto).
  split; [apply (PwsaInv.pv_exp _ _ _ _ _ _ _ _ _ _ I1 destination Hx)|exact (PwsaInv.E_range _ _ _ _ _ _ _ _ _ _ _ I1 Hx)].
Qed.

Lemma dist_known v : dist (shared g) v < INT_MAX -> known (sh_env (shared g)) v /\ gdist v = dist (shared g) v /\ gparent v = parent (shared g) v.
Proof using All.
  intros Hv. pose proof (re_shared _ _ _ _ Hrel) as SR. pose proof (sr_known _ _ _ _ _ _ _ _ _ SR v Hv) as Hk'. split; [exact Hk'|].
  apply like_view with es; [exact Hrel|]. exact (known_range _ _ _ _ _ _ _ (sr_inv _ _ _ _ _ _ _ _ _ SR) Hk').
Qed.

(** The distances of the two tables below INT_MAX are the same. *)
Lemma gdist_reached v : gdist v < INT_MAX -> 0 <= v < max_id -> dist (shared g) v < INT_MAX.
Proof using All. intros Hv Hr. destruct (like_view es g h v Hrel Hr) as [<- _]. exact Hv. Qed.

Lemma edge_known u v w : known (sh_env (shared g)) u -> known (sh_env (shared g)) v -> garc u v w -> edge (sh_env (shared g)) u v w.
Proof using All.
  intros [x Hx] [y Hy] Ha%graph_edge. eapply WAStarSpec.edge_back; [|exact Hx|exact Hy|exact Ha].
  apply (sr_le _ _ _ _ _ _ _ _ _ (re_shared _ _ _ _ Hrel)).
Qed.

Lemma found_parent v : v <> source -> dist (shared g) v < INT_MAX -> exists w, edge (sh_env (shared g)) (parent (shared g) v) v w /\
  dist (shared g) (parent (shared g) v) + w <= dist (shared g) v.
Proof using All.
  intros Hne Hv. destruct (dist_known v Hv) as (Hkv & Ed & Ep). rewrite <- Ed, <- Ep. rewrite <- Ed in Hv.
  destruct (ti_parent _ _ _ _ _ graph_tree v Hne Hv) as (w & Ha & Hw). pose proof (garc_nonneg _ _ _ Ha) as Hw0.
  assert (Hu : 0 <= gparent v < max_id) by (apply Ha). destruct (like_view es g h (gparent v) Hrel Hu) as [Eu _].
  exists w. rewrite <- Eu. split; [|exact Hw].
  apply edge_known; [apply dist_known; rewrite <- Eu; lia|exact Hkv|exact Ha].
Qed.

Lemma found_chain : gdist destination < INT_MAX ->
  exists l, chain (parent (shared g)) source destination l /\ forall v, v ∈ l -> dist (shared g) v < INT_MAX.
Proof using All.
  intros Hg. destruct (ti_chain _ _ _ _ _ graph_tree destination Hg) as [l Hl].
  assert (Hr : forall v, v ∈ l -> gdist v < INT_MAX /\ 0 <= v < max_id).
  { intros v Hv. split; [exact (chain_reached _ garc_nonneg _ _ _ _ _ _ v graph_tree Hg Hl Hv)|].
    eapply (chain_in_range _ garc_nonneg _ _ (fun v => 0 <= v < max_id)); [|intros a b w Ha|exact graph_tree|exact Hg|exact Hl|exact Hv].
    - exact (known_range _ _ _ _ _ _ _ Ies Hsource).
    - apply graph_edge in Ha as (x & y & _ & Hy & _). eapply node_range; eassumption. }
  exists l. split; [eapply chain_ext; [exact Hl|]|]; intros v Hv; destruct (Hr v Hv) as [H1 H2].
  - symmetry. apply (like_view es g h v Hrel H2).
  - apply gdist_reached; assumption.
Qed.

Lemma graph_found i : returned g i -> found (shared g).
Proof using All.
  intros Hret. destruct (goal_reached (returned_done i Hret)) as [Hg Hgr]. split.
  - apply (sr_inv _ _ _ _ _ _ _ _ _ (re_shared _ _ _ _ Hrel)).
  - intros v Hv. apply dist_known, Hv.
  - destruct (like_view es g h source Hrel) as [<- _]; [exact (known_range _ _ _ _ _ _ _ Ies Hsource)|]. apply (ti_src _ _ _ _ _ graph_tree).
  - intros v. destruct (Z.lt_ge_cases (dist (shared g) v) INT_MAX) as [Hv|Hv]; [|change INT_MAX with 2147483647 in Hv; lia].
    destruct (dist_known v Hv) as (_ & <- & _). apply (ti_nonneg _ garc_nonneg _ _ _ _ v graph_tree).
  - exact found_parent.
  - apply found_chain, Hg.
  - apply gdist_reached; assumption.
Qed.
End leaves.

Lemma refined_found e0 (g : state) i : known e0 source -> refined e0 g -> returned g i -> found (shared g).
Proof.
  intros Hs (I0 & L0 & K) Hret. destruct (completion succ max_id max_deg max_cost max_heur _ I0) as (es & Ies & L & Cl).
  destruct (K es Ies Cl L) as (h0 & h & E0 & R & Hrel). eapply (graph_found es Ies Cl); [|exact E0|exact R|exact Hrel|exact Hret].
  eapply known_mono; [|exact Hs]. etransitivity; eassumption.
Qed.
(** What can stop a worker. *)
Lemma refined_error e0 (g : state) id c e : known e0 source -> refined e0 g -> 0 <= id < n ->
  wstep (body := b1) id c g = Err e ->
  (e = AssertFailed /\ is_done g = true /\ pc_of g id = AssertSize 0) \/
  (e = SignedOverflow /\ exists st, pc_of g id = Work (Loop st) /\ in_int int32 (w_priv (workers g id) + st) = false).
Proof.
  intros Hs (I0 & L0 & K) Hid Hst. destruct (completion succ max_id max_deg max_cost max_heur _ I0) as (es & Ies & L & Cl).
  destruct (K es Ies Cl L) as (h0 & h & E0 & R & Hrel).
  assert (Hs' : known es source) by (eapply known_mono; [|exact Hs]; etransitivity; eassumption).
  destruct (related_error _ _ _ _ _ (sim es Ies Cl) n g h id c e Hrel) as (h' & R' & Ee & Hd & Hp & Hpc); [|exact Hid|exact Hst|].
  { intros i. eapply graph_reached; eassumption. }
  assert (R2 : rtc (step (body := b2 es) n) h0 h') by (etransitivity; eassumption).
  destruct (graph_error es Ies Cl Hs' h0 h' id c e E0 R2 Ee) as [(-> & Hd' & Hpc')|(-> & st & Hpc' & Hov)]; unfold pc_of in Hpc' |- *; rewrite Hpc' in Hpc.
  - left. split; [reflexivity|]. split; [congruence|]. destruct Hpc as [[_ Hpc]|(a & b & _ & Hb & _)]; [|discriminate].
    destruct (w_pc (workers g id)); try discriminate. injection Hpc as ->. reflexivity.
  - right. split; [reflexivity|]. destruct Hpc as [[Hw Hpc]|(a & b & Ha & [= <-] & Hbl)].
    + destruct (w_pc (workers g id)) as [] eqn:Ep; try discriminate. destruct (Hw b). reflexivity.
    + rewrite Ha, (Hbl st eq_refl), <- Hp. eauto.
Qed.

(** ** The path *)

Lemma planner_found_same s s' : found s -> env_inv (sh_env s') -> env_le (sh_env s) (sh_env s') ->
  (forall v, Pwsa.gpred (at_ s' v) = Pwsa.gpred (at_ s v)) -> found s'.
Proof.
  intros [H1 H2 H3 H4 H5 H6 H7] I L Hg.
  assert (Hd : forall v, dist s' v = dist s v) by (intros v; unfold dist; rewrite Hg; reflexivity).
  assert (Hp : forall v, parent s' v = parent s v) by (intros v; unfold parent; rewrite Hg; reflexivity).
  split.
  - exact I.
  - intros v. rewrite Hd. intros Hv. eapply known_mono; [exact L|auto].
  - rewrite Hd. exact H3.
  - intros v. rewrite Hd. apply H4.
  - intros v Hne. rewrite !Hd, Hp. intros Hv. destruct (H5 v Hne Hv) as (w & He & Hw). exists w.
    split; [eapply WAStarSpec.edge_mono; eassumption|exact Hw].
  - destruct H6 as (l & Hl & Hr). exists l. split; [eapply chain_ext; [exact Hl|]; intros; apply Hp|]. intros v Hv. rewrite Hd. auto.
  - rewrite Hd. exact H7.
Qed.

(** [GetState] does not change the tree. *)
Lemma found_GetState s v : found s -> known (sh_env s) v -> exists s', GetState s v = Ok (at_ s' v, s') /\ found s' /\
  sh_env s' = sh_env s /\ forall x, Pwsa.gpred (at_ s' x) = Pwsa.gpred (at_ s x).
Proof.
  intros F Hv. pose proof (fd_env _ F) as I. pose proof (known_range _ _ _ _ _ _ _ I Hv) as Hr. unfold GetState, getState.
  rewrite (proj2 (Z.leb_le 0 v)), (proj2 (Z.ltb_lt v (2 ^ 30))) by lia. cbn [andb]. rewrite bind_ok_l.
  change (state_at (sh_states s) v) with (at_ s v). destruct (Z.eqb_spec (Pwsa.h (at_ s v)) (-1)) as [E1|E1].
  - destruct Hv as [x Hx]. destruct (heuristic_law _ _ _ I Hx) as (hv & Eh & _). rewrite Eh, bind_ok_l.
    assert (Hg : forall y, Pwsa.gpred (at_ (set_at s v (set_h hv)) y) = Pwsa.gpred (at_ s y)).
    { intros y. rewrite at_set. case_decide as Hd; [subst y|]; reflexivity. }
    exists (set_at s v (set_h hv)). split; [rewrite at_set, decide_True by reflexivity; reflexivity|].
    split; [apply (planner_found_same s); [exact F|exact I|reflexivity|exact Hg]|]. split; [reflexivity|exact Hg].
  - exists s. auto.
Qed.

Abbreviation route := (WAStarSpec.route succ max_id max_deg max_cost max_heur source).

Lemma planner_path_loop_ok fuel (p : pwsaPlanner E) cur lc acc sol : max_cost <= WAStarPlanner.INFINITECOST -> start_state_id p = source ->
  found (shared_ p) -> chain (parent (shared_ p)) source cur lc -> (forall v, v ∈ lc -> dist (shared_ p) v < INT_MAX) ->
  (length lc <= fuel)%nat -> 0 <= sol -> sol + dist (shared_ p) cur < INT_MAX ->
  exists s' c, path_loop fuel p cur acc sol = Ok (acc ++ tail lc, sol + c, set_shared s' p) /\
    env_le (sh_env (shared_ p)) (sh_env s') /\ found s' /\ route (sh_env s') cur (reverse lc) c /\ c <= dist (shared_ p) cur.
Proof.
  intros Hinf. revert p cur lc acc sol. induction fuel as [|fuel IH]; intros p cur lc acc sol Hst F Hc Hd Hf Hs0 Hs.
  { inversion Hc; subst; cbn in Hf; lia. }
  pose proof (fd_env _ F) as Ie. cbn [path_loop]. rewrite Hst. inversion Hc as [Hcur|cur' lc' Hne Hc' Hcur]; subst.
  - rewrite Z.eqb_refl. exists (shared_ p), 0. rewrite app_nil_r, Z.add_0_r.
    split; [destruct p; reflexivity|]. split; [reflexivity|]. split; [exact F|].
    split; [constructor|rewrite (fd_source _ F); lia].
  - rewrite (proj2 (Z.eqb_neq _ _) Hne). cbv zeta. assert (Hdc : dist (shared_ p) cur < INT_MAX) by (apply Hd; left).
    fold (parent (shared_ p) cur) (dist (shared_ p) cur).
    destruct (fd_parent _ F cur Hne Hdc) as (w & Hedge & Hw). pose proof (fd_known _ F cur Hdc) as [n' Hn].
    set (u := parent (shared_ p) cur) in *. pose proof Hedge as (nu & n'' & Hu & Hn' & _).
    pose proof (node_range _ _ _ Ie Hu) as Hr. rewrite (proj2 (Z.eqb_neq u (-1))), (proj2 (Z.eqb_neq _ INT_MAX)) by lia.
    destruct (succs_law _ _ _ Ie Hu) as (ids & costs & e1 & -> & Ie1 & L1 & Hids' & ->). rewrite bind_ok_l.
    pose proof (WAStarSpec.edge_mono _ _ _ _ _ _ _ _ _ _ L1 Hedge) as Hedge1. pose proof (node_mono _ _ _ _ L1 Hu) as Hu1.
    destruct (WAStarSpec.action_cost_ok _ _ _ _ _ e1 u cur nu ids w Hinf Ie1 Hu1 Hids' Hedge1) as (c1 & -> & Hc1 & Hmin1). rewrite bind_ok_l.
    pose proof (Hmin1 w Hedge1) as Hle. pose proof (WAStarSpec.edge_cost _ _ _ _ _ _ _ _ _ Hc1) as Hc10.
    pose proof (WAStarSpec.edge_cost _ _ _ _ _ _ _ _ _ Hedge) as Hw0. pose proof (fd_nonneg _ F u) as Hu0.
    rewrite add_int_in by (unfold int_min; change (int_max int32) with INT_MAX; lia). rewrite bind_ok_l.
    set (s1 := mkShared e1 (sh_states (shared_ p))).
    destruct (found_GetState s1 u) as (s2 & E2 & F2 & Ee2 & Eg2).
    { apply (planner_found_same (shared_ p)); [exact F|exact Ie1|exact L1|reflexivity]. }
    { exists nu. exact Hu1. }
    change (shared_ (set_shared s1 p)) with s1. rewrite E2, bind_ok_l.
    assert (Hd2 : forall v, dist s2 v = dist (shared_ p) v) by (intros v; unfold dist; rewrite Eg2; reflexivity).
    destruct (IH (set_shared s2 (set_shared s1 p)) u lc' (acc ++ [u]) (sol + c1)) as (s' & c & E1 & L & F' & R & Hcle).
    + exact Hst.
    + exact F2.
    + eapply chain_ext; [exact Hc'|]. intros y _. cbn. unfold parent. rewrite Eg2. reflexivity.
    + intros v Hv. cbn. rewrite Hd2. apply Hd. right. exact Hv.
    + cbn [length] in Hf. lia.
    + lia.
    + cbn [shared_ set_shared]. rewrite Hd2. lia.
    + cbn [shared_ set_shared] in *. rewrite Hd2 in Hcle. rewrite Ee2 in L. exists s', (c + c1). rewrite E1.
      destruct (chain_head _ _ _ _ Hc') as [l'' ->]. cbn [tail].
      split; [f_equal; f_equal; f_equal; [rewrite <- (assoc_L (++)); reflexivity|lia]|].
      split; [etransitivity; [exact L1|exact L]|]. split; [exact F'|]. split; [|lia].
      rewrite (reverse_cons (u :: l'') cur). econstructor; [exact R|eapply WAStarSpec.edge_mono; [exact L|exact Hc1]|].
      intros w' Hw'. apply Hmin1. eapply WAStarSpec.edge_back; [exact L|exact Hu1|eapply node_mono; eassumption|exact Hw'].
Qed.
Lemma planner_GetSearchPath_ok fuel (p : pwsaPlanner E) : max_cost <= WAStarPlanner.INFINITECOST -> start_state_id p = source ->
  goal_state_id p = destination -> found (shared_ p) -> max_id <= Z.of_nat fuel ->
  exists s' l c, GetSearchPath fuel p = Ok (l, c, set_shared s' p) /\ env_le (sh_env (shared_ p)) (sh_env s') /\
    env_inv (sh_env s') /\ route (sh_env s') destination l c /\ c <= dist (shared_ p) destination.
Proof.
  intros Hinf Hst Hg F Hf. unfold GetSearchPath. rewrite Hg. destruct (fd_chain _ F) as (lc & Hc & Hd).
  destruct (planner_path_loop_ok fuel p destination lc [destination] 0 Hinf Hst F Hc Hd) as (s' & c & -> & L & F' & R & Hle).
  - enough (Z.of_nat (length lc) <= max_id) by lia. rewrite <- (Z.max_r 0 max_id) by lia.
    apply NoDup_range_length; [eapply chain_nodup; exact Hc|]. intros x Hx.
    exact (known_range _ _ _ _ _ _ _ (fd_env _ F) (fd_known _ F x (Hd x Hx))).
  - lia.
  - apply (fd_goal _ F).
  - rewrite bind_ok_l, reverse_in_place_rev, bind_ok_l. exists s', (reverse lc), c.
    destruct (chain_head _ _ _ _ Hc) as [l' ->]. pose proof (fd_env _ F'). auto.
Qed.

(** ** [replan] *)

Lemma unreached_ensure (s : shared_state) e : unreached s -> env_inv e -> env_le (sh_env s) e -> unreached (mkShared e (sh_states s)).
Proof.
  intros (I & M & U) I' L. split; [exact I'|]. split; [|exact U]. intros v. destruct (M v) as [H1|[[x Hx] Hh]]; [auto|right].
  split; [exists x; eapply node_mono; eassumption|]. cbn [sh_env]. rewrite (heuristic_mono _ _ _ _ I I' L Hx). exact Hh.
Qed.

Lemma planner_initializeSearch_ok (p : pwsaPlanner E) : env_inv (sh_env (shared_ p)) -> sh_states (shared_ p) = ∅ ->
  known (sh_env (shared_ p)) (start_state_id p) -> known (sh_env (shared_ p)) (goal_state_id p) ->
  exists s', initializeSearch p = Ok (set_shared s' p) /\ unreached s' /\ env_le (sh_env (shared_ p)) (sh_env s').
Proof.
  intros I Ht Hs Hg. assert (U : unreached (shared_ p)).
  { split; [exact I|]. split; [left|]; intros; unfold at_, state_at; rewrite Ht, lookup_empty; reflexivity || auto. }
  unfold initializeSearch. destruct (planner_GetState_ok _ _ I Hg (proj1 (proj2 U))) as (s1 & -> & S1 & M1 & _). rewrite bind_ok_l.
  pose proof (planner_unreached_same _ _ U S1 M1) as U1. destruct S1 as [Ee1 _].
  destruct (planner_GetState_ok s1 (start_state_id p)) as (s2 & -> & S2 & M2 & _); [apply U1|rewrite Ee1; exact Hs|exact M1|]. rewrite bind_ok_l.
  pose proof (planner_unreached_same _ _ U1 S2 M2) as U2. destruct S2 as [Ee2 _].
  destruct (ensure_law _ true (proj1 U2)) as (e & -> & I' & L). rewrite bind_ok_l. eexists. split; [reflexivity|].
  split; [apply unreached_ensure; assumption|]. cbn [sh_env]. rewrite <- Ee1, <- Ee2. exact L.
Qed.

Lemma Search_finish_ok fuel (g : state) (p : pwsaPlanner E) : max_cost <= WAStarPlanner.INFINITECOST -> start_state_id p = source ->
  goal_state_id p = destination -> found (shared g) -> max_id <= Z.of_nat fuel ->
  exists s' l c, Search_finish fuel g p = Ok (true, l, Some c, set_shared s' p) /\ env_le (sh_env (shared g)) (sh_env s') /\
    env_inv (sh_env s') /\ route (sh_env s') destination l c.
Proof.
  intros Hinf Hst Hg F Hf. unfold Search_finish. rewrite Hg.
  destruct (found_GetState _ destination F (fd_known _ F _ (fd_goal _ F))) as (s1 & -> & F1 & Ee & _). rewrite bind_ok_l. cbv zeta.
  fold (dist s1 destination). pose proof (fd_goal _ F1) as Hd. rewrite (proj2 (Z.eqb_neq _ INT_MAX)) by lia.
  destruct (planner_GetSearchPath_ok fuel (set_shared s1 p) Hinf Hst Hg F1 Hf) as (s' & l & c & -> & L & I' & R & _).
  rewrite bind_ok_l. exists s', l, c. split; [reflexivity|]. cbn [shared_ set_shared] in L. rewrite Ee in L. auto.
Qed.
End specs.

(** The whole planner, with its constants. *)
Section replans.
Context {E C H : Type} {eops : EnvOps E} {cops : EnvCallOps E C} {hops : HeapOps H} {hlaws : HeapLaws H}.
Context {Node : Type} (succ : Node -> list (Node * Z)) (max_id max_deg max_cost max_heur : Z).
Context {elaws : EnvLaws (E := E) succ max_id max_deg max_cost max_heur}.
Context {claws : EnvCallLaws (C := C) succ max_id max_deg max_cost max_heur}.
Context (Hids : 0 <= max_id <= 2 ^ 30) (Hcost : 0 <= max_cost).
Context (ka kh : Z) (Hka : 0 <= ka) (Hkh : 0 <= kh) (Hk : ka + kh <= 30) (Hheur : max_heur <= 2 ^ kh).
Context (Hfit : max_id * max_cost + 2 ^ (ka + kh) < INT_MAX).

Abbreviation node := (Environment.node succ).
Abbreviation env_inv := (Environment.env_inv succ).
Abbreviation env_le := (Environment.env_le succ).
Abbreviation known := (EnvGraph.known succ max_id max_deg max_cost max_heur).
Abbreviation closed := (EnvGraph.closed succ max_id max_deg max_cost max_heur).
Abbreviation graph_of := (EnvGraph.graph_of succ max_id max_deg max_cost max_heur).
Abbreviation planner := (pwsaPlanner E).
Abbreviation state := (global H Z (PwsaPlanner.shared_state E) (PwsaPlanner.point C)).
Abbreviation refined q := (PwsaPlannerSpec.refined (C := C) (H := H) succ max_id max_deg max_cost max_heur (eps q) (start_state_id q)
  (goal_state_id q) split_cutoff poll_cutoff (num_threads q)).

(** A planner about to search. *)
Definition ready (q : planner) : Prop := Doubles.upto ka (eps q) /\ env_inv (sh_env (shared_ q)) /\ sh_states (shared_ q) = ∅ /\
  known (sh_env (shared_ q)) (start_state_id q) /\ known (sh_env (shared_ q)) (goal_state_id q).

Lemma one_split : 1 <= split_cutoff. Proof. vm_compute. discriminate. Qed.

Lemma launch_ok leader (q : planner) : ready q -> exists s' (g0 : state), Search_launch leader q = Ok (set_shared s' q, g0) /\
  env_le (sh_env (shared_ q)) (sh_env s') /\ known (sh_env s') (start_state_id q) /\ refined q leader (sh_env s') g0.
Proof using All.
  intros (He & I & Ht & Hs & Hg). unfold Search_launch.
  destruct (planner_initializeSearch_ok succ max_id max_deg max_cost max_heur Hids ka kh Hkh q I Ht Hs Hg) as (s' & -> & U & L).
  rewrite bind_ok_l. assert (Hs' : known (sh_env s') (start_state_id q)) by (eapply known_mono; eassumption).
  destruct (refined_start succ max_id max_deg max_cost max_heur Hids (eps q) ka kh Hka Hkh Hk He Hheur (start_state_id q)
    (goal_state_id q) split_cutoff poll_cutoff (num_threads q) leader s' U Hs') as (g0 & E0 & R).
  unfold run_pwsa. cbn [eps start_state_id goal_state_id set_shared shared_].
  rewrite E0, bind_ok_l. exists s', g0. auto.
Qed.
Section runs.
Context (leader : Z) (q : planner) (Hq : ready q) (q1 : planner) (g0 : state) (Hl : Search_launch leader q = Ok (q1, g0)).

Lemma launched : exists s', q1 = set_shared s' q /\ env_le (sh_env (shared_ q)) (sh_env s') /\
  known (sh_env s') (start_state_id q) /\ refined q leader (sh_env s') g0.
Proof using All.
  destruct (launch_ok leader q Hq) as (s' & g & E1 & L & Hs & R). rewrite Hl in E1. injection E1 as -> ->. exists s'. auto.
Qed.

Lemma run_refined g : rtc (worker_step q1) g0 g -> exists s', q1 = set_shared s' q /\ env_le (sh_env (shared_ q)) (sh_env s') /\
  known (sh_env s') (start_state_id q) /\ refined q leader (sh_env s') g.
Proof using All.
  intros Hr. destruct launched as (s' & -> & L & Hs & R). exists s'. split; [reflexivity|]. split; [exact L|]. split; [exact Hs|].
  eapply (refined_run succ max_id max_deg max_cost max_heur Hids Hcost (eps q) ka kh Hka Hkh Hk (proj1 Hq) Hheur Hfit); [exact one_split|exact Hs|exact R|exact Hr].
Qed.

(** C2: the concurrent planner refines the parallel search on a graph.  Whatever
    state the workers reach, in any interleaving and with ids created in any
    order, and however the environment is later grown until every state it
    knows has its successors: [pwsa_pc] on the graph of its ids can reach a state
    with the same flag and the same table. *)
Theorem planner_refines_pwsa g es : rtc (worker_step q1) g0 g -> env_inv es -> closed es -> env_le (sh_env (shared g)) es ->
  exists h0 h, Pwsa.start (H := H) int32 false (graph_of es) (PwsaPlannerSim.heur succ max_id max_deg max_cost max_heur (eps q) es)
      (start_state_id q) (goal_state_id q) split_cutoff poll_cutoff leader false = Ok h0 /\
    rtc (step (body := Pwsa.pwsa_body int32 false (graph_of es) (PwsaPlannerSim.heur succ max_id max_deg max_cost max_heur (eps q) es)
      (goal_state_id q) split_cutoff poll_cutoff) (num_threads q)) h0 h /\
    is_done h = is_done g /\ forall v, 0 <= v < max_id -> exists a, aget (Pwsa.sh_states (shared h)) v = Ok a /\
      Pwsa.is_expanded a = Pwsa.is_expanded (at_ (shared g) v) /\ Pwsa.gpred a = Pwsa.gpred (at_ (shared g) v).
Proof using Hids Hcost Hka Hkh Hk Hheur Hfit Hq Hl hlaws claws.
  intros Hr Ies Cl L. destruct (run_refined g Hr) as (s' & _ & _ & _ & _ & _ & K). destruct (K es Ies Cl L) as (h0 & h & E0 & R & Hrel).
  exists h0, h. split; [exact E0|]. split; [exact R|]. split; [symmetry; apply (re_done _ _ _ _ Hrel)|].
  intros v Hv. destruct (sr_at _ _ _ _ _ _ _ _ _ (re_shared _ _ _ _ Hrel) v Hv) as (a & Ha & Hx & Hg & _). eauto.
Qed.

Lemma planner_error (g : state) id c e : rtc (worker_step q1) g0 g -> 0 <= id < num_threads q ->
  wstep (body := planner_body q1) id c g = Err e ->
  (e = AssertFailed /\ is_done g = true /\ pc_of g id = AssertSize 0) \/
  (e = SignedOverflow /\ exists st, pc_of g id = Work (Loop st) /\ in_int int32 (w_priv (workers g id) + st) = false).
Proof using Hids Hcost Hka Hkh Hk Hheur Hfit Hq Hl hlaws claws.
  intros Hr Hid He. destruct (run_refined g Hr) as (s' & -> & _ & Hs & R).
  eapply (refined_error succ max_id max_deg max_cost max_heur Hids Hcost (eps q) ka kh Hka Hkh Hk (proj1 Hq) Hheur Hfit); [exact one_split|exact Hs|exact R|eassumption..].
Qed.

Lemma finish_ok fuel (g : state) i : max_cost <= WAStarPlanner.INFINITECOST -> rtc (worker_step q1) g0 g -> returned g i -> max_id <= Z.of_nat fuel ->
  exists s' l c, Search_finish fuel g q1 = Ok (true, l, Some c, set_shared s' q1) /\ env_le (sh_env (shared_ q)) (sh_env s') /\
    env_inv (sh_env s') /\ WAStarSpec.route succ max_id max_deg max_cost max_heur (start_state_id q) (sh_env s') (goal_state_id q) l c.
Proof using All.
  intros Hinf Hr Hi Hf. destruct (run_refined g Hr) as (s' & -> & L & Hs & R). pose proof (proj1 (proj2 R)) as L1.
  assert (F := refined_found succ max_id max_deg max_cost max_heur Hids Hcost (eps q) ka kh Hka Hkh Hk (proj1 Hq) Hheur Hfit (start_state_id q)
    (goal_state_id q) split_cutoff poll_cutoff (num_threads q) leader one_split (sh_env s') g i Hs R Hi).
  destruct (Search_finish_ok succ max_id max_deg max_cost max_heur Hids Hcost ka kh Hka Hkh Hfit (start_state_id q) (goal_state_id q)
    fuel g (set_shared s' q) Hinf eq_refl eq_refl F Hf) as (s2 & l & c & E1 & L2 & I2 & R2).
  exists s2, l, c. split; [exact E1|]. split; [etransitivity; [exact L|etransitivity; [exact L1|exact L2]]|]. auto.
Qed.
End runs.


(** Whatever the workers do, [replan] between known states returns 1 with the
    ids of a path from the start to the goal, by arcs that are each the cheapest
    between their ends, and their exact total, or stops with an error of one of
    two kinds; when the goal cannot be reached it does not return. *)
Lemma planner_replan_correct fuel leader source destination eps0 threads (p : planner) ns nd r :
  max_cost <= WAStarPlanner.INFINITECOST -> Doubles.upto ka eps0 -> env_inv (sh_env (shared_ p)) -> 1 <= threads ->
  node (sh_env (shared_ p)) source = Some ns -> node (sh_env (shared_ p)) destination = Some nd -> max_id <= Z.of_nat fuel ->
  replan (H := H) fuel leader source destination eps0 threads p r ->
  (exists l c p' path, r = Ok (1, Some (l, c), p') /\ env_le (sh_env (shared_ p)) (sh_env (shared_ p')) /\ env_inv (sh_env (shared_ p')) /\
     node (sh_env (shared_ p')) <$> l = Some <$> path /\ WAStarSpec.path_of succ ns nd path c) \/
  r = Err AssertFailed \/ r = Err SignedOverflow.
Proof using Hids Hcost Hka Hkh Hk Hheur Hfit hlaws claws.
  intros Hinf He I Ht Hs Hd Hf Hr. pose proof (node_range _ _ _ I Hs) as Hr1. pose proof (node_range _ _ _ I Hd) as Hr2.
  set (q := mkPlanner (mkShared (sh_env (shared_ p)) ∅) eps0 threads source destination).
  assert (Eb : replan_begin source destination eps0 threads p = inr q).
  { unfold replan_begin, set_start, set_goal. cbn. rewrite !(proj2 (Z.ltb_ge _ 0)) by lia. reflexivity. }
  assert (Hq : ready q) by (split; [exact He|]; split; [exact I|]; split; [reflexivity|]; split; eexists; eassumption).
  destruct (launch_ok leader q Hq) as (s0 & g00 & El & _).
  inversion Hr as [? ? E1|? ? E1 E2|q' q1 g0 g id c e E1 E2 Hst Hid E3|q' q1 g0 g id E1 E2 Hst Hid Hds|q' q1 g0 g E1 E2 Hst Hret]; subst; rewrite Eb in E1; try discriminate;
    injection E1 as <-; [congruence| | |].
  - right. pose proof E2 as E2'. rewrite El in E2'. injection E2' as <- <-.
    destruct (planner_error leader q Hq _ _ E2 g id c e Hst Hid E3) as [[-> _]|[-> _]]; auto.
  - right. left. reflexivity.
  - left. pose proof E2 as E2'. rewrite El in E2'. injection E2' as <- <-.
    destruct (finish_ok leader q Hq _ _ E2 fuel g 0 Hinf Hst (Hret 0 ltac:(cbn; lia)) Hf) as (s' & l & c & -> & L & I' & R).
    rewrite bind_ok_l. cbn [replan_end]. rewrite bind_ok_l.
    destruct (WAStarSpec.route_path succ max_id max_deg max_cost max_heur source (sh_env s') ns destination nd l c) as (path & Hp & Pth).
    + eapply node_mono; [exact L|exact Hs].
    + eapply node_mono; [exact L|exact Hd].
    + exact R.
    + exists l, c. eexists. exists path. split; [reflexivity|]. auto.
Qed.
End replans.
End PwsaPlannerSpec.
