(* ===== verification/PwsaPlannerProps.v ===== *)
(** * The concurrent planner on a 2D grid map

    The composition of the planner, its heaps and the grid environment, whose
    ids the workers create between them. *)

From S2P Require Import Prelude.
From S2P Require Import Doubles.
From S2P Require Import Environment.
From S2P Require Import Interfaces.
From S2P Require Import BinHeap.
From S2P Require Import ParWhile.
From S2P Require Import Pwsa.
From S2P Require Import WAStarSpec.
From S2P Require Import Nav2D.
From S2P Require Import Nav2DSpec.
From S2P Require Import Nav2DEnv.
From S2P Require Import Nav2DCalls.
From S2P Require Import Nav2DProps.
From S2P Require Import WAStarProps.
From S2P Require Import EnvGraph.
From S2P Require Import PwsaPlanner.
From S2P Require Import PwsaPlannerSim.
From S2P Require Import PwsaPlannerSpec.

Module PwsaPlannerProps.
Import ParWhile EnvGraph PwsaPlanner PwsaPlannerSpec Nav2D Nav2DSpec Nav2DEnv Nav2DCalls Nav2DProps.
#[local] Existing Instances BinHeap.Heap_ops BinHeap.Heap_laws.

Abbreviation heap := (BinHeap.Heap Z).
Abbreviation grid_planner := (pwsaPlanner EnvironmentNAV2D).
Abbreviation grid_replan := (replan (E := EnvironmentNAV2D) (C := GetSuccs_call) (H := heap)).
Abbreviation environment p := (sh_env (shared_ p)).
Abbreviation cells_of p := (EnvWidth_c (cfg (environment p)) * EnvHeight_c (cfg (environment p))).

(** C3: concurrent planning on a grid map.  For any number of threads, one
    included, and any interleaving: every outcome of [replan] between the start
    and the goal of the map is a failed assertion (the protocol's, or the one of
    [random_other] when a single worker runs out of states), the overflow of a
    step counter, or the ids of a sequence of cells from start to goal by legal
    moves with their exact total: it never answers when there is none.  The map
    may have up to 1883 cells ([cells * (255 * 2236) + 2^30 < INT_MAX]) and
    [eps] is at most 2^4; that some run ends is not claimed. *)
Theorem grid_concurrent_replan fuel leader eps0 threads (p : grid_planner) sc gc r :
  env_ok (environment p) -> Doubles.upto 4 eps0 -> 1 <= threads ->
  GetCoordFromState (environment p) (startstateid (environment p)) = Ok sc ->
  GetCoordFromState (environment p) (goalstateid (environment p)) = Ok gc ->
  cells_of p * (255 * 2236) + 2 ^ 30 < INT_MAX -> cells_of p <= Z.of_nat fuel ->
  grid_replan fuel leader (startstateid (environment p)) (goalstateid (environment p)) eps0 threads p r ->
  (exists ids cost p' cells, r = Ok (1, Some (ids, cost), p') /\ env_ok (environment p') /\
     GetCoordFromState (environment p') <$> ids = Ok <$> cells /\
     WAStarSpec.path_of (grid_succ (cfg (environment p)) gc) sc gc cells cost) \/
  r = Err AssertFailed \/ r = Err SignedOverflow.
Proof.
  intros I He Ht Hs Hg Hfit Hf Hr. set (C := eo_cfg _ I).
  assert (Hcell : forall e i q, GetCoordFromState e i = Ok q <-> cell_of e i = Some q).
  { intros e i q. unfold cell_of, GetCoordFromState. destruct (aget _ i); cbn; split; congruence. }
  apply Hcell in Hs, Hg. pose proof (WAStarProps.map_size _ C) as Hsize.
  destruct (planner_replan_correct (H := heap) (elaws := Nav2D_env_laws _ C gc) (claws := Nav2D_call_laws _ C gc)
    (grid_succ (cfg (environment p)) gc) (cells_of p) 16 (255 * 2236) (2 ^ 26) ltac:(lia) ltac:(lia) 4 26 ltac:(lia) ltac:(lia) ltac:(lia) ltac:(lia)
    Hfit fuel leader (startstateid (environment p)) (goalstateid (environment p)) eps0 threads p sc gc r ltac:(vm_compute; discriminate) He)
    as [(ids & cost & p' & cells & E & L & [I' _ _] & Hn & Pth)|K]; auto.
  - split; [exact I|reflexivity|exact Hg].
  - left. exists ids, cost, p', cells. split; [exact E|]. split; [exact I'|]. split; [|exact Pth].
    apply WAStarProps.cells_coords; [exact Hcell|exact Hn].
Qed.

(** ** Two workers on the sample map *)

Definition sample_planner : grid_planner := mkPlanner (mkShared sample_env ∅) (Doubles.of_int 1) 2 (-1) (-1).
Definition sample_ready : grid_planner :=
  mkPlanner (mkShared sample_env ∅) (Doubles.of_int 1) 2 (startstateid sample_env) (goalstateid sample_env).
Abbreviation st := (global heap Z (shared_state EnvironmentNAV2D) (point GetSuccs_call)).

Definition launch : res (grid_planner * st) := Search_launch 0 sample_ready.
Lemma launch_def : launch = Search_launch 0 sample_ready. Proof. reflexivity. Qed.
Definition launched_planner : grid_planner := match launch with Ok (p, _) => p | Err _ => sample_ready end.
(** [k] steps of worker 0, then one of worker 1. *)
Definition alone (k : nat) : list (Z * choice) := repeat (0, mkChoice 1 false) k ++ [(1, mkChoice 0 false)].

Definition final : res st := '(p, g) ← launch; run (body := planner_body p) (alone 300) g.

Definition is_returned (g : st) (i : Z) : bool := match w_pc (workers g i) with Halted | Abandoned _ => true | _ => false end.

Lemma is_returned_spec g i : is_returned g i = true -> returned g i.
Proof. unfold is_returned, returned. destruct (w_pc (workers g i)); intros; exact Logic.I || discriminate. Qed.

Definition finishes (p : grid_planner) (g : st) : bool := is_ok (r ← Search_finish 100 g p; replan_end r).

Lemma launch_eq : exists g0, launch = Ok (launched_planner, g0) /\ exists g, run (body := planner_body launched_planner) (alone 300) g0 = Ok g /\
  (forall i, 0 <= i < 2 -> returned g i) /\ finishes launched_planner g = true.
Proof.
  assert (Hf : is_ok final = true) by (vm_compute; reflexivity). apply is_ok_true in Hf as [g Hg].
  assert (Hh : match final with Ok g => is_returned g 0 && is_returned g 1 && finishes launched_planner g | Err _ => false end = true)
    by (vm_compute; reflexivity).
  rewrite Hg in Hh. unfold final in Hg. assert (El : is_ok launch = true) by (vm_compute; reflexivity).
  apply is_ok_true in El as [[p1 g0] El]. assert (Ep : launched_planner = p1) by (unfold launched_planner; rewrite El; reflexivity).
  rewrite El, bind_ok_l in Hg. rewrite Ep in *. exists g0. split; [exact El|]. exists g. split; [exact Hg|].
  apply andb_true_iff in Hh as [[H0 H1]%andb_true_iff Hok]. split; [|exact Hok].
  intros i Hi. apply is_returned_spec. assert (i = 0 \/ i = 1) as [-> | ->] by lia; assumption.
Qed.

Lemma alone_valid k : Forall (fun e => valid 2 e = true) (alone k).
Proof.
  unfold alone. apply Forall_app_2; [|repeat constructor]. apply Forall_forall. intros e He.
  apply list_elem_of_In, repeat_spec in He as ->. reflexivity.
Qed.

Lemma sample_run : exists g0 g, launch = Ok (launched_planner, g0) /\ rtc (worker_step launched_planner) g0 g /\
  (forall i, 0 <= i < 2 -> returned g i) /\ finishes launched_planner g = true.
Proof.
  destruct launch_eq as (g0 & El & g & Hr & Hret & Hok). exists g0, g. split; [exact El|]. split; [|auto].
  assert (Hn : num_threads launched_planner = 2) by (vm_compute; reflexivity). unfold worker_step. rewrite Hn.
  apply (run_rtc (body := planner_body launched_planner) 2 (alone 300)); [apply alone_valid|exact Hr].
Qed.

(** ** One worker, the default *)

Definition single_ready : grid_planner :=
  mkPlanner (mkShared sample_env ∅) (Doubles.of_int 1) 1 (startstateid sample_env) (goalstateid sample_env).
Definition single_launch : res (grid_planner * st) := Search_launch 0 single_ready.
Lemma single_launch_eq : single_launch = Search_launch 0 single_ready. Proof. reflexivity. Qed.
Definition single_planner : grid_planner := match single_launch with Ok (p, _) => p | Err _ => single_ready end.

(** The worker alone reaches the goal, and the solution is read off. *)
Lemma single_run : exists g0 g, single_launch = Ok (single_planner, g0) /\ rtc (worker_step single_planner) g0 g /\
  (forall i, 0 <= i < 1 -> returned g i) /\ finishes single_planner g = true.
Proof.
  assert (Hf : match single_launch with
    | Ok (p, g0) => match run_alone (body := planner_body p) 300 g0 with
                    | Some g => is_returned g 0 && finishes p g
                    | None => false
                    end
    | Err _ => false
    end = true) by (vm_compute; reflexivity).
  unfold single_planner. destruct single_launch as [[p g0]|] eqn:El; [|discriminate].
  destruct (run_alone 300 g0) as [g|] eqn:Er; [|discriminate]. apply andb_true_iff in Hf as [H0 Hok].
  assert (Hn : num_threads p = 1).
  { assert (Hp : match single_launch with Ok (p, _) => num_threads p | Err _ => 0 end = 1) by (vm_compute; reflexivity).
    rewrite El in Hp. exact Hp. }
  exists g0, g. split; [reflexivity|]. split; [|split; [|exact Hok]].
  - unfold worker_step. rewrite Hn. apply (run_alone_rtc (body := planner_body p) 1 300); [lia|exact Er].
  - intros i Hi. assert (i = 0) as -> by lia. apply is_returned_spec. exact H0.
Qed.

Lemma one_upto : Doubles.upto 4 (Doubles.of_int 1).
Proof. apply (Doubles.upto_mono 0); [lia|]. apply Doubles.of_int_upto; [lia|]. vm_compute. split; discriminate. Qed.

(** An outcome of [replan] after such a run. *)
Lemma outcome threads (q p1 : grid_planner) g0 g :
  replan_begin (startstateid sample_env) (goalstateid sample_env) (Doubles.of_int 1) threads sample_planner = inr q ->
  Search_launch 0 q = Ok (p1, g0) -> rtc (worker_step p1) g0 g ->
  (forall i, 0 <= i < num_threads p1 -> returned g i) -> finishes p1 g = true ->
  exists x, grid_replan 100 0 (startstateid sample_env) (goalstateid sample_env) (Doubles.of_int 1) threads sample_planner (Ok x).
Proof.
  intros Eq El Hr Hret Hok. apply is_ok_true in Hok as [y Hy]. apply bind_Ok in Hy as (z & Ez & Hy).
  pose proof (replan_returns 100 0 (startstateid sample_env) (goalstateid sample_env) (Doubles.of_int 1) threads sample_planner
    q p1 g0 g Eq El Hr Hret) as Hrep. rewrite Ez, bind_ok_l, Hy, bind_ok_l in Hrep. destruct y as [[code sol] p]. eauto.
Qed.

Lemma single_outcome : exists x,
  grid_replan 100 0 (startstateid sample_env) (goalstateid sample_env) (Doubles.of_int 1) 1 sample_planner (Ok x).
Proof.
  destruct single_run as (g0 & g & El & Hr & Hret & Hok). rewrite single_launch_eq in El. apply (outcome 1 single_ready single_planner g0 g).
  - vm_compute; reflexivity.
  - exact El.
  - exact Hr.
  - assert (Hn : num_threads single_planner = 1) by (vm_compute; reflexivity). rewrite Hn. exact Hret.
  - exact Hok.
Qed.

Lemma pair_outcome : exists x,
  grid_replan 100 0 (startstateid sample_env) (goalstateid sample_env) (Doubles.of_int 1) 2 sample_planner (Ok x).
Proof.
  destruct sample_run as (g0 & g & El & Hr & Hret & Hok). rewrite launch_def in El. apply (outcome 2 sample_ready launched_planner g0 g).
  - vm_compute; reflexivity.
  - exact El.
  - exact Hr.
  - assert (Hn : num_threads launched_planner = 2) by (vm_compute; reflexivity). rewrite Hn. exact Hret.
  - exact Hok.
Qed.

Definition answers (threads : Z) : Prop := exists ids cost p' cells,
  grid_replan 100 0 (startstateid sample_env) (goalstateid sample_env) (Doubles.of_int 1) threads sample_planner (Ok (1, Some (ids, cost), p')) /\
  WAStarSpec.path_of (grid_succ (cfg sample_env) (3, 2)) (0, 0) (3, 2) cells cost.

(** With one thread and with two. *)
Lemma grid_concurrent_replan_witness : answers 1 /\ answers 2.
Proof.
  assert (Hall : forall threads x, 1 <= threads ->
    grid_replan 100 0 (startstateid sample_env) (goalstateid sample_env) (Doubles.of_int 1) threads sample_planner (Ok x) -> answers threads);
    [intros threads x Hle Hrep|destruct single_outcome as [x Hx]; destruct pair_outcome as [y Hy]; split; eapply Hall; [|exact Hx| |exact Hy]; lia].
  destruct (grid_concurrent_replan 100 0 (Doubles.of_int 1) threads sample_planner (0, 0) (3, 2) _ sample_ok one_upto
    Hle ltac:(vm_compute; reflexivity) ltac:(vm_compute; reflexivity) ltac:(vm_compute; reflexivity) ltac:(vm_compute; discriminate) Hrep)
    as [(ids & cost & p' & cells & E & _ & _ & Pth)|[E|E]]; [|discriminate|discriminate].
  rewrite E in Hrep. exists ids, cost, p', cells. split; [exact Hrep|exact Pth].
Defined.

Definition sample_cfg_ok : cfg_ok (cfg sample_env) := eo_cfg _ sample_ok.
Abbreviation sample_succ := (grid_succ (cfg sample_env) (3, 2)).
Abbreviation sample_ids := (EnvWidth_c (cfg sample_env) * EnvHeight_c (cfg sample_env)).
#[local] Instance sample_laws : EnvLaws sample_succ sample_ids 16 (255 * 2236) (2 ^ 26) := Nav2D_env_laws _ sample_cfg_ok (3, 2).
#[local] Instance sample_call_laws : EnvCallLaws (C := GetSuccs_call) sample_succ sample_ids 16 (255 * 2236) (2 ^ 26) := Nav2D_call_laws _ sample_cfg_ok (3, 2).

Lemma sample_is_ready : ready sample_succ sample_ids 16 (255 * 2236) (2 ^ 26) 4 sample_ready.
Proof.
  split; [exact one_upto|]. split; [split; [exact sample_ok|reflexivity|vm_compute; reflexivity]|]. split; [reflexivity|].
  split; [exists (0, 0)|exists (3, 2)]; vm_compute; reflexivity.
Qed.


Lemma planner_refines_pwsa_witness : exists g0 (g : st) es, rtc (worker_step launched_planner) g0 g /\
  exists h0 (h : global heap Z Pwsa.shared_state Pwsa.point), Pwsa.start (H := heap) int32 false (graph_of sample_succ sample_ids 16 (255 * 2236) (2 ^ 26) es)
      (PwsaPlannerSim.heur sample_succ sample_ids 16 (255 * 2236) (2 ^ 26) (eps sample_ready) es)
      (startstateid sample_env) (goalstateid sample_env) split_cutoff poll_cutoff 0 false = Ok h0 /\ is_done h = is_done g.
Proof.
  destruct sample_run as (g0 & g & El & Hr & _ & _). rewrite launch_def in El.
  assert (Hex : env_inv sample_succ (sh_env (shared g))).
  { destruct (run_refined (H := heap) sample_succ sample_ids 16 (255 * 2236) (2 ^ 26) ltac:(vm_compute; split; discriminate) ltac:(lia) 4 26
      ltac:(lia) ltac:(lia) ltac:(lia) ltac:(lia) ltac:(vm_compute; reflexivity) 0 sample_ready sample_is_ready launched_planner g0 El g Hr)
      as (s' & _ & _ & _ & R). apply R. }
  destruct (completion sample_succ sample_ids 16 (255 * 2236) (2 ^ 26) _ Hex) as (es & Ies & L & Cl).
  exists g0, g, es. split; [exact Hr|].
  destruct (planner_refines_pwsa (H := heap) sample_succ sample_ids 16 (255 * 2236) (2 ^ 26) ltac:(vm_compute; split; discriminate) ltac:(lia) 4 26
    ltac:(lia) ltac:(lia) ltac:(lia) ltac:(lia) ltac:(vm_compute; reflexivity) 0 sample_ready sample_is_ready launched_planner g0 El g es Hr Ies Cl L)
    as (h0 & h & E0 & _ & Hd & _).
  exists h0, h. split; [exact E0|exact Hd].
Defined.
End PwsaPlannerProps.
