(* ===== verification/Wpanre.v ===== *)
(** * The lock-based parallel search (src/src/wpanre.hpp)

    [wpanre]: one frontier for all workers, guarded by a mutex ([Locked] of
    search_utils.hpp), and a table whose flags are atomic.  The workers are a
    step relation.  Accesses to the flag and to the g-value that [body] reads
    outside the lock are steps of their own; under the lock one arc is one
    step, since no other worker can look at what it writes except through
    those reads. *)

From S2P Require Import Prelude.
From S2P Require Import Interfaces.

Module Wpanre.
Record wpanre_state := mkState { is_expanded : bool; pred : Z; g : Z; h : Z }.

(** The object the search returns. *)
Record WPANREResult := mkResult {
  n : Z;
  states : list wpanre_state;
  pebbles : option (list Z);
}.

#[export] Instance WPANREResult_SearchResult : SearchResult WPANREResult := {|
  Interfaces.is_expanded r vertex := s ← aget (states r) vertex; Ok (is_expanded s);
  Interfaces.predecessor r vertex := s ← aget (states r) vertex; Ok (pred s);
  Interfaces.g r vertex := s ← aget (states r) vertex; Ok (g s);
  Interfaces.pebble r vertex :=
    match pebbles r with Some p => aget p vertex | None => Ok (-1) end;
|}.

(** ** [Locked] *)

(** The mutex: the worker that holds it. *)
Definition mutex : Type := option Z.

(** [pthread_mutex_lock]: [None] while the caller has to wait. *)
Definition mutex_lock (m : mutex) (id : Z) : option mutex :=
  match m with None => Some (Some id) | Some _ => None end.

Definition mutex_unlock (m : mutex) : mutex := None.

(** ** The workers *)

(** Where a worker is in [body].  [v] is the vertex it popped, -1 for none;
    [vdist] its g-value; [todo] the arcs still to relax. *)
Inductive pc :=
  | TestDone                                   (** [!is_done.load ()] *)
  | LockPop                                    (** [locked.action], entering *)
  | Pop                                        (** [frontier.size ()], [frontier.delete_min ()] *)
  | UnlockPop (v : Z)
  | TestExp (v : Z)                            (** [states[v].is_expanded.load ()] *)
  | CasExp (v : Z)                             (** [compare_exchange_strong (orig, true)] *)
  | SetDone                                    (** [is_done.store (true)] *)
  | ReadG (v : Z)                              (** [int vdist = states[v].g], without the lock *)
  | LockRelax (v vdist : Z)
  | Relax (v vdist : Z) (todo : list (Z * Z))  (** [for_each_neighbor_of] *)
  | UnlockRelax
  | Halted.

Section machine.
Context {G H : Type} {gops : GraphOps G} {hops : HeapOps H}.
Context (graph : G) (heuristic : Z -> Z) (source destination : Z).

Record global := mkGlobal {
  table : list wpanre_state;
  peb : option (list Z);
  frontier : H;
  locked : mutex;
  is_done : bool;
  workers : Z -> pc;
}.

Definition goto (s : global) (id : Z) (p : pc) : global :=
  mkGlobal (table s) (peb s) (frontier s) (locked s) (is_done s) (upd (workers s) id p).
Definition set_locked (s : global) (m : mutex) : global :=
  mkGlobal (table s) (peb s) (frontier s) m (is_done s) (workers s).

(** The memoised heuristic. *)
Definition my_heur (sts : list wpanre_state) (v : Z) : res (Z * list wpanre_state) :=
  a ← aget sts v;
  if h a =? -1 then
    sts ← aset sts v (mkState (is_expanded a) (pred a) (g a) (heuristic v));
    Ok (heuristic v, sts)
  else Ok (h a, sts).

(** The callback of [for_each_neighbor_of]. *)
Definition relax (v vdist nbr weight : Z) (sts : list wpanre_state) (f : H) :
    res (list wpanre_state * H) :=
  nbrdist ← add_int int32 vdist weight;
  a ← aget sts nbr;
  if nbrdist <? g a then
    '(hv, sts) ← my_heur sts nbr;
    p ← add_int int32 nbrdist hv;
    f ← h_insert p nbr f;
    a ← aget sts nbr;
    sts ← aset sts nbr (mkState (is_expanded a) v nbrdist (h a));
    Ok (sts, f)
  else Ok (sts, f).

(** The arcs on which [for_each_neighbor_of (v, f)] calls [f], in order. *)
Definition arcs_of (v : Z) : res (list (Z * Z)) :=
  for_each_neighbor_of graph v (fun nbr weight acc => Ok (acc ++ [(nbr, weight)])) [].

(** One step of worker [id].  A worker that waits for the lock stays where it
    is; [hiccup] and [yield] do nothing. *)
Definition wstep (id : Z) (s : global) : res global :=
  match workers s id with
  | TestDone => Ok (goto s id (if is_done s then Halted else LockPop))
  | LockPop =>
      match mutex_lock (locked s) id with
      | Some m => Ok (goto (set_locked s m) id Pop)
      | None => Ok s
      end
  | Pop =>
      if h_size (frontier s) =? 0 then Ok (goto s id (UnlockPop (-1)))
      else
        '(v, f) ← h_delete_min (frontier s);
        Ok (goto (mkGlobal (table s) (peb s) f (locked s) (is_done s) (workers s)) id (UnlockPop v))
  | UnlockPop v =>
      Ok (goto (set_locked s (mutex_unlock (locked s))) id (if v =? -1 then TestDone else TestExp v))
  | TestExp v =>
      a ← aget (table s) v;
      Ok (goto s id (if is_expanded a then TestDone else CasExp v))
  | CasExp v =>
      a ← aget (table s) v;
      if is_expanded a then Ok (goto s id TestDone)
      else
        sts ← aset (table s) v (mkState true (pred a) (g a) (h a));
        p ← match peb s with Some p => p ← aset p v id; Ok (Some p) | None => Ok None end;
        Ok (goto (mkGlobal sts p (frontier s) (locked s) (is_done s) (workers s)) id
              (if v =? destination then SetDone else ReadG v))
  | SetDone =>
      Ok (goto (mkGlobal (table s) (peb s) (frontier s) (locked s) true (workers s)) id Halted)
  | ReadG v => a ← aget (table s) v; Ok (goto s id (LockRelax v (g a)))
  | LockRelax v vdist =>
      match mutex_lock (locked s) id with
      | Some m => todo ← arcs_of v; Ok (goto (set_locked s m) id (Relax v vdist todo))
      | None => Ok s
      end
  | Relax v vdist [] => Ok (goto s id UnlockRelax)
  | Relax v vdist ((nbr, weight) :: todo) =>
      '(sts, f) ← relax v vdist nbr weight (table s) (frontier s);
      Ok (goto (mkGlobal sts (peb s) f (locked s) (is_done s) (workers s)) id (Relax v vdist todo))
  | UnlockRelax => Ok (goto (set_locked s (mutex_unlock (locked s))) id TestDone)
  | Halted => Ok s
  end.

Definition step (s s' : global) : Prop := exists id, wstep id s = Ok s'.

(** The code before [parallel_while]. *)
Definition start (pebble : bool) : res global :=
  let N := number_vertices graph in
  let sts := replicate (Z.to_nat N) (mkState false (-1) INT_MAX (-1)) in
  let p := if pebble then Some (replicate (Z.to_nat N) (-1)) else None in
  a ← aget sts source;
  sts ← aset sts source (mkState (is_expanded a) (pred a) 0 (h a));
  '(heur, sts) ← my_heur sts source;
  f ← h_insert heur source h_new;
  Ok (mkGlobal sts p f None false (fun _ => TestDone)).

(** What [wpanre] returns when [parallel_while] is over. *)
Definition result (s : global) : WPANREResult :=
  mkResult (number_vertices graph) (table s) (peb s).

(** Runs along a schedule. *)
Fixpoint run (sched : list Z) (s : global) : res global :=
  match sched with
  | [] => Ok s
  | id :: sched => s ← wstep id s; run sched s
  end.

Lemma wpanre_run_steps sched s s' : run sched s = Ok s' -> rtc step s s'.
Proof.
  revert s; induction sched as [|id sched IH]; intros s E; cbn in E; inv_res.
  - constructor.
  - econstructor; [|apply IH; exact E]. exists id. assumption.
Qed.
End machine.
Arguments global : clear implicits.
End Wpanre.
