(* ===== verification/WpanreSpec.v ===== *)
(** * Properties of the lock-based search

    Wpanre.v keeps the invariant of PwsaInv.v: its table and program points are
    seen as those of PWSA*, and the shared frontier as the only frontier. *)

From S2P Require Import Prelude.
From S2P Require Import Interfaces.
From S2P Require Import BinHeap.
From S2P Require Import Paths.
From S2P Require Import SearchSpec.
From S2P Require Import WGraph.
From S2P Require Import GridGraphs.
From S2P Require Import Pwsa.
From S2P Require Import PwsaInv.
From S2P Require Import Wpanre.

Module WpanreSpec.
Import PwsaInv Wpanre.

(** ** The view as a state of PWSA* *)

Definition cell (a : wpanre_state) : Pwsa.pwsa_state :=
  Pwsa.mkState (is_expanded a) (Pwsa.mkPack (g a) (pred a)) (h a).

(** What a worker is doing, in the terms of [do_work]. *)
Definition point_of (p : pc) : option Pwsa.point :=
  match p with
  | UnlockPop v => if v =? -1 then None else Some (Pwsa.TestExp 0 v)
  | TestExp v => Some (Pwsa.TestExp 0 v)
  | CasExp v => Some (Pwsa.CasExp 0 v)
  | ReadG v => Some (Pwsa.LoadG 0 v)
  | Relax v vdist todo => Some (Pwsa.Arcs 0 v vdist todo)
  | _ => None
  end.

(** The worker is between [pthread_mutex_lock] and [pthread_mutex_unlock]. *)
Definition holds (p : pc) : bool :=
  match p with Pop | UnlockPop _ | Relax _ _ _ | UnlockRelax => true | _ => false end.

Section specs.
Context {G H : Type} {gops : GraphOps G} {hops : HeapOps H} {hlaws : HeapLaws H}.
Context (gr : G) {glaws : GraphLaws gr}.
Context (heuristic : Z -> Z) (source destination : Z) (Wmax Hmax : Z).
Context (pre : search_pre gr int32 heuristic source Wmax Hmax).

Abbreviation N := (number_vertices gr).
Abbreviation edge := (arc gr).
Abbreviation state := (global H).
Abbreviation wstep := (wstep gr heuristic destination).
Abbreviation steps := (rtc (step gr heuristic destination)).
Abbreviation pinv := (PwsaInv.pinv gr int32 heuristic source destination Wmax).
Implicit Types (s : state).

Definition view_of (sts : list wpanre_state) (p : option (list Z)) : Pwsa.shared_state :=
  Pwsa.mkShared (cell <$> sts) p.
Abbreviation table_of := (fun s => view_of (table s) (peb s)).

(** A worker that has loaded the g-value is waiting to relax the arcs. *)
Definition act_at (p : pc) : option Pwsa.point :=
  match p with
  | LockRelax v vdist => Some (Pwsa.Arcs 0 v vdist (succs gr v))
  | p => point_of p
  end.

Definition act_of (s : state) (i : Z) : option Pwsa.point := act_at (workers s i).

Lemma act_upd f id p i : act_at (upd f id p i) = upd (fun j => act_at (f j)) id (act_at p) i.
Proof. unfold upd. case_decide; reflexivity. Qed.

Record winv (s : state) (l : list (Z * Z)) (loaded : list Z) : Prop := {
  wi_frontier : h_rep (frontier s) l;
  wi_table : pinv (table_of s) (act_of s) (fun e => e ∈ l) loaded;
  wi_lock : forall i, holds (workers s i) = true <-> locked s = Some i;
  wi_done : is_done s = true \/ (exists i, workers s i = SetDone) ->
    E (table_of s) destination = true;
}.

Lemma views sts p x :
  D int32 (view_of sts p) x = aview g INT_MAX sts x /\ Pr (view_of sts p) x = aview pred (-1) sts x /\
  E (view_of sts p) x = aview is_expanded false sts x /\ Hv (view_of sts p) x = aview h (-1) sts x.
Proof.
  unfold D, Pr, E, Hv, aview, view_of. cbn. rewrite !aget_fmap. destruct (aget sts x); auto.
Qed.

Lemma view_get s l loaded x : winv s l loaded -> 0 <= x < N ->
  exists a, aget (table s) x = Ok a /\ D int32 (table_of s) x = g a /\ Pr (table_of s) x = pred a /\
    E (table_of s) x = is_expanded a /\ Hv (table_of s) x = h a.
Proof.
  intros I0 Hx. destruct (aget_in (table s) x) as [a Ea].
  { pose proof (pv_len _ _ _ _ _ _ _ _ _ _ (wi_table _ _ _ I0)) as L. cbn in L. rewrite length_fmap in L. lia. }
  exists a. destruct (views (table s) (peb s) x) as (-> & -> & -> & ->).
  rewrite !(aview_get _ _ _ _ _ Ea). auto.
Qed.

(** Writing one cell. *)
Lemma view_set sts p x a : 0 <= x < Z.of_nat (length sts) ->
  let s' := view_of (<[Z.to_nat x := a]> sts) p in
  (forall y, D int32 s' y = if decide (y = x) then g a else D int32 (view_of sts p) y) /\
  (forall y, Pr s' y = if decide (y = x) then pred a else Pr (view_of sts p) y) /\
  (forall y, E s' y = if decide (y = x) then is_expanded a else E (view_of sts p) y) /\
  (forall y, Hv s' y = if decide (y = x) then h a else Hv (view_of sts p) y).
Proof.
  intros Hx s'. unfold s'. split_and!; intros y;
    pose proof (views (<[Z.to_nat x := a]> sts) p y) as (V1 & V2 & V3 & V4);
    pose proof (views sts p y) as (W1 & W2 & W3 & W4);
    rewrite ?V1, ?V2, ?V3, ?V4, ?W1, ?W2, ?W3, ?W4; apply aview_insert; exact Hx.
Qed.

(** ** Steps *)

(** A step that leaves the table and the frontier alone. *)
Lemma winv_goto s l loaded id p m :
  winv s l loaded ->
  pinv (table_of s) (upd (act_of s) id
    (act_at p))
    (fun e => e ∈ l) loaded ->
  (holds p = true <-> m = Some id) ->
  (forall i, i <> id -> locked s = Some i <-> m = Some i) ->
  (p = SetDone -> E (table_of s) destination = true) ->
  winv (goto (set_locked s m) id p) l loaded.
Proof.
  intros [R T L Dn] T' Hp Hm Hd. split.
  - exact R.
  - eapply pinv_ext; [exact T'| |reflexivity]. intros i. apply act_upd.
  - intros i. cbn. unfold upd. case_decide as Ei; [subst; exact Hp|]. rewrite L. apply Hm. exact Ei.
  - intros [Hdn|[i Hi]]; [apply Dn; left; exact Hdn|]. cbn in Hi. unfold upd in Hi. case_decide; [auto|].
    apply Dn. right. exists i. exact Hi.
Qed.

Lemma winv_stay s l loaded id p : winv s l loaded ->
  pinv (table_of s) (upd (act_of s) id
    (act_at p))
    (fun e => e ∈ l) loaded ->
  holds p = holds (workers s id) ->
  (p = SetDone -> E (table_of s) destination = true) -> winv (goto s id p) l loaded.
Proof.
  intros I0 T Hh Hd.
  assert (winv (goto (set_locked s (locked s)) id p) l loaded) as I1; [|exact I1].
  apply winv_goto; [exact I0|exact T| |reflexivity|exact Hd]. rewrite Hh. apply (wi_lock _ _ _ I0).
Qed.

Lemma act_same s l loaded id o : winv s l loaded -> act_of s id = o ->
  pinv (table_of s) (upd (act_of s) id o) (fun e => e ∈ l) loaded.
Proof.
  intros [_ T _ _] Ho. eapply pinv_ext; [exact T| |reflexivity].
  intros i. unfold upd. case_decide; congruence.
Qed.

(** Outcome of a step of a worker: never an error; g-values only improve and
    flags stay set. *)
Definition step_ok (id : Z) s : Prop := exists s' l' loaded',
  wstep id s = Ok s' /\ winv s' l' loaded' /\
  (forall x, D int32 (table_of s') x <= D int32 (table_of s) x) /\
  (forall x, E (table_of s) x = true -> E (table_of s') x = true).

Lemma step_ok_same id s s' l' loaded' :
  wstep id s = Ok s' -> table s' = table s -> peb s' = peb s -> winv s' l' loaded' -> step_ok id s.
Proof.
  intros E1 Et Ep I1. exists s', l', loaded'. split; [exact E1|]. split; [exact I1|].
  rewrite Et, Ep. split; [intros; lia|auto].
Qed.

Section one_step.
Context (id : Z) (s : state) (l : list (Z * Z)) (loaded : list Z) (I0 : winv s l loaded).

Lemma act_is p : workers s id = p ->
  act_of s id = act_at p.
Proof. intros <-. reflexivity. Qed.

Lemma step_pop : workers s id = Pop -> step_ok id s.
Proof.
  intros Ep. destruct I0 as [R T L Dn]. pose proof (act_is _ Ep) as Ha. cbn in Ha.
  assert (Eh : wstep id s = if h_size (frontier s) =? 0 then Ok (goto s id (UnlockPop (-1))) else
      '(v, f) ← h_delete_min (frontier s);
      Ok (goto (mkGlobal (table s) (peb s) f (locked s) (is_done s) (workers s)) id (UnlockPop v)))
    by (unfold Wpanre.wstep; rewrite Ep; reflexivity).
  rewrite (h_size_rep _ _ R) in Eh. destruct (Z.eqb_spec (Z.of_nat (length l)) 0) as [E0|Hne].
  - eapply step_ok_same; [exact Eh|reflexivity|reflexivity|].
    apply winv_stay; [exact I0| |rewrite Ep; reflexivity|discriminate]. cbn. apply act_same; [exact I0|exact Ha].
  - destruct (h_delete_min_rep (frontier s) l R) as (q & v & f' & l' & Ed & R' & P & _); [intros ->; cbn in Hne; lia|].
    rewrite Ed in Eh. assert (Hin : (q, v) ∈ l) by (rewrite P; left).
    pose proof (proj1 (pv_ent _ _ _ _ _ _ _ _ _ _ T q v Hin)) as Hv0.
    eapply step_ok_same; [exact Eh|reflexivity|reflexivity|].
    split; cbn.
    + exact R'.
    + eapply pinv_ext; [apply (pinv_pop gr int32 heuristic source destination Wmax _ _ _ (fun e => e ∈ l') _ id 0 q v T (or_introl Ha))| |reflexivity].
      * intros e. rewrite P, elem_of_cons. reflexivity.
      * intros i. etransitivity; [apply act_upd|]. cbn. rewrite (proj2 (Z.eqb_neq v (-1))) by lia. reflexivity.
    + intros i. unfold upd. case_decide; [subst|apply L]. rewrite <- L, Ep. reflexivity.
    + intros [Hd|[i Hi]]; [apply Dn; auto|]. unfold upd in Hi. case_decide; [discriminate|]. apply Dn. eauto.
Qed.

Lemma step_cas v : workers s id = CasExp v -> step_ok id s.
Proof.
  intros Ep. pose proof (act_is _ Ep) as Ha. cbn in Ha. pose proof (wi_table _ _ _ I0) as T.
  pose proof (pv_point _ _ _ _ _ _ _ _ _ _ T id _ Ha) as [Hv0 Hd].
  destruct (view_get s l loaded v I0 Hv0) as (a & Ea & Da & Pa & Xa & Ha').
  pose proof (aget_bounds _ _ _ Ea) as Hb.
  assert (Eh : wstep id s = if is_expanded a then Ok (goto s id TestDone) else
      p ← match peb s with Some p => p ← aset p v id; Ok (Some p) | None => Ok None end;
      Ok (goto (mkGlobal (<[Z.to_nat v := mkState true (pred a) (g a) (h a)]> (table s)) p (frontier s) (locked s)
        (is_done s) (workers s)) id (if v =? destination then SetDone else ReadG v))).
  { unfold Wpanre.wstep. rewrite Ep, Ea, bind_ok_l. destruct (is_expanded a); [reflexivity|].
    rewrite aset_in by exact Hb. reflexivity. }
  destruct (is_expanded a) eqn:Ex.
  - eapply step_ok_same; [exact Eh|reflexivity|reflexivity|].
    apply winv_stay; [exact I0| |rewrite Ep; reflexivity|discriminate]. cbn.
    apply (pinv_test gr int32 heuristic source destination Wmax _ _ _ _ id 0 v); auto.
  - assert (exists pb, match peb s with Some p => p ← aset p v id; Ok (Some p) | None => Ok None end = Ok pb /\
      forall p, pb = Some p -> Z.of_nat (length p) = N) as (pb & Epb & Hpb).
    { pose proof (pv_pebbles _ _ _ _ _ _ _ _ _ _ T) as Hp. cbn in Hp. destruct (peb s) as [ps|].
      - specialize (Hp ps eq_refl). rewrite aset_in, bind_ok_l by lia. eexists. split; [reflexivity|].
        intros p [= <-]. rewrite length_insert. exact Hp.
      - eexists. split; [reflexivity|]. discriminate. }
    rewrite Epb, bind_ok_l in Eh.
    destruct (view_set (table s) pb v (mkState true (pred a) (g a) (h a)) Hb) as (D1 & P1 & X1 & H1).
    set (s' := view_of (<[Z.to_nat v := _]> (table s)) pb) in *. cbn in D1, P1, X1, H1.
    assert (Hsame : forall y, D int32 (view_of (table s) pb) y = D int32 (table_of s) y /\
      Pr (view_of (table s) pb) y = Pr (table_of s) y /\ E (view_of (table s) pb) y = E (table_of s) y /\
      Hv (view_of (table s) pb) y = Hv (table_of s) y) by (intros y; auto).
    assert (D1' : forall y, D int32 s' y = D int32 (table_of s) y)
      by (intros y; rewrite D1; case_decide; [subst; symmetry; assumption|apply Hsame]).
    assert (X1' : forall y, E s' y = if decide (y = v) then true else E (table_of s) y)
      by (intros y; rewrite X1; case_decide; [reflexivity|apply Hsame]).
    eexists _, l, loaded. split; [exact Eh|]. cbn [table peb goto].
    split; [|split; [intros x; rewrite D1'; lia|intros x Hx; rewrite X1'; case_decide; auto]].
    split; cbn.
    + apply (wi_frontier _ _ _ I0).
    + eapply pinv_ext; [apply (pinv_expand gr int32 heuristic source destination Wmax (sp_source _ _ _ _ _ _ pre) (table_of s) s' _ _ loaded id 0 v T Ha)| |reflexivity].
      * rewrite Xa. reflexivity.
      * unfold s'. cbn. rewrite length_fmap, length_insert. pose proof (pv_len _ _ _ _ _ _ _ _ _ _ T) as HL.
        cbn in HL. rewrite length_fmap in HL. exact HL.
      * exact Hpb.
      * exact D1'.
      * intros y. rewrite P1. case_decide; [subst; symmetry; assumption|apply Hsame].
      * intros y. rewrite H1. case_decide; [subst; symmetry; assumption|apply Hsame].
      * exact X1'.
      * intros i. etransitivity; [apply act_upd|]. destruct (v =? destination); reflexivity.
    + intros i. unfold upd. case_decide; [subst|apply (wi_lock _ _ _ I0)].
      rewrite <- (wi_lock _ _ _ I0), Ep. destruct (v =? destination); reflexivity.
    + fold s'. rewrite X1'. case_decide as Ev; [reflexivity|]. intros Hdn. apply (wi_done _ _ _ I0).
      destruct Hdn as [?|[i Hi]]; [auto|]. right. exists i. unfold upd in Hi. case_decide; [|exact Hi].
      rewrite (proj2 (Z.eqb_neq v destination)) in Hi by congruence. discriminate.
Qed.

Lemma my_heur_ok x p : 0 <= x < N -> exists sts,
  my_heur heuristic (table s) x = Ok (heuristic x, sts) /\ length sts = length (table s) /\
  (forall y, D int32 (view_of sts p) y = D int32 (table_of s) y) /\
  (forall y, Pr (view_of sts p) y = Pr (table_of s) y) /\
  (forall y, E (view_of sts p) y = E (table_of s) y) /\
  (forall y, Hv (view_of sts p) y = if decide (y = x) then heuristic x else Hv (table_of s) y).
Proof.
  intros Hx. destruct (view_get s l loaded x I0 Hx) as (a & Ea & Da & Pa & Xa & Ha').
  pose proof (aget_bounds _ _ _ Ea) as Hb. unfold my_heur. rewrite Ea, bind_ok_l.
  destruct (Z.eqb_spec (h a) (-1)) as [Eh|Eh].
  - rewrite aset_in, bind_ok_l by exact Hb. eexists. split; [reflexivity|]. split; [apply length_insert|].
    destruct (view_set (table s) p x (mkState (is_expanded a) (pred a) (g a) (heuristic x)) Hb) as (D1 & P1 & X1 & H1).
    cbn in D1, P1, X1, H1. split_and!; intros y; rewrite ?D1, ?P1, ?X1, ?H1; case_decide; subst; cbn; try congruence; auto.
  - exists (table s). destruct (pv_heur _ _ _ _ _ _ _ _ _ _ (wi_table _ _ _ I0) x) as [Hm|Hm]; [congruence|].
    split; [congruence|]. split; [reflexivity|]. split_and!; intros y; auto.
    case_decide; [subst; exact Hm|reflexivity].
Qed.

Lemma step_relax v vdist nbr w todo : workers s id = Relax v vdist ((nbr, w) :: todo) -> step_ok id s.
Proof.
  intros Ep. pose proof (act_is _ Ep) as Ha. cbn in Ha. pose proof (wi_table _ _ _ I0) as T.
  destruct pre as [Hsrc Hheur Hweight Hfit Hlong HW].
  pose proof (pv_point _ _ _ _ _ _ _ _ _ _ T id _ Ha) as [Hl Ht].
  pose proof Hl as (Hvr & _ & _ & Hwalk & _ & Hroom).
  assert (He : edge v nbr w) by (split; [exact Hvr|apply Ht; left]).
  pose proof (Hweight _ _ _ He) as Hw. pose proof (arc_nonneg gr _ _ _ He) as Hw0.
  pose proof (arc_range gr _ _ _ He) as Hnr. pose proof (Hheur nbr Hnr) as Hh.
  pose proof (loaded_length _ _ _ _ _ _ Hsrc _ _ _ _ T) as Hlen.
  pose proof (walk_nonneg edge (arc_nonneg gr) _ _ _ Hwalk) as Hv0. change INT_MAX with (int_max int32) in *.
  assert (Hsum : 0 <= vdist + w <= N * Wmax) by nia.
  destruct (view_get s l loaded nbr I0 Hnr) as (a & Ea & Da & _).
  assert (Eh : wstep id s = '(sts, f) ← relax heuristic v vdist nbr w (table s) (frontier s);
    Ok (goto (mkGlobal sts (peb s) f (locked s) (is_done s) (workers s)) id (Relax v vdist todo)))
    by (unfold Wpanre.wstep; rewrite Ep; reflexivity).
  unfold relax in Eh. rewrite add_int_in, bind_ok_l in Eh by (unfold int_min; lia).
  rewrite Ea, bind_ok_l, <- Da in Eh.
  destruct (Z.ltb_spec (vdist + w) (D int32 (table_of s) nbr)) as [Hlt|Hge].
  - destruct (my_heur_ok nbr (peb s) Hnr) as (sts & Em & L1 & D1 & P1 & X1 & H1). rewrite Em, bind_ok_l in Eh.
    rewrite add_int_in, bind_ok_l in Eh by (unfold int_min; lia).
    destruct (h_insert_rep (frontier s) l (vdist + w + heuristic nbr) nbr (wi_frontier _ _ _ I0)) as (f & Ei & R'); [lia|].
    rewrite Ei, bind_ok_l in Eh. destruct (aget_in sts nbr) as [b Eb]; [rewrite L1; apply aget_bounds in Ea; exact Ea|].
    pose proof (aget_bounds _ _ _ Eb) as Hb. rewrite Eb, bind_ok_l, aset_in, bind_ok_l in Eh by exact Hb.
    destruct (view_set sts (peb s) nbr (mkState (is_expanded b) v (vdist + w) (h b)) Hb) as (D2 & P2 & X2 & H2).
    cbn in D2, P2, X2, H2. set (sts' := <[Z.to_nat nbr := _]> sts) in *.
    assert (Hbx : is_expanded b = E (view_of sts (peb s)) nbr /\ h b = Hv (view_of sts (peb s)) nbr).
    { destruct (views sts (peb s) nbr) as (_ & _ & -> & ->). rewrite !(aview_get _ _ _ _ _ Eb). auto. }
    assert (HL : Z.of_nat (length (cell <$> sts)) = N).
    { rewrite length_fmap, L1. pose proof (pv_len _ _ _ _ _ _ _ _ _ _ T) as HL. cbn in HL. rewrite length_fmap in HL. exact HL. }
    pose proof (pinv_memo gr int32 heuristic source destination Wmax (table_of s) (view_of sts (peb s)) _ _ loaded nbr T
      HL eq_refl D1 P1 X1 H1) as T1.
    assert (T2 : pinv (view_of sts' (peb s)) (upd (act_of s) id (Some (Pwsa.Arcs 0 v vdist todo)))
      (fun e => e ∈ (vdist + w + heuristic nbr, nbr) :: l) loaded).
    { apply (pinv_arc_update gr int32 heuristic source destination Wmax Hmax Hsrc Hheur Hweight Hfit HW
        (view_of sts (peb s)) _ _ (fun e => e ∈ l) _ loaded id 0 v vdist nbr w todo (vdist + w + heuristic nbr) T1 Ha).
      - rewrite D1. exact Hlt.
      - cbn. unfold sts'. rewrite length_fmap, length_insert. rewrite length_fmap in HL. exact HL.
      - reflexivity.
      - exact D2.
      - exact P2.
      - intros y. rewrite X2. case_decide; [subst; apply Hbx|reflexivity].
      - intros y. rewrite H2. case_decide; [subst; apply Hbx|reflexivity].
      - intros e. apply elem_of_cons. }
    assert (X2' : forall y, E (view_of sts' (peb s)) y = E (table_of s) y).
    { intros y. rewrite X2. case_decide; [subst; rewrite <- X1; apply Hbx|apply X1]. }
    eexists _, _, loaded. split; [exact Eh|]. cbn [table peb goto].
    split; [|split; [intros x; rewrite D2; case_decide; [subst; lia|rewrite D1; lia]|intros x; rewrite X2'; auto]].
    split; cbn.
    + exact R'.
    + eapply pinv_ext; [exact T2| |reflexivity]. intros i. apply act_upd.
    + intros i. unfold upd. case_decide; [subst|apply (wi_lock _ _ _ I0)]. rewrite <- (wi_lock _ _ _ I0), Ep. reflexivity.
    + rewrite X2'. intros Hdn. apply (wi_done _ _ _ I0). destruct Hdn as [?|[i Hi]]; [auto|].
      right. exists i. unfold upd in Hi. case_decide; [discriminate|exact Hi].
  - rewrite bind_ok_l in Eh. eapply step_ok_same; [exact Eh|reflexivity|reflexivity|].
    assert (winv (goto s id (Relax v vdist todo)) l loaded) as I1; [|destruct s; exact I1].
    apply winv_stay; [exact I0| |rewrite Ep; reflexivity|discriminate]. cbn.
    apply (pinv_arc_keep gr int32 heuristic source destination Wmax Hmax Hsrc Hheur Hweight Hfit HW _ _ _ _ id 0 v vdist nbr w todo T Ha Hge).
Qed.

(** Taking and releasing the lock. *)
Lemma step_take p p' : workers s id = p -> holds p = false -> holds p' = true ->
  act_at p' = act_of s id -> p' <> SetDone ->
  (forall m, mutex_lock (locked s) id = Some m -> wstep id s = Ok (goto (set_locked s m) id p')) ->
  (mutex_lock (locked s) id = None -> wstep id s = Ok s) -> step_ok id s.
Proof.
  intros Ep Hh Hh' Ha Hd E1 E2. destruct (locked s) as [o|] eqn:El; cbn in E1, E2.
  - eapply step_ok_same; [apply E2; reflexivity|reflexivity|reflexivity|exact I0].
  - eapply step_ok_same; [apply E1; reflexivity|reflexivity|reflexivity|].
    apply winv_goto; [exact I0|apply act_same; [exact I0|symmetry; exact Ha]| | |congruence].
    + rewrite Hh'. intuition.
    + intros i Hi. rewrite El. split; [discriminate|intros [= E3]; congruence].
Qed.

Lemma step_release p' : holds (workers s id) = true -> holds p' = false ->
  act_at p' = act_of s id -> p' <> SetDone ->
  wstep id s = Ok (goto (set_locked s (mutex_unlock (locked s))) id p') -> step_ok id s.
Proof.
  intros Hh Hh' Ha Hd E1. eapply step_ok_same; [exact E1|reflexivity|reflexivity|].
  pose proof (proj1 (wi_lock _ _ _ I0 id) Hh) as El.
  apply winv_goto; [exact I0|apply act_same; [exact I0|symmetry; exact Ha]| | |congruence].
  - rewrite Hh'. cbn. split; discriminate.
  - intros i Hi. rewrite El. unfold mutex_unlock. split; [intros [= E3]; congruence|discriminate].
Qed.

Lemma step_test v : workers s id = TestExp v -> step_ok id s.
Proof.
  intros Ep. pose proof (act_is _ Ep) as Ha. pose proof (wi_table _ _ _ I0) as T.
  pose proof (pv_point _ _ _ _ _ _ _ _ _ _ T id _ Ha) as [Hv0 Hd].
  destruct (view_get s l loaded v I0 Hv0) as (a & Ea & _ & _ & Xa & _).
  eapply (step_ok_same id s (goto s id (if is_expanded a then TestDone else CasExp v)));
    [unfold Wpanre.wstep; rewrite Ep, Ea; reflexivity|reflexivity|reflexivity|].
  apply winv_stay; [exact I0| |rewrite Ep; destruct (is_expanded a); reflexivity|destruct (is_expanded a); discriminate].
  apply (pinv_test gr int32 heuristic source destination Wmax _ _ _ _ id 0 v); [exact T|left; exact Ha|].
  destruct (is_expanded a); [left|right]; auto.
Qed.

Lemma step_read v : workers s id = ReadG v -> step_ok id s.
Proof.
  intros Ep. pose proof (act_is _ Ep) as Ha. pose proof (wi_table _ _ _ I0) as T.
  pose proof (pv_point _ _ _ _ _ _ _ _ _ _ T id _ Ha) as [Hv0 _].
  destruct (view_get s l loaded v I0 Hv0) as (a & Ea & Da & _).
  pose proof (pinv_load gr int32 heuristic source destination Wmax (sp_pos _ _ _ _ _ _ pre) _ _ _ _ id 0 v T Ha) as T'.
  rewrite Da in T'. destruct I0 as [R _ L Dn].
  apply (step_ok_same id s (goto s id (LockRelax v (g a))) l (v :: loaded));
    [unfold Wpanre.wstep; rewrite Ep, Ea; reflexivity|reflexivity|reflexivity|].
  split; cbn.
  - exact R.
  - eapply pinv_ext; [exact T'| |reflexivity]. intros i. apply act_upd.
  - intros i. unfold upd. case_decide; [subst|apply L]. rewrite <- L, Ep. reflexivity.
  - intros [Hd|[i Hi]]; [auto|]. unfold upd in Hi. case_decide; [discriminate|]. apply Dn. eauto.
Qed.

Lemma step_done : workers s id = SetDone -> step_ok id s.
Proof.
  intros Ep. destruct I0 as [R T L Dn].
  eapply step_ok_same; [unfold Wpanre.wstep; rewrite Ep; reflexivity|reflexivity|reflexivity|].
  split; cbn.
  - exact R.
  - eapply pinv_ext; [apply (act_same s l loaded id None I0); rewrite (act_is _ Ep); reflexivity| |reflexivity].
    intros i. apply act_upd.
  - intros i. unfold upd. case_decide; [subst|apply L]. rewrite <- L, Ep. reflexivity.
  - intros _. apply Dn. right. exists id. exact Ep.
Qed.

Lemma step_any : step_ok id s.
Proof.
  destruct (workers s id) as [| | |v|v|v| |v|v vd|v vd todo| |] eqn:Ep.
  - apply (step_ok_same id s (goto s id (if is_done s then Halted else LockPop)) l loaded);
      [unfold Wpanre.wstep; rewrite Ep; reflexivity|reflexivity|reflexivity|].
    apply winv_stay; [exact I0| |rewrite Ep; destruct (is_done s); reflexivity|destruct (is_done s); discriminate].
    apply act_same; [exact I0|]. rewrite (act_is _ Ep). destruct (is_done s); reflexivity.
  - apply (step_take LockPop Pop); [exact Ep|reflexivity|reflexivity|rewrite (act_is _ Ep); reflexivity|discriminate| |];
      unfold Wpanre.wstep; rewrite Ep; [intros m ->|intros ->]; reflexivity.
  - apply step_pop. exact Ep.
  - apply (step_release (if v =? -1 then TestDone else TestExp v)); [rewrite Ep; reflexivity| | | |].
    + destruct (v =? -1); reflexivity.
    + rewrite (act_is _ Ep). cbn. destruct (v =? -1); reflexivity.
    + destruct (v =? -1); discriminate.
    + unfold Wpanre.wstep. rewrite Ep. reflexivity.
  - apply (step_test v). exact Ep.
  - apply (step_cas v). exact Ep.
  - apply step_done. exact Ep.
  - apply (step_read v). exact Ep.
  - assert (Hv0 : 0 <= v < N).
    { pose proof (pv_point _ _ _ _ _ _ _ _ _ _ (wi_table _ _ _ I0) id _ (act_is _ Ep)) as [Hl _]. apply Hl. }
    assert (Ea : arcs_of gr v = Ok (succs gr v)) by (apply (arcs_of_succs gr v Hv0)).
    apply (step_take (LockRelax v vd) (Relax v vd (succs gr v))); [exact Ep|reflexivity|reflexivity|rewrite (act_is _ Ep); reflexivity|discriminate| |];
      unfold Wpanre.wstep; rewrite Ep; [intros m ->; rewrite Ea|intros ->]; reflexivity.
  - destruct todo as [|[nbr w] todo]; [|apply (step_relax v vd nbr w todo); exact Ep].
    apply (step_ok_same id s (goto s id UnlockRelax) l loaded);
      [unfold Wpanre.wstep; rewrite Ep; reflexivity|reflexivity|reflexivity|].
    apply winv_stay; [exact I0| |rewrite Ep; reflexivity|discriminate].
    apply (pinv_finish gr int32 heuristic source destination Wmax _ _ _ _ id 0 v vd);
      [apply (wi_table _ _ _ I0)|exact (act_is _ Ep)|left; reflexivity].
  - apply (step_release TestDone); [rewrite Ep; reflexivity|reflexivity|rewrite (act_is _ Ep); reflexivity|discriminate|].
    unfold Wpanre.wstep. rewrite Ep. reflexivity.
  - eapply step_ok_same; [unfold Wpanre.wstep; rewrite Ep; reflexivity|reflexivity|reflexivity|exact I0].
Qed.
End one_step.

(** ** The start *)

Lemma wpanre_start_ok pebble : exists s0, start gr heuristic source pebble = Ok s0 /\ is_done s0 = false /\
  winv s0 [(heuristic source, source)] [].
Proof.
  destruct pre as [Hsrc Hheur Hweight Hfit Hlong HW]. pose proof (Hheur source Hsrc) as Hh.
  pose proof (number_vertices_nonneg (g := gr)) as HN.
  assert (Hinf : 0 < int_max int32) by reflexivity.
  set (sts0 := replicate (Z.to_nat N) (mkState false (-1) INT_MAX (-1))).
  set (pb := if pebble then Some (replicate (Z.to_nat N) (-1)) else None).
  set (sts1 := <[Z.to_nat source := mkState false (-1) 0 (-1)]> sts0).
  set (sts2 := <[Z.to_nat source := mkState false (-1) 0 (heuristic source)]> sts1).
  assert (Hl0 : Z.of_nat (length sts0) = N) by (unfold sts0; rewrite length_replicate; lia).
  assert (E0 : aget sts0 source = Ok (mkState false (-1) INT_MAX (-1))).
  { apply aget_Ok. split; [lia|]. apply lookup_replicate. split; [reflexivity|lia]. }
  assert (E1 : aget sts1 source = Ok (mkState false (-1) 0 (-1)))
    by (unfold sts1; rewrite aget_insert, decide_True by (reflexivity || lia); reflexivity).
  destruct (h_insert_rep h_new [] (heuristic source) source h_new_rep) as (f & Ef & R); [lia|].
  exists (mkGlobal sts2 pb f None false (fun _ => TestDone)). split; [|split; [reflexivity|]].
  { unfold start. fold sts0 pb. rewrite E0, bind_ok_l, aset_in, bind_ok_l by lia. cbn [is_expanded pred h].
    fold sts1. unfold my_heur. rewrite E1, bind_ok_l. cbn [is_expanded pred h g].
    rewrite Z.eqb_refl, aset_in, bind_ok_l by (unfold sts1; rewrite length_insert; lia). fold sts2.
    rewrite bind_ok_l, Ef. reflexivity. }
  assert (V : forall y, D int32 (view_of sts2 pb) y = (if decide (y = source) then 0 else INT_MAX) /\
    E (view_of sts2 pb) y = false /\ Hv (view_of sts2 pb) y = (if decide (y = source) then heuristic source else -1)).
  { intros y. destruct (views sts2 pb y) as (-> & _ & -> & ->). unfold sts2, sts1.
    rewrite !aview_insert by (rewrite ?length_insert; lia). unfold sts0, aview.
    case_decide; [auto|]. destruct (aget (replicate _ _) y) as [b|] eqn:Eb; [|auto].
    apply aget_Ok in Eb as [_ [-> _]%lookup_replicate_1]. auto. }
  assert (Honly : forall x, D int32 (view_of sts2 pb) x < INT_MAX -> x = source).
  { intros x. destruct (V x) as [-> _]. case_decide; [auto|lia]. }
  split; cbn.
  - exact R.
  - split.
    + cbn. unfold sts2, sts1. rewrite length_fmap, !length_insert. exact Hl0.
    + cbn. unfold pb. destruct pebble; [|discriminate]. intros p [= <-]. rewrite length_replicate. lia.
    + apply tree_inv_init; [exact Hinf|destruct (V source) as [-> _]; apply decide_True; reflexivity|].
      intros x Hx. destruct (V x) as [-> _]. rewrite decide_False by exact Hx. unfold INT_MAX. lia.
    + intros x. destruct (V x) as (_ & _ & ->). case_decide; subst; auto.
    + intros q x [= -> ->]%list_elem_of_singleton. split; [exact Hsrc|].
      destruct (V source) as [-> _]. rewrite decide_True by reflexivity. exact Hinf.
    + intros x Hx _. rewrite (Honly x Hx). left. eexists. left.
    + intros x. destruct (V x) as (_ & -> & _). discriminate.
    + discriminate.
    + split; [constructor|]. intros x Hx. inversion Hx.
    + intros x Hx. rewrite (Honly x Hx). destruct (V source) as [-> _]. rewrite decide_True by reflexivity. cbn. lia.
    + discriminate.
  - intros i. split; discriminate.
  - intros [?|[i ?]]; discriminate.
Qed.

Lemma reach_winv s0 s pebble : start gr heuristic source pebble = Ok s0 -> steps s0 s ->
  exists l loaded, winv s l loaded.
Proof.
  intros Es Hr. destruct (wpanre_start_ok pebble) as (s1 & E1 & _ & I1). rewrite Es in E1. injection E1 as <-.
  apply (rtc_invariant (step gr heuristic destination) (fun s => exists l loaded, winv s l loaded) s0 s); [|exact Hr|eauto].
  intros a b (l & loaded & Ia) [id Hab]. destruct (step_any id a l loaded Ia) as (b' & l' & ld' & E' & Ib & _).
  rewrite E' in Hab. injection Hab as <-. eauto.
Qed.

Lemma result_methods s l loaded y : winv s l loaded -> 0 <= y < N ->
  Interfaces.g (result gr s) y = Ok (D int32 (table_of s) y) /\
  predecessor (result gr s) y = Ok (Pr (table_of s) y) /\
  Interfaces.is_expanded (result gr s) y = Ok (E (table_of s) y).
Proof.
  intros I0 Hy. destruct (view_get s l loaded y I0 Hy) as (a & Ea & -> & -> & -> & _).
  cbn. rewrite Ea. auto.
Qed.

Lemma tree_of s l loaded : winv s l loaded ->
  tree_inv edge INT_MAX source (D int32 (table_of s)) (Pr (table_of s)).
Proof. intros I0. apply (pv_tree _ _ _ _ _ _ _ _ _ _ (wi_table _ _ _ I0)). Qed.

Lemma path_in s l loaded x : winv s l loaded -> D int32 (table_of s) x < INT_MAX ->
  exists p, path_to edge (result gr s) source x (D int32 (table_of s) x) p.
Proof.
  intros I0 Hx. apply (tree_path_to gr INT_MAX source (D int32 (table_of s)) (Pr (table_of s)) (result gr s) x
    (sp_source _ _ _ _ _ _ pre) (tree_of s l loaded I0)); [|exact Hx].
  intros y Hy. destruct (result_methods s l loaded y I0 Hy) as (H1 & H2 & _). auto.
Qed.

(** ** Properties *)

(** C26: [wpanre] can start, and in every interleaving no step of any worker
    fails: no array is accessed out of bounds, no sum overflows, no empty heap
    is popped.  At most one worker is between lock and unlock, and the
    predecessors of every vertex with a finite g-value are a path from the
    source that its g-value pays for. *)
Theorem wpanre_safe pebble :
  exists s0, start (H := H) gr heuristic source pebble = Ok s0 /\ forall s, steps s0 s ->
    (forall id, exists s', wstep id s = Ok s') /\
    (forall i j, holds (workers s i) = true -> holds (workers s j) = true -> i = j) /\
    (forall x d, Interfaces.g (result gr s) x = Ok d -> d < INT_MAX ->
       exists p, path_to edge (result gr s) source x d p).
Proof.
  destruct (wpanre_start_ok pebble) as (s0 & Es & _ & _). exists s0. split; [exact Es|]. intros s Hr.
  destruct (reach_winv s0 s pebble Es Hr) as (l & loaded & I0). split; [|split].
  - intros id. destruct (step_any id s l loaded I0) as (s' & _ & _ & E' & _). eauto.
  - intros i j Hi%(wi_lock _ _ _ I0) Hj%(wi_lock _ _ _ I0). congruence.
  - intros x d Hg Hd. assert (D int32 (table_of s) x = d) as <-; [|exact (path_in s l loaded x I0 Hd)].
    cbn in Hg. apply bind_Ok in Hg as (a & Ea & [= <-]).
    destruct (views (table s) (peb s) x) as (-> & _). apply aview_get. exact Ea.
Qed.

(** [wpanre] stops only with a path to the destination, and loses no
    vertex: once the flag is set the destination is reached and expanded, and
    when the frontier is empty while no worker holds a vertex and the
    destination is not expanded, the destination cannot be reached. *)
Theorem wpanre_done pebble s0 s :
  start gr heuristic source pebble = Ok s0 -> steps s0 s ->
  (is_done s = true -> reachable edge source destination /\ exists d p,
     Interfaces.g (result gr s) destination = Ok d /\
     Interfaces.is_expanded (result gr s) destination = Ok true /\
     path_to edge (result gr s) source destination d p) /\
  (h_size (frontier s) = 0 -> (forall i, act_of s i = None) ->
     Interfaces.is_expanded (result gr s) destination <> Ok true -> ~ reachable edge source destination).
Proof.
  intros Es Hr. destruct (reach_winv s0 s pebble Es Hr) as (l & loaded & I0).
  pose proof (wi_table _ _ _ I0) as T. split.
  - intros Hd. pose proof (wi_done _ _ _ I0 (or_introl Hd)) as Hx.
    pose proof (E_range _ _ _ _ _ _ _ _ _ _ _ T Hx) as Hran.
    destruct (pv_exp _ _ _ _ _ _ _ _ _ _ T destination Hx) as [Hf _].
    destruct (result_methods s l loaded destination I0 Hran) as (H1 & _ & H3).
    destruct (path_in s l loaded destination I0 Hf) as [p Hp].
    split; [eexists; apply Hp|]. eexists _, p. split; [exact H1|]. split; [rewrite H3, Hx; reflexivity|exact Hp].
  - intros Hsz Hact Hnd Hre.
    assert (l = []) as ->.
    { rewrite (h_size_rep _ _ (wi_frontier _ _ _ I0)) in Hsz. apply length_zero_iff_nil. lia. }
    assert (Hexp : forall x, D int32 (table_of s) x < INT_MAX -> E (table_of s) x = true).
    { intros x Hx. destruct (E (table_of s) x) eqn:Ex; [reflexivity|].
      destruct (pv_open _ _ _ _ _ _ _ _ _ _ T x Hx Ex) as [[f Hf]|(i & p & Hi & _)]; [inversion Hf|].
      rewrite Hact in Hi. discriminate. }
    assert (Hdst : E (table_of s) destination <> true).
    { intros Hx. apply Hnd. pose proof (E_range _ _ _ _ _ _ _ _ _ _ _ T Hx) as Hran.
      destruct (result_methods s [] loaded destination I0 Hran) as (_ & _ & ->). rewrite Hx. reflexivity. }
    apply Hdst, Hexp. apply (reachable_closed edge (fun x => D int32 (table_of s) x < INT_MAX) source); [| |exact Hre].
    + destruct (tree_of s [] loaded I0) as [-> Hi _ _ _]. exact Hi.
    + intros u x w Hu [_ Hin]. pose proof (Hexp u Hu) as Hue.
      destruct (pv_exp _ _ _ _ _ _ _ _ _ _ T u Hue) as [_ Ha].
      destruct (Ha ltac:(congruence) x w Hin) as [Hx|(i & p & Hi & _)]; [exact Hx|].
      rewrite Hact in Hi. discriminate.
Qed.
End specs.

(** ** Concrete runs on the sample maps *)

Module Instances.
#[local] Existing Instances BinHeap.Heap_ops BinHeap.Heap_laws WGraph.graph_ops.
Import Sample (zero, graph_pre, island_pre).
Abbreviation Heap := (BinHeap.Heap Z).

Definition begin (g : WGraph.graph) : res (global Heap) := start (H := Heap) g zero 0 true.

Definition after (g : WGraph.graph) (dst : Z) (sched : list Z) : global Heap :=
  match (s ← begin g; run g zero dst sched s) with
  | Ok s => s
  | Err _ => mkGlobal [] None BinHeap.new_heap None false (fun _ => Halted)
  end.

Lemma begin_after g dst : is_ok (begin g) = true -> begin g = Ok (after g dst []).
Proof. intros [s Hs]%is_ok_true. unfold after. rewrite Hs. reflexivity. Qed.

Lemma wpanre_after_steps g dst sched : is_ok (s ← begin g; run g zero dst sched s) = true ->
  rtc (step g zero dst) (after g dst []) (after g dst sched).
Proof.
  intros [s Hs]%is_ok_true. unfold after. rewrite Hs. destruct (begin g) as [s0|e]; [|discriminate].
  rewrite bind_ok_l in *. apply (wpanre_run_steps g zero dst sched). exact Hs.
Qed.

(** Worker 0 for 18 rounds of the loop, worker 1 for one of them. *)
Definition sched : list Z := repeat 0 12 ++ repeat 1 12 ++ repeat 0 80.

Lemma wpanre_safe_witness : exists s0, start (H := Heap) Sample.graph zero 0 false = Ok s0.
Proof.
  destruct (wpanre_safe (H := Heap) (glaws := Sample.graph_laws) Sample.graph zero 0 4 14142 0 graph_pre false)
    as (s0 & E0 & _). exists s0. exact E0.
Defined.

Lemma sched_ok : is_ok (s ← begin Sample.graph; run Sample.graph zero 4 sched s) = true.
Proof. vm_compute. reflexivity. Qed.

Lemma wpanre_done_witness :
  exists d p, Interfaces.g (result Sample.graph (after Sample.graph 4 sched)) 4 = Ok d /\
    path_to (arc (laws := Sample.graph_laws) Sample.graph) (result Sample.graph (after Sample.graph 4 sched)) 0 4 d p.
Proof.
  destruct (proj1 (wpanre_done (H := Heap) (glaws := Sample.graph_laws) Sample.graph zero 0 4 14142 0 graph_pre true
    _ _ (begin_after Sample.graph 4 ltac:(vm_compute; reflexivity)) (wpanre_after_steps Sample.graph 4 sched sched_ok))
    ltac:(vm_compute; reflexivity)) as (_ & d & p & H1 & _ & H2).
  exists d, p. split; [exact H1|exact H2].
Defined.
End Instances.
End WpanreSpec.
