(* ===== verification/SbplList.v ===== *)
(** * The doubly linked list of libsbpl (src/libsbpl: utils/list.h)

    [CList] at the level of its pointers: the elements live in a memory, a state
    points to its element through [listelem[listindex]].  The list refines a
    sequence of states. *)

From S2P Require Import Prelude.

Module SbplList.

Definition LISTSIZE : Z := 5000000.

(** Pointers are addresses, NULL is [None]. *)
Record listelement := mkElement { liststate : Z; prev : option Z; next : option Z }.

(** The elements allocated so far and the [listelem] fields of the states. *)
Record memory := mkMemory {
  elements : gmap Z listelement;
  brk : Z;
  listelem : gmap (Z * Z) Z;
}.

Definition empty_memory : memory := mkMemory ∅ 0 ∅.

Record CList := mkCList {
  firstelement : option Z;
  lastelement : option Z;
  currentsize : Z;
}.

(** [CList ()] *)
Definition new_list : CList := mkCList None None 0.

Definition deref (m : memory) (p : option Z) : res listelement :=
  match p with
  | Some a => match elements m !! a with Some e => Ok e | None => Err OutOfBounds end
  | None => Err OutOfBounds
  end.

Definition update (m : memory) (p : option Z) (f : listelement -> listelement) : res memory :=
  match p with
  | Some a =>
      e ← deref m p;
      Ok (mkMemory (<[a := f e]> (elements m)) (brk m) (listelem m))
  | None => Err OutOfBounds
  end.

Definition set_prev (p : option Z) (e : listelement) : listelement := mkElement (liststate e) p (next e).
Definition set_next (p : option Z) (e : listelement) : listelement := mkElement (liststate e) (prev e) p.

(** [malloc] *)
Definition alloc (m : memory) (e : listelement) : Z * memory :=
  (brk m, mkMemory (<[brk m := e]> (elements m)) (brk m + 1) (listelem m)).

Definition empty (l : CList) : bool := currentsize l =? 0.
Definition full (l : CList) : bool := LISTSIZE <=? currentsize l.
Definition in_ (m : memory) (s listindex : Z) : bool :=
  match listelem m !! (s, listindex) with Some _ => true | None => false end.

Definition insert (s listindex : Z) (l : CList) (m : memory) : res (CList * memory) :=
  if LISTSIZE <=? currentsize l then Err Thrown else
  if in_ m s listindex then Err Thrown else
  let '(a, m) := alloc m (mkElement s None (firstelement l)) in
  m ← match firstelement l with Some _ => update m (firstelement l) (set_prev (Some a)) | None => Ok m end;
  Ok (mkCList (Some a) (match lastelement l with None => Some a | p => p end) (currentsize l + 1),
      mkMemory (elements m) (brk m) (<[(s, listindex) := a]> (listelem m))).

Definition insertinfront (s listindex : Z) (l : CList) (m : memory) : res (CList * memory) := insert s listindex l m.

Definition remove (s listindex : Z) (l : CList) (m : memory) : res (CList * memory) :=
  match listelem m !! (s, listindex) with
  | None => Err Thrown
  | Some a =>
      if currentsize l =? 0 then Err Thrown else
      e ← deref m (Some a);
      '(l, m) ← match prev e, next e with
        | Some _, Some _ =>
            m ← update m (prev e) (set_next (next e));
            m ← update m (next e) (set_prev (prev e));
            Ok (l, m)
        | Some _, None =>
            m ← update m (prev e) (set_next None);
            Ok (mkCList (firstelement l) (prev e) (currentsize l), m)
        | None, Some _ =>
            m ← update m (next e) (set_prev None);
            Ok (mkCList (next e) (lastelement l) (currentsize l), m)
        | None, None => Ok (mkCList None None (currentsize l), m)
        end;
      Ok (mkCList (firstelement l) (lastelement l) (currentsize l - 1),
          mkMemory (delete a (elements m)) (brk m) (delete (s, listindex) (listelem m)))
  end.

Definition getfirst (l : CList) (m : memory) : res (option Z) :=
  match firstelement l with
  | None => Ok None
  | p => e ← deref m p; Ok (Some (liststate e))
  end.

Definition getlast (l : CList) (m : memory) : res (option Z) :=
  match lastelement l with
  | None => Ok None
  | p => e ← deref m p; Ok (Some (liststate e))
  end.

Definition getnext (s listindex : Z) (m : memory) : res (option Z) :=
  e ← deref m (listelem m !! (s, listindex));
  match next e with
  | None => Ok None
  | p => e ← deref m p; Ok (Some (liststate e))
  end.

(** An element leaves per iteration. *)
Fixpoint makeempty_loop (fuel : nat) (listindex : Z) (l : CList) (m : memory) : res (CList * memory) :=
  match fuel with
  | O => Err OutOfFuel
  | S fuel =>
      match firstelement l with
      | None => Ok (l, m)
      | p =>
          e ← deref m p;
          '(l, m) ← remove (liststate e) listindex l m;
          makeempty_loop fuel listindex l m
      end
  end.
Definition makeemptylist (listindex : Z) (l : CList) (m : memory) : res (CList * memory) :=
  makeempty_loop (S (Z.to_nat (currentsize l))) listindex l m.

(** ** The specification: a sequence of states *)

Definition insert_spec (s : Z) (q : list Z) : res (list Z) :=
  if LISTSIZE <=? Z.of_nat (length q) then Err Thrown else if bool_decide (s ∈ q) then Err Thrown else Ok (s :: q).

Fixpoint erase (s : Z) (q : list Z) : list Z :=
  match q with [] => [] | t :: q => if t =? s then q else t :: erase s q end.
Definition remove_spec (s : Z) (q : list Z) : res (list Z) :=
  if bool_decide (s ∈ q) then Ok (erase s q) else Err Thrown.

Fixpoint next_spec (s : Z) (q : list Z) : res (option Z) :=
  match q with [] => Err OutOfBounds | t :: q => if t =? s then Ok (head q) else next_spec s q end.

(** The calls of a client, and what they answer. *)
Inductive call := CallEmpty | CallFull | CallIn (s : Z) | CallInsert (s : Z) | CallInsertinfront (s : Z) | CallRemove (s : Z)
  | CallMakeempty | CallGetfirst | CallGetlast | CallGetnext (s : Z).
Inductive answer := Done | Is (b : bool) | State (s : option Z).

Definition do_call (listindex : Z) (c : call) (lm : CList * memory) : res (answer * (CList * memory)) :=
  let '(l, m) := lm in
  match c with
  | CallEmpty => Ok (Is (empty l), (l, m))
  | CallFull => Ok (Is (full l), (l, m))
  | CallIn s => Ok (Is (in_ m s listindex), (l, m))
  | CallInsert s => lm ← insert s listindex l m; Ok (Done, lm)
  | CallInsertinfront s => lm ← insertinfront s listindex l m; Ok (Done, lm)
  | CallRemove s => lm ← remove s listindex l m; Ok (Done, lm)
  | CallMakeempty => lm ← makeemptylist listindex l m; Ok (Done, lm)
  | CallGetfirst => x ← getfirst l m; Ok (State x, (l, m))
  | CallGetlast => x ← getlast l m; Ok (State x, (l, m))
  | CallGetnext s => x ← getnext s listindex m; Ok (State x, (l, m))
  end.

Definition call_spec (c : call) (q : list Z) : res (answer * list Z) :=
  match c with
  | CallEmpty => Ok (Is (bool_decide (q = [])), q)
  | CallFull => Ok (Is (LISTSIZE <=? Z.of_nat (length q)), q)
  | CallIn s => Ok (Is (bool_decide (s ∈ q)), q)
  | CallInsert s | CallInsertinfront s => q ← insert_spec s q; Ok (Done, q)
  | CallRemove s => q ← remove_spec s q; Ok (Done, q)
  | CallMakeempty => Ok (Done, [])
  | CallGetfirst => Ok (State (head q), q)
  | CallGetlast => Ok (State (last q), q)
  | CallGetnext s => x ← next_spec s q; Ok (State x, q)
  end.

(** The answers to a sequence of calls; an exception ends it. *)
Fixpoint answers {X} (exec : call -> X -> res (answer * X)) (cs : list call) (x : X) : list (res answer) :=
  match cs with
  | [] => []
  | c :: cs => match exec c x with Ok (a, x) => Ok a :: answers exec cs x | Err e => [Err e] end
  end.

(** ** The representation *)

Abbreviation item := (Z * Z)%type.   (** an address and its state *)

Definition head_or (l : list item) (n : option Z) : option Z := match l with (a, _) :: _ => Some a | [] => n end.
Definition last_or (p : option Z) (l : list item) : option Z := match last l with Some (a, _) => Some a | None => p end.

(** The elements at the addresses of [l], between [p] and [n]. *)
Fixpoint segment (es : gmap Z listelement) (p : option Z) (l : list item) (n : option Z) : Prop :=
  match l with
  | [] => True
  | (a, s) :: l => es !! a = Some (mkElement s p (head_or l n)) /\ segment es (Some a) l n
  end.

Lemma last_or_cons p a s l : last_or p ((a, s) :: l) = last_or (Some a) l.
Proof. unfold last_or. rewrite last_cons. destruct (last l) as [[? ?]|]; reflexivity. Qed.

Lemma last_or_snoc p l a s : last_or p (l ++ [(a, s)]) = Some a.
Proof. unfold last_or. rewrite last_snoc. reflexivity. Qed.

Lemma head_or_app l k n : head_or (l ++ k) n = head_or l (head_or k n).
Proof. destruct l as [|[a s] l]; reflexivity. Qed.

Lemma segment_app es p l k n : segment es p (l ++ k) n <-> segment es p l (head_or k n) /\ segment es (last_or p l) k n.
Proof.
  revert p. induction l as [|[a s] l IH]; intros p; cbn [app segment]; [tauto|].
  rewrite IH, head_or_app, last_or_cons. tauto.
Qed.

(** Changes elsewhere. *)
Lemma segment_frame es es' p l n : (forall x, x ∈ l.*1 -> es' !! x = es !! x) -> segment es p l n -> segment es' p l n.
Proof.
  revert p. induction l as [|[a s] l IH]; intros p Hf; cbn [segment]; [tauto|]. intros [H1 H2]. split.
  - rewrite Hf; [exact H1|left].
  - apply IH; [|exact H2]. intros x Hx. apply Hf. right. exact Hx.
Qed.

(** [l] is the list of the states of [items], under [listindex]. *)
Record repr (listindex : Z) (l : CList) (m : memory) (items : list item) : Prop := {
  rp_seg : segment (elements m) None items None;
  rp_first : firstelement l = head_or items None;
  rp_last : lastelement l = last_or None items;
  rp_size : currentsize l = Z.of_nat (length items);
  rp_room : currentsize l <= LISTSIZE;
  rp_nodup : NoDup items.*1;
  rp_brk : forall a, a ∈ items.*1 -> a < brk m;
  rp_elem : forall s a, listelem m !! (s, listindex) = Some a <-> (a, s) ∈ items;
}.

Lemma repr_new listindex : repr listindex new_list empty_memory [].
Proof.
  split; cbn; auto; try reflexivity.
  - vm_compute. discriminate.
  - constructor.
  - intros a Ha. inversion Ha.
  - intros s a. rewrite lookup_empty. split; [discriminate|]. intros H. inversion H.
Qed.

(** A state has one element. *)
Lemma repr_states_nodup listindex l m items : repr listindex l m items -> NoDup items.*2.
Proof.
  intros R. pose proof (rp_nodup _ _ _ _ R) as Hn. pose proof (rp_elem _ _ _ _ R) as He.
  assert (Hu : forall a b s, (a, s) ∈ items -> (b, s) ∈ items -> a = b).
  { intros a b s Ha%He Hb%He. congruence. }
  clear He R. induction items as [|[a s] items IH]; [constructor|]. cbn in *. apply NoDup_cons in Hn as [Hn1 Hn2]. constructor.
  - intros Hs. apply list_elem_of_fmap in Hs as ([b s'] & Hs' & Hb). cbn in Hs'. subst s'. apply Hn1.
    assert (a = b) as <- by (apply (Hu a b s); [left|right; exact Hb]).
    apply list_elem_of_fmap. exists (a, s). auto.
  - apply IH; [exact Hn2|]. intros x y t Hx Hy. apply (Hu x y t); right; assumption.
Qed.

Lemma in_spec listindex l m items s : repr listindex l m items -> in_ m s listindex = bool_decide (s ∈ items.*2).
Proof.
  intros R. unfold in_. destruct (listelem m !! (s, listindex)) as [a|] eqn:E.
  - apply (rp_elem _ _ _ _ R) in E. symmetry. apply bool_decide_eq_true. apply list_elem_of_fmap. exists (a, s). auto.
  - symmetry. apply bool_decide_eq_false. intros Hs. apply list_elem_of_fmap in Hs as ([a s'] & -> & Ha).
    apply (rp_elem _ _ _ _ R) in Ha. cbn in E. congruence.
Qed.
(** ** The operations *)

(** Other lists keep their elements. *)
Definition keeps_others (s listindex : Z) (m m' : memory) : Prop :=
  forall s' i, (s', i) <> (s, listindex) -> listelem m' !! (s', i) = listelem m !! (s', i).

Lemma update_ok m a f e : elements m !! a = Some e ->
  update m (Some a) f = Ok (mkMemory (<[a := f e]> (elements m)) (brk m) (listelem m)).
Proof. intros E. unfold update, deref. rewrite E. reflexivity. Qed.

Lemma segment_head es p a s l n : segment es p ((a, s) :: l) n -> es !! a = Some (mkElement s p (head_or l n)).
Proof. intros [H _]. exact H. Qed.

(** Relinking the first element of a segment to another one. *)
Lemma segment_relink es p q l n : (forall a s r, l = (a, s) :: r -> a ∉ r.*1) -> segment es p l n ->
  match l with
  | [] => True
  | (a, s) :: r => segment (<[a := mkElement s q (head_or r n)]> es) q l n
  end.
Proof.
  destruct l as [|[a s] r]; [auto|]. intros Hn [_ H2]. specialize (Hn a s r eq_refl). split; [apply lookup_insert_eq|].
  eapply segment_frame; [|exact H2]. intros x Hx. apply lookup_insert_ne. intros ->. contradiction.
Qed.

Lemma list_insert_ok listindex l m items s : repr listindex l m items -> s ∉ items.*2 -> currentsize l < LISTSIZE ->
  exists l' m', insert s listindex l m = Ok (l', m') /\ repr listindex l' m' ((brk m, s) :: items) /\ keeps_others s listindex m m'.
Proof.
  intros R Hs Hz. pose proof R as [Hseg Hf Hl Hn Hroom Hnd Hb He]. unfold insert.
  rewrite (proj2 (Z.leb_gt _ _)) by lia. rewrite (in_spec _ _ _ _ _ R), bool_decide_eq_false_2 by exact Hs. cbn [alloc].
  assert (Hfresh : brk m ∉ items.*1) by (intros Hin; apply Hb in Hin; lia).
  set (e := mkElement s None (firstelement l)). set (es := <[brk m := e]> (elements m)).
  assert (Hseg' : segment es None items None).
  { eapply segment_frame; [|exact Hseg]. intros x Hx. apply lookup_insert_ne. intros E. rewrite E in Hfresh. contradiction. }
  assert (K : exists m1, match firstelement l with
      | Some _ => update (mkMemory es (brk m + 1) (listelem m)) (firstelement l) (set_prev (Some (brk m)))
      | None => Ok (mkMemory es (brk m + 1) (listelem m)) end = Ok m1 /\
    segment (elements m1) None ((brk m, s) :: items) None /\ brk m1 = brk m + 1 /\ listelem m1 = listelem m).
  { rewrite Hf. destruct items as [|[a t] items]; cbn [head_or].
    - eexists. split; [reflexivity|]. split; [|split; reflexivity]. split; [|exact I]. cbn. unfold es, e. rewrite Hf. apply lookup_insert_eq.
    - pose proof (segment_head _ _ _ _ _ _ Hseg') as Ha. rewrite (update_ok (mkMemory es (brk m + 1) (listelem m)) _ _ _ Ha). eexists. split; [reflexivity|].
      split; [|split; reflexivity]. cbn [elements brk listelem]. split.
      + cbn [head_or]. rewrite lookup_insert_ne by (intros E; rewrite E in Hfresh; apply Hfresh; left). unfold es, e. rewrite Hf. apply lookup_insert_eq.
      + apply (segment_relink _ None (Some (brk m)) ((a, t) :: items)); [|exact Hseg'].
        intros a' t' r [= <- <- <-]. cbn in Hnd. apply NoDup_cons in Hnd. apply Hnd. }
  destruct K as (m1 & -> & Hseg1 & Hb1 & He1). rewrite bind_ok_l. eexists _, _. split; [reflexivity|]. split.
  - split; cbn [elements brk listelem firstelement lastelement currentsize length fmap list_fmap fst].
    + exact Hseg1.
    + reflexivity.
    + rewrite last_or_cons, Hl. destruct items as [|x items]; [reflexivity|].
      destruct (last (x :: items)) as [[b u]|] eqn:El; [unfold last_or; rewrite El; reflexivity|]. rewrite last_None in El. discriminate.
    + lia.
    + lia.
    + constructor; [exact Hfresh|exact Hnd].
    + intros a [->|Ha]%elem_of_cons; [lia|]. rewrite Hb1. apply Hb in Ha. lia.
    + intros t a. rewrite He1, elem_of_cons. destruct (decide (t = s)) as [->|Hne].
      * rewrite lookup_insert_eq. split; [intros [= <-]; auto|]. intros [[= ->]|Hin]; [reflexivity|].
        exfalso. apply Hs. apply list_elem_of_fmap. exists (a, s). auto.
      * rewrite lookup_insert_ne by congruence. rewrite He. split; [auto|intros [[= _ ->]|?]; [congruence|assumption]].
  - intros s' i Hne. cbn. rewrite He1. apply lookup_insert_ne. congruence.
Qed.
(** Relinking the last element of a segment. *)
Lemma segment_relink_last es p l b t n n' : b ∉ l.*1 -> segment es p (l ++ [(b, t)]) n ->
  segment (<[b := mkElement t (last_or p l) n']> es) p (l ++ [(b, t)]) n'.
Proof.
  intros Hb H. apply segment_app in H as [H1 [H2 _]]. apply segment_app. cbn [head_or segment]. split.
  - eapply segment_frame; [|exact H1]. intros x Hx. apply lookup_insert_ne. intros E. rewrite E in Hb. contradiction.
  - split; [apply lookup_insert_eq|exact I].
Qed.

(** What [remove] does to the elements around [a]. *)
Lemma unlink_ok l m l1 l2 a s : segment (elements m) None (l1 ++ (a, s) :: l2) None -> NoDup (l1 ++ (a, s) :: l2).*1 ->
  firstelement l = head_or (l1 ++ (a, s) :: l2) None -> lastelement l = last_or None (l1 ++ (a, s) :: l2) ->
  let e := mkElement s (last_or None l1) (head_or l2 None) in
  elements m !! a = Some e /\ exists es, match prev e, next e with
    | Some _, Some _ =>
        m ← update m (prev e) (set_next (next e)); m ← update m (next e) (set_prev (prev e)); Ok (l, m)
    | Some _, None => m ← update m (prev e) (set_next None); Ok (mkCList (firstelement l) (prev e) (currentsize l), m)
    | None, Some _ => m ← update m (next e) (set_prev None); Ok (mkCList (next e) (lastelement l) (currentsize l), m)
    | None, None => Ok (mkCList None None (currentsize l), m)
    end = Ok (mkCList (head_or (l1 ++ l2) None) (last_or None (l1 ++ l2)) (currentsize l), mkMemory es (brk m) (listelem m)) /\
    segment es None (l1 ++ l2) None.
Proof.
  intros Hs Hnd Hf Hl e. apply segment_app in Hs as [H1 [H2 H3]]. cbn [head_or] in H1. split; [exact H2|].
  rewrite fmap_app in Hnd. apply NoDup_app in Hnd as (Hn1 & Hd & Hn2). cbn in Hn2, Hd. apply NoDup_cons in Hn2 as [Ha Hn2].
  unfold e. cbn [prev next]. clear e.
  destruct l1 as [|[b t] l1 _] using rev_ind; [|rewrite last_or_snoc]; destruct l2 as [|[c u] l2]; cbn [head_or].
  - exists (elements m). destruct m. auto.
  - change (last_or None []) with (@None Z). cbv iota. rewrite (update_ok _ _ _ _ (segment_head _ _ _ _ _ _ H3)), bind_ok_l. eexists. split.
    + rewrite Hl. cbn [app]. rewrite !last_or_cons. cbn [head_or]. reflexivity.
    + apply (segment_relink _ _ None ((c, u) :: l2)) in H3; [exact H3|]. intros ? ? ? [= <- <- <-]. apply NoDup_cons in Hn2. apply Hn2.
  - rewrite (app_nil_r (l1 ++ _)), last_or_snoc. rewrite fmap_app in Hn1. apply NoDup_app in Hn1 as (_ & Hb & _).
    pose proof H1 as H1'. apply segment_app in H1 as [_ [Hb' _]]. rewrite (update_ok _ _ _ _ Hb'), bind_ok_l. eexists. split.
    + replace (firstelement l) with (head_or (l1 ++ [(b, t)]) None); [reflexivity|].
      rewrite Hf, !head_or_app. destruct l1 as [|[? ?] ?]; reflexivity.
    + eapply (segment_relink_last _ _ _ _ _ _ None); [|exact H1']. intros Hx. apply (Hb b Hx). left.
  - rewrite fmap_app in Hn1, Hd. apply NoDup_app in Hn1 as (_ & Hb & _).
    assert (Hb1 : b ∉ l1.*1) by (intros Hx; apply (Hb b Hx); left).
    assert (Hbc : b ∉ c :: l2.*1) by (intros Hx; apply (Hd b); [apply elem_of_app; right; left|right; exact Hx]).
    pose proof H1 as H1'. apply segment_app in H1 as [_ [Hb' _]]. rewrite (update_ok _ _ _ _ Hb'), bind_ok_l.
    pose proof (segment_relink_last _ None l1 b t _ (Some c) Hb1 H1') as K1.
    assert (K2 : segment (<[b := mkElement t (last_or None l1) (Some c)]> (elements m)) (Some a) ((c, u) :: l2) None).
    { eapply segment_frame; [|exact H3]. intros x Hx. apply lookup_insert_ne. intros E. subst x. exact (Hbc Hx). }
    rewrite (update_ok (mkMemory _ (brk m) (listelem m)) c _ _ (segment_head _ _ _ _ _ _ K2)), bind_ok_l. eexists. split.
    + cbn [elements brk listelem]. do 2 f_equal. destruct l as [lf ll lc]. cbn [firstelement lastelement currentsize] in Hf, Hl |- *.
      rewrite Hf, Hl. f_equal; [rewrite !head_or_app; destruct l1 as [|[? ?] ?]; reflexivity|].
      unfold last_or. rewrite !last_app_cons, !last_cons. destruct (last l2) as [[? ?]|]; reflexivity.
    + apply (segment_relink _ _ (Some b) ((c, u) :: l2)) in K2.
      2:{ intros ? ? ? [= <- <- <-]. apply NoDup_cons in Hn2. apply Hn2. }
      apply segment_app. rewrite last_or_snoc. split; [|exact K2]. eapply segment_frame; [|exact K1].
      intros x Hx. apply lookup_insert_ne. intros <-. apply (Hd c); [rewrite <- fmap_app; exact Hx|right; left].
Qed.

Lemma repr_split listindex l m items s : repr listindex l m items -> s ∈ items.*2 ->
  exists a l1 l2, items = l1 ++ (a, s) :: l2 /\ listelem m !! (s, listindex) = Some a.
Proof.
  intros R Hs. apply list_elem_of_fmap in Hs as ([a s'] & -> & Ha). cbn.
  pose proof (proj2 (rp_elem _ _ _ _ R _ _) Ha). apply list_elem_of_split in Ha as (l1 & l2 & ->). eauto.
Qed.

Lemma nodup_middle {A} (l1 l2 : list A) a : NoDup (l1 ++ a :: l2) -> NoDup (l1 ++ l2) /\ a ∉ l1 ++ l2.
Proof. intros H. rewrite <- Permutation_middle in H. apply NoDup_cons in H. tauto. Qed.

Lemma list_remove_ok listindex l m l1 l2 a s : repr listindex l m (l1 ++ (a, s) :: l2) ->
  exists l' m', remove s listindex l m = Ok (l', m') /\ repr listindex l' m' (l1 ++ l2) /\ keeps_others s listindex m m'.
Proof.
  intros R. pose proof R as [Hseg Hf Hl Hn Hroom Hnd Hb He]. pose proof (repr_states_nodup _ _ _ _ R) as Hnd2. unfold remove.
  assert (Hin : (a, s) ∈ l1 ++ (a, s) :: l2) by (apply elem_of_app; right; left).
  rewrite (proj2 (He s a) Hin). rewrite length_app in Hn. cbn [length] in Hn. rewrite (proj2 (Z.eqb_neq _ _)) by lia.
  destruct (unlink_ok l m l1 l2 a s Hseg Hnd Hf Hl) as (Ha & es & Hrun & Hseg'). cbv zeta in Hrun.
  unfold deref. rewrite Ha, bind_ok_l. cbn [prev next] in Hrun |- *.
  match goal with |- context [mbind _ ?x] => replace x with (Ok (mkCList (head_or (l1 ++ l2) None) (last_or None (l1 ++ l2)) (currentsize l), mkMemory es (brk m) (listelem m))) by (symmetry; exact Hrun) end.
  rewrite bind_ok_l. eexists _, _. split; [reflexivity|]. split.
  2:{ intros s' i Hne. cbn. apply lookup_delete_ne. congruence. }
  rewrite fmap_app in Hnd, Hnd2. cbn in Hnd, Hnd2.
  pose proof (nodup_middle _ _ _ Hnd) as [Hd Hda]. pose proof (nodup_middle _ _ _ Hnd2) as [_ Hd2].
  rewrite <- !fmap_app in *.
  split; cbn [elements brk listelem firstelement lastelement currentsize].
  - eapply segment_frame; [|exact Hseg']. intros x Hx. apply lookup_delete_ne. intros <-. contradiction.
  - reflexivity.
  - reflexivity.
  - rewrite length_app. lia.
  - lia.
  - exact Hd.
  - intros x Hx. apply Hb. rewrite fmap_app, elem_of_app in *. cbn. rewrite elem_of_cons. tauto.
  - intros t x. destruct (decide (t = s)) as [->|Hne].
    + rewrite lookup_delete_eq. split; [discriminate|]. intros Hx. exfalso. apply Hd2. apply list_elem_of_fmap. exists (x, s). auto.
    + rewrite lookup_delete_ne by congruence. rewrite He, !elem_of_app, elem_of_cons. split; [|tauto]. intros [?|[[= _ ->]|?]]; tauto.
Qed.

Lemma erase_middle l1 l2 s : s ∉ l1 -> erase s (l1 ++ s :: l2) = l1 ++ l2.
Proof.
  induction l1 as [|t l1 IH]; intros H; cbn; [rewrite Z.eqb_refl; reflexivity|].
  apply not_elem_of_cons in H as [H1 H2]. rewrite (proj2 (Z.eqb_neq _ _)) by congruence. rewrite IH by exact H2. reflexivity.
Qed.

Lemma next_middle l1 l2 s : s ∉ l1 -> next_spec s (l1 ++ s :: l2) = Ok (head l2).
Proof.
  induction l1 as [|t l1 IH]; intros H; cbn; [rewrite Z.eqb_refl; reflexivity|].
  apply not_elem_of_cons in H as [H1 H2]. rewrite (proj2 (Z.eqb_neq _ _)) by congruence. exact (IH H2).
Qed.

Lemma next_absent q s : s ∉ q -> next_spec s q = Err OutOfBounds.
Proof.
  induction q as [|t q IH]; intros H; cbn; [reflexivity|].
  apply not_elem_of_cons in H as [H1 H2]. rewrite (proj2 (Z.eqb_neq _ _)) by congruence. exact (IH H2).
Qed.

(** The list represents the sequence [q]. *)
Definition stands_for (listindex : Z) (lm : CList * memory) (q : list Z) : Prop :=
  exists items, repr listindex (fst lm) (snd lm) items /\ items.*2 = q.

(** Results agree: the same exception, or states that stand for each other. *)
Definition agrees (listindex : Z) (r : res (CList * memory)) (t : res (list Z)) : Prop :=
  match r, t with Ok lm, Ok q => stands_for listindex lm q | Err e, Err e' => e = e' | _, _ => False end.

Section calls.
Context (i : Z) (l : CList) (m : memory) (q : list Z) (R : stands_for i (l, m) q).

Lemma stands_size : currentsize l = Z.of_nat (length q).
Proof using R. destruct R as (items & Ri & <-). rewrite length_fmap. apply (rp_size _ _ _ _ Ri). Qed.

Lemma stands_nodup : NoDup q.
Proof using R. destruct R as (items & Ri & <-). exact (repr_states_nodup _ _ _ _ Ri). Qed.

Lemma stands_in s : in_ m s i = bool_decide (s ∈ q).
Proof using R. destruct R as (items & Ri & <-). exact (in_spec _ _ _ _ s Ri). Qed.

Lemma insert_agrees s : agrees i (insert s i l m) (insert_spec s q).
Proof using R.
  pose proof (stands_in s) as Hin. pose proof stands_size as Hn. destruct R as (items & Ri & Eq).
  unfold insert_spec. rewrite <- Hn. destruct (Z.leb_spec LISTSIZE (currentsize l)) as [Hz|Hz].
  - unfold insert. rewrite (proj2 (Z.leb_le _ _)) by exact Hz. reflexivity.
  - case_bool_decide as Hs.
    + unfold insert. rewrite (proj2 (Z.leb_gt _ _)) by exact Hz. rewrite Hin. reflexivity.
    + destruct (list_insert_ok i l m items s Ri) as (l' & m' & -> & R' & _); [congruence|exact Hz|]. eexists. split; [exact R'|]. cbn. congruence.
Qed.

Lemma remove_agrees s : agrees i (remove s i l m) (remove_spec s q).
Proof using R.
  pose proof (stands_in s) as Hin. destruct R as (items & Ri & Eq). cbn [fst snd] in Ri. unfold remove_spec. case_bool_decide as Hs.
  - rewrite <- Eq in Hs. destruct (repr_split _ _ _ _ _ Ri Hs) as (a & l1 & l2 & -> & _).
    destruct (list_remove_ok _ _ _ _ _ _ _ Ri) as (l' & m' & -> & R' & _). eexists. split; [exact R'|]. subst q.
    pose proof (repr_states_nodup _ _ _ _ Ri) as Hnd. rewrite !fmap_app in *. cbn [fmap list_fmap snd] in *. rewrite erase_middle; [reflexivity|].
    apply NoDup_app in Hnd as (_ & Hd & _). intros Hx. apply (Hd s Hx). left.
  - unfold remove. unfold in_ in Hin. destruct (listelem m !! (s, i)); [discriminate|reflexivity].
Qed.

Lemma getfirst_stands : getfirst l m = Ok (head q).
Proof using R.
  destruct R as (items & Ri & <-). unfold getfirst. cbn in Ri. rewrite (rp_first _ _ _ _ Ri). destruct items as [|[a s] items]; [reflexivity|].
  cbn [head_or deref]. rewrite (segment_head _ _ _ _ _ _ (rp_seg _ _ _ _ Ri)). reflexivity.
Qed.

Lemma getlast_stands : getlast l m = Ok (last q).
Proof using R.
  destruct R as (items & Ri & <-). unfold getlast. cbn in Ri. rewrite (rp_last _ _ _ _ Ri). pose proof (rp_seg _ _ _ _ Ri) as Hs.
  destruct items as [|[a s] items _] using rev_ind; [reflexivity|]. rewrite last_or_snoc. cbn [deref].
  apply segment_app in Hs as [_ Hs]. rewrite (segment_head _ _ _ _ _ _ Hs), fmap_app. cbn. rewrite last_snoc. reflexivity.
Qed.

Lemma getnext_stands s : getnext s i m = next_spec s q.
Proof using R.
  pose proof (stands_in s) as Hin. destruct R as (items & Ri & <-). cbn in Ri. unfold getnext, in_ in *. destruct (listelem m !! (s, i)) as [b|] eqn:Eb.
  - symmetry in Hin. apply bool_decide_eq_true in Hin. destruct (repr_split _ _ _ _ _ Ri Hin) as (a & l1 & l2 & -> & Ea). rewrite Ea in Eb. injection Eb as ->.
    pose proof (rp_seg _ _ _ _ Ri) as Hs. pose proof (repr_states_nodup _ _ _ _ Ri) as Hnd. rewrite fmap_app in *. cbn [fmap list_fmap snd] in *.
    apply segment_app in Hs as [_ Hs]. cbn [deref]. rewrite (segment_head _ _ _ _ _ _ Hs), next_middle.
    2:{ apply NoDup_app in Hnd as (_ & Hd & _). intros Hx. apply (Hd s Hx). left. }
    cbn [mbind res_bind next]. destruct l2 as [|[c t] l2]; [reflexivity|]. cbn [head_or deref].
    destruct Hs as [_ Hs]. rewrite (segment_head _ _ _ _ _ _ Hs). reflexivity.
  - symmetry in Hin. apply bool_decide_eq_false in Hin. rewrite next_absent by exact Hin. reflexivity.
Qed.
End calls.

Lemma makeempty_agrees i l m q : stands_for i (l, m) q -> agrees i (makeemptylist i l m) (Ok []).
Proof.
  intros R. unfold makeemptylist. rewrite (stands_size _ _ _ _ R), Nat2Z.id.
  revert l m R. induction q as [|s q IH]; intros l m R.
  - destruct R as (items & Ri & Eq). pose proof (rp_first _ _ _ _ Ri) as Hf. destruct items; [|discriminate]. cbn in Hf. cbn. rewrite Hf. exists []. auto.
  - destruct R as (items & Ri & Eq). pose proof (rp_first _ _ _ _ Ri) as Hf. destruct items as [|[a s'] items]; [discriminate|].
    cbn in Eq. injection Eq as -> Eq. cbn [fst snd] in Ri, Hf. cbn [length makeempty_loop]. rewrite Hf. cbn [head_or deref].
    rewrite (segment_head _ _ _ _ _ _ (rp_seg _ _ _ _ Ri)), bind_ok_l. cbn [liststate].
    destruct (list_remove_ok i l m [] items a s Ri) as (l' & m' & -> & R' & _). rewrite bind_ok_l. apply IH. exists items. auto.
Qed.

Lemma call_agrees i c lm q : stands_for i lm q ->
  match do_call i c lm, call_spec c q with
  | Ok (a, lm'), Ok (a', q') => a = a' /\ stands_for i lm' q'
  | Err e, Err e' => e = e'
  | _, _ => False
  end.
Proof.
  intros R. destruct lm as [l m], c as [| |s|s|s|s| | | |s]; cbn [do_call call_spec].
  - split; [|exact R]. f_equal. unfold empty. rewrite (stands_size _ _ _ _ R). destruct q; reflexivity.
  - split; [|exact R]. f_equal. unfold full. rewrite (stands_size _ _ _ _ R). reflexivity.
  - split; [|exact R]. f_equal. exact (stands_in _ _ _ _ R s).
  - pose proof (insert_agrees _ _ _ _ R s) as H. unfold agrees in H. destruct (insert _ _ _ _), (insert_spec _ _); try contradiction; [split; [reflexivity|exact H]|exact H].
  - pose proof (insert_agrees _ _ _ _ R s) as H. unfold agrees in H. unfold insertinfront. destruct (insert _ _ _ _), (insert_spec _ _); try contradiction; [split; [reflexivity|exact H]|exact H].
  - pose proof (remove_agrees _ _ _ _ R s) as H. unfold agrees in H. destruct (remove _ _ _ _), (remove_spec _ _); try contradiction; [split; [reflexivity|exact H]|exact H].
  - pose proof (makeempty_agrees _ _ _ _ R) as H. unfold agrees in H. destruct (makeemptylist _ _ _); [split; [reflexivity|exact H]|contradiction].
  - rewrite (getfirst_stands _ _ _ _ R). split; [reflexivity|exact R].
  - rewrite (getlast_stands _ _ _ _ R). split; [reflexivity|exact R].
  - rewrite (getnext_stands _ _ _ _ R). destruct (next_spec s q); [split; [reflexivity|exact R]|reflexivity].
Qed.

(** C32: the linked list behaves as a sequence of states without repetition.
    Any sequence of calls on a new list, under any [listindex], gets the answers,
    or the exception, that the sequence gives: [insert] puts a state in front
    unless it is there or the list is full, [remove] takes it out wherever it
    is, [getfirst], [getlast] and [getnext] read the order. *)
Theorem list_refines_sequence listindex cs :
  answers (do_call listindex) cs (new_list, empty_memory) = answers call_spec cs [].
Proof.
  assert (R : stands_for listindex (new_list, empty_memory) []) by (exists []; split; [apply repr_new|reflexivity]).
  revert R. generalize (new_list, empty_memory) (@nil Z). induction cs as [|c cs IH]; intros lm q R; [reflexivity|]. cbn [answers].
  pose proof (call_agrees listindex c lm q R) as H. destruct (do_call listindex c lm) as [[a lm']|e], (call_spec c q) as [[a' q']|e']; try contradiction.
  - destruct H as [-> H]. f_equal. apply IH. exact H.
  - congruence.
Qed.
End SbplList.
