(* ===== verification/SbplSliding.v ===== *)
(** * Sliding buckets (src/libsbpl: utils/list.h)

    [CSlidingBucket]: a priority queue for priorities that lie within a window
    of [numofbuckets] from the last one popped.  A bucket per priority, used
    round and round; a pointer to a state is a number, NULL is [None]. *)

From S2P Require Import Prelude.

Module SbplSliding.

Record CSlidingBucket := mkSliding {
  bucketV : list (option (list (option Z)));
  lastelementindexV : list Z;
  numofbuckets : Z;
  bucketsize : Z;
  currentminelement_bindex : Z;
  currentminelement_index : Z;
  currentmaxelement_priority : Z;
  currentminelement_priority : Z;
  currentfirstbucket_bindex : Z;
  currentfirstbucket_priority : Z;
}.

Definition set_buckets (l : list (option (list (option Z)))) (c : CSlidingBucket) : CSlidingBucket :=
  mkSliding l (lastelementindexV c) (numofbuckets c) (bucketsize c) (currentminelement_bindex c) (currentminelement_index c)
    (currentmaxelement_priority c) (currentminelement_priority c) (currentfirstbucket_bindex c) (currentfirstbucket_priority c).
Definition set_last (l : list Z) (c : CSlidingBucket) : CSlidingBucket :=
  mkSliding (bucketV c) l (numofbuckets c) (bucketsize c) (currentminelement_bindex c) (currentminelement_index c)
    (currentmaxelement_priority c) (currentminelement_priority c) (currentfirstbucket_bindex c) (currentfirstbucket_priority c).
Definition set_min (bindex index priority : Z) (c : CSlidingBucket) : CSlidingBucket :=
  mkSliding (bucketV c) (lastelementindexV c) (numofbuckets c) (bucketsize c) bindex index
    (currentmaxelement_priority c) priority (currentfirstbucket_bindex c) (currentfirstbucket_priority c).
Definition set_max (priority : Z) (c : CSlidingBucket) : CSlidingBucket :=
  mkSliding (bucketV c) (lastelementindexV c) (numofbuckets c) (bucketsize c) (currentminelement_bindex c) (currentminelement_index c)
    priority (currentminelement_priority c) (currentfirstbucket_bindex c) (currentfirstbucket_priority c).
Definition set_first (bindex priority : Z) (c : CSlidingBucket) : CSlidingBucket :=
  mkSliding (bucketV c) (lastelementindexV c) (numofbuckets c) (bucketsize c) (currentminelement_bindex c) (currentminelement_index c)
    (currentmaxelement_priority c) (currentminelement_priority c) bindex priority.

(** [CSlidingBucket (num_of_buckets, bucket_size)]: a negative number makes [new]
    throw. *)
Definition new_sliding (num_of_buckets bucket_size : Z) : res CSlidingBucket :=
  if num_of_buckets <? 0 then Err Thrown else
  Ok (mkSliding (replicate (Z.to_nat num_of_buckets) None) (replicate (Z.to_nat num_of_buckets) (-1)) num_of_buckets bucket_size
    0 (-1) 0 0 0 0).

Definition empty (c : CSlidingBucket) : bool :=
  (currentminelement_index c =? -1) && (currentmaxelement_priority c =? currentminelement_priority c).

Definition getminkey (c : CSlidingBucket) : Z := currentminelement_priority c.

(** One round of the loop of [reset]. *)
Definition reset_bucket (c : CSlidingBucket) (i : Z) : res CSlidingBucket :=
  l ← aset (lastelementindexV c) i (-1);
  let c := set_last l c in
  b ← aget (bucketV c) i;
  match b with
  | None => Ok c
  | Some cells =>
      cells ← foldM (fun cells eind => aset cells eind None) cells (seqZ 0 (bucketsize c));
      v ← aset (bucketV c) i (Some cells);
      Ok (set_buckets v c)
  end.

Definition reset (c : CSlidingBucket) : res CSlidingBucket :=
  foldM reset_bucket (set_first 0 0 (set_max 0 (set_min 0 (-1) 0 c))) (seqZ 0 (numofbuckets c)).

(** [bucketV[bindex][index]] *)
Definition cell_at (c : CSlidingBucket) (bindex index : Z) : res (option Z) :=
  b ← aget (bucketV c) bindex;
  match b with None => Err OutOfBounds | Some cells => aget cells index end.

(** The element at the current minimum: NULL when there is no index, no bucket or
    no element. *)
Definition current (c : CSlidingBucket) : res (option Z) :=
  if currentminelement_index c =? -1 then Ok None else
  b ← aget (bucketV c) (currentminelement_bindex c);
  match b with None => Ok None | Some cells => aget cells (currentminelement_index c) end.

(** The loop of [recomputeandreturnmin]. *)
Fixpoint recompute_loop (fuel : nat) (c : CSlidingBucket) : res (option Z * CSlidingBucket) :=
  match fuel with
  | O => Err OutOfFuel
  | S fuel =>
      e ← current c;
      match e with
      | Some _ =>
          s ← cell_at c (currentminelement_bindex c) (currentminelement_index c);
          Ok (s, c)
      | None =>
          n ← aget (lastelementindexV c) (currentminelement_bindex c);
          if currentminelement_index c <? n then
            recompute_loop fuel (set_min (currentminelement_bindex c) (currentminelement_index c + 1) (currentminelement_priority c) c)
          else
            l ← aset (lastelementindexV c) (currentminelement_bindex c) (-1);
            let c := set_last l c in
            if currentminelement_priority c =? currentmaxelement_priority c then
              Ok (None, set_max (currentminelement_priority c) (set_min (currentminelement_bindex c) (-1) (currentminelement_priority c) c))
            else
              b ← add_int int32 (currentminelement_bindex c) 1;
              p ← add_int int32 (currentminelement_priority c) 1;
              recompute_loop fuel (set_min (Z.rem b (numofbuckets c)) 0 p c)
      end
  end.

(** Every priority up to the largest and every index within its bucket is passed
    at most once. *)
Definition recompute_fuel (c : CSlidingBucket) : nat :=
  Z.to_nat ((currentmaxelement_priority c - currentminelement_priority c + 1) * (bucketsize c + 2)).

Definition recomputeandreturnmin (c : CSlidingBucket) : res (option Z * CSlidingBucket) :=
  if empty c then Ok (None, c) else recompute_loop (recompute_fuel c) c.

(** The minimal element, looked for unless the current one is there. *)
Definition getminelement (c : CSlidingBucket) : res (option Z * CSlidingBucket) :=
  if empty c then Ok (None, c) else
  e ← current c;
  match e with
  | None => recomputeandreturnmin c
  | Some _ => s ← cell_at c (currentminelement_bindex c) (currentminelement_index c); Ok (s, c)
  end.

Definition popminelement (c : CSlidingBucket) : res (option Z * CSlidingBucket) :=
  if empty c then Ok (None, c) else
  '(currentelement, c) ← getminelement c;
  b ← aget (bucketV c) (currentminelement_bindex c);
  match b with
  | None => Err OutOfBounds
  | Some cells =>
      cells ← aset cells (currentminelement_index c) None;
      v ← aset (bucketV c) (currentminelement_bindex c) (Some cells);
      let c := set_first (currentminelement_bindex c) (currentminelement_priority c) (set_buckets v c) in
      '(_, c) ← recomputeandreturnmin c;
      Ok (currentelement, c)
  end.

Definition createbucket (bucketindex : Z) (c : CSlidingBucket) : res CSlidingBucket :=
  b ← aget (bucketV c) bucketindex;
  match b with
  | Some _ => Err Thrown
  | None =>
      if bucketsize c <? 0 then Err Thrown else
      v ← aset (bucketV c) bucketindex (Some (replicate (Z.to_nat (bucketsize c)) None));
      Ok (set_buckets v c)
  end.

(** Writes a state behind the last one, at index [n], of a bucket. *)
Definition put (bucket_index n s : Z) (c : CSlidingBucket) : res CSlidingBucket :=
  b ← aget (bucketV c) bucket_index;
  c ← match b with None => createbucket bucket_index c | Some _ => Ok c end;
  b ← aget (bucketV c) bucket_index;
  match b with
  | None => Err OutOfBounds
  | Some cells =>
      cells ← aset cells n (Some s);
      v ← aset (bucketV c) bucket_index (Some cells);
      Ok (set_buckets v c)
  end.

(** The remainder by zero is not defined. *)
Definition insert (s priority : Z) (c : CSlidingBucket) : res CSlidingBucket :=
  bucket_increment ← add_int int32 priority (- currentfirstbucket_priority c);
  sum ← add_int int32 (currentfirstbucket_bindex c) bucket_increment;
  if numofbuckets c =? 0 then Err OutOfBounds else
  let bucket_index := Z.rem sum (numofbuckets c) in
  if (numofbuckets c <=? bucket_increment) || (bucket_increment <? 0) then Err Thrown else
  n ← aget (lastelementindexV c) bucket_index;
  l ← aset (lastelementindexV c) bucket_index (n + 1);
  if n + 1 =? bucketsize c then Err Thrown else
  c ← put bucket_index (n + 1) s (set_last l c);
  let c := if currentmaxelement_priority c <? priority then set_max priority c else c in
  let c := if priority <? currentminelement_priority c then set_min bucket_index (currentminelement_index c) priority c else c in
  Ok (if (currentminelement_bindex c =? bucket_index) && (currentminelement_index c =? -1)
      then set_min (currentminelement_bindex c) 0 (currentminelement_priority c) c else c).
End SbplSliding.
