(* ===== verification/SbplSlidingSpec.v ===== *)
(** * Sliding buckets implement a priority queue (src/libsbpl: utils/list.h)

    A queue of states per priority; the first state of the least priority is
    popped.  The window of priorities starts at the last one popped. *)

From S2P Require Import Prelude.
From S2P Require Import SbplSliding.

Module SbplSlidingSpec.
Import SbplSliding.

(** [line p]: the states that wait with priority [p], in the order of their
    insertion; [gone]: how many were popped from the line of [first] since it was
    last empty, which a bucket does not reuse. *)
Record queue := mkQueue { first : Z; gone : Z; line : Z -> list Z }.

Definition new_queue : queue := mkQueue 0 0 (fun _ => []).
Definition used (q : queue) (p : Z) : Z := (if p =? first q then gone q else 0) + Z.of_nat (length (line q p)).
Definition pushed (s p : Z) (q : queue) : queue := mkQueue (first q) (gone q) (upd (line q) p (line q p ++ [s])).
Definition popped (p : Z) (l : list Z) (q : queue) : queue :=
  mkQueue p (if bool_decide (l = []) then 0 else if p =? first q then gone q + 1 else 1) (upd (line q) p l).

(** [s] is the first state of the least priority [p], before the states [l]. *)
Definition front (q : queue) (p s : Z) (l : list Z) : Prop := line q p = s :: l /\ forall p', p' < p -> line q p' = [].

(** ** The representation *)

(** The bucket of priority [p]. *)
Definition bucket (c : CSlidingBucket) (p : Z) : Z :=
  (currentfirstbucket_bindex c + (p - currentfirstbucket_priority c)) mod numofbuckets c.

(** Bucket [b] holds the states [l] from index [off] on. *)
Definition holds (c : CSlidingBucket) (b off : Z) (l : list Z) : Prop :=
  aget (lastelementindexV c) b = Ok (off + Z.of_nat (length l) - 1) /\ off + Z.of_nat (length l) <= bucketsize c /\
  match aget (bucketV c) b with
  | Err _ => False
  | Ok None => off = 0 /\ l = []
  | Ok (Some cells) => Z.of_nat (length cells) = bucketsize c /\
      forall j, 0 <= j < bucketsize c -> aget cells j = Ok (if off <=? j then l !! Z.to_nat (j - off) else None)
  end.

(** The parts of the representation that hold also while the minimum is sought. *)
Record frame (c : CSlidingBucket) (q : queue) : Prop := {
  fr_num : 0 < numofbuckets c /\ 2 * numofbuckets c <= INT_MAX;
  fr_size : 0 < bucketsize c;
  fr_first : currentfirstbucket_priority c = first q;
  fr_bindex : 0 <= currentfirstbucket_bindex c < numofbuckets c;
  fr_min : first q <= currentminelement_priority c <= currentmaxelement_priority c;
  fr_max : currentmaxelement_priority c < first q + numofbuckets c;
  fr_int : 0 <= first q /\ currentmaxelement_priority c <= INT_MAX;
  fr_here : currentminelement_bindex c = bucket c (currentminelement_priority c);
  fr_low : forall p, p < currentminelement_priority c -> line q p = [];
  fr_high : forall p, currentmaxelement_priority c < p -> line q p = [];
  fr_top : currentminelement_priority c < currentmaxelement_priority c -> line q (currentmaxelement_priority c) <> [];
  fr_others : forall p, first q <= p < first q + numofbuckets c -> p <> currentminelement_priority c -> holds c (bucket c p) 0 (line q p);
}.

Record rep (c : CSlidingBucket) (q : queue) : Prop := {
  rp_frame : frame c q;
  rp_index : -1 <= currentminelement_index c;
  rp_gone : gone q = Z.max 0 (currentminelement_index c);
  rp_none : currentminelement_index c = -1 -> currentminelement_priority c = first q;
  rp_some : currentminelement_index c = -1 <-> line q (currentminelement_priority c) = [];
  rp_gap : 0 < currentminelement_index c -> currentminelement_priority c = first q;
  rp_min : holds c (currentminelement_bindex c) (gone q) (line q (currentminelement_priority c));
}.

(** The minimum is sought: nothing is left at the current priority. *)
Record scan (c : CSlidingBucket) (q : queue) : Prop := {
  sc_frame : frame c q;
  sc_none : line q (currentminelement_priority c) = [];
  sc_index : -1 <= currentminelement_index c < bucketsize c;
  sc_last : exists n, aget (lastelementindexV c) (currentminelement_bindex c) = Ok n /\ n <= currentminelement_index c;
  sc_cells : match aget (bucketV c) (currentminelement_bindex c) with
    | Err _ => False
    | Ok None => True
    | Ok (Some cells) => Z.of_nat (length cells) = bucketsize c /\ forall j, 0 <= j < bucketsize c -> aget cells j = Ok None
    end;
}.

Lemma bucket_inj c p p' : 0 < numofbuckets c -> 
  currentfirstbucket_priority c <= p < currentfirstbucket_priority c + numofbuckets c ->
  currentfirstbucket_priority c <= p' < currentfirstbucket_priority c + numofbuckets c -> bucket c p = bucket c p' -> p = p'.
Proof.
  unfold bucket. intros Hn Hp Hp' E. set (b := currentfirstbucket_bindex c) in *. set (f := currentfirstbucket_priority c) in *.
  set (n := numofbuckets c) in *.
  pose proof (Z.div_mod (b + (p - f)) n ltac:(lia)) as D1. pose proof (Z.div_mod (b + (p' - f)) n ltac:(lia)) as D2. rewrite E in D1.
  assert ((b + (p - f)) / n = (b + (p' - f)) / n) by nia. nia.
Qed.

Lemma bucket_bounds c p : 0 < numofbuckets c -> 0 <= bucket c p < numofbuckets c.
Proof. apply Z.mod_pos_bound. Qed.

Lemma bucket_next c p : 0 < numofbuckets c -> Z.rem (bucket c p + 1) (numofbuckets c) = bucket c (p + 1).
Proof.
  intros Hn. pose proof (bucket_bounds c p Hn). rewrite Z.rem_mod_nonneg by lia. unfold bucket.
  rewrite Zplus_mod_idemp_l. f_equal. lia.
Qed.

(** Changes elsewhere do not matter to a bucket. *)
Lemma holds_same c c' b off l : aget (bucketV c') b = aget (bucketV c) b -> aget (lastelementindexV c') b = aget (lastelementindexV c) b ->
  bucketsize c' = bucketsize c -> holds c b off l -> holds c' b off l.
Proof. unfold holds. intros -> -> ->. auto. Qed.

(** A bucket that holds a list from index [off] on gives its first state there. *)
Lemma holds_front c b off s l : holds c b off (s :: l) -> 0 <= off -> cell_at c b off = Ok (Some s) /\
  exists cells, aget (bucketV c) b = Ok (Some cells) /\ off < bucketsize c.
Proof.
  intros (_ & Hsz & H) Hoff. cbn [length] in Hsz. unfold cell_at. destruct (aget (bucketV c) b) as [[cells|]|]; [| |contradiction].
  - destruct H as [Hl H]. rewrite bind_ok_l, H, (proj2 (Z.leb_le _ _)), Z.sub_diag by lia. split; [reflexivity|]. exists cells. split; [reflexivity|lia].
  - destruct H as [_ [=]].
Qed.

Lemma current_front c b s l : currentminelement_bindex c = b -> 0 <= currentminelement_index c ->
  holds c b (currentminelement_index c) (s :: l) -> current c = Ok (Some s) /\ cell_at c b (currentminelement_index c) = Ok (Some s).
Proof.
  intros Hb Hi H. destruct (holds_front _ _ _ _ _ H Hi) as (E & cells & Ec & _). split; [|exact E].
  unfold current. rewrite (proj2 (Z.eqb_neq _ _)) by lia. rewrite Hb. revert E. unfold cell_at. rewrite Ec, !bind_ok_l. auto.
Qed.

Lemma scan_current c q : scan c q -> current c = Ok None.
Proof.
  intros [F _ Hi _ Hc]. unfold current. destruct (Z.eqb_spec (currentminelement_index c) (-1)); [reflexivity|].
  destruct (aget _ _) as [[cells|]|]; [|reflexivity|contradiction]. rewrite bind_ok_l. apply Hc. lia.
Qed.

(** The next priority becomes the current one. *)
Definition advanced (c : CSlidingBucket) : CSlidingBucket :=
  set_min (bucket c (currentminelement_priority c + 1)) 0 (currentminelement_priority c + 1)
    (set_last (<[Z.to_nat (currentminelement_bindex c) := -1]> (lastelementindexV c)) c).

(** The bucket of the current priority once it is exhausted. *)
Lemma scan_cleared c q c' : scan c q -> lastelementindexV c' = <[Z.to_nat (currentminelement_bindex c) := -1]> (lastelementindexV c) ->
  bucketV c' = bucketV c -> bucketsize c' = bucketsize c -> holds c' (currentminelement_bindex c) 0 [].
Proof.
  intros [F _ Hi (n & Hn & _) Hc] E1 E2 E3. unfold holds. rewrite E1, E2, E3. pose proof (aget_bounds _ _ _ Hn) as Hb.
  rewrite aget_insert, decide_True by (exact Hb || reflexivity). pose proof (fr_size _ _ F). cbn [length]. split; [reflexivity|]. split; [lia|].
  destruct (aget (bucketV c) _) as [[cells|]|]; [|auto|contradiction]. destruct Hc as [Hl Hc]. split; [exact Hl|]. intros j Hj. rewrite Hc by exact Hj.
  rewrite (proj2 (Z.leb_le _ _)) by lia. reflexivity.
Qed.

Lemma scan_others c q c' : scan c q -> lastelementindexV c' = <[Z.to_nat (currentminelement_bindex c) := -1]> (lastelementindexV c) ->
  bucketV c' = bucketV c -> bucketsize c' = bucketsize c ->
  forall p, first q <= p < first q + numofbuckets c -> holds c' (bucket c p) 0 (line q p).
Proof.
  intros S E1 E2 E3 p Hp. pose proof (sc_frame _ _ S) as F. destruct (decide (p = currentminelement_priority c)) as [->|Hne].
  - rewrite (sc_none _ _ S), <- (fr_here _ _ F). eapply scan_cleared; eauto.
  - pose proof (fr_others _ _ F p Hp Hne) as H. eapply holds_same; [| |exact E3|exact H]; [rewrite E2; reflexivity|].
    rewrite E1, aget_insert, decide_False; [reflexivity| |].
    + rewrite (fr_here _ _ F). pose proof (fr_min _ _ F). pose proof (fr_max _ _ F). pose proof (fr_first _ _ F). intros E.
      apply bucket_inj in E; [congruence|exact (proj1 (fr_num _ _ F))|lia|lia].
    + destruct (sc_last _ _ S) as (n & Hn & _). exact (aget_bounds _ _ _ Hn).
Qed.

Lemma advanced_frame c q : scan c q -> currentminelement_priority c < currentmaxelement_priority c -> frame (advanced c) q.
Proof.
  intros S Hlt. pose proof (sc_frame _ _ S) as F. destruct F as [F1 F2 F3 F4 F5 F6 F7 F8 F9 F10 F11 F12]. split; try assumption; cbn.
  - lia.
  - reflexivity.
  - intros p Hp. destruct (decide (p = currentminelement_priority c)) as [->|]; [exact (sc_none _ _ S)|apply F9; lia].
  - intros Hp. apply F11. lia.
  - intros p Hp _. apply (scan_others c q (advanced c) S); [reflexivity..|exact Hp].
Qed.

Lemma advanced_scan c q : scan c q -> currentminelement_priority c < currentmaxelement_priority c ->
  line q (currentminelement_priority c + 1) = [] -> scan (advanced c) q.
Proof.
  intros S Hlt Hl. pose proof (sc_frame _ _ S) as F. pose proof (fr_min _ _ F). pose proof (fr_max _ _ F).
  destruct (scan_others c q (advanced c) S eq_refl eq_refl eq_refl (currentminelement_priority c + 1) ltac:(lia)) as (H1 & _ & H2).
  rewrite Hl in H1, H2. pose proof (fr_size _ _ F).
  split; [apply advanced_frame; assumption|exact Hl|cbn; lia|exists (-1); split; [exact H1|cbn; lia]|].
  change (currentminelement_bindex (advanced c)) with (bucket c (currentminelement_priority c + 1)).
  destruct (aget (bucketV (advanced c)) (bucket c (currentminelement_priority c + 1))) as [[cells|]|]; [|exact I|contradiction]. destruct H2 as [L H2]. split; [exact L|]. intros j Hj. rewrite H2 by exact Hj.
  destruct (0 <=? j); reflexivity.
Qed.

(** What a search for the minimum finds. *)
Definition sought (c : CSlidingBucket) (q : queue) (r : option Z) (c' : CSlidingBucket) : Prop :=
  frame c' q /\ currentfirstbucket_priority c' = currentfirstbucket_priority c /\ numofbuckets c' = numofbuckets c /\ bucketsize c' = bucketsize c /\
  match r with
  | None => (forall p, line q p = []) /\ currentminelement_index c' = -1 /\ currentminelement_priority c' = currentminelement_priority c /\
      currentmaxelement_priority c' = currentminelement_priority c /\ holds c' (currentminelement_bindex c') 0 []
  | Some s => exists p l, front q p s l /\ currentminelement_index c' = 0 /\ currentminelement_priority c' = p /\ currentminelement_priority c < p /\
      holds c' (currentminelement_bindex c') 0 (s :: l)
  end.

Lemma scan_ok fuel : forall c q, scan c q -> currentmaxelement_priority c - currentminelement_priority c + 1 < Z.of_nat fuel ->
  exists r c', recompute_loop fuel c = Ok (r, c') /\ sought c q r c'.
Proof.
  induction fuel as [|fuel IH]; intros c q S Hf; pose proof (sc_frame _ _ S) as F; pose proof (fr_min _ _ F) as Hm; [lia|].
  cbn [recompute_loop]. rewrite (scan_current _ _ S), bind_ok_l. destruct (sc_last _ _ S) as (n & Hn & Hni). rewrite Hn, bind_ok_l.
  rewrite (proj2 (Z.ltb_ge _ _)) by exact Hni. rewrite aset_in by exact (aget_bounds _ _ _ Hn). rewrite bind_ok_l. cbv zeta.
  cbn [currentminelement_priority currentmaxelement_priority set_last currentminelement_bindex numofbuckets].
  destruct (Z.eqb_spec (currentminelement_priority c) (currentmaxelement_priority c)) as [E|E].
  - eexists None, _. split; [reflexivity|].
    split; [|split; [reflexivity|split; [reflexivity|split; [reflexivity|]]]].
    + destruct F as [F1 F2 F3 F4 F5 F6 F7 F8 F9 F10 F11 F12]. split; try assumption; cbn; try (intros; lia).
      1: rewrite E; exact F7.
      1: rewrite E; exact F10.
      intros p Hp _. refine (scan_others c q _ S _ _ _ p Hp); reflexivity.
    + split; [|split; [reflexivity|split; [reflexivity|split; [reflexivity|]]]]; [|refine (scan_cleared c q _ S _ _ _); reflexivity].
      intros p. destruct (Z.lt_trichotomy p (currentminelement_priority c)) as [Hp|[->|Hp]]; [apply (fr_low _ _ F p Hp)|exact (sc_none _ _ S)|apply (fr_high _ _ F); lia].
  - pose proof (fr_num _ _ F) as [Hn0 Hn1]. pose proof (bucket_bounds c (currentminelement_priority c) Hn0) as Hbb. pose proof (fr_int _ _ F) as [Hi1 Hi2].
    pose proof (fr_here _ _ F) as Hh. assert (Hlt : currentminelement_priority c < currentmaxelement_priority c) by lia.
    rewrite (add_int_in int32 (currentminelement_bindex c)) by (rewrite Hh; unfold INT_MAX, int_min, int32 in *; cbn [int_max] in *; lia). rewrite bind_ok_l.
    rewrite add_int_in by (unfold INT_MAX, int_min, int32 in *; cbn [int_max] in *; lia). rewrite bind_ok_l.
    replace (Z.rem (currentminelement_bindex c + 1) (numofbuckets c)) with (bucket c (currentminelement_priority c + 1)) by (rewrite Hh; symmetry; apply bucket_next, Hn0).
    fold (advanced c).
    pose proof (advanced_frame c q S Hlt) as F'. pose proof (fr_max _ _ F) as Hmx.
    destruct (line q (currentminelement_priority c + 1)) as [|s l] eqn:El.
    + pose proof (advanced_scan c q S Hlt El) as S'. destruct (IH (advanced c) q S' ltac:(cbn; lia)) as (r & c' & Er & F2 & Hf1 & Hf2 & Hf3 & Hr).
      exists r, c'. split; [exact Er|]. split; [exact F2|]. split; [exact Hf1|]. split; [exact Hf2|]. split; [exact Hf3|].
      destruct r as [s|].
      * destruct Hr as (p & l & H1 & H2 & H3 & H4 & H5). exists p, l. split; [exact H1|]. split; [exact H2|]. split; [exact H3|]. split; [cbn in H4; lia|exact H5].
      * destruct Hr as (H1 & _). exfalso. apply (fr_top _ _ F Hlt), H1.
    + pose proof (scan_others c q (advanced c) S eq_refl eq_refl eq_refl (currentminelement_priority c + 1) ltac:(lia)) as H. rewrite El in H.
      destruct (current_front (advanced c) _ s l eq_refl ltac:(cbn; lia) H) as [E1 E2].
      assert (E3 : recompute_loop fuel (advanced c) = Ok (Some s, advanced c)).
      { destruct fuel; [lia|]. cbn [recompute_loop]. rewrite E1, bind_ok_l, E2. reflexivity. }
      exists (Some s), (advanced c). split; [exact E3|]. split; [exact F'|]. split; [reflexivity|]. split; [reflexivity|]. split; [reflexivity|].
      exists (currentminelement_priority c + 1), l. split; [|split; [reflexivity|split; [reflexivity|split; [lia|exact H]]]].
      split; [exact El|]. intros p' Hp'. destruct (decide (p' = currentminelement_priority c)) as [->|]; [exact (sc_none _ _ S)|apply (fr_low _ _ F); lia].
Qed.

(** ** The operations *)

Lemma rep_holds c q p : rep c q -> first q <= p < first q + numofbuckets c ->
  holds c (bucket c p) (if p =? first q then gone q else 0) (line q p).
Proof.
  intros R Hp. pose proof (rp_frame _ _ R) as F. destruct (decide (p = currentminelement_priority c)) as [->|Hne].
  - pose proof (rp_min _ _ R) as H. rewrite (fr_here _ _ F) in H. destruct (Z.eqb_spec (currentminelement_priority c) (first q)); [exact H|].
    replace (gone q) with 0 in H; [exact H|]. rewrite (rp_gone _ _ R). pose proof (rp_gap _ _ R). lia.
  - pose proof (fr_others _ _ F p Hp Hne) as H. destruct (Z.eqb_spec p (first q)) as [->|]; [|exact H].
    replace (gone q) with 0; [exact H|]. rewrite (rp_gone _ _ R). pose proof (rp_gap _ _ R). lia.
Qed.

Lemma empty_ok c q : rep c q -> empty c = true <-> forall p, line q p = [].
Proof.
  intros R. pose proof (rp_frame _ _ R) as F. pose proof (fr_min _ _ F) as Hm. unfold empty. rewrite andb_true_iff, !Z.eqb_eq. split.
  - intros [Hi He] p. apply (rp_some _ _ R) in Hi.
    destruct (Z.lt_trichotomy p (currentminelement_priority c)) as [Hp|[->|Hp]]; [apply (fr_low _ _ F p Hp)|exact Hi|apply (fr_high _ _ F); lia].
  - intros H. split; [apply (rp_some _ _ R), H|]. destruct (decide (currentminelement_priority c < currentmaxelement_priority c)) as [Hlt|]; [|lia].
    exfalso. apply (fr_top _ _ F Hlt), H.
Qed.

Lemma recompute_enough c q : frame c q -> currentmaxelement_priority c - currentminelement_priority c + 2 < Z.of_nat (recompute_fuel c).
Proof.
  intros F. pose proof (fr_min _ _ F). pose proof (fr_size _ _ F). unfold recompute_fuel. nia.
Qed.

(** Nothing at the current priority: the search for the minimum starts. *)
Lemma rep_scan c q : rep c q -> currentminelement_index c = -1 -> scan c q.
Proof.
  intros R Hi. pose proof (rp_frame _ _ R) as F. pose proof (proj1 (rp_some _ _ R) Hi) as Hn. pose proof (rp_min _ _ R) as (H1 & H2 & H3).
  rewrite Hn, (rp_gone _ _ R), Hi in *. change (Z.max 0 (-1)) with 0 in *. pose proof (fr_size _ _ F).
  split; [exact F|exact Hn|lia|exists (-1); split; [exact H1|lia]|].
  destruct (aget (bucketV c) (currentminelement_bindex c)) as [[cells|]|]; [|exact I|contradiction]. destruct H3 as [L H3]. split; [exact L|].
  intros j Hj. rewrite H3 by exact Hj. destruct (0 <=? j); reflexivity.
Qed.

(** The minimum that was found is the current one. *)
Lemma sought_rep c q s c' : sought c q (Some s) c' -> gone q = 0 ->
  rep c' q /\ currentminelement_index c' = 0 /\ exists l, front q (currentminelement_priority c') s l.
Proof.
  intros (F & _ & _ & _ & p & l & Hfr & Hi & <- & _ & Hh) Hg. destruct Hfr as [Hl Hlow].
  split; [|split; [exact Hi|exists l; split; assumption]]. split; try assumption; rewrite ?Hi, ?Hl, ?Hg; try lia.
  - split; [lia|discriminate].
  - exact Hh.
Qed.

Lemma getminelement_ok c q : rep c q -> empty c = false -> exists s l c', getminelement c = Ok (Some s, c') /\ rep c' q /\
  front q (currentminelement_priority c') s l /\ 0 <= currentminelement_index c' /\
  numofbuckets c' = numofbuckets c /\ bucketsize c' = bucketsize c.
Proof.
  intros R He. pose proof (rp_frame _ _ R) as F. unfold getminelement. rewrite He.
  destruct (Z.eqb_spec (currentminelement_index c) (-1)) as [Hi|Hi].
  - unfold current. rewrite (proj2 (Z.eqb_eq _ _) Hi), bind_ok_l. unfold recomputeandreturnmin. rewrite He.
    destruct (scan_ok (recompute_fuel c) c q (rep_scan _ _ R Hi)) as (r & c' & -> & S); [pose proof (recompute_enough _ _ F); lia|].
    destruct r as [s|].
    + pose proof (rp_gone _ _ R) as Hg. rewrite Hi in Hg. destruct (sought_rep _ _ _ _ S Hg) as (R' & Hi' & l & Hfr).
      destruct S as (_ & _ & En & Eb & _). exists s, l, c'. split; [reflexivity|]. split; [exact R'|]. split; [exact Hfr|]. split; [lia|]. auto.
    + destruct S as (_ & _ & _ & _ & Hall & _). apply (proj2 (empty_ok _ _ R)) in Hall. congruence.
  - pose proof (rp_index _ _ R). destruct (line q (currentminelement_priority c)) as [|s l] eqn:El; [apply (rp_some _ _ R) in El; lia|].
    pose proof (rp_min _ _ R) as Hh. rewrite El in Hh. replace (gone q) with (currentminelement_index c) in Hh by (rewrite (rp_gone _ _ R); lia).
    destruct (current_front c _ s l eq_refl ltac:(lia) Hh) as [-> E2]. rewrite bind_ok_l, E2. exists s, l, c.
    split; [reflexivity|]. split; [exact R|]. split; [split; [exact El|exact (fr_low _ _ F)]|]. split; [lia|auto].
Qed.

(** ** Popping *)

Lemma bucket_shift c p x : 0 < numofbuckets c -> bucket (set_first (bucket c p) p c) x = bucket c x.
Proof.
  intros Hn. unfold bucket. cbn [set_first currentfirstbucket_bindex currentfirstbucket_priority numofbuckets].
  rewrite Zplus_mod_idemp_l. f_equal. lia.
Qed.

Lemma bucket_round c x : 0 < numofbuckets c -> bucket c (x + numofbuckets c) = bucket c x.
Proof.
  intros Hn. unfold bucket. replace (currentfirstbucket_bindex c + (x + numofbuckets c - currentfirstbucket_priority c))
    with (currentfirstbucket_bindex c + (x - currentfirstbucket_priority c) + 1 * numofbuckets c) by lia. apply Z_mod_plus_full.
Qed.

(** The first state of the current bucket is erased. *)
Definition erased (v : list (option (list (option Z)))) (c : CSlidingBucket) : CSlidingBucket :=
  set_first (currentminelement_bindex c) (currentminelement_priority c) (set_buckets v c).

Section pop.
Context (c : CSlidingBucket) (q : queue) (s : Z) (l : list Z) (R : rep c q) (Hfr : front q (currentminelement_priority c) s l).
Context (Hi : 0 <= currentminelement_index c) (cells : list (option Z)) (Hc : aget (bucketV c) (currentminelement_bindex c) = Ok (Some cells)).

#[local] Abbreviation p := (currentminelement_priority c).
#[local] Abbreviation i := (currentminelement_index c).
#[local] Abbreviation b := (currentminelement_bindex c).
#[local] Abbreviation c2 := (erased (<[Z.to_nat b := Some (<[Z.to_nat i := None]> cells)]> (bucketV c)) c).
#[local] Abbreviation q2 := (popped p l q).

Lemma gone_index : gone q = i.
Proof using R Hi. rewrite (rp_gone _ _ R). lia. Qed.

Lemma cells_spec : Z.of_nat (length cells) = bucketsize c /\ i + Z.of_nat (length l) < bucketsize c /\
  aget (lastelementindexV c) b = Ok (i + Z.of_nat (length l)) /\
  forall j, 0 <= j < bucketsize c -> aget cells j = Ok (if i <=? j then (s :: l) !! Z.to_nat (j - i) else None).
Proof using R Hfr Hi Hc.
  pose proof (rp_min _ _ R) as (H1 & H2 & H3). rewrite Hc in H3. destruct H3 as [L H3]. destruct Hfr as [El _].
  rewrite El, gone_index in *. cbn [length] in *. split; [exact L|]. split; [lia|]. split; [rewrite H1; f_equal; lia|exact H3].
Qed.

Lemma erased_cells : forall j, 0 <= j < bucketsize c ->
  aget (<[Z.to_nat i := None]> cells) j = Ok (if i + 1 <=? j then l !! Z.to_nat (j - (i + 1)) else None).
Proof using R Hfr Hi Hc.
  destruct cells_spec as (L & H1 & _ & H2). intros j Hj. rewrite aget_insert by lia. case_decide as E.
  - rewrite (proj2 (Z.leb_gt _ _)) by lia. reflexivity.
  - rewrite H2 by exact Hj. destruct (Z.leb_spec i j), (Z.leb_spec (i + 1) j); try lia; [|reflexivity].
    replace (Z.to_nat (j - i)) with (S (Z.to_nat (j - (i + 1)))) by lia. reflexivity.
Qed.

Lemma erased_bucket x : bucket c2 x = bucket c x.
Proof using R.
  pose proof (rp_frame _ _ R) as F. rewrite <- (bucket_shift c p x) by apply (fr_num _ _ F). unfold erased. rewrite (fr_here _ _ F) at 1. reflexivity.
Qed.

Lemma erased_frame : frame c2 q2.
Proof using R Hfr Hi Hc.
  pose proof (rp_frame _ _ R) as F. pose proof F as [F1 F2 F3 F4 F5 F6 F7 F8 F9 F10 F11 F12]. pose proof (aget_bounds _ _ _ Hc) as Hb.
  split; try assumption; cbn [popped first line erased set_first set_buckets currentminelement_priority currentmaxelement_priority
    currentfirstbucket_bindex currentfirstbucket_priority numofbuckets currentminelement_bindex].
  - reflexivity.
  - rewrite F8. apply bucket_bounds, F1.
  - lia.
  - lia.
  - lia.
  - rewrite erased_bucket. exact F8.
  - intros x Hx. rewrite upd_ne by lia. apply F9, Hx.
  - intros x Hx. rewrite upd_ne by lia. apply F10, Hx.
  - intros Hlt. rewrite upd_ne by lia. apply F11, Hlt.
  - intros x Hx Hne. rewrite upd_ne by exact Hne. rewrite erased_bucket.
    assert (Hh : holds c (bucket c x) 0 (line q x)).
    { destruct (decide (x < first q + numofbuckets c)) as [Hw|Hw]; [apply F12; [lia|exact Hne]|].
      rewrite (F10 x) by lia. replace x with (x - numofbuckets c + numofbuckets c) by lia. rewrite bucket_round by apply F1.
      rewrite <- (F9 (x - numofbuckets c)) by lia. apply F12; lia. }
    eapply holds_same; [| | |exact Hh]; [|reflexivity..]. cbn. rewrite aget_insert, decide_False; [reflexivity| |exact Hb].
    rewrite F8. intros E. destruct (decide (x < first q + numofbuckets c)) as [Hw|Hw]; [apply bucket_inj in E; lia|].
    replace x with (x - numofbuckets c + numofbuckets c) in E by lia. rewrite bucket_round in E by apply F1. apply bucket_inj in E; lia.
Qed.

Lemma erased_current : current c2 = Ok None.
Proof using R Hfr Hi Hc.
  pose proof (aget_bounds _ _ _ Hc) as Hb. unfold current. cbn [erased set_first set_buckets currentminelement_index currentminelement_bindex bucketV].
  rewrite (proj2 (Z.eqb_neq _ _)) by lia. rewrite aget_insert, decide_True by (exact Hb || reflexivity). rewrite bind_ok_l.
  destruct cells_spec as (_ & H1 & _). rewrite erased_cells by lia. rewrite (proj2 (Z.leb_gt _ _)) by lia. reflexivity.
Qed.

(** The next state of the same bucket, or one of the next bucket that has one. *)
Lemma erased_recompute : exists r c', recomputeandreturnmin c2 = Ok (r, c') /\ rep c' q2 /\
  numofbuckets c' = numofbuckets c /\ bucketsize c' = bucketsize c.
Proof using R Hfr Hi Hc.
  pose proof erased_frame as F. pose proof (rp_frame _ _ R) as F0. pose proof (aget_bounds _ _ _ Hc) as Hb. destruct cells_spec as (Lc & H1 & Hlast & _).
  unfold recomputeandreturnmin. assert (He : empty c2 = false) by (unfold empty; cbn; rewrite (proj2 (Z.eqb_neq _ _)) by lia; reflexivity).
  rewrite He. pose proof (recompute_enough _ _ F) as Hfuel. pose proof (fr_min _ _ F) as Hm.
  assert (Hcell : aget (bucketV c2) b = Ok (Some (<[Z.to_nat i := None]> cells))) by (cbn; rewrite aget_insert, decide_True by (exact Hb || reflexivity); reflexivity).
  assert (Hl : line q2 p = l) by apply upd_eq.
  destruct (decide (l = [])) as [El|El].
  - destruct (scan_ok (recompute_fuel c2) c2 q2) as (r & c' & E & S); [|lia|].
    + split; [exact F|etransitivity; [exact Hl|exact El]|cbn; lia|exists i; split; [|cbn; lia]|].
      * cbn [erased set_first set_buckets lastelementindexV currentminelement_bindex]. rewrite Hlast, El. f_equal. cbn. lia.
      * change (currentminelement_bindex c2) with b. rewrite Hcell. split; [rewrite length_insert; exact Lc|]. intros j Hj. rewrite erased_cells, El by exact Hj.
        destruct (_ <=? _); reflexivity.
    + exists r, c'. split; [exact E|]. split; [|destruct S as (_ & _ & ? & ? & _); auto]. destruct r as [t|].
      * apply (sought_rep _ _ _ _ S). cbn. rewrite bool_decide_eq_true_2 by exact El. reflexivity.
      * assert (Hg : gone q2 = 0) by (cbn; rewrite bool_decide_eq_true_2 by exact El; reflexivity).
        destruct S as (F' & _ & _ & _ & Hall & Hi' & Hp & Hx & Hh). split; try assumption; rewrite ?Hi', ?Hg; try lia.
        -- intros _. rewrite Hp. reflexivity.
        -- split; [intros _; apply Hall|reflexivity].
        -- rewrite Hall. exact Hh.
  - set (c3 := set_min b (i + 1) p c2). assert (Hne : (0 < length l)%nat) by (destruct l; [congruence|cbn; lia]).
    assert (Hh : holds c3 b (i + 1) l).
    { split; [change (aget (lastelementindexV c) b = Ok (i + 1 + Z.of_nat (length l) - 1)); rewrite Hlast; f_equal; lia|].
      split; [change (bucketsize c3) with (bucketsize c); lia|]. change (bucketV c3) with (bucketV c2). rewrite Hcell.
      split; [rewrite length_insert; exact Lc|]. exact erased_cells. }
    assert (Hrun : exists t, recompute_loop (recompute_fuel c2) c2 = Ok (Some t, c3)).
    { assert (exists t l', l = t :: l') as (t & l' & Et) by (destruct l as [|t l']; [congruence|eauto]). exists t.
      assert (Hh' : holds c3 b (i + 1) (t :: l')) by (rewrite <- Et; exact Hh). destruct (recompute_fuel c2) as [|[|fuel]] eqn:Ef; [lia|lia|]. cbn [recompute_loop]. rewrite erased_current, bind_ok_l.
      change (aget (lastelementindexV c2) (currentminelement_bindex c2)) with (aget (lastelementindexV c) b). rewrite Hlast, bind_ok_l.
      change (currentminelement_index c2) with i. rewrite (proj2 (Z.ltb_lt _ _)) by lia. fold c3.
      change (set_min (currentminelement_bindex c2) (i + 1) (currentminelement_priority c2) c2) with c3.
      destruct (current_front c3 b t l' eq_refl ltac:(cbn; lia) Hh') as [-> E2]. rewrite bind_ok_l.
      change (cell_at c3 (currentminelement_bindex c3) (currentminelement_index c3) = Ok (Some t)) in E2. rewrite E2. reflexivity. }
    destruct Hrun as [t Hrun]. exists (Some t), c3. split; [exact Hrun|]. split; [|split; reflexivity].
    assert (Hg : gone q2 = i + 1).
    { cbn [popped gone]. rewrite bool_decide_eq_false_2 by exact El. pose proof gone_index as Hg. pose proof (rp_gap _ _ R) as Hgap.
      destruct (Z.eqb_spec p (first q)); lia. }
    split.
    + destruct F as [A1 A2 A3 A4 A5 A6 A7 A8 A9 A10 A11 A12]. split; assumption.
    + cbn. lia.
    + rewrite Hg. cbn. lia.
    + intros _. reflexivity.
    + change (currentminelement_priority c3) with p. rewrite Hl. cbn. split; [lia|intros; congruence].
    + intros _. reflexivity.
    + change (currentminelement_priority c3) with p. rewrite Hl, Hg. exact Hh.
Qed.
End pop.

Lemma popminelement_ok c q : rep c q -> empty c = false -> exists p s l c', front q p s l /\
  popminelement c = Ok (Some s, c') /\ rep c' (popped p l q) /\ numofbuckets c' = numofbuckets c /\ bucketsize c' = bucketsize c.
Proof.
  intros R He. unfold popminelement. rewrite He.
  destruct (getminelement_ok c q R He) as (s & l & c1 & -> & R1 & Hfr & Hi & En & Eb). rewrite bind_ok_l.
  assert (Hc : exists cells, aget (bucketV c1) (currentminelement_bindex c1) = Ok (Some cells)).
  { pose proof (rp_min _ _ R1) as H. rewrite (proj1 Hfr) in H. destruct (holds_front _ _ _ _ _ H) as (_ & cells & Hc & _); [|eauto].
    rewrite (rp_gone _ _ R1). lia. }
  destruct Hc as [cells Hc]. rewrite Hc, bind_ok_l. destruct (cells_spec c1 q s l R1 Hfr Hi cells Hc) as (L & Hlt & _).
  rewrite aset_in by lia. rewrite bind_ok_l, aset_in by exact (aget_bounds _ _ _ Hc). rewrite bind_ok_l. cbv zeta.
  destruct (erased_recompute c1 q s l R1 Hfr Hi cells Hc) as (r & c' & Er & R2 & En2 & Eb2). unfold erased in Er. rewrite Er, bind_ok_l.
  exists (currentminelement_priority c1), s, l, c'. split; [exact Hfr|]. split; [reflexivity|]. split; [exact R2|]. split; congruence.
Qed.

(** ** Inserting *)

(** The bucket with one more state. *)
Definition with_state (b s : Z) (off : Z) (l : list Z) (c c' : CSlidingBucket) : Prop :=
  holds c' b off (l ++ [s]) /\ numofbuckets c' = numofbuckets c /\ bucketsize c' = bucketsize c /\
  currentminelement_bindex c' = currentminelement_bindex c /\ currentminelement_index c' = currentminelement_index c /\
  currentmaxelement_priority c' = currentmaxelement_priority c /\ currentminelement_priority c' = currentminelement_priority c /\
  currentfirstbucket_bindex c' = currentfirstbucket_bindex c /\ currentfirstbucket_priority c' = currentfirstbucket_priority c /\
  forall b', b' <> b -> aget (bucketV c') b' = aget (bucketV c) b' /\ aget (lastelementindexV c') b' = aget (lastelementindexV c) b'.

Lemma put_ok c b off l s lst : holds c b off l -> 0 <= off -> off + Z.of_nat (length l) < bucketsize c ->
  lst = <[Z.to_nat b := off + Z.of_nat (length l)]> (lastelementindexV c) ->
  exists c', put b (off + Z.of_nat (length l)) s (set_last lst c) = Ok c' /\ with_state b s off l c c'.
Proof.
  intros (H1 & H2 & H3) Hoff Hlt ->. pose proof (aget_bounds _ _ _ H1) as Hb1. unfold put. cbn [set_last bucketV].
  set (c1 := set_last _ c).
  assert (Hcells : exists v cells, (x ← aget (bucketV c) b; match x with None => createbucket b c1 | Some _ => Ok c1 end) = Ok (set_buckets v c1) /\
    aget v b = Ok (Some cells) /\ Z.of_nat (length cells) = bucketsize c /\
    (forall j, 0 <= j < bucketsize c -> aget cells j = Ok (if off <=? j then l !! Z.to_nat (j - off) else None)) /\
    forall b', b' <> b -> aget v b' = aget (bucketV c) b').
  { destruct (aget (bucketV c) b) as [[cells|]|] eqn:Ec; [| |contradiction]; rewrite bind_ok_l.
    - exists (bucketV c), cells. split; [reflexivity|]. split; [exact Ec|]. destruct H3. auto.
    - destruct H3 as [-> ->]. pose proof (aget_bounds _ _ _ Ec) as Hb. unfold createbucket. cbn [c1 set_last bucketV bucketsize]. rewrite Ec, bind_ok_l.
      cbn [length] in Hlt. rewrite (proj2 (Z.ltb_ge _ _)) by lia. rewrite aset_in by exact Hb. rewrite bind_ok_l.
      eexists _, _. split; [reflexivity|]. rewrite aget_insert, decide_True by (exact Hb || reflexivity). split; [reflexivity|].
      split; [rewrite length_replicate; lia|]. split.
      + intros j Hj. rewrite (proj2 (Z.leb_le _ _)) by lia. apply aget_Ok. split; [lia|]. apply lookup_replicate. split; [|lia]. reflexivity.
      + intros b' Hne. rewrite aget_insert, decide_False by (exact Hb || exact Hne). reflexivity. }
  destruct Hcells as (v & cells & E & Hv & Hl & Hj & Hne).
  revert E. destruct (aget (bucketV c) b) as [x|]; [|discriminate]. rewrite !bind_ok_l. intros ->. rewrite bind_ok_l. cbn [set_buckets bucketV].
  rewrite Hv, bind_ok_l. rewrite aset_in by lia. rewrite bind_ok_l, aset_in by exact (aget_bounds _ _ _ Hv). rewrite bind_ok_l.
  eexists. split; [reflexivity|]. split; [|split_and!; try reflexivity].
  - unfold holds. cbn [set_buckets c1 set_last lastelementindexV bucketV bucketsize]. rewrite length_app. cbn [length].
    rewrite !aget_insert, !decide_True by (reflexivity || exact Hb1 || exact (aget_bounds _ _ _ Hv)).
    split; [f_equal; lia|]. split; [lia|]. split; [rewrite length_insert; exact Hl|]. intros j Hjj. rewrite aget_insert by lia.
    case_decide as E.
    + rewrite (proj2 (Z.leb_le _ _)) by lia. f_equal. symmetry. rewrite lookup_app_r by lia. apply list_lookup_singleton_Some. split; [lia|reflexivity].
    + rewrite Hj by exact Hjj. destruct (Z.leb_spec off j); [|reflexivity]. f_equal. destruct (decide (j < off + Z.of_nat (length l))).
      * rewrite lookup_app_l by lia. reflexivity.
      * rewrite !lookup_ge_None_2; [reflexivity|rewrite length_app; cbn; lia|lia].
  - intros b' Hb'. cbn [set_buckets c1 set_last lastelementindexV bucketV].
    rewrite !aget_insert, !decide_False by (exact Hb' || exact Hb1 || exact (aget_bounds _ _ _ Hv)). split; [apply Hne, Hb'|reflexivity].
Qed.

(** The bounds on the minimum and the maximum after an insertion. *)
Definition bounded_by (p : Z) (c c1 c' : CSlidingBucket) : Prop :=
  bucketV c' = bucketV c1 /\ lastelementindexV c' = lastelementindexV c1 /\ numofbuckets c' = numofbuckets c /\ bucketsize c' = bucketsize c /\
  currentmaxelement_priority c' = Z.max p (currentmaxelement_priority c) /\ currentminelement_priority c' = Z.min p (currentminelement_priority c) /\
  currentminelement_bindex c' = bucket c (currentminelement_priority c') /\
  currentminelement_index c' = (if p <=? currentminelement_priority c then Z.max 0 (currentminelement_index c) else currentminelement_index c) /\
  currentfirstbucket_bindex c' = currentfirstbucket_bindex c /\ currentfirstbucket_priority c' = currentfirstbucket_priority c.

Lemma insert_ends c q p c1 b off l s : rep c q -> first q <= p < first q + numofbuckets c -> b = bucket c p -> with_state b s off l c c1 ->
  let c2 := if currentmaxelement_priority c1 <? p then set_max p c1 else c1 in
  let c3 := if p <? currentminelement_priority c2 then set_min b (currentminelement_index c2) p c2 else c2 in
  bounded_by p c c1 (if (currentminelement_bindex c3 =? b) && (currentminelement_index c3 =? -1)
      then set_min (currentminelement_bindex c3) 0 (currentminelement_priority c3) c3 else c3).
Proof.
  intros R Hp -> (_ & E1 & E2 & E3 & E4 & E5 & E6 & E7 & E8 & _) c2 c3. pose proof (rp_frame _ _ R) as F. pose proof (rp_index _ _ R) as Hi.
  pose proof (fr_min _ _ F) as Hm. pose proof (fr_max _ _ F) as Hx. pose proof (fr_here _ _ F) as Hh. pose proof (rp_none _ _ R) as Hno.
  assert (Hb : currentminelement_bindex c = bucket c p <-> p = currentminelement_priority c).
  { rewrite Hh. split; [|intros ->; reflexivity]. intros E. apply bucket_inj in E; [auto|apply (fr_num _ _ F)|rewrite (fr_first _ _ F); lia..]. }
  unfold bounded_by. subst c2 c3. destruct (Z.ltb_spec (currentmaxelement_priority c1) p) as [H1|H1]; cbn [set_max currentminelement_priority currentminelement_index];
    rewrite E6; (destruct (Z.ltb_spec p (currentminelement_priority c)) as [H2|H2];
      cbn [set_min set_max currentminelement_priority currentminelement_index currentminelement_bindex]; rewrite ?E3, ?E4, ?Z.eqb_refl; cbn [andb]).
  all: try lia.
  - destruct (Z.eqb_spec (currentminelement_bindex c) (bucket c p)) as [H3|H3]; [apply Hb in H3; lia|]. cbn. rewrite ?E1, ?E2, ?E3, ?E4, ?E5, ?E6, ?E7, ?E8.
    split_and!; try reflexivity; try lia.
    rewrite (proj2 (Z.leb_gt _ _)) by lia. reflexivity.
  - destruct (Z.eqb_spec (currentminelement_index c) (-1)); [lia|]. cbn. rewrite ?E1, ?E2, ?E3, ?E4, ?E5, ?E6, ?E7, ?E8. split_and!; try reflexivity; try lia.
    rewrite (proj2 (Z.leb_le _ _)) by lia. lia.
  - assert (Hcase : bucket c p = currentminelement_bindex c /\ p = currentminelement_priority c \/
      bucket c p <> currentminelement_bindex c /\ currentminelement_priority c < p) by lia.
    destruct Hcase as [[H3 H4]|[H3 H4]].
    + rewrite (proj2 (Z.eqb_eq (currentminelement_bindex c) _)) by auto. cbn [andb]. rewrite (proj2 (Z.leb_le p _)) by lia.
      destruct (Z.eqb_spec (currentminelement_index c) (-1)) as [H5|H5]; cbn; rewrite ?E1, ?E2, ?E3, ?E4, ?E5, ?E6, ?E7, ?E8; split_and!; try reflexivity; try lia;
        rewrite Z.min_r by lia; exact Hh.
    + rewrite (proj2 (Z.eqb_neq (currentminelement_bindex c) _)) by auto. cbn. rewrite ?E1, ?E2, ?E3, ?E4, ?E5, ?E6, ?E7, ?E8.
      rewrite (proj2 (Z.leb_gt p _)) by lia. split_and!; try reflexivity; try lia.
Qed.

(** The representation after an insertion. *)
Lemma insert_rep s p c q c1 c' off : rep c q -> first q <= p < first q + numofbuckets c -> 0 <= p <= INT_MAX - numofbuckets c ->
  off = (if p =? first q then gone q else 0) -> with_state (bucket c p) s off (line q p) c c1 -> bounded_by p c c1 c' -> rep c' (pushed s p q).
Proof.
  intros R Hpw Hp Eoff (W1 & _ & W3 & _ & _ & _ & _ & _ & _ & W) (B1 & B2 & B3 & B4 & B5 & B6 & B7 & B8 & B9 & B10).
  pose proof (rp_frame _ _ R) as F. pose proof F as [F1 F2 F3 F4 F5 F6 F7 F8 F9 F10 F11 F12]. unfold INT_MAX, int32 in *. cbn [int_max] in *.
  assert (Hbk : forall x, bucket c' x = bucket c x) by (intros x; unfold bucket; rewrite B3, B9, B10; reflexivity).
  pose proof (rp_index _ _ R) as Ri. pose proof (rp_none _ _ R) as Rn. pose proof (rp_gap _ _ R) as Rg. pose proof (rp_gone _ _ R) as Rgo.
  pose proof (rp_some _ _ R) as Rs.
  assert (Hother : forall x, first q <= x < first q + numofbuckets c -> x <> p ->
    holds c' (bucket c x) (if x =? first q then gone q else 0) (line q x)).
  { intros x Hx Hne. destruct (W (bucket c x)) as [W5 W6]; [intros E; apply bucket_inj in E; lia|].
    eapply holds_same; [| |exact B4|exact (rep_holds c q x R Hx)]; [rewrite B1; exact W5|rewrite B2; exact W6]. }
  assert (Hthis : holds c' (bucket c p) off (line q p ++ [s])).
  { eapply holds_same; [| | |exact W1]; [rewrite B1; reflexivity|rewrite B2; reflexivity|congruence]. }
  split; [split|..]; cbn [pushed first gone line]; rewrite ?B3, ?B4, ?B9, ?B10.
  - exact F1.
  - exact F2.
  - exact F3.
  - exact F4.
  - rewrite B5, B6. lia.
  - rewrite B5. lia.
  - rewrite B5. unfold INT_MAX, int32. cbn [int_max]. lia.
  - rewrite B7, Hbk. reflexivity.
  - intros x Hx. rewrite B6 in Hx. rewrite upd_ne by lia. apply F9. lia.
  - intros x Hx. rewrite B5 in Hx. rewrite upd_ne by lia. apply F10. lia.
  - intros Hlt. rewrite B5, B6 in *. unfold upd. case_decide as E; [destruct (line q p); discriminate|].
    replace (Z.max p (currentmaxelement_priority c)) with (currentmaxelement_priority c) by lia.
    destruct (decide (currentminelement_priority c < currentmaxelement_priority c)) as [Hm|Hm]; [exact (F11 Hm)|].
    replace (currentmaxelement_priority c) with (currentminelement_priority c) by lia. intros Hn%Rs. lia.
  - intros x Hx Hne. rewrite Hbk. unfold upd. case_decide as E.
    + subst x. assert (Hmin : currentminelement_priority c < p) by lia. replace off with 0 in Hthis; [exact Hthis|].
      rewrite Eoff. destruct (Z.eqb_spec p (first q)); lia.
    + pose proof (Hother x Hx E) as Ho. destruct (Z.eqb_spec x (first q)) as [Ex|]; [|exact Ho].
      replace (gone q) with 0 in Ho; [exact Ho|]. rewrite Rgo. rewrite B6 in Hne. lia.
  - rewrite B8. destruct (_ <=? _); lia.
  - rewrite B8, Rgo. destruct (_ <=? _); lia.
  - rewrite B8, B6. destruct (Z.leb_spec p (currentminelement_priority c)); lia.
  - rewrite B8, B6. unfold upd. destruct (Z.leb_spec p (currentminelement_priority c)).
    + replace (Z.min p (currentminelement_priority c)) with p by lia. rewrite decide_True by reflexivity. split; [lia|]. destruct (line q p); discriminate.
    + replace (Z.min p (currentminelement_priority c)) with (currentminelement_priority c) by lia. rewrite decide_False by lia. exact Rs.
  - rewrite B8, B6. destruct (Z.leb_spec p (currentminelement_priority c)); lia.
  - rewrite B7, B6. unfold upd. case_decide as E.
    + rewrite E. replace (gone q) with off; [exact Hthis|]. rewrite Eoff.
      destruct (Z.eqb_spec p (first q)); lia.
    + pose proof (Hother (Z.min p (currentminelement_priority c)) ltac:(lia) E) as Ho.
      destruct (Z.eqb_spec (Z.min p (currentminelement_priority c)) (first q)) as [|Hf]; [exact Ho|].
      replace (gone q) with 0; [exact Ho|]. rewrite Rgo. lia.
Qed.

Lemma sliding_insert_ok s p c q : rep c q -> 0 <= p <= INT_MAX - numofbuckets c ->
  if (p <? first q) || (first q + numofbuckets c <=? p) || (bucketsize c <=? used q p) then insert s p c = Err Thrown
  else exists c', insert s p c = Ok c' /\ rep c' (pushed s p q) /\ numofbuckets c' = numofbuckets c /\ bucketsize c' = bucketsize c.
Proof.
  intros R Hp. pose proof (rp_frame _ _ R) as F. pose proof F as [F1 F2 F3 F4 F5 F6 F7 F8 F9 F10 F11 F12].
  unfold insert. rewrite F3. unfold INT_MAX, int32 in *. cbn [int_max] in *. rewrite !add_int_in by (unfold int_min, int32; cbn [int_max]; lia). rewrite bind_ok_l.
  rewrite add_int_in by (unfold int_min, int32; cbn [int_max]; lia). rewrite bind_ok_l. rewrite (proj2 (Z.eqb_neq _ _)) by lia. cbv zeta.
  destruct (Z.ltb_spec p (first q)) as [H1|H1]; cbn [orb].
  { rewrite (proj2 (Z.ltb_lt (p + - first q) 0)) by lia. rewrite orb_true_r. reflexivity. }
  destruct (Z.leb_spec (first q + numofbuckets c) p) as [H2|H2]; cbn [orb].
  { rewrite (proj2 (Z.leb_le (numofbuckets c) _)) by lia. reflexivity. }
  rewrite (proj2 (Z.leb_gt (numofbuckets c) _)), (proj2 (Z.ltb_ge _ 0)) by lia. cbn [orb].
  replace (Z.rem (currentfirstbucket_bindex c + (p + - first q)) (numofbuckets c)) with (bucket c p)
    by (unfold bucket; rewrite Z.rem_mod_nonneg, F3 by lia; f_equal; lia).
  pose proof (rep_holds c q p R ltac:(lia)) as Hh. set (off := if p =? first q then gone q else 0) in *.
  assert (Hoff : 0 <= off) by (unfold off; destruct (_ =? _); [rewrite (rp_gone _ _ R)|]; lia).
  assert (Hu : used q p = off + Z.of_nat (length (line q p))) by reflexivity. pose proof Hh as (Hl & Hle & _).
  rewrite Hl, bind_ok_l, aset_in by exact (aget_bounds _ _ _ Hl). rewrite bind_ok_l.
  replace (off + Z.of_nat (length (line q p)) - 1 + 1) with (used q p) by lia.
  destruct (Z.leb_spec (bucketsize c) (used q p)) as [H3|H3].
  { rewrite (proj2 (Z.eqb_eq _ _)) by lia. reflexivity. }
  rewrite (proj2 (Z.eqb_neq _ _)) by lia. rewrite Hu in *.
  destruct (put_ok c (bucket c p) off (line q p) s _ Hh Hoff H3 eq_refl) as (c1 & -> & W). rewrite bind_ok_l.
  pose proof (insert_ends c q p c1 _ off _ s R ltac:(lia) eq_refl W) as Hend. cbv zeta in Hend.
  match type of Hend with bounded_by _ _ _ ?x => exists x end. split; [reflexivity|].
  split; [exact (insert_rep s p c q c1 _ off R ltac:(lia) ltac:(unfold INT_MAX, int32; cbn [int_max]; lia) eq_refl W Hend)|].
  split; apply Hend.
Qed.

(** ** A new list, and an old one emptied *)

(** Every bucket has its two entries, and the size of a bucket if it has cells. *)
Definition sane (c : CSlidingBucket) : Prop :=
  forall b, 0 <= b < numofbuckets c -> (exists n, aget (lastelementindexV c) b = Ok n) /\
    match aget (bucketV c) b with
    | Err _ => False | Ok None => True | Ok (Some cells) => Z.of_nat (length cells) = bucketsize c
    end.

(** Bucket [b] is empty. *)
Definition cleared (c : CSlidingBucket) (b : Z) : Prop := holds c b 0 [].

Lemma fresh_rep c : 0 < numofbuckets c -> 2 * numofbuckets c <= INT_MAX -> 0 < bucketsize c ->
  currentfirstbucket_bindex c = 0 -> currentfirstbucket_priority c = 0 -> currentminelement_bindex c = 0 -> currentminelement_index c = -1 ->
  currentminelement_priority c = 0 -> currentmaxelement_priority c = 0 -> (forall b, 0 <= b < numofbuckets c -> cleared c b) -> rep c new_queue.
Proof.
  intros Hn Hm Hs E1 E2 E3 E4 E5 E6 H. pose proof (bucket_bounds c) as Hb. split; [split|..]; cbn [new_queue first gone line]; rewrite ?E1, ?E2, ?E3, ?E4, ?E5, ?E6;
    try lia; try reflexivity; try (unfold INT_MAX, int32 in *; cbn [int_max] in *; lia).
  - unfold bucket. rewrite E1, E2. reflexivity.
  - intros p _ _. apply H, Hb, Hn.
  - split; reflexivity.
  - apply H. lia.
Qed.

Lemma new_ok N B : 0 < N -> 2 * N <= INT_MAX -> 0 < B -> exists c, new_sliding N B = Ok c /\ rep c new_queue /\ numofbuckets c = N /\ bucketsize c = B.
Proof.
  intros H1 H2 H3. unfold new_sliding. rewrite (proj2 (Z.ltb_ge _ _)) by lia. eexists. split; [reflexivity|]. split; [|split; reflexivity].
  apply fresh_rep; try reflexivity; try assumption. cbn. intros b Hb.
  assert (Hr : forall A (x : A), aget (replicate (Z.to_nat N) x) b = Ok x).
  { intros A x. apply aget_Ok. split; [lia|]. apply lookup_replicate. split; [reflexivity|lia]. }
  unfold cleared, holds. cbn [lastelementindexV bucketV bucketsize length]. rewrite !Hr. split; [reflexivity|]. split; [lia|auto].
Qed.

Lemma holds_sane c b off l : holds c b off l -> (exists n, aget (lastelementindexV c) b = Ok n) /\
  match aget (bucketV c) b with Err _ => False | Ok None => True | Ok (Some cells) => Z.of_nat (length cells) = bucketsize c end.
Proof.
  intros (H1 & _ & H3). split; [eauto|]. destruct (aget (bucketV c) b) as [[cells|]|]; [apply H3|exact I|exact H3].
Qed.

Lemma rep_sane c q : rep c q -> sane c.
Proof.
  intros R b Hb. pose proof (rp_frame _ _ R) as F. pose proof (fr_bindex _ _ F). pose proof (fr_first _ _ F).
  set (d := b - currentfirstbucket_bindex c). set (p := first q + (if d <? 0 then d + numofbuckets c else d)).
  assert (Hd : bucket c p = b /\ first q <= p < first q + numofbuckets c).
  { unfold bucket, p, d. destruct (Z.ltb_spec (b - currentfirstbucket_bindex c) 0).
    - split; [|lia]. replace (_ + _) with (b + 1 * numofbuckets c) by lia. rewrite Z_mod_plus_full. apply Z.mod_small, Hb.
    - split; [|lia]. replace (_ + _) with b by lia. apply Z.mod_small, Hb. }
  destruct Hd as [Eb Hp]. pose proof (rep_holds c q p R Hp) as Hh. rewrite Eb in Hh. exact (holds_sane _ _ _ _ Hh).
Qed.

Lemma reset_bucket_ok c b : sane c -> 0 < bucketsize c -> 0 <= b < numofbuckets c -> exists v l, reset_bucket c b = Ok (set_buckets v (set_last l c)) /\
  cleared (set_buckets v (set_last l c)) b /\ forall b', b' <> b -> aget v b' = aget (bucketV c) b' /\ aget l b' = aget (lastelementindexV c) b'.
Proof.
  intros S Hs Hb. destruct (S b Hb) as [[n Hn] Hc]. pose proof (aget_bounds _ _ _ Hn) as Hbn. unfold reset_bucket. rewrite aset_in by exact Hbn. rewrite bind_ok_l.
  cbn [set_last bucketV bucketsize]. set (l := <[_ := _]> _).
  assert (Hl : aget l b = Ok (-1)) by (unfold l; rewrite aget_insert, decide_True by (reflexivity || exact Hbn); reflexivity).
  assert (Hl' : forall b', b' <> b -> aget l b' = aget (lastelementindexV c) b') by (intros b' Hne; unfold l; rewrite aget_insert, decide_False by (exact Hne || exact Hbn); reflexivity).
  destruct (aget (bucketV c) b) as [[cells|]|] eqn:Ec; [| |contradiction]; rewrite bind_ok_l.
  - destruct (foldM_inv (fun cells eind => aset cells eind (None (A := Z))) (fun done cs => Z.of_nat (length cs) = bucketsize c /\
        forall j, 0 <= j < Z.of_nat (length done) -> aget cs j = Ok None) (seqZ 0 (bucketsize c)) cells) as (cs & -> & Hlen & Hcs).
    { split; [exact Hc|]. cbn. lia. }
    { intros done x todo cs Hsq [Hlen Hcs]. assert (Hx : x = Z.of_nat (length done) /\ x < bucketsize c).
      { pose proof (f_equal (fun s => s !! length done) Hsq) as Hl0. cbn in Hl0. rewrite list_lookup_middle in Hl0 by reflexivity. apply lookup_seqZ in Hl0. lia. }
      rewrite aset_in by lia. eexists. split; [reflexivity|]. rewrite length_insert, length_app. cbn [length]. split; [exact Hlen|].
      intros j Hj. rewrite aget_insert by lia. case_decide; [reflexivity|]. apply Hcs. lia. }
    rewrite bind_ok_l. pose proof (aget_bounds _ _ _ Ec) as Hbc. rewrite aset_in by exact Hbc. rewrite bind_ok_l. eexists _, l. split; [reflexivity|].
    rewrite length_seqZ in Hcs. split.
    + split; [exact Hl|]. split; [cbn; lia|]. cbn [set_buckets bucketV bucketsize set_last]. rewrite aget_insert, decide_True by (reflexivity || exact Hbc). split; [exact Hlen|].
      intros j Hj. cbn in Hj. rewrite Hcs by lia. destruct (0 <=? j); reflexivity.
    + intros b' Hne. rewrite aget_insert, decide_False by (exact Hne || exact Hbc). split; [reflexivity|apply Hl', Hne].
  - exists (bucketV c), l. split; [reflexivity|]. split; [split; [exact Hl|split; [cbn; lia|cbn; rewrite Ec; auto]]|]. intros b' Hne. split; [reflexivity|apply Hl', Hne].
Qed.

Lemma reset_ok c q : rep c q -> exists c', reset c = Ok c' /\ rep c' new_queue /\ numofbuckets c' = numofbuckets c /\ bucketsize c' = bucketsize c.
Proof.
  intros R. pose proof (rp_frame _ _ R) as F. pose proof (fr_num _ _ F) as [Hn Hm]. pose proof (fr_size _ _ F) as Hs.
  unfold reset. set (c0 := set_first 0 0 _).
  destruct (foldM_inv reset_bucket (fun done c' => exists v l, c' = set_buckets v (set_last l c0) /\ sane c' /\
      forall b, 0 <= b < Z.of_nat (length done) -> cleared c' b) (seqZ 0 (numofbuckets c)) c0) as (c' & E & v & l & -> & _ & Hc).
  - exists (bucketV c0), (lastelementindexV c0). split; [reflexivity|]. split; [exact (rep_sane _ _ R)|]. cbn. lia.
  - intros done b todo c1 Hsq (v & l & -> & Hsa & Hcl). assert (Hb : b = Z.of_nat (length done) /\ b < numofbuckets c).
    { pose proof (f_equal (fun s => s !! length done) Hsq) as Hl0. cbn in Hl0. rewrite list_lookup_middle in Hl0 by reflexivity. apply lookup_seqZ in Hl0. lia. }
    destruct (reset_bucket_ok _ b Hsa ltac:(exact Hs) ltac:(cbn; lia)) as (v' & l' & -> & Hcb & Hne). eexists. split; [reflexivity|].
    exists v', l'. split; [reflexivity|]. cbn [set_buckets set_last bucketV lastelementindexV] in Hne. split.
    + intros x Hx. destruct (decide (x = b)) as [->|Hxb].
      * exact (holds_sane _ _ _ _ Hcb).
      * destruct (Hne x Hxb) as [E1 E2]. cbn [set_buckets set_last bucketV lastelementindexV bucketsize]. rewrite E1, E2. exact (Hsa x Hx).
    + intros x Hx. rewrite length_app in Hx. cbn in Hx. destruct (decide (x = b)) as [->|Hxb]; [exact Hcb|]. destruct (Hne x Hxb) as [E1 E2].
      apply (holds_same (set_buckets v (set_last l c0)) (set_buckets v' (set_last l' (set_buckets v (set_last l c0)))) x 0 [] E1 E2 eq_refl). apply Hcl. lia.
  - rewrite E. eexists. split; [reflexivity|]. split; [|split; reflexivity]. apply fresh_rep; try reflexivity; try assumption.
    intros b Hb. apply Hc. rewrite length_seqZ. cbn in Hb. lia.
Qed.

(** ** Refinement *)

Inductive op := Insert (s p : Z) | Pop | GetMin | IsEmpty | GetMinKey | Reset.
Inductive answer := Done | State (s : option Z) | Is (b : bool) | Key (p : Z).

Definition run_op (o : op) (c : CSlidingBucket) : res (answer * CSlidingBucket) :=
  match o with
  | Insert s p => c ← insert s p c; Ok (Done, c)
  | Pop => '(s, c) ← popminelement c; Ok (State s, c)
  | GetMin => '(s, c) ← getminelement c; Ok (State s, c)
  | IsEmpty => Ok (Is (empty c), c)
  | GetMinKey => Ok (Key (getminkey c), c)
  | Reset => c ← reset c; Ok (Done, c)
  end.

(** The operations on the queue; [N] priorities from [first] on, [B] states each.
    [getminkey] is a lower bound: the least priority once it has been sought. *)
Inductive spec_step (N B : Z) (q : queue) : op -> answer -> queue -> Prop :=
  | SInsert s p : first q <= p < first q + N -> used q p < B -> spec_step N B q (Insert s p) Done (pushed s p q)
  | SPop p s l : front q p s l -> spec_step N B q Pop (State (Some s)) (popped p l q)
  | SPopNone : (forall p, line q p = []) -> spec_step N B q Pop (State None) q
  | SGetMin p s l : front q p s l -> spec_step N B q GetMin (State (Some s)) q
  | SGetMinNone : (forall p, line q p = []) -> spec_step N B q GetMin (State None) q
  | SEmpty : (forall p, line q p = []) -> spec_step N B q IsEmpty (Is true) q
  | SNotEmpty p s l : front q p s l -> spec_step N B q IsEmpty (Is false) q
  | SGetMinKey k : first q <= k -> (forall p, p < k -> line q p = []) -> spec_step N B q GetMinKey (Key k) q
  | SReset : spec_step N B q Reset Done new_queue.

(** An exception is thrown for a priority outside the window or a full bucket. *)
Definition spec_throws (N B : Z) (q : queue) (o : op) : Prop :=
  match o with Insert s p => p < first q \/ first q + N <= p \/ B <= used q p | _ => False end.

Definition valid_op (N : Z) (o : op) : Prop := match o with Insert s p => 0 <= p <= INT_MAX - N | _ => True end.

Definition sim (N B : Z) (c : CSlidingBucket) (q : queue) : Prop := rep c q /\ numofbuckets c = N /\ bucketsize c = B.

Lemma step_simulated N B o c q : sim N B c q -> valid_op N o ->
  match run_op o c with
  | Ok (a, c') => exists q', spec_step N B q o a q' /\ sim N B c' q'
  | Err e => e = Thrown /\ spec_throws N B q o
  end.
Proof.
  intros (R & <- & <-) V. unfold sim. destruct o; cbn [run_op].
  - pose proof (sliding_insert_ok s p c q R V) as H.
    destruct (Z.ltb_spec p (first q)), (Z.leb_spec (first q + numofbuckets c) p), (Z.leb_spec (bucketsize c) (used q p)); cbn [orb] in H;
      try (rewrite H; cbn [mbind res_bind spec_throws]; split; [reflexivity|lia]).
    destruct H as (c' & -> & R' & Hr). rewrite bind_ok_l. exists (pushed s p q). split; [constructor; lia|auto].
  - destruct (empty c) eqn:He.
    + unfold popminelement. rewrite He, bind_ok_l. exists q. split; [constructor; apply (empty_ok _ _ R), He|auto].
    + destruct (popminelement_ok c q R He) as (p & s & l & c' & Hf & -> & R' & Hr). rewrite bind_ok_l. eexists. split; [econstructor; exact Hf|auto].
  - destruct (empty c) eqn:He.
    + unfold getminelement. rewrite He, bind_ok_l. exists q. split; [constructor; apply (empty_ok _ _ R), He|auto].
    + destruct (getminelement_ok c q R He) as (s & l & c' & -> & R' & Hf & _ & Hr). rewrite bind_ok_l. exists q. split; [econstructor; exact Hf|auto].
  - exists q. split; [|auto]. destruct (empty c) eqn:He; [constructor; apply (empty_ok _ _ R), He|].
    destruct (getminelement_ok c q R He) as (s & l & c' & _ & _ & Hf & _). econstructor. exact Hf.
  - exists q. split; [|auto]. constructor; [apply (fr_min _ _ (rp_frame _ _ R))|apply (fr_low _ _ (rp_frame _ _ R))].
  - destruct (reset_ok c q R) as (c' & -> & R' & Hr). rewrite bind_ok_l. exists new_queue. split; [constructor|auto].
Qed.

(** Calls one after another, until one throws. *)
Fixpoint run_ops (ops : list op) (c : CSlidingBucket) : list answer * option error :=
  match ops with
  | [] => ([], None)
  | o :: ops => match run_op o c with Ok (a, c) => let '(l, e) := run_ops ops c in (a :: l, e) | Err e => ([], Some e) end
  end.

Inductive spec_run (N B : Z) : queue -> list op -> list answer -> option error -> Prop :=
  | RunDone q : spec_run N B q [] [] None
  | RunStep q o ops a q' l e : spec_step N B q o a q' -> spec_run N B q' ops l e -> spec_run N B q (o :: ops) (a :: l) e
  | RunThrows q o ops : spec_throws N B q o -> spec_run N B q (o :: ops) [] (Some Thrown).

Lemma runs_simulated N B ops : forall c q, sim N B c q -> Forall (valid_op N) ops ->
  exists l e, run_ops ops c = (l, e) /\ spec_run N B q ops l e.
Proof.
  induction ops as [|o ops IH]; intros c q S V; cbn [run_ops]; [exists [], None; split; [reflexivity|constructor]|].
  apply Forall_cons in V as [Vo V]. pose proof (step_simulated N B o c q S Vo) as H. destruct (run_op o c) as [[a c']|e].
  - destruct H as (q' & Hs & S'). destruct (IH c' q' S' V) as (l & e & -> & Hr). eexists _, _. split; [reflexivity|]. econstructor; eassumption.
  - destruct H as [-> Ht]. eexists _, _. split; [reflexivity|]. constructor. exact Ht.
Qed.

(** C33: Sliding buckets refine a queue of states per priority: for any sequence of operations on a new list every operation does what the operation on the queues does — the state popped is the first one inserted with the least priority — and an exception is thrown exactly for a priority outside the window of numofbuckets from the last one popped or for a full bucket. *)
Theorem sliding_refines_queue N B ops : 0 < N -> 2 * N <= INT_MAX -> 0 < B -> Forall (valid_op N) ops ->
  exists c l e, new_sliding N B = Ok c /\ run_ops ops c = (l, e) /\ spec_run N B new_queue ops l e.
Proof.
  intros H1 H2 H3 V. destruct (new_ok N B H1 H2 H3) as (c & E & S). destruct (runs_simulated N B ops c new_queue S V) as (l & e & Er & Hr).
  exists c, l, e. auto.
Qed.

Definition sample_ops : list op := [Insert 7 2; Insert 8 1; Insert 9 2; GetMin; Pop; Pop; Insert 10 4; Pop; GetMinKey; Pop; IsEmpty; Insert 11 9].

Lemma sliding_refines_queue_witness : exists c, new_sliding 5 3 = Ok c /\
  run_ops sample_ops c = ([Done; Done; Done; State (Some 8); State (Some 8); State (Some 7); Done; State (Some 9); Key 4; State (Some 10); Is true], Some Thrown) /\
  exists l e, spec_run 5 3 new_queue sample_ops l e.
Proof.
  destruct (sliding_refines_queue 5 3 sample_ops ltac:(lia) ltac:(vm_compute; congruence) ltac:(lia)) as (c & l & e & E & _ & H).
  - repeat (constructor; [vm_compute; intuition congruence|]). constructor.
  - exists c. split; [exact E|]. split; [injection E as <-; vm_compute; reflexivity|]. exists l, e. exact H.
Defined.
End SbplSlidingSpec.
