(* ===== verification/Keys.v ===== *)
(** * Search keys (src/libsbpl: utils/key.h)

    [CKey]: a pair of longs compared lexicographically.  [KeyOps] and [KeyLaws]
    are what the heaps of utils/heap.cpp ask of a key. *)

From S2P Require Import Prelude.

Module Keys.

Definition KEY_SIZE : Z := 2.
Definition INFINITECOST : Z := 1000000000.

Record CKey := mkKey { key_0 : Z; key_1 : Z }.

#[export] Instance CKey_eq_dec : EqDecision CKey.
Proof. solve_decision. Defined.

(** [CKey ()] *)
Definition new_key : CKey := mkKey 0 0.
(** [SetKeytoInfinity], [SetKeytoZero] *)
Definition SetKeytoInfinity (_ : CKey) : CKey := mkKey INFINITECOST INFINITECOST.
Definition SetKeytoZero (_ : CKey) : CKey := mkKey 0 0.

Definition assign (RHSKey : CKey) : CKey := mkKey (key_0 RHSKey) (key_1 RHSKey).

(** [operator -]: the difference of two longs can overflow. *)
Definition minus (k RHSKey : CKey) : res CKey :=
  a ← add_int int64 (key_0 k) (- key_0 RHSKey);
  b ← add_int int64 (key_1 k) (- key_1 RHSKey);
  Ok (mkKey a b).

Definition gt (k RHSKey : CKey) : bool :=
  (key_0 RHSKey <? key_0 k) || ((key_0 k =? key_0 RHSKey) && (key_1 RHSKey <? key_1 k)).
Definition eqb (k RHSKey : CKey) : bool := (key_0 k =? key_0 RHSKey) && (key_1 k =? key_1 RHSKey).
Definition neqb (k RHSKey : CKey) : bool := negb (eqb k RHSKey).
Definition lt (k RHSKey : CKey) : bool :=
  (key_0 k <? key_0 RHSKey) || ((key_0 k =? key_0 RHSKey) && (key_1 k <? key_1 RHSKey)).
Definition ge (k RHSKey : CKey) : bool := negb (lt k RHSKey).
Definition le (k RHSKey : CKey) : bool := negb (gt k RHSKey).

(** [operator []] *)
Definition component (k : CKey) (i : Z) : res Z := aget [key_0 k; key_1 k] i.

(** ** What a heap asks of its keys *)

Class KeyOps (K : Type) := {
  key_lt : K -> K -> bool;
  key_gt : K -> K -> bool;
  key_ne : K -> K -> bool;
  infinite_key : K;
}.

(** The keys are ordered as their ranks. *)
Class KeyLaws (K : Type) {ops : KeyOps K} := {
  valid_key : K -> Prop;
  rank : K -> Z;
  key_lt_rank : forall a b, valid_key a -> valid_key b -> key_lt a b = (rank a <? rank b);
  key_gt_rank : forall a b, valid_key a -> valid_key b -> key_gt a b = (rank b <? rank a);
  key_ne_spec : forall a b, key_ne a b = false <-> a = b;
}.

#[export] Instance CKey_ops : KeyOps CKey :=
  {| key_lt := lt; key_gt := gt; key_ne := neqb; infinite_key := SetKeytoInfinity new_key |}.

#[export] Instance int_ops : KeyOps Z :=
  {| key_lt := Z.ltb; key_gt a b := Z.ltb b a; key_ne a b := negb (Z.eqb a b); infinite_key := INFINITECOST |}.

(** Both components are values of type long. *)
Definition long_key (k : CKey) : Prop :=
  int_min int64 <= key_0 k <= int_max int64 /\ int_min int64 <= key_1 k <= int_max int64.

Definition CKey_rank (k : CKey) : Z := key_0 k * 2 ^ 64 + key_1 k.

Lemma CKey_lt_rank a b : long_key a -> long_key b -> lt a b = (CKey_rank a <? CKey_rank b).
Proof.
  unfold long_key, lt, CKey_rank, int_min, int64. cbn [int_max]. intros Ha Hb.
  apply eq_true_iff_eq. rewrite orb_true_iff, andb_true_iff, !Z.ltb_lt, Z.eqb_eq. lia.
Qed.

#[export] Program Instance CKey_laws : KeyLaws CKey := {| valid_key := long_key; rank := CKey_rank |}.
Next Obligation. intros. apply CKey_lt_rank; assumption. Qed.
Next Obligation.
  intros a b Ha Hb. change (key_gt a b) with (gt a b). rewrite <- (CKey_lt_rank b a Hb Ha). unfold gt, lt.
  rewrite (Z.eqb_sym (key_0 a)). reflexivity.
Qed.
Next Obligation.
  intros [a1 a2] [b1 b2]. cbn. unfold neqb, eqb. cbn. rewrite negb_false_iff, andb_true_iff, !Z.eqb_eq.
  split; [intros [-> ->]|intros [= -> ->]]; auto.
Qed.

#[export] Program Instance int_laws : KeyLaws Z := {| valid_key := fun _ => True; rank := id |}.
Next Obligation. reflexivity. Qed.
Next Obligation. reflexivity. Qed.
Next Obligation. intros a b. cbn. rewrite negb_false_iff, Z.eqb_eq. reflexivity. Qed.

(** The six comparisons are those of one total order, the lexicographic one. *)
Lemma comparisons a b :
  (lt a b = true <-> key_0 a < key_0 b \/ key_0 a = key_0 b /\ key_1 a < key_1 b) /\
  gt a b = lt b a /\ ge a b = negb (lt a b) /\ le a b = negb (lt b a) /\
  (eqb a b = true <-> a = b) /\ neqb a b = negb (eqb a b) /\
  (lt a b = true \/ a = b \/ lt b a = true).
Proof.
  assert (Hgt : forall a b, gt a b = lt b a) by (intros; unfold gt, lt; rewrite (Z.eqb_sym (key_0 a0)); reflexivity).
  assert (Hlt : forall a b, lt a b = true <-> key_0 a < key_0 b \/ key_0 a = key_0 b /\ key_1 a < key_1 b)
    by (intros; unfold lt; rewrite orb_true_iff, andb_true_iff, !Z.ltb_lt, Z.eqb_eq; reflexivity).
  split; [apply Hlt|]. split; [apply Hgt|]. split; [reflexivity|]. split; [unfold le; rewrite Hgt; reflexivity|].
  split; [|split; [reflexivity|]].
  - destruct a as [a1 a2], b as [b1 b2]. unfold eqb. cbn. rewrite andb_true_iff, !Z.eqb_eq. split; [intros [-> ->]|intros [= -> ->]]; auto.
  - rewrite !Hlt. destruct a as [a1 a2], b as [b1 b2]. cbn.
    destruct (Z.lt_trichotomy a1 b1) as [|[->|]]; [auto| |auto].
    destruct (Z.lt_trichotomy a2 b2) as [|[->|]]; auto.
Qed.
End Keys.
