(* ===== verification/SbplHeap.v ===== *)
(** * The heaps of libsbpl (src/libsbpl: utils/heap.h, utils/heap.cpp)

    [CHeap] and [CIntHeap] have the same text over two types of keys; the
    definitions here are over any type of keys and [CHeap] is their instance at
    CKey (SbplIntHeap.v has the other).  A state is a number; its [heapindex]
    is a field of the state, so the operations thread the [heapindex] of all
    states, 0 where the state is in no heap. *)

From S2P Require Import Prelude.
From S2P Require Import Keys.

Module SbplHeap.
Import Keys.

Definition HEAPSIZE : Z := 20000000.
Definition HEAPSIZE_INIT : Z := 5000.

(** [heaperror]: prints and throws. *)
Definition heaperror {A} : res A := Err Thrown.

(** The [heapindex] fields. *)
Abbreviation store := (gmap Z Z).
Definition heapindex (ix : store) (s : Z) : Z := default 0 (ix !! s).

Section heap.
Context {K : Type} {kops : KeyOps K}.

Definition InfiniteKey : K := infinite_key.

Record heapelement := mkElem { heapstate : Z; key : K }.

(** The cells of [heap] are not written when it is allocated. *)
Record CHeap := mkCHeap {
  percolates : Z;
  heap : list (option heapelement);
  currentsize : Z;
  allocated : Z;
}.

Definition set_heap (a : list (option heapelement)) (h : CHeap) : CHeap :=
  mkCHeap (percolates h) a (currentsize h) (allocated h).
Definition set_size (n : Z) (h : CHeap) : CHeap := mkCHeap (percolates h) (heap h) n (allocated h).
Definition set_percolates (n : Z) (h : CHeap) : CHeap := mkCHeap n (heap h) (currentsize h) (allocated h).

Definition new_cells (n : Z) : list (option heapelement) := replicate (Z.to_nat n) None.

(** [CHeap ()] *)
Definition new_heap : CHeap := mkCHeap 0 (new_cells HEAPSIZE_INIT) 0 HEAPSIZE_INIT.

(** [heap[i] = e; heap[i].heapstate->heapindex = i] *)
Definition place (i : Z) (e : heapelement) (h : CHeap) (ix : store) : res (CHeap * store) :=
  a ← aset (heap h) i (Some e);
  Ok (set_heap a h, <[heapstate e := i]> ix).

Definition percolated (h : CHeap) : res CHeap :=
  n ← add_int int32 (percolates h) 1; Ok (set_percolates n h).

(** The smaller child of [hole]. *)
Definition min_child (h : CHeap) (hole : Z) : res Z :=
  let child := 2 * hole in
  if negb (child =? currentsize h) then
    r ← read_cell (heap h) (child + 1);
    l ← read_cell (heap h) child;
    Ok (if key_lt (key r) (key l) then child + 1 else child)
  else Ok child.

Fixpoint down_loop (fuel : nat) (hole : Z) (tmp : heapelement) (h : CHeap) (ix : store) : res (CHeap * store) :=
  match fuel with
  | O => Err OutOfFuel
  | S fuel =>
      if 2 * hole <=? currentsize h then
        child ← min_child h hole;
        c ← read_cell (heap h) child;
        if key_lt (key c) (key tmp) then
          h ← percolated h;
          '(h, ix) ← place hole c h ix;
          down_loop fuel child tmp h ix
        else place hole tmp h ix
      else place hole tmp h ix
  end.

(** [hole] doubles and stays within [currentsize]. *)
Definition percolatedown (hole : Z) (tmp : heapelement) (h : CHeap) (ix : store) : res (CHeap * store) :=
  if negb (currentsize h =? 0) then down_loop (S (Z.to_nat (currentsize h))) hole tmp h ix else Ok (h, ix).

Fixpoint up_loop (fuel : nat) (hole : Z) (tmp : heapelement) (h : CHeap) (ix : store) : res (CHeap * store) :=
  match fuel with
  | O => Err OutOfFuel
  | S fuel =>
      if 1 <? hole then
        p ← read_cell (heap h) (hole / 2);
        if key_lt (key tmp) (key p) then
          h ← percolated h;
          '(h, ix) ← place hole p h ix;
          up_loop fuel (hole / 2) tmp h ix
        else place hole tmp h ix
      else place hole tmp h ix
  end.

(** [hole] halves until it is 1. *)
Definition percolateup (hole : Z) (tmp : heapelement) (h : CHeap) (ix : store) : res (CHeap * store) :=
  if negb (currentsize h =? 0) then up_loop (S (Z.to_nat hole)) hole tmp h ix else Ok (h, ix).

Definition percolateupordown (hole : Z) (tmp : heapelement) (h : CHeap) (ix : store) : res (CHeap * store) :=
  if negb (currentsize h =? 0) then
    up ← (if 1 <? hole then p ← read_cell (heap h) (hole / 2); Ok (key_gt (key p) (key tmp)) else Ok false);
    if up : bool then percolateup hole tmp h ix else percolatedown hole tmp h ix
  else Ok (h, ix).

Definition emptyheap (h : CHeap) : bool := currentsize h =? 0.
Definition fullheap (h : CHeap) : bool := currentsize h =? HEAPSIZE - 1.
Definition inheap (ix : store) (s : Z) : bool := negb (heapindex ix s =? 0).

Definition getkeyheap (s : Z) (h : CHeap) (ix : store) : res K :=
  if heapindex ix s =? 0 then heaperror else
  e ← read_cell (heap h) (heapindex ix s); Ok (key e).

(** [for (i = 1; i <= currentsize; ++i) heap[i].heapstate->heapindex = 0] *)
Definition clear_indices (h : CHeap) (ix : store) : res store :=
  foldM (fun ix i => e ← read_cell (heap h) i; Ok (<[heapstate e := 0]> ix)) ix (seqZ 1 (currentsize h)).

Definition makeemptyheap (h : CHeap) (ix : store) : res (CHeap * store) :=
  ix ← clear_indices h ix; Ok (set_size 0 h, ix).

(** [~CHeap ()]: what is left of the states' fields. *)
Definition destroy (h : CHeap) (ix : store) : res store := clear_indices h ix.

Definition makeheap (h : CHeap) (ix : store) : res (CHeap * store) :=
  foldM (fun '(h, ix) i => e ← read_cell (heap h) i; percolatedown i e h ix) (h, ix)
    (reverse (seqZ 1 (currentsize h / 2))).

Definition growheap (h : CHeap) : res CHeap :=
  let a := if HEAPSIZE <? 2 * allocated h then HEAPSIZE else 2 * allocated h in
  cells ← foldM (fun cells i => c ← aget (heap h) i; aset cells i c) (new_cells a) (seqZ 0 (currentsize h + 1));
  Ok (mkCHeap (percolates h) cells (currentsize h) a).

Definition sizecheck (h : CHeap) : res CHeap :=
  if fullheap h then heaperror
  else if currentsize h =? allocated h - 1 then growheap h
  else Ok h.

Definition insertheap (s : Z) (k : K) (h : CHeap) (ix : store) : res (CHeap * store) :=
  h ← sizecheck h;
  if negb (heapindex ix s =? 0) then heaperror else
  percolateup (currentsize h + 1) (mkElem s k) (set_size (currentsize h + 1) h) ix.

Definition deleteheap (s : Z) (h : CHeap) (ix : store) : res (CHeap * store) :=
  if heapindex ix s =? 0 then heaperror else
  tmp ← read_cell (heap h) (currentsize h);
  '(h, ix) ← percolateupordown (heapindex ix s) tmp (set_size (currentsize h - 1) h) ix;
  Ok (h, <[s := 0]> ix).

Definition updateheap (s : Z) (NewKey : K) (h : CHeap) (ix : store) : res (CHeap * store) :=
  if heapindex ix s =? 0 then heaperror else
  e ← read_cell (heap h) (heapindex ix s);
  if key_ne (key e) NewKey then
    let e := mkElem (heapstate e) NewKey in
    a ← aset (heap h) (heapindex ix s) (Some e);
    percolateupordown (heapindex ix s) e (set_heap a h) ix
  else Ok (h, ix).

Definition insert_unsafe (s : Z) (k : K) (h : CHeap) (ix : store) : res (CHeap * store) :=
  h ← sizecheck h;
  if negb (heapindex ix s =? 0) then heaperror else
  place (currentsize h + 1) (mkElem s k) (set_size (currentsize h + 1) h) ix.

Definition deleteheap_unsafe (s : Z) (h : CHeap) (ix : store) : res (CHeap * store) :=
  if heapindex ix s =? 0 then heaperror else
  last ← read_cell (heap h) (currentsize h);
  '(h, ix) ← place (heapindex ix s) last (set_size (currentsize h - 1) h) ix;
  Ok (h, <[s := 0]> ix).

Definition updateheap_unsafe (s : Z) (NewKey : K) (h : CHeap) (ix : store) : res CHeap :=
  if heapindex ix s =? 0 then heaperror else
  e ← read_cell (heap h) (heapindex ix s);
  if key_ne (key e) NewKey then
    a ← aset (heap h) (heapindex ix s) (Some (mkElem (heapstate e) NewKey));
    Ok (set_heap a h)
  else Ok h.

Definition getminheap (h : CHeap) : res Z :=
  if currentsize h =? 0 then heaperror else
  e ← read_cell (heap h) 1; Ok (heapstate e).

(** [getminheap (ReturnKey)] *)
Definition getminheap_key (h : CHeap) : res (Z * K) :=
  if currentsize h =? 0 then heaperror else
  e ← read_cell (heap h) 1; Ok (heapstate e, key e).

Definition getminkeyheap (h : CHeap) : res K :=
  if currentsize h =? 0 then Ok InfiniteKey else
  e ← read_cell (heap h) 1; Ok (key e).

Definition deleteminheap (h : CHeap) (ix : store) : res (Z * CHeap * store) :=
  if currentsize h =? 0 then heaperror else
  e ← read_cell (heap h) 1;
  let ix := <[heapstate e := 0]> ix in
  tmp ← read_cell (heap h) (currentsize h);
  '(h, ix) ← percolatedown 1 tmp (set_size (currentsize h - 1) h) ix;
  Ok (heapstate e, h, ix).
End heap.
Arguments heapelement : clear implicits.
Arguments CHeap : clear implicits.
End SbplHeap.
