(* ===== verification/SbplIntHeap.v ===== *)
(** * The single-priority heap [CIntHeap] (src/libsbpl: utils/heap.cpp)

    The text of [CHeap] over int keys; [getminkeyheap] of an empty heap is
    INFINITECOST.  There is a second constructor, and no unsafe operations. *)

From S2P Require Import Prelude.
From S2P Require Import Keys.
From S2P Require Import SbplHeap.

Module SbplIntHeap.
Import Keys.

Abbreviation heapintelement := (SbplHeap.heapelement Z).
Abbreviation CIntHeap := (SbplHeap.CHeap Z).

Definition new_heap : CIntHeap := SbplHeap.new_heap.
(** [CIntHeap (initial_size)]: a negative size makes [new] throw. *)
Definition new_heap_sized (initial_size : Z) : res CIntHeap :=
  if initial_size <? 0 then Err Thrown
  else Ok (SbplHeap.mkCHeap 0 (SbplHeap.new_cells initial_size) 0 initial_size).
Definition destroy : CIntHeap -> _ := SbplHeap.destroy.
Definition percolatedown : Z -> heapintelement -> CIntHeap -> _ := SbplHeap.percolatedown.
Definition percolateup : Z -> heapintelement -> CIntHeap -> _ := SbplHeap.percolateup.
Definition percolateupordown : Z -> heapintelement -> CIntHeap -> _ := SbplHeap.percolateupordown.
Definition emptyheap : CIntHeap -> bool := SbplHeap.emptyheap.
Definition fullheap : CIntHeap -> bool := SbplHeap.fullheap.
Definition inheap := SbplHeap.inheap.
Definition getkeyheap : Z -> CIntHeap -> _ -> res Z := SbplHeap.getkeyheap.
Definition makeemptyheap : CIntHeap -> _ := SbplHeap.makeemptyheap.
Definition makeheap : CIntHeap -> _ := SbplHeap.makeheap.
Definition growheap : CIntHeap -> res CIntHeap := SbplHeap.growheap.
Definition sizecheck : CIntHeap -> res CIntHeap := SbplHeap.sizecheck.
Definition insertheap : Z -> Z -> CIntHeap -> _ := SbplHeap.insertheap.
Definition deleteheap : Z -> CIntHeap -> _ := SbplHeap.deleteheap.
Definition updateheap : Z -> Z -> CIntHeap -> _ := SbplHeap.updateheap.
Definition getminheap : CIntHeap -> res Z := SbplHeap.getminheap.
Definition getminheap_key : CIntHeap -> res (Z * Z) := SbplHeap.getminheap_key.
Definition getminkeyheap : CIntHeap -> res Z := SbplHeap.getminkeyheap.
Definition deleteminheap : CIntHeap -> _ := SbplHeap.deleteminheap.
End SbplIntHeap.
