(* ===== verification/Floats.v ===== *)
(** * Single-precision arithmetic

    The type float, as the binary32 numbers of the Standard Library's executable
    IEEE 754 specification. *)

From Stdlib Require Import Floats.SpecFloat.
From S2P Require Import Prelude.
From S2P Require Import Doubles.

Module Floats.
Definition float : Type := spec_float.

(** [(float) z] and [(float) x] of a double, rounded to nearest even. *)
Definition of_int (z : Z) : float := binary_normalize 24 128 z 0 false.
Definition of_double (x : Doubles.double) : float :=
  match x with
  | S754_finite s m e => binary_normalize 24 128 (if s then Zneg m else Zpos m) e s
  | _ => x
  end.

Definition mul (x y : float) : float := SFmul 24 128 x y.

(** [x < y]: false when either is not a number. *)
Definition ltb (x y : float) : bool := SFltb x y.

(** [(int) x]: towards zero. *)
Definition to_int (x : float) : res Z := Doubles.to_type int32 (Doubles.trunc x).
End Floats.
