(* ===== verification/FloatsSpec.v ===== *)
(** * Single-precision arithmetic on integers

    An int becomes a finite number that is positive when the int is. *)

From Stdlib Require Import Floats.SpecFloat.
From S2P Require Import Prelude.
From S2P Require Import Doubles.
From S2P Require Import Floats.

Module FloatsSpec.
Import Floats.

Lemma shr_1_half r : 0 <= shr_m r -> shr_m (shr_1 r) = shr_m r / 2.
Proof. rewrite <- Z.div2_div. destruct r as [[|[p|p|]|p] b s]; cbn; intros H; reflexivity || lia. Qed.

Lemma iter_shr_half p : forall r, 0 <= shr_m r -> shr_m (SpecFloat.iter_pos shr_1 p r) = shr_m r / 2 ^ Zpos p.
Proof.
  induction p as [p IH|p IH|]; intros r Hr; cbn [SpecFloat.iter_pos]; [| |apply shr_1_half, Hr].
  - assert (H1 : 0 <= shr_m (shr_1 r)) by (rewrite shr_1_half by exact Hr; apply Z.div_pos; lia).
    assert (H2 : 0 <= shr_m (SpecFloat.iter_pos shr_1 p (shr_1 r))) by (rewrite IH by exact H1; apply Z.div_pos; [exact H1|apply Z.pow_pos_nonneg; lia]).
    rewrite (IH _ H2), (IH _ H1), (shr_1_half _ Hr), !Z.div_div by (lia || apply Z.pow_pos_nonneg; lia). f_equal.
    replace (Zpos p~1) with (1 + Zpos p + Zpos p) by lia. rewrite !Z.pow_add_r by lia. lia.
  - assert (H1 : 0 <= shr_m (SpecFloat.iter_pos shr_1 p r)) by (rewrite IH by exact Hr; apply Z.div_pos; [exact Hr|apply Z.pow_pos_nonneg; lia]).
    rewrite (IH _ H1), (IH _ Hr), Z.div_div by (lia || apply Z.pow_pos_nonneg; lia). f_equal.
    replace (Zpos p~0) with (Zpos p + Zpos p) by lia. rewrite !Z.pow_add_r by lia. reflexivity.
Qed.

Lemma shr_half r e n : 0 <= shr_m r -> shr_m (fst (shr r e n)) = shr_m r / 2 ^ Z.max 0 n /\ snd (shr r e n) = e + Z.max 0 n.
Proof.
  intros Hr. destruct n as [|p|p]; cbn [shr fst snd]; [rewrite Z.div_1_r; lia| |rewrite Z.div_1_r; lia].
  rewrite iter_shr_half by exact Hr. split; [reflexivity|lia].
Qed.

Lemma round_near r : shr_m r <= round_nearest_even (shr_m r) (loc_of_shr_record r) <= shr_m r + 1.
Proof. destruct r as [m [|] [|]]; cbn; try lia. destruct (Z.even m); lia. Qed.

(** A mantissa with at least 24 digits rounds to a finite number, whose exponent
    is that of the first 24 digits or the next one. *)
Lemma round_aux_finite p e : -100 <= e -> Z.log2 (Zpos p) + e <= 64 -> 23 <= Z.log2 (Zpos p) ->
  exists m e', binary_round_aux 24 128 false (Zpos p) e loc_Exact = S754_finite false m e' /\ Z.log2 (Zpos p) + e - 23 <= e'.
Proof.
  intros He Hl Hd. unfold binary_round_aux, shr_fexp. cbn [shr_record_of_loc Zdigits2]. rewrite Doubles.digits_log2.
  set (l := Z.log2 (Zpos p)) in *. pose proof (Z.log2_spec (Zpos p) ltac:(lia)) as [L1 L2]. fold l in L1, L2.
  assert (Ef : fexp 24 128 (l + 1 + e) - e = l - 23) by (unfold fexp, emin; lia). rewrite Ef.
  destruct (shr_half {| shr_m := Zpos p; shr_r := false; shr_s := false |} e (l - 23) ltac:(cbn; lia)) as [S1 S2].
  destruct (shr _ e (l - 23)) as [r e1]. cbn [fst snd shr_m] in S1, S2. rewrite Z.max_r in S1, S2 by lia.
  assert (B : 2 ^ 23 <= shr_m r < 2 ^ 24).
  { rewrite S1. assert (Hp : 0 < 2 ^ (l - 23)) by (apply Z.pow_pos_nonneg; lia).
    split; [apply Z.div_le_lower_bound|apply Z.div_lt_upper_bound]; try exact Hp; rewrite <- Z.pow_add_r by lia;
      [replace (l - 23 + 23) with l by lia; exact L1|replace (l - 23 + 24) with (Z.succ l) by lia; exact L2]. }
  pose proof (round_near r) as Hr. set (m := round_nearest_even _ _) in *. clearbody m.
  destruct m as [|q|q]; [lia| |lia]. cbn [Zdigits2]. rewrite Doubles.digits_log2.
  assert (L3 : 23 <= Z.log2 (Zpos q) <= 24).
  { split; [apply Z.log2_le_pow2; lia|]. apply (Z.log2_le_mono (Zpos q) (2 ^ 24)). lia. }
  assert (Ef2 : fexp 24 128 (Z.log2 (Zpos q) + 1 + e1) - e1 = Z.log2 (Zpos q) - 23) by (unfold fexp, emin; lia). rewrite Ef2.
  destruct (shr_half {| shr_m := Zpos q; shr_r := false; shr_s := false |} e1 (Z.log2 (Zpos q) - 23) ltac:(cbn; lia)) as [S3 S4].
  destruct (shr _ e1 _) as [r2 e2]. cbn [fst snd shr_m] in S3, S4. rewrite Z.max_r in S3, S4 by lia.
  assert (0 < shr_m r2).
  { rewrite S3. apply Z.div_str_pos. split; [apply Z.pow_pos_nonneg; lia|]. apply (Z.le_trans _ (2 ^ 1)); [apply Z.pow_le_mono_r; lia|lia]. }
  destruct (shr_m r2) as [|m|m]; [lia| |lia]. rewrite (proj2 (Z.leb_le _ _)) by lia. exists m, e2. split; [reflexivity|lia].
Qed.

Lemma of_int_pos z : 0 < z <= 2 ^ 32 -> exists m e, of_int z = S754_finite false m e /\ Z.log2 z - 23 <= e.
Proof.
  intros Hz. unfold of_int. destruct z as [|p|p]; [lia| |lia]. cbn [binary_normalize]. unfold binary_round. rewrite Doubles.digits_log2.
  assert (L : 0 <= Z.log2 (Zpos p) <= 32) by (split; [apply Z.log2_nonneg|apply (Z.log2_le_mono (Zpos p) (2 ^ 32)); lia]).
  assert (Ef : fexp 24 128 (Z.log2 (Zpos p) + 1 + 0) = Z.log2 (Zpos p) - 23) by (unfold fexp, emin; lia). rewrite Ef.
  unfold shl_align. destruct (Z.log2 (Zpos p) - 23 - 0) as [|d|d] eqn:Ed.
  1,2: destruct (round_aux_finite p 0) as (m & e & -> & He); [lia..|]; exists m, e; split; [reflexivity|lia].
  assert (Hl : Z.log2 (Zpos (Pos.iter xO p d)) = 23).
  { rewrite Doubles.iter_xO, Z.log2_mul_pow2 by lia. lia. }
  destruct (round_aux_finite (Pos.iter xO p d) (Z.log2 (Zpos p) - 23)) as (m & e & -> & He); [lia..|]. exists m, e. split; [reflexivity|lia].
Qed.

Lemma of_int_nonneg z : 0 <= z <= 2 ^ 32 -> of_int z = S754_zero false \/ exists m e, of_int z = S754_finite false m e.
Proof. intros Hz. destruct (decide (z = 0)) as [->|]; [left; reflexivity|right]. destruct (of_int_pos z) as (m & e & -> & _); [lia|eauto]. Qed.

(** Nothing times zero reaches a positive int. *)
Lemma zero_less k n : 0 <= k <= 2 ^ 32 -> 0 < n <= 2 ^ 32 -> ltb (mul (of_int 0) (of_int k)) (of_int n) = true.
Proof.
  intros Hk Hn. destruct (of_int_pos n Hn) as (m & e & -> & _). destruct (of_int_nonneg k Hk) as [->|(m' & e' & ->)]; reflexivity.
Qed.

(** ** Below 2^24 an int is exact *)

Lemma shr_1_exact m : 0 <= m -> shr_1 {| shr_m := m * 2; shr_r := false; shr_s := false |} = {| shr_m := m; shr_r := false; shr_s := false |}.
Proof. intros Hm. destruct m as [|p|p]; [reflexivity| |lia]. rewrite Z.mul_comm. reflexivity. Qed.

Lemma iter_shr_exact p : forall m, 0 <= m -> SpecFloat.iter_pos shr_1 p {| shr_m := m * 2 ^ Zpos p; shr_r := false; shr_s := false |} =
  {| shr_m := m; shr_r := false; shr_s := false |}.
Proof.
  induction p as [p IH|p IH|]; intros m Hm; cbn [SpecFloat.iter_pos]; [| |apply shr_1_exact, Hm].
  - replace (m * 2 ^ Zpos p~1) with (m * 2 ^ Zpos p * 2 ^ Zpos p * 2) by (replace (Zpos p~1) with (1 + Zpos p + Zpos p) by lia; rewrite !Z.pow_add_r by lia; lia).
    rewrite shr_1_exact, !IH by (try apply Z.mul_nonneg_nonneg; try apply Z.mul_nonneg_nonneg; lia || (apply Z.pow_nonneg; lia)). reflexivity.
  - replace (m * 2 ^ Zpos p~0) with (m * 2 ^ Zpos p * 2 ^ Zpos p) by (replace (Zpos p~0) with (Zpos p + Zpos p) by lia; rewrite !Z.pow_add_r by lia; lia).
    rewrite !IH by (try apply Z.mul_nonneg_nonneg; lia || (apply Z.pow_nonneg; lia)). reflexivity.
Qed.

(** A mantissa of 24 digits, shifted to the left, is not rounded. *)
Lemma round_aux_exact q p n e : Zpos p = Zpos q * 2 ^ n -> 0 <= n <= 40 -> -80 <= e <= 40 -> Z.log2 (Zpos q) = 23 ->
  binary_round_aux 24 128 false (Zpos p) e loc_Exact = S754_finite false q (e + n).
Proof.
  intros Ep Hn He Hq. assert (Hl : Z.log2 (Zpos p) = 23 + n) by (rewrite Ep, Z.log2_mul_pow2 by lia; lia).
  unfold binary_round_aux, shr_fexp. cbn [shr_record_of_loc Zdigits2]. rewrite Doubles.digits_log2, Hl.
  replace (fexp 24 128 (23 + n + 1 + e) - e) with n by (unfold fexp, emin; lia).
  assert (Es : shr {| shr_m := Zpos p; shr_r := false; shr_s := false |} e n = ({| shr_m := Zpos q; shr_r := false; shr_s := false |}, e + n)).
  { destruct n as [|k|k]; [|cbn [shr]; rewrite Ep, iter_shr_exact by lia; reflexivity|lia]. cbn [shr]. rewrite Ep, Z.mul_1_r, Z.add_0_r. reflexivity. }
  rewrite Es. cbn [shr_m loc_of_shr_record round_nearest_even Zdigits2]. rewrite Doubles.digits_log2, Hq.
  replace (fexp 24 128 (23 + 1 + (e + n)) - (e + n)) with 0 by (unfold fexp, emin; lia). cbn [shr shr_m]. rewrite (proj2 (Z.leb_le _ _)) by lia. reflexivity.
Qed.

(** The float of an int below 2^24: 24 digits and an exponent. *)
Lemma of_int_exact z : 0 < z < 2 ^ 24 -> exists q, of_int z = S754_finite false q (Z.log2 z - 23) /\ Zpos q = z * 2 ^ (23 - Z.log2 z).
Proof.
  intros Hz. unfold of_int. destruct z as [|p|p]; [lia| |lia]. cbn [binary_normalize]. unfold binary_round. rewrite Doubles.digits_log2.
  assert (L : 0 <= Z.log2 (Zpos p) <= 23) by (split; [apply Z.log2_nonneg|]; pose proof (Z.log2_lt_pow2 (Zpos p) 24 ltac:(lia)); lia).
  replace (fexp 24 128 (Z.log2 (Zpos p) + 1 + 0)) with (Z.log2 (Zpos p) - 23) by (unfold fexp, emin; lia).
  unfold shl_align. destruct (Z.log2 (Zpos p) - 23 - 0) as [|d|d] eqn:Ed; [|lia|].
  - exists p. replace (Z.log2 (Zpos p)) with 23 by lia. split; [|cbn; lia]. apply (round_aux_exact p p 0 0); lia.
  - exists (Pos.iter xO p d). assert (Hq : Zpos (Pos.iter xO p d) = Zpos p * 2 ^ (23 - Z.log2 (Zpos p))) by (rewrite Doubles.iter_xO; f_equal; f_equal; lia).
    split; [|exact Hq]. rewrite (round_aux_exact (Pos.iter xO p d) (Pos.iter xO p d) 0); [f_equal; lia|lia|lia|lia|]. rewrite Hq, Z.log2_mul_pow2 by lia. lia.
Qed.

(** So is the product of two ints below 2^24. *)
Lemma mul_exact a b : 0 < a -> 0 < b -> a * b < 2 ^ 24 -> mul (of_int a) (of_int b) = of_int (a * b).
Proof.
  intros Ha Hb Hab. destruct (of_int_exact a ltac:(nia)) as (q & -> & Eqa). destruct (of_int_exact b ltac:(nia)) as (r & -> & Eqb).
  destruct (of_int_exact (a * b) ltac:(nia)) as (w & -> & Eqw).
  pose proof (Z.log2_nonneg a). pose proof (Z.log2_nonneg b). pose proof (Z.log2_mul_below a b ltac:(lia) ltac:(lia)) as Hlow.
  pose proof (Z.log2_mul_above a b ltac:(lia) ltac:(lia)) as Hhigh.
  assert (L : Z.log2 (a * b) <= 23) by (pose proof (Z.log2_lt_pow2 (a * b) 24 ltac:(nia)); lia).
  unfold mul, SFmul. cbn [xorb]. rewrite (round_aux_exact w (q * r) (23 + Z.log2 (a * b) - Z.log2 a - Z.log2 b)); [f_equal; lia| |lia|lia|].
  - rewrite Pos2Z.inj_mul, Eqa, Eqb, Eqw, <- (Z.mul_assoc (a * b)), <- Z.pow_add_r by lia.
    transitivity (a * b * (2 ^ (23 - Z.log2 a) * 2 ^ (23 - Z.log2 b))); [lia|]. rewrite <- Z.pow_add_r by lia. f_equal. f_equal. lia.
  - rewrite Eqw, Z.log2_mul_pow2 by lia. lia.
Qed.

(** ... and the conversion back. *)
Lemma to_int_exact z : 0 <= z < 2 ^ 24 -> to_int (of_int z) = Ok z.
Proof.
  intros Hz. destruct (decide (z = 0)) as [->|]; [reflexivity|]. destruct (of_int_exact z ltac:(lia)) as (q & -> & Eq).
  assert (L : 0 <= Z.log2 z <= 23) by (split; [apply Z.log2_nonneg|]; pose proof (Z.log2_lt_pow2 z 24 ltac:(lia)); lia).
  assert (Et : Doubles.trunc (S754_finite false q (Z.log2 z - 23)) = Some z).
  { unfold Doubles.trunc. destruct (Z.leb_spec 0 (Z.log2 z - 23)) as [Hle|Hlt]; f_equal.
    - rewrite Eq. replace (Z.log2 z) with 23 by lia. cbn. lia.
    - rewrite Eq. replace (- (Z.log2 z - 23)) with (23 - Z.log2 z) by lia. apply Z.div_mul. apply Z.pow_nonzero; lia. }
  unfold to_int. rewrite Et. apply Doubles.to_type_Ok. split; [reflexivity|]. unfold int_min, int32. cbn [int_max]. lia.
Qed.

(** Ints compare as they do, the smaller one below 2^24. *)
Lemma ltb_ints k n : 0 < k < 2 ^ 24 -> k < n <= 2 ^ 32 -> ltb (of_int k) (of_int n) = true.
Proof.
  intros Hk Hn. destruct (of_int_exact k Hk) as (q & -> & Eq). assert (Lk : 0 <= Z.log2 k <= 23) by (split; [apply Z.log2_nonneg|]; pose proof (Z.log2_lt_pow2 k 24 ltac:(lia)); lia).
  destruct (decide (n < 2 ^ 24)) as [H|H].
  - destruct (of_int_exact n ltac:(lia)) as (r & -> & Er). pose proof (Z.log2_le_mono k n ltac:(lia)). unfold ltb, SFltb, SFcompare.
    destruct (Z.compare_spec (Z.log2 k - 23) (Z.log2 n - 23)) as [E|E|E]; [|reflexivity|lia].
    assert (Hqr : Zpos q < Zpos r) by (rewrite Eq, Er; replace (Z.log2 n) with (Z.log2 k) by lia; apply Z.mul_lt_mono_pos_r; [apply Z.pow_pos_nonneg; lia|lia]).
    change (Pos.compare_cont Datatypes.Eq q r) with (Pos.compare q r). rewrite (proj2 (Pos.compare_lt_iff q r)) by lia. reflexivity.
  - destruct (of_int_pos n ltac:(lia)) as (r & e & -> & He). pose proof (Z.log2_le_mono (2 ^ 24) n ltac:(lia)) as Hl. rewrite Z.log2_pow2 in Hl by lia.
    unfold ltb, SFltb, SFcompare. rewrite (proj2 (Z.compare_lt_iff (Z.log2 k - 23) e)) by lia. reflexivity.
Qed.

Lemma one_times_less k n : 0 <= k < 2 ^ 24 -> k < n <= 2 ^ 32 -> ltb (mul (of_int 1) (of_int k)) (of_int n) = true.
Proof.
  intros Hk Hn. destruct (decide (k = 0)) as [->|]; [|rewrite mul_exact, Z.mul_1_l by lia; apply ltb_ints; lia].
  destruct (of_int_pos n ltac:(lia)) as (r & e & -> & _). reflexivity.
Qed.
End FloatsSpec.
