(* ===== verification/SbplGrid2D.v ===== *)
(** * The 2D grid search of SBPL (src/libsbpl: utils/2Dgridsearch.h, utils/2Dgridsearch.cpp)

    [SBPL2DGridSearch]: distances between the cells of a map, for the heuristics
    of the lattice environments.  OPEN is a [CIntHeap] or a [CSlidingBucket].  The
    states lie in [searchStates2D_] column by column; a pointer to one is its
    index.  Their [heapindex] is kept by the heap. *)

From S2P Require Import Prelude.
From S2P Require Import Doubles.
From S2P Require Import Floats.
From S2P Require Import Keys.
From S2P Require Import SbplHeap.
From S2P Require Import SbplIntHeap.
From S2P Require Import SbplSliding.

Module SbplGrid2D.
Import Keys.

Definition NUMOF2DDIRS : Z := 16.

Inductive TERM_CONDITION := OPTPATHFOUND | TWENTYPERCENTOVEROPTPATH | TWOTIMESOPTPATH | THREETIMESOPTPATH | ALLCELLS.
Inductive OPENTYPE := OPENTYPE_HEAP | OPENTYPE_SLIDINGBUCKETS.

(** [SBPL_2DGridSearchState] *)
Record SearchState := mkState { x : Z; y : Z; g : Z; iterationaccessed : Z }.

Record GridSearch := mkSearch {
  OPEN2DBLIST_ : option SbplSliding.CSlidingBucket;
  OPEN2D_ : option (SbplHeap.CHeap Z);
  heapindices : SbplHeap.store;
  searchStates2D_ : list SearchState;
  dxy_distance_mm_ : list Z;
  OPENtype_ : OPENTYPE;
  startX_ : Z; startY_ : Z;
  goalX_ : Z; goalY_ : Z;
  width_ : Z; height_ : Z;
  cellSize_m_ : Floats.float;
  iteration_ : Z;
  largestcomputedoptf_ : Z;
  term_condition_usedlast : TERM_CONDITION;
}.

Definition set_open (h : option (SbplHeap.CHeap Z)) (ix : SbplHeap.store) (s : GridSearch) : GridSearch :=
  mkSearch (OPEN2DBLIST_ s) h ix (searchStates2D_ s) (dxy_distance_mm_ s) (OPENtype_ s) (startX_ s) (startY_ s) (goalX_ s) (goalY_ s)
    (width_ s) (height_ s) (cellSize_m_ s) (iteration_ s) (largestcomputedoptf_ s) (term_condition_usedlast s).
Definition set_list (l : option SbplSliding.CSlidingBucket) (s : GridSearch) : GridSearch :=
  mkSearch l (OPEN2D_ s) (heapindices s) (searchStates2D_ s) (dxy_distance_mm_ s) (OPENtype_ s) (startX_ s) (startY_ s) (goalX_ s) (goalY_ s)
    (width_ s) (height_ s) (cellSize_m_ s) (iteration_ s) (largestcomputedoptf_ s) (term_condition_usedlast s).
Definition set_states (l : list SearchState) (s : GridSearch) : GridSearch :=
  mkSearch (OPEN2DBLIST_ s) (OPEN2D_ s) (heapindices s) l (dxy_distance_mm_ s) (OPENtype_ s) (startX_ s) (startY_ s) (goalX_ s) (goalY_ s)
    (width_ s) (height_ s) (cellSize_m_ s) (iteration_ s) (largestcomputedoptf_ s) (term_condition_usedlast s).
Definition set_type (t : OPENTYPE) (s : GridSearch) : GridSearch :=
  mkSearch (OPEN2DBLIST_ s) (OPEN2D_ s) (heapindices s) (searchStates2D_ s) (dxy_distance_mm_ s) t (startX_ s) (startY_ s) (goalX_ s) (goalY_ s)
    (width_ s) (height_ s) (cellSize_m_ s) (iteration_ s) (largestcomputedoptf_ s) (term_condition_usedlast s).
Definition set_call (it sx sy gx gy : Z) (s : GridSearch) : GridSearch :=
  mkSearch (OPEN2DBLIST_ s) (OPEN2D_ s) (heapindices s) (searchStates2D_ s) (dxy_distance_mm_ s) (OPENtype_ s) sx sy gx gy
    (width_ s) (height_ s) (cellSize_m_ s) it (largestcomputedoptf_ s) (term_condition_usedlast s).
Definition set_condition (t : TERM_CONDITION) (s : GridSearch) : GridSearch :=
  mkSearch (OPEN2DBLIST_ s) (OPEN2D_ s) (heapindices s) (searchStates2D_ s) (dxy_distance_mm_ s) (OPENtype_ s) (startX_ s) (startY_ s) (goalX_ s) (goalY_ s)
    (width_ s) (height_ s) (cellSize_m_ s) (iteration_ s) (largestcomputedoptf_ s) t.
Definition set_largest (f : Z) (s : GridSearch) : GridSearch :=
  mkSearch (OPEN2DBLIST_ s) (OPEN2D_ s) (heapindices s) (searchStates2D_ s) (dxy_distance_mm_ s) (OPENtype_ s) (startX_ s) (startY_ s) (goalX_ s) (goalY_ s)
    (width_ s) (height_ s) (cellSize_m_ s) (iteration_ s) f (term_condition_usedlast s).

(** ** Moves *)

(** [computedxy]; the second intermediate cell of the first eight moves is not
    set. *)
Definition dx_ : list Z := [1; 1; 1; 0; 0; -1; -1; -1; 2; 1; -1; -2; -2; -1; 1; 2].
Definition dy_ : list Z := [1; 0; -1; 1; -1; 1; 0; -1; 1; 2; 2; 1; -1; -2; -2; -1].
Definition dx0intersects_ : list Z := [-1; -1; -1; -1; -1; -1; -1; -1; 1; 0; 0; -1; -1; 0; 0; 1].
Definition dy0intersects_ : list Z := [-1; -1; -1; -1; -1; -1; -1; -1; 0; 1; 1; 0; 0; -1; -1; 0].
Definition dx1intersects_ : list (option Z) := replicate 8 None ++ [Some 1; Some 1; Some (-1); Some (-1); Some (-1); Some (-1); Some 1; Some 1].
Definition dy1intersects_ : list (option Z) := replicate 8 None ++ [Some 1; Some 1; Some 1; Some 1; Some (-1); Some (-1); Some (-1); Some (-1)].

Definition distance_mm (cellsize : Floats.float) (dind : Z) : res Z :=
  dx ← aget dx_ dind;
  dy ← aget dy_ dind;
  let k := if negb (dx =? 0) && negb (dy =? 0) then (if dind <=? 7 then 1414 else 2236) else 1000 in
  Floats.to_int (Floats.mul cellsize (Floats.of_int k)).

Definition computedxy (cellsize : Floats.float) : res (list Z) :=
  foldM (fun l dind => d ← distance_mm cellsize dind; Ok (l ++ [d])) [] (seqZ 0 NUMOF2DDIRS).

(** ** Set-up *)

Definition createSearchStates2D (width height iteration : Z) : list SearchState :=
  x ← seqZ 0 width; y ← seqZ 0 height; [mkState x y INFINITECOST iteration].

(** [SBPL2DGridSearch (width_x, height_y, cellsize_m)] *)
Definition construct (width_x height_y : Z) (cellsize_m : Floats.float) : res GridSearch :=
  ds ← computedxy cellsize_m;
  n ← mul_int int32 width_x height_y;
  h ← SbplIntHeap.new_heap_sized n;
  if (width_x <? 0) || (height_y <? 0) then Err Thrown else
  Ok (mkSearch None (Some h) ∅ (createSearchStates2D width_x height_y 0) ds OPENTYPE_HEAP (-1) (-1) (-1) (-1)
    width_x height_y cellsize_m 0 0 ALLCELLS).

Definition setOPENdatastructure (t : OPENTYPE) (s : GridSearch) : res GridSearch :=
  let s := set_type t s in
  match t with
  | OPENTYPE_HEAP => Ok s
  | OPENTYPE_SLIDINGBUCKETS =>
      s ← match OPEN2DBLIST_ s with
          | Some _ => Ok s
          | None =>
              let maxdistance := foldl Z.max 0 (dxy_distance_mm_ s) in
              n ← mul_int int32 255 maxdistance;
              l ← SbplSliding.new_sliding n (Z.max 1000 (width_ s + height_ s));
              Ok (set_list (Some l) s)
          end;
      match OPEN2D_ s with
      | None => Ok s
      | Some h => '(_, ix) ← SbplIntHeap.makeemptyheap h (heapindices s); Ok (set_open None ix s)
      end
  end.

(** ** Searching *)

Definition withinMap (s : GridSearch) (x y : Z) : bool := (0 <=? x) && (0 <=? y) && (x <? width_ s) && (y <? height_ s).

(** [&searchStates2D_[x][y]] *)
Definition address (s : GridSearch) (x y : Z) : res Z :=
  if withinMap s x y then Ok (x * height_ s + y) else Err OutOfBounds.
Definition state_at (s : GridSearch) (i : Z) : res SearchState := aget (searchStates2D_ s) i.
Definition write_state (s : GridSearch) (i : Z) (t : SearchState) : res GridSearch :=
  l ← aset (searchStates2D_ s) i t; Ok (set_states l s).

(** [SBPL_2DGRIDSEARCH_HEUR2D (x, y)] *)
Definition HEUR2D (s : GridSearch) (x y : Z) : res Z :=
  Floats.to_int (Floats.mul (Floats.mul (Floats.of_int 1000) (cellSize_m_ s))
    (Floats.of_int (Z.max (Z.abs (x - goalX_ s)) (Z.abs (y - goalY_ s))))).

Definition initializeSearchState2D (i : Z) (s : GridSearch) : res GridSearch :=
  t ← state_at s i;
  s ← write_state s i (mkState (x t) (y t) INFINITECOST (iteration_ s));
  Ok (set_open (OPEN2D_ s) (<[i := 0]> (heapindices s)) s).

Definition term_factor (t : TERM_CONDITION) : Floats.float :=
  match t with
  | OPTPATHFOUND => Floats.of_int 1
  | TWENTYPERCENTOVEROPTPATH => Floats.of_double (Doubles.div (Doubles.of_int 1) (Doubles.literal 12 10))
  | TWOTIMESOPTPATH => Floats.of_double (Doubles.literal 5 10)
  | THREETIMESOPTPATH => Floats.of_double (Doubles.div (Doubles.of_int 1) (Doubles.of_int 3))
  | ALLCELLS => Floats.of_int 0
  end.

(** [n > term_factor * key] *)
Definition worthwhile (t : TERM_CONDITION) (n key : Z) : bool :=
  Floats.ltb (Floats.mul (term_factor t) (Floats.of_int key)) (Floats.of_int n).

(** [Grid2D[x][y]] *)
Definition grid_cell (Grid2D : list (list Z)) (x y : Z) : res Z := col ← aget Grid2D x; aget col y.

(** The cost of a move from a cell of cost [expcost]; none past an obstacle. *)
Definition move_cost (Grid2D : list (list Z)) (obsthresh : Z) (s : GridSearch) (exp_x exp_y expcost dir newx newy : Z) : res (option Z) :=
  c ← grid_cell Grid2D newx newy;
  let mapcost := Z.max c expcost in
  mapcost ← if 7 <? dir then
      dx0 ← aget dx0intersects_ dir; dy0 ← aget dy0intersects_ dir;
      c0 ← grid_cell Grid2D (exp_x + dx0) (exp_y + dy0);
      dx1 ← read_cell dx1intersects_ dir; dy1 ← read_cell dy1intersects_ dir;
      c1 ← grid_cell Grid2D (exp_x + dx1) (exp_y + dy1);
      Ok (Z.max (Z.max mapcost c0) c1)
    else Ok mapcost;
  if obsthresh <=? mapcost then Ok None else
  d ← aget (dxy_distance_mm_ s) dir;
  cost ← mul_int int32 (mapcost + 1) d;
  Ok (Some cost).

(** The neighbor in direction [dir] with the cost of the move, when it is in the
    map, not closed and not past an obstacle. *)
Definition neighbor (Grid2D : list (list Z)) (obsthresh : Z) (pbClosed : list bool) (s : GridSearch) (exp_x exp_y expcost dir : Z) :
    res (option (Z * Z)) :=
  dx ← aget dx_ dir; dy ← aget dy_ dir;
  let newx := exp_x + dx in let newy := exp_y + dy in
  if negb (withinMap s newx newy) then Ok None else
  closed ← aget pbClosed (newx + width_ s * newy);
  if closed : bool then Ok None else
  cost ← move_cost Grid2D obsthresh s exp_x exp_y expcost dir newx newy;
  match cost with None => Ok None | Some cost => i ← address s newx newy; Ok (Some (i, cost)) end.

(** An assignment to [g] when the state is new or the sum is smaller. *)
Definition relax (i exp_i cost : Z) (s : GridSearch) : res (bool * GridSearch) :=
  t ← state_at s i;
  e ← state_at s exp_i;
  sum ← add_int int32 cost (g e);
  if negb (iterationaccessed t =? iteration_ s) || (sum <? g t) then
    s ← write_state s i (mkState (x t) (y t) (Z.min INFINITECOST sum) (iteration_ s));
    Ok (true, s)
  else Ok (false, s).

(** The key of a state: with the heuristic only when a path is sought. *)
Definition heap_key (s : GridSearch) (i : Z) : res Z :=
  t ← state_at s i;
  match term_condition_usedlast s with
  | OPTPATHFOUND => h ← HEUR2D s (x t) (y t); add_int int32 (g t) h
  | _ => Ok (g t)
  end.

(** [OPEN2D_->...] *)
Definition the_heap (s : GridSearch) : res (SbplHeap.CHeap Z) := match OPEN2D_ s with Some h => Ok h | None => Err OutOfBounds end.
Definition the_list (s : GridSearch) : res SbplSliding.CSlidingBucket := match OPEN2DBLIST_ s with Some l => Ok l | None => Err OutOfBounds end.

Section search.
Context (Grid2D : list (list Z)) (obsthresh : Z).

(** One iteration over the directions in [search_withheap]. *)
Definition heap_successor (exp_i exp_x exp_y expcost : Z) (pbClosed : list bool) (s : GridSearch) (dir : Z) : res GridSearch :=
  n ← neighbor Grid2D obsthresh pbClosed s exp_x exp_y expcost dir;
  match n with
  | None => Ok s
  | Some (i, cost) =>
      '(better, s) ← relax i exp_i cost s;
      if better : bool then
        key ← heap_key s i;
        h ← the_heap s;
        '(h, ix) ← if SbplHeap.heapindex (heapindices s) i =? 0 then SbplIntHeap.insertheap i key h (heapindices s)
                   else SbplIntHeap.updateheap i key h (heapindices s);
        Ok (set_open (Some h) ix s)
      else Ok s
  end.

Fixpoint heap_loop (fuel : nat) (goal : Z) (pbClosed : list bool) (s : GridSearch) : res GridSearch :=
  match fuel with
  | O => Err OutOfFuel
  | S fuel =>
      h ← the_heap s;
      go ← (if SbplIntHeap.emptyheap h then Ok false else
            t ← state_at s goal; k ← SbplIntHeap.getminkeyheap h; Ok (worthwhile (term_condition_usedlast s) (Z.min INFINITECOST (g t)) k));
      if go : bool then
        '(exp_i, h, ix) ← SbplIntHeap.deleteminheap h (heapindices s);
        let s := set_open (Some h) ix s in
        e ← state_at s exp_i;
        pbClosed ← aset pbClosed (x e + width_ s * y e) true;
        expcost ← grid_cell Grid2D (x e) (y e);
        s ← foldM (heap_successor exp_i (x e) (y e) expcost pbClosed) s (seqZ 0 NUMOF2DDIRS);
        heap_loop fuel goal pbClosed s
      else Ok s
  end.

(** What both searches do before the loop: the start at 0, the goal at infinity. *)
Definition seed (startx_c starty_c goalx_c goaly_c : Z) (s : GridSearch) : res (Z * Z * GridSearch) :=
  start ← address s startx_c starty_c;
  s ← initializeSearchState2D start s;
  goal ← address s goalx_c goaly_c;
  s ← initializeSearchState2D goal s;
  t ← state_at s start;
  s ← write_state s start (mkState (x t) (y t) 0 (iterationaccessed t));
  Ok (start, goal, s).

(** A state is closed per iteration. *)
Definition loop_fuel (s : GridSearch) : nat := S (Z.to_nat (width_ s * height_ s)).

Definition search_withheap (startx_c starty_c goalx_c goaly_c : Z) (t : TERM_CONDITION) (s : GridSearch) : res (bool * GridSearch) :=
  it ← add_int int32 (iteration_ s) 1;
  let s := set_call it startx_c starty_c goalx_c goaly_c s in
  h ← the_heap s;
  '(h, ix) ← SbplIntHeap.makeemptyheap h (heapindices s);
  let s := set_condition t (set_open (Some h) ix s) in
  if negb (withinMap s startx_c starty_c) || negb (withinMap s goalx_c goaly_c) then Ok (false, s) else
  '(start, goal, s) ← seed startx_c starty_c goalx_c goaly_c s;
  key ← heap_key s start;
  h ← the_heap s;
  '(h, ix) ← SbplIntHeap.insertheap start key h (heapindices s);
  let s := set_open (Some h) ix s in
  n ← mul_int int32 (width_ s) (height_ s);
  s ← heap_loop (loop_fuel s) goal (replicate (Z.to_nat n) false) s;
  h ← the_heap s;
  f ← if SbplIntHeap.emptyheap h then Ok INFINITECOST else SbplIntHeap.getminkeyheap h;
  Ok (true, set_largest f s).

(** One iteration over the directions in [search_withslidingbuckets]. *)
Definition list_successor (exp_i exp_x exp_y expcost : Z) (pbClosed : list bool) (s : GridSearch) (dir : Z) : res GridSearch :=
  n ← neighbor Grid2D obsthresh pbClosed s exp_x exp_y expcost dir;
  match n with
  | None => Ok s
  | Some (i, cost) =>
      '(better, s) ← relax i exp_i cost s;
      if better : bool then
        t ← state_at s i;
        l ← the_list s;
        l ← SbplSliding.insert i (g t) l;
        Ok (set_list (Some l) s)
      else Ok s
  end.

(** A state may be in the list more than once: the list shrinks with every
    iteration that closes none. *)
Fixpoint list_loop (fuel : nat) (goal : Z) (pbClosed : list bool) (s : GridSearch) : res GridSearch :=
  match fuel with
  | O => Err OutOfFuel
  | S fuel =>
      l ← the_list s;
      go ← (if SbplSliding.empty l then Ok false else
            t ← state_at s goal; Ok (worthwhile (term_condition_usedlast s) (g t) (SbplSliding.getminkey l)));
      if go : bool then
        '(popped, l) ← SbplSliding.popminelement l;
        let s := set_list (Some l) s in
        match popped with
        | None => Err OutOfBounds
        | Some exp_i =>
            e ← state_at s exp_i;
            closed ← aget pbClosed (x e + width_ s * y e);
            if closed : bool then list_loop fuel goal pbClosed s else
            pbClosed ← aset pbClosed (x e + width_ s * y e) true;
            expcost ← grid_cell Grid2D (x e) (y e);
            s ← foldM (list_successor exp_i (x e) (y e) expcost pbClosed) s (seqZ 0 NUMOF2DDIRS);
            list_loop fuel goal pbClosed s
        end
      else Ok s
  end.

(** Every cell is closed once and puts at most [NUMOF2DDIRS] states into the list. *)
Definition list_fuel (s : GridSearch) : nat := S (S (Z.to_nat (width_ s * height_ s * NUMOF2DDIRS))).

Definition search_withslidingbuckets (startx_c starty_c goalx_c goaly_c : Z) (t : TERM_CONDITION) (s : GridSearch) : res (bool * GridSearch) :=
  it ← add_int int32 (iteration_ s) 1;
  let s := set_call it startx_c starty_c goalx_c goaly_c s in
  if negb (withinMap s startx_c starty_c) || negb (withinMap s goalx_c goaly_c) then Ok (false, s) else
  l ← the_list s;
  l ← SbplSliding.reset l;
  let s := set_condition t (set_list (Some l) s) in
  '(start, goal, s) ← seed startx_c starty_c goalx_c goaly_c s;
  l ← the_list s;
  l ← SbplSliding.insert start 0 l;
  let s := set_list (Some l) s in
  n ← mul_int int32 (width_ s) (height_ s);
  s ← list_loop (list_fuel s) goal (replicate (Z.to_nat n) false) s;
  l ← the_list s;
  if SbplSliding.empty l then Ok (true, set_largest INFINITECOST s) else
  '(m, l) ← SbplSliding.getminelement l;
  match m with
  | None => Err OutOfBounds
  | Some i => t ← state_at s i; Ok (true, set_largest (g t) (set_list (Some l) s))
  end.

Definition search (startx_c starty_c goalx_c goaly_c : Z) (t : TERM_CONDITION) (s : GridSearch) : res (bool * GridSearch) :=
  match OPENtype_ s with
  | OPENTYPE_HEAP => search_withheap startx_c starty_c goalx_c goaly_c t s
  | OPENTYPE_SLIDINGBUCKETS => search_withslidingbuckets startx_c starty_c goalx_c goaly_c t s
  end.
End search.

(** ** Answers *)

Definition getlowerboundoncostfromstart_inmm (s : GridSearch) (cx cy : Z) : res Z :=
  match term_condition_usedlast s with
  | OPTPATHFOUND =>
      h ← HEUR2D s cx cy;
      i ← address s cx cy;
      t ← state_at s i;
      exact ← (if iterationaccessed t =? iteration_ s then f ← add_int int32 (g t) h; Ok (f <=? largestcomputedoptf_ s) else Ok false);
      if exact : bool then Ok (g t)
      else if largestcomputedoptf_ s <? INFINITECOST then add_int int32 (largestcomputedoptf_ s) (- h) else Ok INFINITECOST
  | _ =>
      i ← address s cx cy;
      t ← state_at s i;
      Ok (if (iterationaccessed t =? iteration_ s) && (g t <=? largestcomputedoptf_ s) then g t else largestcomputedoptf_ s)
  end.
Definition getlargestcomputedoptimalf_inmm (s : GridSearch) : Z := largestcomputedoptf_ s.
End SbplGrid2D.
