(* ===== verification/SbplHeapSpec.v ===== *)
(** * The heaps of libsbpl implement a priority map

    The contents of a heap are a finite map from states to keys.  Every
    operation is the operation on the map, the [heapindex] of each state locates
    it, and an exception is thrown exactly where the map operation is not
    defined. *)

From S2P Require Import Prelude.
From S2P Require Import Keys.
From S2P Require Import SbplHeap.

Module SbplHeapSpec.
Import Keys SbplHeap.

(** ** Heap order on ranks *)

Lemma half_bounds i : 1 < i -> 1 <= i / 2 < i.
Proof. intros; lia_div. Qed.

Lemma half_child i c : i / 2 = c <-> i = 2 * c \/ i = 2 * c + 1.
Proof. split; intros; lia_div. Qed.

Section order.
Implicit Types (R : Z -> Z).

Definition fswap R a b i : Z := if decide (i = a) then R b else if decide (i = b) then R a else R i.

(** Order between every node from [b] on and its children. *)
Definition ford (b n : Z) R : Prop := forall i, 1 < i <= n -> b <= i / 2 -> R (i / 2) <= R i.

(** ... except between [c] and its parent. *)
Definition up_inv (n : Z) R c : Prop :=
  (forall i, 1 < i <= n -> i <> c -> R (i / 2) <= R i) /\
  (forall i, 1 < i <= n -> i / 2 = c -> 1 < c -> R (c / 2) <= R i).

(** ... except between [c] and its children. *)
Definition down_inv (b n : Z) R c : Prop :=
  (forall i, 1 < i <= n -> b <= i / 2 -> i / 2 <> c -> R (i / 2) <= R i) /\
  (forall i, 1 < i <= n -> i / 2 = c -> 1 < c -> b <= c / 2 -> R (c / 2) <= R i).

Lemma up_step n R c : 1 < c <= n -> up_inv n R c -> R c < R (c / 2) -> up_inv n (fswap R c (c / 2)) (c / 2).
Proof.
  intros Hc [H1 H2] Hlt. pose proof (half_bounds c ltac:(lia)) as Hp. split.
  - intros i Hi Hne. pose proof (half_bounds i ltac:(lia)) as Hpi. unfold fswap.
    pose proof (H1 i Hi) as A. pose proof (H2 i Hi) as B.
    destruct (decide (i = c)) as [->|Hic].
    { rewrite decide_False by lia. rewrite decide_True by reflexivity. lia. }
    rewrite (decide_False (P := i = c / 2)) by exact Hne.
    destruct (decide (i / 2 = c)) as [E|E]; [apply B; lia|].
    destruct (decide (i / 2 = c / 2)) as [E'|E']; [|auto]. rewrite E' in A. specialize (A Hic). lia.
  - intros i Hi Hpi Hpc. unfold fswap. pose proof (half_bounds (c / 2) Hpc) as Hpp.
    pose proof (half_bounds i ltac:(lia)) as Hii.
    rewrite !(decide_False (P := c / 2 / 2 = _)) by lia. pose proof (H1 (c / 2) ltac:(lia) ltac:(lia)) as A.
    destruct (decide (i = c)) as [->|Hic]; [lia|]. rewrite (decide_False (P := i = _)) by lia.
    pose proof (H1 i Hi Hic) as B. rewrite Hpi in B. lia.
Qed.

Lemma up_done n R c : (1 < c -> R (c / 2) <= R c) -> up_inv n R c -> ford 1 n R.
Proof. intros Hc [H1 _] i Hi _. destruct (decide (i = c)) as [->|Hne]; [apply Hc; lia|auto]. Qed.

Lemma down_step b n R c d : 1 <= c -> d / 2 = c -> d <= n -> (forall i, 1 < i <= n -> i / 2 = c -> R d <= R i) ->
  down_inv b n R c -> R d < R c -> down_inv b n (fswap R c d) d.
Proof.
  intros Hc Hd Hdn Hmin [H1 H2] Hlt. assert (Hd1 : 1 < d) by (apply half_child in Hd; lia).
  pose proof (half_bounds d Hd1) as Hdd. split.
  - intros i Hi Hb Hne. pose proof (half_bounds i ltac:(lia)) as Hii. unfold fswap.
    rewrite (decide_False (P := i / 2 = d)) by exact Hne.
    destruct (decide (i / 2 = c)) as [E|E].
    + rewrite (decide_False (P := i = c)) by lia. destruct (decide (i = d)) as [->|Hid]; [lia|]. apply Hmin; lia.
    + pose proof (H1 i Hi Hb E) as A. destruct (decide (i = c)) as [->|Hic].
      * apply (H2 d); lia.
      * destruct (decide (i = d)) as [->|]; [contradiction|exact A].
  - intros i Hi Hid _ Hb. pose proof (half_bounds i ltac:(lia)) as Hii. unfold fswap.
    rewrite Hd. rewrite (decide_True (P := c = c)) by reflexivity.
    rewrite !(decide_False (P := i = _)) by lia.
    pose proof (H1 i Hi) as A. rewrite Hid in A. apply A; lia.
Qed.

Lemma down_done b n R c : (forall i, 1 < i <= n -> i / 2 = c -> R c <= R i) -> down_inv b n R c -> ford b n R.
Proof. intros Hc [H1 _] i Hi Hb. destruct (decide (i / 2 = c)) as [E|E]; [rewrite E; apply Hc; assumption|auto]. Qed.

Lemma ford_root n R i : ford 1 n R -> 1 <= i <= n -> R 1 <= R i.
Proof.
  intros F. revert i. enough (H : forall k : nat, forall i, 1 <= i <= Z.of_nat k -> i <= n -> R 1 <= R i).
  { intros i Hi. apply (H (Z.to_nat i)); lia. }
  induction k as [|k IH]; intros i Hi Hn; [lia|]. destruct (decide (i = 1)) as [->|Hne]; [lia|].
  pose proof (half_bounds i ltac:(lia)). pose proof (IH (i / 2) ltac:(lia) ltac:(lia)).
  pose proof (F i ltac:(lia) ltac:(lia)). lia.
Qed.

Lemma ford_ext b n R R' : (forall i, 1 <= i <= n -> R' i = R i) -> ford b n R -> ford b n R'.
Proof.
  intros E F i Hi Hb. pose proof (half_bounds i ltac:(lia)). rewrite !E by lia. apply F; assumption.
Qed.

Lemma up_inv_ext n R R' c : (forall i, 1 <= i <= n -> R' i = R i) -> 1 <= c <= n -> up_inv n R c -> up_inv n R' c.
Proof.
  intros E Hc [H1 H2]. split; intros i Hi.
  - intros Hne. pose proof (half_bounds i ltac:(lia)). rewrite !E by lia. auto.
  - intros Hh H1c. pose proof (half_bounds c H1c). rewrite !E by lia. auto.
Qed.

Lemma down_inv_ext b n R R' c : (forall i, 1 <= i <= n -> R' i = R i) -> 1 <= c <= n -> down_inv b n R c -> down_inv b n R' c.
Proof.
  intros E Hc [H1 H2]. split; intros i Hi.
  - intros Hb Hne. pose proof (half_bounds i ltac:(lia)). rewrite !E by lia. auto.
  - intros Hh H1c Hb. pose proof (half_bounds c H1c). rewrite !E by lia. auto.
Qed.
End order.
(** ** The representation *)

Section spec.
Context {K : Type} {kops : KeyOps K} {klaws : KeyLaws K}.
Implicit Types (h : CHeap K) (ix : store) (m : gmap Z K).

Record shape h : Prop := {
  sh_len : Z.of_nat (length (heap h)) = allocated h;
  sh_alloc : 1 <= allocated h <= HEAPSIZE;
  sh_size : 0 <= currentsize h < allocated h;
}.

(** Cells 1 to [currentsize] are the entries of [m]; the [heapindex] of a state
    in [m] is its cell. *)
Record cells h ix m : Prop := {
  c_shape : shape h;
  c_cell : forall i, 1 <= i <= currentsize h ->
    exists e, aget (heap h) i = Ok (Some e) /\ heapindex ix (heapstate e) = i /\ m !! heapstate e = Some (key e);
  c_map : forall s k, m !! s = Some k -> 1 <= heapindex ix s <= currentsize h /\
    aget (heap h) (heapindex ix s) = Ok (Some (mkElem s k));
  c_valid : forall s k, m !! s = Some k -> valid_key k;
}.

(** The rank of the key in a cell. *)
Definition R h (i : Z) : Z := match aget (heap h) i with Ok (Some e) => rank (key e) | _ => 0 end.

Definition rep h ix m : Prop := cells h ix m /\ ford 1 (currentsize h) (R h).

(** States outside [m] keep their [heapindex]. *)
Definition frame m ix ix' : Prop := forall s, m !! s = None -> heapindex ix' s = heapindex ix s.

Lemma frame_refl m ix : frame m ix ix.
Proof. intros s _. reflexivity. Qed.

Lemma frame_trans m ix1 ix2 ix3 : frame m ix1 ix2 -> frame m ix2 ix3 -> frame m ix1 ix3.
Proof. intros F1 F2 s Hs. rewrite F2, F1 by exact Hs. reflexivity. Qed.

Lemma heapindex_insert ix s i s' : heapindex (<[s := i]> ix) s' = if decide (s' = s) then i else heapindex ix s'.
Proof.
  unfold heapindex. case_decide as E; [subst; rewrite lookup_insert_eq; reflexivity|].
  rewrite lookup_insert_ne by congruence. reflexivity.
Qed.

Lemma cheap_read_some (a : list (option (heapelement K))) i e : aget a i = Ok (Some e) -> read_cell a i = Ok e.
Proof. apply read_cell_Ok. Qed.

(** ** A heap with a hole: [tmp] is an entry whose cell is being looked for *)

Record holes h ix m (hole : Z) (tmp : heapelement K) : Prop := {
  ho_shape : shape h;
  ho_hole : 1 <= hole <= currentsize h;
  ho_tmp : m !! heapstate tmp = Some (key tmp);
  ho_cell : forall i, 1 <= i <= currentsize h -> i <> hole -> exists e, aget (heap h) i = Ok (Some e) /\
    heapindex ix (heapstate e) = i /\ m !! heapstate e = Some (key e) /\ heapstate e <> heapstate tmp;
  ho_map : forall s k, m !! s = Some k -> s <> heapstate tmp -> 1 <= heapindex ix s <= currentsize h /\
    heapindex ix s <> hole /\ aget (heap h) (heapindex ix s) = Ok (Some (mkElem s k));
  ho_valid : forall s k, m !! s = Some k -> valid_key k;
}.

(** The ranks when [tmp] is thought of as being in the hole. *)
Definition VR h hole tmp i : Z := if decide (i = hole) then rank (key tmp) else R h i.

Lemma shape_set a h : shape h -> length a = length (heap h) -> shape (set_heap a h).
Proof. intros [H1 H2 H3] Hl. split; cbn; [rewrite Hl|..]; assumption. Qed.

Lemma shape_percolates n h : shape h -> shape (set_percolates n h).
Proof. intros [H1 H2 H3]. split; assumption. Qed.

Lemma R_set a i e h j : shape h -> 0 <= i < allocated h -> a = <[Z.to_nat i := Some e]> (heap h) ->
  R (set_heap a h) j = if decide (j = i) then rank (key e) else R h j.
Proof.
  intros S Hi ->. unfold R. cbn. rewrite aget_insert by (rewrite (sh_len _ S); exact Hi).
  case_decide; reflexivity.
Qed.

(** Filling the hole. *)
Lemma fill h ix m hole tmp : holes h ix m hole tmp ->
  exists h' ix', place hole tmp h ix = Ok (h', ix') /\ cells h' ix' m /\ frame m ix ix' /\
    (forall i, R h' i = VR h hole tmp i) /\ currentsize h' = currentsize h /\ allocated h' = allocated h /\
    percolates h' = percolates h.
Proof.
  intros [S Hh Ht Hc Hm Hv]. pose proof (sh_size _ S) as Hs. unfold place.
  rewrite aset_in, bind_ok_l by (rewrite (sh_len _ S); lia). set (a := <[_ := _]> _).
  assert (Ha : forall i, aget a i = if decide (i = hole) then Ok (Some tmp) else aget (heap h) i)
    by (intros i; unfold a; rewrite aget_insert by (rewrite (sh_len _ S); lia); reflexivity).
  eexists _, _. split; [reflexivity|]. split; [|split; [|split; [|auto]]].
  - split; cbn.
    + apply shape_set; [exact S|]. apply length_insert.
    + intros i Hi. rewrite Ha. case_decide as E.
      * exists tmp. rewrite heapindex_insert, decide_True by reflexivity. auto.
      * destruct (Hc i Hi E) as (e & -> & E1 & E2 & E3). exists e. rewrite heapindex_insert, decide_False by exact E3. auto.
    + intros s k Hsk. rewrite heapindex_insert. case_decide as E.
      * subst s. rewrite Ht in Hsk. injection Hsk as <-. split; [lia|]. rewrite Ha, decide_True by reflexivity.
        destruct tmp; reflexivity.
      * destruct (Hm s k Hsk E) as (E1 & E2 & E3). split; [exact E1|]. rewrite Ha, decide_False by exact E2. exact E3.
    + exact Hv.
  - intros s Hs'. rewrite heapindex_insert, decide_False; [reflexivity|]. intros ->. congruence.
  - intros i. apply R_set; [exact S|lia|reflexivity].
Qed.

(** Moving an entry into the hole. *)
Lemma shift h ix m hole tmp c e : holes h ix m hole tmp -> 1 <= c <= currentsize h -> c <> hole ->
  aget (heap h) c = Ok (Some e) ->
  exists h' ix', place hole e h ix = Ok (h', ix') /\ holes h' ix' m c tmp /\ frame m ix ix' /\
    (forall i, VR h' c tmp i = fswap (VR h hole tmp) hole c i) /\
    currentsize h' = currentsize h /\ allocated h' = allocated h /\ percolates h' = percolates h.
Proof.
  intros [S Hh Ht Hc Hm Hv] Hcr Hne Ee. pose proof (sh_size _ S) as Hs. unfold place.
  rewrite aset_in, bind_ok_l by (rewrite (sh_len _ S); lia). set (a := <[_ := _]> _).
  assert (Ha : forall i, aget a i = if decide (i = hole) then Ok (Some e) else aget (heap h) i)
    by (intros i; unfold a; rewrite aget_insert by (rewrite (sh_len _ S); lia); reflexivity).
  destruct (Hc c Hcr Hne) as (e' & Ee' & Ei & Em & Est). rewrite Ee in Ee'. injection Ee' as <-.
  eexists _, _. split; [reflexivity|]. split; [|split; [|split; [|auto]]].
  - split; cbn.
    + apply shape_set; [exact S|]. apply length_insert.
    + exact Hcr.
    + exact Ht.
    + intros i Hi Hic. rewrite Ha. case_decide as E.
      * exists e. rewrite heapindex_insert, decide_True by reflexivity. auto.
      * destruct (Hc i Hi E) as (e2 & Ee2 & E1 & E2 & E3). exists e2. rewrite heapindex_insert, decide_False; [auto|].
        intros Heq. rewrite Heq in E1. congruence.
    + intros s k Hsk Hst. rewrite heapindex_insert. case_decide as E.
      * subst s. rewrite Em in Hsk. injection Hsk as <-. split; [exact Hh|]. split; [congruence|].
        rewrite Ha, decide_True by reflexivity. destruct e; reflexivity.
      * destruct (Hm s k Hsk Hst) as (E1 & E2 & E3). split; [exact E1|]. split.
        -- intros Hix. rewrite Hix, Ee in E3. injection E3 as ->. apply E. reflexivity.
        -- rewrite Ha, decide_False by exact E2. exact E3.
    + exact Hv.
  - intros s Hs'. rewrite heapindex_insert, decide_False; [reflexivity|]. intros ->. congruence.
  - intros i. assert (HR : R (set_heap a h) i = if decide (i = hole) then rank (key e) else R h i)
      by (apply R_set; [exact S|lia|reflexivity]).
    assert (HRc : R h c = rank (key e)) by (unfold R; rewrite Ee; reflexivity).
    unfold VR, fswap. rewrite HR. destruct (decide (i = c)) as [->|Hic].
    + rewrite !decide_False, decide_True by congruence. reflexivity.
    + destruct (decide (i = hole)) as [->|]; [|reflexivity]. rewrite decide_False by exact Hne. auto.
Qed.

Lemma holes_percolates n h ix m hole tmp : holes h ix m hole tmp -> holes (set_percolates n h) ix m hole tmp.
Proof. intros [S Hh Ht Hc Hm Hv]. split; auto. apply shape_percolates. exact S. Qed.
(** ** The loops *)

Definition kept h h' (k : Z) : Prop :=
  currentsize h' = currentsize h /\ allocated h' = allocated h /\ percolates h <= percolates h' <= percolates h + k.

(** What a loop that started with a hole achieves. *)
Definition settled (b k : Z) h ix m (r : res (CHeap K * store)) : Prop :=
  exists h' ix', r = Ok (h', ix') /\ cells h' ix' m /\ frame m ix ix' /\
    ford b (currentsize h) (R h') /\ kept h h' k.

Lemma settled_fill b k h ix m hole tmp : holes h ix m hole tmp -> 0 <= k ->
  ford b (currentsize h) (VR h hole tmp) -> settled b k h ix m (place hole tmp h ix).
Proof.
  intros Ho Hk Hf. destruct (fill h ix m hole tmp Ho) as (h' & ix' & E & C & F & HR & E1 & E2 & E3).
  exists h', ix'. split_and!; auto; [|split_and!; auto; lia].
  apply (ford_ext b _ (VR h hole tmp)); auto.
Qed.

Lemma settled_step b k h h1 h2 ix ix2 m r : currentsize h2 = currentsize h -> allocated h2 = allocated h ->
  percolates h1 = percolates h + 1 -> percolates h2 = percolates h1 -> frame m ix ix2 ->
  settled b k h2 ix2 m r -> settled b (k + 1) h ix m r.
Proof.
  intros E1 E2 E3 E4 F (h' & ix' & -> & C & F' & O & (K1 & K2 & K3)). exists h', ix'.
  rewrite E1 in O. split_and!; auto; [eapply frame_trans; eassumption|]. split_and!; lia.
Qed.

Lemma rank_cell h i e : aget (heap h) i = Ok (Some e) -> R h i = rank (key e).
Proof. unfold R. intros ->. reflexivity. Qed.

Lemma cheap_min_child_ok h ix m hole tmp : holes h ix m hole tmp -> 2 * hole <= currentsize h ->
  exists c e, min_child h hole = Ok c /\ c / 2 = hole /\ c <= currentsize h /\ aget (heap h) c = Ok (Some e) /\
    valid_key (key e) /\ forall i, 1 < i <= currentsize h -> i / 2 = hole -> R h c <= R h i.
Proof.
  intros Ho Hc. pose proof (ho_hole _ _ _ _ _ Ho) as Hh. unfold min_child.
  destruct (ho_cell _ _ _ _ _ Ho (2 * hole)) as (l & El & _ & Ml & _); [lia..|].
  pose proof (ho_valid _ _ _ _ _ Ho _ _ Ml) as Vl.
  destruct (Z.eqb_spec (2 * hole) (currentsize h)) as [E|E]; cbn [negb].
  - exists (2 * hole), l. split; [reflexivity|]. split; [apply half_child; lia|]. split; [lia|]. split; [exact El|].
    split; [exact Vl|]. intros i Hi [->| ->]%half_child; lia.
  - destruct (ho_cell _ _ _ _ _ Ho (2 * hole + 1)) as (r & Er & _ & Mr & _); [lia..|].
    pose proof (ho_valid _ _ _ _ _ Ho _ _ Mr) as Vr.
    rewrite (cheap_read_some _ _ _ El), (cheap_read_some _ _ _ Er), !bind_ok_l, key_lt_rank by assumption.
    pose proof (rank_cell _ _ _ El) as Rl. pose proof (rank_cell _ _ _ Er) as Rr.
    destruct (Z.ltb_spec (rank (key r)) (rank (key l))); eexists _, _; (split; [reflexivity|]).
    + split; [apply half_child; lia|]. split; [lia|]. split; [exact Er|]. split; [exact Vr|].
      intros i Hi [->| ->]%half_child; lia.
    + split; [apply half_child; lia|]. split; [lia|]. split; [exact El|]. split; [exact Vl|].
      intros i Hi [->| ->]%half_child; lia.
Qed.

Lemma down_ok b m tmp fuel : forall k h ix hole, holes h ix m hole tmp -> 
  down_inv b (currentsize h) (VR h hole tmp) hole ->
  currentsize h < hole * 2 ^ (Z.of_nat k + 1) -> (k < fuel)%nat -> 0 <= percolates h -> percolates h + Z.of_nat k <= INT_MAX ->
  settled b (Z.of_nat k) h ix m (down_loop fuel hole tmp h ix).
Proof.
  induction fuel as [|fuel IH]; intros k h ix hole Ho Inv Hk Hf Hp0 Hp; [lia|]. cbn [down_loop].
  pose proof (ho_hole _ _ _ _ _ Ho) as Hh.
  destruct (Z.leb_spec (2 * hole) (currentsize h)) as [Hle|Hgt].
  2:{ apply settled_fill; [exact Ho|lia|]. apply (down_done b _ _ hole); [|exact Inv].
      intros i Hi [->| ->]%half_child; lia. }
  destruct (cheap_min_child_ok h ix m hole tmp Ho Hle) as (c & e & -> & Hch & Hcn & Ec & Ve & Hmin). rewrite bind_ok_l.
  rewrite (cheap_read_some _ _ _ Ec), bind_ok_l, key_lt_rank by (auto; exact (ho_valid _ _ _ _ _ Ho _ _ (ho_tmp _ _ _ _ _ Ho))).
  pose proof (rank_cell _ _ _ Ec) as Rc. assert (Hc : hole < c) by (apply half_child in Hch; lia).
  assert (Vc : VR h hole tmp c = R h c) by (unfold VR; rewrite decide_False; [reflexivity|lia]).
  assert (Vh : VR h hole tmp hole = rank (key tmp)) by (unfold VR; rewrite decide_True; reflexivity).
  assert (Vmin : forall i, 1 < i <= currentsize h -> i / 2 = hole -> VR h hole tmp c <= VR h hole tmp i).
  { intros i Hi Hih. rewrite Vc. unfold VR. rewrite decide_False by (apply half_child in Hih; lia). auto. }
  destruct (Z.ltb_spec (rank (key e)) (rank (key tmp))) as [Hlt|Hge].
  - destruct k as [|k]; [cbn in Hk; lia|]. unfold percolated.
    rewrite add_int_in by (unfold int_min; change (int_max int32) with INT_MAX; unfold INT_MAX in *; cbn in *; lia).
    rewrite !bind_ok_l.
    destruct (shift _ ix m hole tmp c e (holes_percolates (percolates h + 1) _ _ _ _ _ Ho)) as
      (h2 & ix2 & -> & Ho2 & F2 & V2 & E1 & E2 & E3); [cbn; lia|lia|exact Ec|].
    rewrite bind_ok_l. cbn [currentsize allocated percolates set_percolates] in *.
    replace (Z.of_nat (S k)) with (Z.of_nat k + 1) in * by lia.
    apply (settled_step b (Z.of_nat k) h (set_percolates (percolates h + 1) h) h2 ix ix2); auto.
    apply IH; [exact Ho2| | |lia..].
    + rewrite E1. apply (down_inv_ext b _ (fswap (VR h hole tmp) hole c)); [intros i _; apply V2|lia|].
      apply down_step; auto; lia.
    + rewrite E1. rewrite Z.pow_add_r in Hk by lia. apply half_child in Hch. nia.
  - apply settled_fill; [exact Ho|lia|]. apply (down_done b _ _ hole); [|exact Inv].
    intros i Hi Hih. pose proof (Vmin i Hi Hih). lia.
Qed.

Lemma up_ok m tmp fuel : forall k h ix hole, holes h ix m hole tmp ->
  up_inv (currentsize h) (VR h hole tmp) hole ->
  hole < 2 ^ (Z.of_nat k + 1) -> (k < fuel)%nat -> 0 <= percolates h -> percolates h + Z.of_nat k <= INT_MAX ->
  settled 1 (Z.of_nat k) h ix m (up_loop fuel hole tmp h ix).
Proof.
  induction fuel as [|fuel IH]; intros k h ix hole Ho Inv Hk Hf Hp0 Hp; [lia|]. cbn [up_loop].
  pose proof (ho_hole _ _ _ _ _ Ho) as Hh.
  destruct (Z.ltb_spec 1 hole) as [H1|H1].
  2:{ apply settled_fill; [exact Ho|lia|]. apply (up_done _ _ hole); [lia|exact Inv]. }
  pose proof (half_bounds hole H1) as Hb.
  destruct (ho_cell _ _ _ _ _ Ho (hole / 2)) as (e & Ee & _ & Me & _); [lia..|].
  rewrite (cheap_read_some _ _ _ Ee), bind_ok_l, key_lt_rank
    by (eapply (ho_valid _ _ _ _ _ Ho); first [exact Me|apply (ho_tmp _ _ _ _ _ Ho)]).
  pose proof (rank_cell _ _ _ Ee) as Rp.
  assert (Vp : VR h hole tmp (hole / 2) = R h (hole / 2)) by (unfold VR; rewrite decide_False; [reflexivity|lia]).
  assert (Vh : VR h hole tmp hole = rank (key tmp)) by (unfold VR; rewrite decide_True; reflexivity).
  destruct (Z.ltb_spec (rank (key tmp)) (rank (key e))) as [Hlt|Hge].
  - destruct k as [|k]; [cbn in Hk; lia|]. unfold percolated.
    rewrite add_int_in by (unfold int_min; change (int_max int32) with INT_MAX; unfold INT_MAX in *; cbn in *; lia).
    rewrite !bind_ok_l.
    destruct (shift _ ix m hole tmp (hole / 2) e (holes_percolates (percolates h + 1) _ _ _ _ _ Ho)) as
      (h2 & ix2 & -> & Ho2 & F2 & V2 & E1 & E2 & E3); [cbn; lia|lia|exact Ee|].
    rewrite bind_ok_l. cbn [currentsize allocated percolates set_percolates] in *.
    replace (Z.of_nat (S k)) with (Z.of_nat k + 1) in * by lia.
    apply (settled_step 1 (Z.of_nat k) h (set_percolates (percolates h + 1) h) h2 ix ix2); auto.
    apply IH; [exact Ho2| | |lia..].
    + rewrite E1. apply (up_inv_ext _ (fswap (VR h hole tmp) hole (hole / 2))); [intros i _; apply V2|lia|].
      apply up_step; auto; lia.
    + rewrite Z.pow_add_r in Hk by lia. apply Z.div_lt_upper_bound; lia.
  - apply settled_fill; [exact Ho|lia|]. apply (up_done _ _ hole); [lia|exact Inv].
Qed.
(** ** Percolation *)

(** The counter of percolations does not overflow in the next [n] operations:
    a heap has at most 25 levels. *)
Definition room h (n : Z) : Prop := 0 <= percolates h /\ percolates h + 24 * n <= INT_MAX.

Lemma levels n : 1 <= n < HEAPSIZE -> n < 2 ^ (Z.log2 n + 1) /\ 0 <= Z.log2 n <= 24.
Proof.
  unfold HEAPSIZE. intros Hn. pose proof (Z.log2_spec n ltac:(lia)) as [_ H]. pose proof (Z.log2_nonneg n).
  split; [exact H|]. split; [assumption|]. apply (Z.log2_le_mono n (2 ^ 25 - 1)). lia.
Qed.

Lemma settled_weaken b j k h ix m r : j <= k -> settled b j h ix m r -> settled b k h ix m r.
Proof.
  intros Hj (h' & ix' & E & C & F & O & (K1 & K2 & K3)). exists h', ix'. split_and!; auto. split_and!; lia.
Qed.

Lemma size_bound h ix m hole tmp : holes h ix m hole tmp -> 1 <= hole <= currentsize h /\ currentsize h < HEAPSIZE.
Proof. intros [[H1 H2 H3] Hh _ _ _ _]. lia. Qed.

Lemma percolatedown_ok b m tmp h ix hole : holes h ix m hole tmp -> room h 1 ->
  down_inv b (currentsize h) (VR h hole tmp) hole -> settled b 24 h ix m (percolatedown hole tmp h ix).
Proof.
  intros Ho [Hp0 Hp] Inv. pose proof (size_bound _ _ _ _ _ Ho) as Hs. unfold percolatedown.
  rewrite (proj2 (Z.eqb_neq _ 0)) by lia. cbn [negb].
  destruct (levels (currentsize h)) as [Hl Hk]; [lia|].
  apply (settled_weaken b (Z.of_nat (Z.to_nat (Z.log2 (currentsize h))))); [lia|].
  pose proof (Z.log2_le_lin (currentsize h) ltac:(lia)).
  apply down_ok; auto; [|lia|lia]. rewrite Z2Nat.id by lia.
  pose proof (Z.pow_pos_nonneg 2 (Z.log2 (currentsize h) + 1)). nia.
Qed.

Lemma percolateup_ok m tmp h ix hole : holes h ix m hole tmp -> room h 1 ->
  up_inv (currentsize h) (VR h hole tmp) hole -> settled 1 24 h ix m (percolateup hole tmp h ix).
Proof.
  intros Ho [Hp0 Hp] Inv. pose proof (size_bound _ _ _ _ _ Ho) as Hs. unfold percolateup.
  rewrite (proj2 (Z.eqb_neq _ 0)) by lia. cbn [negb].
  destruct (levels hole) as [Hl Hk]; [lia|].
  apply (settled_weaken 1 (Z.of_nat (Z.to_nat (Z.log2 hole)))); [lia|].
  pose proof (Z.log2_le_lin hole ltac:(lia)).
  apply up_ok; auto; [|lia|lia]. rewrite Z2Nat.id by lia. exact Hl.
Qed.

(** A heap in order whose entry in the hole was replaced. *)
Lemma percolateupordown_ok m tmp h ix hole : holes h ix m hole tmp -> room h 1 ->
  (forall i, 1 < i <= currentsize h -> R h (i / 2) <= R h i \/ i / 2 = hole \/ i = hole) ->
  (forall i, 1 < i <= currentsize h -> i / 2 = hole -> 1 < hole -> R h (hole / 2) <= R h i) ->
  settled 1 24 h ix m (percolateupordown hole tmp h ix).
Proof.
  intros Ho Hr H1 H2. pose proof (size_bound _ _ _ _ _ Ho) as Hs. unfold percolateupordown.
  rewrite (proj2 (Z.eqb_neq _ 0)) by lia. cbn [negb].
  assert (V : forall i, i <> hole -> VR h hole tmp i = R h i) by (intros i Hi; unfold VR; rewrite decide_False; auto).
  assert (Vh : VR h hole tmp hole = rank (key tmp)) by (unfold VR; rewrite decide_True; reflexivity).
  assert (Hdown : (1 < hole -> R h (hole / 2) <= rank (key tmp)) -> settled 1 24 h ix m (percolatedown hole tmp h ix)).
  { intros Hp. apply percolatedown_ok; auto. split.
    - intros i Hi _ Hne. pose proof (half_bounds i ltac:(lia)). rewrite (V (i / 2)) by exact Hne.
      destruct (decide (i = hole)) as [->|E]; [rewrite Vh; apply Hp; lia|]. rewrite V by exact E.
      destruct (H1 i Hi) as [|[|]]; tauto || lia.
    - intros i Hi Hih Hh _. pose proof (half_bounds hole Hh). pose proof (half_bounds i ltac:(lia)). rewrite !V by lia. auto. }
  destruct (Z.ltb_spec 1 hole) as [Hh|Hh]; [|rewrite bind_ok_l; apply Hdown; lia].
  pose proof (half_bounds hole Hh) as Hb.
  destruct (ho_cell _ _ _ _ _ Ho (hole / 2)) as (e & Ee & _ & Me & _); [lia..|].
  rewrite (cheap_read_some _ _ _ Ee), !bind_ok_l, key_gt_rank
    by (eapply (ho_valid _ _ _ _ _ Ho); first [exact Me|apply (ho_tmp _ _ _ _ _ Ho)]).
  rewrite <- (rank_cell _ _ _ Ee).
  destruct (Z.ltb_spec (rank (key tmp)) (R h (hole / 2))) as [Hlt|Hge]; [|apply Hdown; lia].
  apply percolateup_ok; auto. split.
  - intros i Hi Hne. rewrite (V i) by exact Hne. destruct (decide (i / 2 = hole)) as [E|E].
    + rewrite E, Vh. pose proof (H2 i Hi E Hh). lia.
    + rewrite V by exact E. destruct (H1 i Hi) as [|[|]]; tauto || lia.
  - intros i Hi Hih _. pose proof (half_bounds i ltac:(lia)). rewrite !V by lia. auto.
Qed.

(** ** Making a hole *)

Lemma holes_frame h ix ix' m hole tmp : holes h ix m hole tmp ->
  (forall s k, m !! s = Some k -> heapindex ix' s = heapindex ix s) -> holes h ix' m hole tmp.
Proof.
  intros [S Hh Ht Hc Hm Hv] F. split; auto.
  - intros i Hi Hne. destruct (Hc i Hi Hne) as (e & E1 & E2 & E3 & E4). exists e. rewrite (F _ _ E3). auto.
  - intros s k Hs Hst. rewrite (F _ _ Hs). auto.
Qed.

(** The last entry is to go where [s] was. *)
Lemma hole_delete h ix m s k e : cells h ix m -> m !! s = Some k -> heapindex ix s < currentsize h ->
  aget (heap h) (currentsize h) = Ok (Some e) ->
  holes (set_size (currentsize h - 1) h) ix (delete s m) (heapindex ix s) e.
Proof.
  intros [S Hc Hm Hv] Hs Hlt Ee. destruct (Hm s k Hs) as [Hr Hcell]. destruct S as [S1 S2 S3].
  destruct (Hc (currentsize h)) as (e' & Ee' & Ei & Em); [lia|]. rewrite Ee in Ee'. injection Ee' as <-.
  split; cbn [currentsize set_size heap allocated].
  - split; cbn; lia.
  - lia.
  - rewrite lookup_delete_ne; [exact Em|]. intros ->. lia.
  - intros i Hi Hne. destruct (Hc i ltac:(lia)) as (e2 & E1 & E2 & E3). exists e2. split; [exact E1|]. split; [exact E2|].
    split; [rewrite lookup_delete_ne; [exact E3|]; intros ->; congruence|]. intros Heq. rewrite Heq in E2. lia.
  - intros s' k' Hs' Hne. apply lookup_delete_Some in Hs' as [Hss' Hs']. destruct (Hm s' k' Hs') as [Hr' Hcell'].
    split; [|split; [|exact Hcell']].
    + destruct (decide (heapindex ix s' = currentsize h)) as [E|]; [|lia].
      rewrite E, Ee in Hcell'. injection Hcell' as ->. cbn in Hne. contradiction.
    + intros E. rewrite E, Hcell in Hcell'. congruence.
  - intros s' k' Hs'. apply lookup_delete_Some in Hs' as [_ Hs']. eauto.
Qed.

Lemma hole_insert h ix m s k : cells h ix m -> m !! s = None -> valid_key k -> currentsize h + 1 < allocated h ->
  holes (set_size (currentsize h + 1) h) ix (<[s := k]> m) (currentsize h + 1) (mkElem s k).
Proof.
  intros [S Hc Hm Hv] Hs Hk Ha. destruct S as [S1 S2 S3]. split; cbn [currentsize set_size heap allocated heapstate key].
  - split; cbn; lia.
  - lia.
  - apply lookup_insert_eq.
  - intros i Hi Hne. destruct (Hc i ltac:(lia)) as (e & E1 & E2 & E3). exists e. split; [exact E1|]. split; [exact E2|].
    split; [rewrite lookup_insert_ne; [exact E3|]|]; congruence.
  - intros s' k' Hs' Hne. rewrite lookup_insert_ne in Hs' by congruence. destruct (Hm s' k' Hs'). split_and!; auto; lia.
  - intros s' k' [[<- <-]|[_ Hs']]%lookup_insert_Some; eauto.
Qed.

Lemma hole_update h ix m s k k' : cells h ix m -> m !! s = Some k -> valid_key k' ->
  holes (set_heap (<[Z.to_nat (heapindex ix s) := Some (mkElem s k')]> (heap h)) h) ix (<[s := k']> m)
    (heapindex ix s) (mkElem s k').
Proof.
  intros [S Hc Hm Hv] Hs Hk. destruct (Hm s k Hs) as [Hr Hcell]. pose proof (sh_size _ S). pose proof (sh_len _ S).
  assert (Ha : forall i, i <> heapindex ix s ->
    aget (<[Z.to_nat (heapindex ix s) := Some (mkElem s k')]> (heap h)) i = aget (heap h) i).
  { intros i Hi. rewrite aget_insert, decide_False; [reflexivity|exact Hi|lia]. }
  split; cbn [currentsize set_heap heap allocated heapstate key].
  - apply shape_set; [exact S|apply length_insert].
  - exact Hr.
  - apply lookup_insert_eq.
  - intros i Hi Hne. destruct (Hc i Hi) as (e & E1 & E2 & E3). exists e. rewrite Ha by exact Hne. split; [exact E1|].
    split; [exact E2|]. assert (heapstate e <> s) by congruence. rewrite lookup_insert_ne by congruence. auto.
  - intros s' k2 Hs' Hne. rewrite lookup_insert_ne in Hs' by congruence. destruct (Hm s' k2 Hs') as [Hr' Hcell'].
    assert (heapindex ix s' <> heapindex ix s). { intros E. rewrite E, Hcell in Hcell'. congruence. }
    rewrite Ha by assumption. auto.
  - intros s' k2 [[<- <-]|[_ Hs']]%lookup_insert_Some; eauto.
Qed.

Lemma hole_same h ix m i e : cells h ix m -> 1 <= i <= currentsize h -> aget (heap h) i = Ok (Some e) -> holes h ix m i e.
Proof.
  intros [S Hc Hm Hv] Hi Ee. destruct (Hc i Hi) as (e' & Ee' & E1 & E2). rewrite Ee in Ee'. injection Ee' as <-. split; auto.
  - intros j Hj Hne. destruct (Hc j Hj) as (e2 & F1 & F2 & F3). exists e2. split_and!; auto. congruence.
  - intros s k Hs Hne. destruct (Hm s k Hs) as [H1 H2]. split_and!; auto; try lia. intros E.
    rewrite E, Ee in H2. injection H2 as ->. contradiction.
Qed.
(** ** The operations *)

Lemma growheap_ok h ix m : cells h ix m -> currentsize h + 1 < HEAPSIZE -> currentsize h = allocated h - 1 ->
  exists h', growheap h = Ok h' /\ cells h' ix m /\ currentsize h' + 1 < allocated h' /\ currentsize h' = currentsize h /\
    percolates h' = percolates h /\ forall i, 0 <= i <= currentsize h -> R h' i = R h i.
Proof.
  intros [[S1 S2 S3] Hc Hm Hv] Hn Ha. unfold growheap. set (a := if _ <? _ then _ else _).
  assert (Hal : currentsize h + 1 < a <= HEAPSIZE) by (unfold a, HEAPSIZE in *; case_match eqn:E; lia).
  match goal with |- context [foldM ?f _ _] => set (body := f) end.
  destruct (foldM_inv body (fun done cells => Z.of_nat (length cells) = a /\
      forall i, 0 <= i < Z.of_nat (length done) -> aget cells i = aget (heap h) i)
    (seqZ 0 (currentsize h + 1)) (new_cells a)) as (cs & E & Hl & Hcopy).
  - split; [unfold new_cells; rewrite length_replicate; lia|]. cbn. lia.
  - intros done i todo cs Hs [Hl Hcp].
    assert (Hi : i = Z.of_nat (length done)).
    { pose proof (f_equal (fun s => s !! length done) Hs) as Hk. cbn in Hk. rewrite list_lookup_middle in Hk by reflexivity.
      apply lookup_seqZ in Hk. lia. }
    assert (Hd : Z.of_nat (length done) < currentsize h + 1).
    { apply (f_equal length) in Hs. rewrite length_seqZ, length_app in Hs. cbn in Hs. lia. }
    destruct (aget_in (heap h) i) as [c Ec]; [lia|]. unfold body. rewrite Ec, bind_ok_l, aset_in by lia.
    eexists. split; [reflexivity|]. split; [rewrite length_insert; exact Hl|].
    intros j Hj. rewrite length_app in Hj. cbn in Hj. rewrite aget_insert by lia.
    case_decide as Hd'; [subst; symmetry; exact Ec|]. apply Hcp. lia.
  - rewrite E, bind_ok_l. rewrite length_seqZ in Hcopy. eexists. split; [reflexivity|].
    split; [|split; [cbn; lia|split; [reflexivity|split; [reflexivity|]]]].
    + split; cbn; [split; cbn; lia| | |exact Hv].
      * intros i Hi. rewrite Hcopy by lia. auto.
      * intros s k Hs. destruct (Hm s k Hs) as [Hr Hcell]. rewrite Hcopy by lia. auto.
    + intros i Hi. unfold R. cbn. rewrite Hcopy by lia. reflexivity.
Qed.

Lemma sizecheck_ok h ix m : cells h ix m ->
  if fullheap h then sizecheck h = Err Thrown
  else exists h', sizecheck h = Ok h' /\ cells h' ix m /\ currentsize h' + 1 < allocated h' /\
    currentsize h' = currentsize h /\ percolates h' = percolates h /\ forall i, 0 <= i <= currentsize h -> R h' i = R h i.
Proof.
  intros C. unfold sizecheck, fullheap. pose proof (sh_size _ (c_shape _ _ _ C)). pose proof (sh_alloc _ (c_shape _ _ _ C)).
  destruct (Z.eqb_spec (currentsize h) (HEAPSIZE - 1)) as [|Hne]; [reflexivity|].
  destruct (Z.eqb_spec (currentsize h) (allocated h - 1)) as [E|E].
  - apply growheap_ok; [exact C|lia|exact E].
  - exists h. split; [reflexivity|]. split; [exact C|]. split; [lia|auto].
Qed.

(** An operation that succeeds and leaves the map [m']. *)
Definition succeeds h ix m' (r : res (CHeap K * store)) : Prop :=
  exists h' ix', r = Ok (h', ix') /\ rep h' ix' m' /\ frame m' ix ix' /\ percolates h' <= percolates h + 24 /\
    percolates h <= percolates h'.

Lemma settled_succeeds h h0 ix m r : currentsize h0 = currentsize h -> percolates h0 = percolates h ->
  settled 1 24 h0 ix m r -> succeeds h ix m r.
Proof.
  intros E1 E2 (h' & ix' & -> & C & F & O & (K1 & K2 & K3)). exists h', ix'. split; [reflexivity|].
  split; [split; [exact C|rewrite K1; exact O]|]. split; [exact F|lia].
Qed.

Lemma insertheap_ok s k h ix m : rep h ix m -> m !! s = None -> heapindex ix s = 0 -> valid_key k ->
  fullheap h = false -> room h 1 -> succeeds h ix (<[s := k]> m) (insertheap s k h ix).
Proof.
  intros [C O] Hs Hix Hk Hf [Hp0 Hp]. unfold insertheap. pose proof (sizecheck_ok h ix m C) as Hsz. rewrite Hf in Hsz.
  destruct Hsz as (h1 & -> & C1 & Ha & E1 & E2 & ER). rewrite bind_ok_l, Hix. cbn [negb Z.eqb].
  pose proof (sh_size _ (c_shape _ _ _ C)) as Hsize.
  pose proof (hole_insert h1 ix m s k C1 Hs Hk Ha) as Ho.
  enough (settled 1 24 (set_size (currentsize h1 + 1) h1) ix (<[s := k]> m)
    (percolateup (currentsize h1 + 1) (mkElem s k) (set_size (currentsize h1 + 1) h1) ix)) as (h' & ix' & -> & C' & F & O' & (K1 & K2 & K3)).
  { exists h', ix'. cbn [percolates set_size] in K3. split; [reflexivity|]. split; [split; [exact C'|rewrite K1; exact O']|].
    split; [exact F|lia]. }
  apply percolateup_ok; [exact Ho|split; cbn [percolates set_size]; lia|]. cbn [currentsize set_size]. split.
  - intros i Hi Hne. pose proof (half_bounds i ltac:(lia)). unfold VR. rewrite !decide_False by lia.
    change (R (set_size (currentsize h1 + 1) h1)) with (R h1). rewrite !ER by lia. apply O; lia.
  - intros i Hi Hih. pose proof (half_bounds i ltac:(lia)). lia.
Qed.

(** Dropping the last cell. *)
Lemma truncate h ix m s k : cells h ix m -> m !! s = Some k -> heapindex ix s = currentsize h ->
  cells (set_size (currentsize h - 1) h) (<[s := 0]> ix) (delete s m).
Proof.
  intros [[S1 S2 S3] Hc Hm Hv] Hs Hix. destruct (Hm s k Hs) as [Hr Hcell]. split; cbn.
  - split; cbn; lia.
  - intros i Hi. destruct (Hc i ltac:(lia)) as (e & E1 & E2 & E3). exists e. split; [exact E1|].
    assert (heapstate e <> s) by (intros Heq; rewrite Heq in E2; lia). rewrite heapindex_insert, decide_False, lookup_delete_ne by congruence. auto.
  - intros s' k' [Hne Hs']%lookup_delete_Some. destruct (Hm s' k' Hs') as [Hr' Hcell'].
    rewrite heapindex_insert, decide_False by congruence. split; [|exact Hcell'].
    destruct (decide (heapindex ix s' = currentsize h)) as [E|]; [|lia]. rewrite E, <- Hix, Hcell in Hcell'. congruence.
  - intros s' k' [_ Hs']%lookup_delete_Some. eauto.
Qed.

Lemma ford_shrink b n n' (Q : Z -> Z) : n' <= n -> ford b n Q -> ford b n' Q.
Proof. intros Hn F i Hi Hb. apply F; lia. Qed.

Lemma cells_index0 h ix m s : cells h ix m -> m !! s = None -> cells h (<[s := 0]> ix) m.
Proof.
  intros [S Hc Hm Hv] Hs. split; auto.
  - intros i Hi. destruct (Hc i Hi) as (e & E1 & E2 & E3). exists e. rewrite heapindex_insert, decide_False by congruence. auto.
  - intros s' k Hs'. rewrite heapindex_insert, decide_False by congruence. auto.
Qed.

Lemma cells_last h ix m s k : cells h ix m -> m !! s = Some k ->
  exists e, aget (heap h) (currentsize h) = Ok (Some e) /\ 1 <= heapindex ix s <= currentsize h.
Proof.
  intros C Hs. destruct (c_map _ _ _ C s k Hs) as [Hr _]. destruct (c_cell _ _ _ C (currentsize h)) as (e & E & _); [lia|]. eauto.
Qed.

(** [deleteheap] and [deleteminheap] clear the [heapindex] of the state at
    different times. *)
Lemma delete_inner_ok h ix m s k e : cells h ix m -> ford 1 (currentsize h) (R h) -> room h 1 ->
  m !! s = Some k -> heapindex ix s < currentsize h -> aget (heap h) (currentsize h) = Ok (Some e) ->
  settled 1 24 (set_size (currentsize h - 1) h) ix (delete s m)
    (percolateupordown (heapindex ix s) e (set_size (currentsize h - 1) h) ix).
Proof.
  intros C O Hr Hs Hlt Ee. pose proof (hole_delete h ix m s k e C Hs Hlt Ee) as Ho.
  destruct (c_map _ _ _ C s k Hs) as [Hix _].
  apply percolateupordown_ok; [exact Ho|exact Hr|..]; cbn [currentsize set_size];
    change (R (set_size (currentsize h - 1) h)) with (R h).
  - intros i Hi. left. apply O; [lia|]. pose proof (half_bounds i ltac:(lia)). lia.
  - intros i Hi Hih Hh. pose proof (half_bounds _ Hh). pose proof (half_bounds i ltac:(lia)).
    transitivity (R h (heapindex ix s)); [|rewrite <- Hih]; apply O; lia.
Qed.

(** Setting the [heapindex] of a state that has left the heap. *)
Lemma rep_index0 h ix m s : rep h ix m -> m !! s = None -> rep h (<[s := 0]> ix) m.
Proof. intros [C O] Hs. split; [apply cells_index0; assumption|exact O]. Qed.

(** ... with [heapindex] 0 for [s], and the others outside as they were. *)
Definition removes s h ix m (r : res (CHeap K * store)) : Prop :=
  exists h' ix', r = Ok (h', ix') /\ rep h' ix' (delete s m) /\ heapindex ix' s = 0 /\
    (forall s', m !! s' = None -> heapindex ix' s' = heapindex ix s') /\
    percolates h' <= percolates h + 24 /\ percolates h <= percolates h'.

(** The last entry leaves: nothing moves. *)
Lemma delete_last_ok h ix m s k e : rep h ix m -> m !! s = Some k -> heapindex ix s = currentsize h ->
  aget (heap h) (currentsize h) = Ok (Some e) ->
  exists h' ix', percolateupordown (heapindex ix s) e (set_size (currentsize h - 1) h) ix = Ok (h', ix') /\
    rep h' (<[s := 0]> ix') (delete s m) /\ (forall s', s' <> s -> heapindex ix' s' = heapindex ix s') /\
    percolates h' = percolates h.
Proof.
  intros [C O] Hs Hix Ee. pose proof (sh_size _ (c_shape _ _ _ C)) as Hsz. pose proof (sh_len _ (c_shape _ _ _ C)) as Hln.
  destruct (c_map _ _ _ C s k Hs) as [Hr Hcell]. rewrite Hix in Hcell.
  assert (e = mkElem s k) as -> by congruence.
  assert (Hrep : rep (set_size (currentsize h - 1) h) (<[s := 0]> ix) (delete s m)).
  { split; [apply (truncate h ix m s k C Hs Hix)|]. apply (ford_shrink _ (currentsize h)); [cbn; lia|exact O]. }
  unfold percolateupordown. cbn [currentsize set_size heap].
  destruct (Z.eqb_spec (currentsize h - 1) 0) as [E|E]; cbn [negb]; [eauto 10|].
  rewrite Hix. rewrite (proj2 (Z.ltb_lt 1 (currentsize h))) by lia.
  pose proof (half_bounds (currentsize h) ltac:(lia)) as Hb.
  destruct (c_cell _ _ _ C (currentsize h / 2)) as (p & Ep & _ & Mp); [lia|].
  rewrite (cheap_read_some _ _ _ Ep), !bind_ok_l, key_gt_rank by (eapply (c_valid _ _ _ C); eassumption).
  rewrite <- (rank_cell _ _ _ Ep), <- (rank_cell _ _ _ Ee).
  rewrite (proj2 (Z.ltb_ge _ _)) by (apply O; lia).
  unfold percolatedown. cbn [currentsize set_size]. rewrite (proj2 (Z.eqb_neq _ 0) E). cbn [negb down_loop currentsize set_size].
  rewrite (proj2 (Z.leb_gt _ _)) by lia. unfold place. cbn [heap set_size].
  rewrite aset_in, bind_ok_l by lia. apply aget_Ok in Ee as [_ Ee]. rewrite list_insert_id by exact Ee.
  eexists _, _. split; [reflexivity|]. split; [|split].
  - cbn [heapstate]. rewrite insert_insert_eq. exact Hrep.
  - intros s' Hs'. rewrite heapindex_insert, decide_False by exact Hs'. reflexivity.
  - reflexivity.
Qed.

Lemma deleteheap_ok s k h ix m : rep h ix m -> m !! s = Some k -> room h 1 -> removes s h ix m (deleteheap s h ix).
Proof.
  intros [C O] Hs Hr. unfold deleteheap. destruct (cells_last h ix m s k C Hs) as (e & Ee & Hix).
  rewrite (proj2 (Z.eqb_neq _ 0)), (cheap_read_some _ _ _ Ee), bind_ok_l by lia.
  destruct (decide (heapindex ix s = currentsize h)) as [E|E].
  - destruct (delete_last_ok h ix m s k e (conj C O) Hs E Ee) as (h' & ix' & -> & Hrep & F & Hp). rewrite bind_ok_l.
    exists h', (<[s := 0]> ix'). split; [reflexivity|]. split; [exact Hrep|].
    split; [rewrite heapindex_insert, decide_True; reflexivity|]. split; [|lia].
    intros s' Hs'. assert (s' <> s) by congruence. rewrite heapindex_insert, decide_False by assumption. auto.
  - destruct (delete_inner_ok h ix m s k e C O Hr Hs ltac:(lia) Ee) as (h' & ix' & -> & C' & F & O' & (K1 & K2 & K3)).
    rewrite bind_ok_l. exists h', (<[s := 0]> ix'). split; [reflexivity|].
    split; [apply rep_index0; [split; [exact C'|rewrite K1; exact O']|apply lookup_delete_eq]|].
    split; [rewrite heapindex_insert, decide_True; reflexivity|]. split; [|cbn [percolates set_size] in K3; lia].
    intros s' Hs'. assert (s' <> s) by congruence. rewrite heapindex_insert, decide_False by assumption.
    apply F. rewrite lookup_delete_ne by congruence. exact Hs'.
Qed.

(** The root is an entry of least rank. *)
Lemma root_ok h ix m : rep h ix m -> 0 < currentsize h -> exists s k, aget (heap h) 1 = Ok (Some (mkElem s k)) /\
  m !! s = Some k /\ heapindex ix s = 1 /\ forall s' k', m !! s' = Some k' -> rank k <= rank k'.
Proof.
  intros [C O] Hn. destruct (c_cell _ _ _ C 1) as ([s k] & E1 & E2 & E3); [lia|]. exists s, k. split_and!; auto.
  intros s' k' Hs'. destruct (c_map _ _ _ C s' k' Hs') as [Hr Hcell].
  pose proof (ford_root _ _ (heapindex ix s') O Hr) as H1. rewrite (rank_cell _ _ _ E1), (rank_cell _ _ _ Hcell) in H1. exact H1.
Qed.

Lemma deleteminheap_ok h ix m : rep h ix m -> 0 < currentsize h -> room h 1 ->
  exists s k h' ix', deleteminheap h ix = Ok (s, h', ix') /\ m !! s = Some k /\
    (forall s' k', m !! s' = Some k' -> rank k <= rank k') /\ removes s h ix m (Ok (h', ix')).
Proof.
  intros [C O] Hn Hr. destruct (root_ok h ix m (conj C O) Hn) as (s & k & E1 & Hs & Hix & Hmin).
  unfold deleteminheap. rewrite (proj2 (Z.eqb_neq _ 0)), (cheap_read_some _ _ _ E1), bind_ok_l by lia. cbn [heapstate].
  destruct (cells_last h ix m s k C Hs) as (e & Ee & _). rewrite (cheap_read_some _ _ _ Ee), bind_ok_l.
  destruct (decide (currentsize h = 1)) as [E|E].
  - unfold percolatedown. cbn [currentsize set_size]. rewrite E. cbn [Z.sub Z.eqb negb]. cbn.
    exists s, k, (set_size 0 h), (<[s := 0]> ix). split; [reflexivity|]. split; [exact Hs|]. split; [exact Hmin|].
    exists (set_size 0 h), (<[s := 0]> ix). split; [reflexivity|]. split; [|split; [|split; [|cbn [percolates set_size]; lia]]].
    + replace 0 with (currentsize h - 1) at 1 by lia. split; [apply (truncate h ix m s k C Hs); lia|].
      intros i Hi. cbn in Hi. lia.
    + rewrite heapindex_insert, decide_True; reflexivity.
    + intros s' Hs'. rewrite heapindex_insert, decide_False; [reflexivity|congruence].
  - pose proof (hole_delete h ix m s k e C Hs ltac:(lia) Ee) as Ho. rewrite Hix in Ho.
    assert (Ho' : holes (set_size (currentsize h - 1) h) (<[s := 0]> ix) (delete s m) 1 e).
    { apply (holes_frame _ ix); [exact Ho|]. intros s' k' [Hne _]%lookup_delete_Some.
      rewrite heapindex_insert, decide_False by congruence. reflexivity. }
    destruct (percolatedown_ok 1 _ _ _ _ _ Ho') as (h' & ix' & -> & C' & F & O' & (K1 & K2 & K3)).
    + exact Hr.
    + split; [|intros; lia]. cbn [currentsize set_size]. intros i Hi _ Hih. pose proof (half_bounds i ltac:(lia)).
      unfold VR. rewrite !decide_False by lia. change (R (set_size (currentsize h - 1) h)) with (R h). apply O; lia.
    + rewrite bind_ok_l. exists s, k, h', ix'. split; [reflexivity|]. split; [exact Hs|]. split; [exact Hmin|].
      exists h', ix'. split; [reflexivity|]. split; [split; [exact C'|rewrite K1; exact O']|].
      split; [rewrite (F s) by apply lookup_delete_eq; rewrite heapindex_insert, decide_True; reflexivity|].
      split; [|cbn [percolates set_size] in K3; lia].
      intros s' Hs'. assert (s' <> s) by congruence. rewrite (F s') by (rewrite lookup_delete_ne by congruence; exact Hs').
      rewrite heapindex_insert, decide_False by assumption. reflexivity.
Qed.

Lemma updateheap_ok s k NewKey h ix m : rep h ix m -> m !! s = Some k -> valid_key NewKey -> room h 1 ->
  succeeds h ix (<[s := NewKey]> m) (updateheap s NewKey h ix).
Proof.
  intros [C O] Hs Hv Hr. destruct (c_map _ _ _ C s k Hs) as [Hix Hcell].
  pose proof (sh_len _ (c_shape _ _ _ C)). pose proof (sh_size _ (c_shape _ _ _ C)).
  unfold updateheap. rewrite (proj2 (Z.eqb_neq _ 0)), (cheap_read_some _ _ _ Hcell), bind_ok_l by lia. cbn [key heapstate].
  destruct (key_ne k NewKey) eqn:Ene.
  - rewrite aset_in, bind_ok_l by lia. set (h0 := set_heap _ h).
    apply (settled_succeeds h h0); [reflexivity..|].
    assert (HR : forall i, i <> heapindex ix s -> R h0 i = R h i).
    { intros i Hi. unfold h0. rewrite (R_set _ (heapindex ix s) (mkElem s NewKey)); [|apply (c_shape _ _ _ C)|lia|reflexivity].
      rewrite decide_False by exact Hi. reflexivity. }
    apply percolateupordown_ok.
    + apply (hole_update h ix m s k NewKey C Hs Hv).
    + exact Hr.
    + cbn [currentsize h0 set_heap]. intros i Hi. pose proof (half_bounds i ltac:(lia)).
      destruct (decide (i / 2 = heapindex ix s)); [auto|]. destruct (decide (i = heapindex ix s)); [auto|].
      left. rewrite !HR by assumption. apply O; lia.
    + cbn [currentsize h0 set_heap]. intros i Hi Hih Hh. pose proof (half_bounds i ltac:(lia)). pose proof (half_bounds _ Hh).
      rewrite !HR by lia. transitivity (R h (heapindex ix s)); [|rewrite <- Hih]; apply O; lia.
  - assert (k = NewKey) as <-.
    { apply key_ne_spec. exact Ene. }
    exists h, ix. rewrite insert_id by exact Hs. split; [reflexivity|]. split; [split; assumption|].
    split; [apply frame_refl|lia].
Qed.
(** ** Heaps out of order *)

Lemma reverse_seqZ n k : 0 <= k < n -> reverse (seqZ 1 n) !! Z.to_nat k = Some (n - k).
Proof.
  intros Hk. rewrite reverse_lookup by (rewrite length_seqZ; lia). rewrite length_seqZ. apply lookup_seqZ. lia.
Qed.

Lemma makeheap_ok h ix m : cells h ix m -> room h (currentsize h) ->
  exists h' ix', makeheap h ix = Ok (h', ix') /\ rep h' ix' m /\ frame m ix ix' /\ currentsize h' = currentsize h /\
    percolates h <= percolates h' <= percolates h + 24 * currentsize h.
Proof.
  intros C [Hp0 Hp]. unfold makeheap. set (n := currentsize h) in *. pose proof (sh_size _ (c_shape _ _ _ C)) as Hs. fold n in Hs.
  assert (Hn2 : 0 <= n / 2 <= n) by (split; [apply Z.div_pos|apply Z.div_le_upper_bound]; lia).
  match goal with |- context [foldM ?f _ _] => set (body := f) end.
  destruct (foldM_inv body (fun done '(h', ix') => cells h' ix' m /\ frame m ix ix' /\
      ford (n / 2 + 1 - Z.of_nat (length done)) n (R h') /\ currentsize h' = n /\
      percolates h <= percolates h' <= percolates h + 24 * Z.of_nat (length done))
    (reverse (seqZ 1 (n / 2))) (h, ix)) as ([h' ix'] & E & C' & F & O & En & Hpp).
  - split; [exact C|]. split; [apply frame_refl|]. split; [|split; [reflexivity|cbn [length]; lia]].
    intros i Hi Hb. cbn [length] in Hb. exfalso. assert (i / 2 <= n / 2) by (apply Z.div_le_mono; lia). lia.
  - intros done i todo [h1 ix1] Hl (C1 & F1 & O1 & En1 & Hp1).
    assert (Hlen : (length done < Z.to_nat (n / 2))%nat).
    { apply (f_equal length) in Hl. rewrite length_reverse, length_seqZ, length_app in Hl. cbn in Hl. lia. }
    assert (Hi : i = n / 2 - Z.of_nat (length done)).
    { pose proof (reverse_seqZ (n / 2) (Z.of_nat (length done)) ltac:(lia)) as Hk.
      rewrite Hl, Nat2Z.id, list_lookup_middle in Hk by reflexivity. congruence. }
    destruct (c_cell _ _ _ C1 i) as (e & Ee & Hei & _); [lia|]. unfold body. rewrite (cheap_read_some _ _ _ Ee), bind_ok_l.
    assert (HV : forall j, VR h1 i e j = R h1 j).
    { intros j. unfold VR. case_decide as Hj; [subst j; symmetry; apply rank_cell; exact Ee|reflexivity]. }
    assert (Ho : holes h1 ix1 m i e) by (apply hole_same; [exact C1|lia|exact Ee]).
    destruct (percolatedown_ok i m e h1 ix1 i Ho) as (h2 & ix2 & -> & C2 & F2 & O2 & (K1 & K2 & K3)).
    + split; [lia|]. nia.
    + rewrite En1. split.
      * intros j Hj Hb Hne. rewrite !HV. apply O1; lia.
      * intros j Hj Hjh Hi1 Hb. pose proof (half_bounds i Hi1). lia.
    + eexists. split; [reflexivity|]. split; [exact C2|]. split; [eapply frame_trans; eassumption|].
      rewrite length_app. cbn [length]. rewrite En1 in O2.
      split; [replace (n / 2 + 1 - Z.of_nat (length done + 1)) with i by lia; exact O2|]. lia.
  - exists h', ix'. split; [exact E|]. split; [split; [exact C'|]|rewrite length_reverse, length_seqZ in Hpp; split_and!; auto; lia]. rewrite En.
    rewrite length_reverse, length_seqZ in O. replace (n / 2 + 1 - Z.of_nat (Z.to_nat (n / 2))) with 1 in O by lia. exact O.
Qed.

Lemma insert_unsafe_ok s k h ix m : cells h ix m -> m !! s = None -> heapindex ix s = 0 -> valid_key k ->
  fullheap h = false -> exists h' ix', insert_unsafe s k h ix = Ok (h', ix') /\ cells h' ix' (<[s := k]> m) /\
    frame (<[s := k]> m) ix ix' /\ percolates h' = percolates h.
Proof.
  intros C Hs Hix Hk Hf. unfold insert_unsafe. pose proof (sizecheck_ok h ix m C) as Hsz. rewrite Hf in Hsz.
  destruct Hsz as (h1 & -> & C1 & Ha & E1 & E2 & ER). rewrite bind_ok_l, Hix. cbn [negb Z.eqb].
  destruct (fill _ _ _ _ _ (hole_insert h1 ix m s k C1 Hs Hk Ha)) as (h' & ix' & E & C' & F & _ & _ & _ & Hp).
  exists h', ix'. split; [exact E|]. split; [exact C'|]. split; [exact F|]. rewrite Hp. exact E2.
Qed.

Lemma deleteheap_unsafe_ok s k h ix m : cells h ix m -> m !! s = Some k ->
  exists h' ix', deleteheap_unsafe s h ix = Ok (h', ix') /\ cells h' ix' (delete s m) /\ heapindex ix' s = 0 /\
    (forall s', m !! s' = None -> heapindex ix' s' = heapindex ix s') /\ percolates h' = percolates h.
Proof.
  intros C Hs. unfold deleteheap_unsafe. destruct (cells_last h ix m s k C Hs) as (e & Ee & Hix).
  pose proof (sh_len _ (c_shape _ _ _ C)). pose proof (sh_size _ (c_shape _ _ _ C)).
  rewrite (proj2 (Z.eqb_neq _ 0)), (cheap_read_some _ _ _ Ee), bind_ok_l by lia.
  destruct (decide (heapindex ix s = currentsize h)) as [E|E].
  - destruct (c_map _ _ _ C s k Hs) as [_ Hcell]. rewrite E, Ee in Hcell. injection Hcell as ->. unfold place. cbn [heap set_size].
    rewrite aset_in, bind_ok_l by lia. pose proof Ee as Ee'. apply aget_Ok in Ee as [_ Ee]. rewrite E, list_insert_id by exact Ee.
    rewrite bind_ok_l. eexists _, _. split; [reflexivity|]. cbn [heapstate]. rewrite insert_insert_eq.
    split; [apply (truncate h ix m s k C Hs E)|]. split; [rewrite heapindex_insert, decide_True; reflexivity|]. split; [|reflexivity].
    intros s' Hs'. rewrite heapindex_insert, decide_False; [reflexivity|congruence].
  - destruct (fill _ _ _ _ _ (hole_delete h ix m s k e C Hs ltac:(lia) Ee)) as (h' & ix' & -> & C' & F & _ & _ & _ & Hp).
    rewrite bind_ok_l. exists h', (<[s := 0]> ix'). split; [reflexivity|].
    split; [apply cells_index0; [exact C'|apply lookup_delete_eq]|].
    split; [rewrite heapindex_insert, decide_True; reflexivity|]. split; [|exact Hp].
    intros s' Hs'. rewrite heapindex_insert, decide_False by congruence. apply F.
    rewrite lookup_delete_ne by congruence. exact Hs'.
Qed.

(** A hole that already holds its entry. *)
Lemma unhole h ix m hole tmp : holes h ix m hole tmp -> aget (heap h) hole = Ok (Some tmp) ->
  heapindex ix (heapstate tmp) = hole -> cells h ix m.
Proof.
  intros [S Hh Ht Hc Hm Hv] Ee Hix. split; auto.
  - intros i Hi. destruct (decide (i = hole)) as [->|Hne]; [eauto|]. destruct (Hc i Hi Hne) as (e & E1 & E2 & E3 & _). eauto.
  - intros s k Hs. destruct (decide (s = heapstate tmp)) as [->|Hne].
    + rewrite Ht in Hs. injection Hs as <-. rewrite Hix. split; [exact Hh|]. destruct tmp; exact Ee.
    + destruct (Hm s k Hs Hne) as (E1 & _ & E3). auto.
Qed.

Lemma updateheap_unsafe_ok s k NewKey h ix m : cells h ix m -> m !! s = Some k -> valid_key NewKey ->
  exists h', updateheap_unsafe s NewKey h ix = Ok h' /\ cells h' ix (<[s := NewKey]> m) /\ percolates h' = percolates h.
Proof.
  intros C Hs Hv. destruct (c_map _ _ _ C s k Hs) as [Hix Hcell].
  pose proof (sh_len _ (c_shape _ _ _ C)). pose proof (sh_size _ (c_shape _ _ _ C)).
  unfold updateheap_unsafe. rewrite (proj2 (Z.eqb_neq _ 0)), (cheap_read_some _ _ _ Hcell), bind_ok_l by lia. cbn [key heapstate].
  destruct (key_ne k NewKey) eqn:Ene.
  - rewrite aset_in, bind_ok_l by lia. eexists. split; [reflexivity|]. split; [|reflexivity].
    apply (unhole _ _ _ _ _ (hole_update h ix m s k NewKey C Hs Hv)); [|reflexivity].
    cbn. rewrite aget_insert, decide_True by (reflexivity || lia). reflexivity.
  - apply key_ne_spec in Ene as <-. exists h. rewrite insert_id by exact Hs. auto.
Qed.

Lemma clear_indices_ok h ix m : cells h ix m -> exists ix', clear_indices h ix = Ok ix' /\
  (forall s, m !! s <> None -> heapindex ix' s = 0) /\ frame m ix ix'.
Proof.
  intros C. unfold clear_indices. match goal with |- context [foldM ?f _ _] => set (body := f) end.
  destruct (foldM_inv body (fun done ix' => (forall s k, m !! s = Some k -> heapindex ix s ∈ done -> heapindex ix' s = 0) /\
      frame m ix ix') (seqZ 1 (currentsize h)) ix) as (ix' & E & H1 & H2).
  - split; [|apply frame_refl]. intros s k _ Hin. inversion Hin.
  - intros done i todo ix1 Hl [H1 H2].
    assert (Hi : 1 <= i <= currentsize h).
    { assert (i ∈ seqZ 1 (currentsize h)) as Hin by (rewrite Hl; apply elem_of_app; right; left). apply elem_of_seqZ in Hin. lia. }
    destruct (c_cell _ _ _ C i Hi) as (e & Ee & Hei & Hme). unfold body. rewrite (cheap_read_some _ _ _ Ee), bind_ok_l.
    eexists. split; [reflexivity|]. split.
    + intros s k Hs Hin. rewrite heapindex_insert. case_decide as Hd; [reflexivity|].
      apply elem_of_app in Hin as [Hin|Hin%list_elem_of_singleton]; [eauto|]. rewrite <- Hin in Ee.
      destruct (c_map _ _ _ C s k Hs) as [_ Hcell]. rewrite Ee in Hcell. injection Hcell as ->. cbn in Hd. contradiction.
    + intros s Hs. rewrite heapindex_insert, decide_False; [auto|]. intros ->. congruence.
  - exists ix'. split; [exact E|]. split; [|exact H2]. intros s Hs. destruct (m !! s) as [k|] eqn:Es; [|contradiction].
    apply (H1 s k Es). apply elem_of_seqZ. destruct (c_map _ _ _ C s k Es). lia.
Qed.

Lemma makeemptyheap_ok h ix m : rep h ix m -> (forall s, m !! s = None -> heapindex ix s = 0) ->
  exists ix', makeemptyheap h ix = Ok (set_size 0 h, ix') /\ rep (set_size 0 h) ix' ∅ /\ forall s, heapindex ix' s = 0.
Proof.
  intros [C O] H0. unfold makeemptyheap. destruct (clear_indices_ok h ix m C) as (ix' & -> & Hz & F). rewrite bind_ok_l.
  exists ix'. split; [reflexivity|]. split; [split|].
  - destruct (c_shape _ _ _ C) as [S1 S2 S3]. split; cbn; [split; cbn; lia|lia|..]; intros s k Hs; rewrite lookup_empty in Hs; discriminate.
  - intros i Hi. cbn in Hi. lia.
  - intros s. destruct (m !! s) as [k|] eqn:Es; [apply Hz; congruence|]. rewrite (F s Es). apply H0. exact Es.
Qed.

(** The number of entries. *)
Lemma cells_size h ix m : cells h ix m -> Z.of_nat (size m) = currentsize h.
Proof.
  intros C. pose proof (sh_size _ (c_shape _ _ _ C)) as Hs.
  transitivity (Z.of_nat (length (elements (dom m)))); [rewrite <- size_dom; reflexivity|].
  assert (Hp : heapindex ix <$> elements (dom m) ≡ₚ seqZ 1 (currentsize h)).
  { apply NoDup_Permutation; [| apply NoDup_seqZ|].
    - apply NoDup_fmap_2_strong; [|apply NoDup_elements]. intros s1 s2 H1 H2 Heq.
      apply elem_of_elements, elem_of_dom in H1 as [k1 H1]. apply elem_of_elements, elem_of_dom in H2 as [k2 H2].
      destruct (c_map _ _ _ C s1 k1 H1) as [_ E1]. destruct (c_map _ _ _ C s2 k2 H2) as [_ E2]. rewrite Heq, E2 in E1. congruence.
    - intros i. rewrite list_elem_of_fmap, elem_of_seqZ. split.
      + intros (s & -> & [k Hk]%elem_of_elements%elem_of_dom). destruct (c_map _ _ _ C s k Hk). lia.
      + intros Hi. destruct (c_cell _ _ _ C i) as (e & _ & E2 & E3); [lia|]. exists (heapstate e). split; [symmetry; exact E2|].
        apply elem_of_elements, elem_of_dom. eauto. }
  apply Permutation_length in Hp. rewrite length_seqZ, length_fmap in Hp. lia.
Qed.
End spec.
End SbplHeapSpec.
