(* ===== verification/SbplHeapProps.v ===== *)
(** * The heaps of libsbpl refine an abstract priority map

    The operations as a language, their abstract meaning on a finite map from
    states to keys, and the simulation. *)

From S2P Require Import Prelude.
From S2P Require Import Keys.
From S2P Require Import SbplHeap.
From S2P Require Import SbplIntHeap.
From S2P Require Import SbplHeapSpec.

Module SbplHeapProps.
Import Keys SbplHeap SbplHeapSpec.

Section refinement.
Context {K : Type} {kops : KeyOps K} {klaws : KeyLaws K}.

Inductive op : Type :=
  | Insert (s : Z) (k : K)
  | Delete (s : Z)
  | Update (s : Z) (k : K)
  | DeleteMin
  | GetMin
  | GetMinKey
  | GetKey (s : Z)
  | InHeap (s : Z)
  | IsEmpty
  | MakeEmpty.

Inductive answer : Type :=
  | Done
  | State (s : Z)
  | StateKey (s : Z) (k : K)
  | Key (k : K)
  | Bool (b : bool).

Definition machine : Type := CHeap K * store.

(** The operation of the class. *)
Definition run_op (o : op) (c : machine) : res (machine * answer) :=
  let '(h, ix) := c in
  match o with
  | Insert s k => c ← insertheap s k h ix; Ok (c, Done)
  | Delete s => c ← deleteheap s h ix; Ok (c, Done)
  | Update s k => c ← updateheap s k h ix; Ok (c, Done)
  | DeleteMin => '(s, h, ix) ← deleteminheap h ix; Ok ((h, ix), State s)
  | GetMin => '(s, k) ← getminheap_key h; Ok (c, StateKey s k)
  | GetMinKey => k ← getminkeyheap h; Ok (c, Key k)
  | GetKey s => k ← getkeyheap s h ix; Ok (c, Key k)
  | InHeap s => Ok (c, Bool (inheap ix s))
  | IsEmpty => Ok (c, Bool (emptyheap h))
  | MakeEmpty => c ← makeemptyheap h ix; Ok (c, Done)
  end.

Abbreviation spec := (gmap Z K).

(** An entry that no other precedes. *)
Definition least (m : spec) (s : Z) (k : K) : Prop :=
  m !! s = Some k /\ forall s' k', m !! s' = Some k' -> rank k <= rank k'.

(** What the operations mean; [None] is an exception. *)
Inductive spec_step (m : spec) : op -> option (spec * answer) -> Prop :=
  | do_insert s k : m !! s = None -> Z.of_nat (size m) < HEAPSIZE - 1 -> spec_step m (Insert s k) (Some (<[s := k]> m, Done))
  | no_insert s k : is_Some (m !! s) \/ Z.of_nat (size m) = HEAPSIZE - 1 -> spec_step m (Insert s k) None
  | do_delete s : is_Some (m !! s) -> spec_step m (Delete s) (Some (delete s m, Done))
  | no_delete s : m !! s = None -> spec_step m (Delete s) None
  | do_update s k : is_Some (m !! s) -> spec_step m (Update s k) (Some (<[s := k]> m, Done))
  | no_update s k : m !! s = None -> spec_step m (Update s k) None
  | do_deletemin s k : least m s k -> spec_step m DeleteMin (Some (delete s m, State s))
  | no_deletemin : m = ∅ -> spec_step m DeleteMin None
  | do_getmin s k : least m s k -> spec_step m GetMin (Some (m, StateKey s k))
  | no_getmin : m = ∅ -> spec_step m GetMin None
  | do_getminkey s k : least m s k -> spec_step m GetMinKey (Some (m, Key k))
  | infinite_getminkey : m = ∅ -> spec_step m GetMinKey (Some (m, Key infinite_key))
  | do_getkey s k : m !! s = Some k -> spec_step m (GetKey s) (Some (m, Key k))
  | no_getkey s : m !! s = None -> spec_step m (GetKey s) None
  | do_inheap s : spec_step m (InHeap s) (Some (m, Bool (bool_decide (is_Some (m !! s)))))
  | do_isempty : spec_step m IsEmpty (Some (m, Bool (bool_decide (m = ∅))))
  | do_makeempty : spec_step m MakeEmpty (Some (∅, Done)).

Definition valid_op (o : op) : Prop :=
  match o with Insert _ k | Update _ k => valid_key k | _ => True end.

(** The states of the machine that stand for [m]: no other heap holds a state. *)
Definition sim (c : machine) (m : spec) : Prop :=
  rep c.1 c.2 m /\ forall s, m !! s = None -> heapindex c.2 s = 0.

Lemma new_heap_ok ix : rep new_heap ix ∅.
Proof.
  split.
  - split; cbn.
    + split; cbn; [unfold new_cells; rewrite length_replicate; reflexivity|vm_compute; split; congruence|vm_compute; split; congruence].
    + lia.
    + intros s k Hs. rewrite lookup_empty in Hs. discriminate.
    + intros s k Hs. rewrite lookup_empty in Hs. discriminate.
  - intros i Hi. cbn in Hi. lia.
Qed.

Lemma sim_new : sim (new_heap, ∅) ∅.
Proof. split; [apply new_heap_ok|reflexivity]. Qed.

Lemma sim_index c m s : sim c m -> (heapindex c.2 s = 0 <-> m !! s = None).
Proof.
  intros [[C _] H0]. split; [|auto]. destruct (m !! s) as [k|] eqn:E; [|reflexivity].
  intros Hz. destruct (c_map _ _ _ C s k E). lia.
Qed.

Lemma sim_empty c m : sim c m -> (currentsize c.1 = 0 <-> m = ∅).
Proof.
  intros [[C _] _]. pose proof (cells_size _ _ _ C) as Hs. split.
  - intros E. apply map_size_empty_iff. lia.
  - intros ->. rewrite map_size_empty in Hs. lia.
Qed.

Lemma sim_least c m : sim c m -> m <> ∅ -> exists s k, aget (heap c.1) 1 = Ok (Some (mkElem s k)) /\ least m s k.
Proof.
  intros S Hne. pose proof S as [Rp _]. pose proof (sim_empty c m S) as He.
  pose proof (sh_size _ (c_shape _ _ _ (proj1 Rp))).
  destruct (root_ok _ _ _ Rp) as (s & k & E & Hs & _ & Hmin); [|exists s, k; repeat split; auto].
  destruct (decide (currentsize c.1 = 0)) as [E|]; [|lia]. apply He in E. contradiction.
Qed.

(** What a step has to achieve. *)
Definition simulated (c : machine) (m : spec) (o : op) (r : res (machine * answer)) : Prop :=
  (exists c' a m', r = Ok (c', a) /\ spec_step m o (Some (m', a)) /\ sim c' m' /\
     percolates c.1 <= percolates c'.1 <= percolates c.1 + 24) \/
  (r = Err Thrown /\ spec_step m o None).

Lemma simulated_same c m o a : sim c m -> spec_step m o (Some (m, a)) -> simulated c m o (Ok (c, a)).
Proof. intros S Hs. left. exists c, a, m. split; [reflexivity|]. split; [exact Hs|]. split; [exact S|lia]. Qed.

Lemma succeeds_simulated c m m' o r : (forall s, m' !! s = None -> m !! s = None) -> sim c m -> spec_step m o (Some (m', Done)) ->
  succeeds c.1 c.2 m' r -> simulated c m o (c ← r; Ok (c, Done)).
Proof.
  intros Hm [_ H0] Hs (h' & ix' & -> & Rp & F & Hp1 & Hp2). left. exists (h', ix'), Done, m'. split; [reflexivity|].
  split; [exact Hs|]. split; [|cbn; lia]. split; [exact Rp|]. intros s Hn. cbn. rewrite (F s Hn). auto.
Qed.

Lemma removes_sim c m s h' ix' : sim c m -> removes s c.1 c.2 m (Ok (h', ix')) ->
  sim (h', ix') (delete s m) /\ percolates c.1 <= percolates h' <= percolates c.1 + 24.
Proof.
  intros [_ H0] (h2 & ix2 & [= <- <-] & Rp & Hz & F & Hp1 & Hp2). split; [split; [exact Rp|]|lia].
  intros s' Hs'. cbn. destruct (decide (s' = s)) as [->|Hne]; [exact Hz|].
  rewrite lookup_delete_ne in Hs' by congruence. rewrite F by exact Hs'. auto.
Qed.

Lemma insert_none (m : spec) s k s' : <[s := k]> m !! s' = None -> m !! s' = None.
Proof. rewrite lookup_insert_None. tauto. Qed.

Lemma simulation o c m : sim c m -> valid_op o -> room c.1 1 -> simulated c m o (run_op o c).
Proof.
  intros S Hv Hr. pose proof S as [Rp H0]. destruct c as [h ix]. cbn [fst snd] in *.
  pose proof (cells_size _ _ _ (proj1 Rp)) as Hsize. pose proof (sh_size _ (c_shape _ _ _ (proj1 Rp))) as Hsz.
  pose proof (sh_alloc _ (c_shape _ _ _ (proj1 Rp))) as Hal.
  pose proof (fun s => sim_index (h, ix) m s S) as Hix. cbn [fst snd] in Hix.
  destruct o as [s k|s|s k| | | |s|s| |]; cbn [run_op valid_op] in *.
  - (* Insert *)
    destruct (fullheap h) eqn:Ef.
    { right. pose proof (sizecheck_ok h ix m (proj1 Rp)) as Hsc. rewrite Ef in Hsc. unfold insertheap. rewrite Hsc.
      split; [reflexivity|]. apply no_insert. right. unfold fullheap in Ef. apply Z.eqb_eq in Ef. lia. }
    destruct (m !! s) as [k0|] eqn:Es.
    { right. pose proof (sizecheck_ok h ix m (proj1 Rp)) as Hsc. rewrite Ef in Hsc. destruct Hsc as (h1 & E1 & _).
      unfold insertheap. rewrite E1, bind_ok_l, (proj2 (Z.eqb_neq _ 0)); [|rewrite Hix, Es; discriminate].
      split; [reflexivity|]. apply no_insert. left. eauto. }
    apply (succeeds_simulated (h, ix) m (<[s := k]> m)); [apply insert_none|exact S| |].
    + apply do_insert; [exact Es|]. unfold fullheap in Ef. apply Z.eqb_neq in Ef. lia.
    + apply insertheap_ok; auto.
  - (* Delete *)
    destruct (m !! s) as [k0|] eqn:Es.
    + left. destruct (deleteheap_ok s k0 h ix m Rp Es Hr) as (h' & ix' & E & Hrem). rewrite E.
      destruct (removes_sim (h, ix) m s h' ix' S) as [S' Hp]; [exists h', ix'; auto|].
      exists (h', ix'), Done, (delete s m). split; [reflexivity|]. split; [apply do_delete; eauto|]. auto.
    + right. unfold deleteheap. rewrite (proj2 (Z.eqb_eq _ 0)) by (apply Hix; exact Es). split; [reflexivity|].
      apply no_delete. exact Es.
  - (* Update *)
    destruct (m !! s) as [k0|] eqn:Es.
    + apply (succeeds_simulated (h, ix) m (<[s := k]> m)); [apply insert_none|exact S|apply do_update; eauto|].
      apply (updateheap_ok s k0); auto.
    + right. unfold updateheap. rewrite (proj2 (Z.eqb_eq _ 0)) by (apply Hix; exact Es). split; [reflexivity|].
      apply no_update. exact Es.
  - (* DeleteMin *)
    destruct (decide (currentsize h = 0)) as [E|E].
    + right. unfold deleteminheap. rewrite (proj2 (Z.eqb_eq _ 0) E). split; [reflexivity|].
      apply no_deletemin. apply (sim_empty (h, ix) m S). exact E.
    + left. destruct (deleteminheap_ok h ix m Rp) as (s & k & h' & ix' & Ed & Hs & Hmin & Hrem); [lia|exact Hr|].
      rewrite Ed, bind_ok_l. destruct (removes_sim (h, ix) m s h' ix' S Hrem) as [S' Hp].
      exists (h', ix'), (State s), (delete s m). split; [reflexivity|]. split; [eapply do_deletemin; split; eauto|]. auto.
  - (* GetMin *)
    unfold getminheap_key. destruct (decide (m = ∅)) as [Em|Em].
    + right. rewrite (proj2 (Z.eqb_eq _ 0)) by (apply (sim_empty (h, ix) m S); exact Em). split; [reflexivity|].
      apply no_getmin. exact Em.
    + destruct (sim_least _ m S Em) as (s & k & E & Hl). cbn [fst] in E.
      rewrite (proj2 (Z.eqb_neq _ 0)), (cheap_read_some _ _ _ E), !bind_ok_l by (rewrite (sim_empty (h, ix) m S); exact Em).
      apply simulated_same; [exact S|]. apply do_getmin. exact Hl.
  - (* GetMinKey *)
    unfold getminkeyheap. destruct (decide (m = ∅)) as [Em|Em].
    + rewrite (proj2 (Z.eqb_eq _ 0)) by (apply (sim_empty (h, ix) m S); exact Em).
      apply simulated_same; [exact S|]. apply infinite_getminkey. exact Em.
    + destruct (sim_least _ m S Em) as (s & k & E & Hl). cbn [fst] in E.
      rewrite (proj2 (Z.eqb_neq _ 0)), (cheap_read_some _ _ _ E), !bind_ok_l by (rewrite (sim_empty (h, ix) m S); exact Em).
      apply simulated_same; [exact S|]. apply (do_getminkey _ s). exact Hl.
  - (* GetKey *)
    unfold getkeyheap. destruct (m !! s) as [k|] eqn:Es.
    + destruct (c_map _ _ _ (proj1 Rp) s k Es) as [Hr' E].
      rewrite (proj2 (Z.eqb_neq _ 0)), (cheap_read_some _ _ _ E), !bind_ok_l by lia.
      apply simulated_same; [exact S|]. apply do_getkey. exact Es.
    + right. rewrite (proj2 (Z.eqb_eq _ 0)) by (apply Hix; exact Es). split; [reflexivity|]. apply no_getkey. exact Es.
  - (* InHeap *)
    unfold inheap. replace (negb (heapindex ix s =? 0)) with (bool_decide (is_Some (m !! s))).
    + apply simulated_same; [exact S|]. apply do_inheap.
    + destruct (m !! s) as [k|] eqn:Es.
      * rewrite bool_decide_eq_true_2 by eauto. symmetry. apply negb_true_iff, Z.eqb_neq. rewrite Hix, Es. discriminate.
      * rewrite bool_decide_eq_false_2 by (intros [? ?]; discriminate). symmetry. apply negb_false_iff, Z.eqb_eq. apply Hix. exact Es.
  - (* IsEmpty *)
    unfold emptyheap. replace (currentsize h =? 0) with (bool_decide (m = ∅)).
    + apply simulated_same; [exact S|]. apply do_isempty.
    + apply eq_true_iff_eq. rewrite bool_decide_eq_true, Z.eqb_eq. symmetry. apply (sim_empty (h, ix) m S).
  - (* MakeEmpty *)
    left. destruct (makeemptyheap_ok h ix m Rp) as (ix' & -> & R' & Hz); [intros s Hs; apply H0; exact Hs|]. rewrite bind_ok_l.
    exists (set_size 0 h, ix'), Done, ∅. split; [reflexivity|]. split; [apply do_makeempty|]. split; [|cbn; lia].
    split; [exact R'|]. intros s _. apply Hz.
Qed.
(** ** Sequences of operations *)

Fixpoint run_ops (ops : list op) (c : machine) : res (list answer * machine) :=
  match ops with
  | [] => Ok ([], c)
  | o :: ops =>
      '(c, a) ← run_op o c;
      '(l, c) ← run_ops ops c;
      Ok (a :: l, c)
  end.

Inductive spec_run : spec -> list op -> list answer -> spec -> Prop :=
  | spec_nil m : spec_run m [] [] m
  | spec_cons m o m' a ops l m'' : spec_step m o (Some (m', a)) -> spec_run m' ops l m'' ->
      spec_run m (o :: ops) (a :: l) m''.

Lemma run_ops_refine ops : forall c m, sim c m -> Forall valid_op ops -> room c.1 (Z.of_nat (length ops)) ->
  (exists l c' m', run_ops ops c = Ok (l, c') /\ spec_run m ops l m' /\ sim c' m') \/
  (run_ops ops c = Err Thrown /\ exists ops1 o ops2 l m', ops = ops1 ++ o :: ops2 /\ spec_run m ops1 l m' /\ spec_step m' o None).
Proof.
  induction ops as [|o ops IH]; intros c m S Hv Hr.
  - left. exists [], c, m. split; [reflexivity|]. split; [constructor|exact S].
  - inversion Hv as [|o' ops' Hvo Hvs]; subst. destruct Hr as [Hr0 Hr]. cbn [length] in Hr. cbn [run_ops].
    destruct (simulation o c m S Hvo) as [(c' & a & m' & -> & Hs & S' & Hp)|[-> Hs]]; [split; lia| |].
    + rewrite bind_ok_l. destruct (IH c' m' S' Hvs) as [(l & c2 & m2 & -> & Hl & S2)|(-> & ops1 & o' & ops2 & l & m2 & -> & Hl & Hn)].
      * split; lia.
      * left. exists (a :: l), c2, m2. split; [reflexivity|]. split; [econstructor; eassumption|exact S2].
      * right. split; [reflexivity|]. exists (o :: ops1), o', ops2, (a :: l), m2. split; [reflexivity|].
        split; [econstructor; eassumption|exact Hn].
    + right. split; [reflexivity|]. exists [], o, ops, [], m. split; [reflexivity|]. split; [constructor|exact Hs].
Qed.

(** C9: the heap is a priority map.  Any sequence of operations on a new heap
    gives the answers of the abstract map from states to keys, in particular
    the minimum is the entry of least key, and throws exactly at the first
    operation the map does not allow: a state inserted twice or into a full
    heap, or one that is absent, or the minimum of nothing.  No access is out of
    bounds or to an unwritten cell while the map operations stay fewer than
    INT_MAX / 24, the limit of the percolation counter. *)
Theorem heap_refines_map (ops : list op) :
  Forall valid_op ops -> 24 * Z.of_nat (length ops) <= INT_MAX ->
  (exists l c m, run_ops ops (new_heap, ∅) = Ok (l, c) /\ spec_run ∅ ops l m /\ sim c m) \/
  (run_ops ops (new_heap, ∅) = Err Thrown /\
   exists ops1 o ops2 l m, ops = ops1 ++ o :: ops2 /\ spec_run ∅ ops1 l m /\ spec_step m o None).
Proof.
  intros Hv Hn. apply run_ops_refine; [apply sim_new|exact Hv|]. split; cbn [percolates new_heap fst]; lia.
Qed.

(** The unsafe operations keep the contents and may break the order;
    [makeheap] repairs it: the contents and the locations of the states are
    again those of the map, and the root is an entry of least key. *)
Theorem makeheap_repairs h ix m s k : cells h ix m -> valid_key k -> heapindex ix s = 0 -> fullheap h = false ->
  room h (currentsize h + 1) ->
  exists h1 ix1 h2 ix2, insert_unsafe s k h ix = Ok (h1, ix1) /\ cells h1 ix1 (<[s := k]> m) /\
    makeheap h1 ix1 = Ok (h2, ix2) /\ rep h2 ix2 (<[s := k]> m) /\
    (exists s' k', getminheap h2 = Ok s' /\ least (<[s := k]> m) s' k') /\
    (forall s' k' k2, (<[s := k]> m) !! s' = Some k' -> valid_key k2 ->
       (exists h3, updateheap_unsafe s' k2 h1 ix1 = Ok h3 /\ cells h3 ix1 (<[s' := k2]> (<[s := k]> m))) /\
       (exists h3 ix3, deleteheap_unsafe s' h1 ix1 = Ok (h3, ix3) /\ cells h3 ix3 (delete s' (<[s := k]> m)))).
Proof.
  intros C Hk Hix Hf Hr. assert (Hs : m !! s = None).
  { destruct (m !! s) as [k0|] eqn:E; [|reflexivity]. destruct (c_map _ _ _ C s k0 E). lia. }
  destruct (insert_unsafe_ok s k h ix m C Hs Hix Hk Hf) as (h1 & ix1 & E1 & C1 & _ & Hp).
  pose proof (cells_size _ _ _ C) as Hsz. pose proof (cells_size _ _ _ C1) as Hsz1.
  rewrite map_size_insert_None in Hsz1 by exact Hs.
  destruct (makeheap_ok h1 ix1 (<[s := k]> m) C1) as (h2 & ix2 & E2 & Rp & _ & En & _).
  { destruct Hr as [Hr0 Hr]. split; [lia|]. rewrite Hp. lia. }
  exists h1, ix1, h2, ix2. split; [exact E1|]. split; [exact C1|]. split; [exact E2|]. split; [exact Rp|]. split.
  - destruct (root_ok h2 ix2 _ Rp) as (s' & k' & E & Hs' & _ & Hmin); [lia|]. exists s', k'.
    unfold getminheap. rewrite (proj2 (Z.eqb_neq _ 0)), (cheap_read_some _ _ _ E) by lia. split; [reflexivity|]. split; assumption.
  - intros s' k' k2 Hs' Hk2. split.
    + destruct (updateheap_unsafe_ok s' k' k2 h1 ix1 _ C1 Hs' Hk2) as (h3 & E & C3 & _). eauto.
    + destruct (deleteheap_unsafe_ok s' k' h1 ix1 _ C1 Hs') as (h3 & ix3 & E & C3 & _). eauto.
Qed.
End refinement.
Arguments op : clear implicits.
Arguments answer : clear implicits.
Arguments machine : clear implicits.

(** ** Concrete heaps *)

(** Insert, lower a key, and take the minimum of a heap of pairs of longs. *)
Definition sample_ops : list (op CKey) :=
  [Insert 7 (mkKey 3 1); Insert 8 (mkKey 2 5); Insert 9 (mkKey 2 4); Update 7 (mkKey 1 9); DeleteMin; Delete 9; GetMin].

Definition answers_of {K} (r : res (list (answer K) * machine K)) : list (answer K) :=
  match r with Ok (l, _) => l | Err _ => [] end.

Lemma heap_refines_map_witness : exists l c m, run_ops sample_ops (new_heap, ∅) = Ok (l, c) /\
  spec_run ∅ sample_ops l m /\ l = [Done; Done; Done; Done; State 7; Done; StateKey 8 (mkKey 2 5)].
Proof.
  destruct (heap_refines_map sample_ops) as [(l & c & m & E & H & _)|[E _]].
  - repeat constructor; vm_compute; discriminate.
  - vm_compute. discriminate.
  - exists l, c, m. split; [exact E|]. split; [exact H|].
    assert (Hf : answers_of (run_ops sample_ops (new_heap, ∅)) =
      [Done; Done; Done; Done; State 7; Done; StateKey 8 (mkKey 2 5)]) by (vm_compute; reflexivity).
    rewrite E in Hf. exact Hf.
  - exfalso. assert (Hf : is_ok (run_ops sample_ops (new_heap, ∅)) = true) by (vm_compute; reflexivity).
    rewrite E in Hf. discriminate.
Defined.

Lemma makeheap_repairs_witness : exists h1 ix1 h2 ix2,
  insert_unsafe 4 (-2) SbplIntHeap.new_heap ∅ = Ok (h1, ix1) /\ makeheap h1 ix1 = Ok (h2, ix2) /\ getminheap h2 = Ok 4.
Proof.
  destruct (makeheap_repairs SbplIntHeap.new_heap ∅ ∅ 4 (-2)) as (h1 & ix1 & h2 & ix2 & E1 & _ & E2 & _ & (s & k & E3 & [Hs _]) & _).
  - exact (proj1 (proj1 (sim_new (K := Z)))).
  - exact I.
  - reflexivity.
  - reflexivity.
  - vm_compute. split; discriminate.
  - exists h1, ix1, h2, ix2. split; [exact E1|]. split; [exact E2|]. rewrite E3. f_equal.
    apply lookup_insert_Some in Hs as [[<- _]|[_ Hs]]; [reflexivity|]. rewrite lookup_empty in Hs. discriminate.
Defined.

(** A heap built with no room: [CIntHeap (0)] never grows, because
    [sizecheck] compares the size with the allocation less one, and the first
    insertion writes outside the array. *)
Theorem no_room_heap : exists h, SbplIntHeap.new_heap_sized 0 = Ok h /\
  SbplIntHeap.sizecheck h = Ok h /\ SbplIntHeap.insertheap 1 5 h ∅ = Err OutOfBounds.
Proof. eexists. split; [reflexivity|]. split; reflexivity. Qed.
End SbplHeapProps.
