(* ===== verification/AraPlanner.v ===== *)
(** * The anytime planner ARA* (src/libsbpl: araplanner.h, araplanner.cpp)

    [ARAPlanner] over an environment, with its states in the array of utils/mdp,
    OPEN in a [CHeap] and INCONS in a [CList].  A pointer to a state of the
    search is its index in [StateArray], NULL is [None]; the fields [heapindex]
    and [listelem] of the states are kept by the heap and the list.  [clock ()]
    answers what the parameter [clock] says at each reading that decides
    something; readings that are only reported, printing, the debug file and the
    memory counter are left out. *)

From S2P Require Import Prelude.
From S2P Require Import Doubles.
From S2P Require Import Environment.
From S2P Require Import Keys.
From S2P Require Import SbplHeap.
From S2P Require Import SbplList.
From S2P Require Import WAStarPlanner.

Module AraPlanner.
#[local] Existing Instance Keys.CKey_ops.

Definition INFINITECOST : Z := 1000000000.
Definition ARA_DEFAULT_INITIAL_EPS : Doubles.double := Doubles.literal 50 10.
Definition ARA_DECREASE_EPS : Doubles.double := Doubles.literal 2 10.
Definition ARA_FINAL_EPS : Doubles.double := Doubles.literal 10 10.
Definition ARA_INCONS_LIST_ID : Z := 0.
Definition ERR_EPS : Doubles.double := Doubles.literal 1 10000000.
Definition MAXSTATESPACESIZE : Z := 20000000.
Definition CLOCKS_PER_SEC : Z := 1000000.

(** A value of type short unsigned int. *)
Definition to_ushort (z : Z) : Z := z mod 2 ^ 16.

(** [ARAState], with the id of its [MDPstate]. *)
Record ARAState := mkARAState {
  StateID : Z;
  v : Z;
  g : Z;
  iterationclosed : Z;
  callnumberaccessed : Z;
  bestpredstate : option Z;
  bestnextstate : option Z;
  costtobestnextstate : Z;
  h : Z;
}.

Definition set_v (x : Z) (s : ARAState) : ARAState :=
  mkARAState (StateID s) x (g s) (iterationclosed s) (callnumberaccessed s) (bestpredstate s) (bestnextstate s)
    (costtobestnextstate s) (h s).
Definition set_closed (x : Z) (s : ARAState) : ARAState :=
  mkARAState (StateID s) (v s) (g s) x (callnumberaccessed s) (bestpredstate s) (bestnextstate s)
    (costtobestnextstate s) (h s).
Definition set_h (x : Z) (s : ARAState) : ARAState :=
  mkARAState (StateID s) (v s) (g s) (iterationclosed s) (callnumberaccessed s) (bestpredstate s) (bestnextstate s)
    (costtobestnextstate s) x.
Definition set_g (x : Z) (s : ARAState) : ARAState :=
  mkARAState (StateID s) (v s) x (iterationclosed s) (callnumberaccessed s) (bestpredstate s) (bestnextstate s)
    (costtobestnextstate s) (h s).
Definition set_pred (i : Z) (s : ARAState) : ARAState :=
  mkARAState (StateID s) (v s) (g s) (iterationclosed s) (callnumberaccessed s) (Some i) (bestnextstate s)
    (costtobestnextstate s) (h s).
Definition set_next (i : Z) (s : ARAState) : ARAState :=
  mkARAState (StateID s) (v s) (g s) (iterationclosed s) (callnumberaccessed s) (bestpredstate s) (Some i)
    (costtobestnextstate s) (h s).
Definition set_nextcost (c : Z) (s : ARAState) : ARAState :=
  mkARAState (StateID s) (v s) (g s) (iterationclosed s) (callnumberaccessed s) (bestpredstate s) (bestnextstate s)
    c (h s).

(** [ARASearchStateSpace_t]; [heapindices] and [listmemory] hold the fields of the
    states the heap and the list write. *)
Record ARASearchStateSpace := mkSpace {
  eps : Doubles.double;
  eps_satisfied : Doubles.double;
  heap : SbplHeap.CHeap Keys.CKey;
  heapindices : SbplHeap.store;
  inconslist : SbplList.CList;
  listmemory : SbplList.memory;
  searchiteration : Z;
  callnumber : Z;
  searchgoalstate : option Z;
  searchstartstate : option Z;
  StateArray : list ARAState;
  bReevaluatefvals : bool;
  bReinitializeSearchStateSpace : bool;
  bNewSearchIteration : bool;
}.

Definition set_eps (x : Doubles.double) (s : ARASearchStateSpace) : ARASearchStateSpace :=
  mkSpace x (eps_satisfied s) (heap s) (heapindices s) (inconslist s) (listmemory s) (searchiteration s) (callnumber s)
    (searchgoalstate s) (searchstartstate s) (StateArray s) (bReevaluatefvals s) (bReinitializeSearchStateSpace s) (bNewSearchIteration s).
Definition set_satisfied (x : Doubles.double) (s : ARASearchStateSpace) : ARASearchStateSpace :=
  mkSpace (eps s) x (heap s) (heapindices s) (inconslist s) (listmemory s) (searchiteration s) (callnumber s)
    (searchgoalstate s) (searchstartstate s) (StateArray s) (bReevaluatefvals s) (bReinitializeSearchStateSpace s) (bNewSearchIteration s).
Definition set_open (hx : SbplHeap.CHeap Keys.CKey * SbplHeap.store) (s : ARASearchStateSpace) : ARASearchStateSpace :=
  mkSpace (eps s) (eps_satisfied s) (fst hx) (snd hx) (inconslist s) (listmemory s) (searchiteration s) (callnumber s)
    (searchgoalstate s) (searchstartstate s) (StateArray s) (bReevaluatefvals s) (bReinitializeSearchStateSpace s) (bNewSearchIteration s).
Definition set_incons (lm : SbplList.CList * SbplList.memory) (s : ARASearchStateSpace) : ARASearchStateSpace :=
  mkSpace (eps s) (eps_satisfied s) (heap s) (heapindices s) (fst lm) (snd lm) (searchiteration s) (callnumber s)
    (searchgoalstate s) (searchstartstate s) (StateArray s) (bReevaluatefvals s) (bReinitializeSearchStateSpace s) (bNewSearchIteration s).
Definition set_counters (iteration call : Z) (s : ARASearchStateSpace) : ARASearchStateSpace :=
  mkSpace (eps s) (eps_satisfied s) (heap s) (heapindices s) (inconslist s) (listmemory s) iteration call
    (searchgoalstate s) (searchstartstate s) (StateArray s) (bReevaluatefvals s) (bReinitializeSearchStateSpace s) (bNewSearchIteration s).
Definition set_ends (goal start : option Z) (s : ARASearchStateSpace) : ARASearchStateSpace :=
  mkSpace (eps s) (eps_satisfied s) (heap s) (heapindices s) (inconslist s) (listmemory s) (searchiteration s) (callnumber s)
    goal start (StateArray s) (bReevaluatefvals s) (bReinitializeSearchStateSpace s) (bNewSearchIteration s).
Definition set_array (l : list ARAState) (s : ARASearchStateSpace) : ARASearchStateSpace :=
  mkSpace (eps s) (eps_satisfied s) (heap s) (heapindices s) (inconslist s) (listmemory s) (searchiteration s) (callnumber s)
    (searchgoalstate s) (searchstartstate s) l (bReevaluatefvals s) (bReinitializeSearchStateSpace s) (bNewSearchIteration s).
Definition set_flags (reevaluate reinitialize newiteration : bool) (s : ARASearchStateSpace) : ARASearchStateSpace :=
  mkSpace (eps s) (eps_satisfied s) (heap s) (heapindices s) (inconslist s) (listmemory s) (searchiteration s) (callnumber s)
    (searchgoalstate s) (searchstartstate s) (StateArray s) reevaluate reinitialize newiteration.

(** [PlannerStats], without the time. *)
Record PlannerStats := mkStats { st_eps : Doubles.double; st_cost : Z; st_expands : Z }.

(** The parameters a caller sets: members of the planner. *)
Record parameters := mkParams {
  finitial_eps : Doubles.double;
  final_epsilon : Doubles.double;
  dec_eps : Doubles.double;
  use_repair_time : bool;
  bsearchuntilfirstsolution : bool;
}.

Section planner.
Context {E : Type} {eops : EnvOps E} {iops : IndexedEnvOps E}.

(** The clock when it is read for the n-th time. *)
Context (clock : nat -> Z).

(** [readings]: how often the clock was read. *)
Record ARAPlanner := mkPlanner {
  environment_ : E;
  pSearchStateSpace_ : ARASearchStateSpace;
  bforwardsearch : bool;
  params : parameters;
  repair_time : Doubles.double;
  searchexpands : Z;
  TimeStarted : Z;
  stats : list PlannerStats;
  num_of_expands_initial_solution : Z;
  final_eps : Doubles.double;
  readings : nat;
}.

Definition set_environment (e : E) (p : ARAPlanner) : ARAPlanner :=
  mkPlanner e (pSearchStateSpace_ p) (bforwardsearch p) (params p) (repair_time p) (searchexpands p) (TimeStarted p)
    (stats p) (num_of_expands_initial_solution p) (final_eps p) (readings p).
Definition set_space (s : ARASearchStateSpace) (p : ARAPlanner) : ARAPlanner :=
  mkPlanner (environment_ p) s (bforwardsearch p) (params p) (repair_time p) (searchexpands p) (TimeStarted p)
    (stats p) (num_of_expands_initial_solution p) (final_eps p) (readings p).
Definition set_params (ps : parameters) (p : ARAPlanner) : ARAPlanner :=
  mkPlanner (environment_ p) (pSearchStateSpace_ p) (bforwardsearch p) ps (repair_time p) (searchexpands p) (TimeStarted p)
    (stats p) (num_of_expands_initial_solution p) (final_eps p) (readings p).
Definition set_repair_time (t : Doubles.double) (p : ARAPlanner) : ARAPlanner :=
  mkPlanner (environment_ p) (pSearchStateSpace_ p) (bforwardsearch p) (params p) t (searchexpands p) (TimeStarted p)
    (stats p) (num_of_expands_initial_solution p) (final_eps p) (readings p).
Definition set_expands (n : Z) (p : ARAPlanner) : ARAPlanner :=
  mkPlanner (environment_ p) (pSearchStateSpace_ p) (bforwardsearch p) (params p) (repair_time p) n (TimeStarted p)
    (stats p) (num_of_expands_initial_solution p) (final_eps p) (readings p).
Definition set_stats (l : list PlannerStats) (n : Z) (x : Doubles.double) (p : ARAPlanner) : ARAPlanner :=
  mkPlanner (environment_ p) (pSearchStateSpace_ p) (bforwardsearch p) (params p) (repair_time p) (searchexpands p) (TimeStarted p)
    l n x (readings p).
Definition set_clock (t : Z) (n : nat) (p : ARAPlanner) : ARAPlanner :=
  mkPlanner (environment_ p) (pSearchStateSpace_ p) (bforwardsearch p) (params p) (repair_time p) (searchexpands p) t
    (stats p) (num_of_expands_initial_solution p) (final_eps p) n.

Definition on_space (f : ARASearchStateSpace -> ARASearchStateSpace) (p : ARAPlanner) : ARAPlanner :=
  set_space (f (pSearchStateSpace_ p)) p.

(** The state a pointer points to, and an assignment to its fields. *)
Definition state_at (p : ARAPlanner) (i : Z) : res ARAState := aget (StateArray (pSearchStateSpace_ p)) i.
Definition write_state (i : Z) (f : ARAState -> ARAState) (p : ARAPlanner) : res ARAPlanner :=
  s ← state_at p i;
  l ← aset (StateArray (pSearchStateSpace_ p)) i (f s);
  Ok (on_space (set_array l) p).

Definition deref (x : option Z) : res Z := match x with Some i => Ok i | None => Err OutOfBounds end.

(** ** States *)

Definition ComputeHeuristic (id : Z) (p : ARAPlanner) : res Z :=
  if bforwardsearch p then env_goal_heuristic (environment_ p) id else env_start_heuristic (environment_ p) id.

(** Also [ReInitializeSearchStateInfo], which has the same text. *)
Definition InitializeSearchStateInfo (i : Z) (p : ARAPlanner) : res ARAPlanner :=
  let space := pSearchStateSpace_ p in
  p ← write_state i (fun s => mkARAState (StateID s) INFINITECOST INFINITECOST 0 (callnumber space) None None INFINITECOST (h s)) p;
  let p := on_space (fun s => set_open (heap s, <[i := 0]> (heapindices s)) s) p in
  let p := on_space (fun s => set_incons (inconslist s, SbplList.mkMemory (SbplList.elements (listmemory s))
    (SbplList.brk (listmemory s)) (delete (i, ARA_INCONS_LIST_ID) (SbplList.listelem (listmemory s)))) s) p in
  s ← state_at p i;
  hv ← match searchgoalstate space with Some _ => ComputeHeuristic (StateID s) p | None => Ok 0 end;
  write_state i (set_h hv) p.

(** With [AddState] of utils/mdp; the new state's fields are all written by
    [Initialize_searchinfo]. *)
Definition CreateState (stateID : Z) (p : ARAPlanner) : res (Z * ARAPlanner) :=
  let n := Z.of_nat (length (StateArray (pSearchStateSpace_ p))) in
  if MAXSTATESPACESIZE <? n + 1 then Err Thrown else
  let p := on_space (fun s => set_array (StateArray s ++ [mkARAState stateID 0 0 0 0 None None 0 0]) s) p in
  e ← index_set (environment_ p) stateID n;
  p ← InitializeSearchStateInfo n (set_environment e p);
  Ok (n, p).

Definition GetState (stateID : Z) (p : ARAPlanner) : res (Z * ARAPlanner) :=
  if index_size (environment_ p) <=? stateID then Err Thrown else
  i ← index_get (environment_ p) stateID;
  if i =? -1 then CreateState stateID p else
  _ ← state_at p i;
  Ok (i, p).

(** ** Expansion *)

(** [g + (int)(eps * h)]: an unsigned int. *)
Definition fvalue (e : Doubles.double) (s : ARAState) : res Z :=
  k ← Doubles.to_int (Doubles.mul e (Doubles.of_int (h s)));
  Ok (to_uint (g s + to_uint k)).

(** What both updates do with a state that has been improved. *)
Definition requeue (i : Z) (p : ARAPlanner) : res ARAPlanner :=
  let space := pSearchStateSpace_ p in
  s ← state_at p i;
  if negb (iterationclosed s =? searchiteration space) then
    k ← fvalue (eps space) s;
    let key := Keys.mkKey k 0 in
    hx ← if SbplHeap.inheap (heapindices space) i then SbplHeap.updateheap i key (heap space) (heapindices space)
         else SbplHeap.insertheap i key (heap space) (heapindices space);
    Ok (on_space (set_open hx) p)
  else if negb (SbplList.in_ (listmemory space) i ARA_INCONS_LIST_ID) then
    lm ← SbplList.insert i ARA_INCONS_LIST_ID (inconslist space) (listmemory space);
    Ok (on_space (set_incons lm) p)
  else Ok p.

(** States of an earlier call are initialised when they are met. *)
Definition refresh (i : Z) (p : ARAPlanner) : res ARAPlanner :=
  s ← state_at p i;
  if negb (callnumberaccessed s =? callnumber (pSearchStateSpace_ p)) then InitializeSearchStateInfo i p else Ok p.

(** One iteration of the loop of [UpdateSuccs]; [i] is the expanded state. *)
Definition update_succ (i : Z) (SuccIDV CostV : list Z) (p : ARAPlanner) (sind : Z) : res ARAPlanner :=
  id ← aget SuccIDV sind;
  '(j, p) ← GetState id p;
  cost ← aget CostV sind;
  p ← refresh j p;
  state ← state_at p i;
  succstate ← state_at p j;
  let new_g := to_uint (v state + to_uint cost) in
  if new_g <? g succstate then
    p ← write_state j (fun s => set_pred i (set_g new_g s)) p;
    requeue j p
  else Ok p.

Definition UpdateSuccs (i : Z) (p : ARAPlanner) : res ARAPlanner :=
  state ← state_at p i;
  '(SuccIDV, CostV, e) ← env_succs (environment_ p) (StateID state);
  foldM (update_succ i SuccIDV CostV) (set_environment e p) (seqZ 0 (Z.of_nat (length SuccIDV))).

Definition update_pred (i : Z) (PredIDV CostV : list Z) (p : ARAPlanner) (pind : Z) : res ARAPlanner :=
  id ← aget PredIDV pind;
  '(j, p) ← GetState id p;
  p ← refresh j p;
  cost ← aget CostV pind;
  state ← state_at p i;
  predstate ← state_at p j;
  let new_g := to_uint (v state + to_uint cost) in
  if new_g <? g predstate then
    p ← write_state j (fun s => set_nextcost (to_uint cost) (set_next i (set_g new_g s))) p;
    requeue j p
  else Ok p.

Definition UpdatePreds (i : Z) (p : ARAPlanner) : res ARAPlanner :=
  state ← state_at p i;
  '(PredIDV, CostV, e) ← env_preds (environment_ p) (StateID state);
  foldM (update_pred i PredIDV CostV) (set_environment e p) (seqZ 0 (Z.of_nat (length PredIDV))).

(** [GetGVal] and [getHeurValue] *)
Definition GetGVal (stateID : Z) (p : ARAPlanner) : res (Z * ARAPlanner) :=
  '(i, p) ← GetState stateID p; s ← state_at p i; Ok (to_sint (g s), p).
Definition getHeurValue (stateID : Z) (p : ARAPlanner) : res (Z * ARAPlanner) :=
  '(i, p) ← GetState stateID p; s ← state_at p i; Ok (h s, p).

(** ** The search at one value of eps *)

(** [(clock () - TimeStarted) < secs * (double) CLOCKS_PER_SEC] *)
Definition elapsed_less (secs : Doubles.double) (p : ARAPlanner) : bool * ARAPlanner :=
  (Doubles.ltb (Doubles.of_int (clock (readings p) - TimeStarted p)) (Doubles.mul secs (Doubles.of_int CLOCKS_PER_SEC)),
   set_clock (TimeStarted p) (S (readings p)) p).

(** The tests of time in the conditions of both loops. *)
Definition in_time (MaxNumofSecs : Doubles.double) (p : ARAPlanner) : bool * ARAPlanner :=
  let '(b, p) := elapsed_less MaxNumofSecs p in
  if b then
    if Doubles.eqb (eps_satisfied (pSearchStateSpace_ p)) (Doubles.of_int INFINITECOST) then (true, p)
    else elapsed_less (repair_time p) p
  else (false, p).

(** The body of the loop of [ImprovePath]: the new keys. *)
Definition expand_one (goal : Z) (goalkey : Keys.CKey) (p : ARAPlanner) : res (Keys.CKey * Keys.CKey * ARAPlanner) :=
  '(i, h, ix) ← SbplHeap.deleteminheap (heap (pSearchStateSpace_ p)) (heapindices (pSearchStateSpace_ p));
  let p := on_space (set_open (h, ix)) p in
  p ← write_state i (fun s => set_closed (searchiteration (pSearchStateSpace_ p)) (set_v (g s) s)) p;
  p ← if bforwardsearch p then UpdateSuccs i p else UpdatePreds i p;
  minkey ← SbplHeap.getminkeyheap (heap (pSearchStateSpace_ p));
  sg ← state_at p goal;
  Ok (minkey, if negb (Keys.key_0 goalkey =? to_sint (g sg)) then Keys.mkKey (g sg) (Keys.key_1 goalkey) else goalkey, p).

Fixpoint improve_loop (fuel : nat) (goal : Z) (MaxNumofSecs : Doubles.double) (minkey goalkey : Keys.CKey) (expands : Z)
    (p : ARAPlanner) : res (Keys.CKey * Keys.CKey * Z * ARAPlanner) :=
  match fuel with
  | O => Err OutOfFuel
  | S fuel =>
      if negb (SbplHeap.emptyheap (heap (pSearchStateSpace_ p))) && (Keys.key_0 minkey <? INFINITECOST) && Keys.gt goalkey minkey then
        let '(t, p) := in_time MaxNumofSecs p in
        if t then
          '(minkey, goalkey, p) ← expand_one goal goalkey p;
          expands ← add_int int32 expands 1;
          improve_loop fuel goal MaxNumofSecs minkey goalkey expands p
        else Ok (minkey, goalkey, expands, p)
      else Ok (minkey, goalkey, expands, p)
  end.

Definition ImprovePath (fuel : nat) (MaxNumofSecs : Doubles.double) (p : ARAPlanner) : res (Z * ARAPlanner) :=
  match searchgoalstate (pSearchStateSpace_ p) with
  | None => Err Thrown
  | Some goal =>
      p ← refresh goal p;
      sg ← state_at p goal;
      minkey ← SbplHeap.getminkeyheap (heap (pSearchStateSpace_ p));
      '(minkey, goalkey, expands, p) ← improve_loop fuel goal MaxNumofSecs minkey (Keys.mkKey (g sg) 0) 0 p;
      sg ← state_at p goal;
      let empty := SbplHeap.emptyheap (heap (pSearchStateSpace_ p)) in
      let retv := if (g sg =? INFINITECOST) && empty then 0
        else if negb empty && Keys.gt goalkey minkey then 2
        else if (g sg =? INFINITECOST) && negb empty then 0
        else 1 in
      Ok (retv, set_expands (to_uint (searchexpands p + to_uint expands)) p)
  end.

(** ** Between searches *)

(** A state leaves INCONS per iteration. *)
Fixpoint merge_loop (fuel : nat) (p : ARAPlanner) : res ARAPlanner :=
  match fuel with
  | O => Err OutOfFuel
  | S fuel =>
      let space := pSearchStateSpace_ p in
      first ← SbplList.getfirst (inconslist space) (listmemory space);
      match first with
      | None => Ok p
      | Some i =>
          s ← state_at p i;
          k ← fvalue (eps space) s;
          hx ← SbplHeap.insertheap i (Keys.mkKey k 0) (heap space) (heapindices space);
          lm ← SbplList.remove i ARA_INCONS_LIST_ID (inconslist space) (listmemory space);
          merge_loop fuel (on_space (fun s => set_incons lm (set_open hx s)) p)
      end
  end.

Definition BuildNewOPENList (p : ARAPlanner) : res ARAPlanner :=
  merge_loop (S (Z.to_nat (SbplList.currentsize (inconslist (pSearchStateSpace_ p))))) p.

(** One iteration of the loop of [Reevaluatefvals]. *)
Definition reevaluate (space : ARASearchStateSpace) (cells : list (option (SbplHeap.heapelement Keys.CKey))) (i : Z) :
    res (list (option (SbplHeap.heapelement Keys.CKey))) :=
  e ← read_cell cells i;
  s ← aget (StateArray space) (SbplHeap.heapstate e);
  k ← fvalue (eps space) s;
  aset cells i (Some (SbplHeap.mkElem (SbplHeap.heapstate e) (Keys.mkKey k (Keys.key_1 (SbplHeap.key e))))).

Definition Reevaluatefvals (p : ARAPlanner) : res ARAPlanner :=
  let space := pSearchStateSpace_ p in
  cells ← foldM (reevaluate space) (SbplHeap.heap (heap space)) (seqZ 1 (SbplHeap.currentsize (heap space)));
  hx ← SbplHeap.makeheap (SbplHeap.set_heap cells (heap space)) (heapindices space);
  Ok (on_space (fun s => set_flags false (bReinitializeSearchStateSpace s) (bNewSearchIteration s) (set_open hx s)) p).

(** Both queues emptied: the body of [ResetSearchStateSpace]. *)
Definition ResetSearchStateSpace (p : ARAPlanner) : res ARAPlanner :=
  let space := pSearchStateSpace_ p in
  hx ← SbplHeap.makeemptyheap (heap space) (heapindices space);
  lm ← SbplList.makeemptylist ARA_INCONS_LIST_ID (inconslist space) (listmemory space);
  Ok (on_space (fun s => set_incons lm (set_open hx s)) p).

Definition ReInitializeSearchStateSpace (p : ARAPlanner) : res ARAPlanner :=
  let p := on_space (fun s => set_counters 0 (to_ushort (callnumber s + 1)) s) p in
  let p := on_space (fun s => set_flags (bReevaluatefvals s) (bReinitializeSearchStateSpace s) true s) p in
  p ← ResetSearchStateSpace p;
  let p := on_space (fun s => set_satisfied (Doubles.of_int INFINITECOST) (set_eps (finitial_eps (params p)) s)) p in
  start ← deref (searchstartstate (pSearchStateSpace_ p));
  p ← refresh start p;
  p ← write_state start (set_g 0) p;
  s ← state_at p start;
  let space := pSearchStateSpace_ p in
  k ← Doubles.to_long (Doubles.mul (eps space) (Doubles.of_int (h s)));
  hx ← SbplHeap.insertheap start (Keys.mkKey k 0) (heap space) (heapindices space);
  Ok (on_space (fun s => set_flags false false (bNewSearchIteration s) (set_open hx s)) p).

(** [CreateSearchStateSpace] *)
Definition CreateSearchStateSpace (p : ARAPlanner) : ARAPlanner :=
  let p := on_space (fun s => set_flags (bReevaluatefvals s) false (bNewSearchIteration s)
    (set_ends None None (set_incons (SbplList.new_list, listmemory s) (set_open (SbplHeap.new_heap, heapindices s) s)))) p in
  set_expands 0 p.

Definition InitializeSearchStateSpace (p : ARAPlanner) : res ARAPlanner :=
  let space := pSearchStateSpace_ p in
  if negb (SbplHeap.currentsize (heap space) =? 0) || negb (SbplList.currentsize (inconslist space) =? 0) then Err Thrown else
  Ok (on_space (fun s => set_flags false true true (set_ends None None (set_counters 0 0
    (set_satisfied (Doubles.of_int INFINITECOST) (set_eps (finitial_eps (params p)) s))))) p).

(** With [DeleteSearchStateData] and [searchMDP.Delete ()]. *)
Definition DeleteSearchStateSpace (p : ARAPlanner) : res ARAPlanner :=
  p ← ResetSearchStateSpace p;
  Ok (on_space (set_array []) p).

(** [ARAPlanner (environment, bSearchForward)]; what the memory of the search
    space holds before is in [mem]. *)
Definition construct (environment : E) (bSearchForward : bool) (mem : ARASearchStateSpace) : res ARAPlanner :=
  let ps := mkParams ARA_DEFAULT_INITIAL_EPS ARA_FINAL_EPS ARA_DECREASE_EPS false false in
  let p := mkPlanner environment (set_array [] mem) bSearchForward ps (Doubles.of_int INFINITECOST) 0 0 [] 0 (Doubles.of_int (-1)) 0 in
  p ← InitializeSearchStateSpace (CreateSearchStateSpace p);
  Ok (set_stats [] 0 (Doubles.of_int (-1)) p).

Definition SetSearchGoalState (SearchGoalStateID : Z) (p : ARAPlanner) : res ARAPlanner :=
  same ← match searchgoalstate (pSearchStateSpace_ p) with
         | None => Ok false
         | Some goal => s ← state_at p goal; Ok (StateID s =? SearchGoalStateID)
         end;
  if same : bool then Ok p else
  '(goal, p) ← GetState SearchGoalStateID p;
  let p := on_space (fun s => set_eps (finitial_eps (params p)) (set_flags (bReevaluatefvals s) (bReinitializeSearchStateSpace s) true
    (set_satisfied (Doubles.of_int INFINITECOST) (set_ends (Some goal) (searchstartstate s) s)))) p in
  p ← foldM (fun p i =>
      s ← state_at p i;
      hv ← ComputeHeuristic (StateID s) p;
      write_state i (set_h hv) p) p (seqZ 0 (Z.of_nat (length (StateArray (pSearchStateSpace_ p)))));
  Ok (on_space (fun s => set_flags true (bReinitializeSearchStateSpace s) (bNewSearchIteration s) s) p).

Definition SetSearchStartState (SearchStartStateID : Z) (p : ARAPlanner) : res ARAPlanner :=
  '(start, p) ← GetState SearchStartStateID p;
  if decide (searchstartstate (pSearchStateSpace_ p) = Some start) then Ok p else
  Ok (on_space (fun s => set_flags (bReevaluatefvals s) true (bNewSearchIteration s) (set_ends (searchgoalstate s) (Some start) s)) p).

(** ** The path *)

(** The loop of [ReconstructPath]: back from the goal, setting [bestnextstate]. *)
Fixpoint reconstruct_loop (fuel : nat) (i : Z) (p : ARAPlanner) : res (Z * ARAPlanner) :=
  match fuel with
  | O => Err OutOfFuel
  | S fuel =>
      if decide (Some i = searchstartstate (pSearchStateSpace_ p)) then Ok (1, p) else
      s ← state_at p i;
      if g s =? INFINITECOST then Ok (-1, p) else
      match bestpredstate s with
      | None => Err Thrown
      | Some j =>
          p ← write_state j (set_next i) p;
          pred ← state_at p j;
          if g s <=? v pred then Err Thrown else reconstruct_loop fuel j p
      end
  end.

Definition ReconstructPath (fuel : nat) (p : ARAPlanner) : res (Z * ARAPlanner) :=
  if bforwardsearch p then
    goal ← deref (searchgoalstate (pSearchStateSpace_ p));
    reconstruct_loop fuel goal p
  else Ok (1, p).

(** The loop of [GetSearchPath]: forward along [bestnextstate].  The cheapest arc
    is found as in the planner of pwsaplanner.cpp, in the same words. *)
Fixpoint path_loop (fuel : nat) (i goalID : Z) (wholePathIds : list Z) (solcost : Z) (p : ARAPlanner) :
    res (list Z * Z * ARAPlanner) :=
  match fuel with
  | O => Err OutOfFuel
  | S fuel =>
      s ← state_at p i;
      if StateID s =? goalID then Ok (wholePathIds, solcost, p) else
      match bestnextstate s with
      | None => Ok (wholePathIds, solcost, p)
      | Some j =>
          if g s =? INFINITECOST then Ok (wholePathIds, solcost, p) else
          '(SuccIDV, CostV, e) ← env_succs (environment_ p) (StateID s);
          next ← state_at p j;
          actioncost ← WAStarPlanner.action_cost SuccIDV CostV (StateID next);
          solcost ← add_int int32 solcost actioncost;
          path_loop fuel j goalID (wholePathIds ++ [StateID next]) solcost (set_environment e p)
      end
  end.

Definition GetSearchPath (fuel : nat) (p : ARAPlanner) : res (list Z * Z * ARAPlanner) :=
  let space := pSearchStateSpace_ p in
  '(start, goal, p) ← if bforwardsearch p then
      '(_, p) ← ReconstructPath fuel p; Ok (searchstartstate space, searchgoalstate space, p)
    else Ok (searchgoalstate space, searchstartstate space, p);
  start ← deref start;
  s ← state_at p start;
  goal ← deref goal;
  sg ← state_at p goal;
  path_loop fuel start (StateID sg) [StateID s] 0 p.

(** ** The anytime loop *)

Definition goal_g (p : ARAPlanner) : res Z :=
  goal ← deref (searchgoalstate (pSearchStateSpace_ p));
  s ← state_at p goal;
  Ok (g s).

(** [eps] of the next search. *)
Definition next_eps (ps : parameters) (x : Doubles.double) : Doubles.double :=
  let y := Doubles.sub x (dec_eps ps) in
  if Doubles.ltb y (final_epsilon ps) then final_epsilon ps else y.

Definition decrease_eps (p : ARAPlanner) : res ARAPlanner :=
  let p := on_space (fun s => set_flags true (bReinitializeSearchStateSpace s) true (set_eps (next_eps (params p) (eps s)) s)) p in
  BuildNewOPENList p.

(** The bookkeeping after [ImprovePath]. *)
Definition record_stats (prevexpands : Z) (p : ARAPlanner) : res ARAPlanner :=
  let space := pSearchStateSpace_ p in
  let n := to_sint (searchexpands p - prevexpands) in
  let p := if Doubles.eqb (eps_satisfied space) (finitial_eps (params p)) && Doubles.eqb (eps space) (finitial_eps (params p))
           then set_stats (stats p) n (final_eps p) p else p in
  c ← goal_g p;
  Ok (if match last (stats p) with None => true | Some st => negb (Doubles.eqb (eps_satisfied space) (st_eps st)) end
      then set_stats (stats p ++ [mkStats (eps_satisfied space) (to_sint c) n]) (num_of_expands_initial_solution p) (final_eps p) p
      else p).

(** What precedes [ImprovePath] in the main loop: a smaller [eps] once the last
    one is satisfied, the next iteration, the keys. *)
Definition begin_search (bFirstSolution : bool) (p : ARAPlanner) : res ARAPlanner :=
  let space := pSearchStateSpace_ p in
  p ← if Doubles.ltb (Doubles.fabs (Doubles.sub (eps_satisfied space) (eps space))) ERR_EPS && negb bFirstSolution
      then decrease_eps p else Ok p;
  let p := if bNewSearchIteration (pSearchStateSpace_ p)
           then on_space (fun s => set_flags (bReevaluatefvals s) (bReinitializeSearchStateSpace s) false
                  (set_counters (to_ushort (searchiteration s + 1)) (callnumber s) s)) p
           else p in
  if bReevaluatefvals (pSearchStateSpace_ p) then Reevaluatefvals p else Ok p.

(** The body of the main loop up to [record_stats]. *)
Definition improve_once (fuel : nat) (bFirstSolution : bool) (MaxNumofSecs : Doubles.double) (p : ARAPlanner) : res ARAPlanner :=
  p ← begin_search bFirstSolution p;
  '(retv, p) ← ImprovePath fuel MaxNumofSecs p;
  Ok (if retv =? 1 then on_space (fun s => set_satisfied (eps s) s) p else p).

Fixpoint search_loop (fuel inner : nat) (bFirstSolution : bool) (MaxNumofSecs : Doubles.double) (prevexpands : Z) (p : ARAPlanner) :
    res ARAPlanner :=
  match fuel with
  | O => Err OutOfFuel
  | S fuel =>
      let '(go, p) := if Doubles.ltb (final_epsilon (params p)) (eps_satisfied (pSearchStateSpace_ p))
                      then in_time MaxNumofSecs p else (false, p) in
      if go : bool then
        p ← improve_once inner bFirstSolution MaxNumofSecs p;
        p ← record_stats prevexpands p;
        if bFirstSolution then Ok p else
        c ← goal_g p;
        if c =? INFINITECOST then Ok p
        else search_loop fuel inner bFirstSolution MaxNumofSecs (searchexpands p) p
      else Ok p
  end.

(** The found flag, the path and [PathCost]. *)
Definition Search (fuel inner : nat) (bFirstSolution bOptimalSolution : bool) (MaxNumofSecs : Doubles.double) (p : ARAPlanner) :
    res (bool * list Z * Z * ARAPlanner) :=
  let p := set_expands 0 (set_clock (clock (readings p)) (S (readings p)) p) in
  let old_repair_time := repair_time p in
  let p := if negb (use_repair_time (params p)) then set_repair_time MaxNumofSecs p else p in
  p ← if bReinitializeSearchStateSpace (pSearchStateSpace_ p) then ReInitializeSearchStateSpace p else Ok p;
  let forever := Doubles.of_int INFINITECOST in
  let p := if bOptimalSolution then on_space (set_eps (Doubles.of_int 1)) p else p in
  let untimed := bOptimalSolution || bFirstSolution in
  let p := if untimed then set_repair_time forever p else p in
  let MaxNumofSecs := if untimed then forever else MaxNumofSecs in
  e ← env_ensure_heuristics (environment_ p) (bforwardsearch p);
  let p := set_stats [] (num_of_expands_initial_solution p) (final_eps p) (set_environment e p) in
  p ← search_loop fuel inner bFirstSolution MaxNumofSecs 0 p;
  let p := set_repair_time old_repair_time p in
  c ← goal_g p;
  let PathCost := to_sint c in
  '(ret, pathIds, p) ← if PathCost =? INFINITECOST then Ok (false, [], p)
    else '(ids, _, p) ← GetSearchPath inner p; Ok (true, ids, p);
  Ok (ret, pathIds, PathCost, set_stats (stats p) (num_of_expands_initial_solution p) (eps_satisfied (pSearchStateSpace_ p)) p).

(** ** The interface *)

(** [replan (allocated_time_secs, solution_stateIDs_V, psolcost)] *)
Definition replan (fuel inner : nat) (allocated_time_secs : Doubles.double) (p : ARAPlanner) :
    res (Z * list Z * Z * ARAPlanner) :=
  '(bFound, pathIds, PathCost, p) ← Search fuel inner (bsearchuntilfirstsolution (params p)) false allocated_time_secs p;
  Ok (if bFound : bool then 1 else 0, pathIds, PathCost, p).

(** [ReplanParams] *)
Record ReplanParams := mkReplanParams {
  rp_max_time : Doubles.double; rp_initial_eps : Doubles.double; rp_final_eps : Doubles.double; rp_dec_eps : Doubles.double;
  rp_return_first_solution : bool; rp_repair_time : Doubles.double;
}.

Definition replan_params (fuel inner : nat) (ps : ReplanParams) (p : ARAPlanner) : res (Z * list Z * Z * ARAPlanner) :=
  let p := set_params (mkParams (rp_initial_eps ps) (rp_final_eps ps) (rp_dec_eps ps)
    (Doubles.ltb (Doubles.of_int 0) (rp_repair_time ps)) (rp_return_first_solution ps)) p in
  replan fuel inner (rp_max_time ps) (set_repair_time (rp_repair_time ps) p).

Definition set_goal (goal_stateID : Z) (p : ARAPlanner) : res ARAPlanner :=
  if bforwardsearch p then SetSearchGoalState goal_stateID p else SetSearchStartState goal_stateID p.
Definition set_start (start_stateID : Z) (p : ARAPlanner) : res ARAPlanner :=
  if bforwardsearch p then SetSearchStartState start_stateID p else SetSearchGoalState start_stateID p.

(** Also [costs_changed], which has the same body. *)
Definition force_planning_from_scratch (p : ARAPlanner) : ARAPlanner :=
  on_space (fun s => set_flags (bReevaluatefvals s) true (bNewSearchIteration s) s) p.

Definition id_or_none (x : option Z) (p : ARAPlanner) : res Z :=
  match x with Some i => s ← state_at p i; Ok (StateID s) | None => Ok (-1) end.

Definition force_planning_from_scratch_and_free_memory (p : ARAPlanner) : res ARAPlanner :=
  a ← id_or_none (searchstartstate (pSearchStateSpace_ p)) p;
  b ← id_or_none (searchgoalstate (pSearchStateSpace_ p)) p;
  let '(start_id, goal_id) := if bforwardsearch p then (a, b) else (b, a) in
  p ← DeleteSearchStateSpace p;
  p ← InitializeSearchStateSpace (CreateSearchStateSpace p);
  let p := set_environment (index_clear (environment_ p)) p in
  p ← if 0 <=? start_id then set_start start_id p else Ok p;
  if 0 <=? goal_id then set_goal goal_id p else Ok p.

Definition set_search_mode (bSearchUntilFirstSolution : bool) (p : ARAPlanner) : ARAPlanner :=
  let ps := params p in
  set_params (mkParams (finitial_eps ps) (final_epsilon ps) (dec_eps ps) (use_repair_time ps) bSearchUntilFirstSolution) p.

Definition set_initialsolution_eps (x : Doubles.double) (p : ARAPlanner) : ARAPlanner :=
  let ps := params p in
  set_params (mkParams x (final_epsilon ps) (dec_eps ps) (use_repair_time ps) (bsearchuntilfirstsolution ps)) p.

Definition get_solution_eps (p : ARAPlanner) : Doubles.double := eps_satisfied (pSearchStateSpace_ p).
End planner.
Arguments ARAPlanner : clear implicits.
End AraPlanner.
