(* ===== verification/AraCore.v ===== *)
(** * The invariant of ARA*, on its values alone

    A [view] is what the search knows: which state every index stands for, its
    [g] and [v], its best neighbour, the states closed in this iteration, OPEN
    with its keys and INCONS.  The transitions of the search keep [good], which
    bounds the costs found by a factor over the shortest ones. *)

From S2P Require Import Prelude.
From S2P Require Import Keys.

Module AraCore.

Definition INF : Z := 1000000000.

Section core.
Context {Node : Type} (arcs : Node -> list (Node * Z)) (max_id max_cost : Z).
Context (Hpos : forall x y c, (y, c) ∈ arcs x -> 1 <= c <= max_cost) (Hcost : 0 <= max_cost).
Context (Hfit : max_id * max_cost < INF).

(** Walks of the graph the search explores. *)
Inductive walk (x : Node) : Node -> Z -> Prop :=
  | walk_here : walk x x 0
  | walk_step y z d c : walk x y d -> (z, c) ∈ arcs y -> walk x z (d + c).

Lemma walk_trans x y z d d' : walk x y d -> walk y z d' -> walk x z (d + d').
Proof.
  intros H1 H2. induction H2 as [|y' z' d' c _ IH Hc]; [rewrite Z.add_0_r; exact H1|].
  rewrite Z.add_assoc. eapply walk_step; eassumption.
Qed.

Lemma ara_walk_nonneg x y d : walk x y d -> 0 <= d.
Proof using Hpos. induction 1 as [|y z d c _ IH Hc]; [lia|]. apply Hpos in Hc. lia. Qed.

Record view := mkView {
  node : Z -> option Node;
  G : Z -> Z;
  V : Z -> Z;
  best : Z -> option Z;
  closed : Z -> bool;
  open : gmap Z Keys.CKey;
  incons : list Z;
}.

(** [start]: the index of the state the search starts from; [f]: the inflated
    heuristic of a state. *)
Context (start : Z) (f : Node -> Z).
Context (Hf : forall x, 0 <= f x /\ f x + max_id * max_cost < INF).

Definition key_of (w : view) (k : Z) (x : Node) : Keys.CKey := Keys.mkKey (G w k + f x) 0.

(** [b] is the cost of a path without repetitions to [k]: every state on it
    costs at most [b]. *)
Definition trail (g : Z -> Z) (k b : Z) : Prop :=
  exists l, NoDup l /\ (k ∉ l) /\ (forall j, j ∈ l -> 0 <= j < max_id /\ g j <= b) /\ b <= Z.of_nat (length l) * max_cost.

(** [f] is consistent up to the factor num / den. *)
Definition factor (num den : Z) : Prop :=
  0 < den <= num /\ forall x y c, (y, c) ∈ arcs x -> den * f x <= num * c + den * f y.

(** [pending]: the arcs of the state being expanded that are still to be relaxed. *)
Record good (w : view) (pending : Z -> list (Node * Z)) : Prop := {
  gd_start : exists x, node w start = Some x;
  gd_start0 : G w start = 0;
  gd_inj : forall j k x, node w j = Some x -> node w k = Some x -> j = k;
  gd_range : forall k x, node w k = Some x -> 0 <= k < max_id;
  gd_le : forall k, 0 <= G w k <= V w k /\ V w k <= INF;
  gd_known : forall k, G w k < INF -> exists x, node w k = Some x;
  gd_trailG : forall k, G w k < INF -> trail (G w) k (G w k);
  gd_trailV : forall k, V w k < INF -> trail (G w) k (V w k);
  gd_tree : forall k, k <> start -> G w k < INF -> exists j c x y, best w k = Some j /\ node w j = Some x /\
    node w k = Some y /\ (y, c) ∈ arcs x /\ V w j + c <= G w k;
  gd_closure : forall j x y c, V w j < INF -> node w j = Some x -> (y, c) ∈ arcs x ->
    (y, c) ∈ pending j \/ exists k, node w k = Some y /\ G w k <= V w j + c;
  gd_open : forall k key, open w !! k = Some key -> G w k < INF /\ closed w k = false /\
    exists x, node w k = Some x /\ key = key_of w k x;
  gd_incons : forall k, k ∈ incons w -> closed w k = true;
  gd_queued : forall k, G w k < V w k -> if closed w k then k ∈ incons w else exists key, open w !! k = Some key;
  gd_closed : forall k, closed w k = true -> V w k < INF;
  gd_bound : forall num den k x xs d, factor num den -> closed w k = true -> node w k = Some x ->
    node w start = Some xs -> walk xs x d -> den * V w k <= num * d;
}.

Definition none (_ : Z) : list (Node * Z) := [].

(** ** Values *)

Lemma trail_bound g k b : 0 <= k < max_id -> trail g k b -> b + max_cost <= max_id * max_cost.
Proof using Hcost.
  intros Hk (l & Hnd & Hkl & Hl & Hb).
  assert (Hlen : Z.of_nat (length (k :: l)) <= Z.max 0 max_id).
  { apply NoDup_range_length; [constructor; assumption|]. intros x [->|Hx]%elem_of_cons; [exact Hk|]. apply Hl. exact Hx. }
  cbn [length] in Hlen. nia.
Qed.

Lemma trail_weaken g g' k b : (forall j, g' j <= g j) -> trail g k b -> trail g' k b.
Proof.
  intros Hg (l & Hnd & Hkl & Hl & Hb). exists l. split_and!; auto. intros j Hj. destruct (Hl j Hj) as [Hr Hv].
  specialize (Hg j). lia.
Qed.

Section view.
Context (w : view) (pending : Z -> list (Node * Z)) (I : good w pending).

Lemma V_finite k : V w k < INF -> G w k < INF.
Proof using I. pose proof (gd_le _ _ I k). lia. Qed.

Lemma G_fits k : G w k < INF -> G w k + max_cost <= max_id * max_cost.
Proof using I Hcost. intros Hk. destruct (gd_known _ _ I k Hk) as [x Hx]. eapply trail_bound; [eapply gd_range; eassumption|eapply gd_trailG; eassumption]. Qed.

Lemma V_fits k : V w k < INF -> V w k + max_cost <= max_id * max_cost.
Proof using I Hcost.
  intros Hk. destruct (gd_known _ _ I k (V_finite k Hk)) as [x Hx].
  eapply trail_bound; [eapply gd_range; eassumption|eapply gd_trailV; eassumption].
Qed.

Lemma open_key k key : open w !! k = Some key -> exists x, node w k = Some x /\ key = key_of w k x /\
  0 <= Keys.key_0 key < INF /\ G w k < INF.
Proof using I Hcost Hf.
  intros Hk. destruct (gd_open _ _ I k key Hk) as (Hg & _ & x & Hx & ->). exists x. split_and!; auto; cbn;
    pose proof (Hf x); pose proof (G_fits k Hg); pose proof (gd_le _ _ I k); lia.
Qed.
End view.

(** ** Pointwise equal views *)

Definition same_view (w w' : view) : Prop :=
  (forall k, node w' k = node w k) /\ (forall k, G w' k = G w k) /\ (forall k, V w' k = V w k) /\
  (forall k, best w' k = best w k) /\ (forall k, closed w' k = closed w k) /\ open w' = open w /\ incons w' = incons w.

Lemma good_ext w w' pending : same_view w w' -> good w pending -> good w' pending.
Proof.
  intros (En & Eg & Ev & Eb & Ec & Eo & Ei) I.
  split; intros; rewrite ?En, ?Eg, ?Ev, ?Eb, ?Ec, ?Eo, ?Ei in *.
  - apply (gd_start _ _ I).
  - apply (gd_start0 _ _ I).
  - eapply gd_inj; eassumption.
  - eapply gd_range; eassumption.
  - apply (gd_le _ _ I).
  - eapply gd_known; eassumption.
  - eapply trail_weaken; [|eapply gd_trailG; eassumption]. intros j. rewrite Eg. lia.
  - eapply trail_weaken; [|eapply gd_trailV; eassumption]. intros j. rewrite Eg. lia.
  - destruct (gd_tree _ _ I k) as (j & c & x & y & H1 & H2 & H3 & H4 & H5); [assumption..|].
    exists j, c, x, y. rewrite En, Ev. auto.
  - destruct (gd_closure _ _ I j x y c) as [?|(k & ? & ?)]; [assumption..|auto|]. right. exists k. rewrite En, Eg. auto.
  - destruct (gd_open _ _ I k key) as (H1 & H2 & x & H3 & H4); [assumption|]. split_and!; auto. exists x. unfold key_of in *. rewrite Eg. auto.
  - eapply gd_incons; eassumption.
  - exact (gd_queued _ _ I k ltac:(assumption)).
  - eapply gd_closed; eassumption.
  - eapply gd_bound; eassumption.
Qed.

Lemma good_pending w (pending pending' : Z -> list (Node * Z)) : (forall j a, a ∈ pending j -> a ∈ pending' j) -> good w pending -> good w pending'.
Proof.
  intros Hp I. destruct I as [H1 H2 H3 H4 H5 H6 H7 H8 H9 H10 H11 H12 H13 H14 H15]. split; try assumption.
  intros j x y c Hv Hj Hy. destruct (H10 j x y c Hv Hj Hy) as [?|?]; auto.
Qed.
(** ** What is not found yet is behind OPEN *)

Section frontier.
Context (w : view) (I : good w none) (xs : Node) (Hxs : node w start = Some xs).

(** The last state of a walk whose [v] is within the factor is followed by one
    in OPEN. *)
Lemma frontier num den x d : factor num den -> walk xs x d ->
  (exists k, node w k = Some x /\ V w k < INF /\ den * V w k <= num * d) \/
  exists j y d1 d2 key, node w j = Some y /\ walk xs y d1 /\ walk y x d2 /\ d = d1 + d2 /\
    open w !! j = Some key /\ den * G w j <= num * d1.
Proof using I Hxs Hpos Hcost Hfit.
  intros F. pose proof F as [[Hden Hnd] _].
  assert (Key : forall k y d, walk xs y d -> node w k = Some y -> G w k < INF -> den * G w k <= num * d ->
    V w k < INF /\ den * V w k <= num * d \/ exists key, open w !! k = Some key).
  { intros k y d' Hw Hk Hg Hb. destruct (Z.eq_dec (V w k) (G w k)) as [E|Hne]; [left; rewrite E; auto|].
    assert (Hlt : G w k < V w k) by (pose proof (gd_le _ _ I k); lia). pose proof (gd_queued _ _ I k Hlt) as Hq.
    destruct (closed w k) eqn:Ec; [|auto]. left. split; [eapply gd_closed; eassumption|eapply gd_bound; eassumption]. }
  induction 1 as [|y z d c Hw IH Hc].
  - destruct (Key start xs 0) as [?|[key ?]]; [constructor|exact Hxs|rewrite (gd_start0 _ _ I); reflexivity|rewrite (gd_start0 _ _ I); lia|eauto|].
    right. exists start, xs, 0, 0, key. split_and!; auto; [constructor..|rewrite (gd_start0 _ _ I); lia].
  - destruct IH as [(k & Hk & Hv & Hb)|(j & y' & d1 & d2 & key & H1 & H2 & H3 & H4 & H5 & H6)].
    2:{ right. exists j, y', d1, (d2 + c), key. split_and!; auto; [eapply walk_step; eassumption|lia]. }
    destruct (gd_closure _ _ I k y z c Hv Hk Hc) as [Hnil|(k' & Hk' & Hg')]; [inversion Hnil|].
    pose proof (V_fits _ _ I k Hv). pose proof (Hpos _ _ _ Hc).
    destruct (Key k' z (d + c)) as [?|[key ?]]; [econstructor; eassumption|exact Hk'|lia|nia|left; eauto|].
    right. exists k', z, (d + c), 0, key. split_and!; auto; [econstructor; eassumption|constructor|lia|nia].
Qed.

Lemma reached x d : walk xs x d -> (exists k, node w k = Some x /\ V w k < INF) \/ exists k key, open w !! k = Some key.
Proof using I Hxs Hpos Hcost Hfit.
  assert (Key : forall k y, node w k = Some y -> G w k < INF -> V w k < INF \/ exists k key, open w !! k = Some key).
  { intros k y Hk Hg. destruct (Z.eq_dec (V w k) (G w k)) as [E|Hne]; [left; lia|].
    assert (Hlt : G w k < V w k) by (pose proof (gd_le _ _ I k); lia). pose proof (gd_queued _ _ I k Hlt) as Hq.
    destruct (closed w k) eqn:Ec; [left; eapply gd_closed; eassumption|eauto]. }
  induction 1 as [|y z d c Hw IH Hc].
  - destruct (Key start xs Hxs) as [?|?]; [rewrite (gd_start0 _ _ I); reflexivity|eauto|auto].
  - destruct IH as [(k & Hk & Hv)|?]; [|auto].
    destruct (gd_closure _ _ I k y z c Hv Hk Hc) as [Hnil|(k' & Hk' & Hg')]; [inversion Hnil|].
    pose proof (V_fits _ _ I k Hv). pose proof (Hpos _ _ _ Hc).
    destruct (Key k' z Hk') as [?|?]; [lia|eauto|auto].
Qed.
End frontier.

Lemma factor_walk num den x y d : factor num den -> walk x y d -> den * f x <= num * d + den * f y.
Proof.
  intros [_ F]. induction 1 as [|y z d c Hw IH Hc]; [lia|]. pose proof (F _ _ _ Hc). lia.
Qed.

(** The state with the least key of OPEN is within the factor. *)
Lemma least_bound w i xs key num den x d : good w none -> node w start = Some xs -> factor num den ->
  open w !! i = Some key -> (forall j key', open w !! j = Some key' -> Keys.key_0 key <= Keys.key_0 key') ->
  node w i = Some x -> walk xs x d -> den * G w i <= num * d.
Proof using Hpos Hcost Hfit.
  intros I Hxs F Hi Hmin Hx Hw. pose proof F as [[Hden _] _].
  destruct (frontier w I xs Hxs num den x d F Hw) as [(k & Hk & Hv & Hb)|(j & y & d1 & d2 & key' & H1 & H2 & H3 & -> & H5 & H6)].
  - rewrite (gd_inj _ _ I i k x Hx Hk). pose proof (gd_le _ _ I k). nia.
  - pose proof (Hmin _ _ H5) as Hle. destruct (gd_open _ _ I _ _ Hi) as (_ & _ & x1 & E1 & ->).
    destruct (gd_open _ _ I _ _ H5) as (_ & _ & y1 & E2 & ->). rewrite Hx in E1. rewrite H1 in E2. injection E1 as <-. injection E2 as <-.
    cbn in Hle. pose proof (factor_walk _ _ _ _ _ F H3). nia.
Qed.

(** The goal, when nothing in OPEN can improve it. *)
Lemma goal_bound w goal xg xs num den d : good w none -> node w start = Some xs -> factor num den -> node w goal = Some xg ->
  f xg = 0 -> (forall j key, open w !! j = Some key -> G w goal <= Keys.key_0 key) -> walk xs xg d -> den * G w goal <= num * d.
Proof using Hpos Hcost Hfit.
  intros I Hxs F Hg Hf0 Hmin Hw. pose proof F as [[Hden _] _].
  destruct (frontier w I xs Hxs num den xg d F Hw) as [(k & Hk & Hv & Hb)|(j & y & d1 & d2 & key' & H1 & H2 & H3 & -> & H5 & H6)].
  - rewrite (gd_inj _ _ I goal k xg Hg Hk). pose proof (gd_le _ _ I k). nia.
  - pose proof (Hmin _ _ H5) as Hle. destruct (gd_open _ _ I _ _ H5) as (_ & _ & y1 & E2 & ->). rewrite H1 in E2. injection E2 as <-.
    cbn in Hle. pose proof (factor_walk _ _ _ _ _ F H3). nia.
Qed.

Lemma goal_unreachable w goal xg xs d : good w none -> node w start = Some xs -> node w goal = Some xg ->
  G w goal = INF -> open w = ∅ -> ~ walk xs xg d.
Proof using Hpos Hcost Hfit.
  intros I Hxs Hg Hinf Ho Hw. destruct (reached w I xs Hxs xg d Hw) as [(k & Hk & Hv)|(k & key & Hk)].
  - rewrite (gd_inj _ _ I _ _ _ Hk Hg) in Hv. apply (V_finite _ _ I) in Hv. lia.
  - rewrite Ho, lookup_empty in Hk. discriminate.
Qed.
(** ** The transitions *)

(** States get indices. *)
Lemma grow_good w w' pending : good w pending ->
  (forall k x, node w k = Some x -> node w' k = Some x) ->
  (forall j k x, node w' j = Some x -> node w' k = Some x -> j = k) ->
  (forall k x, node w' k = Some x -> 0 <= k < max_id) ->
  (forall k, G w' k = G w k) -> (forall k, V w' k = V w k) -> (forall k, best w' k = best w k) ->
  (forall k, closed w' k = closed w k) -> open w' = open w -> incons w' = incons w -> good w' pending.
Proof using Hpos Hcost Hfit Hf.
  intros I Hn Hinj Hr Eg Ev Eb Ec Eo Ei.
  assert (Hold : forall k x, G w k < INF -> node w' k = Some x -> node w k = Some x).
  { intros k x Hk Hx. destruct (gd_known _ _ I k Hk) as [x' Hx']. pose proof (Hn _ _ Hx'). congruence. }
  destruct (gd_start _ _ I) as [xs Hs].
  split; intros; rewrite ?Eg, ?Ev, ?Eb, ?Ec, ?Eo, ?Ei in *.
  - eauto.
  - apply (gd_start0 _ _ I).
  - eauto.
  - eauto.
  - apply (gd_le _ _ I).
  - destruct (gd_known _ _ I k) as [x Hx]; eauto.
  - eapply trail_weaken; [|eapply gd_trailG; eassumption]. intros j. rewrite Eg. lia.
  - eapply trail_weaken; [|eapply gd_trailV; eassumption]. intros j. rewrite Eg. lia.
  - destruct (gd_tree _ _ I k) as (j & c & x & y & H1 & H2 & H3 & H4 & H5); [assumption..|].
    exists j, c, x, y. rewrite Ev. split_and!; auto.
  - match goal with H : V w _ < INF |- _ => pose proof (V_finite _ _ I _ H) end.
    destruct (gd_closure _ _ I j x y c) as [?|(k & ? & ?)]; [assumption|eauto|assumption|auto|]. right. exists k. rewrite Eg. auto.
  - destruct (gd_open _ _ I k key) as (H1 & H2 & x & H3 & H4); [assumption|]. split_and!; auto. exists x. unfold key_of in *. rewrite Eg. auto.
  - eapply gd_incons; eassumption.
  - exact (gd_queued _ _ I k ltac:(assumption)).
  - eapply gd_closed; eassumption.
  - match goal with H : closed w _ = true |- _ => pose proof (V_finite _ _ I _ (gd_closed _ _ I _ H)) end.
    eapply gd_bound; [exact I|eassumption|assumption|eauto| |eassumption].
    apply Hold; [rewrite (gd_start0 _ _ I); reflexivity|assumption].
Qed.

(** The arc (y, c) from [i] is dealt with. *)
Lemma keep_good w pending i j y c todo : good w pending -> pending i = (y, c) :: todo -> node w j = Some y -> G w j <= V w i + c ->
  good w (upd pending i todo).
Proof.
  intros I Hp Hj Hle. destruct I as [H1 H2 H3 H4 H5 H6 H7 H8 H9 H10 H11 H12 H13 H14 H15]. split; try assumption.
  intros k x y' c' Hv Hk Hy. destruct (H10 k x y' c' Hv Hk Hy) as [Hin|?]; [|auto]. destruct (decide (k = i)) as [->|Hne].
  - rewrite upd_eq. rewrite Hp in Hin. apply elem_of_cons in Hin as [[= -> ->]|Hin]; eauto.
  - rewrite upd_ne by exact Hne. auto.
Qed.

(** It improves [j]. *)
Lemma relax_good w w' pending i j x y c todo : good w pending -> pending i = (y, c) :: todo ->
  node w i = Some x -> node w j = Some y -> (y, c) ∈ arcs x -> V w i < INF -> V w i + c < G w j ->
  (forall k, node w' k = node w k) -> (forall k, G w' k = upd (G w) j (V w i + c) k) -> (forall k, V w' k = V w k) ->
  (forall k, best w' k = upd (best w) j (Some i) k) -> (forall k, closed w' k = closed w k) ->
  open w' = (if closed w j then open w else <[j := Keys.mkKey (V w i + c + f y) 0]> (open w)) ->
  incons w' = (if closed w j then if bool_decide (j ∈ incons w) then incons w else j :: incons w else incons w) ->
  good w' (upd pending i todo).
Proof using Hpos Hcost Hfit Hf.
  intros I Hp Hi Hj Hy Hv Hlt En Eg Ev Eb Ec Eo Ei. pose proof (Hpos _ _ _ Hy) as Hc.
  pose proof (gd_le _ _ I i) as Hvi. pose proof (gd_le _ _ I j) as Hgj.
  assert (Hmono : forall k, G w' k <= G w k) by (intros k; rewrite Eg; unfold upd; destruct (decide (k = j)) as [->|]; lia).
  assert (Hjs : j <> start) by (intros ->; rewrite (gd_start0 _ _ I) in Hlt; lia).
  assert (Gj : G w' j = V w i + c) by (rewrite Eg; apply upd_eq).
  assert (Gk : forall k, k <> j -> G w' k = G w k) by (intros k Hk; rewrite Eg; apply upd_ne; exact Hk).
  assert (Hfin : V w i + c < INF) by (pose proof (V_fits _ _ I i Hv); lia).
  split.
  - rewrite En. apply (gd_start _ _ I).
  - rewrite Gk by congruence. apply (gd_start0 _ _ I).
  - intros a b z. rewrite !En. apply (gd_inj _ _ I).
  - intros k z. rewrite En. apply (gd_range _ _ I).
  - intros k. rewrite Ev. pose proof (gd_le _ _ I k). destruct (decide (k = j)) as [->|Hk]; [rewrite Gj|rewrite Gk by exact Hk]; lia.
  - intros k. rewrite En. destruct (decide (k = j)) as [->|Hk]; [eauto|rewrite Gk by exact Hk; apply (gd_known _ _ I)].
  - intros k Hk. destruct (decide (k = j)) as [->|Hkj].
    + rewrite Gj. destruct (gd_trailV _ _ I i Hv) as (l & Hnd & Hil & Hl & Hb). exists (i :: l).
      assert (Hle : forall k, k ∈ i :: l -> 0 <= k < max_id /\ G w k <= V w i).
      { intros k [->|Hin]%elem_of_cons; [|auto]. split; [eapply gd_range; eassumption|lia]. }
      split_and!; [constructor; assumption| |..].
      * intros Hin. apply Hle in Hin. lia.
      * intros k Hin. destruct (Hle k Hin). pose proof (Hmono k). lia.
      * cbn [length]. lia.
    + rewrite Gk in * by exact Hkj. eapply trail_weaken; [exact Hmono|apply (gd_trailG _ _ I); exact Hk].
  - intros k. rewrite Ev. intros Hk. eapply trail_weaken; [exact Hmono|apply (gd_trailV _ _ I); exact Hk].
  - intros k Hks Hk. rewrite Eb. destruct (decide (k = j)) as [->|Hkj].
    + rewrite upd_eq. exists i, c, x, y. rewrite !En, Ev, Gj. split_and!; auto; lia.
    + rewrite upd_ne by exact Hkj. rewrite Gk in * by exact Hkj. destruct (gd_tree _ _ I k Hks Hk) as (a & c' & x' & y' & H1 & H2 & H3 & H4 & H5).
      exists a, c', x', y'. rewrite !En, Ev. auto.
  - intros k x' y' c'. rewrite Ev, En. intros Hvk Hk Hy'. destruct (gd_closure _ _ I k x' y' c' Hvk Hk Hy') as [Hin|(k' & H1 & H2)].
    + destruct (decide (k = i)) as [->|Hne]; [|rewrite upd_ne by exact Hne; auto].
      rewrite upd_eq. rewrite Hp in Hin. apply elem_of_cons in Hin as [[= -> ->]|Hin]; [|auto].
      right. exists j. rewrite En, Gj. split; [exact Hj|lia].
    + right. exists k'. rewrite En. pose proof (Hmono k'). split; [exact H1|lia].
  - intros k key. rewrite Eo, Ec, En. unfold key_of. destruct (closed w j) eqn:Ecj.
    + intros Hk. destruct (gd_open _ _ I k key Hk) as (H1 & H2 & z & H3 & H4).
      assert (k <> j) by congruence. rewrite Gk by assumption. eauto.
    + intros [[<- <-]|[Hkj Hk]]%lookup_insert_Some.
      * rewrite Gj. split_and!; [lia|exact Ecj|]. exists y. auto.
      * rewrite Gk by congruence. apply (gd_open _ _ I). exact Hk.
  - intros k. rewrite Ei, Ec. destruct (closed w j) eqn:Ecj; [|apply (gd_incons _ _ I)].
    case_bool_decide; [apply (gd_incons _ _ I)|]. intros [->|Hk]%elem_of_cons; [exact Ecj|]. apply (gd_incons _ _ I). exact Hk.
  - intros k. rewrite Ev, Ec, Ei, Eo. intros Hk. destruct (decide (k = j)) as [->|Hkj].
    + destruct (closed w j); [case_bool_decide; [assumption|left]|]. eexists. apply lookup_insert_eq.
    + rewrite Gk in Hk by exact Hkj. pose proof (gd_queued _ _ I k Hk) as Hq. destruct (closed w k).
      * destruct (closed w j); [|exact Hq]. case_bool_decide; [exact Hq|right; exact Hq].
      * destruct (closed w j); [exact Hq|]. rewrite lookup_insert_ne by congruence. exact Hq.
  - intros k. rewrite Ec, Ev. apply (gd_closed _ _ I).
  - intros num den k z zs d. rewrite Ec, Ev, !En. apply (gd_bound _ _ I).
Qed.

(** The state with the least key is expanded. *)
Lemma expand_good w w' i key x : good w none -> open w !! i = Some key -> node w i = Some x ->
  (forall j key', open w !! j = Some key' -> Keys.key_0 key <= Keys.key_0 key') ->
  (forall k, node w' k = node w k) -> (forall k, G w' k = G w k) -> (forall k, V w' k = upd (V w) i (G w i) k) ->
  (forall k, best w' k = best w k) -> (forall k, closed w' k = upd (closed w) i true k) ->
  open w' = delete i (open w) -> incons w' = incons w -> good w' (upd none i (arcs x)).
Proof using Hpos Hcost Hfit Hf.
  intros I Hi Hx Hmin En Eg Ev Eb Ec Eo Ei. destruct (gd_open _ _ I i key Hi) as (Hgi & Hci & _).
  assert (Vk : forall k, V w' k <= V w k) by (intros k; rewrite Ev; unfold upd; destruct (decide (k = i)) as [->|]; [apply (gd_le _ _ I)|lia]).
  assert (Vi : V w' i = G w i) by (rewrite Ev; apply upd_eq).
  assert (Vn : forall k, k <> i -> V w' k = V w k) by (intros k Hk; rewrite Ev; apply upd_ne; exact Hk).
  assert (Cn : forall k, k <> i -> closed w' k = closed w k) by (intros k Hk; rewrite Ec; apply upd_ne; exact Hk).
  split.
  - rewrite En. apply (gd_start _ _ I).
  - rewrite Eg. apply (gd_start0 _ _ I).
  - intros a b z. rewrite !En. apply (gd_inj _ _ I).
  - intros k z. rewrite En. apply (gd_range _ _ I).
  - intros k. rewrite Eg. pose proof (gd_le _ _ I k). destruct (decide (k = i)) as [->|Hk]; [rewrite Vi|rewrite Vn by exact Hk]; lia.
  - intros k. rewrite Eg, En. apply (gd_known _ _ I).
  - intros k. rewrite Eg. intros Hk. eapply trail_weaken; [|apply (gd_trailG _ _ I); exact Hk]. intros j. rewrite Eg. lia.
  - intros k Hk. eapply trail_weaken; [intros j; rewrite Eg; reflexivity|]. destruct (decide (k = i)) as [->|Hne].
    + rewrite Vi. apply (gd_trailG _ _ I). exact Hgi.
    + rewrite Vn in * by exact Hne. apply (gd_trailV _ _ I). exact Hk.
  - intros k Hks Hk. rewrite Eg in *. destruct (gd_tree _ _ I k Hks Hk) as (a & c' & x' & y' & H1 & H2 & H3 & H4 & H5).
    exists a, c', x', y'. rewrite Eb, !En. pose proof (Vk a). split_and!; auto. lia.
  - intros k x' y' c' Hvk. rewrite En. intros Hk Hy. destruct (decide (k = i)) as [->|Hne].
    + rewrite upd_eq. left. congruence.
    + rewrite Vn in * by exact Hne. destruct (gd_closure _ _ I k x' y' c' Hvk Hk Hy) as [Hin|(k' & H1 & H2)]; [inversion Hin|].
      right. exists k'. rewrite En, Eg. auto.
  - intros k key'. rewrite Eo. intros [Hne Hk]%lookup_delete_Some. rewrite Eg, Cn, En by congruence. unfold key_of. rewrite Eg.
    apply (gd_open _ _ I). exact Hk.
  - intros k. rewrite Ei. intros Hk. destruct (decide (k = i)) as [->|Hne]; [rewrite Ec; apply upd_eq|].
    rewrite Cn by exact Hne. apply (gd_incons _ _ I). exact Hk.
  - intros k. rewrite Eg. intros Hk. destruct (decide (k = i)) as [->|Hne]; [lia|]. rewrite Vn in Hk by exact Hne.
    rewrite Cn, Ei, Eo by exact Hne. rewrite lookup_delete_ne by congruence. apply (gd_queued _ _ I). exact Hk.
  - intros k Hk. destruct (decide (k = i)) as [->|Hne]; [lia|]. rewrite Cn in Hk by exact Hne. rewrite Vn by exact Hne.
    apply (gd_closed _ _ I). exact Hk.
  - intros num den k z zs d F Hk. rewrite !En. intros Hz Hzs Hw. destruct (decide (k = i)) as [->|Hne].
    + rewrite Vi. eapply least_bound; eassumption.
    + rewrite Cn in Hk by exact Hne. rewrite Vn by exact Hne. eapply gd_bound; eassumption.
Qed.
End core.

(** ** A new iteration *)

(** INCONS is merged into OPEN, nothing is closed, the keys are those of [f']. *)
Lemma iterate_good {Node : Type} (arcs : Node -> list (Node * Z)) max_id max_cost start f f' (w w' : view) :
  good arcs max_id max_cost start f w none ->
  (forall k, node w' k = node w k) -> (forall k, G w' k = G w k) -> (forall k, V w' k = V w k) ->
  (forall k, best w' k = best w k) -> (forall k, closed w' k = false) -> incons w' = [] ->
  (forall k, (is_Some (open w !! k) \/ k ∈ incons w) <-> is_Some (open w' !! k)) ->
  (forall k key x, open w' !! k = Some key -> node w k = Some x -> key = Keys.mkKey (G w k + f' x) 0) ->
  good arcs max_id max_cost start f' w' none.
Proof.
  intros I En Eg Ev Eb Ec Ei Hd Hk. split; intros; rewrite ?En, ?Eg, ?Ev, ?Eb, ?Ec, ?Ei in *; try discriminate.
  - apply (gd_start _ _ _ _ _ _ _ I).
  - apply (gd_start0 _ _ _ _ _ _ _ I).
  - eapply gd_inj; eassumption.
  - eapply gd_range; eassumption.
  - apply (gd_le _ _ _ _ _ _ _ I).
  - eapply gd_known; eassumption.
  - eapply trail_weaken; [|eapply gd_trailG; eassumption]. intros j. rewrite Eg. lia.
  - eapply trail_weaken; [|eapply gd_trailV; eassumption]. intros j. rewrite Eg. lia.
  - destruct (gd_tree _ _ _ _ _ _ _ I k) as (j & c & x & y & H1 & H2 & H3 & H4 & H5); [assumption..|].
    exists j, c, x, y. rewrite En, Ev. auto.
  - destruct (gd_closure _ _ _ _ _ _ _ I j x y c) as [?|(k & ? & ?)]; [assumption..|auto|]. right. exists k. rewrite En, Eg. auto.
  - assert (HG : G w k < INF).
    { assert (is_Some (open w !! k) \/ k ∈ incons w) as [[key' Hk']|Hk'] by (apply Hd; eauto).
      - eapply gd_open; eassumption.
      - pose proof (gd_closed _ _ _ _ _ _ _ I k (gd_incons _ _ _ _ _ _ _ I k Hk')). pose proof (gd_le _ _ _ _ _ _ _ I k). lia. }
    split_and!; auto. destruct (gd_known _ _ _ _ _ _ _ I k HG) as [x Hx]. exists x. split; [exact Hx|].
    unfold key_of. rewrite Eg. eapply Hk; eassumption.
  - match goal with H : _ ∈ [] |- _ => inversion H end.
  - apply Hd. pose proof (gd_queued _ _ _ _ _ _ _ I k ltac:(assumption)) as Hq. destruct (closed w k); [auto|]. left. destruct Hq as [key ->]. eauto.
Qed.

(** The search begins. *)
Lemma initial_good {Node : Type} (arcs : Node -> list (Node * Z)) max_id max_cost start f (w : view) x :
  0 <= max_cost -> node w start = Some x ->
  (forall j k y, node w j = Some y -> node w k = Some y -> j = k) -> (forall k y, node w k = Some y -> 0 <= k < max_id) ->
  (forall k, G w k = if decide (k = start) then 0 else INF) -> (forall k, V w k = INF) -> (forall k, closed w k = false) ->
  open w = {[start := Keys.mkKey (f x) 0]} -> incons w = [] -> good arcs max_id max_cost start f w none.
Proof.
  intros Hc Hs Hinj Hr Eg Ev Ec Eo Ei.
  assert (Hfin : forall k, G w k < INF -> k = start) by (intros k; rewrite Eg; case_decide; [auto|lia]).
  assert (G0 : G w start = 0) by (rewrite Eg, decide_True; reflexivity).
  split; intros; rewrite ?Ev, ?Ec, ?Ei in *; try lia; try discriminate.
  - eauto.
  - eauto.
  - eauto.
  - rewrite Eg. unfold INF. case_decide; lia.
  - match goal with H : _ < INF |- _ => apply Hfin in H; subst end. eauto.
  - match goal with H : _ < INF |- _ => apply Hfin in H; subst end. exists []. split_and!; [constructor|intros H; inversion H|intros j H; inversion H|].
    rewrite G0. cbn. lia.
  - match goal with H : _ < INF |- _ => apply Hfin in H end. contradiction.
  - rewrite Eo in *. match goal with H : _ !! _ = Some _ |- _ => apply lookup_singleton_Some in H as [<- <-] end.
    split_and!; [rewrite G0; reflexivity|reflexivity|]. exists x. unfold key_of. rewrite G0. auto.
  - match goal with H : _ ∈ [] |- _ => inversion H end.
  - match goal with H : G w _ < INF |- _ => apply Hfin in H; subst end. rewrite Eo. eexists. apply lookup_singleton_eq.
Qed.
End AraCore.
