(* ===== verification/AraSpec.v ===== *)
(** * ARA* represents its search (src/libsbpl: araplanner.cpp)

    The array of states, the heap and the list of the planner as a [view] of
    AraCore.v, and what the operations on single states do to it. *)

From S2P Require Import Prelude.
From S2P Require Import Doubles.
From S2P Require Import Environment.
From S2P Require Import Keys.
From S2P Require Import SbplHeap.
From S2P Require Import SbplHeapSpec.
From S2P Require Import SbplList.
From S2P Require Import AraPlanner.
From S2P Require Import AraCore.

(** ** What the planner relies on *)

(** New states have no index yet, the others keep what they have. *)
Definition grown {E Node} {iops : IndexedEnvOps E} (node : E -> Z -> option Node) (e e' : E) : Prop :=
  (forall i x, node e i = Some x -> node e' i = Some x /\ index_get e' i = index_get e i) /\
  (forall i x, node e' i = Some x -> node e i = None -> index_get e' i = Ok (-1)).

(** [succ]: the moves; [arcs]: the arcs the search follows, the moves taken
    backwards when it runs from the goal; [root]: the state it starts from. *)
Class SearchEnvLaws {E : Type} {eops : EnvOps E} {iops : IndexedEnvOps E} {Node : Type} (fwd : bool)
    (succ arcs : Node -> list (Node * Z)) (heur : Node -> Z) (root : Node) (max_id max_cost : Z) := {
  se_inv : E -> Prop;
  se_node : E -> Z -> option Node;
  se_inj : forall e i j x, se_inv e -> se_node e i = Some x -> se_node e j = Some x -> i = j;
  se_range : forall e i x, se_inv e -> se_node e i = Some x -> 0 <= i < max_id;
  se_size : forall e i x, se_inv e -> se_node e i = Some x -> i < index_size e;
  se_arcs : forall e i x, se_inv e -> se_node e i = Some x -> exists ids costs e',
    (if fwd then env_succs e i else env_preds e i) = Ok (ids, costs, e') /\ se_inv e' /\ grown se_node e e' /\
    se_node e' <$> ids = Some ∘ fst <$> arcs x /\ costs = snd <$> arcs x;
  se_succs : forall e i x, se_inv e -> se_node e i = Some x -> exists ids costs e',
    env_succs e i = Ok (ids, costs, e') /\ se_inv e' /\ grown se_node e e' /\
    se_node e' <$> ids = Some ∘ fst <$> succ x /\ costs = snd <$> succ x;
  se_heur : forall e i x, se_inv e -> se_node e i = Some x ->
    (if fwd then env_goal_heuristic e i else env_start_heuristic e i) = Ok (heur x);
  se_ensure : forall e b, se_inv e -> exists e', env_ensure_heuristics e b = Ok e' /\ se_inv e' /\ grown se_node e e';
  se_set : forall e i x k, se_inv e -> se_node e i = Some x -> exists e', index_set e i k = Ok e' /\ se_inv e' /\
    (forall j, se_node e' j = se_node e j) /\ index_get e' i = Ok k /\
    (forall j y, se_node e j = Some y -> j <> i -> index_get e' j = index_get e j);
  se_cost : forall x y c, (y, c) ∈ arcs x -> 1 <= c <= max_cost;
  se_sound : forall x y c, (y, c) ∈ arcs x -> y <> root -> if fwd then (y, c) ∈ succ x else (x, c) ∈ succ y;
  se_complete : forall x y c, (y, c) ∈ succ x -> if fwd then (y, c) ∈ arcs x else (x, c) ∈ arcs y;
}.

(** No more states than the list of INCONS has room for; the longest path is
    cheaper than infinity. *)
Class AraBounds (max_id max_cost : Z) : Prop := {
  ab_ids : max_id <= 5000000;
  ab_cost : 0 <= max_cost;
  ab_fit : max_id * max_cost < 1000000000;
}.
Arguments se_inv {E eops iops Node} fwd succ arcs heur root {max_id max_cost _} e.
Arguments se_node {E eops iops Node} fwd succ arcs heur root {max_id max_cost _} e i.

Module AraSpec.
Import AraPlanner AraCore.
#[export] Existing Instance Keys.CKey_ops.
#[export] Existing Instance Keys.CKey_laws.

Section spec.
Context {E : Type} {eops : EnvOps E} {iops : IndexedEnvOps E}.
Context {Node : Type} {fwd : bool} {succ arcs : Node -> list (Node * Z)} {heur : Node -> Z} {root : Node} {max_id max_cost : Z}.
Context {laws : SearchEnvLaws (E := E) fwd succ arcs heur root max_id max_cost}.
Context {bounds : AraBounds max_id max_cost}.

Abbreviation planner := (ARAPlanner E).
Abbreviation env_inv := (se_inv fwd succ arcs heur root).
Abbreviation env_node := (se_node fwd succ arcs heur root).

Definition inflate (e : Doubles.double) (x : Node) : Z :=
  match Doubles.to_int (Doubles.mul e (Doubles.of_int (heur x))) with Ok k => k | Err _ => 0 end.

(** Inflated heuristics are integers that leave room for the costs. *)
Definition eps_ok (e : Doubles.double) : Prop := forall x,
  Doubles.to_int (Doubles.mul e (Doubles.of_int (heur x))) = Ok (inflate e x) /\
  0 <= inflate e x /\ inflate e x + max_id * max_cost < INF.

(** ** Views *)

Abbreviation space := (pSearchStateSpace_ (E := E)).
Definition states (p : planner) : list ARAState := StateArray (pSearchStateSpace_ p).

(** The record of an index, and the one of the current call. *)
Definition rec (p : planner) (k : Z) : option ARAState := match aget (states p) k with Ok s => Some s | Err _ => None end.
Definition cur (p : planner) (k : Z) : option ARAState :=
  match rec p k with
  | Some s => if callnumberaccessed s =? callnumber (pSearchStateSpace_ p) then Some s else None
  | None => None
  end.
Definition node_of (p : planner) (k : Z) : option Node :=
  match rec p k with Some s => env_node (environment_ p) (StateID s) | None => None end.
Definition best_of (s : ARAState) : option Z := if fwd then bestpredstate s else bestnextstate s.

(** What an index contributes to the search at iteration [it]; a state of an
    earlier call has not been met yet. *)
Record values := mkValues { val_g : Z; val_v : Z; val_best : option Z; val_closed : bool }.
Definition no_values : values := mkValues INF INF None false.
Definition vals (it : Z) (p : planner) (k : Z) : values :=
  match cur p k with
  | Some s => mkValues (g s) (v s) (best_of s) (iterationclosed s =? it)
  | None => no_values
  end.

Definition view_of (it : Z) (p : planner) (m : gmap Z Keys.CKey) (q : list Z) : AraCore.view (Node := Node) := {|
  node := node_of p;
  G k := val_g (vals it p k);
  V k := val_v (vals it p k);
  best k := val_best (vals it p k);
  closed k := val_closed (vals it p k);
  open := m;
  incons := q;
|}.

Lemma rec_aget p k s : rec p k = Some s <-> aget (states p) k = Ok s.
Proof. unfold rec. destruct (aget (states p) k); split; congruence. Qed.

Lemma cur_rec p k s : cur p k = Some s <-> rec p k = Some s /\ callnumberaccessed s = callnumber (pSearchStateSpace_ p).
Proof.
  unfold cur. destruct (rec p k) as [s'|]; [|split; [discriminate|intros [[=] _]]].
  destruct (Z.eqb_spec (callnumberaccessed s') (callnumber (pSearchStateSpace_ p))) as [E1|E1].
  - split; [intros [= <-]; auto|]. intros [[= ->] _]. reflexivity.
  - split; [discriminate|]. intros [[= ->] ?]. contradiction.
Qed.

(** ** The representation *)

(** [m], [q]: the entries of the heap and of the list. *)
Record base (p : planner) (m : gmap Z Keys.CKey) (q : list Z) : Prop := {
  b_fwd : bforwardsearch p = fwd;
  b_env : env_inv (environment_ p);
  b_table : forall k s, rec p k = Some s -> exists x, env_node (environment_ p) (StateID s) = Some x /\
    index_get (environment_ p) (StateID s) = Ok k;
  b_index : forall id x, env_node (environment_ p) id = Some x -> exists k, index_get (environment_ p) id = Ok k /\
    (k = -1 \/ exists s, rec p k = Some s /\ StateID s = id);
  b_h : searchgoalstate (space p) <> None -> forall k s x, rec p k = Some s -> node_of p k = Some x -> h s = heur x;
  b_call : forall k s, rec p k = Some s -> 0 <= callnumberaccessed s <= callnumber (space p);
  b_callnumber : 0 <= callnumber (space p) < 2 ^ 16;
  b_iteration : 0 <= searchiteration (space p);
  b_closed : forall k s, cur p k = Some s -> 0 <= iterationclosed s <= searchiteration (space p);
  b_heap : SbplHeapSpec.rep (heap (space p)) (heapindices (space p)) m;
  b_noheap : forall k, m !! k = None -> SbplHeap.heapindex (heapindices (space p)) k = 0;
  b_list : SbplList.stands_for ARA_INCONS_LIST_ID (inconslist (space p), listmemory (space p)) q;
  b_open : forall k key, m !! k = Some key -> exists s, rec p k = Some s;
  b_incons : forall k, k ∈ q -> exists s, rec p k = Some s;
}.

(** What the operations on states leave alone. *)
Definition with_ (e : E) (hx : SbplHeap.CHeap Keys.CKey * SbplHeap.store) (lm : SbplList.CList * SbplList.memory)
    (l : list ARAState) (p : planner) : planner :=
  set_environment e (on_space (fun s => set_array l (set_incons lm (set_open hx s))) p).
Definition frame (p p' : planner) : Prop := exists e hx lm l, p' = with_ e hx lm l p.

#[export] Instance frame_preorder : PreOrder frame.
Proof.
  split.
  - intros p. exists (environment_ p), (heap (space p), heapindices (space p)), (inconslist (space p), listmemory (space p)), (states p).
    destruct p as [? [] ]. reflexivity.
  - intros p1 p2 p3 (e & hx & lm & l & ->) (e' & hx' & lm' & l' & ->). exists e', hx', lm', l'. reflexivity.
Qed.

(** The indices of the states do not change. *)
Definition extends (p p' : planner) : Prop :=
  frame p p' /\ forall k x, node_of p k = Some x -> node_of p' k = Some x.

#[export] Instance extends_preorder : PreOrder extends.
Proof.
  split; [split; [reflexivity|auto]|]. intros p1 p2 p3 [F1 H1] [F2 H2]. split; [etransitivity; eassumption|auto].
Qed.

Section base.
Context (p : planner) (m : gmap Z Keys.CKey) (q : list Z) (B : base p m q).

Lemma table_node k s : rec p k = Some s -> exists x, node_of p k = Some x.
Proof using B. intros Hk. destruct (b_table _ _ _ B k s Hk) as (x & Hx & _). exists x. unfold node_of. rewrite Hk. exact Hx. Qed.

Lemma node_rec k x : node_of p k = Some x -> exists s, rec p k = Some s /\ env_node (environment_ p) (StateID s) = Some x.
Proof. unfold node_of. destruct (rec p k) as [s|]; [eauto|discriminate]. Qed.

Lemma index_inj j k s t : rec p j = Some s -> rec p k = Some t -> StateID s = StateID t -> j = k.
Proof using B.
  intros Hj Hk Heq. destruct (b_table _ _ _ B j s Hj) as (_ & _ & E1). destruct (b_table _ _ _ B k t Hk) as (_ & _ & E2). congruence.
Qed.

Lemma node_of_inj j k x : node_of p j = Some x -> node_of p k = Some x -> j = k.
Proof using B.
  intros (s & Hs & Ej)%node_rec (t & Ht & Ek)%node_rec. apply (index_inj j k s t Hs Ht).
  eapply se_inj; [apply (b_env _ _ _ B)|eassumption..].
Qed.

(** Distinct states: there are at most as many as ids; one more if some id has
    none. *)
Lemma table_length : Z.of_nat (length (states p)) <= Z.max 0 max_id.
Proof using B.
  rewrite <- (length_fmap StateID (states p)). apply NoDup_range_length.
  - apply NoDup_alt. intros i j id Hi Hj. rewrite list_lookup_fmap in Hi, Hj.
    destruct (states p !! i) as [s|] eqn:Ei; [|discriminate]. destruct (states p !! j) as [t|] eqn:Ej; [|discriminate].
    cbn in Hi, Hj. injection Hi as Hi. injection Hj as Hj.
    assert (Z.of_nat i = Z.of_nat j) as ?%Nat2Z.inj; [|assumption].
    apply (index_inj _ _ s t); [apply rec_aget, aget_Ok; rewrite Nat2Z.id; auto with lia..|congruence].
  - intros id (s & -> & [i Hi]%list_elem_of_lookup_1)%list_elem_of_fmap.
    destruct (b_table _ _ _ B (Z.of_nat i) s) as (x & Hx & _); [apply rec_aget, aget_Ok; rewrite Nat2Z.id; auto with lia|].
    eapply se_range; [apply (b_env _ _ _ B)|exact Hx].
Qed.

Lemma table_room id x : env_node (environment_ p) id = Some x -> index_get (environment_ p) id = Ok (-1) ->
  Z.of_nat (length (states p)) < max_id.
Proof using B.
  intros Hx Hi. assert (Hl : Z.of_nat (length (id :: (StateID <$> states p))) <= Z.max 0 max_id).
  { assert (Hin : forall t, t ∈ StateID <$> states p -> exists y k, env_node (environment_ p) t = Some y /\ index_get (environment_ p) t = Ok k /\ 0 <= k).
    { intros t (s & -> & [i Hs]%list_elem_of_lookup_1)%list_elem_of_fmap.
      destruct (b_table _ _ _ B (Z.of_nat i) s) as (y & Hy & Hk); [apply rec_aget, aget_Ok; rewrite Nat2Z.id; auto with lia|]. exists y, (Z.of_nat i). auto with lia. }
    apply NoDup_range_length.
    - constructor.
      + intros (y & k & _ & Hk & H0)%Hin. rewrite Hi in Hk. injection Hk as <-. lia.
      + apply NoDup_alt. intros i j t Hti Htj. rewrite list_lookup_fmap in Hti, Htj.
        destruct (states p !! i) as [s|] eqn:Ei; [|discriminate]. destruct (states p !! j) as [s'|] eqn:Ej; [|discriminate].
        cbn in Hti, Htj. injection Hti as Hti. injection Htj as Htj.
        assert (Z.of_nat i = Z.of_nat j) as ?%Nat2Z.inj; [|assumption].
        apply (index_inj _ _ s s'); [apply rec_aget, aget_Ok; rewrite Nat2Z.id; auto with lia..|congruence].
    - intros t [->|(y & k & Hy & _)%Hin]%elem_of_cons; (eapply se_range; [apply (b_env _ _ _ B)|eassumption]). }
  cbn [length] in Hl. rewrite length_fmap in Hl. pose proof (se_range _ _ _ (b_env _ _ _ B) Hx). lia.
Qed.
End base.

(** ** Writing states *)

Definition put (i : Z) (s : ARAState) (p : planner) : planner := on_space (set_array (<[Z.to_nat i := s]> (states p))) p.

Lemma state_at_rec (p : planner) i s : rec p i = Some s -> state_at p i = Ok s.
Proof. apply rec_aget. Qed.

Lemma rec_range p i s : rec p i = Some s -> 0 <= i < Z.of_nat (length (states p)).
Proof. intros Hi%rec_aget. eapply aget_bounds. exact Hi. Qed.

Lemma write_state_ok (p : planner) i (u : ARAState -> ARAState) s : rec p i = Some s -> write_state i u p = Ok (put i (u s) p).
Proof.
  intros Hi. unfold write_state. rewrite (state_at_rec _ _ _ Hi), bind_ok_l, aset_in by (eapply rec_range; exact Hi). reflexivity.
Qed.

Lemma rec_put p i s s0 k : rec p i = Some s0 -> rec (put i s p) k = if decide (k = i) then Some s else rec p k.
Proof.
  intros Hi. unfold rec at 1, put. unfold states at 1. cbn. rewrite aget_insert by (eapply rec_range; exact Hi).
  case_decide; reflexivity.
Qed.

Lemma node_of_put p i s s0 k : rec p i = Some s0 -> StateID s = StateID s0 -> node_of (put i s p) k = node_of p k.
Proof.
  intros Hi Hid. unfold node_of. rewrite (rec_put _ _ _ _ _ Hi). case_decide as Hk; [subst; rewrite Hi, Hid|]; reflexivity.
Qed.

Lemma cur_put p i s s0 k : rec p i = Some s0 -> callnumberaccessed s = callnumber (space p) ->
  cur (put i s p) k = if decide (k = i) then Some s else cur p k.
Proof.
  intros Hi Hc. unfold cur. rewrite (rec_put _ _ _ _ _ Hi). change (callnumber (space (put i s p))) with (callnumber (space p)).
  case_decide; [rewrite Hc, Z.eqb_refl|]; reflexivity.
Qed.

Lemma frame_put p i s : frame p (put i s p).
Proof.
  exists (environment_ p), (heap (space p), heapindices (space p)), (inconslist (space p), listmemory (space p)), (<[Z.to_nat i := s]> (states p)).
  destruct p as [? [] ]. reflexivity.
Qed.

Lemma extends_put p i s s0 : rec p i = Some s0 -> StateID s = StateID s0 -> extends p (put i s p).
Proof. intros Hi Hid. split; [apply frame_put|]. intros k x. rewrite (node_of_put _ _ _ _ _ Hi Hid). auto. Qed.

Lemma base_put p m q i s s0 : base p m q -> rec p i = Some s0 -> StateID s = StateID s0 ->
  0 <= callnumberaccessed s <= callnumber (space p) ->
  (callnumberaccessed s = callnumber (space p) -> 0 <= iterationclosed s <= searchiteration (space p)) ->
  (searchgoalstate (space p) <> None -> forall x, node_of p i = Some x -> h s = heur x) -> base (put i s p) m q.
Proof.
  intros B Hi Hid Hc Hit Hh. pose proof (fun k => rec_put p i s s0 k Hi) as Er.
  split; try (intros; first [exact (b_fwd _ _ _ B)|exact (b_env _ _ _ B)|exact (b_callnumber _ _ _ B)|exact (b_iteration _ _ _ B)|exact (b_heap _ _ _ B)|
    exact (b_noheap _ _ _ B _ ltac:(eassumption))|exact (b_list _ _ _ B)]; fail).
  - intros k t. rewrite Er. case_decide as Hk; [intros [= <-]; subst; rewrite Hid|]; apply (b_table _ _ _ B); assumption.
  - intros id x Hx. destruct (b_index _ _ _ B id x Hx) as (k & Hk & Hr). exists k. split; [exact Hk|].
    destruct Hr as [?|(t & Ht & Hst)]; [auto|]. right. rewrite Er. case_decide; [|eauto]. subst. exists s. split; [reflexivity|]. congruence.
  - intros Hg k t x. rewrite Er, (node_of_put _ _ _ _ _ Hi Hid). case_decide; [intros [= <-]; subst; auto|]. apply (b_h _ _ _ B). exact Hg.
  - intros k t. rewrite Er. case_decide; [intros [= <-]; exact Hc|]. apply (b_call _ _ _ B).
  - intros k t [Hk Hct]%cur_rec. rewrite Er in Hk. destruct (decide (k = i)) as [->|]; [injection Hk as <-; auto|].
    apply (b_closed _ _ _ B k). apply cur_rec. auto.
  - intros k key Hk. rewrite Er. case_decide; [eauto|]. eapply b_open; eassumption.
  - intros k Hk. rewrite Er. case_decide; [eauto|]. eapply b_incons; eassumption.
Qed.

(** ** Initialising states *)

Definition memory_without (i : Z) (lm : SbplList.memory) : SbplList.memory :=
  SbplList.mkMemory (SbplList.elements lm) (SbplList.brk lm) (delete (i, ARA_INCONS_LIST_ID) (SbplList.listelem lm)).

Definition fresh_state (id call hv : Z) : ARAState := mkARAState id INFINITECOST INFINITECOST 0 call None None INFINITECOST hv.

(** The planner after [InitializeSearchStateInfo]. *)
Definition initialised (i : Z) (s : ARAState) (p : planner) : planner :=
  with_ (environment_ p) (heap (space p), <[i := 0]> (heapindices (space p))) (inconslist (space p), memory_without i (listmemory (space p)))
    (<[Z.to_nat i := s]> (states p)) p.

Definition start_h (p : planner) (x : Node) : Z := match searchgoalstate (space p) with Some _ => heur x | None => 0 end.

Lemma ComputeHeuristic_ok (p : planner) id x : bforwardsearch p = fwd -> env_inv (environment_ p) -> env_node (environment_ p) id = Some x ->
  ComputeHeuristic id p = Ok (heur x).
Proof. intros Hf I Hx. unfold ComputeHeuristic. rewrite Hf. eapply se_heur; eassumption. Qed.

Lemma Initialize_run p i s x : bforwardsearch p = fwd -> env_inv (environment_ p) -> rec p i = Some s ->
  env_node (environment_ p) (StateID s) = Some x ->
  InitializeSearchStateInfo i p = Ok (initialised i (fresh_state (StateID s) (callnumber (space p)) (start_h p x)) p).
Proof.
  intros Hf I Hi Hx. unfold InitializeSearchStateInfo. rewrite (write_state_ok _ _ _ _ Hi), bind_ok_l.
  set (s1 := mkARAState _ _ _ _ _ _ _ _ _). pose proof (rec_put p i s1 s i Hi) as H1. rewrite decide_True in H1 by reflexivity.
  match goal with |- context [state_at ?P i] => set (p3 := P) end.
  assert (H3 : rec p3 i = Some s1) by exact H1.
  rewrite (state_at_rec _ _ _ H3), bind_ok_l. cbn [StateID s1].
  assert (Hc : match searchgoalstate (space p) with Some _ => ComputeHeuristic (StateID s) p3 | None => Ok 0 end = Ok (start_h p x)).
  { unfold start_h. destruct (searchgoalstate (space p)); [|reflexivity]. apply (ComputeHeuristic_ok p3); assumption. }
  rewrite Hc, bind_ok_l, (write_state_ok _ _ _ _ H3). f_equal. unfold put, p3, initialised, with_, put, states.
  pose proof (rec_range _ _ _ Hi). destruct p as [? [] ]. cbn. rewrite list_insert_insert_eq. reflexivity.
Qed.

(** A state in neither queue loses no entry. *)
Lemma queues_initialised p m q i : SbplHeapSpec.rep (heap (space p)) (heapindices (space p)) m ->
  (forall k, m !! k = None -> SbplHeap.heapindex (heapindices (space p)) k = 0) ->
  SbplList.stands_for ARA_INCONS_LIST_ID (inconslist (space p), listmemory (space p)) q -> m !! i = None -> i ∉ q ->
  SbplHeapSpec.rep (heap (space p)) (<[i := 0]> (heapindices (space p))) m /\
  (forall k, m !! k = None -> SbplHeap.heapindex (<[i := 0]> (heapindices (space p))) k = 0) /\
  SbplList.stands_for ARA_INCONS_LIST_ID (inconslist (space p), memory_without i (listmemory (space p))) q.
Proof.
  intros R N S Hm Hq. split; [apply SbplHeapSpec.rep_index0; assumption|]. split.
  - intros k Hk. rewrite SbplHeapSpec.heapindex_insert. case_decide; [reflexivity|auto].
  - pose proof (SbplList.stands_in _ _ _ _ S i) as Hin. rewrite bool_decide_eq_false_2 in Hin by exact Hq. unfold SbplList.in_ in Hin.
    unfold memory_without. destruct (SbplList.listelem _ !! _) eqn:El; [discriminate|]. rewrite delete_id by exact El.
    destruct (listmemory (space p)). exact S.
Qed.

Lemma base_initialised p m q i s0 x : base p m q -> rec p i = Some s0 -> node_of p i = Some x -> m !! i = None -> i ∉ q ->
  base (initialised i (fresh_state (StateID s0) (callnumber (space p)) (start_h p x)) p) m q.
Proof.
  intros B Hi Hx Hm Hq. set (s := fresh_state _ _ _).
  assert (B1 : base (put i s p) m q).
  { apply (base_put _ _ _ _ _ s0); auto; cbn; [pose proof (b_callnumber _ _ _ B); lia|pose proof (b_iteration _ _ _ B); lia|].
    intros Hg y Hy. unfold start_h. destruct (searchgoalstate (space p)); [congruence|contradiction]. }
  destruct (queues_initialised p m q i (b_heap _ _ _ B) (b_noheap _ _ _ B) (b_list _ _ _ B) Hm Hq) as (R & N & S).
  split; [exact (b_fwd _ _ _ B)|exact (b_env _ _ _ B)|exact (b_table _ _ _ B1)|exact (b_index _ _ _ B1)|exact (b_h _ _ _ B1)|
    exact (b_call _ _ _ B1)|exact (b_callnumber _ _ _ B)|exact (b_iteration _ _ _ B)|exact (b_closed _ _ _ B1)|exact R|exact N|exact S|exact (b_open _ _ _ B1)|exact (b_incons _ _ _ B1)].
Qed.

Lemma rec_initialised p i s s0 k : rec p i = Some s0 -> rec (initialised i s p) k = if decide (k = i) then Some s else rec p k.
Proof. exact (rec_put p i s s0 k). Qed.

(** A fresh state looks as if it had not been met. *)
Lemma vals_fresh it p k id call hv : 1 <= it -> cur p k = Some (fresh_state id call hv) -> vals it p k = no_values.
Proof.
  intros Hit Hc. unfold vals. rewrite Hc. rewrite (proj2 (Z.eqb_neq (iterationclosed _) it)) by (cbn; lia).
  unfold best_of. destruct fwd; reflexivity.
Qed.

Lemma vals_initialised it p i s0 id hv k : rec p i = Some s0 -> cur p i = None -> 1 <= it ->
  vals it (initialised i (fresh_state id (callnumber (space p)) hv) p) k = vals it p k.
Proof.
  intros Hi Hc Hit. set (s := fresh_state _ _ _). set (p' := initialised i s p).
  assert (E1 : cur p' k = if decide (k = i) then Some s else cur p k) by (apply (cur_put p i s s0 k Hi); reflexivity).
  destruct (decide (k = i)) as [->|Hk].
  - rewrite (vals_fresh it p' i _ _ _ Hit E1). unfold vals. rewrite Hc. reflexivity.
  - unfold vals. rewrite E1. reflexivity.
Qed.

Lemma extends_initialised p i s s0 : rec p i = Some s0 -> StateID s = StateID s0 -> extends p (initialised i s p).
Proof.
  intros Hi Hid. split; [eexists _, _, _, _; reflexivity|]. intros k x.
  change (node_of (initialised i s p) k) with (node_of (put i s p) k). rewrite (node_of_put _ _ _ _ _ Hi Hid). auto.
Qed.

(** Nothing the search knows has changed. *)
Definition unchanged (it : Z) (p p' : planner) : Prop :=
  extends p p' /\ heap (space p') = heap (space p) /\ (forall k, vals it p' k = vals it p k) /\
  forall k, is_Some (cur p k) -> is_Some (cur p' k).

#[export] Instance unchanged_preorder it : PreOrder (unchanged it).
Proof.
  split; [intros p; split; [reflexivity|]; auto|]. intros p1 p2 p3 (X1 & H1 & V1 & C1) (X2 & H2 & V2 & C2).
  split_and!; [etransitivity; eassumption|congruence| |auto]. intros k. rewrite V2. apply V1.
Qed.

Lemma refresh_ok it p m q i s0 x : base p m q -> rec p i = Some s0 -> node_of p i = Some x -> 1 <= it ->
  (cur p i = None -> m !! i = None /\ i ∉ q) ->
  exists p' s, refresh i p = Ok p' /\ base p' m q /\ unchanged it p p' /\ environment_ p' = environment_ p /\ cur p' i = Some s.
Proof.
  intros B Hi Hx Hit Hq. unfold refresh. rewrite (state_at_rec _ _ _ Hi), bind_ok_l.
  destruct (Z.eqb_spec (callnumberaccessed s0) (callnumber (space p))) as [Ec|Ec]; cbn [negb].
  - exists p, s0. split; [reflexivity|]. split; [exact B|]. split; [reflexivity|]. split; [reflexivity|]. apply cur_rec. auto.
  - assert (Hc : cur p i = None).
    { destruct (cur p i) as [s|] eqn:Es; [|reflexivity]. apply cur_rec in Es as [E1 E2]. congruence. }
    destruct (Hq Hc) as [Hm Hnq]. destruct (node_rec p i x Hx) as (s1 & E1 & Hs1). rewrite Hi in E1. injection E1 as <-.
    rewrite (Initialize_run p i s0 x (b_fwd _ _ _ B) (b_env _ _ _ B) Hi Hs1).
    eexists _, _. split; [reflexivity|]. split; [eapply base_initialised; eassumption|]. split; [split; [|split; [|split]]|].
    + eapply extends_initialised; [exact Hi|reflexivity].
    + reflexivity.
    + intros k. apply (vals_initialised _ _ _ s0); assumption.
    + intros k Hk. change (cur (initialised i (fresh_state (StateID s0) (callnumber (space p)) (start_h p x)) p) k) with
        (cur (put i (fresh_state (StateID s0) (callnumber (space p)) (start_h p x)) p) k).
      rewrite (cur_put _ _ _ _ _ Hi) by reflexivity. destruct (decide (k = i)); eauto.
    + split; [reflexivity|]. apply cur_rec. rewrite (rec_initialised _ _ _ _ _ Hi), decide_True by reflexivity. auto.
Qed.

(** ** Creating states *)

Definition added (id : Z) (e : E) (p : planner) : planner :=
  set_environment e (on_space (fun s => set_array (StateArray s ++ [mkARAState id 0 0 0 0 None None 0 0]) s) p).

Lemma rec_added id e p k : rec (added id e p) k =
  if decide (k = Z.of_nat (length (states p))) then Some (mkARAState id 0 0 0 0 None None 0 0) else rec p k.
Proof.
  unfold rec, states, added. cbn. set (l := StateArray (space p)). unfold aget. destruct (Z.leb_spec 0 k); case_decide as Hk; subst; try lia; auto.
  - rewrite Nat2Z.id, list_lookup_middle; reflexivity.
  - destruct (decide (Z.to_nat k < length l)%nat).
    + rewrite lookup_app_l by assumption. reflexivity.
    + rewrite !lookup_ge_None_2; [reflexivity|lia|rewrite length_app; cbn; lia].
Qed.

Lemma CreateState_ok it p m q id x : base p m q -> env_node (environment_ p) id = Some x ->
  index_get (environment_ p) id = Ok (-1) -> 1 <= it ->
  exists k p', CreateState id p = Ok (k, p') /\ base p' m q /\ unchanged it p p' /\ node_of p' k = Some x /\
    forall j, env_node (environment_ p') j = env_node (environment_ p) j.
Proof using bounds.
  intros B Hx Hidx Hit. pose proof (table_room p m q B id x Hx Hidx) as Hroom. pose proof ab_ids as Hids. set (n := Z.of_nat (length (states p))).
  unfold CreateState. change (StateArray (space p)) with (states p). fold n.
  rewrite (proj2 (Z.ltb_ge _ _)) by (unfold MAXSTATESPACESIZE; lia).
  destruct (se_set (environment_ p) id x n (b_env _ _ _ B) Hx) as (e' & Es & I' & Hn' & Hnew & Hother).
  cbn [environment_ on_space set_space]. rewrite Es, bind_ok_l.
  match goal with |- context [InitializeSearchStateInfo n ?P] => change P with (added id e' p) end.
  set (p1 := added id e' p). assert (H1 : forall k, rec p1 k = if decide (k = n) then Some (mkARAState id 0 0 0 0 None None 0 0) else rec p k)
    by (intros k; apply rec_added).
  assert (Hn : rec p1 n = Some (mkARAState id 0 0 0 0 None None 0 0)) by (rewrite H1, decide_True; reflexivity).
  assert (Hnone : rec p n = None).
  { destruct (rec p n) as [s|] eqn:Er; [|reflexivity]. apply rec_range in Er. unfold n in Er. lia. }
  assert (Hx1 : env_node (environment_ p1) id = Some x) by (cbn; rewrite Hn'; exact Hx).
  rewrite (Initialize_run p1 n _ x (b_fwd _ _ _ B) I' Hn Hx1), bind_ok_l. cbn [StateID].
  assert (Hmn : m !! n = None) by (destruct (m !! n) eqn:Em; [destruct (b_open _ _ _ B _ _ Em); congruence|reflexivity]).
  assert (Hqn : n ∉ q) by (intros Hin; destruct (b_incons _ _ _ B _ Hin); congruence).
  set (s := fresh_state id (callnumber (space p1)) (start_h p1 x)). set (p2 := initialised n s p1).
  assert (H2 : forall k, rec p2 k = if decide (k = n) then Some s else rec p k).
  { intros k. unfold p2. rewrite (rec_initialised _ _ _ _ _ Hn), H1. case_decide; reflexivity. }
  assert (Hold : forall k s0, rec p k = Some s0 -> k <> n) by (intros k s0 Hk ->; congruence).
  assert (Hnid : forall k s0, rec p k = Some s0 -> StateID s0 <> id).
  { intros k s0 Hk Heq. destruct (b_table _ _ _ B k s0 Hk) as (_ & _ & E1). rewrite Heq, Hidx in E1. apply rec_range in Hk. injection E1 as <-. lia. }
  assert (Hnode : forall k, node_of p2 k = if decide (k = n) then Some x else node_of p k).
  { intros k. unfold node_of. rewrite H2. case_decide; [cbn; rewrite Hn'; exact Hx|]. destruct (rec p k); [cbn; apply Hn'|reflexivity]. }
  destruct (queues_initialised p1 m q n (b_heap _ _ _ B) (b_noheap _ _ _ B) (b_list _ _ _ B) Hmn Hqn) as (R & N & S).
  exists n, p2. split; [reflexivity|]. split; [|split; [|split; [rewrite Hnode, decide_True; reflexivity|exact Hn']]].
  - split.
    + exact (b_fwd _ _ _ B).
    + exact I'.
    + intros k t. rewrite H2. case_decide as Hk.
      * intros [= <-]. subst k. exists x. cbn. rewrite Hn'. auto.
      * intros Hr. destruct (b_table _ _ _ B k t Hr) as (y & Hy & Hi). exists y. cbn. rewrite Hn'. split; [exact Hy|].
        rewrite (Hother _ y) by (eauto using Hnid). exact Hi.
    + intros j y. cbn. rewrite Hn'. intros Hy. destruct (decide (j = id)) as [->|Hj].
      * exists n. split; [exact Hnew|]. right. exists s. rewrite H2, decide_True by reflexivity. auto.
      * rewrite (Hother j y Hy Hj). destruct (b_index _ _ _ B j y Hy) as (k & Hk & Hr). exists k. split; [exact Hk|].
        destruct Hr as [?|(t & Ht & Hst)]; [auto|]. right. exists t. rewrite H2, decide_False by eauto. auto.
    + intros Hg k t y. rewrite H2, Hnode. case_decide as Hk; [|apply (b_h _ _ _ B); exact Hg].
      intros [= <-] [= <-]. cbn. unfold start_h. cbn in *. destruct (searchgoalstate (space p)); [reflexivity|contradiction].
    + intros k t. rewrite H2. case_decide; [intros [= <-]; cbn; pose proof (b_callnumber _ _ _ B); lia|apply (b_call _ _ _ B)].
    + exact (b_callnumber _ _ _ B).
    + exact (b_iteration _ _ _ B).
    + intros k t [Hr Hc]%cur_rec. rewrite H2 in Hr. destruct (decide (k = n)); [injection Hr as <-; cbn; pose proof (b_iteration _ _ _ B); lia|].
      apply (b_closed _ _ _ B k). apply cur_rec. auto.
    + exact R.
    + exact N.
    + exact S.
    + intros k key Hk. rewrite H2. case_decide; [eauto|]. eapply b_open; eassumption.
    + intros k Hk. rewrite H2. case_decide; [eauto|]. eapply b_incons; eassumption.
  - assert (E2 : forall k, cur p2 k = if decide (k = n) then Some s else cur p k).
    { intros k. unfold cur. rewrite H2. change (callnumber (space p2)) with (callnumber (space p)).
      destruct (decide (k = n)); [cbn; rewrite Z.eqb_refl|]; reflexivity. }
    split; [split|split; [reflexivity|split]].
    + exists e', (heap (space p), <[n := 0]> (heapindices (space p))), (inconslist (space p), memory_without n (listmemory (space p))), (states p2).
      reflexivity.
    + intros k y Hy. rewrite Hnode. destruct (node_rec p k y Hy) as (t & Ht & _). rewrite decide_False by eauto. exact Hy.
    + intros k. specialize (E2 k). destruct (decide (k = n)) as [->|Hk]; [|unfold vals; rewrite E2; reflexivity].
      rewrite (vals_fresh it p2 n _ _ _ Hit E2). unfold vals, cur. rewrite Hnone. reflexivity.
    + intros k Hk. rewrite E2. destruct (decide (k = n)); eauto.
Qed.

Lemma ara_GetState_ok it p m q id x : base p m q -> env_node (environment_ p) id = Some x -> 1 <= it ->
  exists k p', GetState id p = Ok (k, p') /\ base p' m q /\ unchanged it p p' /\ node_of p' k = Some x /\
    forall j, env_node (environment_ p') j = env_node (environment_ p) j.
Proof using bounds.
  intros B Hx Hit. unfold GetState. pose proof (se_size _ _ _ (b_env _ _ _ B) Hx) as Hsz.
  rewrite (proj2 (Z.leb_gt _ _)) by exact Hsz. destruct (b_index _ _ _ B id x Hx) as (k & Hk & Hr). rewrite Hk, bind_ok_l.
  destruct (Z.eqb_spec k (-1)) as [->|Hne]; [apply CreateState_ok; assumption|].
  destruct Hr as [?|(s & Hs & Hid)]; [contradiction|]. rewrite (state_at_rec _ _ _ Hs), bind_ok_l.
  exists k, p. split; [reflexivity|]. split; [exact B|]. split; [reflexivity|]. split; [|reflexivity].
  unfold node_of. rewrite Hs, Hid. exact Hx.
Qed.
End spec.
End AraSpec.
