(* ===== verification/AraImprove.v ===== *)
(** * The search of ARA* at one value of eps (src/libsbpl: araplanner.cpp)

    [UpdateSuccs], [UpdatePreds] and [ImprovePath] keep the invariant of
    AraCore.v; [ImprovePath] ends with a path within the factor, with the proof
    that there is none, or because the time is over. *)

From S2P Require Import Prelude.
From S2P Require Import Doubles.
From S2P Require Import Environment.
From S2P Require Import Keys.
From S2P Require Import SbplHeap.
From S2P Require Import SbplHeapSpec.
From S2P Require Import SbplList.
From S2P Require Import AraPlanner.
From S2P Require Import AraCore.
From S2P Require Import AraSpec.

Module AraImprove.
Import AraPlanner AraCore AraSpec.

Section improve.
Context {E : Type} {eops : EnvOps E} {iops : IndexedEnvOps E}.
Context {Node : Type} {fwd : bool} {succ arcs : Node -> list (Node * Z)} {heur : Node -> Z} {root : Node} {max_id max_cost : Z}.
Context {laws : SearchEnvLaws (E := E) fwd succ arcs heur root max_id max_cost} {bounds : AraBounds max_id max_cost}.

Abbreviation planner := (ARAPlanner E).
Abbreviation space := (pSearchStateSpace_ (E := E)).
Abbreviation env_node := (se_node fwd succ arcs heur root).
Abbreviation base := (AraSpec.base (E := E) (fwd := fwd) (succ := succ) (arcs := arcs) (heur := heur) (root := root) (max_id := max_id) (max_cost := max_cost)).
Abbreviation node_of := (AraSpec.node_of (E := E) (fwd := fwd) (succ := succ) (arcs := arcs) (heur := heur) (root := root) (max_id := max_id) (max_cost := max_cost)).
Abbreviation view_of := (AraSpec.view_of (E := E) (fwd := fwd) (succ := succ) (arcs := arcs) (heur := heur) (root := root) (max_id := max_id) (max_cost := max_cost)).
Abbreviation extends := (AraSpec.extends (E := E) (fwd := fwd) (succ := succ) (arcs := arcs) (heur := heur) (root := root) (max_id := max_id) (max_cost := max_cost)).
Abbreviation inflate := (AraSpec.inflate (heur := heur)).
Abbreviation eps_ok := (AraSpec.eps_ok (heur := heur) (max_id := max_id) (max_cost := max_cost)).
Abbreviation vals := (AraSpec.vals (E := E) (fwd := fwd)).
Abbreviation good := (AraCore.good arcs max_id max_cost).
Abbreviation percolates p := (SbplHeap.percolates (heap (space p))).

Lemma bound_cost : 0 <= max_cost. Proof using bounds. apply ab_cost. Qed.
Lemma bound_fit : max_id * max_cost < INF. Proof using bounds. apply ab_fit. Qed.
Lemma arc_cost x y c : (y, c) ∈ arcs x -> 1 <= c <= max_cost. Proof using laws. apply se_cost. Qed.
Lemma inflate_fits e : eps_ok e -> forall x, 0 <= inflate e x /\ inflate e x + max_id * max_cost < INF. Proof. intros H x. apply H. Qed.

Lemma node_range p m q k x : base p m q -> node_of p k = Some x -> 0 <= k < max_id.
Proof.
  intros B Hk. destruct (node_rec p k x Hk) as (s & Hs & _). apply rec_range in Hs. pose proof (table_length p m q B). lia.
Qed.

(** ** The sizes of the queues *)

Lemma indices_few p m q (l : list Z) : base p m q -> NoDup l -> (forall k, k ∈ l -> exists s, rec p k = Some s) ->
  Z.of_nat (length l) <= Z.max 0 max_id.
Proof.
  intros B Hn Hl. apply NoDup_range_length; [exact Hn|]. intros k Hk. destruct (Hl k Hk) as [s Hs].
  destruct (table_node _ _ _ B k s Hs) as [x Hx]. eapply node_range; eassumption.
Qed.

Lemma open_size p m q : base p m q -> Z.of_nat (size m) <= Z.max 0 max_id.
Proof.
  intros B. rewrite <- size_dom. apply (indices_few p m q (elements (dom m)) B); [apply NoDup_elements|].
  intros k Hk. apply elem_of_elements, elem_of_dom in Hk as [key Hk]. eapply b_open; eassumption.
Qed.

Lemma open_room p m q i s : base p m q -> rec p i = Some s -> m !! i = None -> SbplHeap.fullheap (heap (space p)) = false.
Proof using bounds.
  intros B Hi Hm. pose proof ab_ids. unfold SbplHeap.fullheap. apply Z.eqb_neq.
  rewrite <- (SbplHeapSpec.cells_size _ _ _ (proj1 (b_heap _ _ _ B))).
  pose proof (open_size p m q B). unfold SbplHeap.HEAPSIZE. lia.
Qed.

Lemma incons_room p m q i s : base p m q -> rec p i = Some s -> i ∉ q -> SbplList.currentsize (inconslist (space p)) < SbplList.LISTSIZE.
Proof using bounds.
  intros B Hi Hq. pose proof ab_ids. rewrite (SbplList.stands_size _ _ _ _ (b_list _ _ _ B)).
  pose proof (indices_few p m q (i :: q) B) as Hl. cbn [length] in Hl. unfold SbplList.LISTSIZE.
  assert (0 < max_id) by (destruct (table_node _ _ _ B i s Hi) as [x Hx]; pose proof (node_range _ _ _ _ _ B Hx); lia).
  enough (Z.of_nat (S (length q)) <= Z.max 0 max_id) by lia. apply Hl.
  - constructor; [exact Hq|]. exact (SbplList.stands_nodup _ _ _ _ (b_list _ _ _ B)).
  - intros k [->|Hk]%elem_of_cons; [eauto|]. eapply b_incons; eassumption.
Qed.

(** ** The queues of a planner replaced *)

Lemma base_heap p m q h ix m' : base p m q -> SbplHeapSpec.rep h ix m' ->
  (forall k, m' !! k = None -> SbplHeap.heapindex ix k = 0) -> (forall k key, m' !! k = Some key -> exists s, rec p k = Some s) ->
  base (on_space (set_open (h, ix)) p) m' q.
Proof.
  intros B R N O. split; [exact (b_fwd _ _ _ B)|exact (b_env _ _ _ B)|exact (b_table _ _ _ B)|exact (b_index _ _ _ B)|
    exact (b_h _ _ _ B)|exact (b_call _ _ _ B)|exact (b_callnumber _ _ _ B)|exact (b_iteration _ _ _ B)|exact (b_closed _ _ _ B)|exact R|exact N|exact (b_list _ _ _ B)|exact O|exact (b_incons _ _ _ B)].
Qed.

Lemma base_list p m q l lm q' : base p m q -> SbplList.stands_for ARA_INCONS_LIST_ID (l, lm) q' ->
  (forall k, k ∈ q' -> exists s, rec p k = Some s) -> base (on_space (set_incons (l, lm)) p) m q'.
Proof.
  intros B R O. split; [exact (b_fwd _ _ _ B)|exact (b_env _ _ _ B)|exact (b_table _ _ _ B)|exact (b_index _ _ _ B)|
    exact (b_h _ _ _ B)|exact (b_call _ _ _ B)|exact (b_callnumber _ _ _ B)|exact (b_iteration _ _ _ B)|exact (b_closed _ _ _ B)|exact (b_heap _ _ _ B)|exact (b_noheap _ _ _ B)|exact R|
    exact (b_open _ _ _ B)|exact O].
Qed.

Lemma extends_open p hx : extends p (on_space (set_open hx) p).
Proof.
  split; [|auto]. exists (environment_ p), hx, (inconslist (space p), listmemory (space p)), (StateArray (space p)).
  destruct p as [? [] ]. reflexivity.
Qed.

Lemma extends_incons p lm : extends p (on_space (set_incons lm) p).
Proof.
  split; [|auto]. exists (environment_ p), (heap (space p), heapindices (space p)), lm, (StateArray (space p)).
  destruct p as [? [] ]. reflexivity.
Qed.

Lemma insert_open p m q i s k : base p m q -> rec p i = Some s -> m !! i = None -> Keys.long_key (Keys.mkKey k 0) ->
  SbplHeapSpec.room (heap (space p)) 1 -> exists hx,
    SbplHeap.insertheap i (Keys.mkKey k 0) (heap (space p)) (heapindices (space p)) = Ok hx /\
    base (on_space (set_open hx) p) (<[i := Keys.mkKey k 0]> m) q /\
    percolates p <= SbplHeap.percolates (fst hx) <= percolates p + 24.
Proof using bounds.
  intros B Hi Hm Hk Hr.
  destruct (SbplHeapSpec.insertheap_ok i (Keys.mkKey k 0) _ _ m (b_heap _ _ _ B) Hm (b_noheap _ _ _ B i Hm) Hk
    (open_room p m q i s B Hi Hm) Hr) as (h' & ix' & E1 & R & F & P1 & P2).
  exists (h', ix'). split; [exact E1|]. split; [|cbn; lia]. apply (base_heap p m); auto.
  - intros j Hj. rewrite (F j Hj). apply (b_noheap _ _ _ B). apply lookup_insert_None in Hj. apply Hj.
  - intros j key [[<- _]|[_ Hj]]%lookup_insert_Some; [eauto|]. eapply b_open; eassumption.
Qed.

Lemma update_open p m q i key k : base p m q -> m !! i = Some key -> Keys.long_key (Keys.mkKey k 0) ->
  SbplHeapSpec.room (heap (space p)) 1 -> exists hx,
    SbplHeap.updateheap i (Keys.mkKey k 0) (heap (space p)) (heapindices (space p)) = Ok hx /\
    base (on_space (set_open hx) p) (<[i := Keys.mkKey k 0]> m) q /\
    percolates p <= SbplHeap.percolates (fst hx) <= percolates p + 24.
Proof.
  intros B Hi Hk Hr.
  destruct (SbplHeapSpec.updateheap_ok i key (Keys.mkKey k 0) _ _ m (b_heap _ _ _ B) Hi Hk Hr) as (h' & ix' & E1 & R & F & P1 & P2).
  exists (h', ix'). split; [exact E1|]. split; [|cbn; lia]. apply (base_heap p m); auto.
  - intros j Hj. rewrite (F j Hj). apply (b_noheap _ _ _ B). apply lookup_insert_None in Hj. apply Hj.
  - intros j key' [[<- _]|[_ Hj]]%lookup_insert_Some; eapply b_open; eassumption.
Qed.

Lemma insert_incons p m q i s : base p m q -> rec p i = Some s -> i ∉ q -> exists lm,
  SbplList.insert i ARA_INCONS_LIST_ID (inconslist (space p)) (listmemory (space p)) = Ok lm /\
  base (on_space (set_incons lm) p) m (i :: q).
Proof using bounds.
  intros B Hi Hq. pose proof (SbplList.insert_agrees _ _ _ _ (b_list _ _ _ B) i) as H.
  unfold SbplList.insert_spec in H. rewrite <- (SbplList.stands_size _ _ _ _ (b_list _ _ _ B)) in H.
  pose proof (incons_room p m q i s B Hi Hq). rewrite (proj2 (Z.leb_gt _ _)), bool_decide_eq_false_2 in H by assumption.
  unfold SbplList.agrees in H. destruct (SbplList.insert _ _ _ _) as [[l lm]|]; [|contradiction]. exists (l, lm). split; [reflexivity|].
  apply (base_list p m q); [exact B|exact H|]. intros k [->|Hk]%elem_of_cons; [eauto|]. eapply b_incons; eassumption.
Qed.

Lemma inheap_open p m q i : base p m q -> SbplHeap.inheap (heapindices (space p)) i = bool_decide (is_Some (m !! i)).
Proof.
  intros B. unfold SbplHeap.inheap. destruct (m !! i) as [key|] eqn:Em.
  - rewrite bool_decide_eq_true_2 by eauto. destruct (SbplHeapSpec.c_map _ _ _ (proj1 (b_heap _ _ _ B)) i key Em) as [Hr _].
    rewrite (proj2 (Z.eqb_neq _ _)) by lia. reflexivity.
  - rewrite bool_decide_eq_false_2 by (intros [? [=]]). rewrite (b_noheap _ _ _ B i Em). reflexivity.
Qed.

(** ** Queueing an improved state *)

Lemma fvalue_ok e s x : eps_ok e -> h s = heur x -> 0 <= g s < INF -> fvalue e s = Ok (g s + inflate e x).
Proof.
  intros He Hh Hg. destruct (He x) as (Hk & H0 & H1). unfold fvalue. rewrite Hh, Hk, bind_ok_l.
  apply Doubles.to_type_Ok in Hk as [_ Hk]. unfold int_min, int32, INF in *. cbn [int_max] in Hk.
  rewrite (to_uint_id (inflate e x)), to_uint_id by lia. reflexivity.
Qed.

Lemma long_fvalue e x b : eps_ok e -> 0 <= b < INF -> Keys.long_key (Keys.mkKey (b + inflate e x) 0).
Proof.
  intros He Hb. destruct (He x) as (Hk & H0 & H1). apply Doubles.to_type_Ok in Hk as [_ Hk].
  unfold Keys.long_key, int_min, int64, int32, INF in *. cbn [int_max Keys.key_0 Keys.key_1] in *. lia.
Qed.

(** OPEN and INCONS after [requeue]. *)
Definition open_after (e : Doubles.double) (closed : bool) (i : Z) (b : Z) (x : Node) (m : gmap Z Keys.CKey) : gmap Z Keys.CKey :=
  if closed then m else <[i := Keys.mkKey (b + inflate e x) 0]> m.
Definition incons_after (closed : bool) (i : Z) (q : list Z) : list Z :=
  if closed then if bool_decide (i ∈ q) then q else i :: q else q.

(** [p'] has other queues than [p] only, and counted at most [n] percolations. *)
Definition requeued (n : Z) (p p' : planner) : Prop :=
  extends p p' /\ states p' = states p /\ environment_ p' = environment_ p /\ percolates p <= percolates p' <= percolates p + n.

Lemma requeue_ok p m q i s x : base p m q -> rec p i = Some s -> h s = heur x -> 0 <= g s < INF -> eps_ok (eps (space p)) ->
  SbplHeapSpec.room (heap (space p)) 1 ->
  let c := iterationclosed s =? searchiteration (space p) in
  exists p', requeue i p = Ok p' /\ base p' (open_after (eps (space p)) c i (g s) x m) (incons_after c i q) /\ requeued 24 p p'.
Proof using bounds.
  intros B Hi Hh Hg He Hr c. unfold requeue. rewrite (state_at_rec _ _ _ Hi), bind_ok_l. fold c.
  assert (Hsame : requeued 24 p p) by (split_and!; [reflexivity..|lia|lia]).
  destruct c; cbn [negb open_after incons_after].
  - rewrite (SbplList.stands_in _ _ _ _ (b_list _ _ _ B)). case_bool_decide as Hq; cbn [negb]; [eauto|].
    destruct (insert_incons p m q i s B Hi Hq) as (lm & -> & B'). rewrite bind_ok_l. eexists. split; [reflexivity|]. split; [exact B'|].
    split_and!; [apply extends_incons|reflexivity..|cbn; lia|cbn; lia].
  - rewrite (fvalue_ok _ _ x He Hh Hg), bind_ok_l, (inheap_open _ _ _ _ B).
    pose proof (long_fvalue _ x _ He Hg) as Hk. case_bool_decide as Hm.
    + destruct Hm as [key Hm]. destruct (update_open p m q i key _ B Hm Hk Hr) as (hx & -> & B' & Hp). rewrite bind_ok_l.
      eexists. split; [reflexivity|]. split; [exact B'|]. split_and!; [apply extends_open|reflexivity..|cbn; lia|cbn; lia].
    + destruct (insert_open p m q i s (g s + inflate (eps (space p)) x) B Hi) as (hx & -> & B' & Hp); [destruct (m !! i); [destruct Hm; eauto|reflexivity]|exact Hk|exact Hr|].
      rewrite bind_ok_l. eexists. split; [reflexivity|]. split; [exact B'|]. split_and!; [apply extends_open|reflexivity..|cbn; lia|cbn; lia].
Qed.

(** ** One arc *)

(** [UpdateSuccs] and [UpdatePreds], of which the search uses one. *)
Definition update (i : Z) (ids costs : list Z) (p : planner) (k : Z) : res planner :=
  if fwd then update_succ i ids costs p k else update_pred i ids costs p k.
Definition improved (i c b : Z) (s : ARAState) : ARAState :=
  if fwd then set_pred i (set_g b s) else set_nextcost (to_uint c) (set_next i (set_g b s)).

Lemma improved_fields i c b s : StateID (improved i c b s) = StateID s /\ g (improved i c b s) = b /\ v (improved i c b s) = v s /\
  h (improved i c b s) = h s /\ iterationclosed (improved i c b s) = iterationclosed s /\
  callnumberaccessed (improved i c b s) = callnumberaccessed s /\ best_of (fwd := fwd) (improved i c b s) = Some i.
Proof. unfold improved, best_of. destruct fwd; split_and!; reflexivity. Qed.

Lemma update_run i ids costs p k id c j p1 p2 si sj : aget ids k = Ok id -> aget costs k = Ok c -> GetState id p = Ok (j, p1) ->
  refresh j p1 = Ok p2 -> rec p2 i = Some si -> rec p2 j = Some sj -> 0 <= c -> 0 <= v si -> v si + c < 2 ^ 32 ->
  update i ids costs p k = if v si + c <? g sj then requeue j (put j (improved i c (v si + c) sj) p2) else Ok p2.
Proof.
  intros Hid Hc Hg Hr Hi Hj H0 H1 H2. unfold update, improved.
  destruct fwd; unfold update_succ, update_pred; rewrite Hid, bind_ok_l, Hg, !bind_ok_l, ?Hc, ?bind_ok_l, Hr, !bind_ok_l, ?Hc, ?bind_ok_l,
    (state_at_rec _ _ _ Hi), bind_ok_l, (state_at_rec _ _ _ Hj), bind_ok_l;
    rewrite (to_uint_id c), to_uint_id by lia; (destruct (_ <? _); [rewrite (write_state_ok _ _ _ _ Hj), bind_ok_l|]; reflexivity).
Qed.

Lemma frame_space p p' : frame p p' -> eps (space p') = eps (space p) /\ searchiteration (space p') = searchiteration (space p) /\
  callnumber (space p') = callnumber (space p) /\ searchgoalstate (space p') = searchgoalstate (space p) /\
  searchstartstate (space p') = searchstartstate (space p) /\ eps_satisfied (space p') = eps_satisfied (space p).
Proof. intros (e & hx & lm & l & ->). split_and!; reflexivity. Qed.

(** The states a search at iteration [it] sees depend on the array only. *)
Lemma vals_states it p p' k : states p' = states p -> callnumber (space p') = callnumber (space p) -> vals it p' k = vals it p k.
Proof. intros Es Ec. unfold AraSpec.vals, cur, rec. rewrite Es, Ec. reflexivity. Qed.

Lemma node_of_states p p' k : states p' = states p -> environment_ p' = environment_ p -> node_of p' k = node_of p k.
Proof. intros Es Ec. unfold AraSpec.node_of, rec. rewrite Es, Ec. reflexivity. Qed.

Lemma vals_cur it p k : val_v (vals it p k) < INF \/ val_closed (vals it p k) = true \/ val_g (vals it p k) < INF ->
  exists s, cur p k = Some s.
Proof. unfold AraSpec.vals. destruct (cur p k); [eauto|]. cbn. intros [|[|]]; [lia|discriminate|lia]. Qed.

(** The search is the same after states were created. *)
Lemma good_unchanged it p p' m q f start pending : base p' m q -> unchanged (fwd := fwd) (succ := succ) (arcs := arcs) (heur := heur)
    (root := root) (max_id := max_id) (max_cost := max_cost) it p p' ->
  (forall x, 0 <= f x /\ f x + max_id * max_cost < INF) ->
  good start f (view_of it p m q) pending -> good start f (view_of it p' m q) pending.
Proof using bounds.
  intros B ([_ X] & _ & Hv & _) Hf I.
  apply (grow_good arcs max_id max_cost arc_cost bound_cost bound_fit start f Hf (view_of it p m q)); cbn; auto.
  - intros j k x. apply (node_of_inj _ _ _ B).
  - intros k x. apply (node_range _ _ _ _ _ B).
  - intros k. rewrite Hv. reflexivity.
  - intros k. rewrite Hv. reflexivity.
  - intros k. rewrite Hv. reflexivity.
  - intros k. rewrite Hv. reflexivity.
Qed.

(** A state that was not met is in no queue. *)
Lemma stale_outside it start f p m q pending j : good start f (view_of it p m q) pending -> vals it p j = no_values ->
  m !! j = None /\ j ∉ q.
Proof.
  intros I Hn. split.
  - destruct (m !! j) as [key|] eqn:Em; [|reflexivity]. destruct (gd_open _ _ _ _ _ _ _ I j key Em) as (Hg & _). cbn in Hg. rewrite Hn in Hg. cbn in Hg. lia.
  - intros Hin. pose proof (gd_incons _ _ _ _ _ _ _ I j Hin) as Hc. cbn in Hc. rewrite Hn in Hc. discriminate.
Qed.

(** [v] and the closed states stay; ids and indices too. *)
Definition moved (n it : Z) (p p' : planner) : Prop :=
  extends p p' /\ percolates p <= percolates p' <= percolates p + n /\
  (forall k, val_v (vals it p' k) = val_v (vals it p k) /\ val_closed (vals it p' k) = val_closed (vals it p k)) /\
  (forall j x, env_node (environment_ p) j = Some x -> env_node (environment_ p') j = Some x) /\
  (forall k, val_g (vals it p' k) <= val_g (vals it p k)) /\ (forall k, is_Some (cur p k) -> is_Some (cur p' k)).

Lemma ara_moved_trans a b it p1 p2 p3 : moved a it p1 p2 -> moved b it p2 p3 -> moved (a + b) it p1 p3.
Proof.
  intros (X1 & P1 & V1 & E1 & G1 & C1) (X2 & P2 & V2 & E2 & G2 & C2). split_and!; [etransitivity; eassumption|lia|lia|..|auto].
  - intros k. destruct (V1 k) as [-> ->] || destruct (V2 k) as [-> ->]. apply V1.
  - auto.
  - intros k. pose proof (G1 k). pose proof (G2 k). lia.
Qed.

Lemma room_moved a b it p p' : moved (24 * a) it p p' -> SbplHeapSpec.room (heap (space p)) (a + b) -> SbplHeapSpec.room (heap (space p')) b.
Proof. intros (_ & P & _) [H0 H1]. split; lia. Qed.

Section arc.
Context (it start : Z) (p : planner) (m : gmap Z Keys.CKey) (q : list Z) (pending : Z -> list (Node * Z)).
Context (Hit : it = searchiteration (space p)) (Hit1 : 1 <= it) (B : base p m q) (He : eps_ok (eps (space p))).
Context (Hgoal : searchgoalstate (space p) <> None) (Hroom : SbplHeapSpec.room (heap (space p)) 1).
Context (I : good start (inflate (eps (space p))) (view_of it p m q) pending).

(** The end of an arc, created and refreshed. *)
Lemma meet_ok id y : env_node (environment_ p) id = Some y -> exists j p1 p2 s, GetState id p = Ok (j, p1) /\ refresh j p1 = Ok p2 /\
  base p2 m q /\ unchanged (fwd := fwd) (succ := succ) (arcs := arcs) (heur := heur) (root := root) (max_id := max_id) (max_cost := max_cost) it p p2 /\
  node_of p2 j = Some y /\ cur p2 j = Some s /\ (forall k, env_node (environment_ p2) k = env_node (environment_ p) k).
Proof using B Hit1 I bounds.
  intros Hy. destruct (ara_GetState_ok it p m q id y B Hy Hit1) as (j & p1 & -> & B1 & U1 & Hj & En1).
  destruct (node_rec p1 j y Hj) as (s0 & Hs0 & _).
  destruct (refresh_ok it p1 m q j s0 y B1 Hs0 Hj Hit1) as (p2 & s & E2 & B2 & U2 & En2 & Hs).
  { intros Hc. destruct U1 as (_ & _ & Hv & _). eapply (stale_outside it start _ p m q pending j I).
    rewrite <- Hv. unfold AraSpec.vals. rewrite Hc. reflexivity. }
  exists j, p1, p2, s. split; [reflexivity|]. split; [exact E2|]. split; [exact B2|]. split; [etransitivity; eassumption|].
  split; [apply U2; exact Hj|]. split; [exact Hs|]. intros k. rewrite En2. apply En1.
Qed.

Lemma ara_relax_ok i ids costs k id c x y todo : pending i = (y, c) :: todo -> node_of p i = Some x -> (y, c) ∈ arcs x ->
  val_v (vals it p i) < INF -> aget ids k = Ok id -> aget costs k = Ok c -> env_node (environment_ p) id = Some y ->
  exists p' m' q', update i ids costs p k = Ok p' /\ base p' m' q' /\
    good start (inflate (eps (space p))) (view_of it p' m' q') (upd pending i todo) /\ moved 24 it p p'.
Proof using B Hit Hit1 I bounds He Hgoal Hroom.
  intros Hp Hx Hy Hv Hid Hc Hn. destruct (meet_ok id y Hn) as (j & p1 & p2 & sj & E1 & E2 & B2 & U & Hj & Hsj & En).
  pose proof U as ([F X] & Hh & Hvals & Hcur). pose proof (inflate_fits _ He) as Hf.
  pose proof (good_unchanged it p p2 m q _ start pending B2 U Hf I) as I2.
  destruct (frame_space _ _ F) as (Fe & Fi & Fc & Fg & _).
  destruct (vals_cur it p2 i) as [si Hsi]; [rewrite Hvals; auto|].
  pose proof Hsi as [Ri _]%cur_rec. pose proof Hsj as [Rj Cj]%cur_rec.
  assert (Vi : vals it p2 i = mkValues (g si) (v si) (best_of (fwd := fwd) si) (iterationclosed si =? it)) by (unfold AraSpec.vals; rewrite Hsi; reflexivity).
  assert (Vj : vals it p2 j = mkValues (g sj) (v sj) (best_of (fwd := fwd) sj) (iterationclosed sj =? it)) by (unfold AraSpec.vals; rewrite Hsj; reflexivity).
  rewrite <- Hvals, Vi in Hv. cbn in Hv. pose proof (arc_cost _ _ _ Hy) as Hcr.
  assert (Hvi : 0 <= v si).
  { pose proof (gd_le _ _ _ _ _ _ _ I2 i) as Hle. cbn in Hle. rewrite Vi in Hle. cbn in Hle. lia. }
  assert (Hvc : v si + c < INF).
  { pose proof (V_fits arcs max_id max_cost bound_cost start _ _ _ I2 i) as Hvf. cbn in Hvf. rewrite Vi in Hvf. cbn in Hvf.
    specialize (Hvf Hv). pose proof bound_fit. lia. }
  rewrite (update_run i ids costs p k id c j p1 p2 si sj) by (assumption || unfold INF in *; lia).
  assert (M2 : moved 0 it p p2).
  { split_and!; [split; assumption|rewrite Hh; lia|rewrite Hh; lia|intros l; rewrite Hvals; auto|intros l z; rewrite En; auto|intros l; rewrite Hvals; lia|exact Hcur]. }
  destruct (Z.ltb_spec (v si + c) (g sj)) as [Hlt|Hge].
  - set (s' := improved i c (v si + c) sj). destruct (improved_fields i c (v si + c) sj) as (D1 & D2 & D3 & D4 & D5 & D6 & D7). fold s' in D1, D2, D3, D4, D5, D6, D7.
    set (p3 := put j s' p2).
    assert (Hhj : h sj = heur y) by (apply (b_h _ _ _ B2 ltac:(congruence) j sj y Rj Hj)).
    assert (B3 : base p3 m q).
    { apply (base_put _ _ _ _ _ sj); auto; [rewrite D6; exact (b_call _ _ _ B2 j sj Rj)|rewrite D5; intros _; exact (b_closed _ _ _ B2 j sj Hsj)|]. intros _ z Hz. congruence. }
    assert (R3 : rec p3 j = Some s') by (unfold p3; rewrite (rec_put _ _ _ _ _ Rj), decide_True; reflexivity).
    assert (He3 : eps (space p3) = eps (space p)) by exact Fe.
    destruct (requeue_ok p3 m q j s' y B3 R3) as (p4 & E4 & B4 & X4 & S4 & N4 & P4).
    { congruence. } { rewrite D2. lia. } { rewrite He3. exact He. } { change (heap (space p3)) with (heap (space p2)). rewrite Hh. exact Hroom. }
    change (searchiteration (space p3)) with (searchiteration (space p2)) in B4. rewrite Fi, <- Hit, D5, D2, He3 in B4.
    exists p4, (open_after (eps (space p)) (iterationclosed sj =? it) j (v si + c) y m), (incons_after (iterationclosed sj =? it) j q).
    split; [exact E4|]. split; [exact B4|]. destruct (frame_space _ _ (proj1 X4)) as (_ & _ & F4c & _).
    assert (Hvals4 : forall l, vals it p4 l = if decide (l = j) then mkValues (v si + c) (v sj) (Some i) (iterationclosed sj =? it) else vals it p2 l).
    { intros l. rewrite (vals_states it p3 p4 l S4 F4c). unfold AraSpec.vals, p3. rewrite (cur_put _ _ _ _ _ Rj) by congruence.
      destruct (decide (l = j)) as [->|]; [rewrite D2, D3, D5, D7|]; reflexivity. }
    assert (Hnode4 : forall l, node_of p4 l = node_of p2 l).
    { intros l. rewrite (node_of_states p3 p4 l S4 N4). apply (node_of_put _ _ _ _ _ Rj D1). }
    split.
    + pose proof (vals_states it p3 p4) as _.
      apply (relax_good arcs max_id max_cost arc_cost bound_cost bound_fit start _ Hf (view_of it p2 m q) _ pending i j x y c todo I2 Hp);
        cbn; [apply X; exact Hx|exact Hj|exact Hy|rewrite Vi; exact Hv|rewrite Vi, Vj; exact Hlt|exact Hnode4|..].
      * intros l. rewrite Hvals4, Vi. unfold upd. destruct (decide (l = j)); reflexivity.
      * intros l. rewrite Hvals4. destruct (decide (l = j)) as [->|]; [rewrite Vj|]; reflexivity.
      * intros l. rewrite Hvals4. unfold upd. destruct (decide (l = j)); reflexivity.
      * intros l. rewrite Hvals4. destruct (decide (l = j)) as [->|]; [rewrite Vj|]; reflexivity.
      * rewrite Vj, Vi. reflexivity.
      * rewrite Vj. reflexivity.
    + apply (ara_moved_trans 0 24 it p p2 p4 M2). split_and!.
      * etransitivity; [apply (extends_put _ _ _ _ Rj D1)|exact X4].
      * change (heap (space p2)) with (heap (space p3)). lia.
      * change (heap (space p2)) with (heap (space p3)). lia.
      * intros l. rewrite Hvals4. destruct (decide (l = j)) as [->|]; [rewrite Vj|]; auto.
      * intros l z. rewrite N4. auto.
      * intros l. rewrite Hvals4. destruct (decide (l = j)) as [->|]; [rewrite Vj; cbn; lia|lia].
      * intros l Hl. unfold cur, rec. rewrite S4, F4c. change (is_Some (cur p3 l)). unfold p3. rewrite (cur_put _ _ _ _ _ Rj) by congruence.
        destruct (decide (l = j)); eauto.
  - exists p2, m, q. split; [reflexivity|]. split; [exact B2|]. split; [|destruct M2 as (? & ? & ? & ? & ? & ?); split_and!; auto; lia].
    apply (keep_good _ _ _ _ _ _ _ i j y c todo I2 Hp); cbn; [exact Hj|]. rewrite Vi, Vj. exact Hge.
Qed.
End arc.

(** ** All arcs of a state *)

Lemma grown_node e e' i x : grown env_node e e' -> env_node e i = Some x -> env_node e' i = Some x.
Proof. intros [H _] Hx. apply (H i x Hx). Qed.

Lemma base_grown p m q e' : base p m q -> se_inv fwd succ arcs heur root e' -> grown env_node (environment_ p) e' ->
  base (set_environment e' p) m q.
Proof.
  intros B I' [H1 H2].
  split; [exact (b_fwd _ _ _ B)|exact I'| | | |exact (b_call _ _ _ B)|exact (b_callnumber _ _ _ B)|exact (b_iteration _ _ _ B)|exact (b_closed _ _ _ B)|exact (b_heap _ _ _ B)|
    exact (b_noheap _ _ _ B)|exact (b_list _ _ _ B)|exact (b_open _ _ _ B)|exact (b_incons _ _ _ B)].
  - intros k s Hk. destruct (b_table _ _ _ B k s Hk) as (x & Hx & Hi). exists x. destruct (H1 _ _ Hx) as [Hx' Hi']. cbn. split; congruence.
  - intros id x Hx. cbn in *. destruct (env_node (environment_ p) id) as [y|] eqn:Ey.
    + destruct (b_index _ _ _ B id y Ey) as (k & Hk & Hr). exists k. destruct (H1 _ _ Ey) as [_ Hi']. split; [congruence|exact Hr].
    + exists (-1). split; [eapply H2; eassumption|auto].
  - intros Hg k s x Hk Hx. destruct (table_node p m q B k s Hk) as [y Hy].
    assert (x = y) as ->; [|exact (b_h _ _ _ B Hg k s y Hk Hy)].
    pose proof (Hk : rec p k = Some s) as Hk'. unfold AraSpec.node_of in Hx, Hy. rewrite Hk in Hx. rewrite Hk' in Hy. cbn in Hx.
    rewrite (proj1 (H1 _ _ Hy)) in Hx. congruence.
Qed.

Lemma frame_environment (e : E) (p : planner) : frame p (set_environment e p).
Proof.
  exists e, (heap (space p), heapindices (space p)), (inconslist (space p), listmemory (space p)), (StateArray (space p)).
  destruct p as [? [] ]. reflexivity.
Qed.

Lemma moved_grown it p e' : grown env_node (environment_ p) e' -> moved 0 it p (set_environment e' p).
Proof.
  intros Hg. split_and!; [split; [apply frame_environment|]|cbn; lia|cbn; lia|auto|intros j x; apply grown_node; exact Hg|intros k; reflexivity|auto].
  intros k x (s & Hs & Hx)%node_rec. unfold AraSpec.node_of. rewrite (Hs : rec (set_environment e' p) k = Some s).
  apply (grown_node _ _ _ _ Hg Hx).
Qed.

Context {max_deg : Z} {Hdeg : forall x, Z.of_nat (length (arcs x)) <= max_deg}.

Lemma arcs_index (e : E) x (ids : list Z) n : env_node e <$> ids = Some ∘ fst <$> arcs x -> (n < length (arcs x))%nat ->
  exists id y c, aget ids (Z.of_nat n) = Ok id /\ aget (snd <$> arcs x) (Z.of_nat n) = Ok c /\ env_node e id = Some y /\
    drop n (arcs x) = (y, c) :: drop (S n) (arcs x) /\ (y, c) ∈ arcs x.
Proof.
  intros Hids Hn. destruct (lookup_lt_is_Some_2 (arcs x) n Hn) as [[y c] Hyc].
  pose proof (f_equal (fun l => l !! n) Hids) as Hid. cbn in Hid. rewrite !list_lookup_fmap, Hyc in Hid.
  destruct (ids !! n) as [id|] eqn:Eid; [|discriminate]. cbn in Hid. injection Hid as Hid.
  exists id, y, c. split; [apply aget_Ok; rewrite Nat2Z.id; auto with lia|].
  split; [rewrite aget_fmap; rewrite (proj2 (aget_Ok _ _ (y, c))); [reflexivity|rewrite Nat2Z.id; auto with lia]|].
  split; [exact Hid|]. split; [apply drop_S; exact Hyc|]. eapply list_elem_of_lookup_2. exact Hyc.
Qed.

Lemma update_loop_ok it start p m q i x ids : it = searchiteration (space p) -> 1 <= it -> base p m q -> eps_ok (eps (space p)) ->
  searchgoalstate (space p) <> None -> SbplHeapSpec.room (heap (space p)) (Z.of_nat (length (arcs x))) ->
  good start (inflate (eps (space p))) (view_of it p m q) (upd none i (arcs x)) -> node_of p i = Some x -> val_v (vals it p i) < INF ->
  env_node (environment_ p) <$> ids = Some ∘ fst <$> arcs x ->
  exists p' m' q', foldM (update i ids (snd <$> arcs x)) p (seqZ 0 (Z.of_nat (length ids))) = Ok p' /\ base p' m' q' /\
    good start (inflate (eps (space p))) (view_of it p' m' q') none /\ moved (24 * Z.of_nat (length (arcs x))) it p p'.
Proof using bounds.
  intros Hit Hit1 B He Hg Hr I Hx Hv Hids.
  assert (Hlen : length ids = length (arcs x)) by (apply (f_equal length) in Hids; rewrite !length_fmap in Hids; exact Hids).
  destruct (foldM_inv (update i ids (snd <$> arcs x)) (fun done p' => exists m' q', base p' m' q' /\
      good start (inflate (eps (space p))) (view_of it p' m' q') (upd none i (drop (length done) (arcs x))) /\
      moved (24 * Z.of_nat (length done)) it p p') (seqZ 0 (Z.of_nat (length ids))) p) as (p' & E1 & m' & q' & B' & I' & M').
  - exists m, q. split; [exact B|]. split; [exact I|]. split_and!; [reflexivity|cbn; lia|cbn; lia|auto|auto|intros k; reflexivity|auto].
  - intros done k todo p1 Hl (m1 & q1 & B1 & I1 & M1).
    assert (Hk : k = Z.of_nat (length done)).
    { pose proof (f_equal (fun s => s !! length done) Hl) as Hk. cbn in Hk. rewrite list_lookup_middle in Hk by reflexivity.
      apply lookup_seqZ in Hk. lia. }
    assert (Hn : (length done < length (arcs x))%nat).
    { apply (f_equal length) in Hl. rewrite length_seqZ, length_app in Hl. cbn in Hl. lia. }
    pose proof M1 as (X1 & P1 & V1 & N1 & _). destruct (frame_space _ _ (proj1 X1)) as (Fe & Fi & _ & Fg & _).
    destruct (arcs_index (environment_ p) x ids _ Hids Hn) as (id & y & c & Eid & Ec & Ey & Ed & Hy).
    assert (Hr1 : SbplHeapSpec.room (heap (space p1)) 1) by (destruct Hr; split; lia).
    destruct (ara_relax_ok it start p1 m1 q1 (upd none i (drop (length done) (arcs x))) (eq_trans Hit (eq_sym Fi)) Hit1 B1) with
      (i := i) (ids := ids) (costs := snd <$> arcs x) (k := k) (id := id) (c := c) (x := x) (y := y) (todo := drop (S (length done)) (arcs x))
      as (p2 & m2 & q2 & E2 & B2 & I2 & M2); rewrite ?Fe, ?Fg; auto.
    + rewrite upd_eq. exact Ed.
    + apply X1. exact Hx.
    + destruct (V1 i) as [-> _]. exact Hv.
    + rewrite Hk. exact Eid.
    + rewrite Hk. exact Ec.
    + exists p2. split; [exact E2|]. exists m2, q2. split; [exact B2|]. split.
      * rewrite Fe in I2. rewrite length_app. cbn [length]. replace (length done + 1)%nat with (S (length done)) by lia.
        eapply good_pending; [|exact I2]. intros j a. unfold upd. destruct (decide (j = i)); auto.
      * rewrite length_app. cbn [length]. replace (24 * Z.of_nat (length done + 1)) with (24 * Z.of_nat (length done) + 24) by lia.
        eapply ara_moved_trans; eassumption.
  - exists p', m', q'. split; [exact E1|]. split; [exact B'|]. rewrite length_seqZ in I', M'.
    replace (Z.to_nat (Z.of_nat (length ids))) with (length (arcs x)) in I', M' by lia. split; [|exact M'].
    eapply good_pending; [|exact I']. intros j a. unfold upd. destruct (decide (j = i)); [rewrite drop_all; auto|auto].
Qed.

(** ** The least key *)

(** What [getminkeyheap] answers. *)
Definition least_key (m : gmap Z Keys.CKey) (key : Keys.CKey) : Prop :=
  m = ∅ /\ key = Keys.mkKey INF INF \/
  exists i, m !! i = Some key /\ forall j key', m !! j = Some key' -> Keys.key_0 key <= Keys.key_0 key'.

Lemma empty_open p m q : base p m q -> SbplHeap.emptyheap (heap (space p)) = bool_decide (m = ∅).
Proof.
  intros B. unfold SbplHeap.emptyheap. rewrite <- (SbplHeapSpec.cells_size _ _ _ (proj1 (b_heap _ _ _ B))).
  case_bool_decide as Hm; [rewrite Hm, map_size_empty; reflexivity|]. apply map_size_non_empty_iff in Hm. apply Z.eqb_neq. lia.
Qed.

Lemma rank_least (key key' : Keys.CKey) : Keys.key_1 key = 0 -> Keys.key_1 key' = 0 -> Keys.rank key <= Keys.rank key' ->
  Keys.key_0 key <= Keys.key_0 key'.
Proof. cbn. unfold Keys.CKey_rank. lia. Qed.

(** All keys of OPEN have a second component of 0. *)
Definition flat (m : gmap Z Keys.CKey) : Prop := forall j key, m !! j = Some key -> Keys.key_1 key = 0.

Lemma good_flat start f it p m q pending : good start f (view_of it p m q) pending -> flat m.
Proof. intros I j key Hj. destruct (gd_open _ _ _ _ _ _ _ I j key Hj) as (_ & _ & x & _ & ->). reflexivity. Qed.

Lemma getminkey_ok p m q : base p m q -> flat m -> exists key, SbplHeap.getminkeyheap (heap (space p)) = Ok key /\ least_key m key.
Proof.
  intros B F. pose proof (empty_open p m q B) as He. unfold SbplHeap.getminkeyheap, SbplHeap.emptyheap in *. rewrite He. case_bool_decide as Hm.
  - eexists. split; [reflexivity|]. left. split; [exact Hm|reflexivity].
  - pose proof (b_heap _ _ _ B) as R. destruct (SbplHeapSpec.root_ok _ _ _ R) as (i & key & E1 & Hi & _ & Hmin).
    { apply Z.eqb_neq in He. pose proof (SbplHeapSpec.cells_size _ _ _ (proj1 R)). lia. }
    rewrite (SbplHeapSpec.cheap_read_some _ _ _ E1), bind_ok_l. eexists. split; [reflexivity|]. right. exists i. split; [exact Hi|].
    intros j key' Hj. apply rank_least; eauto.
Qed.

Lemma deletemin_ok p m q : base p m q -> flat m -> m <> ∅ -> SbplHeapSpec.room (heap (space p)) 1 -> exists i key h ix,
  SbplHeap.deleteminheap (heap (space p)) (heapindices (space p)) = Ok (i, h, ix) /\ m !! i = Some key /\
  (forall j key', m !! j = Some key' -> Keys.key_0 key <= Keys.key_0 key') /\
  base (on_space (set_open (h, ix)) p) (delete i m) q /\ percolates p <= SbplHeap.percolates h <= percolates p + 24.
Proof.
  intros B F Hm Hr. pose proof (b_heap _ _ _ B) as R. pose proof (empty_open p m q B) as He. rewrite bool_decide_eq_false_2 in He by exact Hm.
  unfold SbplHeap.emptyheap in He. apply Z.eqb_neq in He. pose proof (SbplHeapSpec.cells_size _ _ _ (proj1 R)).
  destruct (SbplHeapSpec.deleteminheap_ok _ _ _ R ltac:(lia) Hr) as (i & key & h & ix & E1 & Hi & Hmin & h' & ix' & [= <- <-] & R' & N & O & P1 & P2).
  exists i, key, h, ix. split; [exact E1|]. split; [exact Hi|]. split; [intros j key' Hj; apply rank_least; eauto|].
  split; [|lia]. apply (base_heap p m); auto.
  - intros k [->|Hk]%lookup_delete_None; [exact N|]. rewrite (O k Hk). apply (b_noheap _ _ _ B). exact Hk.
  - intros k key' [_ Hk]%lookup_delete_Some. eapply b_open; eassumption.
Qed.

(** ** One expansion *)

Lemma UpdateArcs_ok it start p m q i x : it = searchiteration (space p) -> 1 <= it -> base p m q -> eps_ok (eps (space p)) ->
  searchgoalstate (space p) <> None -> SbplHeapSpec.room (heap (space p)) (Z.of_nat (length (arcs x))) ->
  good start (inflate (eps (space p))) (view_of it p m q) (upd none i (arcs x)) -> node_of p i = Some x -> val_v (vals it p i) < INF ->
  exists p' m' q', (if bforwardsearch p then UpdateSuccs i p else UpdatePreds i p) = Ok p' /\ base p' m' q' /\
    good start (inflate (eps (space p))) (view_of it p' m' q') none /\ moved (24 * Z.of_nat (length (arcs x))) it p p'.
Proof using bounds.
  intros Hit Hit1 B He Hg Hr I Hx Hv. destruct (node_rec p i x Hx) as (s & Hs & Hn).
  destruct (se_arcs (environment_ p) (StateID s) x (b_env _ _ _ B) Hn) as (ids & costs & e' & Ee & I' & Hgr & Hids & ->).
  pose proof (base_grown p m q e' B I' Hgr) as B1. pose proof (moved_grown it p e' Hgr) as M1.
  assert (I1 : good start (inflate (eps (space p))) (view_of it (set_environment e' p) m q) (upd none i (arcs x))).
  { apply (good_unchanged it p (set_environment e' p)); [exact B1| |apply inflate_fits; exact He|exact I].
    split; [apply M1|]. split; [reflexivity|]. split; [reflexivity|auto]. }
  destruct (update_loop_ok it start (set_environment e' p) m q i x ids Hit Hit1 B1 He Hg Hr I1) as (p' & m' & q' & E1 & B' & I2 & M').
  { apply M1. exact Hx. } { exact Hv. } { exact Hids. }
  exists p', m', q'. split; [|split; [exact B'|split; [exact I2|]]].
  - rewrite (b_fwd _ _ _ B). unfold UpdateSuccs, UpdatePreds. rewrite (state_at_rec _ _ _ Hs), !bind_ok_l.
    unfold update in E1. destruct (sumbool_of_bool fwd) as [Ef|Ef]; rewrite Ef in Ee, E1 |- *; rewrite Ee, bind_ok_l; exact E1.
  - apply (ara_moved_trans 0 _ it p (set_environment e' p) p' M1 M').
Qed.

Lemma expand_one_ok it start goal p m q sg : it = searchiteration (space p) -> 1 <= it -> base p m q -> eps_ok (eps (space p)) ->
  searchgoalstate (space p) <> None -> SbplHeapSpec.room (heap (space p)) (1 + max_deg) ->
  good start (inflate (eps (space p))) (view_of it p m q) none -> m <> ∅ -> cur p goal = Some sg ->
  exists minkey p' m' q' sg' i, expand_one goal (Keys.mkKey (g sg) 0) p = Ok (minkey, Keys.mkKey (g sg') 0, p') /\ base p' m' q' /\
    good start (inflate (eps (space p))) (view_of it p' m' q') none /\ least_key m' minkey /\ cur p' goal = Some sg' /\
    extends p p' /\ percolates p <= percolates p' <= percolates p + 24 * (1 + max_deg) /\
    0 <= i < max_id /\ val_closed (vals it p i) = false /\ (forall k, val_closed (vals it p' k) = upd (fun k => val_closed (vals it p k)) i true k) /\
    (forall j x, env_node (environment_ p) j = Some x -> env_node (environment_ p') j = Some x) /\
    (forall k, val_g (vals it p' k) <= val_g (vals it p k)).
Proof using bounds Hdeg.
  intros Hit Hit1 B He Hg [Hr0 Hr] I Hm Hsg. unfold expand_one.
  destruct (deletemin_ok p m q B (good_flat _ _ _ _ _ _ _ I) Hm) as (i & key & h & ix & -> & Hi & Hmin & B1 & P1).
  { pose proof (Hdeg) as Hd. destruct (gd_start _ _ _ _ _ _ _ I) as [xs _]. pose proof (Hd xs). split; [exact Hr0|lia]. }
  rewrite bind_ok_l. set (p1 := on_space (set_open (h, ix)) p).
  destruct (gd_open _ _ _ _ _ _ _ I i key Hi) as (Hgi & Hci & x & Hx & _). cbn in Hgi, Hci, Hx. pose proof (Hdeg x) as Hdx.
  destruct (vals_cur it p i ltac:(auto)) as [s Hs]. pose proof Hs as [Ri Ci]%cur_rec.
  assert (Vi : vals it p i = mkValues (g s) (v s) (best_of (fwd := fwd) s) (iterationclosed s =? it)) by (unfold AraSpec.vals; rewrite Hs; reflexivity).
  rewrite (write_state_ok p1 i _ s Ri), bind_ok_l. change (searchiteration (space p1)) with (searchiteration (space p)). rewrite <- Hit.
  set (s' := set_closed it (set_v (g s) s)). set (p2 := put i s' p1).
  assert (B2 : base p2 (delete i m) q).
  { apply (base_put _ _ _ _ _ s); auto; [exact (b_call _ _ _ B i s Ri)|intros _; cbn; lia|]. intros Hgo z Hz. exact (b_h _ _ _ B1 Hgo i s z Ri Hz). }
  assert (Hcur2 : forall k, cur p2 k = if decide (k = i) then Some s' else cur p k) by (intros k; exact (cur_put p1 i s' s k Ri Ci)).
  assert (V2 : forall k, vals it p2 k = if decide (k = i) then mkValues (g s) (g s) (best_of (fwd := fwd) s) true else vals it p k).
  { intros k. unfold AraSpec.vals. rewrite Hcur2. destruct (decide (k = i)); [|reflexivity]. cbn. rewrite Z.eqb_refl. unfold best_of. destruct (sumbool_of_bool fwd) as [Ef|Ef]; rewrite Ef; reflexivity. }
  assert (N2 : forall k, node_of p2 k = node_of p k) by (intros k; exact (node_of_put p1 i s' s k Ri eq_refl)).
  assert (I2 : good start (inflate (eps (space p))) (view_of it p2 (delete i m) q) (upd none i (arcs x))).
  { apply (expand_good arcs max_id max_cost arc_cost bound_cost bound_fit start _ (inflate_fits _ He) (view_of it p m q) _ i key x I Hi Hx Hmin); cbn; auto.
    - intros k. rewrite V2. destruct (decide (k = i)) as [->|]; [rewrite Vi|]; reflexivity.
    - intros k. rewrite V2, Vi. unfold upd. destruct (decide (k = i)); reflexivity.
    - intros k. rewrite V2. destruct (decide (k = i)) as [->|]; [rewrite Vi|]; reflexivity.
    - intros k. rewrite V2. unfold upd. destruct (decide (k = i)); reflexivity. }
  destruct (UpdateArcs_ok it start p2 (delete i m) q i x Hit Hit1 B2 He Hg) as (p3 & m3 & q3 & E3 & B3 & I3 & M3).
  { change (heap (space p2)) with h. split; lia. } { exact I2. } { rewrite N2. exact Hx. }
  { rewrite V2, decide_True by reflexivity. cbn. rewrite Vi in Hgi. exact Hgi. }
  rewrite E3, bind_ok_l. destruct (getminkey_ok p3 m3 q3 B3 (good_flat _ _ _ _ _ _ _ I3)) as (minkey & -> & Hmk). rewrite bind_ok_l.
  pose proof M3 as (X3 & P3 & C3 & Env3 & G3 & Cur3). destruct (Cur3 goal) as [sg' Hsg'].
  { rewrite Hcur2. destruct (decide (goal = i)); eauto. }
  pose proof Hsg' as [Rg _]%cur_rec. rewrite (state_at_rec _ _ _ Rg), bind_ok_l.
  assert (Hkey : (if negb (g sg =? to_sint (g sg')) then Keys.mkKey (g sg') 0 else Keys.mkKey (g sg) 0) = Keys.mkKey (g sg') 0).
  { pose proof (gd_le _ _ _ _ _ _ _ I3 goal) as Hle. cbn in Hle. unfold AraSpec.vals in Hle. rewrite Hsg' in Hle. cbn in Hle.
    rewrite to_sint_id by (unfold INF, int32 in *; cbn [int_max]; lia). destruct (Z.eqb_spec (g sg) (g sg')) as [->|]; reflexivity. }
  exists minkey, p3, m3, q3, sg', i. split; [cbn [Keys.key_0 Keys.key_1]; rewrite Hkey; reflexivity|].
  split; [exact B3|]. split; [exact I3|]. split; [exact Hmk|]. split; [exact Hsg'|]. split; [|split; [|split; [|split; [|split; [|split]]]]].
  - etransitivity; [|exact X3]. etransitivity; [apply extends_open|]. apply (extends_put p1 i s' s Ri eq_refl).
  - change (heap (space p2)) with h in P3. lia.
  - exact (node_range _ _ _ _ _ B Hx).
  - exact Hci.
  - intros k. destruct (C3 k) as [_ ->]. rewrite V2. unfold upd. destruct (decide (k = i)); reflexivity.
  - exact Env3.
  - intros k. specialize (G3 k). rewrite V2 in G3. destruct (decide (k = i)) as [->|]; [rewrite Vi|]; exact G3.
Qed.

(** ** Time *)

Section time.
Context (clock : nat -> Z).

(** [secs] have passed since [t0] when the clock is read for the n-th time. *)
Definition over (t0 : Z) (secs : Doubles.double) (n : nat) : Prop :=
  Doubles.ltb (Doubles.of_int (clock n - t0)) (Doubles.mul secs (Doubles.of_int CLOCKS_PER_SEC)) = false.

(** A test of time fails at the n-th reading. *)
Definition late (MaxNumofSecs : Doubles.double) (p : planner) (n : nat) : Prop :=
  over (TimeStarted p) MaxNumofSecs n \/
  Doubles.eqb (eps_satisfied (space p)) (Doubles.of_int INFINITECOST) = false /\ over (TimeStarted p) (repair_time p) n.

Abbreviation at_reading n p := (set_clock (TimeStarted p) n p).

Lemma in_time_ok Max p : exists b n, in_time clock Max p = (b, at_reading n p) /\ (readings p < n)%nat /\
  (b = false -> exists k, (readings p <= k < n)%nat /\ late Max p k).
Proof.
  unfold in_time, elapsed_less. destruct (Doubles.ltb _ (Doubles.mul Max _)) eqn:E1.
  - cbn [pSearchStateSpace_ set_clock]. destruct (Doubles.eqb _ _) eqn:E2.
    + exists true, (S (readings p)). split; [reflexivity|]. split; [lia|discriminate].
    + eexists _, (S (S (readings p))). split; [reflexivity|]. split; [lia|]. intros E3. exists (S (readings p)). split; [lia|].
      right. split; [exact E2|exact E3].
  - exists false, (S (readings p)). split; [reflexivity|]. split; [lia|]. intros _. exists (readings p). split; [lia|]. left. exact E1.
Qed.

(** [p'] is a planner the search has gone on from [p] to. *)
Definition later (it : Z) (p p' : planner) : Prop :=
  (exists n, (readings p <= n)%nat /\ frame (at_reading n p) p') /\
  (forall k x, node_of p k = Some x -> node_of p' k = Some x) /\
  (forall j x, env_node (environment_ p) j = Some x -> env_node (environment_ p') j = Some x) /\
  (forall k, val_g (vals it p' k) <= val_g (vals it p k)) /\ percolates p <= percolates p'.

Lemma later_refl it p : later it p p.
Proof.
  split; [exists (readings p); split; [lia|]|split_and!; auto; lia]. replace (at_reading (readings p) p) with p by (destruct p; reflexivity). reflexivity.
Qed.

Lemma later_trans it p1 p2 p3 : later it p1 p2 -> later it p2 p3 -> later it p1 p3.
Proof.
  intros ((n & H1 & (e & hx & lm & l & ->)) & X1 & N1 & G1 & P1) ((n' & H2 & (e' & hx' & lm' & l' & ->)) & X2 & N2 & G2 & P2).
  split; [exists n'; split; [cbn in H2; lia|exists e', hx', lm', l'; reflexivity]|]. split_and!; auto.
  - intros k. etransitivity; [apply G2|apply G1].
  - lia.
Qed.

Lemma later_space it p p' : later it p p' -> eps (space p') = eps (space p) /\ searchiteration (space p') = searchiteration (space p) /\
  callnumber (space p') = callnumber (space p) /\ searchgoalstate (space p') = searchgoalstate (space p) /\
  searchstartstate (space p') = searchstartstate (space p) /\ eps_satisfied (space p') = eps_satisfied (space p) /\
  TimeStarted p' = TimeStarted p /\ repair_time p' = repair_time p /\ (readings p <= readings p')%nat /\ params p' = params p /\
  stats p' = stats p /\ searchexpands p' = searchexpands p /\ bNewSearchIteration (space p') = bNewSearchIteration (space p) /\
  bReevaluatefvals (space p') = bReevaluatefvals (space p) /\ bReinitializeSearchStateSpace (space p') = bReinitializeSearchStateSpace (space p).
Proof. intros ((n & H1 & (e & hx & lm & l & ->)) & _). split_and!; auto. Qed.

Lemma late_later it Max p p' n : later it p p' -> late Max p' n <-> late Max p n.
Proof. intros L. destruct (later_space _ _ _ L) as (_ & _ & _ & _ & _ & Es & Et & Er & _). unfold late. rewrite Es, Et, Er. reflexivity. Qed.

(** The rest of the planner does not matter. *)
Lemma base_fields (p p' : planner) m q : environment_ p' = environment_ p -> bforwardsearch p' = bforwardsearch p ->
  heap (space p') = heap (space p) -> heapindices (space p') = heapindices (space p) -> inconslist (space p') = inconslist (space p) ->
  listmemory (space p') = listmemory (space p) -> states p' = states p -> callnumber (space p') = callnumber (space p) ->
  searchgoalstate (space p') = searchgoalstate (space p) -> searchiteration (space p) <= searchiteration (space p') ->
  base p m q -> base p' m q.
Proof.
  intros E1 E2 E3 E4 E5 E6 E7 E8 E9 E10 B. assert (Er : forall k, rec p' k = rec p k) by (intros k; unfold rec; rewrite E7; reflexivity).
  assert (En : forall k, node_of p' k = node_of p k) by (intros k; unfold AraSpec.node_of; rewrite Er, E1; reflexivity).
  destruct B as [B1 B2 B3 B4 B5 B6 B7 B7' B7'' B8 B9 B10 B11 B12]. split; rewrite ?E1, ?E2, ?E3, ?E4, ?E5, ?E6, ?E8, ?E9; auto.
  - intros k s. rewrite Er. apply B3.
  - intros id x Hx. destruct (B4 id x Hx) as (k & H1 & [?|(s & H2 & H3)]); exists k; [auto|]. split; [exact H1|]. right. exists s. rewrite Er. auto.
  - intros Hg k s x. rewrite Er, En. apply B5. exact Hg.
  - intros k s. rewrite Er. apply B6.
  - lia.
  - intros k s Hk. enough (0 <= iterationclosed s <= searchiteration (space p)) by lia. apply (B7'' k). rewrite <- Hk. unfold cur. rewrite Er, E8. reflexivity.
  - intros k key Hk. rewrite Er. eauto.
  - intros k Hk. rewrite Er. eauto.
Qed.

Lemma base_same (p p' : planner) m q : environment_ p' = environment_ p -> space p' = space p -> bforwardsearch p' = bforwardsearch p ->
  base p m q -> base p' m q.
Proof. intros E1 E2 E3. apply base_fields; unfold states; rewrite ?E2; auto; reflexivity. Qed.

Lemma base_clock p m q n : base p m q -> base (at_reading n p) m q.
Proof. apply base_same; reflexivity. Qed.

Lemma later_clock it p n : (readings p <= n)%nat -> later it p (at_reading n p).
Proof. intros Hn. split; [exists n; split; [exact Hn|reflexivity]|]. split_and!; auto; reflexivity. Qed.

(** ** The loop *)

(** The states that may still be expanded in this iteration. *)
Definition unclosed (f : Z -> bool) (l : list Z) : nat := length (filter (fun k => f k = false) l).
Definition left (it : Z) (p : planner) : nat := unclosed (fun k => val_closed (vals it p k)) (seqZ 0 max_id).

Lemma unclosed_ext f f' l : (forall k, k ∈ l -> f k = f' k) -> unclosed f l = unclosed f' l.
Proof.
  unfold unclosed. induction l as [|k l IH]; intros H; [reflexivity|]. rewrite !filter_cons, (H k) by left.
  destruct (decide (f' k = false)); cbn; rewrite IH; auto; intros j Hj; apply H; right; exact Hj.
Qed.

Lemma unclosed_upd f i l : NoDup l -> i ∈ l -> f i = false -> unclosed f l = S (unclosed (upd f i true) l).
Proof.
  intros Hn. induction Hn as [|k l Hk Hn IH]; intros Hi Hf; [inversion Hi|]. unfold unclosed in *. rewrite !filter_cons.
  apply elem_of_cons in Hi as [->|Hi].
  - rewrite (decide_True _ _ Hf), upd_eq, decide_False by discriminate. cbn. f_equal. apply unclosed_ext.
    intros j Hj. rewrite upd_ne by (intros ->; contradiction). reflexivity.
  - rewrite upd_ne by (intros ->; contradiction). destruct (decide (f k = false)); cbn; rewrite IH by assumption; reflexivity.
Qed.

Lemma left_max it p : Z.of_nat (left it p) <= Z.max 0 max_id.
Proof. unfold left, unclosed. pose proof (length_filter (fun k => val_closed (vals it p k) = false) (seqZ 0 max_id)) as H. rewrite length_seqZ in H. lia. Qed.

Lemma improve_loop_ok it start goal Max fuel : forall p m q sg minkey expands,
  it = searchiteration (space p) -> 1 <= it -> base p m q -> eps_ok (eps (space p)) -> searchgoalstate (space p) <> None ->
  good start (inflate (eps (space p))) (view_of it p m q) none -> cur p goal = Some sg -> least_key m minkey ->
  (left it p < fuel)%nat -> SbplHeapSpec.room (heap (space p)) (Z.of_nat (left it p) * (1 + max_deg)) ->
  0 <= expands -> expands + Z.of_nat (left it p) <= INT_MAX ->
  exists minkey' sg' n p' m' q',
    improve_loop clock fuel goal Max minkey (Keys.mkKey (g sg) 0) expands p = Ok (minkey', Keys.mkKey (g sg') 0, n, p') /\
    base p' m' q' /\ good start (inflate (eps (space p))) (view_of it p' m' q') none /\ cur p' goal = Some sg' /\ least_key m' minkey' /\
    later it p p' /\ percolates p' <= percolates p + 24 * (Z.of_nat (left it p) * (1 + max_deg)) /\
    (m' = ∅ \/ INF <= Keys.key_0 minkey' \/ Keys.gt (Keys.mkKey (g sg') 0) minkey' = false \/
     exists k, (readings p <= k < readings p')%nat /\ late Max p k).
Proof using bounds Hdeg.
  induction fuel as [|fuel IH]; intros p m q sg minkey expands Hit Hit1 B He Hg I Hsg Hmk Hfuel Hr Hx0 Hx; [lia|]. cbn [improve_loop].
  assert (Hdeg0 : 0 <= max_deg) by (destruct (gd_start _ _ _ _ _ _ _ I) as [xs _]; pose proof (Hdeg xs); lia).
  assert (Hstop : m = ∅ \/ INF <= Keys.key_0 minkey \/ Keys.gt (Keys.mkKey (g sg) 0) minkey = false ->
    exists minkey' sg' n p' m' q', Ok (minkey, Keys.mkKey (g sg) 0, expands, p) = Ok (minkey', Keys.mkKey (g sg') 0, n, p') /\
    base p' m' q' /\ good start (inflate (eps (space p))) (view_of it p' m' q') none /\ cur p' goal = Some sg' /\ least_key m' minkey' /\
    later it p p' /\ percolates p' <= percolates p + 24 * (Z.of_nat (left it p) * (1 + max_deg)) /\
    (m' = ∅ \/ INF <= Keys.key_0 minkey' \/ Keys.gt (Keys.mkKey (g sg') 0) minkey' = false \/
     exists k, (readings p <= k < readings p')%nat /\ late Max p k)).
  { intros Hs. exists minkey, sg, expands, p, m, q. split_and!; auto; [apply later_refl|lia|tauto]. }
  rewrite (empty_open p m q B). case_bool_decide as Hm; cbn [negb andb]; [apply Hstop; auto|].
  destruct (Z.ltb_spec (Keys.key_0 minkey) INFINITECOST) as [Hinf|Hinf]; cbn [andb]; [|apply Hstop; right; left; exact Hinf].
  destruct (Keys.gt _ minkey) eqn:Hgt; [|apply Hstop; auto]. clear Hstop.
  destruct (in_time_ok Max p) as (b & n & -> & Hn & Hb). destruct b.
  2:{ destruct (Hb eq_refl) as (k & Hk & Hl). exists minkey, sg, expands, (at_reading n p), m, q. split; [reflexivity|].
      split; [apply base_clock; exact B|]. split; [exact I|]. split; [exact Hsg|]. split; [exact Hmk|]. split; [apply later_clock; lia|].
      split; [change (percolates (at_reading n p)) with (percolates p); lia|]. right. right. right. exists k. split; [cbn; lia|exact Hl]. }
  clear Hb. pose proof (base_clock p m q n B) as B0. set (p0 := at_reading n p) in *.
  assert (Hpos : (0 < left it p)%nat).
  { destruct Hmk as [[? _]|(i & Hi & _)]; [contradiction|]. destruct (gd_open _ _ _ _ _ _ _ I i minkey Hi) as (_ & Hc & x & Hx' & _). cbn in Hc, Hx'.
    pose proof (node_range _ _ _ _ _ B Hx'). unfold left. rewrite (unclosed_upd _ i); [lia|apply NoDup_seqZ|apply elem_of_seqZ; lia|exact Hc]. }
  destruct (expand_one_ok it start goal p0 m q sg Hit Hit1 B0 He Hg) as (mk1 & p1 & m1 & q1 & sg1 & i & E1 & B1 & I1 & Hmk1 & Hsg1 & X1 & P1 & Hi & Hci & Hc1 & N1 & G1);
    [|exact I|exact Hm|exact Hsg|].
  { change (heap (space p0)) with (heap (space p)). destruct Hr as [Hr0 Hr]. split; [exact Hr0|nia]. }
  rewrite E1, bind_ok_l. rewrite add_int_in, bind_ok_l by (unfold INT_MAX, int_min, int32 in *; cbn [int_max] in *; lia).
  destruct (frame_space _ _ (proj1 X1)) as (Fe & Fi & _ & Fg & _). change (eps (space p0)) with (eps (space p)) in *.
  assert (Hleft : left it p = S (left it p1)).
  { unfold left. rewrite (unclosed_upd _ i); [f_equal|apply NoDup_seqZ|apply elem_of_seqZ; lia|exact Hci]. apply unclosed_ext. intros k _. symmetry. apply Hc1. }
  assert (L1 : later it p p1).
  { apply (later_trans _ _ p0); [apply later_clock; lia|]. split; [exists (readings p0); split; [lia|exact (proj1 X1)]|]. split; [apply X1|]. split_and!; auto. lia. }
  change (percolates p0) with (percolates p) in P1.
  destruct (IH p1 m1 q1 sg1 mk1 (expands + 1)) as (mk2 & sg2 & n2 & p2 & m2 & q2 & E2 & B2 & I2 & Hsg2 & Hmk2 & L2 & P2 & Hend);
    rewrite ?Fe, ?Fi, ?Fg; auto.
  { lia. } { destruct Hr as [Hr0 Hr]. split; [lia|nia]. } { lia. } { lia. }
  exists mk2, sg2, n2, p2, m2, q2. split; [exact E2|]. split; [exact B2|]. split; [rewrite <- Fe; exact I2|]. split; [exact Hsg2|]. split; [exact Hmk2|].
  split; [eapply later_trans; eassumption|]. split; [nia|]. destruct Hend as [?|[?|[?|(k & Hk & Hl)]]]; [auto..|]. right. right. right.
  destruct (later_space _ _ _ L1) as (_ & _ & _ & _ & _ & _ & _ & _ & Hrd & _). destruct (later_space _ _ _ L2) as (_ & _ & _ & _ & _ & _ & _ & _ & Hrd2 & _).
  exists k. split; [lia|]. apply (late_later _ _ _ _ _ L1). exact Hl.
Qed.

(** ** ImprovePath *)

(** A key of OPEN is below infinity. *)
Lemma least_finite it start p m q key : eps_ok (eps (space p)) -> good start (inflate (eps (space p))) (view_of it p m q) none ->
  least_key m key -> m <> ∅ -> Keys.key_0 key < INF.
Proof using bounds.
  intros He I [[? _]|(i & Hi & _)] Hm; [contradiction|].
  destruct (open_key arcs max_id max_cost bound_cost start _ (inflate_fits _ He) _ _ I i key Hi) as (_ & _ & _ & H & _). lia.
Qed.

(** Shortest paths found within the factor of [eps]. *)
Definition within (e : Doubles.double) (xs xg : Node) (b : Z) : Prop :=
  forall num den d, factor arcs (inflate e) num den -> AraCore.walk arcs xs xg d -> den * b <= num * d.

Definition outcome (Max : Doubles.double) (p p' : planner) (xs xg : Node) (b r : Z) : Prop :=
  r = 1 /\ b < INF /\ within (eps (space p)) xs xg b \/
  r = 0 /\ b = INF /\ (forall d, ~ AraCore.walk arcs xs xg d) \/
  r = 2 /\ exists k, (readings p <= k < readings p')%nat /\ late Max p k.

Lemma gt_first a b key1 : Keys.gt (Keys.mkKey a b) key1 = false -> a <= Keys.key_0 key1.
Proof. unfold Keys.gt. cbn. intros [H _]%orb_false_iff. apply Z.ltb_ge in H. exact H. Qed.

Lemma inflate_zero e x : eps_ok e -> heur x = 0 -> inflate e x = 0.
Proof.
  intros He Hx. destruct (He x) as (Hk & _). unfold AraSpec.inflate in *. rewrite Hx in *. destruct e; cbn in *; try discriminate; reflexivity.
Qed.

Lemma ImprovePath_ok it start goal xs xg Max fuel p m q :
  it = searchiteration (space p) -> 1 <= it -> base p m q -> eps_ok (eps (space p)) -> searchgoalstate (space p) = Some goal ->
  good start (inflate (eps (space p))) (view_of it p m q) none -> node_of p start = Some xs -> node_of p goal = Some xg -> heur xg = 0 ->
  max_id < Z.of_nat fuel -> SbplHeapSpec.room (heap (space p)) (max_id * (1 + max_deg)) ->
  exists r n p' m' q' sg, ImprovePath clock fuel Max p = Ok (r, set_expands n p') /\ base p' m' q' /\
    good start (inflate (eps (space p))) (view_of it p' m' q') none /\ cur p' goal = Some sg /\ later it p p' /\
    percolates p' <= percolates p + 24 * (max_id * (1 + max_deg)) /\ outcome Max p p' xs xg (g sg) r.
Proof using bounds Hdeg.
  intros Hit Hit1 B He Hg I Hxs Hxg Hh Hfuel Hr. unfold ImprovePath. rewrite Hg.
  destruct (node_rec p goal xg Hxg) as (s0 & Hs0 & _).
  destruct (refresh_ok it p m q goal s0 xg B Hs0 Hxg Hit1) as (p1 & s1 & -> & B1 & U1 & N1 & Hs1).
  { intros Hc. eapply (stale_outside it start _ p m q none goal I). unfold AraSpec.vals. rewrite Hc. reflexivity. }
  rewrite bind_ok_l. pose proof Hs1 as [R1 _]%cur_rec. rewrite (state_at_rec _ _ _ R1), bind_ok_l.
  pose proof (good_unchanged it p p1 m q _ start none B1 U1 (inflate_fits _ He) I) as I1.
  pose proof U1 as ([F1 X1] & Hh1 & V1 & C1). destruct (frame_space _ _ F1) as (Fe & Fi & _ & Fg & _).
  assert (L1 : later it p p1).
  { split; [exists (readings p); split; [lia|]|split; [exact X1|split; [intros j x; rewrite N1; auto|split; [intros k; rewrite V1; lia|rewrite Hh1; lia]]]].
    replace (at_reading (readings p) p) with p by (destruct p; reflexivity). exact F1. }
  destruct (getminkey_ok p1 m q B1 (good_flat _ _ _ _ _ _ _ I1)) as (mk & -> & Hmk). rewrite bind_ok_l.
  assert (Hmd : 0 <= max_deg) by (pose proof (Hdeg xs); lia). pose proof (node_range _ _ _ _ _ B Hxs) as Hrange.
  pose proof (left_max it p1) as Hleft. pose proof ab_ids as Hids.
  destruct (improve_loop_ok it start goal Max fuel p1 m q s1 mk 0) as (mk2 & sg & n & p2 & m2 & q2 & -> & B2 & I2 & Hsg & Hmk2 & L2 & P2 & Hend);
    rewrite ?Fe, ?Fi, ?Fg, ?Hh1; auto; try congruence; try lia; try (unfold INT_MAX; cbn [int_max int32]; lia).
  { destruct Hr as [Hr0 Hr]. split; [exact Hr0|]. assert (Z.of_nat (left it p1) * (1 + max_deg) <= max_id * (1 + max_deg)) by (apply Z.mul_le_mono_nonneg_r; lia). lia. }
  rewrite bind_ok_l. pose proof Hsg as [R2 _]%cur_rec. rewrite (state_at_rec _ _ _ R2), bind_ok_l, (empty_open p2 m2 q2 B2).
  eexists _, _, p2, m2, q2, sg. split; [reflexivity|]. split; [exact B2|]. rewrite Fe in I2. split; [exact I2|]. split; [exact Hsg|].
  pose proof (later_trans _ _ _ _ L1 L2) as L. split; [exact L|]. split.
  { rewrite Hh1 in P2. assert (Z.of_nat (left it p1) * (1 + max_deg) <= max_id * (1 + max_deg)) by (apply Z.mul_le_mono_nonneg_r; lia). lia. }
  destruct (later_space _ _ _ L) as (Fe2 & _ & _ & _ & _ & _ & _ & _ & Hrd & _).
  destruct L as (_ & X2 & _). pose proof (X2 _ _ Hxs) as Hxs2. pose proof (X2 _ _ Hxg) as Hxg2.
  assert (Hgg : val_g (vals it p2 goal) = g sg) by (unfold AraSpec.vals; rewrite Hsg; reflexivity).
  pose proof (gd_le _ _ _ _ _ _ _ I2 goal) as Hle. cbn in Hle. rewrite Hgg in Hle.
  assert (Hfin : m2 <> ∅ -> Keys.key_0 mk2 < INF).
  { intros Hm. apply (least_finite it start p2 m2 q2); auto; rewrite Fe2; assumption. }
  unfold outcome. case_bool_decide as Hm; cbn [negb andb].
  - destruct (Z.eqb_spec (g sg) INFINITECOST) as [Ei|Ei]; cbn [andb].
    + right. left. split; [reflexivity|]. split; [exact Ei|]. intros d.
      apply (goal_unreachable arcs max_id max_cost arc_cost bound_cost bound_fit start _ _ goal xg xs d I2 Hxs2 Hxg2); cbn; [rewrite Hgg; exact Ei|exact Hm].
    + left. split; [reflexivity|]. split; [unfold INF in *; unfold INFINITECOST in Ei; lia|]. intros num den d F Hw. rewrite <- Hgg.
      apply (goal_bound arcs max_id max_cost arc_cost bound_cost bound_fit start _ _ goal xg xs num den d I2 Hxs2 F Hxg2 (inflate_zero _ _ He Hh)); [|exact Hw].
      cbn. rewrite Hm. intros j key. rewrite lookup_empty. discriminate.
  - rewrite andb_false_r, andb_true_r. destruct (Keys.gt _ mk2) eqn:Hgt; cbn [andb].
    + right. right. split; [reflexivity|]. destruct Hend as [?|[Hk|[?|(k & Hk & Hl)]]]; [contradiction|specialize (Hfin Hm); lia|congruence|].
      exists k. destruct (later_space _ _ _ L1) as (_ & _ & _ & _ & _ & _ & _ & _ & Hrd1 & _). split; [lia|]. apply (late_later _ _ _ _ _ L1). exact Hl.
    + apply gt_first in Hgt. specialize (Hfin Hm). destruct (Z.eqb_spec (g sg) INFINITECOST) as [Ei|Ei]; [unfold INF, INFINITECOST in *; lia|].
      left. split; [reflexivity|]. split; [lia|]. intros num den d F Hw. rewrite <- Hgg.
      apply (goal_bound arcs max_id max_cost arc_cost bound_cost bound_fit start _ _ goal xg xs num den d I2 Hxs2 F Hxg2 (inflate_zero _ _ He Hh)); [|exact Hw].
      cbn. intros j key Hj. rewrite Hgg. destruct Hmk2 as [[? _]|(i & _ & Hmin)]; [contradiction|]. specialize (Hmin j key Hj). lia.
Qed.
End time.
End improve.
End AraImprove.
