(* ===== verification/AraReplan.v ===== *)
(** * ARA* between its searches (src/libsbpl: araplanner.cpp)

    INCONS merged into OPEN, keys recomputed, the search space initialised. *)

From S2P Require Import Prelude.
From S2P Require Import Doubles.
From S2P Require Import Environment.
From S2P Require Import Keys.
From S2P Require Import SbplHeap.
From S2P Require Import SbplHeapSpec.
From S2P Require Import SbplList.
From S2P Require Import AraPlanner.
From S2P Require Import AraCore.
From S2P Require Import AraSpec.
From S2P Require Import AraImprove.

Module AraReplan.
Import AraPlanner AraCore AraSpec AraImprove.

Section replan.
Context {E : Type} {eops : EnvOps E} {iops : IndexedEnvOps E}.
Context {Node : Type} {fwd : bool} {succ arcs : Node -> list (Node * Z)} {heur : Node -> Z} {root : Node} {max_id max_cost : Z}.
Context {laws : SearchEnvLaws (E := E) fwd succ arcs heur root max_id max_cost} {bounds : AraBounds max_id max_cost}.

Abbreviation planner := (ARAPlanner E).
Abbreviation space := (pSearchStateSpace_ (E := E)).
Abbreviation env_node := (se_node fwd succ arcs heur root).
Abbreviation base := (AraSpec.base (E := E) (fwd := fwd) (succ := succ) (arcs := arcs) (heur := heur) (root := root) (max_id := max_id) (max_cost := max_cost)).
Abbreviation node_of := (AraSpec.node_of (E := E) (fwd := fwd) (succ := succ) (arcs := arcs) (heur := heur) (root := root) (max_id := max_id) (max_cost := max_cost)).
Abbreviation view_of := (AraSpec.view_of (E := E) (fwd := fwd) (succ := succ) (arcs := arcs) (heur := heur) (root := root) (max_id := max_id) (max_cost := max_cost)).
Abbreviation extends := (AraSpec.extends (E := E) (fwd := fwd) (succ := succ) (arcs := arcs) (heur := heur) (root := root) (max_id := max_id) (max_cost := max_cost)).
Abbreviation inflate := (AraSpec.inflate (heur := heur)).
Abbreviation eps_ok := (AraSpec.eps_ok (heur := heur) (max_id := max_id) (max_cost := max_cost)).
Abbreviation vals := (AraSpec.vals (E := E) (fwd := fwd)).
Abbreviation good := (AraCore.good arcs max_id max_cost).
Abbreviation percolates p := (SbplHeap.percolates (heap (space p))).
Abbreviation requeued := (AraImprove.requeued (E := E) (fwd := fwd) (succ := succ) (arcs := arcs) (heur := heur) (root := root) (max_id := max_id) (max_cost := max_cost)).

(** ** INCONS into OPEN *)

(** Every state of the list [q] has a finite [g] and its heuristic. *)
Definition insertable (p : planner) (q : list Z) : Prop :=
  forall k, k ∈ q -> exists s x, rec p k = Some s /\ h s = heur x /\ 0 <= g s < INF.

(** The entries of OPEN once those of [q] are added. *)
Definition merged (m m' : gmap Z Keys.CKey) (q : list Z) : Prop :=
  forall k, is_Some (m' !! k) <-> is_Some (m !! k) \/ k ∈ q.

Lemma remove_head p m i q : base p m (i :: q) -> exists lm,
  SbplList.remove i ARA_INCONS_LIST_ID (inconslist (space p)) (listmemory (space p)) = Ok lm /\
  base (on_space (set_incons lm) p) m q.
Proof.
  intros B. pose proof (SbplList.remove_agrees _ _ _ _ (b_list _ _ _ B) i) as H. unfold SbplList.remove_spec in H.
  rewrite bool_decide_eq_true_2 in H by left. cbn [SbplList.erase] in H. rewrite Z.eqb_refl in H.
  unfold SbplList.agrees in H. destruct (SbplList.remove _ _ _ _) as [[l lm]|]; [|contradiction]. exists (l, lm). split; [reflexivity|].
  apply (base_list p m (i :: q)); [exact B|exact H|]. intros k Hk. eapply b_incons; [exact B|right; exact Hk].
Qed.

Lemma merge_loop_ok fuel : forall p m q, base p m q -> eps_ok (eps (space p)) -> insertable p q -> (forall k, k ∈ q -> m !! k = None) ->
  NoDup q -> flat m -> (length q < fuel)%nat -> SbplHeapSpec.room (heap (space p)) (Z.of_nat (length q)) ->
  exists p' m', merge_loop fuel p = Ok p' /\ base p' m' [] /\ merged m m' q /\ flat m' /\ requeued (24 * Z.of_nat (length q)) p p'.
Proof using bounds.
  induction fuel as [|fuel IH]; intros p m q B He Hins Hq Hnd Hfl Hfuel Hr; [lia|]. cbn [merge_loop].
  rewrite (SbplList.getfirst_stands _ _ _ _ (b_list _ _ _ B)), bind_ok_l. destruct q as [|i q]; cbn [head].
  - exists p, m. split; [reflexivity|]. split; [exact B|]. split; [|split; [exact Hfl|split_and!; [reflexivity..|cbn; lia|cbn; lia]]].
    intros k. split; [auto|]. intros [?|Hk]; [assumption|inversion Hk].
  - destruct (Hins i ltac:(left)) as (s & x & Ri & Hh & Hg). rewrite (state_at_rec _ _ _ Ri), bind_ok_l, (fvalue_ok _ _ x He Hh Hg), bind_ok_l.
    cbn [length] in Hr. destruct Hr as [Hr0 Hr].
    destruct (insert_open p m (i :: q) i s (g s + inflate (eps (space p)) x) B Ri (Hq i ltac:(left)) (long_fvalue _ x _ He Hg)) as (hx & -> & B1 & P1).
    { split; [exact Hr0|lia]. }
    rewrite bind_ok_l. destruct (remove_head _ _ _ _ B1) as (lm & Erm & B2).
    change (inconslist (space (on_space (set_open hx) p))) with (inconslist (space p)) in Erm.
    change (listmemory (space (on_space (set_open hx) p))) with (listmemory (space p)) in Erm. rewrite Erm, bind_ok_l.
    change (on_space (set_incons lm) (on_space (set_open hx) p)) with (on_space (fun s => set_incons lm (set_open hx s)) p) in B2.
    set (p1 := on_space (fun s => set_incons lm (set_open hx s)) p) in *. set (m1 := <[i := Keys.mkKey (g s + inflate (eps (space p)) x) 0]> m) in *.
    apply NoDup_cons in Hnd as [Hni Hnd].
    destruct (IH p1 m1 q B2 He) as (p2 & m2 & E2 & B3 & M2 & F2 & X2 & S2 & N2 & P2); auto.
    + intros k Hk. apply (Hins k). right. exact Hk.
    + intros k Hk. unfold m1. rewrite lookup_insert_ne by (intros ->; contradiction). apply Hq. right. exact Hk.
    + intros k key [[<- <-]|[_ Hk]]%lookup_insert_Some; [reflexivity|]. eapply Hfl. exact Hk.
    + cbn in Hfuel. lia.
    + change (heap (space p1)) with (fst hx). split; lia.
    + exists p2, m2. split; [exact E2|]. split; [exact B3|]. split; [|split; [exact F2|]].
      * intros k. rewrite (M2 k). unfold m1. rewrite lookup_insert_is_Some, elem_of_cons. destruct (decide (i = k)) as [->|Hne]; [tauto|].
        split; [intros [[?|[_ ?]]|?]; auto; congruence|]. intros [?|[->|?]]; auto.
      * change (heap (space p1)) with (fst hx) in P2. split_and!; [|exact S2|exact N2|lia|cbn [length]; lia].
        etransitivity; [|exact X2]. etransitivity; [apply (extends_open p hx)|apply (extends_incons (on_space (set_open hx) p) lm)].
Qed.

Lemma BuildNewOPENList_ok p m q : 0 <= max_id -> base p m q -> eps_ok (eps (space p)) -> insertable p q -> (forall k, k ∈ q -> m !! k = None) ->
  flat m -> SbplHeapSpec.room (heap (space p)) max_id ->
  exists p' m', BuildNewOPENList p = Ok p' /\ base p' m' [] /\ merged m m' q /\ flat m' /\ requeued (24 * max_id) p p'.
Proof using bounds.
  intros Hmax B He Hins Hq Hfl [Hr0 Hr]. unfold BuildNewOPENList.
  pose proof (SbplList.stands_nodup _ _ _ _ (b_list _ _ _ B)) as Hnd.
  assert (Hlen : Z.of_nat (length q) <= Z.max 0 max_id) by (apply (indices_few p m q q B Hnd); intros k Hk; eapply b_incons; eassumption).
  rewrite (SbplList.stands_size _ _ _ _ (b_list _ _ _ B)).
  destruct (merge_loop_ok (S (Z.to_nat (Z.of_nat (length q)))) p m q B He Hins Hq Hnd Hfl) as (p' & m' & E1 & B' & M' & F' & X & S & N & P).
  - lia.
  - split; [exact Hr0|lia].
  - exists p', m'. split; [exact E1|]. split; [exact B'|]. split; [exact M'|]. split; [exact F'|]. split_and!; auto; lia.
Qed.

(** ** Recomputing the keys *)

(** The key of the state [k] under [e]. *)
Definition new_keys (p : planner) (m : gmap Z Keys.CKey) : gmap Z Keys.CKey :=
  map_imap (fun k key =>
    match rec p k with
    | Some s => match fvalue (eps (space p)) s with Ok f => Some (Keys.mkKey f (Keys.key_1 key)) | Err _ => None end
    | None => None
    end) m.

Lemma new_keys_lookup p m k s x : rec p k = Some s -> eps_ok (eps (space p)) -> h s = heur x -> 0 <= g s < INF ->
  new_keys p m !! k = (fun key => Keys.mkKey (g s + inflate (eps (space p)) x) (Keys.key_1 key)) <$> m !! k.
Proof.
  intros Hk He Hh Hg. unfold new_keys. rewrite map_lookup_imap. destruct (m !! k) as [key|]; [|reflexivity].
  cbn. rewrite Hk, (fvalue_ok _ _ x He Hh Hg). reflexivity.
Qed.

Lemma reevaluate_ok p m q : base p m q -> eps_ok (eps (space p)) -> insertable p (elements (dom m)) -> flat m ->
  exists cells, foldM (reevaluate (space p)) (SbplHeap.heap (heap (space p))) (seqZ 1 (SbplHeap.currentsize (heap (space p)))) = Ok cells /\
    SbplHeapSpec.cells (SbplHeap.set_heap cells (heap (space p))) (heapindices (space p)) (new_keys p m).
Proof.
  intros B He Hins Hfl. destruct (b_heap _ _ _ B) as [C _]. set (H := heap (space p)) in *. set (n := SbplHeap.currentsize H).
  pose proof C as [[S1 S2 S3] Hc Hm Hv].
  assert (Hst : forall k key, m !! k = Some key -> exists s x, rec p k = Some s /\ h s = heur x /\ 0 <= g s < INF).
  { intros k key Hk. apply Hins. apply elem_of_elements, elem_of_dom. eauto. }
  set (fresh := fun e : SbplHeap.heapelement Keys.CKey => match new_keys p m !! SbplHeap.heapstate e with
    Some key => SbplHeap.mkElem (SbplHeap.heapstate e) key | None => e end).
  assert (Hfresh : forall e, m !! SbplHeap.heapstate e = Some (SbplHeap.key e) -> exists s x,
    rec p (SbplHeap.heapstate e) = Some s /\ h s = heur x /\ 0 <= g s < INF /\
    fresh e = SbplHeap.mkElem (SbplHeap.heapstate e) (Keys.mkKey (g s + inflate (eps (space p)) x) (Keys.key_1 (SbplHeap.key e))) /\
    new_keys p m !! SbplHeap.heapstate e = Some (SbplHeap.key (fresh e))).
  { intros e Hin. destruct (Hst _ _ Hin) as (s & x & Hs & Hh & Hg). exists s, x. unfold fresh.
    rewrite (new_keys_lookup p m _ s x Hs He Hh Hg), Hin. cbn. auto. }
  destruct (foldM_inv (reevaluate (space p)) (fun done cs => length cs = length (SbplHeap.heap H) /\ forall i e, aget (SbplHeap.heap H) i = Ok (Some e) ->
      1 <= i <= n -> aget cs i = Ok (Some (if decide (i <= Z.of_nat (length done)) then fresh e else e)))
    (seqZ 1 n) (SbplHeap.heap H)) as (cs & E1 & Hlen & Hcs).
  - split; [reflexivity|]. intros i e Hi Hr. rewrite decide_False by (cbn; lia). exact Hi.
  - intros done i todo cs Hl [Hlen Hcs].
    assert (Hi : i = Z.of_nat (length done) + 1).
    { pose proof (f_equal (fun s => s !! length done) Hl) as Hk. cbn in Hk. rewrite list_lookup_middle in Hk by reflexivity.
      apply lookup_seqZ in Hk. lia. }
    assert (Hn : Z.of_nat (length done) < n).
    { apply (f_equal length) in Hl. rewrite length_seqZ, length_app in Hl. cbn in Hl. lia. }
    destruct (Hc i ltac:(lia)) as (e & Ee & Hix & Hin). destruct (Hfresh e Hin) as (s & x & Hs & Hh & Hg & Ef & _).
    unfold reevaluate. rewrite (SbplHeapSpec.cheap_read_some _ _ e), bind_ok_l by (rewrite (Hcs i e Ee) by lia; rewrite decide_False by lia; reflexivity).
    change (aget (StateArray (space p)) (SbplHeap.heapstate e)) with (state_at p (SbplHeap.heapstate e)).
    rewrite (state_at_rec _ _ _ Hs), bind_ok_l, (fvalue_ok _ _ x He Hh Hg), bind_ok_l, aset_in by lia. rewrite <- Ef.
    eexists. split; [reflexivity|]. split; [rewrite length_insert; exact Hlen|].
    intros j e' Hj Hjr. rewrite aget_insert by lia. rewrite length_app. cbn [length]. destruct (decide (j = i)) as [->|Hne].
    + rewrite Ee in Hj. injection Hj as <-. rewrite decide_True by lia. reflexivity.
    + rewrite (Hcs j e' Hj Hjr). destruct (decide (j <= Z.of_nat (length done))); [rewrite decide_True by lia|rewrite decide_False by lia]; reflexivity.
  - exists cs. split; [exact E1|]. rewrite length_seqZ in Hcs.
    assert (Hcs' : forall i e, aget (SbplHeap.heap H) i = Ok (Some e) -> 1 <= i <= n -> aget cs i = Ok (Some (fresh e))).
    { intros i e Hi Hr. rewrite (Hcs i e Hi Hr), decide_True by lia. reflexivity. }
    assert (Hst' : forall e, SbplHeap.heapstate (fresh e) = SbplHeap.heapstate e) by (intros e; unfold fresh; destruct (new_keys p m !! _); reflexivity).
    split; cbn [SbplHeap.heap SbplHeap.currentsize SbplHeap.set_heap].
    + split; cbn; [lia|exact S2|exact S3].
    + intros i Hi. destruct (Hc i Hi) as (e & Ee & Hix & Hin). exists (fresh e). rewrite Hst'. destruct (Hfresh e Hin) as (_ & _ & _ & _ & _ & _ & Hk). auto.
    + intros k key Hk. assert (is_Some (m !! k)) as [key0 Hk0].
      { unfold new_keys in Hk. rewrite map_lookup_imap in Hk. destruct (m !! k); [eauto|discriminate]. }
      destruct (Hm k key0 Hk0) as [Hr Hcell]. split; [exact Hr|]. rewrite (Hcs' _ _ Hcell Hr). do 2 f_equal.
      unfold fresh. cbn [SbplHeap.heapstate]. rewrite Hk. reflexivity.
    + intros k key Hk. unfold new_keys in Hk. rewrite map_lookup_imap in Hk. destruct (m !! k) as [key0|] eqn:Hk0; [|discriminate].
      cbn in Hk. destruct (Hst k key0 Hk0) as (s & x & Hs & Hh & Hg). rewrite Hs, (fvalue_ok _ _ x He Hh Hg) in Hk. injection Hk as <-.
      rewrite (Hfl k key0 Hk0). exact (long_fvalue _ x _ He Hg).
Qed.

Lemma Reevaluatefvals_ok p m q : base p m q -> eps_ok (eps (space p)) -> insertable p (elements (dom m)) -> flat m ->
  SbplHeapSpec.room (heap (space p)) max_id -> 0 <= max_id -> exists hx, Reevaluatefvals p =
      Ok (on_space (fun s => set_flags false (bReinitializeSearchStateSpace s) (bNewSearchIteration s) (set_open hx s)) p) /\
    base (on_space (set_open hx) p) (new_keys p m) q /\ percolates p <= SbplHeap.percolates (fst hx) <= percolates p + 24 * max_id.
Proof.
  intros B He Hins Hfl [Hr0 Hr] Hmax. unfold Reevaluatefvals. destruct (reevaluate_ok p m q B He Hins Hfl) as (cs & -> & C). rewrite bind_ok_l.
  set (h1 := SbplHeap.set_heap cs (heap (space p))) in *.
  assert (Hsz : SbplHeap.currentsize (heap (space p)) <= max_id).
  { rewrite <- (SbplHeapSpec.cells_size _ _ _ (proj1 (b_heap _ _ _ B))). pose proof (open_size p m q B). lia. }
  destruct (SbplHeapSpec.makeheap_ok h1 _ _ C) as (h2 & ix2 & -> & R & F & _ & P).
  { split; [exact Hr0|]. change (SbplHeap.currentsize h1) with (SbplHeap.currentsize (heap (space p))).
    change (SbplHeap.percolates h1) with (percolates p). lia. }
  rewrite bind_ok_l. exists (h2, ix2). split; [reflexivity|]. split.
  - apply (base_heap p m q); [exact B|exact R|..].
    + intros k Hk. rewrite (F k Hk). destruct (m !! k) as [key|] eqn:Em; [|apply (b_noheap _ _ _ B); exact Em].
      exfalso. destruct (Hins k) as (s & x & Hs & Hh & Hg); [apply elem_of_elements, elem_of_dom; eauto|].
      rewrite (new_keys_lookup p m k s x Hs He Hh Hg), Em in Hk. discriminate.
    + intros k key Hk. unfold new_keys in Hk. rewrite map_lookup_imap in Hk. destruct (m !! k) eqn:Em; [|discriminate]. eapply b_open; eassumption.
  - cbn [fst]. change (SbplHeap.currentsize h1) with (SbplHeap.currentsize (heap (space p))) in P.
    change (SbplHeap.percolates h1) with (percolates p) in P. lia.
Qed.

(** ** One round of the main loop *)

Context {max_deg : Z} {Hdeg : forall x, Z.of_nat (length (arcs x)) <= max_deg}.
Context (clock : nat -> Z).
Abbreviation late := (AraImprove.late (E := E) clock).

(** The iteration the search is in, or is about to begin. *)
Definition iteration (p : planner) : Z :=
  if bNewSearchIteration (space p) then searchiteration (space p) + 1 else searchiteration (space p).

(** The planner at the head of the main loop. *)
Record searching (p : planner) (m : gmap Z Keys.CKey) (q : list Z) (goal start : Z) (xs xg : Node) : Prop := {
  ss_base : base p m q;
  ss_goal : searchgoalstate (space p) = Some goal;
  ss_start : searchstartstate (space p) = Some start;
  ss_xg : node_of p goal = Some xg;
  ss_xs : node_of p start = Some xs;
  ss_good : good start (inflate (eps (space p))) (view_of (iteration p) p m q) none;
  ss_eval : bReevaluatefvals (space p) = false;
  ss_eps : eps_ok (eps (space p));
  ss_iteration : 1 <= iteration p;
}.

Lemma finite_insertable it p m q l : base p m q -> searchgoalstate (space p) <> None ->
  (forall k, k ∈ l -> 0 <= val_g (vals it p k) < INF) -> insertable p l.
Proof.
  intros B Hg H k Hk. specialize (H k Hk). destruct (vals_cur (fwd := fwd) it p k) as [s Hs]; [lia|]. pose proof Hs as [R _]%cur_rec.
  destruct (table_node p m q B k s R) as [x Hx]. exists s, x. split; [exact R|]. split; [exact (b_h _ _ _ B Hg k s x R Hx)|].
  unfold AraSpec.vals in H. rewrite Hs in H. exact H.
Qed.

Lemma vals_iteration it it' p k : val_g (vals it p k) = val_g (vals it' p k) /\ val_v (vals it p k) = val_v (vals it' p k) /\
  val_best (vals it p k) = val_best (vals it' p k).
Proof. unfold AraSpec.vals. destruct (cur p k); auto. Qed.

(** Nothing is closed in an iteration to come. *)
Lemma none_closed it p m q k : base p m q -> searchiteration (space p) < it -> val_closed (vals it p k) = false.
Proof.
  intros B Hit. unfold AraSpec.vals. destruct (cur p k) as [s|] eqn:Hs; [|reflexivity]. pose proof (b_closed _ _ _ B k s Hs).
  apply Z.eqb_neq. lia.
Qed.

(** The flags, counters and [eps] replaced. *)
Definition controls (e sat : Doubles.double) (it : Z) (reevaluate newiteration : bool) (p : planner) : planner :=
  on_space (fun s => set_eps e (set_satisfied sat (set_counters it (callnumber s)
    (set_flags reevaluate (bReinitializeSearchStateSpace s) newiteration s)))) p.

Lemma base_controls e sat it a b p m q : searchiteration (space p) <= it -> base p m q -> base (controls e sat it a b p) m q.
Proof. intros Hit. apply base_fields; auto. Qed.

Lemma base_flags a b c p m q : base p m q -> base (on_space (set_flags a b c) p) m q.
Proof. apply base_fields; auto. reflexivity. Qed.

Lemma insertable_open it start p m q f pending : base p m q -> searchgoalstate (space p) <> None ->
  good start f (view_of it p m q) pending -> insertable p q /\ insertable p (elements (dom m)) /\ (forall k, k ∈ q -> m !! k = None) /\ flat m.
Proof.
  intros B Hg I. split_and!.
  - apply (finite_insertable it p m q); auto. intros k Hk. pose proof (gd_closed _ _ _ _ _ _ _ I k (gd_incons _ _ _ _ _ _ _ I k Hk)) as Hv.
    pose proof (gd_le _ _ _ _ _ _ _ I k) as Hle. cbn in *. lia.
  - apply (finite_insertable it p m q); auto. intros k Hk. apply elem_of_elements, elem_of_dom in Hk as [key Hk].
    pose proof (gd_open _ _ _ _ _ _ _ I k key Hk) as [Hv _]. pose proof (gd_le _ _ _ _ _ _ _ I k) as Hle. cbn in *. lia.
  - intros k Hk. pose proof (gd_incons _ _ _ _ _ _ _ I k Hk) as Hc. destruct (m !! k) as [key|] eqn:Em; [|reflexivity].
    pose proof (gd_open _ _ _ _ _ _ _ I k key Em) as (_ & Hc' & _). congruence.
  - eapply good_flat. exact I.
Qed.

(** What is known of a state, however many searches ago. *)
Definition gval (p : planner) (k : Z) : Z := val_g (vals 0 p k).

Lemma gval_vals it p k : val_g (vals it p k) = gval p k.
Proof. apply vals_iteration. Qed.

(** [p'] comes from [p] in the same call. *)
Record onward (p p' : planner) : Prop := {
  on_params : params p' = params p;
  on_started : TimeStarted p' = TimeStarted p;
  on_repair : repair_time p' = repair_time p;
  on_readings : (readings p <= readings p')%nat;
  on_node : forall k x, node_of p k = Some x -> node_of p' k = Some x;
  on_env : forall j x, env_node (environment_ p) j = Some x -> env_node (environment_ p') j = Some x;
  on_gval : forall k, gval p' k <= gval p k;
  on_call : callnumber (space p') = callnumber (space p);
  on_reinit : bReinitializeSearchStateSpace (space p') = bReinitializeSearchStateSpace (space p);
}.

#[export] Instance onward_preorder : PreOrder onward.
Proof.
  split; [intros p; split; auto; lia|]. intros p1 p2 p3 [] []. split; try congruence; try lia; auto.
  intros k. etransitivity; eauto.
Qed.

Lemma onward_later it p p' : later (fwd := fwd) (succ := succ) (arcs := arcs) (heur := heur) (root := root) (max_id := max_id) (max_cost := max_cost) it p p' ->
  onward p p'.
Proof.
  intros L. destruct (later_space _ _ _ L) as (_ & _ & Hc & _ & _ & _ & Ht & Hr & Hn & Hp & _ & _ & _ & _ & Hi).
  destruct L as (_ & X & Env & G & _). split; auto. intros k. rewrite <- !(gval_vals it). apply G.
Qed.

(** The next iteration with a smaller [eps]. *)
Lemma next_search_ok e p m q goal start xs xg : searching p m q goal start xs xg -> eps_ok e -> searchiteration (space p) + 1 < 2 ^ 16 ->
  SbplHeapSpec.room (heap (space p)) (2 * max_id) -> exists p1 p2 m2,
    BuildNewOPENList (controls e (eps_satisfied (space p)) (searchiteration (space p)) true true p) = Ok p1 /\
    bNewSearchIteration (space p1) = true /\
    let p1' := on_space (fun s => set_flags (bReevaluatefvals s) (bReinitializeSearchStateSpace s) false
                  (set_counters (to_ushort (searchiteration s + 1)) (callnumber s) s)) p1 in
    bReevaluatefvals (space p1') = true /\ Reevaluatefvals p1' = Ok p2 /\ searching p2 m2 [] goal start xs xg /\
    bNewSearchIteration (space p2) = false /\ eps (space p2) = e /\ eps_satisfied (space p2) = eps_satisfied (space p) /\
    searchiteration (space p2) = searchiteration (space p) + 1 /\ stats p2 = stats p /\ searchexpands p2 = searchexpands p /\
    percolates p <= percolates p2 <= percolates p + 48 * max_id /\ onward p p2 /\ (forall k, gval p2 k = gval p k).
Proof using bounds.
  intros S He Hit [Hr0 Hr]. destruct S as [B Hgoal Hstart Hxg Hxs I Hev He0 Hit1]. pose proof (node_range _ _ _ _ _ B Hxs) as Hmax.
  assert (Hg : searchgoalstate (space p) <> None) by congruence.
  destruct (insertable_open _ _ _ _ _ _ _ B Hg I) as (Iq & Im & Hdis & Hfl).
  set (p0 := controls _ _ _ _ _ p). assert (B0 : base p0 m q) by (apply base_controls; [lia|exact B]).
  destruct (BuildNewOPENList_ok p0 m q ltac:(lia) B0 He Iq Hdis Hfl) as (p1 & m1 & E1 & B1 & M1 & F1 & (F & X1) & S1 & N1 & P1).
  { change (heap (space p0)) with (heap (space p)). split; lia. }
  change (percolates p0) with (percolates p) in P1. destruct F as (e0 & hx0 & lm0 & l0 & ->).
  set (p1 := with_ e0 hx0 lm0 l0 p0) in *. exists p1.
  assert (Hush : to_ushort (searchiteration (space p) + 1) = searchiteration (space p) + 1).
  { pose proof (b_iteration _ _ _ B). unfold to_ushort. apply Z.mod_small. lia. }
  set (p1' := on_space _ p1).
  assert (B1' : base p1' m1 []).
  { apply (base_fields p1); auto. change (searchiteration (space p1')) with (to_ushort (searchiteration (space p) + 1)).
    change (searchiteration (space p1)) with (searchiteration (space p)). lia. }
  assert (R1 : forall k, rec p1' k = rec p k) by (intros k; unfold rec; change (states p1') with (states p1); rewrite S1; reflexivity).
  assert (I1 : insertable p1' (elements (dom m1))).
  { intros k [key Hk]%elem_of_elements%elem_of_dom. rewrite R1. destruct (proj1 (M1 k) ltac:(eauto)) as [Hk'|Hk'].
    - apply Im. apply elem_of_elements, elem_of_dom. exact Hk'.
    - apply Iq. exact Hk'. }
  destruct (Reevaluatefvals_ok p1' m1 [] B1' He I1 F1) as (hx & E2 & B2 & P2); [|lia|].
  { change (heap (space p1')) with (heap (space p1)). split; lia. }
  change (percolates p1') with (percolates p1) in P2. set (p2 := on_space _ p1') in E2.
  exists p2, (new_keys p1' m1). split; [exact E1|]. split; [reflexivity|]. cbn zeta. split; [reflexivity|]. split; [exact E2|].
  assert (V2 : forall it k, vals it p2 k = vals it p k).
  { intros it k. apply vals_states; [exact S1|reflexivity]. }
  assert (N2 : forall k, node_of p2 k = node_of p k) by (intros k; apply node_of_states; [exact S1|exact N1]).
  assert (B2' : base p2 (new_keys p1' m1) []).
  { apply (base_flags false (bReinitializeSearchStateSpace (space p1')) (bNewSearchIteration (space p1')) (on_space (set_open hx) p1')). exact B2. }
  assert (It2 : iteration p2 = searchiteration (space p) + 1) by exact Hush.
  assert (G2 : forall k, gval p2 k = gval p k) by (intros k; unfold gval; rewrite V2; reflexivity).
  split; [|do 3 (split; [reflexivity|])].
  2: split; [exact It2|]. 2: do 2 (split; [reflexivity|]). 2: split; [|split; [|exact G2]].
  - split; [exact B2'|exact Hgoal|exact Hstart|rewrite N2; exact Hxg|rewrite N2; exact Hxs| |reflexivity|exact He|rewrite It2; pose proof (b_iteration _ _ _ B); lia].
    change (eps (space p2)) with e. rewrite It2.
    apply (iterate_good arcs max_id max_cost start (inflate (eps (space p))) (inflate e) (view_of (iteration p) p m q)); cbn.
    + exact I.
    + exact N2.
    + intros k. rewrite V2. apply vals_iteration.
    + intros k. rewrite V2. apply vals_iteration.
    + intros k. rewrite V2. apply vals_iteration.
    + intros k. rewrite V2. eapply none_closed; [exact B|lia].
    + reflexivity.
    + intros k. rewrite <- (M1 k). split.
      * intros [key Hk]. destruct (I1 k) as (s & x & Hs & Hh & Hgs); [apply elem_of_elements, elem_of_dom; eauto|].
        rewrite (new_keys_lookup p1' m1 k s x Hs He Hh Hgs), Hk. eexists. reflexivity.
      * intros [key Hk]. unfold new_keys in Hk. rewrite map_lookup_imap in Hk. destruct (m1 !! k); [eauto|discriminate].
    + intros k key x Hk Hx. unfold new_keys in Hk. rewrite map_lookup_imap in Hk. destruct (m1 !! k) as [key1|] eqn:Ek; [|discriminate]. cbn in Hk.
      destruct (I1 k) as (s & x' & Hs & Hh & Hgs); [apply elem_of_elements, elem_of_dom; eauto|].
      rewrite Hs in Hk. rewrite R1 in Hs. pose proof (b_h _ _ _ B Hg k s x Hs Hx) as Hhx.
      change (eps (space p1')) with e in Hk. rewrite (fvalue_ok _ _ x He Hhx Hgs) in Hk. cbn in Hk. injection Hk as <-. rewrite (F1 k key1 Ek).
      f_equal. f_equal. assert (Hv : val_g (vals (iteration p) p k) < INF).
      { destruct (proj1 (M1 k) ltac:(eauto)) as [[key' Hk']|Hk'].
        - apply (gd_open _ _ _ _ _ _ _ I k key' Hk').
        - pose proof (gd_closed _ _ _ _ _ _ _ I k (gd_incons _ _ _ _ _ _ _ I k Hk')). pose proof (gd_le _ _ _ _ _ _ _ I k) as Hle. cbn in *. lia. }
      destruct (vals_cur (fwd := fwd) (iteration p) p k ltac:(auto)) as [s' Hs']. pose proof Hs' as [R' _]%cur_rec.
      unfold AraSpec.vals. rewrite Hs'. cbn. congruence.
  - change (heap (space p2)) with (fst hx). lia.
  - split; try reflexivity.
    + intros k x. rewrite N2. auto.
    + intros j x. rewrite (N1 : environment_ p2 = environment_ p). auto.
    + intros k. rewrite G2. lia.
Qed.

(** The main loop goes on to a smaller [eps]. *)
Definition decreases (bFirst : bool) (p : planner) : bool :=
  Doubles.ltb (Doubles.fabs (Doubles.sub (eps_satisfied (space p)) (eps (space p)))) ERR_EPS && negb bFirst.
Definition searched_eps (bFirst : bool) (p : planner) : Doubles.double :=
  if decreases bFirst p then next_eps (params p) (eps (space p)) else eps (space p).

(** What a round of the main loop keeps. *)
Record round (n : Z) (p p' : planner) : Prop := {
  rd_onward : onward p p';
  rd_percolates : percolates p <= percolates p' <= percolates p + 24 * n;
  rd_iteration : searchiteration (space p) <= searchiteration (space p') <= searchiteration (space p) + 1;
}.

Lemma begin_search_ok bFirst p m q goal start xs xg : searching p m q goal start xs xg -> eps_ok (searched_eps bFirst p) ->
  searchiteration (space p) + 1 < 2 ^ 16 -> SbplHeapSpec.room (heap (space p)) (2 * max_id) -> exists p' m' q',
    begin_search bFirst p = Ok p' /\ searching p' m' q' goal start xs xg /\ bNewSearchIteration (space p') = false /\
    eps (space p') = searched_eps bFirst p /\ eps_satisfied (space p') = eps_satisfied (space p) /\ round (2 * max_id) p p'.
Proof using bounds.
  intros S He Hit Hr. pose proof S as [B _ _ _ Hxs I Hev _ Hit1]. pose proof (node_range _ _ _ _ _ B Hxs) as Hmax.
  unfold begin_search, searched_eps, decreases in *. destruct (_ && _).
  - destruct (next_search_ok _ p m q goal start xs xg S He Hit Hr) as (p1 & p2 & m2 & E1 & Hnew & H). cbn zeta in H.
    destruct H as (Hre & E2 & S2 & Hb & Ee & Es & Ei & _ & _ & Hp & O & _). unfold decrease_eps.
    change (on_space _ p) with (controls (next_eps (params p) (eps (space p))) (eps_satisfied (space p)) (searchiteration (space p)) true true p).
    rewrite E1, bind_ok_l, Hnew, Hre, E2. exists p2, m2, []. split_and!; auto. split; [exact O|lia|lia].
  - rewrite bind_ok_l. assert (Hush : to_ushort (searchiteration (space p) + 1) = searchiteration (space p) + 1).
    { pose proof (b_iteration _ _ _ B). unfold to_ushort. apply Z.mod_small. lia. }
    destruct (bNewSearchIteration (space p)) eqn:Eb.
    + set (p1 := on_space _ p).
      assert (E1 : p1 = controls (eps (space p)) (eps_satisfied (space p)) (searchiteration (space p) + 1) false false p).
      { unfold p1, controls, on_space. cbn. rewrite Hush, Hev. reflexivity. }
      rewrite E1. eexists _, m, q. split; [reflexivity|].
      split; [|split; [reflexivity|split; [reflexivity|split; [reflexivity|split; [split; auto; reflexivity|cbn; lia|cbn; lia]]]]].
      destruct S as [_ S1 S2 S3 S4 S5 S6 S7 S8]. split; auto; [apply base_controls; [lia|exact B]|..].
      * unfold iteration in S5. rewrite Eb in S5. exact S5.
      * unfold iteration in S8. rewrite Eb in S8. exact S8.
    + rewrite Hev. exists p, m, q. split_and!; auto. split; [reflexivity|lia|lia].
Qed.

(** A round of the main loop: what is found is within the factor of its [eps]. *)
Lemma improve_once_ok bFirst Max fuel p m q goal start xs xg : searching p m q goal start xs xg -> heur xg = 0 ->
  eps_ok (searched_eps bFirst p) -> searchiteration (space p) + 1 < 2 ^ 16 -> max_id < Z.of_nat fuel ->
  SbplHeapSpec.room (heap (space p)) (max_id * (3 + max_deg)) -> exists p' m' q' sg r,
    improve_once clock fuel bFirst Max p = Ok p' /\ searching p' m' q' goal start xs xg /\ cur p' goal = Some sg /\ 0 <= g sg <= INF /\
    eps (space p') = searched_eps bFirst p /\ round (max_id * (3 + max_deg)) p p' /\
    eps_satisfied (space p') = (if r =? 1 then searched_eps bFirst p else eps_satisfied (space p)) /\
    (r = 1 /\ g sg < INF /\ within (arcs := arcs) (heur := heur) (searched_eps bFirst p) xs xg (g sg) \/
     r = 0 /\ g sg = INF /\ (forall d, ~ AraCore.walk arcs xs xg d) \/
     r = 2 /\ exists k, (readings p <= k < readings p')%nat /\ late Max p k).
Proof using bounds Hdeg.
  intros S Hh He Hit Hfuel Hr. pose proof (Hdeg xs) as Hd. pose proof (node_range _ _ _ _ _ (ss_base _ _ _ _ _ _ _ S) (ss_xs _ _ _ _ _ _ _ S)) as Hmax.
  assert (Hr1 : SbplHeapSpec.room (heap (space p)) (2 * max_id)) by (destruct Hr as [Hr0 Hr]; split; [exact Hr0|nia]).
  destruct (begin_search_ok bFirst p m q goal start xs xg S He Hit Hr1) as (p1 & m1 & q1 & E1 & S1 & Hb1 & He1 & Hs1 & R1).
  unfold improve_once. rewrite E1, bind_ok_l. destruct S1 as [B1 Hg1 Hst1 Hxg1 Hxs1 I1 Hev1 Heps1 Hit1].
  assert (Hi1 : iteration p1 = searchiteration (space p1)) by (unfold iteration; rewrite Hb1; reflexivity).
  destruct (ImprovePath_ok (Hdeg := Hdeg) clock (iteration p1) start goal xs xg Max fuel p1 m1 q1 Hi1 Hit1 B1 Heps1 Hg1 I1 Hxs1 Hxg1 Hh Hfuel)
    as (r & n & p2 & m2 & q2 & sg & E2 & B2 & I2 & Hsg & L & P2 & O).
  { destruct Hr as [Hr0 Hr], (rd_percolates _ _ _ R1). split; lia. }
  rewrite E2, bind_ok_l. destruct (later_space _ _ _ L) as (Le & Li & Lc & Lg & Ls & Lsat & Lt & Lrep & Lrd & Lp & _ & _ & Lnew & Lev & _).
  set (sat := if r =? 1 then searched_eps bFirst p else eps_satisfied (space p)).
  set (p3 := on_space (set_satisfied sat) (set_expands n p2)).
  exists p3, m2, q2, sg, r.
  assert (E3 : (if r =? 1 then on_space (fun s => set_satisfied (eps s) s) (set_expands n p2) else set_expands n p2) = p3).
  { unfold p3, sat. destruct (r =? 1); [unfold on_space, set_satisfied; cbn; rewrite Le, He1; reflexivity|].
    rewrite <- Hs1, <- Lsat. clear. destruct p2 as [? []]. reflexivity. }
  rewrite E3. split; [reflexivity|].
  assert (Hi3 : iteration p3 = iteration p1) by (change (iteration p3) with (iteration p2); unfold iteration; rewrite Lnew, Li; reflexivity).
  pose proof (gd_le _ _ _ _ _ _ _ I2 goal) as Hle. cbn in Hle. unfold AraSpec.vals in Hle. rewrite Hsg in Hle. cbn in Hle.
  split; [|split; [exact Hsg|split; [lia|split; [|split; [|split; [reflexivity|]]]]]].
  - split; [exact (base_fields p2 p3 _ _ eq_refl eq_refl eq_refl eq_refl eq_refl eq_refl eq_refl eq_refl eq_refl (Z.le_refl _) B2)|..].
    + exact (eq_trans Lg Hg1).
    + exact (eq_trans Ls Hst1).
    + apply L. exact Hxg1.
    + apply L. exact Hxs1.
    + rewrite Hi3. change (eps (space p3)) with (eps (space p2)). rewrite Le. exact I2.
    + exact (eq_trans Lev Hev1).
    + change (eps (space p3)) with (eps (space p2)). rewrite Le. exact Heps1.
    + rewrite Hi3. exact Hit1.
  - change (eps (space p3)) with (eps (space p2)). rewrite Le. exact He1.
  - destruct R1 as [O1 P1 J1]. pose proof (onward_later _ _ _ L) as OL. split.
    + etransitivity; [exact O1|]. etransitivity; [exact OL|]. split; auto; reflexivity.
    + change (heap (space p3)) with (heap (space p2)). destruct L as (_ & _ & _ & _ & L0). lia.
    + change (searchiteration (space p3)) with (searchiteration (space p2)). lia.
  - destruct O as [(-> & H1 & H2)|[(-> & H1 & H2)|(-> & k & Hk & Hl)]].
    + left. split_and!; auto. rewrite He1 in H2. exact H2.
    + right. left. auto.
    + right. right. split; [reflexivity|]. exists k. change (readings p3) with (readings p2). destruct R1 as [[_ H2 H3 H4] _ _]. split; [lia|].
      unfold AraImprove.late in Hl |- *. rewrite <- H2, <- H3, <- Hs1. exact Hl.
Qed.

(** ** The main loop *)

(** The bound on the path found so far. *)
Definition settled (goal : Z) (xs xg : Node) (p : planner) : Prop :=
  eps_satisfied (space p) = Doubles.of_int INFINITECOST \/
  gval p goal < INF /\ within (arcs := arcs) (heur := heur) (eps_satisfied (space p)) xs xg (gval p goal).

(** [k] is a reading of the clock that ends the call. *)
Definition timeout (Max : Doubles.double) (p : planner) (k : nat) : Prop :=
  over clock (TimeStarted p) Max k \/ over clock (TimeStarted p) (repair_time p) k.

(** Time that is over stays over. *)
Definition steady : Prop := forall t0 secs i j, (i <= j)%nat -> over clock t0 secs i -> over clock t0 secs j.

Lemma searching_same p p' m q goal start xs xg : environment_ p' = environment_ p -> space p' = space p -> bforwardsearch p' = bforwardsearch p ->
  searching p m q goal start xs xg -> searching p' m q goal start xs xg.
Proof.
  intros E1 E2 E3 [B S1 S2 S3 S4 S5 S6 S7 S8]. destruct p, p'. cbn in E1, E2, E3. subst. split; auto. revert B. apply base_same; reflexivity.
Qed.

Lemma onward_same p p' : environment_ p' = environment_ p -> space p' = space p -> params p' = params p -> TimeStarted p' = TimeStarted p ->
  repair_time p' = repair_time p -> (readings p <= readings p')%nat -> onward p p'.
Proof. intros E1 E2 E3 E4 E5 E6. destruct p, p'. cbn in *. subst. split; auto. reflexivity. Qed.

Lemma gval_cur p k s : cur p k = Some s -> gval p k = g s.
Proof. intros Hs. unfold gval, AraSpec.vals. rewrite Hs. reflexivity. Qed.

Lemma goal_g_ok p goal s : searchgoalstate (space p) = Some goal -> cur p goal = Some s -> goal_g p = Ok (gval p goal).
Proof.
  intros Hg Hs. unfold goal_g. rewrite Hg. cbn [deref]. rewrite bind_ok_l. rewrite (gval_cur _ _ _ Hs). apply cur_rec in Hs as [Hs _].
  rewrite (state_at_rec _ _ _ Hs). reflexivity.
Qed.

Lemma record_stats_ok prev p goal s : searchgoalstate (space p) = Some goal -> cur p goal = Some s ->
  exists l n x, record_stats prev p = Ok (set_stats l n x p).
Proof.
  intros Hg Hs. unfold record_stats. set (c := _ && _). set (n := to_sint _).
  assert (Hc : goal_g (if c then set_stats (stats p) n (final_eps p) p else p) = Ok (gval p goal)).
  { destruct c; exact (goal_g_ok p goal s Hg Hs). }
  rewrite Hc, bind_ok_l. destruct c.
  - destruct (match last _ with None => true | Some _ => _ end); eexists _, _, _; reflexivity.
  - destruct (match last _ with None => true | Some _ => _ end); [eexists _, _, _; reflexivity|].
    exists (stats p), (num_of_expands_initial_solution p), (final_eps p). destruct p. reflexivity.
Qed.

Lemma in_time_late Max p k : steady -> (k < readings p)%nat -> late Max p k -> exists n, (readings p <= n)%nat /\
  in_time clock Max p = (false, set_clock (TimeStarted p) n p).
Proof.
  intros Hst Hk Hl. unfold in_time, elapsed_less. destruct Hl as [Ho|[Hs Ho]].
  - apply (Hst _ _ k (readings p)) in Ho; [|lia]. rewrite Ho. eexists. split; [|reflexivity]. lia.
  - apply (Hst _ _ k (S (readings p))) in Ho; [|lia]. destruct (Doubles.ltb _ (Doubles.mul Max _)).
    + change (eps_satisfied (pSearchStateSpace_ (set_clock (TimeStarted p) (S (readings p)) p))) with (eps_satisfied (space p)). rewrite Hs.
      cbn [readings set_clock TimeStarted repair_time]. rewrite Ho. eexists. split; [|reflexivity]. lia.
    + eexists. split; [|reflexivity]. lia.
Qed.

Lemma settled_onward goal xs xg p p' : onward p p' -> eps_satisfied (space p') = eps_satisfied (space p) -> settled goal xs xg p -> settled goal xs xg p'.
Proof.
  intros O Es [H|[H1 H2]]; [left; congruence|right]. pose proof (on_gval _ _ O goal) as Hg. split; [lia|]. rewrite Es.
  intros num den d F Hw. pose proof (H2 num den d F Hw). destruct F as [[F1 F2] _]. nia.
Qed.

Lemma late_timeout Max p p' k : onward p p' -> late Max p' k -> timeout Max p k.
Proof. intros O [H|[_ H]]; [left|right]; rewrite <- (on_started _ _ O); [exact H|]. rewrite <- (on_repair _ _ O). exact H. Qed.

(** A round with the head of the loop before it and the bookkeeping after it. *)
Lemma search_round_ok bFirst Max inner p m q goal start xs xg prev : searching p m q goal start xs xg -> heur xg = 0 -> settled goal xs xg p ->
  eps_ok (searched_eps bFirst p) -> searchiteration (space p) + 1 < 2 ^ 16 -> max_id < Z.of_nat inner ->
  SbplHeapSpec.room (heap (space p)) (max_id * (3 + max_deg)) -> exists p' m' q' sg r,
    (p2 ← improve_once clock inner bFirst Max p; record_stats prev p2) = Ok p' /\ searching p' m' q' goal start xs xg /\ cur p' goal = Some sg /\
    settled goal xs xg p' /\ eps (space p') = searched_eps bFirst p /\ round (max_id * (3 + max_deg)) p p' /\
    eps_satisfied (space p') = (if r =? 1 then searched_eps bFirst p else eps_satisfied (space p)) /\
    (r = 1 /\ g sg < INF /\ eps_satisfied (space p') = searched_eps bFirst p \/
     r = 0 /\ g sg = INF /\ (forall d, ~ AraCore.walk arcs xs xg d) \/
     r = 2 /\ exists k, (readings p <= k < readings p')%nat /\ late Max p' k /\ timeout Max p k).
Proof using bounds Hdeg.
  intros S Hh Hset He Hit Hin Hr.
  destruct (improve_once_ok bFirst Max inner p m q goal start xs xg S Hh He Hit Hin Hr) as (p1 & m1 & q1 & sg & r & -> & S1 & Hsg & Hgs & He1 & R1 & Hsat & O).
  rewrite bind_ok_l. destruct (record_stats_ok prev p1 goal sg (ss_goal _ _ _ _ _ _ _ S1) Hsg) as (l & n & x & ->).
  set (p' := set_stats l n x p1). assert (O' : onward p1 p') by (apply onward_same; reflexivity).
  exists p', m1, q1, sg, r. split; [reflexivity|]. split; [revert S1; apply searching_same; reflexivity|]. split; [exact Hsg|].
  assert (Hgv : gval p' goal = g sg) by (apply gval_cur; exact Hsg).
  destruct R1 as [R1 R2 R3]. pose proof (onward_preorder.(PreOrder_Transitive) _ _ _ R1 O') as Op.
  assert (Hr' : round (max_id * (3 + max_deg)) p p') by (split; [exact Op|exact R2|exact R3]).
  change (eps_satisfied (space p')) with (eps_satisfied (space p1)). change (eps (space p')) with (eps (space p1)).
  destruct O as [(-> & H1 & H2)|[(-> & H1 & H2)|(-> & k & Hk & Hl)]]; cbn [Z.eqb Pos.eqb] in Hsat |- *.
  - split; [|split; [exact He1|split; [exact Hr'|split; [exact Hsat|left; split_and!; auto]]]]. right.
    change (eps_satisfied (space p')) with (eps_satisfied (space p1)). rewrite Hsat, Hgv. split; [exact H1|exact H2].
  - split; [exact (settled_onward _ _ _ p p' Op Hsat Hset)|]. split; [exact He1|]. split; [exact Hr'|]. split; [exact Hsat|]. right. left. split_and!; auto.
  - split; [exact (settled_onward _ _ _ p p' Op Hsat Hset)|]. split; [exact He1|]. split; [exact Hr'|]. split; [exact Hsat|]. right. right. split; [reflexivity|].
    exists k. split; [exact Hk|]. split; [|eapply late_timeout; [reflexivity|exact Hl]]. unfold AraImprove.late in *.
    change (eps_satisfied (space p')) with (eps_satisfied (space p1)). rewrite Hsat, (on_started _ _ Op), (on_repair _ _ Op). exact Hl.
Qed.

(** What the main loop ends with. *)
Definition searched (bFirst : bool) (goal : Z) (xs xg : Node) (Max : Doubles.double) (p p' : planner) : Prop :=
  gval p' goal < INF /\ (bFirst = true \/ Doubles.ltb (final_epsilon (params p)) (eps_satisfied (space p')) = false) \/ gval p' goal = INF /\ (forall d, ~ AraCore.walk arcs xs xg d) \/
  exists k, (readings p <= k < readings p')%nat /\ timeout Max p k.

Section rounds.
Context (ps : parameters) (e0 : Doubles.double) (n : nat) (xs xg : Node) (goal start : Z).
Abbreviation eps_at k := (Nat.iter k (next_eps ps) e0).
Context (Hh : heur xg = 0) (Heps : forall k, eps_ok (eps_at k)).
Context (Hsame : forall k, Doubles.ltb (Doubles.fabs (Doubles.sub (eps_at k) (eps_at k))) ERR_EPS = true).
Context (Hfinal : forall k, (n <= k)%nat -> Doubles.ltb (final_epsilon ps) (eps_at k) = false).
Context (Hinf : Doubles.ltb (final_epsilon ps) (Doubles.of_int INFINITECOST) = true) (Hsteady : steady).

(** The rounds left: [eps] goes down once it is satisfied. *)
Definition rounds_left (j : nat) (p : planner) (fuel : nat) : Prop :=
  eps_satisfied (space p) = eps_at j /\ (n - j + 1 < fuel)%nat \/ (n - j + 2 < fuel)%nat.

Lemma searched_eps_at bFirst j p : params p = ps -> eps (space p) = eps_at j -> exists j', searched_eps bFirst p = eps_at j' /\ (j <= j')%nat /\
  (bFirst = false -> eps_satisfied (space p) = eps_at j -> j' = S j).
Proof using Hsame.
  intros Hp He. unfold searched_eps, decreases. rewrite Hp, He. destruct (_ && _) eqn:Ed.
  - exists (S j). split; [reflexivity|]. split; [lia|auto].
  - exists j. split; [reflexivity|]. split; [lia|]. intros -> Hs. rewrite Hs, Hsame in Ed. discriminate.
Qed.

(** The rest of [searched], when the loop ends at its head. *)
Lemma head_ends bFirst Max p k m q : params p = ps -> searching p m q goal start xs xg -> settled goal xs xg p ->
  let '(go, p1) := if Doubles.ltb (final_epsilon ps) (eps_satisfied (space p)) then in_time clock Max p else (false, p) in
  exists c, p1 = set_clock (TimeStarted p) c p /\ (readings p <= c)%nat /\
    (go = false -> searched bFirst goal xs xg Max p p1) /\ (steady -> (k < readings p)%nat -> late Max p k -> go = false) /\
    (go = true -> Doubles.ltb (final_epsilon ps) (eps_satisfied (space p)) = true).
Proof using Hinf.
  intros Hps S Hset. destruct (Doubles.ltb (final_epsilon ps) (eps_satisfied (space p))) eqn:Ef.
  - destruct (in_time_ok clock Max p) as (b & c & Ec & Hc & Hb). rewrite Ec. cbv beta iota. exists c. split; [reflexivity|]. split; [lia|]. split; [|split; [|auto]].
    + intros ->. destruct (Hb eq_refl) as (k' & Hk & Hl). right. right. exists k'. split; [exact Hk|]. eapply late_timeout; [reflexivity|exact Hl].
    + intros Hst Hk Hl. destruct (in_time_late Max p k Hst Hk Hl) as (c' & _ & Ec'). rewrite Ec in Ec'. injection Ec'. auto.
  - cbv beta iota. exists (readings p). replace (set_clock (TimeStarted p) (readings p) p) with p by (destruct p; reflexivity). split; [reflexivity|]. split; [lia|].
    split; [|split; [auto|discriminate]]. intros _. left. rewrite Hps. destruct Hset as [Hs|[Hs _]]; [|auto]. rewrite Hs, Hinf in Ef. discriminate.
Qed.

(** A planner the loop may end with, [f] iterations after [p]. *)
Record ended (bFirst : bool) (Max : Doubles.double) (f : nat) (p p' : planner) : Prop := {
  ed_searching : exists m q, searching p' m q goal start xs xg;
  ed_settled : settled goal xs xg p';
  ed_onward : onward p p';
  ed_eps : exists j, eps (space p') = eps_at j;
  ed_satisfied : eps_satisfied (space p') = eps_satisfied (space p) \/ exists j, eps_satisfied (space p') = eps_at j;
  ed_searched : searched bFirst goal xs xg Max p p';
  ed_cur : is_Some (cur p' goal);
  ed_percolates : percolates p <= percolates p' <= percolates p + 24 * (Z.of_nat f * (max_id * (3 + max_deg)));
  ed_iteration : searchiteration (space p) <= searchiteration (space p') <= searchiteration (space p) + Z.of_nat f;
}.

(** The loop goes on in [p1] one round after [p]. *)
Lemma ended_round bFirst Max f p p1 p' : 0 <= max_id -> 0 <= max_deg -> round (max_id * (3 + max_deg)) p p1 ->
  eps_satisfied (space p1) = eps_satisfied (space p) \/ (exists j, eps_satisfied (space p1) = eps_at j) ->
  ended bFirst Max f p1 p' -> ended bFirst Max (S f) p p'.
Proof using.
  intros H0 H1 [R1 R2 R3] Hsat [D1 D2 D3 D4 Ds D5 D6 D7 D8]. split; auto; try nia.
  - etransitivity; eassumption.
  - destruct Ds as [->|?]; auto.
  - destruct D5 as [D5|[?|(k & Hk & Ht)]]; [left; rewrite (on_params _ _ R1) in D5; exact D5|right; left; assumption|]. right. right. exists k.
    destruct R1 as [_ Rs Rr Rd]. destruct D3 as [_ _ _ Rd' _ _ _ _ _]. split; [lia|].
    unfold timeout in *. rewrite <- Rs, <- Rr. exact Ht.
Qed.

(** It ends in [p']. *)
Lemma ended_here bFirst Max p p' m q j : searching p' m q goal start xs xg -> settled goal xs xg p' -> onward p p' -> eps (space p') = eps_at j ->
  eps_satisfied (space p') = eps_satisfied (space p) ->
  searched bFirst goal xs xg Max p p' -> is_Some (cur p' goal) -> percolates p' = percolates p -> searchiteration (space p') = searchiteration (space p) ->
  ended bFirst Max 0 p p'.
Proof using. intros. split; eauto; lia. Qed.

Lemma ended_more bFirst Max f p p' : 0 <= max_id -> 0 <= max_deg -> ended bFirst Max 0 p p' -> ended bFirst Max f p p'.
Proof using. intros H0 H1 [D1 D2 D3 D4 Ds D5 D6 D7 D8]. split; auto; nia. Qed.

Lemma search_loop_ok bFirst Max inner fuel : forall p m q j prev, searching p m q goal start xs xg -> params p = ps -> eps (space p) = eps_at j ->
  settled goal xs xg p -> rounds_left j p fuel -> searchiteration (space p) + Z.of_nat fuel < 2 ^ 16 -> max_id < Z.of_nat inner ->
  (is_Some (cur p goal) \/ Doubles.ltb (final_epsilon ps) (eps_satisfied (space p)) = true /\ fst (in_time clock Max p) = true) ->
  SbplHeapSpec.room (heap (space p)) (Z.of_nat fuel * (max_id * (3 + max_deg))) -> exists p',
    search_loop clock fuel inner bFirst Max prev p = Ok p' /\ ended bFirst Max fuel p p'.
Proof using bounds Hdeg Hh Heps Hsame Hfinal Hinf Hsteady.
  induction fuel as [|fuel IH]; intros p m q j prev S Hps He Hset Hleft Hit Hin Hcur Hr; [unfold rounds_left in Hleft; lia|].
  pose proof (Hdeg xs) as Hd. pose proof (node_range _ _ _ _ _ (ss_base _ _ _ _ _ _ _ S) (ss_xs _ _ _ _ _ _ _ S)) as Hmax.
  set (W := max_id * (3 + max_deg)) in *. assert (HW : 0 <= W) by (unfold W; nia). rewrite Nat2Z.inj_succ, Z.mul_succ_l in Hr.
  assert (HfW : 0 <= Z.of_nat fuel * W) by nia. cbn [search_loop]. rewrite Hps. pose proof (head_ends bFirst Max p 0 m q Hps S Hset) as Hhd.
  assert (Hcur' : fst (if Doubles.ltb (final_epsilon ps) (eps_satisfied (space p)) then in_time clock Max p else (false, p)) = false -> is_Some (cur p goal)).
  { destruct Hcur as [?|[-> H1]]; [auto|]. rewrite H1. discriminate. }
  destruct (if Doubles.ltb _ _ then _ else _) as [go p1]. destruct Hhd as (c & -> & Hc & Hstop & _ & Hgo). cbn [fst] in Hcur'.
  set (p1 := set_clock (TimeStarted p) c p). assert (O1 : onward p p1) by (apply onward_same; auto).
  assert (S1 : searching p1 m q goal start xs xg) by (revert S; apply searching_same; reflexivity).
  destruct go.
  2:{ exists p1. split; [reflexivity|]. apply ended_more; [lia|lia|]. eapply ended_here; eauto. }
  destruct (searched_eps_at bFirst j p Hps He) as (j' & He' & Hj & Hj').
  destruct (search_round_ok bFirst Max inner p1 m q goal start xs xg prev S1 Hh Hset) as (p2 & m2 & q2 & sg & r & E2 & S2 & Hsg & Hset2 & He2 & R2 & Hsat & O); auto.
  { change (searched_eps bFirst p1) with (searched_eps bFirst p). rewrite He'. apply Heps. }
  { change (searchiteration (space p1)) with (searchiteration (space p)). lia. }
  { change (heap (space p1)) with (heap (space p)). fold W. destruct Hr as [Hr0 Hr]. split; [exact Hr0|lia]. }
  change (searched_eps bFirst p1) with (searched_eps bFirst p) in He2, Hsat, O. rewrite He' in He2, Hsat, O.
  change (eps_satisfied (space p1)) with (eps_satisfied (space p)) in Hsat.
  assert (Hsat' : eps_satisfied (space p2) = eps_satisfied (space p) \/ exists j, eps_satisfied (space p2) = eps_at j) by (rewrite Hsat; destruct (r =? 1); eauto).
  destruct (improve_once clock inner bFirst Max p1) as [p1'|er]; [|discriminate]. rewrite bind_ok_l in E2 |- *. rewrite E2, bind_ok_l.
  assert (R : round W p p2) by (destruct R2 as [X2 Y2 Z2]; split; [etransitivity; eassumption|exact Y2|exact Z2]).
  assert (Hgv : gval p2 goal = g sg) by (apply gval_cur; exact Hsg). pose proof R as [R1 Rp Ri].
  assert (Hend : bFirst = true \/ gval p2 goal = INFINITECOST -> ended bFirst Max (Datatypes.S fuel) p p2).
  { intros Hb. split; eauto; [|rewrite Nat2Z.inj_succ, Z.mul_succ_l; fold W; lia|lia].
    destruct O as [(_ & H1 & _)|[(_ & H1 & H2)|(_ & k & Hk & _ & Ht)]]; [left; split; [lia|]; destruct Hb; [auto|unfold INF, INFINITECOST in *; lia]|right; left; split; [lia|exact H2]|right; right].
    exists k. split; [pose proof (on_readings _ _ O1); lia|exact Ht]. }
  destruct bFirst; [eauto|]. rewrite (goal_g_ok p2 goal sg (ss_goal _ _ _ _ _ _ _ S2) Hsg), bind_ok_l.
  destruct (Z.eqb_spec (gval p2 goal) INFINITECOST) as [Ei|Ei]; [eauto|].
  assert (Hps2 : params p2 = ps) by (rewrite (on_params _ _ R1); exact Hps).
  assert (Hr2 : SbplHeapSpec.room (heap (space p2)) (Z.of_nat fuel * W)) by (destruct Hr as [Hr0 Hr]; split; lia).
  destruct O as [(-> & H1 & Hs2)|[(_ & H1 & _)|(_ & k & Hk & Hl & _)]]; [|unfold INF, INFINITECOST in *; lia|].
  - destruct (IH p2 m2 q2 j' (searchexpands p2) S2 Hps2 He2 Hset2) as (p' & Ep & D); [|lia|exact Hin|eauto|exact Hr2|].
    + left. split; [exact Hs2|]. destruct Hleft as [[Hs Hl]|Hl]; [|lia]. rewrite (Hj' eq_refl Hs).
      assert (j < n)%nat; [|lia]. destruct (decide (j < n)%nat) as [?|Hge]; [assumption|].
      specialize (Hgo eq_refl). rewrite Hs, Hfinal in Hgo by lia. discriminate.
    + exists p'. split; [exact Ep|]. apply (ended_round false Max fuel p p2); auto; lia.
  - destruct fuel as [|fuel]; [unfold rounds_left in Hleft; lia|]. cbn [search_loop]. rewrite Hps2. pose proof (head_ends false Max p2 k m2 q2 Hps2 S2 Hset2) as Hhd.
    destruct (if Doubles.ltb _ _ then _ else _) as [go p3]. destruct Hhd as (c2 & -> & Hc2 & Hstop2 & Hlate & _).
    rewrite (Hlate Hsteady) in * by (lia || exact Hl). eexists. split; [reflexivity|].
    apply (ended_round false Max (Datatypes.S fuel) p p2); [lia|lia|exact R|exact Hsat'|]. apply ended_more; [lia|lia|].
    set (p3 := set_clock (TimeStarted p2) c2 p2) in *. apply (ended_here false Max p2 p3 m2 q2 j'); auto; [|apply onward_same; auto].
    revert S2. apply searching_same; reflexivity.
Qed.
End rounds.
End replan.
End AraReplan.
