(* ===== verification/AraStart.v ===== *)
(** * ARA* before its first search (src/libsbpl: araplanner.cpp)

    [ReInitializeSearchStateSpace] makes every state unknown by a new call number
    and puts the start into OPEN; the constructor, [set_start] and [set_goal]. *)

From S2P Require Import Prelude.
From S2P Require Import Doubles.
From S2P Require Import Environment.
From S2P Require Import Keys.
From S2P Require Import SbplHeap.
From S2P Require Import SbplHeapSpec.
From S2P Require Import SbplHeapProps.
From S2P Require Import SbplList.
From S2P Require Import AraPlanner.
From S2P Require Import AraCore.
From S2P Require Import AraSpec.
From S2P Require Import AraImprove.
From S2P Require Import AraReplan.

Module AraStart.
Import AraPlanner AraCore AraSpec AraImprove AraReplan.

Section start.
Context {E : Type} {eops : EnvOps E} {iops : IndexedEnvOps E}.
Context {Node : Type} {fwd : bool} {succ arcs : Node -> list (Node * Z)} {heur : Node -> Z} {root : Node} {max_id max_cost : Z}.
Context {laws : SearchEnvLaws (E := E) fwd succ arcs heur root max_id max_cost} {bounds : AraBounds max_id max_cost}.

Abbreviation planner := (ARAPlanner E).
Abbreviation space := (pSearchStateSpace_ (E := E)).
Abbreviation env_node := (se_node fwd succ arcs heur root).
Abbreviation base := (AraSpec.base (E := E) (fwd := fwd) (succ := succ) (arcs := arcs) (heur := heur) (root := root) (max_id := max_id) (max_cost := max_cost)).
Abbreviation node_of := (AraSpec.node_of (E := E) (fwd := fwd) (succ := succ) (arcs := arcs) (heur := heur) (root := root) (max_id := max_id) (max_cost := max_cost)).
Abbreviation view_of := (AraSpec.view_of (E := E) (fwd := fwd) (succ := succ) (arcs := arcs) (heur := heur) (root := root) (max_id := max_id) (max_cost := max_cost)).
Abbreviation extends := (AraSpec.extends (E := E) (fwd := fwd) (succ := succ) (arcs := arcs) (heur := heur) (root := root) (max_id := max_id) (max_cost := max_cost)).
Abbreviation inflate := (AraSpec.inflate (heur := heur)).
Abbreviation eps_ok := (AraSpec.eps_ok (heur := heur) (max_id := max_id) (max_cost := max_cost)).
Abbreviation vals := (AraSpec.vals (E := E) (fwd := fwd)).
Abbreviation good := (AraCore.good arcs max_id max_cost).
Abbreviation percolates p := (SbplHeap.percolates (heap (space p))).
Abbreviation requeued := (AraImprove.requeued (E := E) (fwd := fwd) (succ := succ) (arcs := arcs) (heur := heur) (root := root) (max_id := max_id) (max_cost := max_cost)).


Abbreviation searching := (AraReplan.searching (E := E) (fwd := fwd) (succ := succ) (arcs := arcs) (heur := heur) (root := root) (max_id := max_id) (max_cost := max_cost)).

(** ** A new call *)

(** The counters and flags at the beginning of [ReInitializeSearchStateSpace]. *)
Definition new_call (p : planner) : planner :=
  on_space (fun s => set_flags (bReevaluatefvals s) (bReinitializeSearchStateSpace s) true s)
    (on_space (fun s => set_counters 0 (to_ushort (callnumber s + 1)) s) p).

Lemma new_call_number p m q : base p m q -> callnumber (space p) + 1 < 2 ^ 16 -> callnumber (space (new_call p)) = callnumber (space p) + 1.
Proof. intros B Hc. pose proof (b_callnumber _ _ _ B). apply Z.mod_small. lia. Qed.

(** No state has been met in this call. *)
Lemma new_call_cur p m q k : base p m q -> callnumber (space p) + 1 < 2 ^ 16 -> cur (new_call p) k = None.
Proof.
  intros B Hc. destruct (cur (new_call p) k) as [s|] eqn:Es; [|reflexivity]. apply cur_rec in Es as [Hr Hn].
  rewrite (new_call_number p m q B Hc) in Hn. pose proof (b_call _ _ _ B k s Hr). lia.
Qed.

Lemma base_new_call p m q : base p m q -> callnumber (space p) + 1 < 2 ^ 16 -> base (new_call p) m q.
Proof.
  intros B Hc. pose proof (new_call_number p m q B Hc) as En. pose proof (fun k => new_call_cur p m q k B Hc) as Ec.
  split; [exact (b_fwd _ _ _ B)|exact (b_env _ _ _ B)|exact (b_table _ _ _ B)|exact (b_index _ _ _ B)|exact (b_h _ _ _ B)|..|
    exact (b_heap _ _ _ B)|exact (b_noheap _ _ _ B)|exact (b_list _ _ _ B)|exact (b_open _ _ _ B)|exact (b_incons _ _ _ B)]; rewrite ?En.
  - intros k s Hk. pose proof (b_call _ _ _ B k s Hk). lia.
  - pose proof (b_callnumber _ _ _ B). lia.
  - reflexivity.
  - intros k s Hs. rewrite Ec in Hs. discriminate.
Qed.

(** ** Emptying the queues *)

Lemma Reset_ok p m q : base p m q -> exists hx lm, ResetSearchStateSpace p = Ok (on_space (fun s => set_incons lm (set_open hx s)) p) /\
  base (on_space (fun s => set_incons lm (set_open hx s)) p) ∅ [] /\ SbplHeap.percolates (fst hx) = percolates p /\
  SbplHeap.currentsize (fst hx) = 0 /\ SbplList.currentsize (fst lm) = 0.
Proof.
  intros B. unfold ResetSearchStateSpace.
  destruct (SbplHeapSpec.makeemptyheap_ok _ _ _ (b_heap _ _ _ B) (b_noheap _ _ _ B)) as (ix & -> & R & N). rewrite bind_ok_l.
  pose proof (SbplList.makeempty_agrees _ _ _ _ (b_list _ _ _ B)) as H. unfold SbplList.agrees in H.
  destruct (SbplList.makeemptylist _ _ _) as [[l lm]|]; [|contradiction]. rewrite bind_ok_l.
  exists (SbplHeap.set_size 0 (heap (space p)), ix), (l, lm). split; [reflexivity|]. split; [|split; [reflexivity|split; [reflexivity|exact (SbplList.stands_size _ _ _ _ H)]]].
  apply (base_list (on_space (set_open (SbplHeap.set_size 0 (heap (space p)), ix)) p) ∅ q l lm []); [|exact H|intros k Hk; inversion Hk].
  apply (base_heap p m q); [exact B|exact R|intros k _; apply N|intros k key Hk; rewrite lookup_empty in Hk; discriminate].
Qed.

(** ** The search begins *)

Lemma to_long_int x k : Doubles.to_int x = Ok k -> Doubles.to_long x = Ok k.
Proof. intros [E1 E2]%Doubles.to_type_Ok. apply Doubles.to_type_Ok. split; [exact E1|]. unfold int_min in *. cbn in *. lia. Qed.

Lemma ReInitialize_ok p m q goal start xs xg : base p m q -> searchgoalstate (space p) = Some goal -> searchstartstate (space p) = Some start ->
  node_of p goal = Some xg -> node_of p start = Some xs -> eps_ok (finitial_eps (params p)) -> callnumber (space p) + 1 < 2 ^ 16 ->
  SbplHeapSpec.room (heap (space p)) 1 -> exists p' m', ReInitializeSearchStateSpace p = Ok p' /\ searching p' m' [] goal start xs xg /\
    eps (space p') = finitial_eps (params p) /\ eps_satisfied (space p') = Doubles.of_int INFINITECOST /\ searchiteration (space p') = 0 /\
    bReinitializeSearchStateSpace (space p') = false /\ params p' = params p /\ readings p' = readings p /\ TimeStarted p' = TimeStarted p /\
    repair_time p' = repair_time p /\ bforwardsearch p' = bforwardsearch p /\ callnumber (space p') = callnumber (space p) + 1 /\
    percolates p <= percolates p' <= percolates p + 24.
Proof using bounds.
  intros B Hg Hs Hxg Hxs He Hc Hr. unfold ReInitializeSearchStateSpace. fold (new_call p).
  pose proof (base_new_call p m q B Hc) as B1. pose proof (new_call_number p m q B Hc) as En.
  assert (Ec : forall k, cur (new_call p) k = None) by (intros k; eapply new_call_cur; eassumption).
  destruct (Reset_ok _ _ _ B1) as (hx & lm & -> & B2 & Hp & _). rewrite bind_ok_l. change (percolates (new_call p)) with (percolates p) in Hp.
  set (p2 := on_space (fun s => set_incons lm (set_open hx s)) (new_call p)) in *.
  set (p3 := on_space _ p2). assert (B3 : base p3 ∅ []) by (revert B2; apply base_fields; auto; reflexivity).
  change (searchstartstate (space p3)) with (searchstartstate (space p)). rewrite Hs. cbn [deref]. rewrite bind_ok_l.
  destruct (node_rec p3 start xs Hxs) as (s0 & Hs0 & _).
  destruct (refresh_ok 1 p3 ∅ [] start s0 xs B3 Hs0 Hxs ltac:(lia)) as (p4 & s & -> & B4 & U4 & _ & Hs4).
  { intros _. split; [apply lookup_empty|intros Hin; inversion Hin]. }
  rewrite bind_ok_l. destruct U4 as ([F4 X4] & Hh4 & V4 & _). pose proof Hs4 as [R4 C4]%cur_rec.
  assert (V0 : forall k, vals 1 p4 k = no_values).
  { intros k. rewrite V4. unfold AraSpec.vals. rewrite (Ec k : cur p3 k = None). reflexivity. }
  assert (Hx4 : node_of p4 start = Some xs) by (apply X4; exact Hxs).
  destruct F4 as (e & hx4 & lm4 & l4 & ->). set (p4 := with_ e hx4 lm4 l4 p3) in *.
  rewrite (write_state_ok p4 start _ s R4), bind_ok_l. set (s' := set_g 0 s). set (p5 := put start s' p4).
  assert (Hgoal : searchgoalstate (space p4) <> None) by (change (searchgoalstate (space p) <> None); congruence).
  assert (Hh : h s = heur xs) by (exact (b_h _ _ _ B4 Hgoal start s xs R4 Hx4)).
  assert (B5 : base p5 ∅ []).
  { apply (base_put _ _ _ _ _ s); auto; [exact (b_call _ _ _ B4 start s R4)|intros _; exact (b_closed _ _ _ B4 start s Hs4)|].
    intros _ x Hx. rewrite Hx4 in Hx. injection Hx as <-. exact Hh. }
  assert (R5 : rec p5 start = Some s') by (unfold p5; rewrite (rec_put _ _ _ _ _ R4), decide_True; reflexivity).
  rewrite (state_at_rec _ _ _ R5), bind_ok_l. change (h s') with (h s). change (eps (space p5)) with (finitial_eps (params p)).
  destruct (He xs) as (Hk & Hk0 & Hk1). rewrite Hh, (to_long_int _ _ Hk), bind_ok_l.
  destruct (insert_open p5 ∅ [] start s' (inflate (finitial_eps (params p)) xs) B5 R5 (lookup_empty _)) as (hx6 & -> & B6 & P6).
  { apply (long_fvalue _ xs 0 He). unfold INF. lia. }
  { change (heap (space p5)) with (heap (space p4)). rewrite Hh4. change (heap (space p3)) with (fst hx). destruct Hr. split; lia. }
  rewrite bind_ok_l. set (p6 := on_space _ p5). eexists p6, _. split; [reflexivity|].
  assert (B7 : base p6 (<[start := Keys.mkKey (inflate (finitial_eps (params p)) xs) 0]> ∅) []).
  { exact (base_flags false false (bNewSearchIteration (space p5)) (on_space (set_open hx6) p5) _ _ B6). }
  assert (V6 : forall k, vals 1 p6 k = if decide (k = start) then mkValues 0 INF None false else no_values).
  { intros k. rewrite (vals_states 1 p5 p6 k eq_refl eq_refl). specialize (V0 k). unfold AraSpec.vals, p5 in *. rewrite (cur_put p4 start s' s k R4 C4).
    destruct (decide (k = start)) as [->|]; [|exact V0]. rewrite Hs4 in V0. injection V0 as _ Hv Hb Hcl.
    change (mkValues 0 (v s) (best_of (fwd := fwd) s) (iterationclosed s =? 1) = mkValues 0 INF None false). congruence. }
  assert (N6 : forall k, node_of p6 k = node_of p4 k).
  { intros k. transitivity (node_of p5 k); [apply node_of_states; reflexivity|exact (node_of_put p4 start s' s k R4 eq_refl)]. }
  split; [|do 9 (split; [reflexivity|]); split; [exact En|]].
  - split; [exact B7|exact Hg|exact Hs|rewrite N6; apply X4; exact Hxg|rewrite N6; exact Hx4| |reflexivity|exact He|].
    + apply (initial_good arcs max_id max_cost start _ _ xs); cbn; [apply ab_cost|rewrite N6; exact Hx4| | | | | |reflexivity|reflexivity].
      * intros j k x. rewrite !N6. apply (node_of_inj _ _ _ B4).
      * intros k x. rewrite N6. apply (node_range _ _ _ _ _ B4).
      * intros k. rewrite V6. destruct (decide (k = start)); reflexivity.
      * intros k. rewrite V6. destruct (decide (k = start)); reflexivity.
      * intros k. rewrite V6. destruct (decide (k = start)); reflexivity.
    + reflexivity.
  - change (heap (space p6)) with (fst hx6). change (percolates p5) with (percolates p4) in P6. rewrite Hh4 in P6.
    change (heap (space p3)) with (fst hx) in P6. lia.
Qed.

(** ** A new planner *)

(** The memory of a new planner: no state has entries in it. *)
Definition clean (mem : ARASearchStateSpace) : Prop :=
  (forall k, SbplHeap.heapindex (heapindices mem) k = 0) /\ listmemory mem = SbplList.empty_memory.

(** No state of the environment has an index. *)
Definition unindexed (e : E) : Prop := forall id x, env_node e id = Some x -> index_get e id = Ok (-1).

Lemma ara_construct_ok e mem : se_inv fwd succ arcs heur root e -> unindexed e -> clean mem -> exists p, AraPlanner.construct e fwd mem = Ok p /\
  base p ∅ [] /\ searchgoalstate (space p) = None /\ searchstartstate (space p) = None /\ bReinitializeSearchStateSpace (space p) = true /\
  params p = mkParams ARA_DEFAULT_INITIAL_EPS ARA_FINAL_EPS ARA_DECREASE_EPS false false /\ environment_ p = e /\ readings p = O /\
  callnumber (space p) = 0 /\ percolates p = 0.
Proof.
  intros I Hu [Hm Hl]. unfold AraPlanner.construct, InitializeSearchStateSpace. cbv zeta. set (p0 := CreateSearchStateSpace _).
  change (negb _ || negb _) with false. cbv iota. rewrite bind_ok_l. eexists. split; [reflexivity|].
  set (p := set_stats _ _ _ _).
  assert (Hrec : forall k, rec p k = None) by (intros k; unfold rec, aget; cbn; destruct (0 <=? k); [rewrite lookup_nil|]; reflexivity).
  assert (Hcur : forall k, cur p k = None) by (intros k; unfold cur; rewrite Hrec; reflexivity).
  split; [|do 7 (split; [reflexivity|]); reflexivity]. split; try (intros; reflexivity).
  - exact I.
  - intros k s Hs. rewrite Hrec in Hs. discriminate.
  - intros id x Hx. exists (-1). split; [exact (Hu id x Hx)|auto].
  - intros H. cbn in H. contradiction.
  - intros k s Hs. rewrite Hrec in Hs. discriminate.
  - split; cbn; [lia|reflexivity].
  - intros k s Hs. rewrite Hcur in Hs. discriminate.
  - apply SbplHeapProps.new_heap_ok.
  - intros k _. apply Hm.
  - change (SbplList.stands_for ARA_INCONS_LIST_ID (SbplList.new_list, listmemory mem) []). rewrite Hl. exists []. split; [apply SbplList.repr_new|reflexivity].
  - intros k key Hk. rewrite lookup_empty in Hk. discriminate.
  - intros k Hk. inversion Hk.
Qed.

(** ** Start and goal *)

(** Flags, [eps] and the pointers to both ends do not matter to the representation, except
    that heuristics are known once there is a goal. *)
Lemma base_ends goal start p m q : base p m q -> (goal <> None -> forall k s x, rec p k = Some s -> node_of p k = Some x -> h s = heur x) ->
  base (on_space (set_ends goal start) p) m q.
Proof.
  intros B H. split; [exact (b_fwd _ _ _ B)|exact (b_env _ _ _ B)|exact (b_table _ _ _ B)|exact (b_index _ _ _ B)|exact H|exact (b_call _ _ _ B)|
    exact (b_callnumber _ _ _ B)|exact (b_iteration _ _ _ B)|exact (b_closed _ _ _ B)|exact (b_heap _ _ _ B)|exact (b_noheap _ _ _ B)|
    exact (b_list _ _ _ B)|exact (b_open _ _ _ B)|exact (b_incons _ _ _ B)].
Qed.

(** What the calls that set an end leave alone. *)
Definition set_up (p p' : planner) : Prop :=
  params p' = params p /\ readings p' = readings p /\ callnumber (space p') = callnumber (space p) /\ heap (space p') = heap (space p) /\
  searchiteration (space p') = searchiteration (space p) /\
  (forall k x, node_of p k = Some x -> node_of p' k = Some x) /\
  (forall id, env_node (environment_ p') id = env_node (environment_ p) id).

Lemma SetSearchStartState_ok p m q id x : base p m q -> env_node (environment_ p) id = Some x -> bReinitializeSearchStateSpace (space p) = true ->
  exists start p', SetSearchStartState id p = Ok p' /\ base p' m q /\ searchstartstate (space p') = Some start /\ node_of p' start = Some x /\
    searchgoalstate (space p') = searchgoalstate (space p) /\ bReinitializeSearchStateSpace (space p') = true /\ set_up p p'.
Proof using bounds.
  intros B Hx Hre. unfold SetSearchStartState. destruct (ara_GetState_ok 1 p m q id x B Hx ltac:(lia)) as (start & p1 & -> & B1 & (X & Hh & _) & Hs & En).
  rewrite bind_ok_l. destruct X as [(e & hx & lm & l & ->) Xn]. set (p1 := with_ e hx lm l p) in *.
  destruct (decide _) as [Hd|Hd].
  - exists start, p1. split_and!; auto. split_and!; auto.
  - eexists start, _. split; [reflexivity|]. set (p2 := on_space _ p1).
    assert (B2 : base p2 m q).
    { apply (base_flags _ true _ (on_space (set_ends (searchgoalstate (space p1)) (Some start)) p1)). apply base_ends; [exact B1|exact (b_h _ _ _ B1)]. }
    split_and!; auto. split_and!; auto.
Qed.

(** The heuristics of all states, one after the other. *)
Lemma heuristics_ok p m q goal start : base (on_space (set_ends None start) p) m q -> searchgoalstate (space p) = Some goal -> searchstartstate (space p) = start ->
  exists p', foldM (fun p i => s ← state_at p i; hv ← ComputeHeuristic (StateID s) p; write_state i (set_h hv) p) p
      (seqZ 0 (Z.of_nat (length (states p)))) = Ok p' /\ base p' m q /\ frame p p' /\ environment_ p' = environment_ p /\ heap (space p') = heap (space p) /\
    (forall k, node_of p' k = node_of p k).
Proof.
  intros B Hg Hs. set (P := fun p' => base (on_space (set_ends None start) p') m q /\ frame p p' /\ environment_ p' = environment_ p /\
    heap (space p') = heap (space p) /\ length (states p') = length (states p) /\ forall k, node_of p' k = node_of p k).
  match goal with |- context [foldM ?F _ _] => set (body := F) end.
  destruct (foldM_inv body (fun done p' => P p' /\ forall k s x, k ∈ done -> rec p' k = Some s -> node_of p' k = Some x -> h s = heur x)
    (seqZ 0 (Z.of_nat (length (states p)))) p) as (p' & E1 & (B1 & F1 & En & Eh & El & Nn) & Hh).
  - split; [split_and!; auto; reflexivity|]. intros k s x Hk. inversion Hk.
  - intros done i todo p1 Hl ((B1 & F1 & En & Eh & El & Nn) & Hh).
    assert (Hi : 0 <= i < Z.of_nat (length (states p1))).
    { assert (i ∈ seqZ 0 (Z.of_nat (length (states p)))) as Hi%elem_of_seqZ by (rewrite Hl; apply elem_of_app; right; left). lia. }
    destruct (aget_in _ _ Hi) as [s Ei]. assert (Ri : rec p1 i = Some s) by (apply rec_aget; exact Ei).
    destruct (table_node _ _ _ B1 i s Ri) as [x Hx]. change (node_of p1 i = Some x) in Hx.
    destruct (node_rec p1 i x Hx) as (s' & Rs' & Hsn). rewrite Ri in Rs'. injection Rs' as <-.
    unfold body. rewrite (state_at_rec _ _ _ Ri), bind_ok_l.
    rewrite (ComputeHeuristic_ok p1 (StateID s) x (b_fwd _ _ _ B1) (b_env _ _ _ B1) Hsn), bind_ok_l, (write_state_ok p1 i _ s Ri).
    set (s' := set_h (heur x) s). eexists. split; [reflexivity|]. split; [split_and!|].
    + apply (base_put (on_space (set_ends None start) p1) m q i s' s B1 Ri eq_refl); [exact (b_call _ _ _ B1 i s Ri)| |intros H; contradiction].
      intros Hc. exact (b_closed _ _ _ B1 i s (proj2 (cur_rec (on_space (set_ends None start) p1) i s) (conj Ri Hc))).
    + etransitivity; [exact F1|apply frame_put].
    + exact En.
    + exact Eh.
    + unfold put, states. cbn. rewrite length_insert. exact El.
    + intros k. rewrite (node_of_put p1 i s' s k Ri eq_refl). apply Nn.
    + intros k t y Hk. rewrite (rec_put p1 i s' s k Ri), (node_of_put p1 i s' s k Ri eq_refl). destruct (decide (k = i)) as [->|Hne].
      * intros [= <-] Hy. rewrite Hx in Hy. injection Hy as <-. reflexivity.
      * apply Hh. apply elem_of_app in Hk as [?|[->|Hk]%elem_of_cons]; [assumption|contradiction|inversion Hk].
  - exists p'. split; [exact E1|]. split; [|split_and!; auto].
    destruct F1 as (e & hx & lm & l & ->). set (p' := with_ e hx lm l p) in *.
    assert (Ep : on_space (set_ends (Some goal) start) (on_space (set_ends None start) p') = p').
    { subst start. destruct p as [e0 [] ]. cbn in Hg. subst. reflexivity. }
    rewrite <- Ep. apply base_ends; [exact B1|]. intros _ k s x Hk Hx. apply (Hh k s x); [|exact Hk|exact Hx].
    apply elem_of_seqZ. pose proof (rec_range _ _ _ (Hk : rec p' k = Some s)). lia.
Qed.

(** What a frame keeps. *)
Lemma frame_fields (p p' : planner) : frame p p' -> searchstartstate (space p') = searchstartstate (space p) /\
  searchgoalstate (space p') = searchgoalstate (space p) /\
  bReinitializeSearchStateSpace (space p') = bReinitializeSearchStateSpace (space p) /\ params p' = params p /\ readings p' = readings p /\
  callnumber (space p') = callnumber (space p) /\ searchiteration (space p') = searchiteration (space p).
Proof. intros (e & hx & lm & l & ->). split_and!; reflexivity. Qed.

Lemma node_of_space f (p : planner) k : StateArray (f (space p)) = StateArray (space p) -> node_of (on_space f p) k = node_of p k.
Proof. intros Hf. apply node_of_states; [exact Hf|reflexivity]. Qed.

(** A new goal before the heuristics are recomputed. *)
Definition retarget (goal : Z) (p : planner) : planner :=
  on_space (fun s => set_eps (finitial_eps (params p)) (set_flags (bReevaluatefvals s) (bReinitializeSearchStateSpace s) true
    (set_satisfied (Doubles.of_int INFINITECOST) (set_ends (Some goal) (searchstartstate s) s)))) p.

Lemma base_retarget goal p m q : base p m q -> base (on_space (set_ends None (searchstartstate (space p))) (retarget goal p)) m q.
Proof.
  intros B. assert (B0 : base (on_space (set_ends None (searchstartstate (space p))) p) m q) by (apply base_ends; [exact B|contradiction]).
  revert B0. apply base_fields; auto. reflexivity.
Qed.

Lemma SetSearchGoalState_ok p m q id x : base p m q -> env_node (environment_ p) id = Some x -> searchgoalstate (space p) = None ->
  exists goal p', SetSearchGoalState id p = Ok p' /\ base p' m q /\ searchgoalstate (space p') = Some goal /\ node_of p' goal = Some x /\
    searchstartstate (space p') = searchstartstate (space p) /\ bReinitializeSearchStateSpace (space p') = bReinitializeSearchStateSpace (space p) /\ set_up p p'.
Proof using bounds.
  intros B Hx Hno. unfold SetSearchGoalState. rewrite Hno, bind_ok_l. cbv iota.
  destruct (ara_GetState_ok 1 p m q id x B Hx ltac:(lia)) as (goal & p1 & -> & B1 & ([F1 X1] & Hh1 & _) & Hg & En).
  rewrite bind_ok_l. destruct (frame_fields _ _ F1) as (S1 & _ & R1 & P1 & D1 & C1 & I1). fold (retarget goal p1). cbv zeta.
  change (length (StateArray (space (retarget goal p1)))) with (length (states (retarget goal p1))).
  destruct (heuristics_ok (retarget goal p1) m q goal (searchstartstate (space p1)) (base_retarget goal p1 m q B1) eq_refl eq_refl) as (p3 & -> & B3 & F3 & En3 & Eh3 & N3).
  rewrite bind_ok_l. destruct (frame_fields _ _ F3) as (S3 & G3 & R3 & P3 & D3 & C3 & I3).
  assert (N1 : forall k, node_of (retarget goal p1) k = node_of p1 k) by (intros k; apply node_of_space; reflexivity).
  set (f := fun s => set_flags true (bReinitializeSearchStateSpace s) (bNewSearchIteration s) s).
  assert (N4 : forall k, node_of (on_space f p3) k = node_of p3 k) by (intros k; apply node_of_space; reflexivity).
  assert (B4 : base (on_space f p3) m q) by exact (base_flags true (bReinitializeSearchStateSpace (space p3)) (bNewSearchIteration (space p3)) p3 m q B3).
  exists goal, (on_space f p3). split; [reflexivity|]. split; [exact B4|]. split; [exact G3|]. split; [rewrite N4, N3, N1; exact Hg|].
  split; [exact (eq_trans S3 S1)|]. split; [exact (eq_trans R3 R1)|]. split; [exact (eq_trans P3 P1)|]. split; [exact (eq_trans D3 D1)|].
  split; [exact (eq_trans C3 C1)|]. split; [exact (eq_trans Eh3 Hh1)|]. split; [exact (eq_trans I3 I1)|].
  split; [intros k y Hy; rewrite N4, N3, N1; apply X1; exact Hy|]. intros j.
  exact (eq_trans (f_equal (fun e => env_node e j) En3) (En j)).
Qed.
End start.
End AraStart.
