(* ===== verification/AraPath.v ===== *)
(** * The path of ARA* (src/libsbpl: araplanner.cpp)

    The best neighbours lead from every state with a finite [g] to the state the
    search starts from; [ReconstructPath] turns them round and [GetSearchPath]
    follows them. *)

From S2P Require Import Prelude.
From S2P Require Import Doubles.
From S2P Require Import Environment.
From S2P Require Import Keys.
From S2P Require Import SbplHeap.
From S2P Require Import SbplList.
From S2P Require Import WAStarPlanner.
From S2P Require Import WAStarSpec.
From S2P Require Import AraPlanner.
From S2P Require Import AraCore.
From S2P Require Import AraSpec.
From S2P Require Import AraImprove.
From S2P Require Import AraReplan.

Module AraPath.
Import AraPlanner AraCore AraSpec AraImprove AraReplan.

(** ** Climbing to the start *)

Section climb.
Context {Node : Type} (arcs : Node -> list (Node * Z)) (max_id max_cost : Z).
Context (Hpos : forall x y c, (y, c) ∈ arcs x -> 1 <= c <= max_cost).

(** From [k] along the best neighbours, with the cost of the arcs. *)
Inductive climbs (w : AraCore.view (Node := Node)) (start : Z) : Z -> list Z -> Z -> Prop :=
  | climbs_start : climbs w start start [] 0
  | climbs_step k j l c d x y : k <> start -> best w k = Some j -> node w j = Some x -> node w k = Some y -> (y, c) ∈ arcs x ->
      V w j + c <= G w k -> climbs w start j l d -> climbs w start k (j :: l) (d + c).

Lemma climbs_ext w w' start k l d : (forall k, node w' k = node w k) -> (forall k, G w' k = G w k) -> (forall k, V w' k = V w k) ->
  (forall k, best w' k = best w k) -> climbs w start k l d -> climbs w' start k l d.
Proof.
  intros En Eg Ev Eb. induction 1 as [|k j l c d x y]; [constructor|]. eapply climbs_step; rewrite ?En, ?Eg, ?Ev, ?Eb; eassumption.
Qed.

(** [g] goes down on the way. *)
Lemma climbs_exists start f w pending k : good arcs max_id max_cost start f w pending -> G w k < INF -> exists l d,
  climbs w start k l d /\ d <= G w k /\ NoDup (k :: l) /\ forall j, j ∈ l -> G w j < G w k.
Proof using Hpos.
  intros I. remember (Z.to_nat (G w k)) as n eqn:En. revert k En. induction (lt_wf n) as [n _ IH]. intros k -> Hk.
  pose proof (gd_le _ _ _ _ _ _ _ I k) as Hle. destruct (decide (k = start)) as [->|Hne].
  { exists [], 0. split; [constructor|]. split; [lia|]. split; [repeat constructor; intros H; inversion H|intros j H; inversion H]. }
  destruct (gd_tree _ _ _ _ _ _ _ I k Hne Hk) as (j & c & x & y & H1 & H2 & H3 & H4 & H5).
  pose proof (Hpos _ _ _ H4) as Hc. pose proof (gd_le _ _ _ _ _ _ _ I j) as Hj.
  destruct (IH (Z.to_nat (G w j)) ltac:(lia) j eq_refl ltac:(lia)) as (l & d & Hcl & Hd & Hnd & Hl).
  assert (Hall : forall i, i ∈ j :: l -> G w i < G w k) by (intros i [->|Hi]%elem_of_cons; [lia|specialize (Hl i Hi); lia]).
  exists (j :: l), (d + c). split; [eapply climbs_step; eassumption|]. split; [lia|]. split; [|exact Hall].
  constructor; [|exact Hnd]. intros Hi. specialize (Hall k Hi). lia.
Qed.
End climb.

(** Moves of the graph through a list of states. *)
Inductive moves {Node : Type} (succ : Node -> list (Node * Z)) : Node -> list Node -> Node -> Z -> Prop :=
  | moves_nil x : moves succ x [] x 0
  | moves_cons x y z l c d : (y, c) ∈ succ x -> moves succ y l z d -> moves succ x (y :: l) z (c + d).

Section path.
Context {E : Type} {eops : EnvOps E} {iops : IndexedEnvOps E}.
Context {Node : Type} {fwd : bool} {succ arcs : Node -> list (Node * Z)} {heur : Node -> Z} {root : Node} {max_id max_cost : Z}.
Context {laws : SearchEnvLaws (E := E) fwd succ arcs heur root max_id max_cost} {bounds : AraBounds max_id max_cost}.

Abbreviation planner := (ARAPlanner E).
Abbreviation space := (pSearchStateSpace_ (E := E)).
Abbreviation env_node := (se_node fwd succ arcs heur root).
Abbreviation base := (AraSpec.base (E := E) (fwd := fwd) (succ := succ) (arcs := arcs) (heur := heur) (root := root) (max_id := max_id) (max_cost := max_cost)).
Abbreviation node_of := (AraSpec.node_of (E := E) (fwd := fwd) (succ := succ) (arcs := arcs) (heur := heur) (root := root) (max_id := max_id) (max_cost := max_cost)).
Abbreviation view_of := (AraSpec.view_of (E := E) (fwd := fwd) (succ := succ) (arcs := arcs) (heur := heur) (root := root) (max_id := max_id) (max_cost := max_cost)).
Abbreviation extends := (AraSpec.extends (E := E) (fwd := fwd) (succ := succ) (arcs := arcs) (heur := heur) (root := root) (max_id := max_id) (max_cost := max_cost)).
Abbreviation inflate := (AraSpec.inflate (heur := heur)).
Abbreviation eps_ok := (AraSpec.eps_ok (heur := heur) (max_id := max_id) (max_cost := max_cost)).
Abbreviation vals := (AraSpec.vals (E := E) (fwd := fwd)).
Abbreviation good := (AraCore.good arcs max_id max_cost).
Abbreviation percolates p := (SbplHeap.percolates (heap (space p))).
Abbreviation requeued := (AraImprove.requeued (E := E) (fwd := fwd) (succ := succ) (arcs := arcs) (heur := heur) (root := root) (max_id := max_id) (max_cost := max_cost)).


Abbreviation searching := (AraReplan.searching (E := E) (fwd := fwd) (succ := succ) (arcs := arcs) (heur := heur) (root := root) (max_id := max_id) (max_cost := max_cost)).
Abbreviation gval := (AraReplan.gval (E := E) (fwd := fwd)).
Abbreviation climbs := (climbs arcs).
Abbreviation moves := (moves succ).

(** ** The pointers to the next state *)

Inductive linked (p : planner) (target : Z) : Z -> list Z -> Z -> Prop :=
  | linked_target : linked p target target [] 0
  | linked_step a b l c d s x y : a <> target -> rec p a = Some s -> g s <> INFINITECOST -> bestnextstate s = Some b -> node_of p a = Some x ->
      node_of p b = Some y -> (y, c) ∈ succ x -> linked p target b l d -> linked p target a (b :: l) (c + d).

Lemma linked_in p target a l d : linked p target a l d -> target ∈ a :: l.
Proof. induction 1; [left|right; assumption]. Qed.

(** A state that is not on the way may change. *)
Lemma linked_put p j s s0 target a l d : rec p j = Some s0 -> StateID s = StateID s0 -> j ∉ a :: l ->
  linked p target a l d -> linked (put j s p) target a l d.
Proof.
  intros Hj Hid Hn H. induction H as [|a b l d c sa x y Ha Hr Hg Hb Hx Hy Hc _ IH]; [constructor|].
  apply not_elem_of_cons in Hn as [Hne Hn]. eapply linked_step; try eassumption.
  - rewrite (rec_put _ _ _ _ _ Hj), decide_False by congruence. exact Hr.
  - rewrite (node_of_put _ _ _ _ _ Hj Hid). exact Hx.
  - rewrite (node_of_put _ _ _ _ _ Hj Hid). exact Hy.
  - auto.
Qed.

(** Nothing the search sees has changed. *)
Record quiet (p p' : planner) : Prop := {
  qt_frame : frame p p';
  qt_env : environment_ p' = environment_ p;
  qt_heap : heap (space p') = heap (space p);
  qt_vals : forall it k, vals it p' k = vals it p k;
  qt_node : forall k, node_of p' k = node_of p k;
  qt_cur : forall k, is_Some (cur p k) -> is_Some (cur p' k);
}.

#[export] Instance quiet_preorder : PreOrder quiet.
Proof.
  split; [intros p; split; auto; reflexivity|]. intros p1 p2 p3 [A1 A2 A3 A4 A5 A6] [B1 B2 B3 B4 B5 B6].
  split; auto; try congruence. etransitivity; eassumption.
Qed.

Lemma searching_quiet p p' m q goal start xs xg : base p' m q -> quiet p p' -> searching p m q goal start xs xg -> searching p' m q goal start xs xg.
Proof.
  intros B [(e & hx & lm & l & ->) Q2 Q3 Q4 Q5 Q6] [_ S1 S2 S3 S4 S5 S6 S7 S8]. set (p' := with_ e hx lm l p) in *.
  split; [exact B|exact S1|exact S2|rewrite Q5; exact S3|rewrite Q5; exact S4| |exact S6|exact S7|exact S8].
  change (eps (space p')) with (eps (space p)). change (iteration p') with (iteration p). revert S5. apply good_ext.
  split_and!; [exact Q5|..]; intros; cbn; rewrite ?Q4; reflexivity.
Qed.

(** ** Turning the pointers round *)

Lemma relink_ok p m q goal start xs xg j k s : searching p m q goal start xs xg -> fwd = true -> cur p j = Some s ->
  searching (put j (set_next k s) p) m q goal start xs xg /\ quiet p (put j (set_next k s) p).
Proof.
  intros S Ef Hj. pose proof Hj as [Rj Cj]%cur_rec. set (s' := set_next k s). pose proof (ss_base _ _ _ _ _ _ _ S) as B.
  assert (Q : quiet p (put j s' p)).
  { split; [apply frame_put|reflexivity|reflexivity| |intros i; apply (node_of_put p j s' s i Rj eq_refl)|].
    - intros it i. unfold AraSpec.vals. rewrite (cur_put p j s' s i Rj Cj). destruct (decide (i = j)) as [->|]; [|reflexivity].
      rewrite Hj. unfold best_of. rewrite Ef. reflexivity.
    - intros i Hi. rewrite (cur_put p j s' s i Rj Cj). destruct (decide (i = j)); eauto. }
  split; [|exact Q]. apply (searching_quiet p); auto.
  apply (base_put _ _ _ _ _ s); auto; [exact (b_call _ _ _ B j s Rj)|intros _; exact (b_closed _ _ _ B j s Hj)|].
  intros Hg x. exact (b_h _ _ _ B Hg j s x Rj).
Qed.

(** A forward move, when the search runs forwards. *)
Lemma arc_move p m q goal start xg x y c j k : searching p m q goal start root xg -> node_of p j = Some x -> node_of p k = Some y ->
  k <> start -> (y, c) ∈ arcs x -> if fwd then (y, c) ∈ succ x else (x, c) ∈ succ y.
Proof.
  intros S Hj Hk Hne Hc. apply se_sound; [exact Hc|]. intros ->. apply Hne.
  eapply (node_of_inj _ _ _ (ss_base _ _ _ _ _ _ _ S)); [exact Hk|]. apply (ss_xs _ _ _ _ _ _ _ S).
Qed.

Lemma reconstruct_loop_ok m q goal start xg : fwd = true -> forall l fuel p k d rest dr, searching p m q goal start root xg ->
  climbs (view_of (iteration p) p m q) start k l d -> gval p k < INF -> linked p goal k rest dr -> NoDup (k :: l) ->
  (forall j, j ∈ l -> j ∉ k :: rest) -> (length l < fuel)%nat -> exists p' path,
    reconstruct_loop fuel k p = Ok (1, p') /\ searching p' m q goal start root xg /\ quiet p p' /\ linked p' goal start path (d + dr) /\
    length path = (length l + length rest)%nat.
Proof using bounds.
  intros Ef l. induction l as [|j l IH]; intros fuel p k d rest dr S Hcl Hk Hln Hnd Hdis Hfuel; (destruct fuel as [|fuel]; [lia|]); cbn [reconstruct_loop];
    rewrite (ss_start _ _ _ _ _ _ _ S); inversion Hcl; subst; clear Hcl.
  - rewrite decide_True by reflexivity. exists p, rest. split; [reflexivity|]. split; [exact S|]. split; [reflexivity|]. split; [exact Hln|reflexivity].
  - rename x into xj, y into xk. rewrite decide_False by congruence. pose proof (ss_good _ _ _ _ _ _ _ S) as I.
    match goal with H : best _ k = Some j |- _ => rename H into Hb; cbn in Hb end.
    match goal with H : V _ j + _ <= G _ k |- _ => rename H into Hv; cbn in Hv end.
    match goal with H : AraPath.climbs _ _ _ j l _ |- _ => rename H into Hcl end.
    match goal with H : (xk, c) ∈ arcs xj |- _ => rename H into Hc; pose proof (arc_cost _ _ _ Hc) as Hcost end.
    pose proof (gd_le _ _ _ _ _ _ _ I j) as Hle. cbn in Hle. rewrite (gval_vals _ p k) in Hv.
    destruct (vals_cur (fwd := fwd) (iteration p) p k) as [s Hs]; [right; right; rewrite gval_vals; exact Hk|].
    destruct (vals_cur (fwd := fwd) (iteration p) p j) as [t Ht]; [left; lia|].
    pose proof Hs as [Rs _]%cur_rec. pose proof Ht as [Rt _]%cur_rec. rewrite (gval_cur _ _ _ Hs) in *.
    unfold AraSpec.vals in Hb, Hv. rewrite Hs in Hb. rewrite Ht in Hv. cbn in Hb, Hv. unfold best_of in Hb. rewrite Ef in Hb.
    rewrite (state_at_rec _ _ _ Rs), bind_ok_l. rewrite (proj2 (Z.eqb_neq _ _)) by (unfold INF, INFINITECOST in *; lia). rewrite Hb.
    rewrite (write_state_ok p j _ t Rt), bind_ok_l. set (p1 := put j (set_next k t) p).
    destruct (relink_ok p m q goal start root xg j k t S Ef Ht) as [S1 Q1]. fold p1 in S1, Q1.
    assert (R1 : rec p1 j = Some (set_next k t)) by (unfold p1; rewrite (rec_put _ _ _ _ _ Rt), decide_True; reflexivity).
    rewrite (state_at_rec _ _ _ R1), bind_ok_l. rewrite (proj2 (Z.leb_gt _ _)) by (cbn; lia).
    apply NoDup_cons in Hnd as [Hkj Hnd]. pose proof (Hdis j ltac:(left)) as Hj.
    destruct (IH fuel p1 j d0 (k :: rest) (c + dr) S1) as (p' & path & E1 & S2 & Q2 & Hl & Hlen); auto.
    + change (iteration p1) with (iteration p). revert Hcl. apply climbs_ext; intros i; cbn; rewrite ?(qt_vals _ _ Q1); auto. apply Q1.
    + unfold gval. rewrite (qt_vals _ _ Q1). change (gval p j < INF). rewrite (gval_cur _ _ _ Ht). cbn in Hle. unfold AraSpec.vals in Hle. rewrite Ht in Hle. cbn in Hle. lia.
    + assert (Hgt : goal ∈ k :: rest) by (eapply linked_in; exact Hln).
      eapply (linked_step p1 goal j k rest c dr _ xj xk); [intros ->; contradiction|exact R1| |reflexivity|rewrite (qt_node _ _ Q1); assumption..| |].
      * cbn in Hle |- *. unfold AraSpec.vals in Hle. rewrite Ht in Hle. cbn in Hle. unfold INF, INFINITECOST in *. lia.
      * pose proof (arc_move p m q goal start xg xj xk c j k S ltac:(assumption) ltac:(assumption) ltac:(congruence) Hc) as Hm. rewrite Ef in Hm. exact Hm.
      * apply (linked_put _ _ _ t); auto.
    + intros i Hi. apply not_elem_of_cons. split; [intros ->; apply NoDup_cons in Hnd as [? _]; contradiction|]. apply Hdis. right. exact Hi.
    + cbn in Hfuel. lia.
    + exists p', path. split; [exact E1|]. split; [exact S2|]. split; [etransitivity; eassumption|]. split; [|cbn [length] in *; lia].
      replace (d0 + c + dr) with (d0 + (c + dr)) by lia. exact Hl.
Qed.

(** A search from the goal needs no turning round. *)
Lemma climbs_linked p m q goal start xg k l d : fwd = false -> searching p m q goal start root xg ->
  climbs (view_of (iteration p) p m q) start k l d -> gval p k < INF -> linked p start k l d.
Proof using bounds.
  intros Ef S. pose proof (ss_good _ _ _ _ _ _ _ S) as I.
  induction 1 as [|k j l c d x y Hne Hb Hx Hy Hc Hv _ IH]; intros Hk; [constructor|]. cbn in Hb, Hx, Hy, Hv.
  pose proof (arc_cost _ _ _ Hc) as Hcost. pose proof (gd_le _ _ _ _ _ _ _ I j) as Hle. cbn in Hle. rewrite (gval_vals _ p k) in Hv. rewrite (gval_vals _ p j) in Hle.
  destruct (vals_cur (fwd := fwd) (iteration p) p k) as [s Hs]; [right; right; rewrite gval_vals; exact Hk|]. pose proof Hs as [Rs _]%cur_rec.
  unfold AraSpec.vals in Hb. rewrite Hs in Hb. cbn in Hb. unfold best_of in Hb. rewrite Ef in Hb. rewrite (gval_cur _ _ _ Hs) in Hk, Hv.
  rewrite Z.add_comm. eapply (linked_step p start k j l c d s y x); auto.
  - unfold INF, INFINITECOST in *. lia.
  - pose proof (arc_move p m q goal start xg x y c j k S Hx Hy Hne Hc) as Hm. rewrite Ef in Hm. exact Hm.
  - apply IH. lia.
Qed.

(** ** Following the pointers *)

Lemma grown_trans (e1 e2 e3 : E) : grown env_node e1 e2 -> grown env_node e2 e3 -> grown env_node e1 e3.
Proof.
  intros [A1 A2] [B1 B2]. split.
  - intros i x Hx. destruct (A1 i x Hx) as [Hx2 E2]. destruct (B1 i x Hx2) as [Hx3 E3]. split; [exact Hx3|congruence].
  - intros i x Hx Hn. destruct (env_node e2 i) as [y|] eqn:Ey; [|eapply B2; eassumption].
    destruct (B1 i y Ey) as [_ ->]. eapply A2; eassumption.
Qed.

Lemma linked_grown p e target a l d : grown env_node (environment_ p) e -> linked p target a l d -> linked (set_environment e p) target a l d.
Proof.
  intros Hg. induction 1 as [|a b l d c s x y Ha Hr Hgs Hb Hx Hy Hc _ IH]; [constructor|].
  assert (Hn : forall k z, node_of p k = Some z -> node_of (set_environment e p) k = Some z).
  { intros k z (t & Ht & Hz)%node_rec. unfold AraSpec.node_of. rewrite (Ht : rec (set_environment e p) k = Some t). apply (proj1 Hg _ _ Hz). }
  eapply linked_step; eauto.
Qed.

Lemma succ_cost x y c : (y, c) ∈ succ x -> 1 <= c <= max_cost.
Proof using laws. intros H. pose proof (se_complete x y c H) as Hc. destruct fwd; apply se_cost in Hc; exact Hc. Qed.

Lemma linked_nonneg p target a l d : linked p target a l d -> 0 <= d.
Proof using laws. induction 1 as [|a b l d c s x y _ _ _ _ _ _ Hc _ IH]; [lia|]. pose proof (succ_cost _ _ _ Hc). lia. Qed.

(** The cost the planner finds for a move. *)
Lemma action_cost_move (e : E) (ids : list Z) x y c id : max_cost < INFINITECOST -> se_inv fwd succ arcs heur root e ->
  env_node e <$> ids = Some ∘ fst <$> succ x -> (y, c) ∈ succ x -> env_node e id = Some y ->
  exists a, WAStarPlanner.action_cost ids (snd <$> succ x) id = Ok a /\ 1 <= a <= c.
Proof using laws.
  intros Hmax I Hids Hc Hid. pose proof (succ_cost x y c Hc) as Hcr.
  assert (Hlen : length ids = length (succ x)) by (apply (f_equal length) in Hids; rewrite !length_fmap in Hids; exact Hids).
  assert (Hat : forall k i w, aget ids k = Ok i -> aget (snd <$> succ x) k = Ok w -> exists z, env_node e i = Some z /\ (z, w) ∈ succ x).
  { intros k i w [_ Hi]%aget_Ok [_ Hw]%aget_Ok. apply (f_equal (fun l => l !! Z.to_nat k)) in Hids. rewrite !list_lookup_fmap, Hi in Hids.
    rewrite list_lookup_fmap in Hw. destruct (succ x !! Z.to_nat k) as [[z w']|] eqn:Es; [|discriminate]. cbn in *. injection Hids as Hz. injection Hw as ->.
    exists z. split; [exact Hz|]. eapply list_elem_of_lookup_2. exact Es. }
  destruct (WAStarSpec.action_cost_least ids (snd <$> succ x) id) as (a & Ea & Ha & _ & Hmin); [rewrite length_fmap; lia|].
  exists a. split; [exact Ea|]. apply list_elem_of_lookup_1 in Hc as [k Hk].
  assert (Hac : a <= c).
  { destruct (lookup_lt_is_Some_2 ids k) as [i Hi]; [rewrite Hlen; eapply lookup_lt_Some; exact Hk|].
    assert (Ei : aget ids (Z.of_nat k) = Ok i) by (apply aget_Ok; rewrite Nat2Z.id; auto with lia).
    assert (Ew : aget (snd <$> succ x) (Z.of_nat k) = Ok c) by (apply aget_Ok; rewrite Nat2Z.id, list_lookup_fmap, Hk; auto with lia).
    apply (f_equal (fun l => l !! k)) in Hids. rewrite !list_lookup_fmap, Hi, Hk in Hids. cbn in Hids. injection Hids as Hz.
    rewrite (se_inj e i id y I Hz Hid) in Ei. eapply Hmin; eassumption. }
  split; [|exact Hac]. destruct Ha as [->|(k' & Ei & Ew)]; [unfold WAStarPlanner.INFINITECOST, INFINITECOST in *; lia|].
  destruct (Hat k' id a Ei Ew) as (z & _ & Hz). apply succ_cost in Hz. lia.
Qed.

(** The ids stand for states one moves through. *)
Lemma ara_path_loop_ok m q target st : forall l a fuel whole sol p d x, base p m q -> linked p target a l d -> rec p target = Some st ->
  node_of p a = Some x -> max_cost < INFINITECOST -> 0 <= sol -> 0 <= d -> sol + d < INF -> (length l < fuel)%nat ->
  exists ids cost e nodes z, path_loop fuel a (StateID st) whole sol p = Ok (whole ++ ids, cost, set_environment e p) /\
    cost <= sol + d /\ se_inv fwd succ arcs heur root e /\ grown env_node (environment_ p) e /\
    env_node e <$> ids = Some <$> nodes /\ moves x nodes z d /\ env_node e (StateID st) = Some z /\ length ids = length l.
Proof using laws.
  induction l as [|b l IH]; intros a fuel whole sol p d x B Hl Ht Hx Hmax H0 Hd0 Hsol Hfuel; (destruct fuel as [|fuel]; [lia|]);
    inversion Hl; subst; clear Hl; cbn [path_loop].
  - rewrite (state_at_rec _ _ _ Ht), bind_ok_l, Z.eqb_refl. exists [], sol, (environment_ p), [], x.
    rewrite app_nil_r. replace (set_environment (environment_ p) p) with p by (destruct p; reflexivity).
    split; [reflexivity|]. split; [lia|]. split; [exact (b_env _ _ _ B)|]. split; [split; [auto|intros; congruence]|].
    split; [reflexivity|]. split; [constructor|]. split; [|reflexivity].
    unfold AraSpec.node_of in Hx. rewrite Ht in Hx. exact Hx.
  - rename x0 into xa. match goal with H : rec p a = Some s |- _ => rename H into Ra end.
    rewrite (state_at_rec _ _ _ Ra), bind_ok_l.
    destruct (Z.eqb_spec (StateID s) (StateID st)) as [Heq|Hid]; [exfalso; pose proof (index_inj _ _ _ B _ _ _ _ Ra Ht Heq); congruence|].
    match goal with H : bestnextstate s = Some b |- _ => rewrite H end. rewrite (proj2 (Z.eqb_neq _ _)) by assumption.
    assert (xa = x) as -> by congruence.
    match goal with H : linked p target b l _ |- _ => rename H into Hl end. match goal with H : (y, c) ∈ succ x |- _ => rename H into Hc end.
    match goal with H : node_of p b = Some y |- _ => rename H into Hb end.
    destruct (node_rec p a x Hx) as (s' & Rs' & Hsn). rewrite Ra in Rs'. injection Rs' as <-.
    destruct (se_succs (environment_ p) (StateID s) x (b_env _ _ _ B) Hsn) as (ids1 & costs & e1 & -> & I1 & Hg1 & Hids & ->). rewrite bind_ok_l.
    destruct (node_rec p b y Hb) as (sb & Rb & Hbn). rewrite (state_at_rec _ _ _ Rb), bind_ok_l.
    destruct (action_cost_move e1 ids1 x y c (StateID sb) Hmax I1 Hids Hc (proj1 (proj1 Hg1 _ _ Hbn))) as (ac & -> & Hac). rewrite bind_ok_l.
    pose proof (linked_nonneg _ _ _ _ _ Hl) as Hd1.
    rewrite add_int_in, bind_ok_l by (unfold INF, int_min, int32 in *; cbn [int_max]; lia).
    set (p1 := set_environment e1 p). pose proof (base_grown p m q e1 B I1 Hg1) as B1.
    destruct (IH b fuel (whole ++ [StateID sb]) (sol + ac) p1 d0 y B1) as (ids & cost & e & nodes & z & Ep & Hcost & Ie & Hge & Hnodes & Hm & Hz & Hlen); auto.
    + apply linked_grown; [exact Hg1|exact Hl].
    + unfold AraSpec.node_of. rewrite (Rb : rec p1 b = Some sb). apply (proj1 (proj1 Hg1 _ _ Hbn)).
    + lia.
    + lia.
    + cbn in Hfuel. lia.
    + rewrite <- app_assoc in Ep. exists (StateID sb :: ids), cost, e, (y :: nodes), z. split; [exact Ep|]. split; [lia|]. split; [exact Ie|].
      split; [eapply grown_trans; eassumption|]. split.
      { cbn. rewrite Hnodes. f_equal. apply (proj1 (proj1 Hge _ _ (proj1 (proj1 Hg1 _ _ Hbn)))). }
      split; [econstructor; eassumption|]. split; [exact Hz|cbn; lia].
Qed.

(** ** The environment grows *)

Lemma searching_grown p m q goal start xs xg e : searching p m q goal start xs xg -> se_inv fwd succ arcs heur root e ->
  grown env_node (environment_ p) e -> searching (set_environment e p) m q goal start xs xg.
Proof using bounds.
  intros [B S1 S2 S3 S4 S5 S6 S7 S8] Ie Hg. pose proof (base_grown p m q e B Ie Hg) as B1. pose proof (moved_grown 0 p e Hg) as ([_ X] & _).
  split; [exact B1|exact S1|exact S2|apply X; exact S3|apply X; exact S4| |exact S6|exact S7|exact S8].
  apply (good_unchanged (iteration p) p (set_environment e p)); [exact B1| |apply inflate_fits; exact S7|exact S5].
  split; [apply (moved_grown (iteration p) p e Hg)|]. split; [reflexivity|]. split; [reflexivity|auto].
Qed.

(** ** The path *)

(** The two ends of the path, in the direction of the moves. *)
Definition first_of (a b : Node) : Node := if fwd then a else b.

(** [ids] leads from one end to the other, for no more than [c]. *)
Definition leads (e : E) (ids : list Z) (x z : Node) (c : Z) : Prop :=
  exists nodes d, env_node e <$> ids = Some <$> x :: nodes /\ moves x nodes z d /\ d <= c.

Lemma ara_GetSearchPath_ok fuel p m q goal start xg : searching p m q goal start root xg -> gval p goal < INF -> max_id < Z.of_nat fuel ->
  exists ids cost p', GetSearchPath fuel p = Ok (ids, cost, p') /\ searching p' m q goal start root xg /\ (exists p1, quiet p p1 /\
    exists e, p' = set_environment e p1 /\ grown env_node (environment_ p) e) /\
    leads (environment_ p') ids (first_of root xg) (first_of xg root) (gval p goal).
Proof using bounds.
  intros S Hg Hfuel. pose proof S as [B Sg Ss Sxg Sxs I _ _ _]. assert (Hmax : max_cost < INFINITECOST).
  { pose proof (node_range _ _ _ _ _ B Sxs). pose proof bound_fit. pose proof bound_cost. unfold INF, INFINITECOST in *. nia. }
  destruct (climbs_exists arcs max_id max_cost arc_cost start _ _ none goal I) as (l & d & Hcl & Hd & Hnd & Hlt); [cbn; rewrite gval_vals; exact Hg|].
  cbn in Hd. rewrite gval_vals in Hd.
  assert (Hlen : Z.of_nat (length (goal :: l)) <= Z.max 0 max_id).
  { apply NoDup_range_length; [exact Hnd|]. intros j [->|Hj]%elem_of_cons; [eapply node_range; eassumption|].
    specialize (Hlt j Hj). cbn in Hlt. rewrite !gval_vals in Hlt. destruct (gd_known _ _ _ _ _ _ _ I j) as [x Hx]; [cbn; rewrite gval_vals; lia|]. eapply node_range; eassumption. }
  cbn [length] in Hlen. pose proof (node_range _ _ _ _ _ B Sxs) as Hr.
  destruct (node_rec p start root Sxs) as (ss & Rs & Es). destruct (node_rec p goal xg Sxg) as (sg & Rg & Eg).
  unfold GetSearchPath. rewrite (b_fwd _ _ _ B), Ss, Sg. unfold first_of, leads. destruct (sumbool_of_bool fwd) as [Ef|Ef].
  - assert (Hif : forall (A : Type) (a b : A), (if fwd then a else b) = a) by (intros; rewrite Ef; reflexivity). rewrite !Hif.
    assert (Hrec : exists p1 path, ReconstructPath fuel p = Ok (1, p1) /\ searching p1 m q goal start root xg /\ quiet p p1 /\
      linked p1 goal start path d /\ length path = length l).
    { unfold ReconstructPath. rewrite (b_fwd _ _ _ B), Hif, Sg. cbn [deref]. rewrite bind_ok_l.
      destruct (reconstruct_loop_ok m q goal start xg Ef l fuel p goal d [] 0 S Hcl Hg) as (p1 & path & E1 & S1 & Q1 & L1 & H1);
        [constructor|exact Hnd| |lia|].
      - intros j Hj Hin. apply NoDup_cons in Hnd as [Hn _]. apply elem_of_cons in Hin as [->|Hin]; [contradiction|inversion Hin].
      - exists p1, path. rewrite Z.add_0_r in L1. cbn [length] in H1. split_and!; auto. lia. }
    destruct Hrec as (p1 & path & -> & S1 & Q1 & L1 & Hp). rewrite !bind_ok_l. cbn [deref].
    destruct (node_rec p1 start root (ss_xs _ _ _ _ _ _ _ S1)) as (s1 & R1 & Es1). destruct (node_rec p1 goal xg (ss_xg _ _ _ _ _ _ _ S1)) as (g1 & Rg1 & Eg1).
    rewrite bind_ok_l, (state_at_rec _ _ _ R1), !bind_ok_l, (state_at_rec _ _ _ Rg1), !bind_ok_l.
    destruct (ara_path_loop_ok m q goal g1 path start fuel [StateID s1] 0 p1 d root (ss_base _ _ _ _ _ _ _ S1) L1 Rg1 (ss_xs _ _ _ _ _ _ _ S1) Hmax)
      as (ids & cost & e & nodes & z & -> & Hc & Ie & Hge & Hids & Hm & Hz & _); try lia; [exact (linked_nonneg _ _ _ _ _ L1)|].
    eexists _, _, _. split; [reflexivity|]. split; [apply searching_grown; assumption|]. split.
    { exists p1. split; [exact Q1|]. exists e. split; [reflexivity|]. rewrite <- (qt_env _ _ Q1). exact Hge. }
    exists nodes, d. cbn. rewrite Hids, (proj1 (proj1 Hge _ _ Es1)). split; [reflexivity|]. split; [|exact Hd].
    rewrite (proj1 (proj1 Hge _ _ Eg1)) in Hz. injection Hz as <-. exact Hm.
  - assert (Hif : forall (A : Type) (a b : A), (if fwd then a else b) = b) by (intros; rewrite Ef; reflexivity). rewrite !Hif.
    rewrite bind_ok_l. cbn [deref]. rewrite bind_ok_l, (state_at_rec _ _ _ Rg), !bind_ok_l, (state_at_rec _ _ _ Rs), !bind_ok_l.
    pose proof (climbs_linked p m q goal start xg goal l d Ef S Hcl Hg) as L1.
    destruct (ara_path_loop_ok m q start ss l goal fuel [StateID sg] 0 p d xg B L1 Rs Sxg Hmax)
      as (ids & cost & e & nodes & z & -> & Hc & Ie & Hge & Hids & Hm & Hz & _); try lia; [exact (linked_nonneg _ _ _ _ _ L1)|].
    eexists _, _, _. split; [reflexivity|]. split; [apply searching_grown; assumption|]. split.
    { exists p. split; [reflexivity|]. exists e. split; [reflexivity|exact Hge]. }
    exists nodes, d. cbn. rewrite Hids, (proj1 (proj1 Hge _ _ Eg)). split; [reflexivity|]. split; [|exact Hd].
    rewrite (proj1 (proj1 Hge _ _ Es)) in Hz. injection Hz as <-. exact Hm.
Qed.
End path.
End AraPath.
