(* ===== verification/AraSearch.v ===== *)
(** * [replan] of ARA* (src/libsbpl: araplanner.cpp)

    A call of [replan] on a planner that is [ready] returns a path within the
    factor of the [eps] it reports, or 0 when there is none, or what it has when
    the time is over; the planner is ready again. *)

From S2P Require Import Prelude.
From S2P Require Import Doubles.
From S2P Require Import Environment.
From S2P Require Import Keys.
From S2P Require Import SbplHeap.
From S2P Require Import SbplHeapSpec.
From S2P Require Import SbplList.
From S2P Require Import AraPlanner.
From S2P Require Import AraCore.
From S2P Require Import AraSpec.
From S2P Require Import AraImprove.
From S2P Require Import AraReplan.
From S2P Require Import AraStart.
From S2P Require Import AraPath.

Module AraSearch.
Import AraPlanner AraCore AraSpec AraImprove AraReplan AraStart AraPath.

Section search.
Context {E : Type} {eops : EnvOps E} {iops : IndexedEnvOps E}.
Context {Node : Type} {fwd : bool} {succ arcs : Node -> list (Node * Z)} {heur : Node -> Z} {root : Node} {max_id max_cost : Z}.
Context {laws : SearchEnvLaws (E := E) fwd succ arcs heur root max_id max_cost} {bounds : AraBounds max_id max_cost}.

Abbreviation planner := (ARAPlanner E).
Abbreviation space := (pSearchStateSpace_ (E := E)).
Abbreviation env_node := (se_node fwd succ arcs heur root).
Abbreviation base := (AraSpec.base (E := E) (fwd := fwd) (succ := succ) (arcs := arcs) (heur := heur) (root := root) (max_id := max_id) (max_cost := max_cost)).
Abbreviation node_of := (AraSpec.node_of (E := E) (fwd := fwd) (succ := succ) (arcs := arcs) (heur := heur) (root := root) (max_id := max_id) (max_cost := max_cost)).
Abbreviation view_of := (AraSpec.view_of (E := E) (fwd := fwd) (succ := succ) (arcs := arcs) (heur := heur) (root := root) (max_id := max_id) (max_cost := max_cost)).
Abbreviation extends := (AraSpec.extends (E := E) (fwd := fwd) (succ := succ) (arcs := arcs) (heur := heur) (root := root) (max_id := max_id) (max_cost := max_cost)).
Abbreviation inflate := (AraSpec.inflate (heur := heur)).
Abbreviation eps_ok := (AraSpec.eps_ok (heur := heur) (max_id := max_id) (max_cost := max_cost)).
Abbreviation vals := (AraSpec.vals (E := E) (fwd := fwd)).
Abbreviation good := (AraCore.good arcs max_id max_cost).
Abbreviation percolates p := (SbplHeap.percolates (heap (space p))).
Abbreviation requeued := (AraImprove.requeued (E := E) (fwd := fwd) (succ := succ) (arcs := arcs) (heur := heur) (root := root) (max_id := max_id) (max_cost := max_cost)).


Abbreviation searching := (AraReplan.searching (E := E) (fwd := fwd) (succ := succ) (arcs := arcs) (heur := heur) (root := root) (max_id := max_id) (max_cost := max_cost)).
Abbreviation gval := (AraReplan.gval (E := E) (fwd := fwd)).
Abbreviation settled := (AraReplan.settled (E := E) (fwd := fwd) (arcs := arcs) (heur := heur)).
Abbreviation leads := (AraPath.leads (E := E) (fwd := fwd) (succ := succ) (arcs := arcs) (heur := heur) (root := root) (max_id := max_id) (max_cost := max_cost)).
Abbreviation first_of := (AraPath.first_of (fwd := fwd)).
Context {max_deg : Z} {Hdeg : forall x, Z.of_nat (length (arcs x)) <= max_deg}.
Context (clock : nat -> Z).

(** A planner between two calls. *)
Record ready (p : planner) (m : gmap Z Keys.CKey) (q : list Z) (goal start : Z) (xg : Node) : Prop := {
  ry_base : base p m q;
  ry_goal : searchgoalstate (space p) = Some goal;
  ry_start : searchstartstate (space p) = Some start;
  ry_xg : node_of p goal = Some xg;
  ry_xs : node_of p start = Some root;
  ry_search : bReinitializeSearchStateSpace (space p) = true \/
    searching p m q goal start root xg /\ settled goal root xg p /\ is_Some (cur p goal);
}.

Lemma ready_same p p' m q goal start xg : environment_ p' = environment_ p -> space p' = space p -> bforwardsearch p' = bforwardsearch p ->
  ready p m q goal start xg -> ready p' m q goal start xg.
Proof.
  intros E1 E2 E3 [B H1 H2 H3 H4 H5]. split.
  - revert B. apply base_same; assumption.
  - rewrite E2. exact H1.
  - rewrite E2. exact H2.
  - destruct p, p'. cbn in *. subst. exact H3.
  - destruct p, p'. cbn in *. subst. exact H4.
  - destruct H5 as [H5|(S & Hs & Hc)]; [left; rewrite E2; exact H5|right]. split; [revert S; apply searching_same; assumption|].
    destruct p, p'. cbn in *. subst. auto.
Qed.

(** The [eps] and the iteration a call begins with. *)
Definition first_eps (p : planner) : Doubles.double :=
  if bReinitializeSearchStateSpace (space p) then finitial_eps (params p) else eps (space p).
Definition first_iteration (p : planner) : Z := if bReinitializeSearchStateSpace (space p) then 0 else searchiteration (space p).

(** The [eps] of the last solution when a call begins: none in a new search. *)
Definition first_satisfied (p : planner) : Doubles.double :=
  if bReinitializeSearchStateSpace (space p) then Doubles.of_int INFINITECOST else eps_satisfied (space p).

(** What the main loop begins with. *)
Record begun (p p' : planner) : Prop := {
  bg_eps : eps (space p') = first_eps p;
  bg_satisfied : eps_satisfied (space p') = first_satisfied p;
  bg_iteration : searchiteration (space p') = first_iteration p;
  bg_reinit : bReinitializeSearchStateSpace (space p') = false;
  bg_params : params p' = params p;
  bg_readings : readings p' = readings p;
  bg_started : TimeStarted p' = TimeStarted p;
  bg_repair : repair_time p' = repair_time p;
  bg_percolates : percolates p <= percolates p' <= percolates p + 24;
}.

Lemma ara_begin_ok p m q goal start xg : ready p m q goal start xg -> eps_ok (first_eps p) ->
  callnumber (space p) + 1 < 2 ^ 16 -> SbplHeapSpec.room (heap (space p)) 1 -> exists p' m' q',
    (if bReinitializeSearchStateSpace (space p) then ReInitializeSearchStateSpace p else Ok p) = Ok p' /\
    searching p' m' q' goal start root xg /\ settled goal root xg p' /\ begun p p' /\
    (is_Some (cur p' goal) \/ bReinitializeSearchStateSpace (space p) = true /\ eps_satisfied (space p') = Doubles.of_int INFINITECOST).
Proof using bounds.
  intros [B H1 H2 H3 H4 H5] He Hc Hr. unfold first_eps in *. destruct (bReinitializeSearchStateSpace (space p)) eqn:Eb.
  - destruct (ReInitialize_ok p m q goal start root xg B H1 H2 H3 H4 He Hc Hr) as (p' & m' & -> & S & R1 & R2 & R3 & R4 & R5 & R6 & R7 & R8 & _ & _ & R10).
    exists p', m', []. split; [reflexivity|]. split; [exact S|]. split; [left; exact R2|]. split; [|auto].
    split; auto; unfold first_eps, first_satisfied, first_iteration; rewrite Eb; assumption.
  - destruct H5 as [H5|(S & Hs & Hcur)]; [discriminate|]. exists p, m, q. split; [reflexivity|]. split; [exact S|]. split; [exact Hs|]. split; [|auto].
    split; auto; try lia; unfold first_eps, first_satisfied, first_iteration; rewrite Eb; reflexivity.
Qed.

(** ** The whole call *)

(** The limits of time in a call. *)
Definition limit (secs : Doubles.double) (p : planner) : Doubles.double :=
  if bsearchuntilfirstsolution (params p) then Doubles.of_int INFINITECOST else secs.
Definition repair_limit (secs : Doubles.double) (p : planner) : Doubles.double :=
  if bsearchuntilfirstsolution (params p) then Doubles.of_int INFINITECOST else if use_repair_time (params p) then repair_time p else secs.

(** Time was over at one of the readings of the call. *)
Definition out_of_time (secs : Doubles.double) (p p' : planner) : Prop :=
  exists k, (readings p < k < readings p')%nat /\ (over clock (clock (readings p)) (limit secs p) k \/ over clock (clock (readings p)) (repair_limit secs p) k).

(** The planner at the head of the main loop. *)
Record looping (secs : Doubles.double) (p p1 : planner) : Prop := {
  lp_eps : eps (space p1) = first_eps p;
  lp_satisfied : eps_satisfied (space p1) = first_satisfied p;
  lp_iteration : searchiteration (space p1) = first_iteration p;
  lp_reinit : bReinitializeSearchStateSpace (space p1) = false;
  lp_params : params p1 = params p;
  lp_readings : readings p1 = S (readings p);
  lp_started : TimeStarted p1 = clock (readings p);
  lp_repair : repair_time p1 = repair_limit secs p;
  lp_percolates : percolates p <= percolates p1 <= percolates p + 24;
}.

(** [Search] up to its main loop. *)
Definition prologue (secs : Doubles.double) (p : planner) : res planner :=
  let first := bsearchuntilfirstsolution (params p) in
  let p := set_expands 0 (set_clock (clock (readings p)) (S (readings p)) p) in
  let p := if negb (use_repair_time (params p)) then set_repair_time secs p else p in
  p ← if bReinitializeSearchStateSpace (space p) then ReInitializeSearchStateSpace p else Ok p;
  let p := if first then set_repair_time (Doubles.of_int INFINITECOST) p else p in
  e ← env_ensure_heuristics (environment_ p) (bforwardsearch p);
  Ok (set_stats [] (num_of_expands_initial_solution p) (final_eps p) (set_environment e p)).

(** [Search] from the main loop on. *)
Definition epilogue (inner : nat) (old_repair_time : Doubles.double) (p : planner) : res (bool * list Z * Z * planner) :=
  let p := set_repair_time old_repair_time p in
  c ← goal_g p;
  '(ret, pathIds, p) ← if to_sint c =? INFINITECOST then Ok (false, [], p)
    else '(ids, _, p) ← GetSearchPath inner p; Ok (true, ids, p);
  Ok (ret, pathIds, to_sint c, set_stats (stats p) (num_of_expands_initial_solution p) (eps_satisfied (space p)) p).

Lemma Search_parts fuel inner secs p : Search clock fuel inner (bsearchuntilfirstsolution (params p)) false secs p =
  p1 ← prologue secs p; p2 ← search_loop clock fuel inner (bsearchuntilfirstsolution (params p)) (limit secs p) 0 p1; epilogue inner (repair_time p) p2.
Proof.
  unfold Search, prologue, limit, epilogue. cbv zeta. cbn [orb]. set (b := bsearchuntilfirstsolution (params p)).
  set (p1 := if negb _ then _ else _). destruct (if bReinitializeSearchStateSpace _ then _ else _) as [p2|er]; [|reflexivity]. rewrite !bind_ok_l.
  set (p3 := if b then _ else p2). destruct (env_ensure_heuristics _ _) as [e|er]; [|reflexivity]. rewrite !bind_ok_l.
  destruct (search_loop _ _ _ _ _ _ _) as [p5|er]; reflexivity.
Qed.

Lemma prologue_ok secs p m q goal start xg : ready p m q goal start xg -> eps_ok (first_eps p) ->
  callnumber (space p) + 1 < 2 ^ 16 -> SbplHeapSpec.room (heap (space p)) 1 -> exists p1 m1 q1,
    prologue secs p = Ok p1 /\ searching p1 m1 q1 goal start root xg /\ settled goal root xg p1 /\ looping secs p p1 /\
    (is_Some (cur p1 goal) \/ bReinitializeSearchStateSpace (space p) = true /\ eps_satisfied (space p1) = Doubles.of_int INFINITECOST).
Proof using bounds.
  intros R He Hc Hr. unfold prologue, repair_limit. set (b := bsearchuntilfirstsolution (params p)). cbv zeta.
  set (p0 := if negb _ then _ else _).
  assert (F : environment_ p0 = environment_ p /\ space p0 = space p /\ bforwardsearch p0 = bforwardsearch p /\ params p0 = params p /\
    readings p0 = S (readings p) /\ TimeStarted p0 = clock (readings p) /\
    repair_time p0 = if use_repair_time (params p) then repair_time p else secs).
  { unfold p0. cbn [params set_expands set_clock]. destruct (use_repair_time (params p)); repeat split; reflexivity. }
  destruct F as (F1 & F2 & F3 & F4 & F5 & F6 & F7).
  assert (Hfe : first_eps p0 = first_eps p) by (unfold first_eps; rewrite F2, F4; reflexivity).
  assert (Hfs : first_satisfied p0 = first_satisfied p) by (unfold first_satisfied; rewrite F2; reflexivity).
  assert (Hfi : first_iteration p0 = first_iteration p) by (unfold first_iteration; rewrite F2; reflexivity).
  destruct (ara_begin_ok p0 m q goal start xg) as (p2 & m2 & q2 & -> & S2 & Hs2 & [G1 Gs G2 G3 G4 G5 G6 G7 G8] & Hcur); rewrite ?Hfe, ?F2; auto.
  { revert R. apply ready_same; assumption. }
  rewrite bind_ok_l. set (p3 := if b then _ else p2).
  assert (T : environment_ p3 = environment_ p2 /\ space p3 = space p2 /\ bforwardsearch p3 = bforwardsearch p2 /\ params p3 = params p2 /\
    readings p3 = readings p2 /\ TimeStarted p3 = TimeStarted p2 /\ repair_time p3 = if b then Doubles.of_int INFINITECOST else repair_time p2).
  { unfold p3. destruct b; repeat split; reflexivity. }
  destruct T as (T1 & T2 & T3 & T4 & T5 & T6 & T7).
  assert (S3 : searching p3 m2 q2 goal start root xg) by (revert S2; apply searching_same; assumption).
  destruct (se_ensure (environment_ p3) (bforwardsearch p3) (b_env _ _ _ (ss_base _ _ _ _ _ _ _ S3))) as (e & -> & Ie & Hge). rewrite bind_ok_l.
  pose proof (searching_grown p3 m2 q2 goal start root xg e S3 Ie Hge) as S4. eexists _, m2, q2. split; [reflexivity|].
  set (p4 := set_stats _ _ _ _). assert (E4 : space p4 = space p2) by exact T2.
  assert (G4' : forall k, cur p4 k = cur p2 k) by (intros k; unfold cur, rec, states; rewrite E4; reflexivity).
  split; [revert S4; apply searching_same; reflexivity|]. split; [|split].
  - unfold AraReplan.settled, AraReplan.gval, AraSpec.vals in *. rewrite G4', E4. exact Hs2.
  - split; rewrite ?E4; [congruence|congruence|congruence|congruence|cbn; congruence|cbn; congruence|cbn; congruence| |rewrite F2 in G8; exact G8].
    change (repair_time p4) with (repair_time p3). unfold repair_limit. fold b. rewrite T7, G7, F7. reflexivity.
  - rewrite G4', E4. rewrite F2 in Hcur. exact Hcur.
Qed.

Lemma ready_searching p m q goal start xg : searching p m q goal start root xg -> settled goal root xg p -> is_Some (cur p goal) ->
  ready p m q goal start xg.
Proof. intros S Hs Hc. pose proof S as [B S1 S2 S3 S4 _ _ _ _]. split; auto. Qed.

Lemma epilogue_ok inner old p m q goal start xg : searching p m q goal start root xg -> settled goal root xg p -> is_Some (cur p goal) ->
  max_id < Z.of_nat inner -> exists ret ids c p', epilogue inner old p = Ok (ret, ids, c, p') /\ ready p' m q goal start xg /\
    c = gval p goal /\ eps_satisfied (space p') = eps_satisfied (space p) /\ eps (space p') = eps (space p) /\ readings p' = readings p /\ params p' = params p /\
    bReinitializeSearchStateSpace (space p') = bReinitializeSearchStateSpace (space p) /\
    if ret : bool then gval p goal < INF /\ leads (environment_ p') ids (first_of root xg) (first_of xg root) c
    else ids = [] /\ gval p goal = INF.
Proof using bounds.
  intros S Hs [s Hc] Hin. unfold epilogue. cbv zeta. set (p1 := set_repair_time old p).
  assert (S1 : searching p1 m q goal start root xg) by (revert S; apply searching_same; reflexivity).
  rewrite (goal_g_ok (fwd := fwd) p1 goal s (ss_goal _ _ _ _ _ _ _ S1) Hc), bind_ok_l. change (gval p1 goal) with (gval p goal).
  pose proof (gd_le _ _ _ _ _ _ _ (ss_good _ _ _ _ _ _ _ S) goal) as Hle. cbn in Hle. rewrite (gval_vals (fwd := fwd)) in Hle.
  rewrite to_sint_id by (unfold INF, int32 in *; cbn [int_max]; lia).
  destruct (Z.eqb_spec (gval p goal) INFINITECOST) as [Ei|Ei].
  - rewrite bind_ok_l. eexists _, _, _, _. split; [reflexivity|]. split; [|do 6 (split; [reflexivity|]); split; [reflexivity|exact Ei]].
    apply (ready_same p1); [reflexivity..|]. apply ready_searching; [exact S1|exact Hs|exists s; exact Hc].
  - destruct (ara_GetSearchPath_ok inner p1 m q goal start xg S1) as (ids & cost & p2 & -> & S2 & (p3 & Q & e & -> & Hge) & Hl); [change (gval p goal < INF); unfold INF, INFINITECOST in *; lia|exact Hin|].
    rewrite !bind_ok_l. eexists _, _, _, _. split; [reflexivity|].
    assert (Hsp : forall k, gval (set_environment e p3) k = gval p k) by (intros k; exact (f_equal val_g (qt_vals _ _ Q 0 k))).
    destruct (qt_frame _ _ Q) as (e1 & hx1 & lm1 & l1 & E3).
    assert (Hsat : eps_satisfied (space p3) = eps_satisfied (space p)) by (rewrite E3; reflexivity).
    split; [|split; [reflexivity|split; [exact Hsat|split; [cbn; rewrite E3; reflexivity|split; [cbn; rewrite E3; reflexivity|split; [cbn; rewrite E3; reflexivity|split; [cbn; rewrite E3; reflexivity|]]]]]]].
    + apply (ready_same (set_environment e p3)); [reflexivity..|]. apply ready_searching; [exact S2| |exact (qt_cur _ _ Q goal ltac:(eauto))].
      unfold AraReplan.settled. rewrite Hsp. change (eps_satisfied (space (set_environment e p3))) with (eps_satisfied (space p3)). rewrite Hsat. exact Hs.
    + split; [unfold INF, INFINITECOST in *; lia|]. exact Hl.
Qed.

(** Moves are what the search follows. *)
Lemma moves_walk x l z d : moves succ x l z d -> if fwd then AraCore.walk arcs x z d else AraCore.walk arcs z x d.
Proof using laws.
  induction 1 as [x|x y z l c d Hc _ IH]; [destruct fwd; constructor|].
  pose proof (se_complete x y c Hc) as Ha. destruct fwd.
  - eapply walk_trans; [|exact IH]. apply (walk_step arcs x x y 0 c); [constructor|exact Ha].
  - rewrite Z.add_comm. eapply walk_step; eassumption.
Qed.

(** [c] is within the factor of [e] of every path. *)
Definition bounded (e : Doubles.double) (x z : Node) (c : Z) : Prop :=
  forall num den l d, factor arcs (inflate e) num den -> moves succ x l z d -> den * c <= num * d.

(** The values of [eps] a call ends with are those it went through: the first
    one with [dec_eps] taken off a number of times, down to the final one; the one
    reported may also be left from before. *)
Record scheduled (p p' : planner) : Prop := {
  sd_eps : exists j, eps (space p') = Nat.iter j (next_eps (params p)) (first_eps p);
  sd_satisfied : eps_satisfied (space p') = first_satisfied p \/ exists j, eps_satisfied (space p') = Nat.iter j (next_eps (params p)) (first_eps p);
}.

(** What a call of [replan] answers. *)
Definition answers (secs : Doubles.double) (p p' : planner) (xg : Node) (r : Z) (ids : list Z) (c : Z) : Prop :=
  r = 1 /\ leads (environment_ p') ids (first_of root xg) (first_of xg root) c /\
    (eps_satisfied (space p') = Doubles.of_int INFINITECOST \/ bounded (eps_satisfied (space p')) (first_of root xg) (first_of xg root) c) /\
    (bsearchuntilfirstsolution (params p) = true \/ Doubles.ltb (final_epsilon (params p)) (eps_satisfied (space p')) = false \/ out_of_time secs p p') \/
  r = 0 /\ ids = [] /\ ((forall l d, ~ moves succ (first_of root xg) l (first_of xg root) d) \/ out_of_time secs p p').

Lemma end_moves xg l d : moves succ (first_of root xg) l (first_of xg root) d -> AraCore.walk arcs root xg d.
Proof using laws.
  intros Hm%moves_walk. unfold AraPath.first_of in Hm. destruct fwd; exact Hm.
Qed.

(** The values of [eps] a call goes through: integers when inflated, and final
    after [n] steps. *)
Record schedule (ps : parameters) (e0 : Doubles.double) (n : nat) : Prop := {
  sc_ok : forall k, eps_ok (Nat.iter k (next_eps ps) e0);
  sc_same : forall k, Doubles.ltb (Doubles.fabs (Doubles.sub (Nat.iter k (next_eps ps) e0) (Nat.iter k (next_eps ps) e0))) ERR_EPS = true;
  sc_final : forall k, (n <= k)%nat -> Doubles.ltb (final_epsilon ps) (Nat.iter k (next_eps ps) e0) = false;
  sc_inf : Doubles.ltb (final_epsilon ps) (Doubles.of_int INFINITECOST) = true;
}.

(** The counters have room for a call with [fuel] rounds. *)
Record spare (fuel : nat) (p : planner) : Prop := {
  sp_call : callnumber (space p) + 1 < 2 ^ 16;
  sp_iteration : first_iteration p + Z.of_nat fuel < 2 ^ 16;
  sp_heap : SbplHeapSpec.room (heap (space p)) (1 + Z.of_nat fuel * (max_id * (3 + max_deg)));
}.

(** The main loop is entered: a new search has time for a first round. *)
Lemma entered secs p p1 goal : looping secs p p1 -> Doubles.ltb (final_epsilon (params p)) (Doubles.of_int INFINITECOST) = true ->
  (bReinitializeSearchStateSpace (space p) = true -> ~ over clock (clock (readings p)) (limit secs p) (S (readings p))) ->
  is_Some (cur p1 goal) \/ bReinitializeSearchStateSpace (space p) = true /\ eps_satisfied (space p1) = Doubles.of_int INFINITECOST ->
  is_Some (cur p1 goal) \/ Doubles.ltb (final_epsilon (params p)) (eps_satisfied (space p1)) = true /\ fst (in_time clock (limit secs p) p1) = true.
Proof.
  intros [L1 Ls L2 L3 L4 L5 L6 L7 L8] Hinf Ho [?|[Hb Hs]]; [auto|]. right. rewrite Hs. split; [exact Hinf|]. specialize (Ho Hb).
  unfold in_time, elapsed_less. rewrite L5, L6. unfold over in Ho. apply not_false_is_true in Ho. rewrite Ho.
  change (eps_satisfied (pSearchStateSpace_ (set_clock (clock (readings p)) (Datatypes.S (Datatypes.S (readings p))) p1))) with (eps_satisfied (space p1)).
  rewrite Hs. reflexivity.
Qed.

Lemma replan_ok secs fuel inner n p m q goal start xg : ready p m q goal start xg -> heur xg = 0 -> schedule (params p) (first_eps p) n ->
  steady clock -> (bReinitializeSearchStateSpace (space p) = true -> ~ over clock (clock (readings p)) (limit secs p) (S (readings p))) ->
  spare fuel p -> (n + 2 < fuel)%nat -> max_id < Z.of_nat inner -> exists r ids c p' m' q',
    replan clock fuel inner secs p = Ok (r, ids, c, p') /\ ready p' m' q' goal start xg /\ params p' = params p /\
    bReinitializeSearchStateSpace (space p') = false /\ scheduled p p' /\ answers secs p p' xg r ids c.
Proof using bounds Hdeg.
  intros R Hh [H1 H2 H3 H4] Hst Ho [Hc Hi [Hr0 Hr]] Hf Hin. pose proof (node_range _ _ _ _ _ (ry_base _ _ _ _ _ _ R) (ry_xs _ _ _ _ _ _ R)) as Hmax.
  pose proof (Hdeg root) as Hd. assert (HW : 0 <= Z.of_nat fuel * (max_id * (3 + max_deg))) by (apply Z.mul_nonneg_nonneg; [lia|apply Z.mul_nonneg_nonneg; lia]).
  destruct (prologue_ok secs p m q goal start xg R (H1 O) Hc) as (p1 & m1 & q1 & E1 & S1 & Hs1 & L & Hcur); [split; lia|].
  pose proof (entered secs p p1 goal L H4 Ho Hcur) as Hent. destruct L as [L1 Ls L2 L3 L4 L5 L6 L7 L8].
  unfold replan. rewrite (Search_parts fuel inner secs p), E1, bind_ok_l. set (b := bsearchuntilfirstsolution (params p)) in *. rewrite <- L4 in Hent.
  destruct (search_loop_ok (Hdeg := Hdeg) clock (params p) (first_eps p) n root xg goal start Hh H1 H2 H3 H4 Hst b (limit secs p) inner fuel p1 m1 q1 O 0 S1 L4 L1 Hs1)
    as (p2 & E2 & [(m2 & q2 & D1) D2 D3 De Dsat D5 D6 _ _]); [right; lia|rewrite L2; exact Hi|exact Hin|rewrite <- L4; exact Hent|split; lia|].
  destruct (epilogue_ok inner (repair_time p) p2 m2 q2 goal start xg D1 D2 D6 Hin) as (ret & ids & c & p3 & E3 & R3 & Hcv & Hsat & Heps & Hrd & Hps & Hre & Hout).
  rewrite E2, bind_ok_l, E3, bind_ok_l.
  eexists _, ids, c, p3, m2, q2. split; [reflexivity|]. split; [exact R3|]. split; [rewrite Hps, (on_params _ _ D3); exact L4|].
  split; [rewrite Hre, (on_reinit _ _ D3); exact L3|].
  split; [split; [rewrite Heps; exact De|rewrite Hsat, <- Ls; exact Dsat]|].
  assert (Hot : (exists k, (readings p1 <= k < readings p2)%nat /\ timeout clock (limit secs p) p1 k) -> out_of_time secs p p3).
  { intros (k & Hk & Ht). exists k. rewrite Hrd. split; [lia|]. unfold timeout in Ht. rewrite L6, L7 in Ht. exact Ht. }
  unfold answers. rewrite Hsat. destruct ret.
  - left. destruct Hout as [Hg Hl]. split; [reflexivity|]. split; [exact Hl|]. split.
    + destruct D2 as [D2|[_ D2]]; [auto|right]. intros num den l d F Hm%end_moves. rewrite Hcv. eapply D2; eassumption.
    + rewrite <- L4. destruct D5 as [[_ [?|?]]|[[? _]|?]]; [left; rewrite L4; assumption|auto|lia|auto].
  - right. destruct Hout as [-> Hg]. split; [reflexivity|]. split; [reflexivity|]. destruct D5 as [[? _]|[[_ Hw]|?]]; [lia| |auto].
    left. intros l d Hm%end_moves. exact (Hw d Hm).
Qed.

(** With [eps] 1 and a consistent heuristic the answer is a shortest path. *)
Lemma answers_optimal secs p p' xg ids c : answers secs p p' xg 1 ids c -> eps_satisfied (space p') = Doubles.of_int 1 ->
  (forall x, 0 <= heur x <= INT_MAX) -> (forall x y d, (y, d) ∈ arcs x -> heur x <= d + heur y) ->
  forall l d, moves succ (first_of root xg) l (first_of xg root) d -> c <= d.
Proof.
  intros [(_ & _ & [Ha|Ha] & _)|(Ha & _)] He Hh Hc l d Hm; [|rewrite He in Ha|discriminate].
  - rewrite He in Ha. vm_compute in Ha. discriminate.
  - specialize (Ha 1 1 l d). rewrite !Z.mul_1_l in Ha. apply Ha; [|exact Hm]. split; [lia|]. intros x y k Hk.
    unfold AraSpec.inflate. rewrite !Doubles.one_times_int, !Z.mul_1_l by apply Hh. eapply Hc. exact Hk.
Qed.

(** ** A planner of its own *)

(** The constructor and the calls that set both ends. *)
Definition new_planner (e : E) (forward : bool) (mem : ARASearchStateSpace) (start_id goal_id : Z) : res planner :=
  p ← AraPlanner.construct e forward mem;
  p ← set_start start_id p;
  set_goal goal_id p.

Lemma ready_reinit p m q goal start xg : base p m q -> searchgoalstate (space p) = Some goal -> searchstartstate (space p) = Some start ->
  node_of p goal = Some xg -> node_of p start = Some root -> bReinitializeSearchStateSpace (space p) = true -> ready p m q goal start xg.
Proof. intros. split; auto. Qed.

Lemma new_planner_ok e mem start_id goal_id xg : se_inv fwd succ arcs heur root e -> unindexed (fwd := fwd) (succ := succ) (arcs := arcs) (heur := heur) (root := root)
    (max_id := max_id) (max_cost := max_cost) e -> clean mem ->
  env_node e (if fwd then start_id else goal_id) = Some root -> env_node e (if fwd then goal_id else start_id) = Some xg ->
  exists p goal start, new_planner e fwd mem start_id goal_id = Ok p /\ ready p ∅ [] goal start xg /\
    params p = mkParams ARA_DEFAULT_INITIAL_EPS ARA_FINAL_EPS ARA_DECREASE_EPS false false /\ readings p = O /\
    bReinitializeSearchStateSpace (space p) = true /\ callnumber (space p) = 0 /\ percolates p = 0.
Proof using bounds.
  intros I Hu Hm Hs Hg. unfold new_planner.
  destruct (ara_construct_ok e mem I Hu Hm) as (p0 & -> & B0 & G0 & S0 & R0 & P0 & <- & D0 & C0 & Pc0). rewrite bind_ok_l.
  assert (Hset : forall A (a b : A), (if bforwardsearch p0 then a else b) = if fwd then a else b) by (intros; rewrite (b_fwd _ _ _ B0); reflexivity).
  unfold set_start, set_goal. rewrite Hset.
  destruct (sumbool_of_bool fwd) as [Ef|Ef].
  - assert (Hif : forall A (a b : A), (if fwd then a else b) = a) by (intros; rewrite Ef; reflexivity). rewrite Hif in *.
    destruct (SetSearchStartState_ok p0 ∅ [] start_id root B0 Hs R0) as (start & p1 & -> & B1 & S1 & N1 & G1 & R1 & (P1 & D1 & C1 & H1 & _ & _ & E1)).
    rewrite bind_ok_l, (b_fwd _ _ _ B1), Hif.
    destruct (SetSearchGoalState_ok p1 ∅ [] goal_id xg B1) as (goal & p2 & -> & B2 & G2 & N2 & S2 & R2 & (P2 & D2 & C2 & H2 & _ & X2 & E2)); [rewrite E1; exact Hg|congruence|].
    exists p2, goal, start. split; [reflexivity|]. split; [apply ready_reinit; auto; congruence|].
    split_and!; congruence.
  - assert (Hif : forall A (a b : A), (if fwd then a else b) = b) by (intros; rewrite Ef; reflexivity). rewrite Hif in *.
    destruct (SetSearchGoalState_ok p0 ∅ [] start_id xg B0 Hg G0) as (goal & p1 & -> & B1 & G1 & N1 & S1 & R1 & (P1 & D1 & C1 & H1 & _ & _ & E1)).
    rewrite bind_ok_l, (b_fwd _ _ _ B1), Hif.
    destruct (SetSearchStartState_ok p1 ∅ [] goal_id root B1) as (start & p2 & -> & B2 & S2 & N2 & G2 & R2 & (P2 & D2 & C2 & H2 & _ & X2 & E2)); [rewrite E1; exact Hs|congruence|].
    exists p2, goal, start. split; [reflexivity|]. split; [apply ready_reinit; auto; congruence|].
    split_and!; congruence.
Qed.
End search.
End AraSearch.
