(* ===== verification/Nav2DIndexed.v ===== *)
(** * The 2D grid environment and the index of the planners of SBPL

    [StateID2IndexMapping] gives a planner a slot per state id.  With it the
    environment keeps the contract that ARA* relies on, searching forwards. *)

From S2P Require Import Prelude.
From S2P Require Import Doubles.
From S2P Require Import Environment.
From S2P Require Import Nav2D.
From S2P Require Import Nav2DSpec.
From S2P Require Import Nav2DEnv.
From S2P Require Import AraSpec.

Module Nav2DIndexed.
Import Nav2D Nav2DSpec Nav2DEnv.

(** ** The slots *)

(** [StateID2IndexMapping[id][STATEID2IND_SLOT0]] *)
Definition get_slot (env : EnvironmentNAV2D) (id : Z) : res Z :=
  row ← aget (StateID2IndexMapping env) id; read_cell row 0.

Definition set_mapping (m : list (list (option Z))) (env : EnvironmentNAV2D) : EnvironmentNAV2D :=
  mkEnv (cfg env) (startstateid env) (goalstateid env) (bInitialized env) (HashTableSize env)
    (Coord2StateIDHashTable env) (StateID2CoordTable env) m.

Definition set_slot (env : EnvironmentNAV2D) (id k : Z) : res EnvironmentNAV2D :=
  row ← aget (StateID2IndexMapping env) id;
  row ← aset row 0 (Some k);
  m ← aset (StateID2IndexMapping env) id row;
  Ok (set_mapping m env).

#[export] Instance Nav2D_indexed_ops : IndexedEnvOps EnvironmentNAV2D := {|
  env_preds := GetPreds;
  env_start_heuristic := GetStartHeuristic;
  index_size env := Z.of_nat (length (StateID2IndexMapping env));
  index_get := get_slot;
  index_set := set_slot;
  index_clear env := set_mapping (List.map (List.map (fun _ => Some (-1))) (StateID2IndexMapping env)) env;
|}.

(** Every row has its first slot. *)
Definition slotted (env : EnvironmentNAV2D) : Prop := forall row, row ∈ StateID2IndexMapping env -> exists v rest, row = Some v :: rest.

(** New rows, free, after the old ones. *)
Definition new_slots (env env' : EnvironmentNAV2D) : Prop :=
  exists n, StateID2IndexMapping env' = StateID2IndexMapping env ++ replicate n (replicate (Z.to_nat NUMOFINDICES_STATEID2IND) (Some (-1))).

#[export] Instance new_slots_preorder : PreOrder new_slots.
Proof.
  split; [intros env; exists O; cbn; rewrite app_nil_r; reflexivity|]. intros e1 e2 e3 [n1 H1] [n2 H2]. exists (n1 + n2)%nat.
  rewrite H2, H1, <- app_assoc, replicate_add. reflexivity.
Qed.

Lemma entry_at_slots env x y e env' : entry_at env x y = Ok (e, env') -> new_slots env env'.
Proof.
  unfold entry_at. destruct (GetHashEntry env x y) as [[e0|]|]; [intros [= _ <-]; reflexivity| |discriminate]. rewrite bind_ok_l.
  unfold CreateNewHashEntry. destruct (bin _ _) as [b|]; [|discriminate]. rewrite bind_ok_l. cbn [stateID].
  set (i := Z.of_nat (length (StateID2CoordTable env))). destruct (aset _ i _) as [m|] eqn:Em; [|discriminate]. rewrite bind_ok_l.
  destruct (Z.eqb_spec i (Z.of_nat (length m) - 1)) as [Hi|]; [|discriminate]. cbn [negb]. intros H.
  apply (f_equal (fun r => match r with Ok (_, v) => StateID2IndexMapping v | Err _ => [] end)) in H. cbv beta iota in H. cbn [StateID2IndexMapping] in H.
  exists 1%nat. rewrite <- H. clear H.
  unfold aset in Em. destruct (_ && _) eqn:Eb; [|discriminate]. injection Em as <-. rewrite length_insert, length_app in Hi. cbn in Hi.
  replace (Z.to_nat i) with (length (StateID2IndexMapping env) + 0)%nat by lia. rewrite insert_app_r. reflexivity.
Qed.

Lemma for_each_move_slots {S} (emit : Z -> Z -> Z -> S -> S) e t env acc acc' env' :
  for_each_move emit e t env acc = Ok (acc', env') -> new_slots env env'.
Proof.
  unfold for_each_move. intros H. revert H.
  assert (Hs : forall l st st', foldM (one_move emit e t) st l = Ok st' -> new_slots env st.2 -> new_slots env st'.2); [|intros H; apply (Hs _ (acc, env) (acc', env') H); reflexivity].
  intros l st st' H Hst. refine (foldM_Ok_inv (one_move emit e t) (fun st => new_slots env st.2) l st st' Hst _ H).
  intros aind [a v] [a' v'] _ Hv. unfold one_move. destruct (try_move _ _ _ _) as [[[[nx ny] c]|]|]; [|intros [= <- <-]; exact Hv|discriminate].
  rewrite bind_ok_l. destruct (entry_at v nx ny) as [[out v1]|] eqn:Ee; [|discriminate]. intros [= _ <-]. etransitivity; [exact Hv|].
  eapply entry_at_slots. exact Ee.
Qed.

(** ** The slots and the cells *)

(** The environment serves the map, and every id has its slot. *)
Record serves_slots (c : ENV_NAV2D_CONFIG) (goal : Z * Z) (env : EnvironmentNAV2D) : Prop := {
  ss_serves : serves c goal env;
  ss_slotted : slotted env;
}.

Lemma slotted_new env env' : slotted env -> new_slots env env' -> slotted env'.
Proof.
  intros S [n Hn] row Hr. rewrite Hn in Hr. apply elem_of_app in Hr as [Hr|Hr]; [apply S; exact Hr|].
  apply elem_of_replicate in Hr as [-> _]. exists (-1), [Some (-1)]. reflexivity.
Qed.

Lemma slot_range env i p : env_ok env -> cell_of env i = Some p -> 0 <= i < Z.of_nat (length (StateID2IndexMapping env)).
Proof. intros I Hi. rewrite (eo_index _ I). apply (cell_range env I i p Hi). Qed.

Lemma grown_new env env' : env_ok env -> extends env env' -> env_ok env' -> new_slots env env' -> grown cell_of env env'.
Proof.
  intros I X I' [n Hn]. split.
  - intros i p Hi. split; [eapply extends_cell; eassumption|]. cbn. unfold get_slot. rewrite Hn, aget_app_l by (eapply slot_range; eassumption). reflexivity.
  - intros i p Hi Hno. cbn. unfold get_slot. pose proof (slot_range env' i p I' Hi) as Hr.
    assert (Hlt : Z.of_nat (length (StateID2IndexMapping env)) <= i).
    { apply Z.nlt_ge. intros Hlt. rewrite (eo_index _ I) in Hlt. destruct (aget_in (StateID2CoordTable env) i) as [e Ee]; [lia|].
      unfold cell_of in Hno. rewrite Ee in Hno. discriminate. }
    destruct (aget_in _ _ Hr) as [row Er]. rewrite Er, bind_ok_l. rewrite Hn in Er. apply aget_Ok in Er as [_ Er].
    rewrite lookup_app_r in Er by lia. apply lookup_replicate in Er as [-> _]. reflexivity.
Qed.

Lemma GetSuccs_slots env i ids costs env' : GetSuccs env i = Ok (ids, costs, env') -> new_slots env env'.
Proof.
  unfold GetSuccs. destruct (i =? goalstateid env); [intros [= _ _ <-]; reflexivity|]. destruct (aget _ i) as [e|]; [|discriminate]. rewrite bind_ok_l.
  intros H. exact (for_each_move_slots push_arc e None env ([], []) (ids, costs) env' H).
Qed.

(** A slot written. *)
Lemma set_slot_ok env i p k : env_ok env -> slotted env -> cell_of env i = Some p -> exists m, set_slot env i k = Ok (set_mapping m env) /\
  length m = length (StateID2IndexMapping env) /\ slotted (set_mapping m env) /\ get_slot (set_mapping m env) i = Ok k /\
  forall j, j <> i -> get_slot (set_mapping m env) j = get_slot env j.
Proof.
  intros I S Hi. pose proof (slot_range env i p I Hi) as Hr. unfold set_slot. destruct (aget_in _ _ Hr) as [row Er].
  destruct (S row (aget_elem _ _ _ Er)) as (v & rest & ->). rewrite Er, bind_ok_l, aset_in, bind_ok_l by (cbn; lia). cbn [Z.to_nat list_insert insert].
  rewrite aset_in, bind_ok_l by exact Hr. eexists. split; [reflexivity|]. split; [apply length_insert|]. split; [|split].
  - intros row Hrow. cbn in Hrow. apply list_elem_of_lookup_1 in Hrow as [n Hn]. destruct (decide (n = Z.to_nat i)) as [->|Hne].
    + rewrite list_lookup_insert_eq in Hn by lia. injection Hn as <-. eauto.
    + rewrite list_lookup_insert_ne in Hn by congruence. apply S. eapply list_elem_of_lookup_2. exact Hn.
  - unfold get_slot. cbn [StateID2IndexMapping set_mapping]. rewrite aget_insert, decide_True by (auto || lia). reflexivity.
  - intros j Hj. unfold get_slot. cbn [StateID2IndexMapping set_mapping]. rewrite aget_insert, decide_False by (auto || lia). reflexivity.
Qed.

Lemma env_ok_mapping m env : env_ok env -> length m = length (StateID2IndexMapping env) -> env_ok (set_mapping m env).
Proof.
  intros [H1 H2 H3 H4 H5 H6 H7] Hl. split; [exact H1|exact H2|exact H3|exact H4|exact H5| |exact (eq_trans Hl H7)].
  intros b e. rewrite (hashbin_ext env (set_mapping m env) _ _ eq_refl). exact (H6 b e).
Qed.

(** ** The contract *)

Section contract.
Context (c : ENV_NAV2D_CONFIG) (C : cfg_ok c) (goal : Z * Z).

(** The distance to the goal, as the environment computes it. *)
Definition goal_distance (p : Z * Z) : Z :=
  if IsWithinMapCell c p.1 p.2 then match EuclideanDistance p.1 p.2 goal.1 goal.2 with Ok h => h | Err _ => 0 end else 0.

Lemma goal_distance_bound p : in_map c goal.1 goal.2 -> 0 <= goal_distance p <= 2 ^ 26.
Proof using C.
  intros Hg. unfold goal_distance. destruct (IsWithinMapCell c p.1 p.2) eqn:Ew; [|lia]. apply within_map in Ew.
  destruct (EuclideanDistance_ok c p.1 p.2 goal.1 goal.2 C Ew Hg) as (h & -> & Hh). exact Hh.
Qed.

Lemma goal_distance_goal : in_map c goal.1 goal.2 -> goal_distance goal = 0.
Proof using C.
  intros [Hx Hy]. unfold goal_distance. destruct (IsWithinMapCell _ _ _); [|reflexivity].
  pose proof (co_width _ C) as HW. pose proof (co_height _ C) as HH. unfold MAX_SIDE in *. unfold EuclideanDistance.
  rewrite (add_int_in int32 goal.1 (- goal.1)), bind_ok_l by (unfold int_min, int32; cbn [int_max]; lia).
  rewrite (add_int_in int32 goal.2 (- goal.2)) by (unfold int_min, int32; cbn [int_max]; lia). rewrite !Z.add_opp_diag_r. reflexivity.
Qed.

(** The largest cost of a move. *)
Definition grid_cost : Z := obsthresh c * 2236.

Lemma grid_succ_cost x y w : (y, w) ∈ grid_succ c goal x -> 1 <= w <= grid_cost.
Proof using C.
  unfold grid_succ. case_decide; [intros Hin; inversion Hin|]. unfold neighbors. intros (a & _ & El)%list_elem_of_omap. revert El.
  unfold legal. destruct (moves !! _) as [m|]; [|discriminate]. destruct (forallb _ _ && _) eqn:Eb; [|discriminate]. intros [= _ <-].
  apply andb_true_iff in Eb as [_ Eb%Z.ltb_lt]. pose proof (co_thresh _ C). unfold grid_cost.
  assert (0 <= largest c (entered m x.1 x.2 a)) by (unfold largest; induction (value_at c <$> _); cbn; lia).
  assert (1000 <= length_of m a <= 2236) by (destruct m as [[[dx dy] ix] iy]; cbn; destruct (_ || _); [lia|]; destruct (a <=? 7); lia).
  nia.
Qed.

Lemma grid_succ_degree x : Z.of_nat (length (grid_succ c goal x)) <= 16.
Proof using C.
  unfold grid_succ. case_decide; [cbn; lia|]. pose proof (neighbors_length (legal c x.1 x.2) (numofdirs c)). pose proof (co_dirs _ C). lia.
Qed.

Lemma serves_succs env i p : serves_slots c goal env -> cell_of env i = Some p -> exists ids costs env',
  GetSuccs env i = Ok (ids, costs, env') /\ serves_slots c goal env' /\ grown cell_of env env' /\
  cell_of env' <$> ids = Some ∘ fst <$> grid_succ c goal p /\ costs = snd <$> grid_succ c goal p.
Proof using C.
  intros [S L] Hi. destruct (succs_law (EnvLaws := Nav2D_env_laws c C goal) env i p S Hi) as (ids & costs & env' & E1 & S' & X & H1 & H2).
  pose proof (GetSuccs_slots _ _ _ _ _ E1) as N. exists ids, costs, env'. split; [exact E1|]. split; [split; [exact S'|eapply slotted_new; eassumption]|].
  split; [|split; [exact H1|exact H2]]. apply grown_new; auto; [apply S|apply S'].
Qed.

#[export] Instance Nav2D_search_laws root :
  SearchEnvLaws true (grid_succ c goal) (grid_succ c goal) goal_distance root (EnvWidth_c c * EnvHeight_c c) grid_cost.
Proof using C.
  unshelve eapply Build_SearchEnvLaws; [exact (serves_slots c goal)|exact cell_of|..].
  - intros e i j x [[I _ _] _]. apply cell_inj. exact I.
  - intros e i x [[I <- _] _] Hi. pose proof (cell_range e I i x Hi) as [_ Hr]. pose proof (state_count e I). lia.
  - intros e i x [[I _ _] _] Hi. apply (slot_range e i x I Hi).
  - intros e i x S Hi. exact (serves_succs e i x S Hi).
  - intros e i x S Hi. exact (serves_succs e i x S Hi).
  - intros e i [x y] [[I Hc Hg] _] Hi. cbn. unfold GetGoalHeuristic, GetFromToHeuristic. rewrite (surjective_pairing goal) in Hg.
    destruct (entry_of_cell e I i x y Hi) as (a & -> & Hx & Hy & Hm). destruct (entry_of_cell e I _ goal.1 goal.2 Hg) as (b & -> & Hgx & Hgy & Hgm).
    rewrite !bind_ok_l, Hx, Hy, Hgx, Hgy. rewrite Hc in Hm, Hgm.
    destruct (EuclideanDistance_ok c x y goal.1 goal.2 C Hm Hgm) as (h & Eh & _). unfold goal_distance. cbn [fst snd].
    rewrite (proj2 (within_map c x y)) by exact Hm. rewrite Eh. reflexivity.
  - intros e b S. exists e. split; [reflexivity|]. split; [exact S|]. split; [auto|intros; congruence].
  - intros e i x k [[I Hc Hg] L] Hi. destruct (set_slot_ok e i x k I L Hi) as (m & Em & Hl & L' & H1 & H2). exists (set_mapping m e).
    split; [exact Em|]. split; [split; [split; [apply env_ok_mapping; assumption|exact Hc|exact Hg]|exact L']|]. split; [reflexivity|]. split; [exact H1|].
    intros j y _ Hj. apply H2. exact Hj.
  - intros x y w. apply grid_succ_cost.
  - auto.
  - auto.
Defined.
End contract.
End Nav2DIndexed.
