(* ===== verification/AraProps.v ===== *)
(** * What ARA* promises

    [replan] over any environment that keeps its contract, the planner with its
    default parameters on a 2D grid, and two calls that end with an exception. *)

From S2P Require Import Prelude.
From S2P Require Import Doubles.
From S2P Require Import Environment.
From S2P Require Import Keys.
From S2P Require Import SbplHeap.
From S2P Require Import SbplHeapSpec.
From S2P Require Import SbplList.
From S2P Require Import Nav2D.
From S2P Require Import Nav2DSpec.
From S2P Require Import Nav2DEnv.
From S2P Require Import Nav2DProps.
From S2P Require Import AraPlanner.
From S2P Require Import AraCore.
From S2P Require Import AraSpec.
From S2P Require Import AraImprove.
From S2P Require Import AraReplan.
From S2P Require Import AraStart.
From S2P Require Import AraPath.
From S2P Require Import AraSearch.
From S2P Require Import Nav2DIndexed.

Module AraProps.
Import AraPlanner AraSpec AraReplan AraStart AraPath AraSearch.

(** ** The default values of eps *)

Definition default_params : parameters := mkParams ARA_DEFAULT_INITIAL_EPS ARA_FINAL_EPS ARA_DECREASE_EPS false false.
Abbreviation default_eps k := (Nat.iter k (next_eps default_params) ARA_DEFAULT_INITIAL_EPS).

(** After twenty steps eps is 1. *)
Lemma default_final k : default_eps (k + 20) = ARA_FINAL_EPS.
Proof.
  induction k as [|k IH]; [vm_compute; reflexivity|]. change (Datatypes.S k + 20)%nat with (Datatypes.S (k + 20)). cbn [Nat.iter nat_rect]. 
  change (Nat.iter (k + 20) (next_eps default_params) ARA_DEFAULT_INITIAL_EPS) with (default_eps (k + 20)) in IH.
  unfold Nat.iter in IH. rewrite IH. vm_compute. reflexivity.
Qed.

(** What holds of the first twenty-one values holds of all. *)
Lemma default_all (P : Doubles.double -> bool) : forallb (fun k => P (default_eps k)) (List.seq 0 21) = true -> forall k, P (default_eps k) = true.
Proof.
  intros H k. rewrite forallb_forall in H. destruct (decide (k < 21)%nat) as [Hk|Hk]; [apply H, in_seq; lia|].
  replace k with (k - 20 + 20)%nat by lia. rewrite default_final, <- (default_final 0). apply (H 20%nat), in_seq. lia.
Qed.

(** Doubles less than 10^-7 apart. *)
Definition near (x y : Doubles.double) : bool := Doubles.ltb (Doubles.fabs (Doubles.sub x y)) ERR_EPS.

(** The [j]-th value is 5 - 0.2 j, but for rounding. *)
Lemma default_near j : (j <= 20)%nat -> near (default_eps j) (Doubles.literal (50 - 2 * Z.of_nat j) 10) = true.
Proof.
  intros Hj. assert (H : forallb (fun j => near (default_eps j) (Doubles.literal (50 - 2 * Z.of_nat j) 10)) (List.seq 0 21) = true) by (vm_compute; reflexivity).
  rewrite forallb_forall in H. apply H, in_seq. lia.
Qed.

Lemma default_capped x : (exists j, x = default_eps j) -> exists j, (j <= 20)%nat /\ x = default_eps j.
Proof.
  intros [j ->]. destruct (decide (j <= 20)%nat) as [Hj|Hj]; [eauto|]. exists 20%nat. split; [lia|].
  replace j with (j - 20 + 20)%nat by lia. rewrite default_final. symmetry. apply (default_final 0).
Qed.

(** The first of them that is not above the final one is 1. *)
Lemma default_last j : Doubles.ltb ARA_FINAL_EPS (default_eps j) = false -> default_eps j = Doubles.of_int 1.
Proof.
  intros H. destruct (decide (j < 20)%nat) as [Hj|Hj].
  - assert (Hall : forallb (fun j => Doubles.ltb ARA_FINAL_EPS (default_eps j)) (List.seq 0 20) = true) by (vm_compute; reflexivity).
    rewrite forallb_forall in Hall. rewrite (Hall j) in H by (apply in_seq; lia). discriminate.
  - replace j with (j - 20 + 20)%nat by lia. rewrite default_final. vm_compute. reflexivity.
Qed.

(** Between 0 and 8. *)
Definition small (x : Doubles.double) : bool :=
  match x with SpecFloat.S754_finite false m e => (e <=? 3) && (Zpos m <=? 2 ^ (3 - e)) | _ => false end.

Lemma small_upto x : small x = true -> Doubles.upto 3 x.
Proof.
  destruct x as [| | |[] m e]; try discriminate. cbn. rewrite andb_true_iff, !Z.leb_le. intros [H1 H2]. right. auto.
Qed.

(** Heuristics below 2^26 leave room for paths cheaper than 463129088. *)
Lemma default_schedule {Node} (heur : Node -> Z) max_id max_cost : (forall x, 0 <= heur x <= 2 ^ 26) -> max_id * max_cost < 463129088 ->
  schedule (heur := heur) (max_id := max_id) (max_cost := max_cost) default_params ARA_DEFAULT_INITIAL_EPS 20.
Proof.
  intros Hh Hc. split.
  - intros k x. pose proof (small_upto _ (default_all small ltac:(vm_compute; reflexivity) k)) as Hk.
    pose proof (Doubles.mul_upto 3 26 _ _ ltac:(lia) Hk (Doubles.of_int_upto (heur x) 26 ltac:(lia) (Hh x))) as Hm.
    destruct (Doubles.to_type_upto int32 29 _ ltac:(lia) ltac:(vm_compute; discriminate) Hm) as (z & Ez & Hz).
    unfold inflate, Doubles.to_int. rewrite Ez. split; [reflexivity|]. unfold AraCore.INF. lia.
  - apply (default_all (fun x => Doubles.ltb (Doubles.fabs (Doubles.sub x x)) ERR_EPS)). vm_compute. reflexivity.
  - intros k Hk. replace k with (k - 20 + 20)%nat by lia. rewrite default_final. vm_compute. reflexivity.
  - vm_compute. reflexivity.
Qed.

(** ** The promise *)

(** C4: A call of replan of ARA*, on a planner that is ready, with counters and fuel to spare, inflated heuristics that fit and, if the search is new, time left at the first reading of the clock, returns without an error and leaves the planner ready for the next call.  It returns 1 with a path of moves from start to goal that costs at most the reported cost, or 0 when there is no path or the time was over.  When a search was finished, the cost is at most num / den times that of every path, for any num / den up to which the truncated product (int)(eps * h) of the reported eps is consistent; with eps 1 and a consistent heuristic it is that of a shortest path.  The values of eps are those of the schedule, and the reported one is final unless only a first solution was asked for or the time was over at some reading of the clock. *)
Theorem ara_replan_correct {E} {eops : EnvOps E} {iops : IndexedEnvOps E} {Node} (fwd : bool) (succ arcs : Node -> list (Node * Z))
    (heur : Node -> Z) (root : Node) (max_id max_cost max_deg : Z) {laws : SearchEnvLaws (E := E) fwd succ arcs heur root max_id max_cost}
    {bounds : AraBounds max_id max_cost} (clock : nat -> Z) secs fuel inner n (p : ARAPlanner E) m q goal start xg :
  (forall x, Z.of_nat (length (arcs x)) <= max_deg) -> steady clock ->
  ready p m q goal start xg -> heur xg = 0 ->
  schedule (heur := heur) (max_id := max_id) (max_cost := max_cost) (params p) (first_eps p) n ->
  (bReinitializeSearchStateSpace (pSearchStateSpace_ p) = true -> ~ AraImprove.over clock (clock (readings p)) (limit secs p) (S (readings p))) ->
  spare (max_id := max_id) (max_deg := max_deg) fuel p -> (n + 2 < fuel)%nat -> max_id < Z.of_nat inner -> exists r ids c p' m' q',
    replan clock fuel inner secs p = Ok (r, ids, c, p') /\ ready p' m' q' goal start xg /\ params p' = params p /\
    bReinitializeSearchStateSpace (pSearchStateSpace_ p') = false /\ scheduled p p' /\
    answers (fwd := fwd) (succ := succ) (arcs := arcs) (heur := heur) (root := root) (max_id := max_id) (max_cost := max_cost) clock secs p p' xg r ids c /\
    (r = 1 -> get_solution_eps p' = Doubles.of_int 1 -> (forall x, 0 <= heur x <= INT_MAX) ->
     (forall x y d, (y, d) ∈ arcs x -> heur x <= d + heur y) ->
     forall l d, moves succ (first_of (fwd := fwd) root xg) l (first_of (fwd := fwd) xg root) d -> c <= d).
Proof.
  intros Hd Hst R Hh Hs Ho Hsp Hf Hin.
  destruct (replan_ok (Hdeg := Hd) clock secs fuel inner n p m q goal start xg R Hh Hs Hst Ho Hsp Hf Hin) as (r & ids & c & p' & m' & q' & E1 & R' & Ep & Eb & Sd & A).
  exists r, ids, c, p', m', q'. do 6 (split; [assumption|]). intros -> He H1 H2. eapply answers_optimal; eassumption.
Qed.

(** ** The planner on a grid *)

Import Nav2D Nav2DSpec Nav2DEnv Nav2DProps Nav2DIndexed.

(** Room for the states, the costs and the counter of the heap. *)
Record grid_fits (c : ENV_NAV2D_CONFIG) (fuel : nat) : Prop := {
  gf_states : EnvWidth_c c * EnvHeight_c c <= 5000000;
  gf_costs : EnvWidth_c c * EnvHeight_c c * grid_cost c < 463129088;
  gf_heap : 24 * (1 + Z.of_nat fuel * (EnvWidth_c c * EnvHeight_c c * 19)) <= INT_MAX;
}.

Lemma grid_bounds c fuel : cfg_ok c -> grid_fits c fuel -> AraBounds (EnvWidth_c c * EnvHeight_c c) (grid_cost c).
Proof. intros C [H1 H2 _]. split; [exact H1| |lia]. unfold grid_cost. pose proof (co_thresh _ C). lia. Qed.

Lemma serves_goal c goal env : serves_slots c goal env -> in_map c goal.1 goal.2.
Proof. intros [[I <- Hg] _]. apply (cell_range env I _ goal Hg). Qed.

(** No id has been given to the planner yet. *)
Definition unslotted (env : EnvironmentNAV2D) : Prop := forall id, 0 <= id < Z.of_nat (length (StateID2CoordTable env)) -> get_slot env id = Ok (-1).

(** C8: On a 2D grid the planner that is constructed, given start and goal, and asked to plan forwards with its default parameters decreases eps along 5, 4.8, 4.6, ... down to 1: its values after j steps are within 10^-7 of these, the eps it ends with is one of them, the one it reports as satisfied too unless no search was finished, and it reports exactly 1 whenever it finds a path and the time was never over.  23 rounds are enough.  It returns 1 with a path of legal moves to the goal, or 0 when there is none or the time is over; the cost is at most num / den times that of every path, for any num / den up to which (int)(eps * h) of the reported eps is consistent.  This needs time left at the first reading of the clock, at most 5000000 cells, cells * obsthresh * 2236 < 463129088, and room in the counter of the heap. *)
Theorem grid_ara_replan c (C : cfg_ok c) goal env clock secs fuel inner mem start_id xs :
  serves_slots c goal env -> unslotted env -> clean mem -> cell_of env start_id = Some xs -> grid_fits c fuel -> (22 < fuel)%nat ->
  Z.of_nat fuel < 2 ^ 16 -> EnvWidth_c c * EnvHeight_c c < Z.of_nat inner -> steady clock -> ~ AraImprove.over clock (clock O) secs 1 ->
  exists p r ids cost p',
    new_planner env true mem start_id (goalstateid env) = Ok p /\ replan clock fuel inner secs p = Ok (r, ids, cost, p') /\
    answers (fwd := true) (succ := grid_succ c goal) (arcs := grid_succ c goal) (heur := goal_distance c goal) (root := xs)
      (max_id := EnvWidth_c c * EnvHeight_c c) (max_cost := grid_cost c) (laws := Nav2D_search_laws c C goal xs) clock secs p p' goal r ids cost /\
    (forall j, (j <= 20)%nat -> near (default_eps j) (Doubles.literal (50 - 2 * Z.of_nat j) 10) = true) /\
    (exists j, (j <= 20)%nat /\ eps (pSearchStateSpace_ p') = default_eps j) /\
    (get_solution_eps p' = Doubles.of_int INFINITECOST \/ exists j, (j <= 20)%nat /\ get_solution_eps p' = default_eps j) /\
    (r = 1 -> ~ out_of_time clock secs p p' -> get_solution_eps p' = Doubles.of_int 1).
Proof.
  intros S U Hm Hs F Hf1 Hf2 Hin Hst Ho. pose proof (serves_goal c goal env S) as Hgm. pose proof (grid_bounds c fuel C F) as Hb.
  destruct (new_planner_ok (laws := Nav2D_search_laws c C goal xs) env mem start_id (goalstateid env) goal S)
    as (p & g0 & s0 & Ep & R & Hps & Hrd & Hre & Hcn & Hpc).
  { intros id x Hx. apply U. apply (cell_range env (sv_ok _ _ _ (ss_serves _ _ _ S)) id x Hx). }
  { exact Hm. } { exact Hs. } { exact (sv_goal _ _ _ (ss_serves _ _ _ S)). }
  assert (Hfe : first_eps p = ARA_DEFAULT_INITIAL_EPS) by (unfold first_eps; rewrite Hre, Hps; reflexivity).
  destruct (replan_ok (laws := Nav2D_search_laws c C goal xs) (Hdeg := grid_succ_degree c C goal) clock secs fuel inner 20 p ∅ [] g0 s0 goal R)
    as (r & ids & cost & p' & _ & _ & Er & _ & _ & _ & Sd & A); try assumption.
  - exact (goal_distance_goal c C goal Hgm).
  - rewrite Hfe, Hps. apply default_schedule; [intros x; apply goal_distance_bound; assumption|apply F].
  - intros _. unfold limit. rewrite Hrd, Hps. exact Ho.
  - split; [rewrite Hcn; reflexivity|unfold first_iteration; rewrite Hre; exact Hf2|]. split; [rewrite Hpc; reflexivity|]. rewrite Hpc. apply F.
  - exists p, r, ids, cost, p'. split; [exact Ep|]. split; [exact Er|]. split; [exact A|]. split; [exact default_near|].
    destruct Sd as [He Hsat]. unfold first_satisfied in Hsat. rewrite Hfe, Hps in He, Hsat. rewrite Hre in Hsat.
    split; [apply default_capped; exact He|]. split; [destruct Hsat as [?|Hsat]; [auto|right; apply default_capped; exact Hsat]|].
    intros -> Hot. destruct A as [(_ & _ & _ & [Hbf|[Hf|Ht]])|(Hr & _)]; [rewrite Hps in Hbf; discriminate| |contradiction|discriminate].
    rewrite Hps in Hf. destruct Hsat as [Hs'|[j Hj]].
    + rewrite Hs' in Hf. vm_compute in Hf. discriminate.
    + unfold get_solution_eps. rewrite Hj in Hf |- *. apply default_last. exact Hf.
Qed.

(** ** A concrete call *)

Definition blank_space : ARASearchStateSpace :=
  mkSpace (Doubles.of_int 0) (Doubles.of_int 0) SbplHeap.new_heap ∅ SbplList.new_list SbplList.empty_memory 0 0 None None [] false false false.
Definition still (n : nat) : Z := 0.

Lemma still_steady : steady still.
Proof. intros t0 secs i j _ H. exact H. Qed.

Lemma blank_clean : clean blank_space.
Proof. split; reflexivity. Qed.

Definition sample_c_ok : cfg_ok (cfg sample_env) := eo_cfg _ sample_ok.

Lemma sample_serves : serves_slots (cfg sample_env) (3, 2) sample_env.
Proof.
  split; [split; [exact sample_ok|reflexivity|vm_compute; reflexivity]|]. intros row Hrow.
  assert (H : forallb (fun row => match row with Some _ :: _ => true | _ => false end) (StateID2IndexMapping sample_env) = true) by (vm_compute; reflexivity).
  rewrite forallb_forall in H. specialize (H row (proj1 (list_elem_of_In _ _) Hrow)). destruct row as [|[v|] rest]; try discriminate. eauto.
Qed.

Lemma sample_unslotted : unslotted sample_env.
Proof.
  intros id Hid. assert (H : forallb (fun id => match get_slot sample_env id with Ok v => v =? -1 | Err _ => false end)
    (seqZ 0 (Z.of_nat (length (StateID2CoordTable sample_env)))) = true) by (vm_compute; reflexivity).
  rewrite forallb_forall in H. specialize (H id). rewrite <- list_elem_of_In, elem_of_seqZ in H. specialize (H ltac:(lia)).
  destruct (get_slot sample_env id) as [v|]; [|discriminate]. apply Z.eqb_eq in H. congruence.
Qed.

Lemma sample_fits : grid_fits (cfg sample_env) 23.
Proof. split; vm_compute; congruence. Qed.

Lemma still_in_time : ~ AraImprove.over still 0 (Doubles.of_int 10) 1.
Proof. vm_compute. discriminate. Qed.

Lemma sample_starts : cell_of sample_env 0 = Some (0, 0).
Proof. vm_compute. reflexivity. Qed.

Lemma sample_room : EnvWidth_c (cfg sample_env) * EnvHeight_c (cfg sample_env) < Z.of_nat 13.
Proof. vm_compute. reflexivity. Qed.

(** The answer to the first call on the sample map. *)
Definition sample_answer : res (Z * Z) :=
  p ← new_planner sample_env true blank_space 0 (goalstateid sample_env);
  '(r, _, c, _) ← replan still 23 13 (Doubles.of_int 10) p;
  Ok (r, c).

Lemma sample_answer_value : sample_answer = Ok (1, 4414).
Proof. vm_compute. reflexivity. Qed.

Lemma sample_answer_def : sample_answer =
  (p ← new_planner sample_env true blank_space 0 (goalstateid sample_env); '(r, _, c, _) ← replan still 23 13 (Doubles.of_int 10) p; Ok (r, c)).
Proof. reflexivity. Qed.

Lemma sample_returns p r ids c p' : new_planner sample_env true blank_space 0 (goalstateid sample_env) = Ok p ->
  replan still 23 13 (Doubles.of_int 10) p = Ok (r, ids, c, p') -> r = 1.
Proof.
  intros Ep Er. pose proof sample_answer_value as Hv. rewrite sample_answer_def, Ep, bind_ok_l, Er, bind_ok_l in Hv. congruence.
Qed.

Lemma sample_params p : new_planner sample_env true blank_space 0 (goalstateid sample_env) = Ok p -> params p = default_params.
Proof.
  intros Ep. assert (H : match new_planner sample_env true blank_space 0 (goalstateid sample_env) with Ok p => params p | Err _ => default_params end = default_params)
    by (vm_compute; reflexivity). rewrite Ep in H. exact H.
Qed.

(** A clock that stands still is never over. *)
Lemma still_in_time_always {E} {eops : EnvOps E} {iops : IndexedEnvOps E} (p p' : ARAPlanner E) : params p = default_params -> ~ out_of_time still (Doubles.of_int 10) p p'.
Proof.
  intros Hps (k & _ & Ho). unfold limit, repair_limit in Ho. rewrite Hps in Ho. cbn [bsearchuntilfirstsolution use_repair_time default_params] in Ho.
  unfold AraImprove.over, still in Ho. destruct Ho as [Ho|Ho]; vm_compute in Ho; discriminate.
Qed.

Lemma grid_ara_replan_witness : exists p r ids cost p',
  new_planner sample_env true blank_space 0 (goalstateid sample_env) = Ok p /\
  replan still 23 13 (Doubles.of_int 10) p = Ok (r, ids, cost, p') /\
  answers (fwd := true) (succ := grid_succ (cfg sample_env) (3, 2)) (arcs := grid_succ (cfg sample_env) (3, 2)) (heur := goal_distance (cfg sample_env) (3, 2))
    (root := (0, 0)) (max_id := EnvWidth_c (cfg sample_env) * EnvHeight_c (cfg sample_env)) (max_cost := grid_cost (cfg sample_env))
    (laws := Nav2D_search_laws (cfg sample_env) sample_c_ok (3, 2) (0, 0)) still (Doubles.of_int 10) p p' (3, 2) r ids cost /\
  get_solution_eps p' = Doubles.of_int 1.
Proof.
  destruct (grid_ara_replan (cfg sample_env) sample_c_ok (3, 2) sample_env still (Doubles.of_int 10) 23 13 blank_space 0 (0, 0)
    sample_serves sample_unslotted blank_clean sample_starts sample_fits ltac:(lia) ltac:(vm_compute; reflexivity)
    sample_room still_steady still_in_time) as (p & r & ids & cost & p' & Ep & Er & A & _ & _ & _ & Hone).
  exists p, r, ids, cost, p'. split; [exact Ep|]. split; [exact Er|]. split; [exact A|]. apply Hone.
  - exact (sample_returns p r ids cost p' Ep Er).
  - exact (still_in_time_always p p' (sample_params p Ep)).
Defined.

Lemma ara_replan_correct_witness : exists p r ids c p', new_planner sample_env true blank_space 0 (goalstateid sample_env) = Ok p /\
  replan still 23 13 (Doubles.of_int 10) p = Ok (r, ids, c, p') /\ bReinitializeSearchStateSpace (pSearchStateSpace_ p') = false.
Proof.
  pose proof (grid_bounds (cfg sample_env) 23 sample_c_ok sample_fits) as Hb.
  set (laws := Nav2D_search_laws (cfg sample_env) sample_c_ok (3, 2) (0, 0)).
  destruct (new_planner_ok (laws := laws) sample_env blank_space 0 (goalstateid sample_env) (3, 2) sample_serves)
    as (p & g0 & s0 & Ep & R & Hps & Hrd & Hre & Hcn & Hpc).
  { intros id x Hx. apply sample_unslotted. apply (cell_range sample_env sample_ok id x Hx). }
  { exact blank_clean. } { vm_compute. reflexivity. } { vm_compute. reflexivity. }
  destruct (ara_replan_correct true _ _ _ (0, 0) _ _ 16 (laws := laws) still (Doubles.of_int 10) 23 13 20 p ∅ [] g0 s0 (3, 2)
    (grid_succ_degree _ sample_c_ok _) still_steady R) as (r & ids & c & p' & _ & _ & Er & _ & _ & Hb' & _ & _).
  - vm_compute. reflexivity.
  - unfold first_eps. rewrite Hre, Hps. apply default_schedule; [|vm_compute; reflexivity].
    intros x. apply goal_distance_bound; [exact sample_c_ok|]. split; vm_compute; split; congruence.
  - intros _. unfold limit. rewrite Hrd, Hps. exact still_in_time.
  - split; [rewrite Hcn; reflexivity|unfold first_iteration; rewrite Hre; reflexivity|split; rewrite Hpc; vm_compute; congruence].
  - lia.
  - vm_compute. reflexivity.
  - exists p, r, ids, c, p'. auto.
Defined.

(** ** Calls that throw *)

(** Time for nothing: the goal still has the cost of an earlier call. *)
Definition expired : res (Z * list Z * Z) :=
  p ← new_planner sample_env true blank_space 0 (goalstateid sample_env);
  '(_, _, _, p) ← replan still 23 13 (Doubles.of_int 10) p;
  '(id, e) ← SetStart (environment_ p) 1 0;
  p ← set_start id (AraPlanner.set_environment e p);
  '(r, ids, c, _) ← replan still 23 13 (Doubles.of_int 0) p;
  Ok (r, ids, c).

(** When the start has moved and the allocated time is over before the first expansion, replan ends with an exception instead of reporting failure: the goal still carries the cost and the predecessors of the earlier call, and the path back does not lead to the new start. *)
Theorem ara_expired_throws : expired = Err Thrown.
Proof. vm_compute. reflexivity. Qed.

Definition uneven : list Z :=
  [4; 5; 1; 4; 4; 2; 1; 5; 0; 1; 4; 7; 2; 2; 5; 6; 0; 4; 3; 2; 6; 2; 0; 0; 5; 0; 1; 1; 2; 3; 4; 0; 7; 4; 3; 6; 1; 3; 2; 6; 7; 3; 1; 0; 5;
   2; 2; 6; 4].

(** A first solution, then another goal. *)
Definition new_goal_set : res (ARAPlanner EnvironmentNAV2D) :=
  '(_, env) ← InitializeEnv new_env 7 7 (Some uneven) 0 0 6 6 6;
  p ← new_planner env true blank_space (startstateid env) (goalstateid env);
  '(_, _, _, p) ← replan still 23 50 (Doubles.of_int 10) (set_search_mode true p);
  '(id, e) ← SetGoal (environment_ p) 3 6;
  p ← set_goal id (AraPlanner.set_environment e p);
  Ok (set_search_mode false p).

(** [Search] up to the end of the first round of its main loop. *)
Definition first_round (p : ARAPlanner EnvironmentNAV2D) : res (ARAPlanner EnvironmentNAV2D) :=
  p ← prologue still (Doubles.of_int 10) p;
  let '(_, p) := in_time still (Doubles.of_int 10) p in
  p ← improve_once still 50 false (Doubles.of_int 10) p;
  record_stats 0 p.

Definition thrown {A} (r : res A) : bool := match r with Err Thrown => true | _ => false end.

Lemma thrown_spec {A} (r : res A) : thrown r = true -> r = Err Thrown.
Proof. destruct r as [|[]]; discriminate || reflexivity. Qed.

(** The state [k] is in OPEN, and the head of INCONS. *)
Definition in_both {E} (p : ARAPlanner E) (k : Z) : Prop :=
  let space := pSearchStateSpace_ p in
  SbplHeap.inheap (heapindices space) k = true /\ SbplList.in_ (listmemory space) k ARA_INCONS_LIST_ID = true /\
  SbplList.getfirst (inconslist space) (listmemory space) = Ok (Some k).

Lemma insert_again (h : SbplHeap.CHeap Keys.CKey) ix k key : is_ok (SbplHeap.sizecheck h) = true ->
  SbplHeap.inheap ix k = true -> SbplHeap.insertheap k key h ix = Err Thrown.
Proof.
  intros [h' Hh]%is_ok_true Hk. unfold SbplHeap.insertheap. rewrite Hh, bind_ok_l. unfold SbplHeap.inheap in Hk. rewrite Hk. reflexivity.
Qed.

(** The key [BuildNewOPENList] computes for the state [k] once [eps] is decreased. *)
Definition next_key {E} (p : ARAPlanner E) (k : Z) : res Z :=
  s ← state_at p k; fvalue (next_eps (params p) (eps (pSearchStateSpace_ p))) s.

(** A state that is first of INCONS and still in OPEN makes the merge throw, over any environment. *)
Lemma decrease_eps_throws {E} (p : ARAPlanner E) k : in_both p k ->
  is_ok (SbplHeap.sizecheck (heap (pSearchStateSpace_ p))) = true -> is_ok (next_key p k) = true -> decrease_eps p = Err Thrown.
Proof.
  intros (Hk & _ & Hf) Hs [f Ef]%is_ok_true. apply bind_Ok in Ef as (s & Es & Ef).
  unfold decrease_eps, BuildNewOPENList. set (p1 := on_space _ p). cbn [merge_loop].
  change (SbplList.getfirst (inconslist (pSearchStateSpace_ p1)) (listmemory (pSearchStateSpace_ p1))) with
    (SbplList.getfirst (inconslist (pSearchStateSpace_ p)) (listmemory (pSearchStateSpace_ p))).
  rewrite Hf, bind_ok_l. change (state_at p1 k) with (state_at p k). rewrite Es, bind_ok_l.
  change (eps (pSearchStateSpace_ p1)) with (next_eps (params p) (eps (pSearchStateSpace_ p))). rewrite Ef, bind_ok_l.
  rewrite (insert_again (heap (pSearchStateSpace_ p1)) (heapindices (pSearchStateSpace_ p1)) k _ Hs Hk). reflexivity.
Qed.

(** What the next theorem evaluates of two planners. *)
Definition merge_checks (p0 p1 : ARAPlanner EnvironmentNAV2D) (k : Z) : bool :=
  let space := pSearchStateSpace_ p1 in
  SbplHeap.inheap (heapindices space) k && SbplList.in_ (listmemory space) k ARA_INCONS_LIST_ID &&
  match SbplList.getfirst (inconslist space) (listmemory space) with Ok (Some i) => i =? k | _ => false end &&
  is_ok (SbplHeap.sizecheck (heap space)) && is_ok (next_key p1 k) && thrown (replan still 23 50 (Doubles.of_int 10) p0).

Lemma merge_checks_spec p0 p1 k : merge_checks p0 p1 k = true -> in_both p1 k /\
  is_ok (SbplHeap.sizecheck (heap (pSearchStateSpace_ p1))) = true /\ is_ok (next_key p1 k) = true /\
  replan still 23 50 (Doubles.of_int 10) p0 = Err Thrown.
Proof.
  unfold merge_checks, in_both. cbv zeta. rewrite !andb_true_iff. intros [[[[[H1 H2] H3] H4] H5] H6%thrown_spec].
  split; [|auto]. split; [exact H1|]. split; [exact H2|]. destruct (SbplList.getfirst _ _) as [[i|]|]; try discriminate.
  apply Z.eqb_eq in H3 as ->. reflexivity.
Qed.

(** C37: Over any environment, the decrease of eps, which merges INCONS into OPEN, throws if the first state of INCONS is in OPEN (and the heap has room and the key of the state can be computed).  A new goal leads there, since it starts a new iteration without merging: on a 7 x 7 map all calls and the first round of the second replan succeed, and then a state is in OPEN and the first of INCONS; inserting it throws whatever the key, and that replan ends with the exception. *)
Theorem ara_new_goal_throws :
  (forall E (p : ARAPlanner E) k, in_both p k -> is_ok (SbplHeap.sizecheck (heap (pSearchStateSpace_ p))) = true ->
     is_ok (next_key p k) = true -> decrease_eps p = Err Thrown) /\
  exists p0 p1 k, new_goal_set = Ok p0 /\ first_round p0 = Ok p1 /\ in_both p1 k /\
    (forall key, SbplHeap.insertheap k key (heap (pSearchStateSpace_ p1)) (heapindices (pSearchStateSpace_ p1)) = Err Thrown) /\
    decrease_eps p1 = Err Thrown /\ replan still 23 50 (Doubles.of_int 10) p0 = Err Thrown.
Proof.
  split; [intros E p k; apply decrease_eps_throws|].
  assert (H : match (p0 ← new_goal_set; p1 ← first_round p0; Ok (p0, p1)) with Ok (p0, p1) => merge_checks p0 p1 13 | Err _ => false end = true)
    by (vm_compute; reflexivity).
  destruct (p0 ← new_goal_set; p1 ← first_round p0; Ok (p0, p1)) as [[p0 p1]|] eqn:E; [|discriminate].
  apply bind_Ok in E as (p0' & E0 & E). apply bind_Ok in E as (p1' & E1 & [= <- <-]).
  apply merge_checks_spec in H as (Hb & Hs & Hk & Hr). exists p0', p1', 13. split; [exact E0|]. split; [exact E1|]. split; [exact Hb|].
  split; [intros key; apply insert_again; [exact Hs|apply Hb]|]. split; [|exact Hr]. apply (decrease_eps_throws p1' 13); assumption.
Qed.
End AraProps.
