(* ===== verification/SbplGrid2DCore.v ===== *)
(** * The invariant of the 2D grid search, on its values alone

    Which states have been accessed, with what [g]; which are closed and which
    wait in OPEN.  Every walk from the start to a state that is not closed passes
    a state of OPEN that costs at most the walk so far. *)

From S2P Require Import Prelude.
From S2P Require Import AraCore.

Module SbplGrid2DCore.

Definition INF : Z := 1000000000.

Record view := mkView {
  accessed : Z -> bool;
  G : Z -> Z;
  closed : Z -> bool;
  waiting : Z -> Prop;
}.

Section core.
Context (arcs : Z -> list (Z * Z)) (root : Z) (h : Z -> Z).
Context (Hcost : forall i j c, (j, c) ∈ arcs i -> 0 <= c).
(** The heuristic is consistent. *)
Context (Hcons : forall i j c, (j, c) ∈ arcs i -> h i <= c + h j).

#[local] Abbreviation walk := (AraCore.walk arcs).

Lemma grid_walk_cost i j d : walk i j d -> 0 <= d.
Proof using Hcost. induction 1 as [|y z d c _ IH Hc]; [lia|]. apply Hcost in Hc. lia. Qed.

Lemma walk_consistent i j d : walk i j d -> h i <= d + h j.
Proof using Hcons. induction 1 as [|y z d c _ IH Hc]; [lia|]. apply Hcons in Hc. lia. Qed.

(** The arc from [i] to [j] has been taken into account. *)
Definition relaxed (w : view) (i j c : Z) : Prop :=
  accessed w j = true /\ G w j <= G w i + c /\ (closed w j = true \/ waiting w j \/ INF <= G w i + c).

(** [todo]: the arcs of [u] that are still to be relaxed. *)
Record good (u : Z) (todo : list (Z * Z)) (w : view) : Prop := {
  gd_walk : forall i, accessed w i = true -> 0 <= G w i <= INF /\ (G w i < INF -> walk root i (G w i));
  gd_root : G w root = 0 /\ (closed w root = true \/ waiting w root);
  gd_part : forall i, accessed w i = true -> closed w i = true \/ waiting w i \/ G w i = INF;
  gd_waiting : forall i, waiting w i -> accessed w i = true /\ closed w i = false;
  gd_closed : forall i, closed w i = true -> accessed w i = true /\ forall d, walk root i d -> G w i <= d;
  gd_relaxed : forall i j c, closed w i = true -> (j, c) ∈ arcs i -> i = u /\ (j, c) ∈ todo \/ relaxed w i j c;
}.

(** How a walk from the start leaves the closed states. *)
Lemma grid_frontier u w x d : good u [] w -> walk root x d ->
  closed w x = true /\ G w x <= d \/ (exists y d' d'', waiting w y /\ walk root y d' /\ walk y x d'' /\ d = d' + d'' /\ G w y <= d') \/ INF <= d.
Proof using Hcost.
  intros Hg. induction 1 as [|y z d c Hw IH Hc].
  - destruct (gd_root _ _ _ Hg) as [E [H|H]]; [left; split; [exact H|lia]|].
    right. left. exists root, 0, 0. split; [exact H|]. split; [constructor|]. split; [constructor|]. lia.
  - pose proof (Hcost _ _ _ Hc) as Hc0. destruct IH as [[H1 H2]|[(t & d' & d'' & H1 & H2 & H3 & -> & H4)|H]].
    + destruct (gd_relaxed _ _ _ Hg y z c H1 Hc) as [[_ Hn]|(_ & R1 & R2)]; [inversion Hn|]. destruct R2 as [R2|[R2|R2]].
      * left. split; [exact R2|lia].
      * right. left. exists z, (d + c), 0. split; [exact R2|]. split; [eapply AraCore.walk_step; eassumption|]. split; [constructor|]. lia.
      * right. right. lia.
    + right. left. exists t, d', (d'' + c). split; [exact H1|]. split; [exact H2|]. split; [eapply AraCore.walk_step; eassumption|]. lia.
    + right. right. lia.
Qed.

(** A waiting state with the least key costs no more than any walk. *)
Lemma least_exact u w x : good u [] w -> waiting w x -> (forall y, waiting w y -> G w x + h x <= G w y + h y) ->
  forall d, walk root x d -> G w x <= d.
Proof using Hcost Hcons.
  intros Hg Hx Hmin d Hw. destruct (gd_waiting _ _ _ Hg x Hx) as [Ha Hc]. destruct (grid_frontier u w x d Hg Hw) as [[H _]|[(y & d' & d'' & H1 & _ & H3 & -> & H4)|H]].
  - congruence.
  - specialize (Hmin y H1). apply walk_consistent in H3. lia.
  - pose proof (gd_walk _ _ _ Hg x Ha). lia.
Qed.

(** Before the first step: the start costs nothing, the goal infinity. *)
Lemma seeded_good goal w : (forall i, accessed w i = true -> i = root \/ i = goal) -> accessed w root = true -> G w root = 0 ->
  (goal <> root -> G w goal = INF) -> (forall i, closed w i = false) -> (forall i, waiting w i <-> i = root) -> good root [] w.
Proof using Type.
  intros Ha Har Hr Hg Hc Hw. split.
  - intros i Hi. destruct (decide (i = root)) as [->|Hne]; [rewrite Hr; split; [unfold INF; lia|constructor]|].
    destruct (Ha i Hi) as [| ->]; [contradiction|]. rewrite (Hg Hne). unfold INF. split; lia.
  - split; [exact Hr|]. right. apply Hw. reflexivity.
  - intros i Hi. destruct (decide (i = root)) as [->|Hne]; [right; left; apply Hw; reflexivity|].
    destruct (Ha i Hi) as [| ->]; [contradiction|]. right. right. exact (Hg Hne).
  - intros i ->%Hw. split; [exact Har|apply Hc].
  - intros i. rewrite Hc. discriminate.
  - intros i j c. rewrite Hc. discriminate.
Qed.

(** ** The steps of the search *)

Lemma good_waiting u todo w w' : good u todo w -> accessed w' = accessed w -> G w' = G w -> closed w' = closed w ->
  (forall i, waiting w' i <-> waiting w i) -> good u todo w'.
Proof using Type.
  intros [H1 H2 H3 H4 H5 H6] Ea Eg Ec Ew. split; unfold relaxed; rewrite ?Ea, ?Eg, ?Ec; try setoid_rewrite Ew; assumption.
Qed.

(** [x] is taken from OPEN and closed. *)
Definition closing (x : Z) (w w' : view) : Prop :=
  accessed w' = accessed w /\ G w' = G w /\ (forall i, closed w' i = (if decide (i = x) then true else closed w i)) /\
  (forall i, waiting w' i <-> waiting w i /\ i <> x).

Lemma closing_good u w w' x : good u [] w -> waiting w x -> (forall y, waiting w y -> G w x + h x <= G w y + h y) -> closing x w w' ->
  good x (arcs x) w'.
Proof using Hcost Hcons.
  intros Hg Hx Hmin (Ea & Eg & Ec & Ew). pose proof (least_exact u w x Hg Hx Hmin) as Hex. destruct (gd_waiting _ _ _ Hg x Hx) as [Hax Hcx].
  split; rewrite ?Ea, ?Eg.
  - apply Hg.
  - destruct (gd_root _ _ _ Hg) as [E H]. split; [exact E|]. rewrite Ec, Ew. case_decide as Er; [left; reflexivity|]. destruct H; auto.
  - intros i Hi. rewrite Ec, Ew. case_decide; [left; reflexivity|]. destruct (gd_part _ _ _ Hg i Hi) as [|[|]]; auto.
  - intros i [Hi Hne]%Ew. rewrite Ec, decide_False by exact Hne. apply (gd_waiting _ _ _ Hg i Hi).
  - intros i. rewrite Ec. case_decide as E; [subst i; intros _; split; assumption|apply (gd_closed _ _ _ Hg)].
  - intros i j c. rewrite Ec. case_decide as E; [subst i; intros _ Hc; left; auto|]. intros Hi Hc. right.
    destruct (gd_relaxed _ _ _ Hg i j c Hi Hc) as [[_ Hn]|(R1 & R2 & R3)]; [inversion Hn|]. unfold relaxed. rewrite Ea, Eg, Ec, Ew.
    split; [exact R1|]. split; [exact R2|]. case_decide; [auto|]. destruct R3 as [|[|]]; auto.
Qed.

(** The arc from the closed state [x] to a state that is closed or costs no more. *)
Lemma skip_good w x j c todo : good x ((j, c) :: todo) w -> closed w x = true -> (j, c) ∈ arcs x ->
  (closed w j = true \/ accessed w j = true /\ G w j <= G w x + c) -> good x todo w.
Proof using Hcost.
  intros Hg Hx Hc H. split; try apply Hg. intros i j' c' Hi Hc'.
  destruct (gd_relaxed _ _ _ Hg i j' c' Hi Hc') as [[-> Hin]|R]; [|right; exact R]. apply elem_of_cons in Hin as [[= -> ->]|Hin]; [|left; auto].
  right. unfold relaxed. destruct (gd_closed _ _ _ Hg x Hx) as [Hax Hex]. destruct (gd_walk _ _ _ Hg x Hax) as [Hb Hwx].
  destruct H as [H|[Ha Hle]].
  - destruct (gd_closed _ _ _ Hg j H) as [Ha Hej]. split; [exact Ha|]. split; [|auto]. pose proof (Hcost _ _ _ Hc).
    destruct (decide (G w x < INF)) as [Hlt|]; [|pose proof (gd_walk _ _ _ Hg j Ha); lia]. apply Hej. eapply AraCore.walk_step; [exact (Hwx Hlt)|exact Hc].
  - split; [exact Ha|]. split; [exact Hle|]. destruct (gd_part _ _ _ Hg j Ha) as [|[|]]; auto. right. right. lia.
Qed.

(** The arc from the closed state [x] to a state that costs less through it. *)
Definition improving (j s : Z) (w w' : view) : Prop :=
  (forall i, accessed w' i = (if decide (i = j) then true else accessed w i)) /\
  (forall i, G w' i = (if decide (i = j) then Z.min INF s else G w i)) /\
  closed w' = closed w /\ (forall i, waiting w' i <-> waiting w i \/ i = j).

Lemma improve_good w w' x j c todo : good x ((j, c) :: todo) w -> closed w x = true -> (j, c) ∈ arcs x -> closed w j = false ->
  (accessed w j = true -> c + G w x < G w j) -> improving j (c + G w x) w w' -> good x todo w'.
Proof using Hcost.
  intros Hg Hx Hc Hj Hlt (Ea & Eg & Ec & Ew). destruct (gd_closed _ _ _ Hg x Hx) as [Hax Hex]. destruct (gd_walk _ _ _ Hg x Hax) as [Hb Hwx].
  pose proof (Hcost _ _ _ Hc) as Hc0. assert (Hxj : x <> j) by congruence.
  assert (Hle : forall i, accessed w i = true -> G w' i <= G w i).
  { intros i Hi. rewrite Eg. case_decide as E; [subst i; specialize (Hlt Hi); lia|lia]. }
  assert (Hcl : forall i, closed w i = true -> G w' i = G w i).
  { intros i Hi. rewrite Eg, decide_False; [reflexivity|congruence]. }
  split; rewrite ?Ec.
  - intros i. rewrite Ea, Eg. case_decide as E; [|apply (gd_walk _ _ _ Hg)]. subst i. intros _. split; [lia|]. intros H.
    replace (Z.min INF (c + G w x)) with (G w x + c) by lia. eapply AraCore.walk_step; [apply Hwx; lia|exact Hc].
  - destruct (gd_root _ _ _ Hg) as [E H]. rewrite Eg, Ew. split; [|destruct H; auto]. case_decide as Er; [|exact E].
    subst j. destruct H as [H|H]; [congruence|]. apply (gd_waiting _ _ _ Hg) in H as [H _]. specialize (Hlt H). lia.
  - intros i. rewrite Ea, Eg, Ew. case_decide as E; [auto|]. intros Hi. destruct (gd_part _ _ _ Hg i Hi) as [|[|]]; auto.
  - intros i [Hi| ->]%Ew; rewrite Ea; [|rewrite decide_True by reflexivity; auto]. destruct (gd_waiting _ _ _ Hg i Hi). case_decide; auto.
  - intros i Hi. rewrite Ea, (Hcl i Hi), decide_False by congruence. apply (gd_closed _ _ _ Hg i Hi).
  - intros i j' c' Hi Hc'. destruct (gd_relaxed _ _ _ Hg i j' c' Hi Hc') as [[-> Hin]|(R1 & R2 & R3)].
    + apply elem_of_cons in Hin as [[= -> ->]|Hin]; [right|left; auto]. unfold relaxed. rewrite Ea, (Hcl x Hx), Eg, Ew, !decide_True by reflexivity.
      split; [reflexivity|]. split; [lia|auto].
    + right. unfold relaxed. rewrite Ea, Ec, Ew, (Hcl i Hi). pose proof (Hle j' R1). split; [case_decide; auto|]. split; [lia|]. tauto.
Qed.

(** ** What is known at the end *)

(** The bound on the cost to [x], from the least key [L] left in OPEN. *)
Definition bound (w : view) (L x : Z) : Z :=
  if accessed w x && (G w x + h x <=? L) then G w x else if L <? INF then L - h x else INF.

Lemma bound_lower u w L x d : good u [] w -> (forall y, waiting w y -> L <= G w y + h y) ->
  walk root x d -> d + h x < INF -> 0 <= h x -> bound w L x <= d.
Proof using Hcost Hcons.
  intros Hg HL Hw Hd Hh. unfold bound. destruct (grid_frontier u w x d Hg Hw) as [[H1 H2]|[(y & d' & d'' & H1 & _ & H3 & -> & H4)|H]]; [| |lia].
  - destruct (gd_closed _ _ _ Hg x H1) as [-> _]. cbn [andb]. destruct (Z.leb_spec (G w x + h x) L); [exact H2|].
    destruct (Z.ltb_spec L INF); lia.
  - specialize (HL y H1). apply walk_consistent in H3. destruct (accessed w x && _) eqn:E; [|rewrite (proj2 (Z.ltb_lt _ _)); lia].
    apply andb_true_iff in E as [_ E%Z.leb_le]. lia.
Qed.

(** With nothing left in OPEN the costs are exact up to infinity. *)
Lemma bound_exact u w x : good u [] w -> (forall y, ~ waiting w y) -> h x = 0 ->
  bound w INF x < INF /\ walk root x (bound w INF x) /\ (forall d, walk root x d -> bound w INF x <= d) \/
  bound w INF x = INF /\ forall d, walk root x d -> INF <= d.
Proof using Hcost.
  intros Hg Hnone Hh. unfold bound. rewrite Z.ltb_irrefl, Hh, Z.add_0_r.
  assert (Hf : forall d, walk root x d -> closed w x = true /\ G w x <= d \/ INF <= d).
  { intros d Hw. destruct (grid_frontier u w x d Hg Hw) as [?|[(y & ? & ? & Hy & _)|?]]; auto. destruct (Hnone y Hy). }
  destruct (accessed w x) eqn:Ea; cbn [andb].
  - destruct (gd_walk _ _ _ Hg x Ea) as [Hb Hw]. rewrite (proj2 (Z.leb_le _ _)) by lia. destruct (decide (G w x < INF)) as [Hlt|].
    + left. split; [exact Hlt|]. split; [exact (Hw Hlt)|]. intros d Hd. destruct (Hf d Hd); lia.
    + right. split; [lia|]. intros d Hd. destruct (Hf d Hd); lia.
  - right. split; [reflexivity|]. intros d Hd. destruct (Hf d Hd) as [[H _]|]; [|assumption]. apply (gd_closed _ _ _ Hg) in H as [H _]. congruence.
Qed.
End core.
End SbplGrid2DCore.
