(* ===== verification/SbplGrid2DSpec.v ===== *)
(** * The moves of the 2D grid search (src/libsbpl: utils/2Dgridsearch.cpp)

    The graph that is searched, and that the loop over the directions visits its
    arcs. *)

From S2P Require Import Prelude.
From S2P Require Import Doubles.
From S2P Require Import Floats.
From S2P Require Import Keys.
From S2P Require Import SbplHeap.
From S2P Require Import SbplIntHeap.
From S2P Require Import SbplHeapSpec.
From S2P Require Import SbplHeapProps.
From S2P Require Import SbplSliding.
From S2P Require Import SbplGrid2D.
From S2P Require Import SbplGrid2DCore.

Module SbplGrid2DSpec.
Import SbplGrid2D SbplGrid2DCore.

Section grid.
Context (W H : Z) (Grid2D : list (list Z)) (thresh : Z) (ds : list Z) (Dmax : Z).

(** The cell of state [i], and back. *)
Definition col (i : Z) : Z := i / H.
Definition row (i : Z) : Z := i mod H.
Definition index (x y : Z) : Z := x * H + y.
Definition inside (x y : Z) : Prop := 0 <= x < W /\ 0 <= y < H.

(** The cost of a cell. *)
Definition cell (x y : Z) : Z := match grid_cell Grid2D x y with Ok c => c | Err _ => 0 end.

(** A map, a threshold and distances that fit. *)
Record map_ok : Prop := {
  mp_width : 0 < W;
  mp_height : 0 < H;
  mp_size : W * H < SbplHeap.HEAPSIZE;
  mp_cells : forall x y, inside x y -> exists c, grid_cell Grid2D x y = Ok c /\ 0 <= c;
  mp_thresh : thresh <= 255;
  mp_dirs : Z.of_nat (length ds) = NUMOF2DDIRS;
  mp_dist : forall dir d, aget ds dir = Ok d -> 0 <= d <= Dmax;
  mp_fit : 255 * Dmax + INF <= INT_MAX;
}.

Context (M : map_ok).

(** ** The graph *)

Definition shift (l : list Z) (dir : Z) : Z := aview id 0 l dir.
Definition shift_opt (l : list (option Z)) (dir : Z) : Z := aview (default 0) 0 l dir.

(** The highest cost a move goes over. *)
Definition over (x y dir : Z) : Z :=
  let c := Z.max (cell (x + shift dx_ dir) (y + shift dy_ dir)) (cell x y) in
  if 7 <? dir then Z.max (Z.max c (cell (x + shift dx0intersects_ dir) (y + shift dy0intersects_ dir)))
    (cell (x + shift_opt dx1intersects_ dir) (y + shift_opt dy1intersects_ dir))
  else c.

Definition arc (i dir : Z) : option (Z * Z) :=
  let nx := col i + shift dx_ dir in let ny := row i + shift dy_ dir in
  if bool_decide (inside nx ny) && (over (col i) (row i) dir <? thresh)
  then Some (index nx ny, (over (col i) (row i) dir + 1) * shift ds dir) else None.

Definition arcs (i : Z) : list (Z * Z) := omap (arc i) (seqZ 0 NUMOF2DDIRS).

Lemma index_bounds x y : inside x y -> 0 <= index x y < W * H.
Proof using M. intros [Hx Hy]. unfold index. nia. Qed.

Lemma col_index x y : inside x y -> col (index x y) = x.
Proof using Type. intros [Hx Hy]. unfold col, index. rewrite Z.div_add_l by lia. rewrite Z.div_small by lia. lia. Qed.

Lemma row_index x y : inside x y -> row (index x y) = y.
Proof using Type. intros [Hx Hy]. unfold row, index. rewrite Z.add_comm, Z_mod_plus_full. apply Z.mod_small, Hy. Qed.

Lemma inside_index i : 0 <= i < W * H -> inside (col i) (row i) /\ index (col i) (row i) = i.
Proof using M.
  intros Hi. pose proof (mp_height M). unfold inside, col, row, index. pose proof (Z.mod_pos_bound i H ltac:(lia)).
  pose proof (Z.div_mod i H ltac:(lia)). pose proof (Z.div_lt_upper_bound i H W ltac:(lia) ltac:(lia)). pose proof (Z.div_pos i H ltac:(lia) ltac:(lia)). lia.
Qed.

Lemma arc_Some i dir j c : arc i dir = Some (j, c) -> exists x y, inside x y /\ j = index x y /\ over (col i) (row i) dir < thresh /\
  c = (over (col i) (row i) dir + 1) * shift ds dir /\ x = col i + shift dx_ dir /\ y = row i + shift dy_ dir.
Proof using Type.
  unfold arc. destruct (bool_decide _ && _) eqn:E; [|discriminate]. apply andb_true_iff in E as [E1%bool_decide_eq_true E2%Z.ltb_lt].
  intros [= <- <-]. eexists _, _. eauto 10.
Qed.

Lemma arcs_in i j c : (j, c) ∈ arcs i <-> exists dir, 0 <= dir < NUMOF2DDIRS /\ arc i dir = Some (j, c).
Proof using Type.
  unfold arcs. rewrite list_elem_of_omap. split; intros (dir & H1 & H2); exists dir; (split; [|exact H2]); apply elem_of_seqZ in H1 || apply elem_of_seqZ; lia.
Qed.

Lemma shift_dist dir : 0 <= dir < NUMOF2DDIRS -> aget ds dir = Ok (shift ds dir) /\ 0 <= shift ds dir <= Dmax.
Proof using M.
  intros Hd. destruct (aget_in ds dir) as [d Hg]; [rewrite (mp_dirs M); exact Hd|]. unfold shift. rewrite (aview_get _ _ _ _ _ Hg).
  split; [exact Hg|exact (mp_dist M dir d Hg)].
Qed.

Lemma cell_nonneg x y : 0 <= cell x y \/ ~ inside x y.
Proof using M.
  destruct (decide (inside x y)) as [Hi|]; [|auto]. left. destruct (mp_cells M x y Hi) as (c & Hc & Hp). unfold cell. rewrite Hc. exact Hp.
Qed.

Lemma over_nonneg x y dir : inside x y -> 0 <= over x y dir.
Proof using M. intros Hi. destruct (cell_nonneg x y); [|contradiction]. unfold over. destruct (7 <? dir); lia. Qed.

Lemma arc_bounds i dir j c : 0 <= i < W * H -> 0 <= dir < NUMOF2DDIRS -> arc i dir = Some (j, c) -> 0 <= j < W * H /\ 0 <= c <= 255 * Dmax.
Proof using M.
  intros Hi Hd (x & y & Hin & -> & Ho & -> & _)%arc_Some. split; [apply index_bounds, Hin|]. pose proof (shift_dist dir Hd) as [_ Hb].
  pose proof (mp_thresh M). pose proof (over_nonneg (col i) (row i) dir (proj1 (inside_index i Hi))). nia.
Qed.

(** Entries of the tables of moves in closed form. *)
Ltac eval_shifts := repeat match goal with
  | |- context [shift ?l ?d] => let v := eval vm_compute in (shift l d) in change (shift l d) with v
  | |- context [shift_opt ?l ?d] => let v := eval vm_compute in (shift_opt l d) in change (shift_opt l d) with v
  end.

(** The cells between two cells of the map lie in the map. *)
Lemma between x y dir : 7 < dir < NUMOF2DDIRS -> inside x y -> inside (x + shift dx_ dir) (y + shift dy_ dir) ->
  inside (x + shift dx0intersects_ dir) (y + shift dy0intersects_ dir) /\
  inside (x + shift_opt dx1intersects_ dir) (y + shift_opt dy1intersects_ dir).
Proof using Type.
  unfold NUMOF2DDIRS. intros Hd. assert (E : dir = 8 \/ dir = 9 \/ dir = 10 \/ dir = 11 \/ dir = 12 \/ dir = 13 \/ dir = 14 \/ dir = 15) by lia.
  unfold inside. destruct E as [-> | [-> | [-> | [-> | [-> | [-> | [-> | ->]]]]]]]; eval_shifts; lia.
Qed.

Lemma shift_get dir : 0 <= dir < NUMOF2DDIRS -> aget dx_ dir = Ok (shift dx_ dir) /\ aget dy_ dir = Ok (shift dy_ dir) /\
  aget dx0intersects_ dir = Ok (shift dx0intersects_ dir) /\ aget dy0intersects_ dir = Ok (shift dy0intersects_ dir) /\
  (7 < dir -> read_cell dx1intersects_ dir = Ok (shift_opt dx1intersects_ dir) /\ read_cell dy1intersects_ dir = Ok (shift_opt dy1intersects_ dir)).
Proof using Type.
  unfold NUMOF2DDIRS. intros Hd. assert (E : dir ∈ seqZ 0 16) by (apply elem_of_seqZ; lia). revert dir Hd E.
  enough (Ha : Forall (fun dir => aget dx_ dir = Ok (shift dx_ dir) /\ aget dy_ dir = Ok (shift dy_ dir) /\
    aget dx0intersects_ dir = Ok (shift dx0intersects_ dir) /\ aget dy0intersects_ dir = Ok (shift dy0intersects_ dir) /\
    (7 < dir -> read_cell dx1intersects_ dir = Ok (shift_opt dx1intersects_ dir) /\ read_cell dy1intersects_ dir = Ok (shift_opt dy1intersects_ dir))) (seqZ 0 16)).
  { intros dir _ E. rewrite Forall_forall in Ha. exact (Ha dir E). }
  repeat (constructor; [split_and!; try reflexivity; intros; first [lia|split; reflexivity]|]). constructor.
Qed.

(** ** What the loop over the directions sees *)

(** A search on this map. *)
Record on_map (s : GridSearch) : Prop := {
  om_width : width_ s = W;
  om_height : height_ s = H;
  om_dist : dxy_distance_mm_ s = ds;
}.

Definition closed_at (pb : list bool) (i : Z) : bool := aview id false pb (col i + W * row i).

Lemma grid_cell_ok x y : inside x y -> grid_cell Grid2D x y = Ok (cell x y).
Proof using M. intros Hi. destruct (mp_cells M x y Hi) as (c & Hc & _). unfold cell. rewrite Hc. reflexivity. Qed.

Lemma withinMap_ok s x y : on_map s -> withinMap s x y = bool_decide (inside x y).
Proof using Type.
  intros S. unfold withinMap. rewrite (om_width _ S), (om_height _ S). apply eq_true_iff_eq. rewrite bool_decide_eq_true, !andb_true_iff, !Z.leb_le, !Z.ltb_lt.
  unfold inside. lia.
Qed.

Lemma address_ok s x y : on_map s -> inside x y -> address s x y = Ok (index x y).
Proof using Type.
  intros S Hi. unfold address. rewrite (withinMap_ok s x y S), bool_decide_eq_true_2 by exact Hi. unfold index. rewrite (om_height _ S). reflexivity.
Qed.

Lemma move_cost_ok s x y dir : on_map s -> inside x y -> 0 <= dir < NUMOF2DDIRS -> inside (x + shift dx_ dir) (y + shift dy_ dir) ->
  move_cost Grid2D thresh s x y (cell x y) dir (x + shift dx_ dir) (y + shift dy_ dir) =
    Ok (if over x y dir <? thresh then Some ((over x y dir + 1) * shift ds dir) else None).
Proof using M.
  intros S Hi Hd Hn. unfold move_cost. rewrite (grid_cell_ok _ _ Hn), bind_ok_l. cbv zeta.
  destruct (shift_get dir Hd) as (_ & _ & E1 & E2 & E3).
  set (m := if 7 <? dir then _ else _).
  assert (Em : m = Ok (over x y dir)).
  { unfold m, over. destruct (Z.ltb_spec 7 dir) as [H7|]; [|reflexivity]. destruct (between x y dir ltac:(lia) Hi Hn) as [B1 B2].
    rewrite E1, E2, !bind_ok_l, (grid_cell_ok _ _ B1), bind_ok_l. destruct (E3 H7) as [-> ->]. rewrite !bind_ok_l, (grid_cell_ok _ _ B2). reflexivity. }
  rewrite Em, bind_ok_l, Z.leb_antisym, negb_if. destruct (Z.ltb_spec (over x y dir) thresh) as [Hlt|]; [|reflexivity].
  destruct (shift_dist dir Hd) as [Hg Hb]. rewrite (om_dist _ S), Hg, bind_ok_l. pose proof (over_nonneg x y dir Hi). pose proof (mp_thresh M).
  pose proof (mp_fit M). rewrite mul_int_in; [reflexivity|]. unfold INF, INT_MAX, int_min, int32 in *. cbn [int_max] in *. nia.
Qed.

Lemma neighbor_ok s pb i dir : on_map s -> Z.of_nat (length pb) = W * H -> 0 <= i < W * H -> 0 <= dir < NUMOF2DDIRS ->
  neighbor Grid2D thresh pb s (col i) (row i) (cell (col i) (row i)) dir =
    Ok (match arc i dir with Some (j, c) => if closed_at pb j then None else Some (j, c) | None => None end).
Proof using M.
  intros S Hpb Hi Hd. destruct (inside_index i Hi) as [Hin _]. unfold neighbor, arc. destruct (shift_get dir Hd) as (-> & -> & _). rewrite !bind_ok_l. cbv zeta.
  rewrite (withinMap_ok s _ _ S). case_bool_decide as Hn; cbn [negb andb]; [|reflexivity].
  pose proof (col_index _ _ Hn) as Ec. pose proof (row_index _ _ Hn) as Er.
  set (nx := col i + shift dx_ dir) in *. set (ny := row i + shift dy_ dir) in *.
  destruct (aget_in pb (nx + W * ny)) as [b Hb]; [rewrite Hpb; destruct Hn; nia|]. rewrite (om_width _ S), Hb, bind_ok_l.
  assert (Hc : closed_at pb (index nx ny) = b) by (unfold closed_at; rewrite Ec, Er; exact (aview_get _ _ _ _ _ Hb)).
  pose proof (move_cost_ok s (col i) (row i) dir S Hin Hd Hn) as Hm. fold nx ny in Hm. rewrite Hm, bind_ok_l.
  destruct (_ <? thresh); [|destruct b; reflexivity]. rewrite Hc. destruct b; [reflexivity|]. rewrite (address_ok s _ _ S Hn). reflexivity.
Qed.
End grid.
End SbplGrid2DSpec.
