(* ===== verification/SbplGrid2DStates.v ===== *)
(** * The states of the 2D grid search (src/libsbpl: utils/2Dgridsearch.cpp)

    What the states of both searches say in terms of SbplGrid2DCore.v, and what
    the answers after a search promise. *)

From S2P Require Import Prelude.
From S2P Require Import Doubles.
From S2P Require Import Floats.
From S2P Require Import Keys.
From S2P Require Import SbplHeap.
From S2P Require Import SbplIntHeap.
From S2P Require Import SbplHeapSpec.
From S2P Require Import SbplHeapProps.
From S2P Require Import SbplSliding.
From S2P Require Import SbplGrid2D.
From S2P Require Import AraCore.
From S2P Require Import SbplGrid2DCore.
From S2P Require Import SbplGrid2DSpec.

From S2P Require Import FloatsSpec.

Module SbplGrid2DStates.
Import Keys SbplGrid2D SbplGrid2DCore SbplGrid2DSpec.

Section states.
Context (W H : Z) (Grid2D : list (list Z)) (thresh : Z) (ds : list Z) (Dmax : Z) (M : map_ok W H Grid2D thresh ds Dmax).

#[local] Abbreviation N := (W * H).
#[local] Abbreviation arcs := (SbplGrid2DSpec.arcs W H Grid2D thresh ds).
#[local] Abbreviation walk := (AraCore.walk arcs).

(** ** States and what they say *)

Record tidy (s : GridSearch) : Prop := {
  td_map : on_map W H ds s;
  td_len : Z.of_nat (length (searchStates2D_ s)) = N;
  td_xy : forall i t, state_at s i = Ok t -> x t = col H i /\ y t = row H i;
  td_iter : forall i t, state_at s i = Ok t -> iterationaccessed t <= iteration_ s;
}.

Definition view_of (s : GridSearch) (pb : list bool) (waiting : Z -> Prop) : view := mkView
  (fun i => aview (fun t => iterationaccessed t =? iteration_ s) false (searchStates2D_ s) i)
  (fun i => aview g 0 (searchStates2D_ s) i)
  (fun i => bool_decide (0 <= i < N) && closed_at W H pb i)
  waiting.

(** Only states and OPEN differ. *)
Definition from (s s' : GridSearch) : Prop := exists l lst h ix, s' = set_list lst (set_open h ix (set_states l s)).

Lemma from_refl s : from s s.
Proof using Type. exists (searchStates2D_ s), (OPEN2DBLIST_ s), (OPEN2D_ s), (heapindices s). destruct s; reflexivity. Qed.

Lemma from_trans s1 s2 s3 : from s1 s2 -> from s2 s3 -> from s1 s3.
Proof using Type. intros (l & lst & h & ix & ->) (l' & lst' & h' & ix' & ->). exists l', lst', h', ix'. reflexivity. Qed.

Lemma from_states s l : from s (set_states l s).
Proof using Type. exists l, (OPEN2DBLIST_ s), (OPEN2D_ s), (heapindices s). reflexivity. Qed.

Lemma from_open s hp ix : from s (set_open hp ix s).
Proof using Type. exists (searchStates2D_ s), (OPEN2DBLIST_ s), hp, ix. reflexivity. Qed.

Lemma from_list s l : from s (set_list l s).
Proof using Type. exists (searchStates2D_ s), l, (OPEN2D_ s), (heapindices s). reflexivity. Qed.

Lemma state_in s i : tidy s -> 0 <= i < N -> exists t, state_at s i = Ok t.
Proof using Type. intros T Hi. apply aget_in. rewrite (td_len _ T). exact Hi. Qed.

Lemma view_at s pb wt i t : state_at s i = Ok t -> accessed (view_of s pb wt) i = (iterationaccessed t =? iteration_ s) /\ G (view_of s pb wt) i = g t.
Proof using Type. intros E. cbn. unfold state_at in E. rewrite !(aview_get _ _ _ _ _ E). auto. Qed.

Lemma accessed_in s pb wt i : tidy s -> accessed (view_of s pb wt) i = true -> 0 <= i < N.
Proof using Type.
  cbn. unfold aview. intros T. destruct (aget _ i) as [t|] eqn:E; [|discriminate]. intros _. apply aget_bounds in E. rewrite (td_len _ T) in E. exact E.
Qed.

Lemma write_ok s i t : tidy s -> 0 <= i < N -> x t = col H i -> y t = row H i -> iterationaccessed t <= iteration_ s ->
  exists s', write_state s i t = Ok s' /\ tidy s' /\ s' = set_states (<[Z.to_nat i := t]> (searchStates2D_ s)) s /\
    forall j, state_at s' j = if decide (j = i) then Ok t else state_at s j.
Proof using Type.
  intros T Hi Hx Hy Ht. assert (Hb : 0 <= i < Z.of_nat (length (searchStates2D_ s))) by (rewrite (td_len _ T); exact Hi).
  unfold write_state. rewrite aset_in by exact Hb. rewrite bind_ok_l.
  assert (Hg : forall j, state_at (set_states (<[Z.to_nat i := t]> (searchStates2D_ s)) s) j = if decide (j = i) then Ok t else state_at s j)
    by (intros j; apply aget_insert, Hb).
  eexists. split; [reflexivity|]. split; [|split; [reflexivity|exact Hg]]. split.
  - destruct (td_map _ T) as [O1 O2 O3]. split; assumption.
  - cbn. rewrite length_insert. apply T.
  - intros j u. rewrite Hg. case_decide as E; [intros [= <-]; subst j; auto|apply (td_xy _ T)].
  - intros j u. rewrite Hg. case_decide as E; [intros [= <-]; exact Ht|apply (td_iter _ T)].
Qed.

Lemma tidy_open s h ix : tidy s -> tidy (set_open h ix s).
Proof using Type. intros [[] ? ? ?]. split; [split|..]; assumption. Qed.

Lemma tidy_list s l : tidy s -> tidy (set_list l s).
Proof using Type. intros [[] ? ? ?]. split; [split|..]; assumption. Qed.

(** Closing a state sets its mark. *)
Lemma close_ok pb i : Z.of_nat (length pb) = N -> 0 <= i < N -> exists pb', aset pb (col H i + W * row H i) true = Ok pb' /\ Z.of_nat (length pb') = N /\
  forall j, bool_decide (0 <= j < N) && closed_at W H pb' j = (if decide (j = i) then true else bool_decide (0 <= j < N) && closed_at W H pb j).
Proof using M.
  intros Hl Hi. destruct (inside_index W H Grid2D thresh ds Dmax M i Hi) as [Hin Hid]. pose proof (mp_height _ _ _ _ _ _ M) as HH.
  rewrite aset_in by (rewrite Hl; destruct Hin; nia). eexists. split; [reflexivity|]. rewrite length_insert. split; [exact Hl|]. intros j.
  destruct (bool_decide (0 <= j < N)) eqn:Ej; cbn [andb].
  - apply bool_decide_eq_true in Ej. unfold closed_at. rewrite aview_insert by (rewrite Hl; destruct Hin; nia).
    destruct (inside_index W H Grid2D thresh ds Dmax M j Ej) as [[Hjx Hjy] Hjd]. destruct Hin as [Hix Hiy]. unfold index in *.
    destruct (decide (j = i)) as [->|Hne]; [rewrite decide_True by reflexivity; reflexivity|]. rewrite decide_False; [reflexivity|]. intros E. apply Hne.
    assert (row H j = row H i) by nia. assert (col H j = col H i) by nia. congruence.
  - apply bool_decide_eq_false in Ej. case_decide; [lia|reflexivity].
Qed.

(** ** Relaxing an arc *)

Lemma relax_state s i j c t e : tidy s -> 0 <= j < N -> state_at s j = Ok t -> state_at s i = Ok e -> 0 <= c <= 255 * Dmax -> 0 <= g e <= INF ->
  if negb (iterationaccessed t =? iteration_ s) || (c + g e <? g t)
  then exists s', relax j i c s = Ok (true, s') /\ tidy s' /\ from s s' /\ OPEN2D_ s' = OPEN2D_ s /\ OPEN2DBLIST_ s' = OPEN2DBLIST_ s /\ heapindices s' = heapindices s /\
    forall k, state_at s' k = if decide (k = j) then Ok (mkState (x t) (y t) (Z.min INF (c + g e)) (iteration_ s)) else state_at s k
  else relax j i c s = Ok (false, s).
Proof using M.
  intros T Hj Et Ee Hc Hg. unfold relax. rewrite Et, bind_ok_l, Ee, bind_ok_l. pose proof (mp_fit _ _ _ _ _ _ M) as Hfit.
  rewrite add_int_in by (unfold INT_MAX, INF, int_min, int32 in *; cbn [int_max] in *; lia). rewrite bind_ok_l.
  destruct (negb _ || _) eqn:E; [|reflexivity]. destruct (td_xy _ T j t Et) as [Ex Ey].
  destruct (write_ok s j (mkState (x t) (y t) (Z.min INF (c + g e)) (iteration_ s)) T Hj Ex Ey ltac:(cbn; lia)) as (s' & Ew & T' & -> & Hs).
  change INFINITECOST with INF. rewrite Ew, bind_ok_l. eexists. split; [reflexivity|]. split; [exact T'|].
  split; [apply from_states|].
  split; [reflexivity|]. split; [reflexivity|]. split; [reflexivity|]. exact Hs.
Qed.

(** The view after a state has been improved. *)
Lemma improving_view s s' pb (wt wt' : Z -> Prop) j t n : state_at s j = Ok t -> iteration_ s' = iteration_ s ->
  (forall k, state_at s' k = if decide (k = j) then Ok (mkState (x t) (y t) (Z.min INF n) (iteration_ s)) else state_at s k) ->
  (forall k, wt' k <-> wt k \/ k = j) -> improving j n (view_of s pb wt) (view_of s' pb wt').
Proof using Type.
  intros Et Ei Hs Hw. split; [|split; [|split; [reflexivity|exact Hw]]]; intros k; cbn; unfold aview; fold (state_at s' k) (state_at s k); rewrite Hs, ?Ei;
    case_decide; [cbn; apply Z.eqb_refl|reflexivity|reflexivity|reflexivity].
Qed.
Lemma arcs_nonneg i j c : (j, c) ∈ arcs i -> 0 <= c.
Proof using M.
  intros (dir & Hd & Ha)%arcs_in. apply arc_Some in Ha as (x0 & y0 & Hin & _ & Ho & -> & Ex & Ey).
  destruct (shift_dist _ _ _ _ _ _ M dir Hd) as [_ Hb]. destruct (cell_nonneg _ _ _ _ _ _ M x0 y0) as [H0|]; [|contradiction].
  apply Z.mul_nonneg_nonneg; [|lia]. unfold over. rewrite <- Ex, <- Ey. destruct (7 <? dir); lia.
Qed.

(** ** Before the loop *)

Lemma init_ok s i : tidy s -> 0 <= i < N -> exists s', initializeSearchState2D i s = Ok s' /\ tidy s' /\ from s s' /\
  OPEN2D_ s' = OPEN2D_ s /\ OPEN2DBLIST_ s' = OPEN2DBLIST_ s /\
  (forall j, SbplHeap.heapindex (heapindices s) j = 0 -> SbplHeap.heapindex (heapindices s') j = 0) /\
  forall j, state_at s' j = if decide (j = i) then Ok (mkState (col H i) (row H i) INF (iteration_ s)) else state_at s j.
Proof using Type.
  intros T Hi. destruct (state_in s i T Hi) as [t Et]. destruct (td_xy _ T i t Et) as [Ex Ey]. unfold initializeSearchState2D. rewrite Et, bind_ok_l.
  destruct (write_ok s i (mkState (x t) (y t) INF (iteration_ s)) T Hi Ex Ey ltac:(cbn; lia)) as (s1 & Ew & T1 & E1 & Hs). change INFINITECOST with INF.
  rewrite Ew, bind_ok_l. eexists. split; [reflexivity|]. split; [apply tidy_open, T1|]. subst s1.
  split; [eapply from_trans; [apply from_states|apply from_open]|]. split; [reflexivity|]. split; [reflexivity|]. split.
  - intros j Hj. cbn [heapindices set_open set_states]. rewrite SbplHeapSpec.heapindex_insert. case_decide; [reflexivity|exact Hj].
  - intros j. rewrite <- Ex, <- Ey. exact (Hs j).
Qed.

(** No state has been accessed in this iteration. *)
Definition fresh (s : GridSearch) : Prop := forall i t, state_at s i = Ok t -> iterationaccessed t < iteration_ s.

Lemma seed_ok s sx sy gx gy : tidy s -> fresh s -> inside W H sx sy -> inside W H gx gy ->
  let root := index H sx sy in let goal := index H gx gy in
  exists s', seed sx sy gx gy s = Ok (root, goal, s') /\ tidy s' /\ from s s' /\ OPEN2D_ s' = OPEN2D_ s /\ OPEN2DBLIST_ s' = OPEN2DBLIST_ s /\
    (forall j, SbplHeap.heapindex (heapindices s) j = 0 -> SbplHeap.heapindex (heapindices s') j = 0) /\
    (exists t, state_at s' root = Ok t /\ g t = 0) /\ (forall t, state_at s' goal = Ok t -> iterationaccessed t = iteration_ s') /\
    forall pb (wt : Z -> Prop), (forall i, closed (view_of s' pb wt) i = false) -> (forall i, wt i <-> i = root) -> good arcs root root [] (view_of s' pb wt).
Proof using M.
  intros T Hf Hs Hg root goal. pose proof (index_bounds _ _ _ _ _ _ M _ _ Hs) as Hrb. pose proof (index_bounds _ _ _ _ _ _ M _ _ Hg) as Hgb.
  fold root in Hrb. fold goal in Hgb. unfold seed. rewrite (address_ok _ _ _ _ _ _ (td_map _ T) Hs), bind_ok_l. fold root.
  destruct (init_ok s root T Hrb) as (s1 & -> & T1 & F1 & O1 & L1 & X1 & E1). rewrite bind_ok_l.
  rewrite (address_ok _ _ _ _ _ _ (td_map _ T1) Hg), bind_ok_l. fold goal.
  destruct (init_ok s1 goal T1 Hgb) as (s2 & -> & T2 & F2 & O2 & L2 & X2 & E2). rewrite bind_ok_l.
  assert (Hit1 : iteration_ s1 = iteration_ s) by (destruct F1 as (? & ? & ? & ? & ->); reflexivity).
  assert (Hit2 : iteration_ s2 = iteration_ s) by (destruct F2 as (? & ? & ? & ? & ->); exact Hit1).
  assert (Er : state_at s2 root = Ok (mkState (col H root) (row H root) INF (iteration_ s))).
  { rewrite E2. case_decide as E; [rewrite Hit1, E; reflexivity|]. rewrite E1, decide_True by reflexivity. reflexivity. }
  rewrite Er, bind_ok_l. cbn [x y iterationaccessed].
  destruct (write_ok s2 root (mkState (col H root) (row H root) 0 (iteration_ s)) T2 Hrb eq_refl eq_refl ltac:(cbn; lia)) as (s3 & -> & T3 & Es3 & E3).
  rewrite bind_ok_l. exists s3. split; [reflexivity|]. split; [exact T3|]. subst s3.
  split; [eapply from_trans; [exact F1|]; eapply from_trans; [exact F2|]; apply from_states|].
  split; [cbn; congruence|]. split; [cbn; congruence|]. split; [intros j Hj; apply X2, X1, Hj|].
  set (s3 := set_states _ s2) in *. assert (Er3 : state_at s3 root = Ok (mkState (col H root) (row H root) 0 (iteration_ s))) by (rewrite E3, decide_True; reflexivity).
  assert (Hit3 : iteration_ s3 = iteration_ s) by exact Hit2.
  split; [eexists; split; [exact Er3|reflexivity]|].
  split; [intros t; rewrite Hit3, E3; case_decide; [intros [= <-]; reflexivity|]; rewrite E2, decide_True by reflexivity; intros [= <-]; exact Hit1|].
  intros pb wt Hc Hw.
  destruct (view_at s3 pb wt root _ Er3) as [Ha HG]. rewrite Hit3, Z.eqb_refl in Ha.
  apply (seeded_good arcs root goal); [|exact Ha|exact HG| |exact Hc|exact Hw].
  - intros i Hi. destruct (decide (i = root)); [auto|]. destruct (decide (i = goal)); [auto|]. exfalso.
    destruct (state_in s3 i T3 (accessed_in s3 pb wt i T3 Hi)) as [t Et]. destruct (view_at s3 pb wt i t Et) as [Ha' _]. rewrite Ha', Hit3 in Hi.
    rewrite E3, decide_False, E2, decide_False, E1, decide_False in Et by assumption. apply Hf in Et. apply Z.eqb_eq in Hi. lia.
  - intros Hne. assert (Eg : state_at s3 goal = Ok (mkState (col H goal) (row H goal) INF (iteration_ s1))).
    { rewrite E3, decide_False by exact Hne. rewrite E2, decide_True; reflexivity. }
    destruct (view_at s3 pb wt goal _ Eg) as [_ ->]. reflexivity.
Qed.

(** ** After the search *)

(** The answers use the heuristic of the code, or none. *)
Definition heur_at (h : Z -> Z) (s : GridSearch) : Prop :=
  match term_condition_usedlast s with
  | OPTPATHFOUND => forall x y, inside W H x y -> HEUR2D s x y = Ok (h (index H x y))
  | _ => forall i, h i = 0
  end.

(** What a search from [root] leaves; [exhausted] if no state waits. *)
Record searched (root : Z) (h : Z -> Z) (Hmax : Z) (exhausted : Prop) (s : GridSearch) : Prop := {
  sr_tidy : tidy s;
  sr_heur : heur_at h s;
  sr_small : (forall i, 0 <= h i <= Hmax) /\ Hmax + INF <= INT_MAX;
  sr_largest : 0 <= largestcomputedoptf_ s <= INT_MAX;
  sr_none : (forall i, h i = 0) -> largestcomputedoptf_ s <= INF;
  sr_view : exists u w, good arcs root u [] w /\
    (forall i t, state_at s i = Ok t -> accessed w i = (iterationaccessed t =? iteration_ s) /\ G w i = g t) /\
    (forall i, waiting w i -> largestcomputedoptf_ s <= G w i + h i) /\
    (exhausted -> largestcomputedoptf_ s = INF /\ forall i, ~ waiting w i);
}.

Lemma answer_ok root h Hmax ex s u w x y : searched root h Hmax ex s -> good arcs root u [] w ->
  (forall i t, state_at s i = Ok t -> accessed w i = (iterationaccessed t =? iteration_ s) /\ G w i = g t) -> inside W H x y ->
  getlowerboundoncostfromstart_inmm s x y = Ok (bound h w (largestcomputedoptf_ s) (index H x y)).
Proof using M.
  intros S Hg Hv Hin. pose proof (sr_tidy _ _ _ _ _ S) as T. pose proof (index_bounds _ _ _ _ _ _ M _ _ Hin) as Hb.
  destruct (state_in s _ T Hb) as [t Et]. destruct (Hv _ t Et) as [Ha HG]. pose proof (sr_heur _ _ _ _ _ S) as Hu.
  pose proof (proj1 (sr_small _ _ _ _ _ S) (index H x y)) as Hh. pose proof (proj2 (sr_small _ _ _ _ _ S)) as HM. pose proof (sr_largest _ _ _ _ _ S) as HL.
  assert (Hgt : (iterationaccessed t =? iteration_ s) = true -> 0 <= g t <= INF).
  { intros E. rewrite <- HG. apply (gd_walk _ _ _ _ _ Hg). rewrite Ha. exact E. }
  unfold getlowerboundoncostfromstart_inmm, bound, heur_at in *. rewrite Ha, HG, (address_ok _ _ _ _ _ _ (td_map _ T) Hin). change INFINITECOST with INF.
  destruct (term_condition_usedlast s).
  2-5: rewrite bind_ok_l, Et, bind_ok_l, Hu, Z.add_0_r; pose proof (sr_none _ _ _ _ _ S Hu); destruct (_ && _); [reflexivity|];
    destruct (Z.ltb_spec (largestcomputedoptf_ s) INF); f_equal; lia.
  rewrite (Hu _ _ Hin), !bind_ok_l, Et, bind_ok_l. destruct (iterationaccessed t =? iteration_ s) eqn:Ea.
  - specialize (Hgt eq_refl). rewrite (add_int_in int32 (g t)) by (unfold INT_MAX, INF, int_min, int32 in *; cbn [int_max] in *; lia). rewrite !bind_ok_l. cbn [andb].
    destruct (g t + _ <=? _); [reflexivity|]. destruct (Z.ltb_spec (largestcomputedoptf_ s) INF); [|reflexivity].
    rewrite add_int_in by (unfold INT_MAX, INF, int_min, int32 in *; cbn [int_max] in *; lia). reflexivity.
  - rewrite bind_ok_l. cbn [andb]. destruct (Z.ltb_spec (largestcomputedoptf_ s) INF); [|reflexivity].
    rewrite add_int_in by (unfold INT_MAX, INF, int_min, int32 in *; cbn [int_max] in *; lia). reflexivity.
Qed.

(** The cost of a walk, and what an answer has to do with it. *)
Definition lower_bound (root : Z) (h : Z -> Z) (s : GridSearch) : Prop := forall x y, inside W H x y ->
  exists v, getlowerboundoncostfromstart_inmm s x y = Ok v /\ forall d, walk root (index H x y) d -> d + h (index H x y) < INF -> v <= d.

Definition exact (root : Z) (s : GridSearch) : Prop := forall x y, inside W H x y ->
  exists v, getlowerboundoncostfromstart_inmm s x y = Ok v /\ (forall d, walk root (index H x y) d -> v <= d \/ INF <= d) /\
    (v = INF \/ v < INF /\ walk root (index H x y) v).

Lemma searched_lower root h Hmax ex s : (forall i j c, (j, c) ∈ arcs i -> h i <= c + h j) -> searched root h Hmax ex s -> lower_bound root h s.
Proof using M.
  intros Hcons S x y Hin. pose proof (sr_view _ _ _ _ _ S) as (u & w & Hg & Hv & Hw & _). eexists. split; [exact (answer_ok _ _ _ _ _ _ _ _ _ S Hg Hv Hin)|].
  intros d Hd Hlt. apply (bound_lower arcs root h arcs_nonneg Hcons u w _ _ d Hg Hw Hd Hlt). apply (sr_small _ _ _ _ _ S).
Qed.

Lemma searched_exact root h Hmax (ex : Prop) s : (forall i, h i = 0) -> searched root h Hmax ex s -> ex -> exact root s.
Proof using M.
  intros Hz S He x y Hin. pose proof (sr_view _ _ _ _ _ S) as (u & w & Hg & Hv & _ & Hx). destruct (Hx He) as [HL Hn]. rewrite <- HL.
  eexists. split; [exact (answer_ok _ _ _ _ _ _ _ _ _ S Hg Hv Hin)|]. rewrite HL.
  destruct (bound_exact arcs root h arcs_nonneg u w (index H x y) Hg Hn (Hz _)) as [(H1 & H2 & H3)|(H1 & H2)].
  - split; [intros d Hd; left; exact (H3 d Hd)|right; auto].
  - split; [intros d Hd; right; exact (H2 d Hd)|left; exact H1].
Qed.

(** With every cell asked for, the search goes on until OPEN is empty. *)
Lemma allcells_worthwhile n k : 0 < n <= INT_MAX -> 0 <= k <= INT_MAX -> worthwhile ALLCELLS n k = true.
Proof using Type. intros Hn Hk. apply FloatsSpec.zero_less; unfold INT_MAX, int32 in *; cbn [int_max] in *; lia. Qed.
(** ** Calls *)

(** The object as the call leaves it before the loop. *)
Definition called (sx sy gx gy : Z) (t : TERM_CONDITION) (s : GridSearch) : GridSearch :=
  set_condition t (set_call (iteration_ s + 1) sx sy gx gy s).

(** When the search visits every cell it can reach. *)
Definition complete (root goal : Z) (t : TERM_CONDITION) : Prop := t = ALLCELLS /\ goal <> root /\ forall i j c, (j, c) ∈ arcs i -> 0 < c.

Lemma complete_positive root goal t d : complete root goal t -> AraCore.walk arcs root goal d -> 0 < d.
Proof using M.
  intros (_ & Hne & Hp) Hw. inversion Hw as [|z y d' c Hw' Hc]; subst; [congruence|]. apply Hp in Hc.
  pose proof (grid_walk_cost arcs arcs_nonneg _ _ _ Hw'). lia.
Qed.

Lemma tidy_called sx sy gx gy t s : tidy s -> tidy (called sx sy gx gy t s).
Proof using Type.
  intros [[O1 O2 O3] T1 T2 T3]. split; [split; assumption|exact T1|exact T2|]. intros i u Hu. apply T3 in Hu. cbn. lia.
Qed.

Lemma fresh_called sx sy gx gy t s : tidy s -> fresh (called sx sy gx gy t s).
Proof using Type. intros T i u Hu. apply (td_iter _ T) in Hu. cbn. lia. Qed.

Lemma blank_mark n i : aview id false (replicate n false) i = false.
Proof using Type.
  unfold aview. destruct (aget (replicate n false) i) as [b|] eqn:E; [|reflexivity]. apply aget_Ok in E as [_ [-> _]%lookup_replicate]. reflexivity.
Qed.

End states.

End SbplGrid2DStates.
