(* ===== verification/SbplGrid2DHeap.v ===== *)
(** * The 2D grid search with a heap (src/libsbpl: utils/2Dgridsearch.cpp)

    [search_withheap] keeps the invariant of SbplGrid2DCore.v, terminates, and
    leaves bounds on the costs of all cells. *)

From S2P Require Import Prelude.
From S2P Require Import Doubles.
From S2P Require Import Floats.
From S2P Require Import FloatsSpec.
From S2P Require Import Keys.
From S2P Require Import SbplHeap.
From S2P Require Import SbplIntHeap.
From S2P Require Import SbplHeapSpec.
From S2P Require Import SbplHeapProps.
From S2P Require Import SbplSliding.
From S2P Require Import SbplGrid2D.
From S2P Require Import AraCore.
From S2P Require Import SbplGrid2DCore.
From S2P Require Import SbplGrid2DSpec.
From S2P Require Import SbplGrid2DStates.

Module SbplGrid2DHeap.
Import Keys SbplHeapSpec SbplGrid2D SbplGrid2DCore SbplGrid2DSpec SbplGrid2DStates.

Section heap.
Context (W H : Z) (Grid2D : list (list Z)) (thresh : Z) (ds : list Z) (Dmax : Z) (M : map_ok W H Grid2D thresh ds Dmax).

#[local] Abbreviation N := (W * H).
#[local] Abbreviation arc := (SbplGrid2DSpec.arc W H Grid2D thresh ds).
#[local] Abbreviation arcs := (SbplGrid2DSpec.arcs W H Grid2D thresh ds).
#[local] Abbreviation tidy := (tidy W H ds).
#[local] Abbreviation view_of := (view_of W H).

(** The start, and a heuristic that is consistent and small. *)
Context (root goal : Z) (h : Z -> Z) (Hmax : Z).
Context (Hroot : 0 <= root < N) (Hcons : forall i j c, (j, c) ∈ arcs i -> h i <= c + h j) (Hh : forall i, 0 <= h i <= Hmax) (HhM : Hmax + INF <= INT_MAX).

#[local] Abbreviation heur_at := (heur_at W H h).

Lemma heur_from s s' : from s s' -> heur_at s -> heur_at s'.
Proof using Type. intros (l & lst & hp & ix & ->). exact (fun h => h). Qed.

Lemma the_heap_ok s hp : OPEN2D_ s = Some hp -> the_heap s = Ok hp.
Proof using Type. unfold the_heap. intros ->. reflexivity. Qed.

Lemma heap_key_ok s i t : tidy s -> heur_at s -> state_at s i = Ok t -> 0 <= g t <= INF -> heap_key s i = Ok (g t + h i).
Proof using M Hh HhM Hroot.
  intros T Hu Et Hg. assert (Hi : 0 <= i < N) by (pose proof (aget_bounds _ _ _ Et) as Hb; rewrite (td_len _ _ _ _ T) in Hb; exact Hb).
  destruct (inside_index W H Grid2D thresh ds Dmax M i Hi) as [Hin Hid]. destruct (td_xy _ _ _ _ T i t Et) as [Ex Ey].
  unfold heap_key, heur_at in *. rewrite Et, bind_ok_l. destruct (term_condition_usedlast s); try (rewrite Hu, Z.add_0_r; reflexivity).
  rewrite Ex, Ey, (Hu _ _ Hin), Hid, bind_ok_l. apply add_int_in. pose proof (Hh i). unfold INF, INT_MAX, int_min, int32 in *. cbn [int_max] in *. lia.
Qed.

(** The invariant of the loops: OPEN is [m]; the arcs [todo] of [u] are still to
    be relaxed. *)
Record holding (u : Z) (todo : list (Z * Z)) (s : GridSearch) (pb : list bool) (m : gmap Z Z) (hp : SbplHeap.CHeap Z) : Prop := {
  hd_tidy : tidy s;
  hd_heur : heur_at s;
  hd_heap : OPEN2D_ s = Some hp;
  hd_sim : SbplHeapProps.sim (hp, heapindices s) m;
  hd_keys : forall i k, m !! i = Some k -> exists t, state_at s i = Ok t /\ k = g t + h i;
  hd_goal : forall t, state_at s goal = Ok t -> iterationaccessed t = iteration_ s;
  hd_marks : Z.of_nat (length pb) = N;
  hd_good : good arcs root u todo (view_of s pb (fun i => is_Some (m !! i)));
}.

Lemma waiting_in u todo s pb m hp i : holding u todo s pb m hp -> is_Some (m !! i) -> 0 <= i < N.
Proof using Type.
  intros Hd [k Hk]. destruct (hd_keys _ _ _ _ _ _ Hd i k Hk) as (t & Et & _). apply aget_bounds in Et.
  rewrite (td_len _ _ _ _ (hd_tidy _ _ _ _ _ _ Hd)) in Et. exact Et.
Qed.

Lemma waiting_key u todo s pb m hp i k : holding u todo s pb m hp -> m !! i = Some k -> 0 <= k <= INF + Hmax /\ INF + Hmax <= INT_MAX.
Proof using Hh HhM.
  intros Hd Hk. destruct (hd_keys _ _ _ _ _ _ Hd i k Hk) as (t & Et & ->). pose proof (hd_good _ _ _ _ _ _ Hd) as Hg.
  destruct (view_at W H s pb (fun i => is_Some (m !! i)) i t Et) as [_ <-]. pose proof (Hh i).
  destruct (gd_waiting _ _ _ _ _ Hg i (ex_intro _ _ Hk)) as [Ha _]. pose proof (gd_walk _ _ _ _ _ Hg i Ha). lia.
Qed.

(** There is room for another state. *)
Lemma not_full u todo s pb m hp j : holding u todo s pb m hp -> m !! j = None -> 0 <= j < N -> SbplHeap.fullheap hp = false.
Proof using M Hroot.
  intros Hd Hj Hjn. unfold SbplHeap.fullheap. apply Z.eqb_neq. pose proof (cells_size _ _ _ (proj1 (proj1 (hd_sim _ _ _ _ _ _ Hd)))) as Hs. cbn [fst snd] in Hs.
  rewrite <- Hs. pose proof (mp_size _ _ _ _ _ _ M). enough (Z.of_nat (size m) < N) by lia.
  assert (Hn : Z.of_nat (length (j :: elements (dom m))) <= Z.max 0 N).
  { apply NoDup_range_length.
    - constructor; [|apply NoDup_elements]. rewrite elem_of_elements, not_elem_of_dom. exact Hj.
    - intros i Hi. apply elem_of_cons in Hi as [->|Hi]; [exact Hjn|]. apply elem_of_elements, elem_of_dom in Hi. exact (waiting_in _ _ _ _ _ _ _ Hd Hi). }
  cbn [length] in Hn. assert (length (elements (dom m)) = size m) by (rewrite <- size_dom; reflexivity). lia.
Qed.

(** A state of OPEN has a new key, or is put into OPEN. *)
Lemma reopen_ok s hp m j key : SbplHeapProps.sim (hp, heapindices s) m -> (m !! j = None -> SbplHeap.fullheap hp = false) -> room hp 1 ->
  exists hp' ix', (if SbplHeap.heapindex (heapindices s) j =? 0 then SbplIntHeap.insertheap j key hp (heapindices s)
     else SbplIntHeap.updateheap j key hp (heapindices s)) = Ok (hp', ix') /\ SbplHeapProps.sim (hp', ix') (<[j := key]> m) /\
    SbplHeap.percolates hp <= SbplHeap.percolates hp' <= SbplHeap.percolates hp + 24.
Proof using Type.
  intros S Hf Hr. pose proof (SbplHeapProps.sim_index _ _ j S) as Hix. cbn [snd] in Hix. destruct S as [Rp H0]. cbn [fst snd] in *.
  assert (Hs : succeeds hp (heapindices s) (<[j := key]> m) (if SbplHeap.heapindex (heapindices s) j =? 0
     then SbplHeap.insertheap j key hp (heapindices s) else SbplHeap.updateheap j key hp (heapindices s))).
  { destruct (Z.eqb_spec (SbplHeap.heapindex (heapindices s) j) 0) as [E|E].
    - apply insertheap_ok; try assumption; [apply Hix, E|exact I|apply Hf, Hix, E].
    - destruct (m !! j) as [k|] eqn:Ej; [|destruct E; apply Hix; reflexivity]. exact (updateheap_ok j k key hp (heapindices s) m Rp Ej I Hr). }
  destruct Hs as (hp' & ix' & E & R' & Fr & P1 & P2). exists hp', ix'. split; [exact E|]. split; [|lia]. split; [exact R'|].
  intros i Hi. cbn [snd]. rewrite (Fr i Hi). apply H0. apply (SbplHeapProps.insert_none m j key i Hi).
Qed.

Lemma room_less (hp : SbplHeap.CHeap Z) n k : 0 <= k <= n -> room hp n -> room hp k.
Proof using Type. unfold room. lia. Qed.

(** A state that has become cheaper gets its new key. *)
Lemma improve_holding i j c todo s s1 pb m hp t e p hp' ix' : holding i ((j, c) :: todo) s pb m hp ->
  closed (view_of s pb (fun i => is_Some (m !! i))) i = true -> (j, c) ∈ arcs i -> closed (view_of s pb (fun i => is_Some (m !! i))) j = false ->
  state_at s j = Ok t -> state_at s i = Ok e ->
  (accessed (view_of s pb (fun i => is_Some (m !! i))) j = true -> c + g e < g t) -> p = Z.min INF (c + g e) ->
  tidy s1 -> from s s1 -> (forall k, state_at s1 k = if decide (k = j) then Ok (mkState (x t) (y t) p (iteration_ s)) else state_at s k) ->
  SbplHeapProps.sim (hp', ix') (<[j := p + h j]> m) -> holding i todo (set_open (Some hp') ix' s1) pb (<[j := p + h j]> m) hp'.
Proof using M Hroot.
  intros Hold Hcl Hin Hcj Et Ee Hlt Hp T1 F1 Hs1 S'. pose proof Hold as [T Hu Hhp Hsim Hkeys Hgo Hpb Hg].
  assert (Eit : iteration_ s1 = iteration_ s) by (destruct F1 as (? & ? & ? & ? & ->); reflexivity).
  pose proof (Hs1 j) as Ej. rewrite decide_True in Ej by reflexivity. split.
  - apply tidy_open, T1.
  - exact (heur_from _ _ F1 Hu).
  - reflexivity.
  - exact S'.
  - intros k key Hk. apply lookup_insert_Some in Hk as [[<- <-]|[Hne Hk]].
    + eexists. split; [exact Ej|reflexivity].
    + destruct (Hkeys k key Hk) as (u & Eu & ->). exists u. split; [|reflexivity]. transitivity (state_at s1 k); [reflexivity|].
      rewrite Hs1, decide_False by congruence. exact Eu.
  - intros tg Htg. change (iterationaccessed tg = iteration_ s1). rewrite Eit. change (state_at s1 goal = Ok tg) in Htg. rewrite Hs1 in Htg.
    case_decide; [injection Htg as <-; reflexivity|exact (Hgo tg Htg)].
  - exact Hpb.
  - refine (improve_good arcs root (arcs_nonneg _ _ _ _ _ _ M) _ _ i j c _ Hg Hcl Hin Hcj _ _).
    + destruct (view_at W H s pb (fun i => is_Some (m !! i)) i e Ee) as [_ ->]. destruct (view_at W H s pb (fun i => is_Some (m !! i)) j t Et) as [_ ->]. exact Hlt.
    + destruct (view_at W H s pb (fun i => is_Some (m !! i)) i e Ee) as [_ ->]. rewrite Hp in Hs1.
      apply (improving_view W H s (set_open (Some hp') ix' s1) pb _ _ j t (c + g e) Et Eit Hs1).
      intros k. rewrite lookup_insert_is_Some. destruct (decide (j = k)) as [->|]; intuition.
Qed.

Lemma heap_successor_ok i e dir dirs s pb m hp n : 0 <= i < N -> 0 <= dir < NUMOF2DDIRS -> state_at s i = Ok e ->
  holding i (omap (arc i) (dir :: dirs)) s pb m hp -> closed (view_of s pb (fun i => is_Some (m !! i))) i = true -> 0 <= n -> room hp (n + 1) ->
  exists s' m' hp', heap_successor Grid2D thresh i (col H i) (row H i) (cell Grid2D (col H i) (row H i)) pb s dir = Ok s' /\
    holding i (omap (arc i) dirs) s' pb m' hp' /\ state_at s' i = Ok e /\ from s s' /\ room hp' n.
Proof using M Hh HhM Hroot.
  intros Hi Hd Ee Hold Hcl Hn Hr. pose proof Hold as [T Hu Hhp Hsim Hkeys Hgo Hpb Hg]. unfold heap_successor.
  rewrite (neighbor_ok _ _ _ _ _ _ M s pb i dir (td_map _ _ _ _ T) Hpb Hi Hd), bind_ok_l. cbn [omap list_omap] in Hg, Hold.
  assert (Hsame : good arcs root i (omap (arc i) dirs) (view_of s pb (fun i => is_Some (m !! i))) ->
    holding i (omap (arc i) dirs) s pb m hp) by (intros Hg'; split; assumption).
  destruct (arc i dir) as [[j c]|] eqn:Ea.
  2:{ exists s, m, hp. split; [reflexivity|]. split; [apply Hsame, Hg|]. split; [exact Ee|]. split; [apply from_refl|]. apply (room_less hp (n + 1)); [lia|exact Hr]. }
  destruct (arc_bounds _ _ _ _ _ _ M i dir j c Hi Hd Ea) as [Hj Hc].
  assert (Hin : (j, c) ∈ arcs i) by (apply arcs_in; eauto).
  pose proof (arcs_nonneg _ _ _ _ _ _ M) as Hcost.
  set (w := view_of s pb (fun i => is_Some (m !! i))) in *.
  destruct (view_at W H s pb (fun i => is_Some (m !! i)) i e Ee) as [Hae Hge]. fold w in Hae, Hge.
  destruct (gd_closed _ _ _ _ _ Hg i Hcl) as [Hai _]. pose proof (gd_walk _ _ _ _ _ Hg i Hai) as [Hgb _].
  assert (Hcj : closed w j = closed_at W H pb j) by (cbn; rewrite bool_decide_eq_true_2 by exact Hj; reflexivity).
  destruct (closed_at W H pb j) eqn:Ecj.
  { exists s, m, hp. split; [reflexivity|]. split; [apply Hsame, (skip_good arcs root Hcost w i j c _ Hg Hcl Hin); auto|].
    split; [exact Ee|]. split; [apply from_refl|]. apply (room_less hp (n + 1)); [lia|exact Hr]. }
  destruct (state_in W H ds s j T Hj) as [t Et]. destruct (view_at W H s pb (fun i => is_Some (m !! i)) j t Et) as [Hat Hgt]. fold w in Hat, Hgt.
  rewrite Hge in Hgb. pose proof (relax_state _ _ _ _ _ _ M s i j c t e T Hj Et Ee Hc Hgb) as Hrel.
  destruct (negb _ || _) eqn:Eb.
  2:{ rewrite Hrel, bind_ok_l. apply orb_false_iff in Eb as [E1%negb_false_iff E2%Z.ltb_ge]. exists s, m, hp. split; [reflexivity|].
    split; [apply Hsame, (skip_good arcs root Hcost w i j c _ Hg Hcl Hin); right; rewrite Hat, Hgt, Hge; split; [exact E1|lia]|].
    split; [exact Ee|]. split; [apply from_refl|]. apply (room_less hp (n + 1)); [lia|exact Hr]. }
  destruct Hrel as (s1 & -> & T1 & F1 & Eo1 & _ & Ex1 & Hs1). rewrite bind_ok_l.
  pose proof (Hs1 j) as Ej. rewrite decide_True in Ej by reflexivity.
  rewrite (heap_key_ok s1 j _ T1 (heur_from _ _ F1 Hu) Ej) by (cbn; lia). rewrite bind_ok_l. unfold the_heap. rewrite Eo1, Hhp, bind_ok_l. cbn [g].
  rewrite <- Ex1 in Hsim.
  destruct (reopen_ok s1 hp m j (Z.min INF (c + g e) + h j) Hsim ltac:(intros Hm; exact (not_full _ _ _ _ _ _ j Hold Hm Hj)) ltac:(apply (room_less hp (n + 1)); [lia|exact Hr]))
    as (hp' & ix' & -> & S' & P). rewrite bind_ok_l.
  set (m' := <[j := _]> m) in *. exists (set_open (Some hp') ix' s1), m', hp'. split; [reflexivity|].
  assert (Hij : i <> j) by (intros <-; congruence).
  split; [|split; [|split]].
  - apply (improve_holding i j c _ s s1 pb m hp t e (Z.min INF (c + g e)) hp' ix' Hold Hcl Hin Hcj Et Ee); try assumption; [|reflexivity].
    fold w. rewrite Hat. intros E. apply orb_true_iff in Eb as [Eb|Eb%Z.ltb_lt]; [rewrite E in Eb; discriminate|exact Eb].
  - transitivity (state_at s1 i); [reflexivity|]. rewrite Hs1, decide_False by exact Hij. exact Ee.
  - eapply from_trans; [exact F1|]. apply from_open.
  - unfold room in *. lia.
Qed.

Lemma heap_successors_ok i e pb n dirs : 0 <= n -> forall s m hp, 0 <= i < N -> Forall (fun dir => 0 <= dir < NUMOF2DDIRS) dirs -> state_at s i = Ok e ->
  holding i (omap (arc i) dirs) s pb m hp -> closed (view_of s pb (fun i => is_Some (m !! i))) i = true -> room hp (Z.of_nat (length dirs) + n) ->
  exists s' m' hp', foldM (heap_successor Grid2D thresh i (col H i) (row H i) (cell Grid2D (col H i) (row H i)) pb) s dirs = Ok s' /\
    holding i [] s' pb m' hp' /\ from s s' /\ room hp' n.
Proof using M Hh HhM Hroot.
  intros Hn. induction dirs as [|dir dirs IH]; intros s m hp Hi Hd Ee Hold Hcl Hr; cbn [foldM].
  - exists s, m, hp. split; [reflexivity|]. split; [exact Hold|]. split; [apply from_refl|exact Hr].
  - apply Forall_cons in Hd as [Hd1 Hd]. cbn [length] in Hr.
    destruct (heap_successor_ok i e dir dirs s pb m hp (Z.of_nat (length dirs) + n) Hi Hd1 Ee Hold Hcl ltac:(lia)) as (s1 & m1 & hp1 & -> & Hold1 & Ee1 & F1 & Hr1);
      [replace (Z.of_nat (length dirs) + n + 1) with (Z.of_nat (S (length dirs)) + n) by lia; exact Hr|].
    rewrite bind_ok_l. destruct (IH s1 m1 hp1 Hi Hd Ee1 Hold1 Hcl Hr1) as (s' & m' & hp' & -> & Hold' & F' & Hr').
    exists s', m', hp'. split; [reflexivity|]. split; [exact Hold'|]. split; [exact (from_trans _ _ _ F1 F')|exact Hr'].
Qed.

(** The state with the least key is closed. *)
Lemma close_least u s pb m hp n : holding u [] s pb m hp -> m <> ∅ -> 0 <= n -> room hp (n + 1) -> exists i e hp' ix' pb',
  SbplIntHeap.deleteminheap hp (heapindices s) = Ok (i, hp', ix') /\ state_at s i = Ok e /\ 0 <= i < N /\
  closed (view_of s pb (fun i => is_Some (m !! i))) i = false /\
  aset pb (x e + W * y e) true = Ok pb' /\ holding i (arcs i) (set_open (Some hp') ix' s) pb' (delete i m) hp' /\ room hp' n /\
  forall j, closed (view_of (set_open (Some hp') ix' s) pb' (fun i => is_Some (delete i m !! i))) j =
    if decide (j = i) then true else closed (view_of s pb (fun i => is_Some (m !! i))) j.
Proof using M Hcons Hroot.
  intros Hold Hm Hn Hr. pose proof Hold as [T Hu Hhp Hsim Hkeys Hgo Hpb Hg]. pose proof (SbplHeapProps.sim_empty _ _ Hsim) as Hne.
  pose proof (sh_size _ (c_shape _ _ _ (proj1 (proj1 Hsim)))) as Hsz. cbn [fst snd] in Hne, Hsz. destruct Hsim as [Rp H0]. cbn [fst snd] in Rp, H0.
  destruct (deleteminheap_ok hp (heapindices s) m Rp) as (i & k & hp' & ix' & E & Hi & Hmin & hp1 & ix1 & [= <- <-] & R' & Hix & Hout & P1 & P2);
    [destruct (decide (SbplHeap.currentsize hp = 0)) as [E0|]; [apply Hne in E0; contradiction|lia]|unfold room in *; lia|].
  destruct (Hkeys i k Hi) as (e & Ee & ->). pose proof (waiting_in _ _ _ _ _ _ i Hold ltac:(eauto)) as Hin.
  destruct (td_xy _ _ _ _ T i e Ee) as [Ex Ey]. destruct (close_ok _ _ _ _ _ _ M pb i Hpb Hin) as (pb' & Ep & Hpb' & Hcl).
  exists i, e, hp', ix', pb'. split; [exact E|]. split; [exact Ee|]. split; [exact Hin|].
  split; [exact (proj2 (gd_waiting _ _ _ _ _ Hg i (ex_intro _ _ Hi)))|]. split; [rewrite Ex, Ey; exact Ep|]. split; [|split; [unfold room in *; lia|exact Hcl]].
  split; try assumption.
  - apply tidy_open, T.
  - reflexivity.
  - split; [exact R'|]. cbn [snd heapindices set_open]. intros j Hj. apply lookup_delete_None in Hj as [->|Hj]; [exact Hix|]. rewrite (Hout j Hj). apply H0, Hj.
  - intros j kj Hj. apply lookup_delete_Some in Hj as [_ Hj]. exact (Hkeys j kj Hj).
  - refine (closing_good arcs root h (arcs_nonneg _ _ _ _ _ _ M) Hcons u (view_of s pb (fun i => is_Some (m !! i))) _ i Hg (ex_intro _ _ Hi) _ _).
    + intros j [kj Hj]. destruct (Hkeys j kj Hj) as (t & Et & ->).
      destruct (view_at W H s pb (fun i => is_Some (m !! i)) i e Ee) as [_ ->]. destruct (view_at W H s pb (fun i => is_Some (m !! i)) j t Et) as [_ ->].
      exact (Hmin j _ Hj).
    + split; [reflexivity|]. split; [reflexivity|]. split; [exact Hcl|]. intros j. cbn [waiting view_of]. rewrite lookup_delete_is_Some. intuition.
Qed.

(** The goal has been accessed. *)
Lemma goal_walk u todo s pb m hp v : holding u todo s pb m hp -> state_at s goal = Ok v -> 0 <= g v <= INF /\ (g v < INF -> AraCore.walk arcs root goal (g v)).
Proof using Type.
  intros Hold Ev. destruct (view_at W H s pb (fun i => is_Some (m !! i)) goal v Ev) as [Ha HG]. rewrite (hd_goal _ _ _ _ _ _ Hold v Ev), Z.eqb_refl in Ha.
  rewrite <- HG. exact (gd_walk _ _ _ _ _ (hd_good _ _ _ _ _ _ Hold) goal Ha).
Qed.

(** The loop ends because OPEN is empty or the rest is not worthwhile. *)
Definition stopped (s : GridSearch) (m : gmap Z Z) : Prop :=
  m = ∅ \/ exists t k, state_at s goal = Ok t /\ 0 <= k <= INT_MAX /\ worthwhile (term_condition_usedlast s) (Z.min INF (g t)) k = false /\
    forall i k', m !! i = Some k' -> k <= k'.

(** The least key left, as the search reports it. *)
Lemma open_least u s pb m hp : holding u [] s pb m hp -> exists f,
  (if SbplIntHeap.emptyheap hp then Ok INFINITECOST else SbplIntHeap.getminkeyheap hp) = Ok f /\
  (m = ∅ -> f = INF) /\ (0 <= f <= INF + Hmax /\ ((forall i, h i = 0) -> f <= INF)) /\
  (forall i, is_Some (m !! i) -> f <= G (view_of s pb (fun i => is_Some (m !! i))) i + h i) /\ (m = ∅ \/ exists i, m !! i = Some f).
Proof using Hh HhM.
  intros Hold. pose proof Hold as [T Hu Hhp Hsim Hkeys Hgo Hpb Hg]. pose proof (SbplHeapProps.sim_empty _ _ Hsim) as Hne. cbn [fst] in Hne.
  unfold SbplIntHeap.emptyheap, SbplHeap.emptyheap. destruct (Z.eqb_spec (SbplHeap.currentsize hp) 0) as [E|E].
  - apply Hne in E. subst m. pose proof (Hh 0). exists INF. split; [reflexivity|]. split; [auto|]. split; [unfold INF in *; lia|]. split; [|auto]. intros i [k Hk]. rewrite lookup_empty in Hk. discriminate.
  - pose proof (sh_size _ (c_shape _ _ _ (proj1 (proj1 Hsim)))) as Hsz. cbn [fst] in Hsz.
    destruct (root_ok hp (heapindices s) m (proj1 Hsim)) as (i0 & k0 & Er & Hi0 & _ & Hmin); [lia|]. exists k0.
    unfold SbplIntHeap.getminkeyheap, SbplHeap.getminkeyheap. rewrite (proj2 (Z.eqb_neq _ _)) by exact E. rewrite (cheap_read_some _ _ _ Er), bind_ok_l.
    split; [reflexivity|]. split; [intros ->; rewrite lookup_empty in Hi0; discriminate|]. split.
    + split; [apply (waiting_key _ _ _ _ _ _ i0 k0 Hold Hi0)|]. intros Hz. destruct (Hkeys i0 k0 Hi0) as (v & Ev & ->). rewrite Hz.
      destruct (view_at W H s pb (fun i => is_Some (m !! i)) i0 v Ev) as [_ <-].
      destruct (gd_waiting _ _ _ _ _ Hg i0 (ex_intro _ _ Hi0)) as [Ha _]. pose proof (gd_walk _ _ _ _ _ Hg i0 Ha). lia.
    + split; [|eauto]. intros i [k Hk]. pose proof (Hmin i k Hk) as Hle. destruct (Hkeys i k Hk) as (v & Ev & ->). destruct (view_at W H s pb (fun i => is_Some (m !! i)) i v Ev) as [_ ->]. exact Hle.
Qed.

(** Something waits: not all states are closed. *)
Lemma some_open u s pb m hp cl : holding u [] s pb m hp -> m <> ∅ -> NoDup cl ->
  (forall i, i ∈ cl -> 0 <= i < N /\ closed (view_of s pb (fun i => is_Some (m !! i))) i = true) -> Z.of_nat (length cl) < N.
Proof using Hroot.
  intros Hold Hm Hnd Hcl. destruct (map_choose m Hm) as (j & kj & Hj). pose proof (waiting_in _ _ _ _ _ _ j Hold ltac:(eauto)) as Hjn.
  destruct (gd_waiting _ _ _ _ _ (hd_good _ _ _ _ _ _ Hold) j (ex_intro _ _ Hj)) as [_ Hc].
  assert (Hl : Z.of_nat (length (j :: cl)) <= Z.max 0 N); [|cbn [length] in Hl; lia]. apply NoDup_range_length.
  - constructor; [|exact Hnd]. intros Hin. destruct (Hcl j Hin). congruence.
  - intros z [->|Hz]%elem_of_cons; [exact Hjn|apply Hcl, Hz].
Qed.

Context (Hgoal : 0 <= goal < N).

Lemma heap_loop_ok n : 0 <= n -> forall fuel u s pb m hp cl, holding u [] s pb m hp -> NoDup cl ->
  (forall i, i ∈ cl -> 0 <= i < N /\ closed (view_of s pb (fun i => is_Some (m !! i))) i = true) ->
  N < Z.of_nat fuel + Z.of_nat (length cl) -> room hp (17 * (N - Z.of_nat (length cl)) + n) ->
  exists u' s' pb' m' hp', heap_loop Grid2D thresh fuel goal pb s = Ok s' /\ holding u' [] s' pb' m' hp' /\ from s s' /\ stopped s' m' /\ room hp' n.
Proof using M Hh HhM Hroot Hcons Hgoal.
  intros Hn0. induction fuel as [|fuel IH]; intros u s pb m hp cl Hold Hnd Hcl Hf Hr.
  { pose proof (NoDup_range_length cl N Hnd (fun i Hi => proj1 (Hcl i Hi))). lia. }
  assert (Hge0 : n <= 17 * (N - Z.of_nat (length cl)) + n) by (pose proof (NoDup_range_length cl N Hnd (fun i Hi => proj1 (Hcl i Hi))); lia).
  pose proof Hold as [T Hu Hhp Hsim Hkeys Hgo Hpb Hg]. cbn [heap_loop]. unfold the_heap. rewrite Hhp, bind_ok_l.
  pose proof (SbplHeapProps.sim_empty _ _ Hsim) as Hne. cbn [fst] in Hne. unfold SbplIntHeap.emptyheap, SbplHeap.emptyheap.
  destruct (Z.eqb_spec (SbplHeap.currentsize hp) 0) as [E0|E0].
  { rewrite bind_ok_l. exists u, s, pb, m, hp. split; [reflexivity|]. split; [exact Hold|]. split; [apply from_refl|]. split; [left; apply Hne, E0|exact (room_less hp _ n (conj Hn0 Hge0) Hr)]. }
  destruct (state_in W H ds s goal T Hgoal) as [t Et]. rewrite Et, bind_ok_l.
  pose proof (sh_size _ (c_shape _ _ _ (proj1 (proj1 Hsim)))) as Hsz. cbn [fst] in Hsz.
  destruct (root_ok hp (heapindices s) m (proj1 Hsim)) as (i0 & k0 & Er & Hi0 & _ & Hmin); [lia|].
  pose proof (waiting_key _ _ _ _ _ _ i0 k0 Hold Hi0) as Hk0.
  unfold SbplIntHeap.getminkeyheap, SbplHeap.getminkeyheap. rewrite (proj2 (Z.eqb_neq _ _)) by exact E0. rewrite (cheap_read_some _ _ _ Er), !bind_ok_l.
  cbn [SbplHeap.key]. change INFINITECOST with INF. destruct (worthwhile _ _ _) eqn:Ew.
  2:{ exists u, s, pb, m, hp. split; [reflexivity|]. split; [exact Hold|]. split; [apply from_refl|]. split; [right; exists t, k0; split; [exact Et|split; [lia|split; [exact Ew|exact Hmin]]]|exact (room_less hp _ n (conj Hn0 Hge0) Hr)]. }
  assert (Hm : m <> ∅) by (intros ->; apply E0, Hne; reflexivity).
  pose proof (some_open u s pb m hp cl Hold Hm Hnd Hcl) as Hlen.
  destruct (close_least u s pb m hp (16 + (17 * (N - Z.of_nat (S (length cl))) + n)) Hold Hm ltac:(lia)) as (i & e & hp1 & ix1 & pb1 & Ed & Ee & Hi & Hci & Ep & Hold1 & Hr1 & Hcl1).
  { unfold room in *. lia. }
  rewrite Ed, bind_ok_l. set (s1 := set_open (Some hp1) ix1 s) in *. change (state_at s1 i) with (state_at s i). rewrite Ee, bind_ok_l.
  change (width_ s1) with (width_ s). rewrite (om_width _ _ _ _ (td_map _ _ _ _ T)), Ep, bind_ok_l.
  destruct (td_xy _ _ _ _ T i e Ee) as [Ex Ey]. destruct (inside_index W H Grid2D thresh ds Dmax M i Hi) as [Hin _].
  rewrite Ex, Ey, (grid_cell_ok _ _ _ _ _ _ M _ _ Hin), bind_ok_l.
  destruct (heap_successors_ok i e pb1 (17 * (N - Z.of_nat (S (length cl))) + n) (seqZ 0 NUMOF2DDIRS) ltac:(lia) s1 (delete i m) hp1 Hi)
    as (s2 & m2 & hp2 & -> & Hold2 & F2 & Hr2).
  { apply Forall_forall. intros dir Hdir%elem_of_seqZ. lia. } { exact Ee. } { exact Hold1. }
  { etransitivity; [exact (Hcl1 i)|]. rewrite decide_True; reflexivity. } { rewrite length_seqZ. exact Hr1. }
  rewrite bind_ok_l.
  assert (Hcl2 : forall j, 0 <= j < N -> closed (view_of s2 pb1 (fun i => is_Some (m2 !! i))) j = closed (view_of s1 pb1 (fun i => is_Some (delete i m !! i))) j) by reflexivity.
  destruct (IH i s2 pb1 m2 hp2 (i :: cl) Hold2) as (u' & s' & pb' & m' & hp' & -> & Hold' & F' & Hst & Hpp).
  - constructor; [|exact Hnd]. intros Hin'. destruct (Hcl i Hin'). congruence.
  - intros j Hj. assert (Hjn : 0 <= j < N) by (apply elem_of_cons in Hj as [->|Hj]; [exact Hi|apply Hcl, Hj]). split; [exact Hjn|].
    rewrite (Hcl2 j Hjn). etransitivity; [exact (Hcl1 j)|]. case_decide as E; [reflexivity|].
    apply elem_of_cons in Hj as [Hj|Hj]; [contradiction|]. apply Hcl, Hj.
  - cbn [length]. lia.
  - exact Hr2.
  - exists u', s', pb', m', hp'. split; [reflexivity|]. split; [exact Hold'|]. split; [|auto]. eapply from_trans; [|exact F'].
    eapply from_trans; [|exact F2]. apply from_open.
Qed.
End heap.

(** ** The whole search *)

Section search.
Context (W H : Z) (Grid2D : list (list Z)) (thresh : Z) (ds : list Z) (Dmax : Z) (M : map_ok W H Grid2D thresh ds Dmax).

#[local] Abbreviation N := (W * H).
#[local] Abbreviation arcs := (SbplGrid2DSpec.arcs W H Grid2D thresh ds).
#[local] Abbreviation searched := (searched W H Grid2D thresh ds).
#[local] Abbreviation complete := (complete W H Grid2D thresh ds).

(** A search object with a heap; [percolates] may grow by [24] per operation. *)
Record heap_ready (n : Z) (s : GridSearch) : Prop := {
  hr_tidy : tidy W H ds s;
  hr_iter : 0 <= iteration_ s;
  hr_heap : exists hp m, OPEN2D_ s = Some hp /\ SbplHeapProps.sim (hp, heapindices s) m /\ room hp n;
}.

(** The operations on the heap that a search may make. *)
Definition heap_ops : Z := 17 * N + 1.

Context (sx sy gx gy : Z) (Hs : inside W H sx sy) (Hg : inside W H gx gy) (h : Z -> Z) (Hmax : Z).
Context (Hcons : forall i j c, (j, c) ∈ arcs i -> h i <= c + h j) (Hh : forall i, 0 <= h i <= Hmax) (HhM : Hmax + INF <= INT_MAX).

#[local] Abbreviation root := (index H sx sy).
#[local] Abbreviation goal := (index H gx gy).

(** The state of the loop when it starts. *)
Lemma start_holding t s hp m n : heap_ready (heap_ops + n) s -> heur_at W H h (called sx sy gx gy t s) ->
  OPEN2D_ s = Some hp -> SbplHeapProps.sim (hp, heapindices s) m -> room hp (heap_ops + n) -> 0 <= n ->
  exists hp' ix s' hp'' ix'' key, SbplIntHeap.makeemptyheap hp (heapindices s) = Ok (hp', ix) /\
    seed sx sy gx gy (set_open (Some hp') ix (called sx sy gx gy t s)) = Ok (root, goal, s') /\ heap_key s' root = Ok key /\ OPEN2D_ s' = Some hp' /\
    SbplIntHeap.insertheap root key hp' (heapindices s') = Ok (hp'', ix'') /\
    holding W H Grid2D thresh ds root goal h root [] (set_open (Some hp'') ix'' s') (replicate (Z.to_nat N) false) {[root := key]} hp'' /\
    from (called sx sy gx gy t s) s' /\ room hp'' (17 * N + n).
Proof using M Hs Hg Hh HhM.
  intros R Hu Hhp Hsim Hroom Hn. pose proof (hr_tidy _ _ R) as T.
  destruct (makeemptyheap_ok hp (heapindices s) m (proj1 Hsim) (proj2 Hsim)) as (ix & E1 & R1 & Hz).
  set (hp' := SbplHeap.set_size 0 hp) in *. set (s1 := set_open (Some hp') ix (called sx sy gx gy t s)).
  assert (T1 : tidy W H ds s1) by (apply tidy_open, tidy_called, T).
  assert (Fr : fresh s1) by exact (fresh_called W H ds sx sy gx gy t s T).
  destruct (seed_ok _ _ _ _ _ _ M s1 sx sy gx gy T1 Fr Hs Hg) as (s2 & E2 & T2 & F2 & O2 & _ & X2 & (tr & Er & Gr) & Hgo & Hgood).
  pose proof (index_bounds _ _ _ _ _ _ M _ _ Hs) as Hrb. pose proof (index_bounds _ _ _ _ _ _ M _ _ Hg) as Hgb.
  assert (Hu2 : heur_at W H h s2) by (apply (heur_from W H h _ _ F2); exact Hu).
  assert (Ek : heap_key s2 root = Ok (0 + h root)).
  { rewrite <- Gr. apply (heap_key_ok _ _ _ _ _ _ M root h Hmax Hrb Hh HhM s2 root tr T2 Hu2 Er). rewrite Gr. unfold INF. lia. }
  assert (R2 : rep hp' (heapindices s2) ∅).
  { split; [|exact (proj2 R1)]. destruct R1 as [[C1 C2 C3 C4] _]. split; [exact C1| | |exact C4].
    - intros i Hi. cbn in Hi. lia.
    - intros i k Hk. rewrite lookup_empty in Hk. discriminate. }
  pose proof (mp_size _ _ _ _ _ _ M) as HN.
  destruct (insertheap_ok root (0 + h root) hp' (heapindices s2) ∅ R2 eq_refl ltac:(apply X2, Hz) I) as (hp2 & ix2 & E3 & R3 & Fx & P1 & P2).
  { reflexivity. } { unfold room, heap_ops in *. change (SbplHeap.percolates hp') with (SbplHeap.percolates hp). lia. }
  exists hp', ix, s2, hp2, ix2, (0 + h root). split; [exact E1|]. split; [exact E2|]. split; [exact Ek|].
  split; [rewrite O2; reflexivity|]. split; [exact E3|]. split.
  - split.
    + apply tidy_open, T2.
    + exact Hu2.
    + reflexivity.
    + split; [exact R3|]. intros i Hi. cbn [snd heapindices set_open]. rewrite (Fx i Hi). apply X2, Hz.
    + intros i k Hk. apply lookup_singleton_Some in Hk as [<- <-]. exists tr. split; [exact Er|]. rewrite Gr. reflexivity.
    + exact Hgo.
    + rewrite length_replicate. lia.
    + apply Hgood.
      * intros i. cbn. unfold closed_at. rewrite blank_mark. apply andb_false_r.
      * intros i. rewrite lookup_singleton_is_Some. intuition.
  - split; [|unfold room, heap_ops in *; change (SbplHeap.percolates hp') with (SbplHeap.percolates hp) in *; lia]. eapply from_trans; [apply from_open|exact F2].
Qed.

(** The search up to its loop. *)
Lemma search_starts t s n : heap_ready (heap_ops + n) s -> iteration_ s < INT_MAX -> 0 <= n -> heur_at W H h (called sx sy gx gy t s) ->
  exists s2 hp2 key, search_withheap Grid2D thresh sx sy gx gy t s =
      (s3 ← heap_loop Grid2D thresh (S (Z.to_nat N)) goal (replicate (Z.to_nat N) false) s2;
       hp3 ← the_heap s3;
       f ← (if SbplIntHeap.emptyheap hp3 then Ok INFINITECOST else SbplIntHeap.getminkeyheap hp3);
       Ok (true, set_largest f s3)) /\
    holding W H Grid2D thresh ds root goal h root [] s2 (replicate (Z.to_nat N) false) {[root := key]} hp2 /\
    from (called sx sy gx gy t s) s2 /\ room hp2 (17 * N + n).
Proof using M Hs Hg Hh HhM.
  intros R Hit Hn Hu. pose proof (hr_heap _ _ R) as (hp & m & Hhp & Hsim & Hroom). pose proof (hr_iter _ _ R) as Hi0.
  destruct (start_holding t s hp m n R Hu Hhp Hsim Hroom Hn) as (hp1 & ix1 & s1 & hp2 & ix2 & key & E1 & E2 & E3 & O1 & E4 & Hold & F1 & Hr).
  exists (set_open (Some hp2) ix2 s1), hp2, key. split; [|split; [exact Hold|split; [eapply from_trans; [exact F1|apply from_open]|exact Hr]]].
  unfold search_withheap. rewrite add_int_in by (unfold INT_MAX, int_min, int32 in *; cbn [int_max] in *; lia). rewrite bind_ok_l.
  rewrite (the_heap_ok (set_call (iteration_ s + 1) sx sy gx gy s) hp Hhp), bind_ok_l.
  change (heapindices (set_call (iteration_ s + 1) sx sy gx gy s)) with (heapindices s). rewrite E1, bind_ok_l.
  change (set_condition t (set_open (Some hp1) ix1 (set_call (iteration_ s + 1) sx sy gx gy s))) with (set_open (Some hp1) ix1 (called sx sy gx gy t s)).
  pose proof (tidy_open W H ds _ (Some hp1) ix1 (tidy_called W H ds sx sy gx gy t s (hr_tidy _ _ R))) as T1.
  rewrite !(withinMap_ok _ _ _ _ _ _ (td_map _ _ _ _ T1)), !bool_decide_eq_true_2 by assumption. cbn [negb orb].
  rewrite E2, bind_ok_l, E3, bind_ok_l, (the_heap_ok _ _ O1), bind_ok_l, E4, bind_ok_l. pose proof (td_map _ _ _ _ (hd_tidy _ _ _ _ _ _ _ _ _ _ _ _ _ _ Hold)) as O2.
  unfold loop_fuel. rewrite (om_width _ _ _ _ O2), (om_height _ _ _ _ O2).
  pose proof (mp_size _ _ _ _ _ _ M) as HN. pose proof (mp_width _ _ _ _ _ _ M). pose proof (mp_height _ _ _ _ _ _ M).
  rewrite mul_int_in by (unfold SbplHeap.HEAPSIZE, int_min, int32 in *; cbn [int_max]; nia). reflexivity.
Qed.

(** The search to its end. *)
Lemma search_ends t s n : heap_ready (heap_ops + n) s -> iteration_ s < INT_MAX -> 0 <= n -> heur_at W H h (called sx sy gx gy t s) ->
  exists u s3 pb m3 hp3 f, search_withheap Grid2D thresh sx sy gx gy t s = Ok (true, set_largest f s3) /\
    holding W H Grid2D thresh ds root goal h u [] s3 pb m3 hp3 /\ from (called sx sy gx gy t s) s3 /\ stopped goal s3 m3 /\ room hp3 n /\
    (m3 = ∅ -> f = INF) /\ (0 <= f <= INF + Hmax /\ ((forall i, h i = 0) -> f <= INF)) /\
    (forall i, is_Some (m3 !! i) -> f <= G (view_of W H s3 pb (fun i => is_Some (m3 !! i))) i + h i) /\ (m3 = ∅ \/ exists i, m3 !! i = Some f).
Proof using M Hs Hg Hcons Hh HhM.
  intros R Hit Hn Hu. destruct (search_starts t s n R Hit Hn Hu) as (s2 & hp2 & key & -> & Hold & F1 & Hr).
  pose proof (index_bounds _ _ _ _ _ _ M _ _ Hs) as Hrb. pose proof (index_bounds _ _ _ _ _ _ M _ _ Hg) as Hgb.
  destruct (heap_loop_ok _ _ _ _ _ _ M root goal h Hmax Hrb Hcons Hh HhM Hgb n Hn (S (Z.to_nat N)) root s2 _ _ _ [] Hold (NoDup_nil_2))
    as (u & s3 & pb & m3 & hp3 & -> & Hold3 & F3 & Hst & Hr3); [intros i Hi; inversion Hi|cbn [length]; nia|rewrite Z.sub_0_r; exact Hr|].
  rewrite bind_ok_l, (the_heap_ok _ _ (hd_heap _ _ _ _ _ _ _ _ _ _ _ _ _ _ Hold3)), bind_ok_l.
  destruct (open_least _ _ _ _ _ _ _ _ Hmax Hh HhM _ _ _ _ _ Hold3) as (f & Ef & Hf). rewrite Ef, bind_ok_l.
  exists u, s3, pb, m3, hp3, f. split; [reflexivity|]. split; [exact Hold3|]. split; [exact (from_trans _ _ _ F1 F3)|]. auto.
Qed.

Lemma search_withheap_ok t s n : heap_ready (heap_ops + n) s -> iteration_ s < INT_MAX -> 0 <= n -> heur_at W H h (called sx sy gx gy t s) ->
  exists s', search_withheap Grid2D thresh sx sy gx gy t s = Ok (true, s') /\ searched root h Hmax (complete root goal t) s' /\ heap_ready n s' /\
    iteration_ s' = iteration_ s + 1 /\ OPENtype_ s' = OPENtype_ s /\ cellSize_m_ s' = cellSize_m_ s.
Proof using M Hs Hg Hcons Hh HhM.
  intros R Hit Hn Hu. pose proof (hr_iter _ _ R) as Hi0.
  destruct (search_ends t s n R Hit Hn Hu) as (u & s3 & pb & m3 & hp3 & f & -> & Hold3 & Fs & Hst & Hr3 & Hf1 & Hf2 & Hf3 & _).
  exists (set_largest f s3). split; [reflexivity|]. pose proof (hd_tidy _ _ _ _ _ _ _ _ _ _ _ _ _ _ Hold3) as T3.
  split; [|split; [|destruct Fs as (? & ? & ? & ? & ->); auto]].
  - split.
    + destruct T3 as [[] ? ? ?]. split; [split|..]; assumption.
    + exact (hd_heur _ _ _ _ _ _ _ _ _ _ _ _ _ _ Hold3).
    + auto.
    + cbn. unfold INF, INT_MAX, int32 in *; cbn [int_max] in *. lia.
    + cbn. exact (proj2 Hf2).
    + exists u, (view_of W H s3 pb (fun i => is_Some (m3 !! i))). split; [exact (hd_good _ _ _ _ _ _ _ _ _ _ _ _ _ _ Hold3)|].
      split; [intros i v Hv; exact (view_at W H s3 pb _ i v Hv)|]. split; [exact Hf3|]. intros Hc.
      enough (m3 = ∅) as Hm.
      { split; [cbn; apply Hf1, Hm|]. intros i. cbn. rewrite Hm, lookup_empty. intros [? [=]]. }
      destruct Hst as [Hm|(v & k & Ev & Hk & Hw & _)]; [exact Hm|]. exfalso. revert Hw.
      assert (Et : term_condition_usedlast s3 = ALLCELLS) by (destruct Fs as (? & ? & ? & ? & ->); apply Hc). rewrite Et.
      rewrite allcells_worthwhile; [discriminate| |exact Hk].
      destruct (goal_walk _ _ _ _ _ _ _ _ _ _ _ _ _ _ v Hold3 Ev) as [Hb Hwk].
      destruct (decide (g v < INF)) as [Hlt|]; [specialize (Hwk Hlt); apply (complete_positive _ _ _ _ _ _ M _ _ t _ Hc) in Hwk|]; unfold INF, INT_MAX, int32 in *; cbn [int_max] in *; lia.
  - split.
    + destruct T3 as [[] ? ? ?]. split; [split|..]; assumption.
    + cbn. destruct Fs as (? & ? & ? & ? & ->). cbn. lia.
    + exists hp3, m3. split; [exact (hd_heap _ _ _ _ _ _ _ _ _ _ _ _ _ _ Hold3)|]. split; [exact (hd_sim _ _ _ _ _ _ _ _ _ _ _ _ _ _ Hold3)|exact Hr3].
Qed.

(** A search for a path ends with a goal that costs no more than the least key,
    as long as the costs are below 2^24: there a float compares as an int does. *)
Lemma search_path_goal s n d : heap_ready (heap_ops + n) s -> iteration_ s < INT_MAX -> 0 <= n -> heur_at W H h (called sx sy gx gy OPTPATHFOUND s) ->
  h goal = 0 -> AraCore.walk arcs root goal d -> d < 2 ^ 24 ->
  exists s' v, search_withheap Grid2D thresh sx sy gx gy OPTPATHFOUND s = Ok (true, s') /\ state_at s' goal = Ok v /\
    iterationaccessed v = iteration_ s' /\ g v <= largestcomputedoptf_ s'.
Proof using M Hs Hg Hcons Hh HhM.
  intros R Hit Hn Hu Hz Hwd Hd.
  destruct (search_ends OPTPATHFOUND s n R Hit Hn Hu) as (u & s3 & pb & m3 & hp3 & f & -> & Hold3 & Fs & Hst & _ & Hf1 & _ & _ & Hf4).
  pose proof (index_bounds _ _ _ _ _ _ M _ _ Hg) as Hgb. pose proof (hd_tidy _ _ _ _ _ _ _ _ _ _ _ _ _ _ Hold3) as T3.
  destruct (state_in W H ds s3 goal T3 Hgb) as [v Ev]. exists (set_largest f s3), v. split; [reflexivity|]. split; [exact Ev|].
  split; [exact (hd_goal _ _ _ _ _ _ _ _ _ _ _ _ _ _ Hold3 v Ev)|]. cbn [largestcomputedoptf_ set_largest].
  destruct (goal_walk _ _ _ _ _ _ _ _ _ _ _ _ _ _ v Hold3 Ev) as [Hb _].
  destruct Hst as [Hm|(v' & k & Ev' & Hk & Hw & Hmin)]; [rewrite (Hf1 Hm); lia|]. rewrite Ev in Ev'. injection Ev' as <-.
  assert (Et : term_condition_usedlast s3 = OPTPATHFOUND) by (destruct Fs as (? & ? & ? & ? & ->); reflexivity). rewrite Et in Hw.
  enough (Hle : g v <= k) by (destruct Hf4 as [Hm|[i Hi]]; [rewrite (Hf1 Hm); lia|specialize (Hmin i f Hi); lia]).
  destruct (decide (g v <= k)) as [|Hgt]; [assumption|]. exfalso. revert Hw. unfold worthwhile. cbn [term_factor].
  replace (Z.min INF (g v)) with (g v) by lia. rewrite FloatsSpec.one_times_less; [discriminate| |unfold INF in *; lia]. split; [lia|].
  pose proof (hd_good _ _ _ _ _ _ _ _ _ _ _ _ _ _ Hold3) as Hgd.
  destruct (grid_frontier arcs root (arcs_nonneg _ _ _ _ _ _ M) u _ goal d Hgd Hwd) as [[_ Hc]|[(j & d' & d'' & [kj Hj] & _ & Hw2 & -> & Hgj)|Hd']]; [| |unfold INF in *; lia].
  - destruct (view_at W H s3 pb (fun i => is_Some (m3 !! i)) goal v Ev) as [_ Hgv]. lia.
  - pose proof (Hmin j kj Hj) as Hkj. destruct (hd_keys _ _ _ _ _ _ _ _ _ _ _ _ _ _ Hold3 j kj Hj) as (tj & Etj & ->).
    destruct (view_at W H s3 pb (fun i => is_Some (m3 !! i)) j tj Etj) as [_ Hgtj]. pose proof (walk_consistent arcs h Hcons _ _ _ Hw2). lia.
Qed.
End search.
End SbplGrid2DHeap.
