(* ===== verification/SbplGrid2DList.v ===== *)
(** * The 2D grid search with sliding buckets (src/libsbpl: utils/2Dgridsearch.cpp)

    [search_withslidingbuckets] keeps the invariant of SbplGrid2DCore.v although
    a state may be in the list more than once, and terminates; it throws only
    when a bucket is full or a priority lies outside the window. *)

From S2P Require Import Prelude.
From S2P Require Import Doubles.
From S2P Require Import Floats.
From S2P Require Import Keys.
From S2P Require Import SbplHeap.
From S2P Require Import SbplIntHeap.
From S2P Require Import SbplHeapSpec.
From S2P Require Import SbplHeapProps.
From S2P Require Import SbplSliding.
From S2P Require Import SbplSlidingSpec.
From S2P Require Import SbplGrid2D.
From S2P Require Import AraCore.
From S2P Require Import SbplGrid2DCore.
From S2P Require Import SbplGrid2DSpec.
From S2P Require Import SbplGrid2DStates.

Module SbplGrid2DList.
Import Keys SbplGrid2D SbplGrid2DCore SbplGrid2DSpec SbplGrid2DStates.

Section queues.

(** The priorities of the states that wait, one for each. *)
Definition sized (q : SbplSlidingSpec.queue) (ps : list Z) : Prop :=
  forall p, length (SbplSlidingSpec.line q p) = count_occ Z.eq_dec ps p.

Lemma pushed_in j p q k p' : k ∈ SbplSlidingSpec.line (SbplSlidingSpec.pushed j p q) p' <-> k ∈ SbplSlidingSpec.line q p' \/ k = j /\ p' = p.
Proof using Type.
  cbn. unfold upd. case_decide as E; [subst p'; rewrite elem_of_app, list_elem_of_singleton; tauto|tauto].
Qed.

Lemma popped_in p l q k p' i : SbplSlidingSpec.line q p = i :: l ->
  k ∈ SbplSlidingSpec.line (SbplSlidingSpec.popped p l q) p' -> k ∈ SbplSlidingSpec.line q p'.
Proof using Type. intros El. cbn. unfold upd. case_decide as E; [subst p'; rewrite El; right; assumption|auto]. Qed.

Lemma popped_keeps p l q k p' i : SbplSlidingSpec.line q p = i :: l -> k <> i ->
  k ∈ SbplSlidingSpec.line q p' -> k ∈ SbplSlidingSpec.line (SbplSlidingSpec.popped p l q) p'.
Proof using Type. intros El Hne. cbn. unfold upd. case_decide as E; [subst p'; rewrite El; intros [|]%elem_of_cons; [contradiction|assumption]|auto]. Qed.

Lemma pushed_sized j p q ps : sized q ps -> sized (SbplSlidingSpec.pushed j p q) (p :: ps).
Proof using Type.
  intros Hz p'. cbn [SbplSlidingSpec.pushed SbplSlidingSpec.line count_occ]. unfold upd. specialize (Hz p').
  destruct (Z.eq_dec p p') as [->|Hne]; [rewrite decide_True, length_app by reflexivity; cbn [length]; lia|rewrite decide_False by congruence; exact Hz].
Qed.

Lemma popped_sized p i l q ps : sized q ps -> SbplSlidingSpec.line q p = i :: l -> exists ps', length ps = S (length ps') /\ sized (SbplSlidingSpec.popped p l q) ps'.
Proof using Type.
  intros Hz El. pose proof (Hz p) as Hp. rewrite El in Hp. cbn [length] in Hp.
  assert (Hin : In p ps) by (apply (count_occ_In Z.eq_dec); lia). apply in_split in Hin as (p1 & p2 & ->). exists (p1 ++ p2).
  split; [rewrite !length_app; cbn [length]; lia|]. intros p'. specialize (Hz p'). rewrite count_occ_app in Hz |- *. cbn [count_occ] in Hz.
  cbn [SbplSlidingSpec.popped SbplSlidingSpec.line]. unfold upd. rewrite count_occ_app in Hp. cbn [count_occ] in Hp.
  destruct (Z.eq_dec p p') as [->|Hne]; [rewrite decide_True by reflexivity; destruct (Z.eq_dec p' p'); [lia|contradiction]|rewrite decide_False by congruence; exact Hz].
Qed.
End queues.

Section list.
Context (W H : Z) (Grid2D : list (list Z)) (thresh : Z) (ds : list Z) (Dmax : Z) (M : map_ok W H Grid2D thresh ds Dmax).

#[local] Abbreviation N := (W * H).
#[local] Abbreviation arc := (SbplGrid2DSpec.arc W H Grid2D thresh ds).
#[local] Abbreviation arcs := (SbplGrid2DSpec.arcs W H Grid2D thresh ds).
#[local] Abbreviation tidy := (tidy W H ds).
#[local] Abbreviation view_of := (view_of W H).
#[local] Abbreviation closed_at := (closed_at W H).

Context (root goal : Z).

(** A state waits while it is in some line and not closed. *)
Definition waits (pb : list bool) (q : SbplSlidingSpec.queue) (i : Z) : Prop :=
  (exists p, i ∈ SbplSlidingSpec.line q p) /\ closed_at pb i = false.

(** The invariant: an entry of a state that is not closed may be out of date, but
    the state is also in the line of its [g].  [out]: the states popped from the
    line of [first]. *)
Record listing (u : Z) (todo : list (Z * Z)) (s : GridSearch) (pb : list bool) (c : SbplSliding.CSlidingBucket) (q : SbplSlidingSpec.queue) (out : list Z) : Prop := {
  ls_tidy : tidy s;
  ls_list : OPEN2DBLIST_ s = Some c;
  ls_rep : SbplSlidingSpec.rep c q;
  ls_goal : forall t, state_at s goal = Ok t -> iterationaccessed t = iteration_ s;
  ls_marks : Z.of_nat (length pb) = N;
  ls_good : good arcs root u todo (view_of s pb (waits pb q));
  ls_entry : forall p i, i ∈ SbplSlidingSpec.line q p -> 0 <= i < N /\
    exists t, state_at s i = Ok t /\ g t <= p /\ (closed_at pb i = true \/ i ∈ SbplSlidingSpec.line q (g t));
  ls_out : Z.of_nat (length out) = SbplSlidingSpec.gone q /\ forall i, i ∈ out -> 0 <= i < N /\ closed_at pb i = true;
  ls_nodup : forall p, NoDup ((if p =? SbplSlidingSpec.first q then out else []) ++ SbplSlidingSpec.line q p);
}.

(** The list is large enough: no bucket can be full and no priority outside the
    window. *)
Definition fits (c : SbplSliding.CSlidingBucket) : Prop := N < SbplSliding.bucketsize c /\ thresh * Dmax < SbplSliding.numofbuckets c.

Definition same_size (c c' : SbplSliding.CSlidingBucket) : Prop :=
  SbplSliding.numofbuckets c' = SbplSliding.numofbuckets c /\ SbplSliding.bucketsize c' = SbplSliding.bucketsize c.

Lemma used_small u todo s pb c q out p : listing u todo s pb c q out -> SbplSlidingSpec.used q p <= Z.max 0 N.
Proof using Type.
  intros L. destruct (ls_out _ _ _ _ _ _ _ L) as [Hl Hc]. pose proof (ls_nodup _ _ _ _ _ _ _ L p) as Hn. unfold SbplSlidingSpec.used.
  rewrite <- Hl. pose proof (NoDup_range_length _ N Hn) as Hb. rewrite length_app in Hb.
  assert (Hr : forall i, i ∈ (if p =? SbplSlidingSpec.first q then out else []) ++ SbplSlidingSpec.line q p -> 0 <= i < N).
  { intros i [Hi|Hi]%elem_of_app; [destruct (_ =? _); [apply Hc, Hi|inversion Hi]|apply (ls_entry _ _ _ _ _ _ _ L p i Hi)]. }
  specialize (Hb Hr). destruct (_ =? _); cbn [length] in Hb; lia.
Qed.

Lemma arc_thresh i dir j c : 0 <= i < N -> 0 <= dir < NUMOF2DDIRS -> arc i dir = Some (j, c) -> 0 <= c <= thresh * Dmax.
Proof using M.
  intros Hi Hd (x & y & Hin & -> & Ho & -> & _)%arc_Some. pose proof (shift_dist _ _ _ _ _ _ M dir Hd) as [_ Hb].
  pose proof (over_nonneg _ _ _ _ _ _ M (col H i) (row H i) dir (proj1 (inside_index _ _ _ _ _ _ M i Hi))). nia.
Qed.

(** A new entry for a state that has become cheaper. *)
Lemma push_listing i j c todo s s1 pb l q out t e p l' : listing i ((j, c) :: todo) s pb l q out -> closed (view_of s pb (waits pb q)) i = true ->
  (j, c) ∈ arcs i -> 0 <= j < N -> closed_at pb j = false -> state_at s j = Ok t -> state_at s i = Ok e -> 0 <= g e <= INF ->
  (accessed (view_of s pb (waits pb q)) j = true -> c + g e < g t) -> p = Z.min INF (c + g e) ->
  tidy s1 -> from s s1 -> (forall k, state_at s1 k = if decide (k = j) then Ok (mkState (x t) (y t) p (iteration_ s)) else state_at s k) ->
  SbplSlidingSpec.rep l' (SbplSlidingSpec.pushed j p q) -> listing i todo (set_list (Some l') s1) pb l' (SbplSlidingSpec.pushed j p q) out.
Proof using M.
  intros L Hcl Hin Hj Hcj Et Ee Hg Hlt Hp T1 F1 Hs1 R. pose proof L as [T Hl HR Hgo Hpb Hgd Hen [Ho1 Ho2] Hnd].
  assert (Eit : iteration_ s1 = iteration_ s) by (destruct F1 as (? & ? & ? & ? & ->); reflexivity).
  assert (Hold : forall p', j ∈ SbplSlidingSpec.line q p' -> p <= p' /\ p' <> p).
  { intros p' Hp'. destruct (Hen p' j Hp') as (_ & t' & Et' & Hle & _). rewrite Et in Et'. injection Et' as <-.
    destruct (gd_waiting _ _ _ _ _ Hgd j) as [Ha _]; [split; [eauto|exact Hcj]|]. specialize (Hlt Ha). lia. }
  split.
  - apply tidy_list, T1.
  - reflexivity.
  - exact R.
  - intros tg Htg. change (iterationaccessed tg = iteration_ s1). rewrite Eit. change (state_at s1 goal = Ok tg) in Htg. rewrite Hs1 in Htg.
    case_decide; [injection Htg as <-; reflexivity|exact (Hgo tg Htg)].
  - exact Hpb.
  - refine (improve_good arcs root (arcs_nonneg _ _ _ _ _ _ M) _ _ i j c _ Hgd Hcl Hin _ _ _).
    + cbn. rewrite Hcj. apply andb_false_r.
    + destruct (view_at W H s pb (waits pb q) i e Ee) as [_ ->]. destruct (view_at W H s pb (waits pb q) j t Et) as [_ ->]. exact Hlt.
    + destruct (view_at W H s pb (waits pb q) i e Ee) as [_ ->]. rewrite Hp in Hs1.
      apply (improving_view W H s (set_list (Some l') s1) pb _ _ j t (c + g e) Et Eit Hs1). intros k. unfold waits. setoid_rewrite pushed_in. split.
      * intros [[p' [Hk|[-> ->]]] Hc]; [left; split; [eauto|exact Hc]|right; reflexivity].
      * intros [[[p' Hk] Hc]| ->]; [split; [exists p'; auto|exact Hc]|split; [exists p; auto|exact Hcj]].
  - intros p' k [Hk|[-> ->]]%pushed_in; [|split; [exact Hj|]; eexists; split; [etransitivity; [exact (Hs1 j)|rewrite decide_True by reflexivity; reflexivity]|]].
    2: cbn [g]; split; [lia|right; apply pushed_in; auto].
    destruct (Hen p' k Hk) as (Hkn & t' & Et' & Hle & Hw). split; [exact Hkn|]. destruct (decide (k = j)) as [->|Hne].
    + eexists. split; [etransitivity; [exact (Hs1 j)|rewrite decide_True by reflexivity; reflexivity]|]. cbn [g]. destruct (Hold p' Hk).
      split; [lia|right; apply pushed_in; auto].
    + exists t'. split; [etransitivity; [exact (Hs1 k)|rewrite decide_False by exact Hne; exact Et']|]. split; [exact Hle|].
      destruct Hw as [|Hw]; [auto|right; apply pushed_in; auto].
  - split; [exact Ho1|exact Ho2].
  - intros p'. cbn [SbplSlidingSpec.pushed SbplSlidingSpec.line SbplSlidingSpec.first]. unfold upd. case_decide as E; [|exact (Hnd p')]. subst p'.
    rewrite app_assoc. apply NoDup_app. split; [exact (Hnd p)|]. split; [|apply NoDup_singleton]. intros k Hk Hkj%list_elem_of_singleton. subst k.
    apply elem_of_app in Hk as [Hk|Hk].
    + destruct (_ =? _); [|inversion Hk]. destruct (Ho2 j Hk). congruence.
    + destruct (Hold p Hk). congruence.
Qed.

Lemma the_list_ok s c : OPEN2DBLIST_ s = Some c -> the_list s = Ok c.
Proof using Type. unfold the_list. intros ->. reflexivity. Qed.

(** An exception is thrown only for a list that is too small. *)
Definition outcome {A} (c : SbplSliding.CSlidingBucket) (r : res A) (P : A -> Prop) : Prop :=
  match r with Ok a => P a | Err e => e = Thrown /\ ~ fits c end.

Lemma fits_same c c' : same_size c c' -> fits c <-> fits c'.
Proof using Type. intros [E1 E2]. unfold fits. rewrite E1, E2. reflexivity. Qed.

Lemma list_successor_ok i e dir dirs s pb c q out ps : 0 <= i < N -> 0 <= dir < NUMOF2DDIRS -> state_at s i = Ok e ->
  listing i (omap (arc i) (dir :: dirs)) s pb c q out -> closed (view_of s pb (waits pb q)) i = true -> g e = SbplSlidingSpec.first q -> sized q ps ->
  outcome c (list_successor Grid2D thresh i (col H i) (row H i) (cell Grid2D (col H i) (row H i)) pb s dir) (fun s' => exists c' q' ps',
    listing i (omap (arc i) dirs) s' pb c' q' out /\ sized q' ps' /\ Z.of_nat (length ps') <= Z.of_nat (length ps) + 1 /\ state_at s' i = Ok e /\
    SbplSlidingSpec.first q' = SbplSlidingSpec.first q /\ from s s' /\ same_size c c').
Proof using M.
  intros Hi Hd Ee L Hcl Hge Hz. pose proof L as [T Hl HR Hgo Hpb Hg Hen Ho Hnd]. unfold list_successor.
  rewrite (neighbor_ok _ _ _ _ _ _ M s pb i dir (td_map _ _ _ _ T) Hpb Hi Hd), bind_ok_l. cbn [omap list_omap] in Hg, L.
  set (w := view_of s pb (waits pb q)) in *. pose proof (arcs_nonneg _ _ _ _ _ _ M) as Hcost.
  assert (Hsame : good arcs root i (omap (arc i) dirs) w -> outcome c (Ok s) (fun s' => exists c' q' ps',
    listing i (omap (arc i) dirs) s' pb c' q' out /\ sized q' ps' /\ Z.of_nat (length ps') <= Z.of_nat (length ps) + 1 /\ state_at s' i = Ok e /\
    SbplSlidingSpec.first q' = SbplSlidingSpec.first q /\ from s s' /\ same_size c c')).
  { intros Hg'. exists c, q, ps. split; [split; assumption|]. split; [exact Hz|]. split; [lia|]. split; [exact Ee|]. split; [reflexivity|].
    split; [apply from_refl|split; reflexivity]. }
  destruct (arc i dir) as [[j k]|] eqn:Ea; [|apply Hsame, Hg].
  destruct (arc_bounds _ _ _ _ _ _ M i dir j k Hi Hd Ea) as [Hj Hc]. pose proof (arc_thresh i dir j k Hi Hd Ea) as Hct.
  assert (Hin : (j, k) ∈ arcs i) by (apply arcs_in; eauto).
  destruct (view_at W H s pb (waits pb q) i e Ee) as [_ Hgi]. fold w in Hgi.
  destruct (gd_closed _ _ _ _ _ Hg i Hcl) as [Hai _]. pose proof (gd_walk _ _ _ _ _ Hg i Hai) as [Hgb _]. rewrite Hgi in Hgb.
  assert (Hcj : closed w j = closed_at pb j) by (cbn; rewrite bool_decide_eq_true_2 by exact Hj; reflexivity).
  destruct (closed_at pb j) eqn:Ecj; [apply Hsame, (skip_good arcs root Hcost w i j k _ Hg Hcl Hin); auto|].
  destruct (state_in W H ds s j T Hj) as [t Et]. destruct (view_at W H s pb (waits pb q) j t Et) as [Hat Hgt]. fold w in Hat, Hgt.
  pose proof (relax_state _ _ _ _ _ _ M s i j k t e T Hj Et Ee Hc Hgb) as Hrel. destruct (negb _ || _) eqn:Eb.
  2:{ rewrite Hrel, bind_ok_l. apply orb_false_iff in Eb as [E1%negb_false_iff E2%Z.ltb_ge].
    apply Hsame, (skip_good arcs root Hcost w i j k _ Hg Hcl Hin). right. rewrite Hat, Hgt, Hgi. split; [exact E1|lia]. }
  destruct Hrel as (s1 & -> & T1 & F1 & _ & El1 & _ & Hs1). rewrite bind_ok_l.
  pose proof (Hs1 j) as Ej. rewrite decide_True in Ej by reflexivity. rewrite Ej, bind_ok_l. cbn [g].
  rewrite (the_list_ok s1 c) by congruence. rewrite bind_ok_l. set (p := Z.min INF (k + g e)) in *.
  pose proof (SbplSlidingSpec.fr_num _ _ (SbplSlidingSpec.rp_frame _ _ HR)) as [_ Hnum].
  assert (Hp : 0 <= p <= INT_MAX - SbplSliding.numofbuckets c) by (unfold p, INF, INT_MAX, int32 in *; cbn [int_max] in *; lia).
  pose proof (SbplSlidingSpec.sliding_insert_ok j p c q HR Hp) as Hins. pose proof (used_small _ _ _ _ _ _ _ p L) as Hused.
  destruct (_ || _) eqn:Et' in Hins.
  { rewrite Hins. split; [reflexivity|]. intros [Hf1 Hf2]. rewrite !orb_true_iff, Z.ltb_lt, !Z.leb_le in Et'. unfold p in *. lia. }
  destruct Hins as (c' & -> & R' & Es). rewrite bind_ok_l. exists c', (SbplSlidingSpec.pushed j p q), (p :: ps).
  split; [|split; [apply pushed_sized, Hz|split; [cbn [length]; lia|split; [|split; [reflexivity|split; [eapply from_trans; [exact F1|apply from_list]|exact Es]]]]]].
  - apply (push_listing i j k _ s s1 pb c q out t e p c' L Hcl Hin Hj Ecj Et Ee Hgb); try assumption; [|reflexivity].
    fold w. rewrite Hat. intros E. apply orb_true_iff in Eb as [Eb|Eb%Z.ltb_lt]; [rewrite E in Eb; discriminate|exact Eb].
  - transitivity (state_at s1 i); [reflexivity|]. rewrite Hs1, decide_False; [exact Ee|]. intros <-. congruence.
Qed.

Lemma list_successors_ok i e pb out dirs : forall s c q ps, 0 <= i < N -> Forall (fun dir => 0 <= dir < NUMOF2DDIRS) dirs -> state_at s i = Ok e ->
  listing i (omap (arc i) dirs) s pb c q out -> closed (view_of s pb (waits pb q)) i = true -> g e = SbplSlidingSpec.first q -> sized q ps ->
  outcome c (foldM (list_successor Grid2D thresh i (col H i) (row H i) (cell Grid2D (col H i) (row H i)) pb) s dirs) (fun s' => exists c' q' ps',
    listing i [] s' pb c' q' out /\ sized q' ps' /\ Z.of_nat (length ps') <= Z.of_nat (length ps) + Z.of_nat (length dirs) /\ from s s' /\ same_size c c').
Proof using M.
  induction dirs as [|dir dirs IH]; intros s c q ps Hi Hd Ee L Hcl Hge Hz; cbn [foldM].
  - exists c, q, ps. split; [exact L|]. split; [exact Hz|]. split; [lia|]. split; [apply from_refl|split; reflexivity].
  - apply Forall_cons in Hd as [Hd1 Hd]. pose proof (list_successor_ok i e dir dirs s pb c q out ps Hi Hd1 Ee L Hcl Hge Hz) as Hs.
    destruct (list_successor _ _ _ _ _ _ _ s dir) as [s1|er]; [|exact Hs]. destruct Hs as (c1 & q1 & ps1 & L1 & Hz1 & Hn1 & Ee1 & Hf1 & F1 & Ss1).
    rewrite bind_ok_l. specialize (IH s1 c1 q1 ps1 Hi Hd Ee1 L1 Hcl ltac:(congruence) Hz1).
    destruct (foldM _ s1 dirs) as [s'|er]; [|destruct IH as [-> Hf]; split; [reflexivity|rewrite (fits_same _ _ Ss1); exact Hf]].
    destruct IH as (c' & q' & ps' & L' & Hz' & Hn' & F' & Ss'). exists c', q', ps'. split; [exact L'|]. split; [exact Hz'|].
    split; [cbn [length]; lia|]. split; [exact (from_trans _ _ _ F1 F')|]. destruct Ss1, Ss'. split; congruence.
Qed.

(** What was popped from the line of the first priority. *)
Definition popped_out (p i : Z) (l out : list Z) (q : SbplSlidingSpec.queue) : list Z :=
  if bool_decide (l = []) then [] else if p =? SbplSlidingSpec.first q then out ++ [i] else [i].

Lemma popped_nodup p i l out q : SbplSlidingSpec.line q p = i :: l ->
  (forall p', NoDup ((if p' =? SbplSlidingSpec.first q then out else []) ++ SbplSlidingSpec.line q p')) ->
  forall p', NoDup ((if p' =? SbplSlidingSpec.first (SbplSlidingSpec.popped p l q) then popped_out p i l out q else []) ++
    SbplSlidingSpec.line (SbplSlidingSpec.popped p l q) p').
Proof using Type.
  intros El Hnd p'. cbn [SbplSlidingSpec.popped SbplSlidingSpec.first SbplSlidingSpec.line]. unfold upd, popped_out.
  destruct (decide (p' = p)) as [->|Hne].
  - rewrite Z.eqb_refl. pose proof (Hnd p) as Hp. rewrite El in Hp. case_bool_decide as E; [subst l; constructor|].
    destruct (p =? SbplSlidingSpec.first q); [rewrite <- app_assoc|]; exact Hp.
  - rewrite (proj2 (Z.eqb_neq _ _)) by exact Hne. specialize (Hnd p'). apply NoDup_app in Hnd as (_ & _ & Hn). exact Hn.
Qed.

Lemma popped_gone p i l out q : Z.of_nat (length out) = SbplSlidingSpec.gone q ->
  Z.of_nat (length (popped_out p i l out q)) = SbplSlidingSpec.gone (SbplSlidingSpec.popped p l q).
Proof using Type.
  intros Ho. cbn. unfold popped_out. case_bool_decide; [reflexivity|]. destruct (_ =? _); [rewrite length_app; cbn [length]; lia|reflexivity].
Qed.

Lemma popped_closed p i l out q k : k ∈ popped_out p i l out q -> k ∈ out \/ k = i.
Proof using Type.
  unfold popped_out. case_bool_decide; [intros Hk; inversion Hk|]. destruct (_ =? _); rewrite ?elem_of_app, list_elem_of_singleton; tauto.
Qed.

(** The closed states stay the same but for [i]; a state that is not closed
    waits as before. *)
Lemma popped_waits pb pb' p i l q k : SbplSlidingSpec.line q p = i :: l -> (closed_at pb' k = false -> closed_at pb k = false /\ k <> i) ->
  (closed_at pb k = false -> k <> i -> closed_at pb' k = false) ->
  waits pb' (SbplSlidingSpec.popped p l q) k <-> waits pb q k /\ k <> i.
Proof using Type.
  intros El H1 H2. unfold waits. split.
  - intros [[p' Hk] Hc]. destruct (H1 Hc) as [Hc' Hne]. split; [|exact Hne]. split; [|exact Hc']. exists p'. exact (popped_in p l q k p' i El Hk).
  - intros [[[p' Hk] Hc] Hne]. split; [|exact (H2 Hc Hne)]. exists p'. exact (popped_keeps p l q k p' i El Hne Hk).
Qed.

Lemma pop_listing u s pb c q out p i l c' pb' u' todo : listing u [] s pb c q out -> SbplSlidingSpec.line q p = i :: l ->
  SbplSlidingSpec.rep c' (SbplSlidingSpec.popped p l q) -> Z.of_nat (length pb') = N ->
  closed_at pb' i = true -> (forall k, 0 <= k < N -> k <> i -> closed_at pb' k = closed_at pb k) ->
  good arcs root u' todo (view_of (set_list (Some c') s) pb' (waits pb' (SbplSlidingSpec.popped p l q))) ->
  listing u' todo (set_list (Some c') s) pb' c' (SbplSlidingSpec.popped p l q) (popped_out p i l out q).
Proof using Type.
  intros L El R' Hpb' Hci Hck Hg'. destruct L as [T Hl HR Hgo Hpb Hg Hen [Ho1 Ho2] Hnd].
  split; try assumption; [apply tidy_list, T|reflexivity|..].
  - intros p' k Hk%(popped_in _ _ _ _ _ _ El). destruct (Hen p' k Hk) as (Hkn & t & Et & Hle & Hw). split; [exact Hkn|]. exists t. split; [exact Et|].
    split; [exact Hle|]. destruct (decide (k = i)) as [->|Hne]; [left; exact Hci|]. rewrite (Hck k Hkn Hne).
    destruct Hw as [|Hw]; [auto|right; exact (popped_keeps p l q k _ i El Hne Hw)].
  - split; [exact (popped_gone p i l out q Ho1)|]. intros k [Hk| ->]%popped_closed.
    + destruct (Ho2 k Hk) as [Hkn Hc]. split; [exact Hkn|]. destruct (decide (k = i)) as [->|Hne]; [exact Hci|]. rewrite (Hck k Hkn Hne). exact Hc.
    + split; [|exact Hci]. apply (Hen p i). rewrite El. left.
  - exact (popped_nodup p i l out q El Hnd).
Qed.

(** The first state of the least priority is closed already, or has this [g]. *)
Lemma pop_ok u s pb c q out p i l c' : listing u [] s pb c q out -> SbplSlidingSpec.front q p i l ->
  SbplSlidingSpec.rep c' (SbplSlidingSpec.popped p l q) -> exists e, state_at s i = Ok e /\ 0 <= i < N /\ aget pb (col H i + W * row H i) = Ok (closed_at pb i) /\
  if closed_at pb i then listing u [] (set_list (Some c') s) pb c' (SbplSlidingSpec.popped p l q) (popped_out p i l out q)
  else g e = p /\ exists pb', aset pb (col H i + W * row H i) true = Ok pb' /\
    listing i (arcs i) (set_list (Some c') s) pb' c' (SbplSlidingSpec.popped p l q) (popped_out p i l out q) /\
    forall j, closed (view_of (set_list (Some c') s) pb' (waits pb' (SbplSlidingSpec.popped p l q))) j =
      if decide (j = i) then true else closed (view_of s pb (waits pb q)) j.
Proof using M.
  intros L [El Hmin] R'. pose proof L as [T Hl HR Hgo Hpb Hg Hen Ho Hnd].
  destruct (Hen p i ltac:(rewrite El; left)) as (Hi & e & Ee & Hle & Hw). exists e. split; [exact Ee|]. split; [exact Hi|].
  destruct (inside_index _ _ _ _ _ _ M i Hi) as [Hin _]. pose proof (mp_height _ _ _ _ _ _ M).
  destruct (aget_in pb (col H i + W * row H i)) as [b Hb]; [rewrite Hpb; destruct Hin; nia|].
  split; [unfold SbplGrid2DSpec.closed_at; rewrite (aview_get _ _ _ _ _ Hb); exact Hb|].
  destruct (closed_at pb i) eqn:Ec.
  - apply (pop_listing u s pb c q out p i l c' pb u [] L El R' Hpb Ec); [reflexivity|].
    apply (good_waiting arcs root u [] (view_of s pb (waits pb q)) _ Hg); try reflexivity. intros k.
    refine (iff_trans (popped_waits pb pb p i l q k El _ _) _); [intros Hk; split; [exact Hk|congruence]|auto|].
    split; [intros [? ?]; assumption|]. intros [Hk Hc]. split; [split; assumption|congruence].
  - assert (Hgp : g e = p).
    { destruct Hw as [|Hw]; [discriminate|]. destruct (decide (g e < p)) as [Hlt|]; [|lia]. rewrite (Hmin _ Hlt) in Hw. inversion Hw. }
    split; [exact Hgp|]. destruct (close_ok _ _ _ _ _ _ M pb i Hpb Hi) as (pb' & Ep & Hpb' & Hcl). exists pb'. split; [exact Ep|].
    assert (Hci : closed_at pb' i = true).
    { specialize (Hcl i). rewrite decide_True, bool_decide_eq_true_2 in Hcl by (reflexivity || exact Hi). exact Hcl. }
    assert (Hck : forall k, 0 <= k < N -> k <> i -> closed_at pb' k = closed_at pb k).
    { intros k Hk Hne. specialize (Hcl k). rewrite decide_False, bool_decide_eq_true_2 in Hcl by assumption. exact Hcl. }
    split; [|exact Hcl]. apply (pop_listing u s pb c q out p i l c' pb' i (arcs i) L El R' Hpb' Hci Hck).
    refine (closing_good arcs root (fun _ => 0) (arcs_nonneg _ _ _ _ _ _ M) _ u (view_of s pb (waits pb q)) _ i Hg _ _ _).
    + intros a b' d Hd. pose proof (arcs_nonneg _ _ _ _ _ _ M a b' d Hd). lia.
    + split; [exists p; rewrite El; left|exact Ec].
    + intros j [[p' Hj] Hjc]. destruct (Hen p' j Hj) as (_ & t & Et & _ & Hwj). destruct Hwj as [|Hwj]; [congruence|].
      destruct (view_at W H s pb (waits pb q) i e Ee) as [_ ->]. destruct (view_at W H s pb (waits pb q) j t Et) as [_ ->].
      destruct (decide (g t < p)) as [Hlt|]; [|lia]. rewrite (Hmin _ Hlt) in Hwj. inversion Hwj.
    + split; [reflexivity|]. split; [reflexivity|]. split; [exact Hcl|]. intros k. cbn [waiting view_of].
      destruct (decide (0 <= k < N)) as [Hk|Hk].
      * apply (popped_waits pb pb' p i l q k El).
        -- intros Hc. destruct (decide (k = i)) as [->|Hne]; [congruence|]. rewrite <- (Hck k Hk Hne). auto.
        -- intros Hc Hne. rewrite (Hck k Hk Hne). exact Hc.
      * split; [intros [[p' Hk'%(popped_in _ _ _ _ _ _ El)] _]|intros [[[p' Hk'] _] _]]; destruct (Hen p' k Hk'); contradiction.
Qed.

(** The loop ends because nothing is left or the rest is not worthwhile. *)
Definition list_stopped (s : GridSearch) (q : SbplSlidingSpec.queue) : Prop :=
  (forall p, SbplSlidingSpec.line q p = []) \/
  exists t k, state_at s goal = Ok t /\ 0 <= k <= INT_MAX /\ worthwhile (term_condition_usedlast s) (g t) k = false.

(** The loop from [s] with the list [c] has ended in a state. *)
Definition ended (s : GridSearch) (c : SbplSliding.CSlidingBucket) (s' : GridSearch) : Prop := exists u' pb' c' q' out',
  listing u' [] s' pb' c' q' out' /\ list_stopped s' q' /\ from s s' /\ same_size c c'.

Lemma ended_from s c c1 s1 r : same_size c c1 -> from s s1 -> outcome c1 r (ended s1 c1) -> outcome c r (ended s c).
Proof using Type.
  intros Ss F. destruct r as [s'|er]; [|intros [-> Hn]; split; [reflexivity|rewrite (fits_same _ _ Ss); exact Hn]].
  intros (u' & pb' & c' & q' & out' & H1 & H2 & H3 & H4). exists u', pb', c', q', out'. split; [exact H1|]. split; [exact H2|].
  split; [exact (from_trans _ _ _ F H3)|]. destruct Ss, H4. split; congruence.
Qed.

Context (Hgoal : 0 <= goal < N).

Lemma list_loop_ok fuel : forall u s pb c q out ps cl, listing u [] s pb c q out -> sized q ps -> NoDup cl ->
  (forall i, i ∈ cl -> 0 <= i < N /\ closed_at pb i = true) ->
  Z.of_nat (length ps) + 16 * (N - Z.of_nat (length cl)) < Z.of_nat fuel ->
  outcome c (list_loop Grid2D thresh fuel goal pb s) (ended s c).
Proof using M Hgoal.
  induction fuel as [|fuel IH]; intros u s pb c q out ps cl L Hz Hnd Hcl Hf.
  { pose proof (NoDup_range_length cl N Hnd (fun i Hi => proj1 (Hcl i Hi))). lia. }
  pose proof L as [T Hl HR Hgo Hpb Hg Hen Ho Hndq]. cbn [list_loop]. rewrite (the_list_ok s c Hl), bind_ok_l.
  assert (Hstop : list_stopped s q -> outcome c (Ok s) (ended s c)).
  { intros Hs. exists u, pb, c, q, out. split; [exact L|]. split; [exact Hs|]. split; [apply from_refl|split; reflexivity]. }
  destruct (SbplSliding.empty c) eqn:He.
  { rewrite bind_ok_l. apply Hstop. left. apply (SbplSlidingSpec.empty_ok _ _ HR), He. }
  destruct (state_in W H ds s goal T Hgoal) as [tg Etg]. rewrite Etg, !bind_ok_l.
  destruct (worthwhile _ _ _) eqn:Ew.
  2:{ apply Hstop. right. exists tg, (SbplSliding.getminkey c). split; [exact Etg|]. split; [|exact Ew].
    pose proof (SbplSlidingSpec.rp_frame _ _ HR) as [_ _ _ _ Hm _ Hi _ _ _ _ _]. unfold SbplSliding.getminkey. lia. }
  destruct (SbplSlidingSpec.popminelement_ok c q HR He) as (p & i & l & c1 & Hfr & Ep & R1 & Ss1). rewrite Ep, bind_ok_l.
  destruct (pop_ok u s pb c q out p i l c1 L Hfr R1) as (e & Ee & Hi & Eg & Hpop).
  destruct (popped_sized p i l q ps Hz (proj1 Hfr)) as (ps1 & Hps & Hz1).
  set (s1 := set_list (Some c1) s) in *. change (state_at s1 i) with (state_at s i). rewrite Ee, bind_ok_l.
  destruct (td_xy _ _ _ _ T i e Ee) as [Ex Ey]. change (width_ s1) with (width_ s). rewrite (om_width _ _ _ _ (td_map _ _ _ _ T)), Ex, Ey, Eg, bind_ok_l.
  destruct (closed_at pb i) eqn:Eci.
  - apply (ended_from s c c1 s1 _ Ss1 (from_list _ _)). specialize (IH u s1 pb c1 _ _ ps1 cl Hpop Hz1 Hnd Hcl ltac:(lia)).
    exact IH.
  - destruct Hpop as (Hgp & pb1 & Epb & L1 & Hcl1). rewrite Epb, bind_ok_l.
    destruct (inside_index _ _ _ _ _ _ M i Hi) as [Hin _]. rewrite (grid_cell_ok _ _ _ _ _ _ M _ _ Hin), bind_ok_l.
    assert (Hci : closed (view_of s1 pb1 (waits pb1 (SbplSlidingSpec.popped p l q))) i = true) by (rewrite Hcl1, decide_True; reflexivity).
    pose proof (list_successors_ok i e pb1 _ (seqZ 0 NUMOF2DDIRS) s1 c1 _ ps1 Hi ltac:(apply Forall_forall; intros dir Hdir%elem_of_seqZ; lia) Ee L1 Hci Hgp Hz1) as Hs.
    apply (ended_from s c c1 s1 _ Ss1 (from_list _ _)). destruct (foldM _ s1 _) as [s2|er]; [|exact Hs]. destruct Hs as (c2 & q2 & ps2 & L2 & Hz2 & Hn2 & F2 & Ss2). rewrite bind_ok_l.
    rewrite length_seqZ in Hn2. change (Z.of_nat (Z.to_nat NUMOF2DDIRS)) with 16 in Hn2.
    assert (Hcm : forall k, 0 <= k < N -> k = i \/ closed_at pb k = true -> closed_at pb1 k = true).
    { intros k Hk Hor. specialize (Hcl1 k). cbn in Hcl1. rewrite bool_decide_eq_true_2 in Hcl1 by exact Hk. cbn [andb] in Hcl1. rewrite Hcl1.
      case_decide; [reflexivity|]. destruct Hor; [contradiction|assumption]. }
    specialize (IH i s2 pb1 c2 q2 _ ps2 (i :: cl) L2 Hz2). refine ((fun X => _) (IH _ _ _)).
    + exact (ended_from s1 c1 c2 s2 _ Ss2 F2 X).
    + constructor; [|exact Hnd]. intros Hin'. destruct (Hcl i Hin'). congruence.
    + intros k Hk. assert (Hkn : 0 <= k < N) by (apply elem_of_cons in Hk as [->|Hk]; [exact Hi|apply Hcl, Hk]). split; [exact Hkn|].
      apply (Hcm k Hkn). apply elem_of_cons in Hk as [->|Hk]; [auto|right; apply Hcl, Hk].
    + cbn [length]. lia.
Qed.
End list.

(** ** The whole search *)

Section search.
Context (W H : Z) (Grid2D : list (list Z)) (thresh : Z) (ds : list Z) (Dmax : Z) (M : map_ok W H Grid2D thresh ds Dmax).

#[local] Abbreviation N := (W * H).
#[local] Abbreviation arcs := (SbplGrid2DSpec.arcs W H Grid2D thresh ds).
#[local] Abbreviation searched := (searched W H Grid2D thresh ds).
#[local] Abbreviation complete := (complete W H Grid2D thresh ds).

(** A search object with sliding buckets. *)
Record list_ready (s : GridSearch) : Prop := {
  lr_tidy : tidy W H ds s;
  lr_iter : 0 <= iteration_ s;
  lr_list : exists c q, OPEN2DBLIST_ s = Some c /\ SbplSlidingSpec.rep c q;
}.

Context (sx sy gx gy : Z) (Hs : inside W H sx sy) (Hg : inside W H gx gy) (h : Z -> Z) (Hmax : Z).
Context (Hh : forall i, 0 <= h i <= Hmax) (HhM : Hmax + INF <= INT_MAX).

#[local] Abbreviation root := (index H sx sy).
#[local] Abbreviation goal := (index H gx gy).

(** The state of the loop when it starts: the start is the one entry. *)
Lemma list_start t s c q : list_ready s -> OPEN2DBLIST_ s = Some c -> SbplSlidingSpec.rep c q ->
  exists c1 s1, SbplSliding.reset c = Ok c1 /\ same_size c c1 /\ OPEN2DBLIST_ s1 = Some c1 /\
    seed sx sy gx gy (set_list (Some c1) (called sx sy gx gy t s)) = Ok (root, goal, s1) /\ from (called sx sy gx gy t s) s1 /\
    outcome W H thresh Dmax c (SbplSliding.insert root 0 c1) (fun c2 => same_size c c2 /\ exists q2,
      listing W H Grid2D thresh ds root goal root [] (set_list (Some c2) s1) (replicate (Z.to_nat N) false) c2 q2 [] /\ sized q2 [0]).
Proof using M Hs Hg.
  intros R Hc HR. destruct (SbplSlidingSpec.reset_ok c q HR) as (c1 & E1 & R1 & Ss1). exists c1.
  pose proof (tidy_list W H ds _ (Some c1) (tidy_called W H ds sx sy gx gy t s (lr_tidy _ R))) as T1.
  destruct (seed_ok _ _ _ _ _ _ M _ sx sy gx gy T1 (fresh_called W H ds sx sy gx gy t s (lr_tidy _ R)) Hs Hg) as (s1 & E2 & T2 & F2 & _ & O2 & _ & (tr & Er & Gr) & Hgo & Hgood).
  exists s1. split; [exact E1|]. split; [exact Ss1|]. split; [exact O2|]. split; [exact E2|].
  split; [eapply from_trans; [apply from_list|exact F2]|].
  pose proof (SbplSlidingSpec.fr_num _ _ (SbplSlidingSpec.rp_frame _ _ R1)) as [Hn0 Hn1]. pose proof (SbplSlidingSpec.fr_size _ _ (SbplSlidingSpec.rp_frame _ _ R1)) as Hsz.
  pose proof (SbplSlidingSpec.sliding_insert_ok root 0 c1 _ R1 ltac:(unfold INT_MAX, int32 in *; cbn [int_max] in *; lia)) as Hins.
  unfold SbplSlidingSpec.used in Hins. cbn [SbplSlidingSpec.new_queue SbplSlidingSpec.first SbplSlidingSpec.gone SbplSlidingSpec.line length] in Hins.
  rewrite Z.ltb_irrefl, !(proj2 (Z.leb_gt _ _)) in Hins by (cbn; lia). cbn [orb] in Hins. destruct Hins as (c2 & -> & R2 & Ss2).
  split; [destruct Ss1, Ss2; split; congruence|].
  assert (Hline : forall p i, i ∈ SbplSlidingSpec.line (SbplSlidingSpec.pushed root 0 SbplSlidingSpec.new_queue) p <-> i = root /\ p = 0).
  { intros p i. rewrite pushed_in. cbn. split; [intros [Hin|]; [inversion Hin|assumption]|auto]. }
  exists (SbplSlidingSpec.pushed root 0 SbplSlidingSpec.new_queue). split; [|apply (pushed_sized root 0 SbplSlidingSpec.new_queue []); intros p; reflexivity].
  assert (Hbl : forall i, closed_at W H (replicate (Z.to_nat N) false) i = false) by (intros i; apply blank_mark).
  split.
  - apply tidy_list, T2.
  - reflexivity.
  - exact R2.
  - exact Hgo.
  - rewrite length_replicate. pose proof (index_bounds _ _ _ _ _ _ M _ _ Hs). lia.
  - apply Hgood.
    + intros i. cbn. rewrite Hbl. apply andb_false_r.
    + intros i. unfold waits. rewrite Hbl. setoid_rewrite Hline. split; [intros [[p [-> _]] _]; reflexivity|intros ->; split; [exists 0; auto|reflexivity]].
  - intros p i [-> ->]%Hline. split; [exact (index_bounds _ _ _ _ _ _ M _ _ Hs)|]. exists tr. split; [exact Er|]. rewrite Gr. split; [lia|right; apply Hline; auto].
  - split; [reflexivity|]. intros i Hi. inversion Hi.
  - intros p. destruct (_ =? _); cbn; unfold upd; case_decide; cbn; try apply NoDup_singleton; apply NoDup_nil_2.
Qed.

(** The least [g] left in the list. *)
Lemma list_least u s pb c q out p i l : listing W H Grid2D thresh ds root goal u [] s pb c q out -> SbplSlidingSpec.front q p i l ->
  exists t, state_at s i = Ok t /\ 0 <= g t <= INF /\ forall j, waits W H pb q j -> g t <= G (view_of W H s pb (waits W H pb q)) j.
Proof using Type.
  intros L [El Hmin]. pose proof (ls_good _ _ _ _ _ _ _ _ _ _ _ _ _ _ L) as Hgd. destruct (ls_entry _ _ _ _ _ _ _ _ _ _ _ _ _ _ L p i ltac:(rewrite El; left)) as (Hi & t & Et & Hle & Hw).
  exists t. split; [exact Et|]. destruct (view_at W H s pb (waits W H pb q) i t Et) as [_ Hgt]. split.
  - rewrite <- Hgt. apply (gd_walk _ _ _ _ _ Hgd). destruct (closed_at W H pb i) eqn:Ec.
    + apply (gd_closed _ _ _ _ _ Hgd). cbn. rewrite bool_decide_eq_true_2 by exact Hi. exact Ec.
    + apply (gd_waiting _ _ _ _ _ Hgd). split; [exists p; rewrite El; left|exact Ec].
  - intros j [[p' Hj] Hc]. destruct (ls_entry _ _ _ _ _ _ _ _ _ _ _ _ _ _ L p' j Hj) as (_ & tj & Etj & _ & [Hcj|Hwj]); [congruence|].
    destruct (view_at W H s pb (waits W H pb q) j tj Etj) as [_ ->]. destruct (decide (g tj < p)) as [Hlt|]; [|lia]. rewrite (Hmin _ Hlt) in Hwj. inversion Hwj.
Qed.

Definition list_result (t : TERM_CONDITION) (s : GridSearch) (c : SbplSliding.CSlidingBucket) (r : bool * GridSearch) : Prop :=
  exists s' c', r = (true, s') /\ searched root h Hmax (complete root goal t) s' /\ list_ready s' /\ OPEN2DBLIST_ s' = Some c' /\ same_size c c' /\
    iteration_ s' = iteration_ s + 1 /\ OPENtype_ s' = OPENtype_ s /\ cellSize_m_ s' = cellSize_m_ s.

(** What the answers need, from the end of the loop. *)
Lemma list_finish t s s3 c c3 c4 u pb q out f : listing W H Grid2D thresh ds root goal u [] s3 pb c3 q out -> 0 <= iteration_ s ->
  from (called sx sy gx gy t s) s3 -> heur_at W H h (called sx sy gx gy t s) -> SbplSlidingSpec.rep c4 q -> same_size c c4 ->
  0 <= f <= INF -> (forall j, waits W H pb q j -> f <= G (view_of W H s3 pb (waits W H pb q)) j) ->
  (complete root goal t -> f = INF /\ forall p, SbplSlidingSpec.line q p = []) ->
  list_result t s c (true, set_largest f (set_list (Some c4) s3)).
Proof using Hh HhM.
  intros L Hit Fs Hu R4 Ss Hf1 Hf2 Hf3. pose proof (ls_tidy _ _ _ _ _ _ _ _ _ _ _ _ _ _ L) as T3.
  exists (set_largest f (set_list (Some c4) s3)), c4. split; [reflexivity|]. split; [|split; [|split; [reflexivity|split; [exact Ss|destruct Fs as (? & ? & ? & ? & ->); auto]]]].
  - split.
    + destruct T3 as [[] ? ? ?]. split; [split|..]; assumption.
    + destruct Fs as (? & ? & ? & ? & ->). exact Hu.
    + auto.
    + cbn. unfold INF, INT_MAX, int32 in *; cbn [int_max] in *. lia.
    + cbn. lia.
    + exists u, (view_of W H s3 pb (waits W H pb q)). split; [exact (ls_good _ _ _ _ _ _ _ _ _ _ _ _ _ _ L)|].
      split; [intros i v Hv; exact (view_at W H s3 pb _ i v Hv)|]. split.
      * intros i Hi. cbn [largestcomputedoptf_ set_largest]. pose proof (Hf2 i Hi). pose proof (Hh i). lia.
      * intros Hc. destruct (Hf3 Hc) as [-> Hn]. split; [reflexivity|]. intros i [[p Hi] _]. rewrite Hn in Hi. inversion Hi.
  - split.
    + destruct T3 as [[] ? ? ?]. split; [split|..]; assumption.
    + destruct Fs as (? & ? & ? & ? & ->). cbn. lia.
    + exists c4, q. split; [reflexivity|exact R4].
Qed.

Lemma stopped_empty t s s3 u pb c3 q out : listing W H Grid2D thresh ds root goal u [] s3 pb c3 q out -> from (called sx sy gx gy t s) s3 ->
  list_stopped goal s3 q -> complete root goal t -> forall p, SbplSlidingSpec.line q p = [].
Proof using M.
  intros L Fs [Hn|(v & k & Ev & Hk & Hw)] Hc; [exact Hn|]. exfalso. revert Hw.
  assert (Et : term_condition_usedlast s3 = ALLCELLS) by (destruct Fs as (? & ? & ? & ? & ->); apply Hc). rewrite Et.
  destruct (view_at W H s3 pb (waits W H pb q) goal v Ev) as [Ha HG]. rewrite (ls_goal _ _ _ _ _ _ _ _ _ _ _ _ _ _ L v Ev), Z.eqb_refl in Ha.
  destruct (gd_walk _ _ _ _ _ (ls_good _ _ _ _ _ _ _ _ _ _ _ _ _ _ L) goal Ha) as [Hb Hw]. rewrite HG in Hb, Hw.
  assert (0 < g v).
  { destruct (decide (g v < INF)) as [Hlt|]; [specialize (Hw Hlt); apply (complete_positive _ _ _ _ _ _ M _ _ t _ Hc) in Hw; lia|unfold INF in *; lia]. }
  rewrite allcells_worthwhile; [discriminate| |exact Hk]. unfold INF, INT_MAX, int32 in *; cbn [int_max] in *; lia.
Qed.

Lemma search_withslidingbuckets_ok t s c q : list_ready s -> OPEN2DBLIST_ s = Some c -> SbplSlidingSpec.rep c q -> iteration_ s < INT_MAX ->
  heur_at W H h (called sx sy gx gy t s) ->
  outcome W H thresh Dmax c (search_withslidingbuckets Grid2D thresh sx sy gx gy t s) (list_result t s c).
Proof using M Hs Hg Hh HhM.
  intros R Hc HR Hit Hu. pose proof (lr_iter _ R) as Hi0. assert (T0 : on_map W H ds (set_call (iteration_ s + 1) sx sy gx gy s)) by (destruct (td_map _ _ _ _ (lr_tidy _ R)); split; assumption).
  destruct (list_start t s c q R Hc HR) as (c1 & s1 & E1 & Ss1 & O1 & E2 & F1 & Hins).
  unfold search_withslidingbuckets. rewrite add_int_in by (unfold INT_MAX, int_min, int32 in *; cbn [int_max] in *; lia). rewrite bind_ok_l.
  rewrite !(withinMap_ok _ _ _ _ _ _ T0), !bool_decide_eq_true_2 by assumption. cbn [negb orb].
  rewrite (the_list_ok (set_call (iteration_ s + 1) sx sy gx gy s) c Hc), bind_ok_l, E1, bind_ok_l.
  change (set_condition t (set_list (Some c1) (set_call (iteration_ s + 1) sx sy gx gy s))) with (set_list (Some c1) (called sx sy gx gy t s)).
  rewrite E2, bind_ok_l, (the_list_ok _ _ O1), bind_ok_l. destruct (SbplSliding.insert root 0 c1) as [c2|er]; [|exact Hins]. rewrite bind_ok_l.
  destruct Hins as (Ss2 & q2 & L2 & Hz2). set (s2 := set_list (Some c2) s1) in *. pose proof (td_map _ _ _ _ (ls_tidy _ _ _ _ _ _ _ _ _ _ _ _ _ _ L2)) as O2.
  pose proof (mp_size _ _ _ _ _ _ M). pose proof (mp_width _ _ _ _ _ _ M). pose proof (mp_height _ _ _ _ _ _ M).
  pose proof (index_bounds _ _ _ _ _ _ M _ _ Hg) as Hgb. unfold list_fuel. rewrite (om_width _ _ _ _ O2), (om_height _ _ _ _ O2).
  rewrite mul_int_in by (unfold SbplHeap.HEAPSIZE, int_min, int32 in *; cbn [int_max]; nia). rewrite bind_ok_l.
  pose proof (list_loop_ok _ _ _ _ _ _ M root goal Hgb (S (S (Z.to_nat (N * NUMOF2DDIRS)))) root s2 _ c2 q2 [] [0] [] L2 Hz2 (NoDup_nil_2)
    ltac:(intros i Hi; inversion Hi) ltac:(cbn [length]; unfold NUMOF2DDIRS; nia)) as Hl.
  destruct (list_loop _ _ _ goal _ s2) as [s3|er]; [|destruct Hl as [-> Hn]; split; [reflexivity|rewrite (fits_same _ _ _ _ _ _ Ss2); exact Hn]].
  destruct Hl as (u & pb & c3 & q3 & out & L3 & Hst & F3 & Ss3). rewrite bind_ok_l.
  assert (Fs : from (called sx sy gx gy t s) s3) by (eapply from_trans; [exact F1|]; eapply from_trans; [apply from_list|exact F3]).
  assert (Ss : same_size c c3) by (destruct Ss2, Ss3; split; congruence).
  pose proof (ls_list _ _ _ _ _ _ _ _ _ _ _ _ _ _ L3) as O3. pose proof (ls_rep _ _ _ _ _ _ _ _ _ _ _ _ _ _ L3) as R3. rewrite (the_list_ok _ _ O3), bind_ok_l.
  pose proof (stopped_empty t s s3 u pb c3 q3 out L3 Fs Hst) as Hend. destruct (SbplSliding.empty c3) eqn:He.
  - assert (E : set_largest INFINITECOST s3 = set_largest INF (set_list (Some c3) s3)) by (rewrite <- O3; destruct s3; reflexivity). rewrite E.
    apply (list_finish t s s3 c c3 c3 u pb q3 out INF L3 Hi0 Fs Hu R3 Ss); [unfold INF; lia| |intros Hcm; split; [reflexivity|exact (Hend Hcm)]].
    intros j [[p Hj] _]. rewrite (proj1 (SbplSlidingSpec.empty_ok _ _ R3) He) in Hj. inversion Hj.
  - destruct (SbplSlidingSpec.getminelement_ok c3 q3 R3 He) as (i & l & c4 & -> & R4 & Hfr & _ & Ss4). rewrite bind_ok_l.
    destruct (list_least u s3 pb c3 q3 out _ i l L3 Hfr) as (v & Ev & Hv1 & Hv2). rewrite Ev, bind_ok_l.
    apply (list_finish t s s3 c c3 c4 u pb q3 out (g v) L3 Hi0 Fs Hu R4); [destruct Ss, Ss4; split; congruence|exact Hv1|exact Hv2|].
    intros Hcm. exfalso. destruct Hfr as [El _]. rewrite (Hend Hcm) in El. discriminate.
Qed.
End search.
End SbplGrid2DList.
