(* ===== verification/SbplGrid2DProps.v ===== *)
(** * The 2D grid search: set-up and guarantees (src/libsbpl: utils/2Dgridsearch.cpp)

    From the constructor to the answers, with a heap and with sliding buckets. *)

From S2P Require Import Prelude.
From S2P Require Import Doubles.
From S2P Require Import Floats.
From S2P Require Import FloatsSpec.
From S2P Require Import Keys.
From S2P Require Import SbplHeap.
From S2P Require Import SbplIntHeap.
From S2P Require Import SbplHeapSpec.
From S2P Require Import SbplHeapProps.
From S2P Require Import SbplSliding.
From S2P Require Import SbplSlidingSpec.
From S2P Require Import SbplGrid2D.
From S2P Require Import AraCore.
From S2P Require Import SbplGrid2DCore.
From S2P Require Import SbplGrid2DSpec.
From S2P Require Import SbplGrid2DStates.
From S2P Require Import SbplGrid2DHeap.
From S2P Require Import SbplGrid2DList.

Module SbplGrid2DProps.
Import Keys SbplGrid2D SbplGrid2DCore SbplGrid2DSpec SbplGrid2DStates SbplGrid2DHeap SbplGrid2DList.

(** ** Set-up *)

Lemma bind_join {A B} (f : A -> list B) l : l ≫= f = mjoin (f <$> l).
Proof. induction l as [|a l IH]; [reflexivity|]. cbn. f_equal. exact IH. Qed.

Definition column (iteration H x : Z) : list SearchState := y ← seqZ 0 H; [mkState x y INFINITECOST iteration].

Lemma column_fmap iteration H x : column iteration H x = (fun y => mkState x y INFINITECOST iteration) <$> seqZ 0 H.
Proof.
  unfold column. generalize (seqZ 0 H). intros l. induction l as [|y l IH]; [reflexivity|]. cbn. f_equal; try exact IH.
Qed.

Lemma create_lookup W H it i t : 0 <= W -> 0 < H -> createSearchStates2D W H it !! i = Some t <->
  (i < Z.to_nat (W * H))%nat /\ t = mkState (Z.of_nat i / H) (Z.of_nat i mod H) INFINITECOST it.
Proof.
  intros HW HH. unfold createSearchStates2D. change (fun x => y ← seqZ 0 H; [mkState x y INFINITECOST it]) with (column it H). rewrite bind_join.
  assert (Hc : forall x, length (column it H x) = Z.to_nat H) by (intros x; rewrite column_fmap, length_fmap, length_seqZ; reflexivity).
  rewrite (join_lookup_Some_same_length (Z.to_nat H)) by (apply Forall_fmap, Forall_forall; intros x _; apply Hc). split.
  - intros (j & l & k & Hl & Hk & ->). apply list_lookup_fmap_Some in Hl as (x & -> & [Hx1 Hx2]%lookup_seqZ).
    rewrite column_fmap in Hk. apply list_lookup_fmap_Some in Hk as (y & -> & [Hy1 Hy2]%lookup_seqZ). split; [nia|].
    replace (Z.of_nat (j * Z.to_nat H + k)) with (Z.of_nat j * H + Z.of_nat k) by nia. f_equal.
    + rewrite Z.div_add_l, Z.div_small by lia. lia.
    + rewrite Z.add_comm, Z_mod_plus_full, Z.mod_small by lia. lia.
  - intros [Hi ->]. pose proof (Z.div_mod (Z.of_nat i) H ltac:(lia)) as Hd. pose proof (Z.mod_pos_bound (Z.of_nat i) H HH) as Hm.
    pose proof (Z.div_lt_upper_bound (Z.of_nat i) H W ltac:(lia) ltac:(nia)). pose proof (Z.div_pos (Z.of_nat i) H ltac:(lia) HH).
    exists (Z.to_nat (Z.of_nat i / H)), (column it H (Z.of_nat i / H)), (Z.to_nat (Z.of_nat i mod H)). split; [|split; [|nia]].
    + apply list_lookup_fmap_Some. eexists. split; [reflexivity|]. apply lookup_seqZ. lia.
    + rewrite column_fmap. apply list_lookup_fmap_Some. eexists. split; [reflexivity|]. apply lookup_seqZ. lia.
Qed.

Lemma create_length W H it : 0 <= W -> 0 < H -> Z.of_nat (length (createSearchStates2D W H it)) = W * H.
Proof.
  intros HW HH. set (l := createSearchStates2D W H it). assert (E : forall i, is_Some (l !! i) <-> (i < Z.to_nat (W * H))%nat).
  { intros i. split; [intros [t Ht]; apply (create_lookup W H it i t HW HH) in Ht; apply Ht|].
    intros Hi. eexists. apply (create_lookup W H it i _ HW HH). split; [exact Hi|reflexivity]. }
  assert (F : forall i, (i < length l)%nat <-> (i < Z.to_nat (W * H))%nat) by (intros i; rewrite <- lookup_lt_is_Some; apply E).
  pose proof (F (length l)). pose proof (F (Z.to_nat (W * H))). assert (0 <= W * H) by nia. lia.
Qed.

Section setup.
Context (W H : Z) (Grid2D : list (list Z)) (thresh : Z) (ds : list Z) (Dmax : Z) (M : map_ok W H Grid2D thresh ds Dmax).

(** A new search object; its counter of percolations has [n] operations to go. *)
Lemma grid_construct_ok cs n : computedxy cs = Ok ds -> 24 * n <= INT_MAX -> exists s, construct W H cs = Ok s /\ heap_ready W H ds n s /\
  OPENtype_ s = OPENTYPE_HEAP /\ iteration_ s = 0 /\ cellSize_m_ s = cs /\ OPEN2DBLIST_ s = None.
Proof using M.
  intros Ec Hn. pose proof (mp_width _ _ _ _ _ _ M) as HW. pose proof (mp_height _ _ _ _ _ _ M) as HH. pose proof (mp_size _ _ _ _ _ _ M) as HN.
  unfold construct. rewrite Ec, bind_ok_l, mul_int_in by (unfold SbplHeap.HEAPSIZE, int_min, int32 in *; cbn [int_max]; nia). rewrite bind_ok_l.
  unfold SbplIntHeap.new_heap_sized. rewrite (proj2 (Z.ltb_ge (W * H) 0)) by nia. rewrite bind_ok_l, !(proj2 (Z.ltb_ge _ _)) by lia. cbn [orb].
  eexists. split; [reflexivity|]. split; [|repeat split; reflexivity]. split.
  - split; cbn [searchStates2D_ iteration_ state_at].
    + split; reflexivity.
    + apply create_length; lia.
    + intros i t [Hi Hl]%aget_Ok. apply create_lookup in Hl as [_ ->]; [|lia|lia]. rewrite Z2Nat.id by lia. split; reflexivity.
    + intros i t [Hi Hl]%aget_Ok. apply create_lookup in Hl as [_ ->]; [|lia|lia]. reflexivity.
  - reflexivity.
  - eexists _, ∅. split; [reflexivity|]. split; [split; [split; [split|]|]|].
    + split; cbn [fst SbplHeap.heap SbplHeap.allocated SbplHeap.currentsize]; [unfold SbplHeap.new_cells; rewrite length_replicate; nia|unfold SbplHeap.HEAPSIZE in *; nia|nia].
    + intros i Hi. cbn in Hi. lia.
    + intros s k Hs. rewrite lookup_empty in Hs. discriminate.
    + intros s k Hs. rewrite lookup_empty in Hs. discriminate.
    + intros i Hi. cbn in Hi. lia.
    + reflexivity.
    + split; [cbn; lia|]. cbn [SbplHeap.percolates]. lia.
Qed.

(** The change to sliding buckets: a window of 255 times the largest distance. *)
Lemma set_buckets_ok s n : heap_ready W H ds n s -> OPEN2DBLIST_ s = None -> 0 < foldl Z.max 0 ds -> 2 * (255 * foldl Z.max 0 ds) <= INT_MAX ->
  exists s' c q, setOPENdatastructure OPENTYPE_SLIDINGBUCKETS s = Ok s' /\ list_ready W H ds s' /\ OPEN2DBLIST_ s' = Some c /\ SbplSlidingSpec.rep c q /\
    SbplSliding.numofbuckets c = 255 * foldl Z.max 0 ds /\ SbplSliding.bucketsize c = Z.max 1000 (W + H) /\
    OPENtype_ s' = OPENTYPE_SLIDINGBUCKETS /\ iteration_ s' = iteration_ s /\ cellSize_m_ s' = cellSize_m_ s /\ OPEN2D_ s' = None.
Proof using M.
  intros R Hl Hm Hm2. destruct (hr_heap _ _ _ _ _ R) as (hp & m & Hhp & Hsim & _). pose proof (hr_tidy _ _ _ _ _ R) as T.
  pose proof (mp_width _ _ _ _ _ _ M). pose proof (mp_height _ _ _ _ _ _ M).
  unfold setOPENdatastructure. cbn [OPEN2DBLIST_ set_type]. rewrite Hl. cbn [dxy_distance_mm_ set_type width_ height_].
  rewrite (om_dist _ _ _ _ (td_map _ _ _ _ T)), (om_width _ _ _ _ (td_map _ _ _ _ T)), (om_height _ _ _ _ (td_map _ _ _ _ T)).
  rewrite mul_int_in by (unfold INT_MAX, int_min, int32 in *; cbn [int_max] in *; lia). rewrite bind_ok_l.
  destruct (SbplSlidingSpec.new_ok (255 * foldl Z.max 0 ds) (Z.max 1000 (W + H)) ltac:(lia) Hm2 ltac:(lia)) as (c & -> & R1 & Hn & Hb). rewrite !bind_ok_l.
  destruct (SbplHeapSpec.makeemptyheap_ok hp (heapindices s) m (proj1 Hsim) (proj2 Hsim)) as (ix & Em & _).
  change (OPEN2D_ (set_list (Some c) (set_type OPENTYPE_SLIDINGBUCKETS s))) with (OPEN2D_ s). rewrite Hhp.
  change (heapindices (set_list (Some c) (set_type OPENTYPE_SLIDINGBUCKETS s))) with (heapindices s).
  change (SbplIntHeap.makeemptyheap hp (heapindices s)) with (SbplHeap.makeemptyheap hp (heapindices s)). rewrite Em, bind_ok_l.
  eexists _, c, SbplSlidingSpec.new_queue. split; [reflexivity|]. split; [|split_and!; assumption || reflexivity]. split.
  - destruct T as [[] ? ? ?]. split; [split|..]; assumption.
  - exact (hr_iter _ _ _ _ _ R).
  - exists c, SbplSlidingSpec.new_queue. split; [reflexivity|exact R1].
Qed.

Lemma arcs_positive i j c : (forall dir d, aget ds dir = Ok d -> 0 < d) -> (j, c) ∈ SbplGrid2DSpec.arcs W H Grid2D thresh ds i -> 0 < c.
Proof using M.
  intros Hp (dir & Hd & Ha)%arcs_in. apply arc_Some in Ha as (x0 & y0 & Hin & _ & Ho & -> & Ex & Ey).
  destruct (shift_dist _ _ _ _ _ _ M dir Hd) as [Hg _]. apply Hp in Hg. destruct (cell_nonneg _ _ _ _ _ _ M x0 y0) as [H0|]; [|contradiction].
  apply Z.mul_pos_pos; [|exact Hg]. unfold over. rewrite <- Ex, <- Ey. destruct (7 <? dir); lia.
Qed.
End setup.

(** ** Cells of a metre *)

Definition metre : Floats.float := Floats.of_int 1.
Definition metre_distances : list Z := [1414; 1000; 1414; 1000; 1000; 1414; 1000; 1414; 2236; 2236; 2236; 2236; 2236; 2236; 2236; 2236].

Lemma metre_dxy : computedxy metre = Ok metre_distances.
Proof. vm_compute. reflexivity. Qed.

(** A float counts millimetres exactly up to this many cells a side. *)
Definition far : Z := 16777.

Lemma metre_product n : 0 <= n <= far ->
  Floats.to_int (Floats.mul (Floats.mul (Floats.of_int 1000) metre) (Floats.of_int n)) = Ok (1000 * n).
Proof.
  unfold far, metre. intros Hn. rewrite FloatsSpec.mul_exact by lia. destruct (decide (n = 0)) as [->|]; [reflexivity|].
  rewrite FloatsSpec.mul_exact by lia. apply FloatsSpec.to_int_exact. lia.
Qed.

Section metre.
Context (W H : Z) (Grid2D : list (list Z)) (thresh : Z) (gx gy : Z) (t : TERM_CONDITION).
Context (HW : 0 < W <= far) (HH : 0 < H <= far).
Context (Hcells : forall x y, inside W H x y -> exists c, grid_cell Grid2D x y = Ok c /\ 0 <= c) (Hthresh : thresh <= 255).

(** The heuristic of the code for a path to the goal; none otherwise. *)
Definition metre_heuristic (i : Z) : Z :=
  match t with
  | OPTPATHFOUND => if bool_decide (0 <= i < W * H) then 1000 * Z.max (Z.abs (col H i - gx)) (Z.abs (row H i - gy)) else 0
  | _ => 0
  end.

Lemma metre_map : W * H < SbplHeap.HEAPSIZE -> map_ok W H Grid2D thresh metre_distances 2236.
Proof using HW HH Hcells Hthresh.
  intros HN. split; [lia|lia|exact HN|exact Hcells|exact Hthresh|reflexivity| |unfold INF; vm_compute; congruence].
  intros dir d [_ Hd]%aget_Ok. apply list_elem_of_lookup_2 in Hd. revert d Hd. apply Forall_forall. repeat (constructor; [lia|]). constructor.
Qed.

Context (Hgoal : inside W H gx gy).

Lemma metre_small : W * H < SbplHeap.HEAPSIZE -> forall i, 0 <= metre_heuristic i <= 1000 * far.
Proof using HW HH Hcells Hthresh Hgoal.
  intros HN i. unfold metre_heuristic. destruct t; try (unfold far; lia). case_bool_decide as Hi; [|unfold far; lia].
  destruct (inside_index _ _ _ _ _ _ (metre_map HN) i Hi) as [[Hc Hr] _]. destruct Hgoal. lia.
Qed.

(** A move changes the larger coordinate by what its length in metres allows. *)
Lemma metre_consistent : W * H < SbplHeap.HEAPSIZE -> forall i j c, (j, c) ∈ SbplGrid2DSpec.arcs W H Grid2D thresh metre_distances i ->
  metre_heuristic i <= c + metre_heuristic j.
Proof using HW HH Hcells Hthresh Hgoal.
  intros HN i j c Hin. pose proof (arcs_nonneg _ _ _ _ _ _ (metre_map HN) i j c Hin) as Hc. apply arcs_in in Hin as (dir & Hd & Ha).
  unfold metre_heuristic. destruct t; try lia. apply arc_Some in Ha as (x & y & Hin & -> & Ho & Ec & Ex & Ey).
  pose proof (index_bounds _ _ _ _ _ _ (metre_map HN) _ _ Hin) as Hj. rewrite (bool_decide_eq_true_2 (0 <= index H x y < W * H)) by exact Hj.
  case_bool_decide as Hi; [|lia]. rewrite (col_index W H _ _ Hin), (row_index W H _ _ Hin).
  pose proof (over_nonneg _ _ _ _ _ _ (metre_map HN) (col H i) (row H i) dir (proj1 (inside_index _ _ _ _ _ _ (metre_map HN) i Hi))) as Hov.
  set (o := over Grid2D (col H i) (row H i) dir) in *. clearbody o. clear Ho.
  assert (Hstep : 1000 * Z.max (Z.abs (shift dx_ dir)) (Z.abs (shift dy_ dir)) <= shift metre_distances dir).
  { assert (Ha : Forall (fun dir => 1000 * Z.max (Z.abs (shift dx_ dir)) (Z.abs (shift dy_ dir)) <= shift metre_distances dir) (seqZ 0 16)).
    { repeat (constructor; [vm_compute; congruence|]). constructor. }
    rewrite Forall_forall in Ha. apply Ha, elem_of_seqZ. unfold NUMOF2DDIRS in Hd. lia. }
  assert (shift metre_distances dir <= c) by nia. lia.
Qed.
End metre.

(** ** What the searches promise *)

Section promises.
Context (W H : Z) (Grid2D : list (list Z)) (thresh : Z) (ds : list Z) (Dmax : Z) (sx sy gx gy : Z) (h : Z -> Z) (Hmax : Z) (t : TERM_CONDITION).

#[local] Abbreviation arcs := (SbplGrid2DSpec.arcs W H Grid2D thresh ds).
#[local] Abbreviation root := (index H sx sy).
#[local] Abbreviation goal := (index H gx gy).

(** What the states of a search say afterwards. *)
Definition answered (s' : GridSearch) : Prop :=
  lower_bound W H Grid2D thresh ds root h s' /\ (complete W H Grid2D thresh ds root goal t -> exact W H Grid2D thresh ds root s').

(** A call that fits: both cells in the map and a heuristic that is consistent,
    small and the one of the code. *)
Record fair (s : GridSearch) : Prop := {
  fa_map : map_ok W H Grid2D thresh ds Dmax;
  fa_start : inside W H sx sy;
  fa_goal : inside W H gx gy;
  fa_cons : forall i j c, (j, c) ∈ arcs i -> h i <= c + h j;
  fa_small : (forall i, 0 <= h i <= Hmax) /\ Hmax + INF <= INT_MAX;
  fa_heur : heur_at W H h (called sx sy gx gy t s);
  fa_iter : iteration_ s < INT_MAX;
}.

Lemma searched_answered s s' : fair s -> searched W H Grid2D thresh ds root h Hmax (complete W H Grid2D thresh ds root goal t) s' -> answered s'.
Proof using Type.
  intros Fa S. split; [exact (searched_lower _ _ _ _ _ _ (fa_map _ Fa) root h Hmax _ s' (fa_cons _ Fa) S)|].
  intros Hc. refine (searched_exact _ _ _ _ _ _ (fa_map _ Fa) root h Hmax _ s' _ S Hc).
  pose proof (fa_heur _ Fa) as Hu. unfold heur_at in Hu. cbn in Hu. destruct Hc as [-> _]. exact Hu.
Qed.

Lemma heap_search_ok n s : fair s -> heap_ready W H ds (heap_ops W H + n) s -> OPENtype_ s = OPENTYPE_HEAP -> 0 <= n ->
  exists s', search Grid2D thresh sx sy gx gy t s = Ok (true, s') /\ answered s' /\ heap_ready W H ds n s' /\ OPENtype_ s' = OPENTYPE_HEAP.
Proof using Type.
  intros Fa R Ht Hn. pose proof Fa as [M Hs Hg Hc [Hh HM] Hu Hi]. unfold search. rewrite Ht.
  destruct (search_withheap_ok _ _ _ _ _ _ M sx sy gx gy Hs Hg h Hmax Hc Hh HM t s n R Hi Hn Hu) as (s' & -> & S & R' & _ & E & _).
  exists s'. split; [reflexivity|]. split; [exact (searched_answered s s' Fa S)|]. split; [exact R'|congruence].
Qed.

Lemma list_search_ok s c q : fair s -> list_ready W H ds s -> OPENtype_ s = OPENTYPE_SLIDINGBUCKETS -> OPEN2DBLIST_ s = Some c -> SbplSlidingSpec.rep c q ->
  outcome W H thresh Dmax c (search Grid2D thresh sx sy gx gy t s) (fun r => exists s', r = (true, s') /\ answered s' /\ list_ready W H ds s').
Proof using Type.
  intros Fa R Ht Hc HR. pose proof Fa as [M Hs Hg Hcs [Hh HM] Hu Hi]. unfold search. rewrite Ht.
  pose proof (search_withslidingbuckets_ok _ _ _ _ _ _ M sx sy gx gy Hs Hg h Hmax Hh HM t s c q R Hc HR Hi Hu) as Hr.
  destruct (search_withslidingbuckets _ _ _ _ _ _ _ s) as [r|e]; [|exact Hr]. destruct Hr as (s' & _ & -> & S & R' & _). exists s'. split; [reflexivity|].
  split; [exact (searched_answered s s' Fa S)|exact R'].
Qed.
End promises.

(** Exact answers are unique. *)
Lemma exact_unique W H Grid2D thresh ds root s1 s2 x y : exact W H Grid2D thresh ds root s1 -> exact W H Grid2D thresh ds root s2 -> inside W H x y ->
  getlowerboundoncostfromstart_inmm s1 x y = getlowerboundoncostfromstart_inmm s2 x y.
Proof.
  intros E1 E2 Hin. destruct (E1 x y Hin) as (v1 & -> & L1 & W1). destruct (E2 x y Hin) as (v2 & -> & L2 & W2). f_equal.
  destruct W1 as [->|[H1 W1]], W2 as [->|[H2 W2]]; [reflexivity|destruct (L1 _ W2); lia|destruct (L2 _ W1); lia|].
  destruct (L1 _ W2), (L2 _ W1); lia.
Qed.

(** ** Theorems *)

(** C10: The 2D grid search with a heap ends and returns true, for a start and a goal in the map and a heuristic that is consistent ([fair], which cells of a metre satisfy and cells of a fraction of a millimetre may not).  Afterwards the answer for a cell is at most the cost of any way from the start to it whose cost and heuristic stay below INFINITECOST together.  When all cells are asked for, the goal is not the start and all moves have a positive length, the answer is the cost of a cheapest way, or INFINITECOST.  The object is ready for the next search. *)
Theorem grid_heap_search_correct W H Grid2D thresh ds Dmax sx sy gx gy h Hmax t n s :
  fair W H Grid2D thresh ds Dmax sx sy gx gy h Hmax t s -> heap_ready W H ds (heap_ops W H + n) s -> OPENtype_ s = OPENTYPE_HEAP -> 0 <= n ->
  exists s', search Grid2D thresh sx sy gx gy t s = Ok (true, s') /\
    lower_bound W H Grid2D thresh ds (index H sx sy) h s' /\
    (t = ALLCELLS -> index H gx gy <> index H sx sy -> (forall dir d, aget ds dir = Ok d -> 0 < d) -> exact W H Grid2D thresh ds (index H sx sy) s') /\
    heap_ready W H ds n s'.
Proof.
  intros Fa R Ht Hn. destruct (heap_search_ok _ _ _ _ _ _ _ _ _ _ _ _ _ n s Fa R Ht Hn) as (s' & E & [A1 A2] & R' & _). exists s'.
  split; [exact E|]. split; [exact A1|]. split; [|exact R']. intros -> Hne Hp. apply A2. split; [reflexivity|]. split; [exact Hne|].
  intros i j c. exact (arcs_positive _ _ _ _ _ _ (fa_map _ _ _ _ _ _ _ _ _ _ _ _ _ _ Fa) i j c Hp).
Qed.

(** The heuristic of the goal is 0 whatever the size of a cell. *)
Lemma goal_heuristic W H Grid2D thresh ds Dmax sx sy gx gy h Hmax s : fair W H Grid2D thresh ds Dmax sx sy gx gy h Hmax OPTPATHFOUND s -> h (index H gx gy) = 0.
Proof.
  intros Fa. pose proof (fa_heur _ _ _ _ _ _ _ _ _ _ _ _ _ _ Fa gx gy (fa_goal _ _ _ _ _ _ _ _ _ _ _ _ _ _ Fa)) as Hu.
  unfold HEUR2D in Hu. cbn [goalX_ goalY_ cellSize_m_ called set_condition set_call] in Hu. rewrite !Z.sub_diag in Hu.
  set (c := Floats.mul (Floats.of_int 1000) (cellSize_m_ s)) in *. clearbody c. destruct c as [b|b| |b m e]; cbn in Hu; try discriminate; injection Hu as <-; reflexivity.
Qed.

(** C11: A search for a path is optimal when the heuristic is consistent ([fair]): with OPTPATHFOUND and a heap the cost answered for the goal is that of a way from the start and no more than that of any other, for every goal that some way reaches for less than 2^24 (where a float, which the stopping test compares, is an exact int).  Consistency is needed, and fails for some maps of cells that are not a whole number of millimetres (see [fractional_cells_overestimate]); it holds for cells of a metre ([metre_fair]). *)
Theorem path_search_optimal W H Grid2D thresh ds Dmax sx sy gx gy h Hmax n s d :
  fair W H Grid2D thresh ds Dmax sx sy gx gy h Hmax OPTPATHFOUND s -> heap_ready W H ds (heap_ops W H + n) s -> OPENtype_ s = OPENTYPE_HEAP -> 0 <= n ->
  AraCore.walk (SbplGrid2DSpec.arcs W H Grid2D thresh ds) (index H sx sy) (index H gx gy) d -> d < 2 ^ 24 ->
  exists s' v, search Grid2D thresh sx sy gx gy OPTPATHFOUND s = Ok (true, s') /\ getlowerboundoncostfromstart_inmm s' gx gy = Ok v /\
    AraCore.walk (SbplGrid2DSpec.arcs W H Grid2D thresh ds) (index H sx sy) (index H gx gy) v /\
    forall d', AraCore.walk (SbplGrid2DSpec.arcs W H Grid2D thresh ds) (index H sx sy) (index H gx gy) d' -> v <= d'.
Proof.
  intros Fa R Hty Hn Hw Hd. pose proof (goal_heuristic _ _ _ _ _ _ _ _ _ _ _ _ _ Fa) as Hz. pose proof Fa as [M Hs Hg Hc [Hh HM] Hu Hi].
  destruct (search_path_goal _ _ _ _ _ _ M sx sy gx gy Hs Hg h Hmax Hc Hh HM s n d R Hi Hn Hu Hz Hw Hd) as (s' & v & E & Ev & Hit & Hle).
  destruct (search_withheap_ok _ _ _ _ _ _ M sx sy gx gy Hs Hg h Hmax Hc Hh HM OPTPATHFOUND s n R Hi Hn Hu) as (s2 & E2 & S & _).
  rewrite E in E2. injection E2 as <-. exists s', (g v). unfold search. rewrite Hty. split; [exact E|].
  pose proof (sr_view _ _ _ _ _ _ _ _ _ _ S) as (u & w & Hgd & Hv & Hwt & _). destruct (Hv _ v Ev) as [Ha HG]. rewrite Hit, Z.eqb_refl in Ha.
  assert (Hb : bound h w (largestcomputedoptf_ s') (index H gx gy) = g v) by (unfold bound; rewrite Ha, HG, Hz, Z.add_0_r, (proj2 (Z.leb_le _ _)) by exact Hle; reflexivity).
  split; [rewrite <- Hb; exact (answer_ok _ _ _ _ _ _ M _ _ _ _ _ _ _ _ _ S Hgd Hv Hg)|].
  assert (Hlow : forall d', AraCore.walk (SbplGrid2DSpec.arcs W H Grid2D thresh ds) (index H sx sy) (index H gx gy) d' -> d' < INF -> g v <= d').
  { intros d' Hw' Hd'. rewrite <- Hb. apply (bound_lower _ _ h (arcs_nonneg _ _ _ _ _ _ M) Hc u w _ _ d' Hgd Hwt Hw'); [rewrite Hz; lia|apply Hh]. }
  assert (Hlt : g v < INF) by (specialize (Hlow d Hw ltac:(unfold INF; lia)); unfold INF; lia).
  destruct (gd_walk _ _ _ _ _ Hgd _ Ha) as [_ Hwk]. rewrite HG in Hwk. split; [exact (Hwk Hlt)|].
  intros d' Hw'. destruct (decide (d' < INF)) as [Hd'|]; [exact (Hlow d' Hw' Hd')|lia].
Qed.

(** C16: The 2D grid search with sliding buckets, where a cell may wait in the list more than once.  With start and goal in the map and a consistent heuristic ([fair]) it ends, and throws only if a bucket has no room for all cells of the map or the window is not longer than obsthresh times the longest move.  When it does not throw it returns true; the answer for a cell is at most the cost of any way from the start whose cost and heuristic stay below INFINITECOST together, and it is exact when all cells are asked for, the goal is not the start and all moves have a positive length. *)
Theorem grid_buckets_search_correct W H Grid2D thresh ds Dmax sx sy gx gy h Hmax t s c q :
  fair W H Grid2D thresh ds Dmax sx sy gx gy h Hmax t s -> list_ready W H ds s -> OPENtype_ s = OPENTYPE_SLIDINGBUCKETS ->
  OPEN2DBLIST_ s = Some c -> SbplSlidingSpec.rep c q ->
  match search Grid2D thresh sx sy gx gy t s with
  | Ok (b, s') => b = true /\ lower_bound W H Grid2D thresh ds (index H sx sy) h s' /\
      (t = ALLCELLS -> index H gx gy <> index H sx sy -> (forall dir d, aget ds dir = Ok d -> 0 < d) -> exact W H Grid2D thresh ds (index H sx sy) s') /\
      list_ready W H ds s'
  | Err e => e = Thrown /\ (SbplSliding.bucketsize c <= W * H \/ SbplSliding.numofbuckets c <= thresh * Dmax)
  end.
Proof.
  intros Fa R Ht Hc HR. pose proof (list_search_ok _ _ _ _ _ _ _ _ _ _ _ _ _ s c q Fa R Ht Hc HR) as Ho.
  destruct (search _ _ _ _ _ _ _ s) as [r|e]; [|destruct Ho as [-> Hn]; unfold fits in Hn; split; [reflexivity|lia]].
  destruct Ho as (s' & -> & [A1 A2] & R'). split; [reflexivity|]. split; [exact A1|]. split; [|exact R']. intros -> Hne Hp. apply A2. split; [reflexivity|].
  split; [exact Hne|]. intros i j k. exact (arcs_positive _ _ _ _ _ _ (fa_map _ _ _ _ _ _ _ _ _ _ _ _ _ _ Fa) i j k Hp).
Qed.

(** A map of cells of a metre with costs that are not negative. *)
Record metre_grid (W H : Z) (Grid2D : list (list Z)) (thresh : Z) : Prop := {
  mg_width : 0 < W <= far;
  mg_height : 0 < H <= far;
  mg_cells : forall x y, inside W H x y -> exists c, grid_cell Grid2D x y = Ok c /\ 0 <= c;
  mg_thresh : thresh <= 255;
}.

Lemma metre_fair W H Grid2D thresh sx sy gx gy t s : metre_grid W H Grid2D thresh -> W * H < SbplHeap.HEAPSIZE -> inside W H sx sy -> inside W H gx gy ->
  cellSize_m_ s = metre -> iteration_ s < INT_MAX ->
  fair W H Grid2D thresh metre_distances 2236 sx sy gx gy (metre_heuristic W H gx gy t) (1000 * far) t s.
Proof.
  intros [HW HH Hc Ht] HN Hs Hg Ecs Hi. pose proof (metre_map W H Grid2D thresh HW HH Hc Ht HN) as M. split; try assumption.
  - exact (metre_consistent W H Grid2D thresh gx gy t HW HH Hc Ht Hg HN).
  - split; [exact (metre_small W H Grid2D thresh gx gy t HW HH Hc Ht Hg HN)|vm_compute; congruence].
  - unfold heur_at, metre_heuristic. cbn [term_condition_usedlast called set_condition]. destruct t; try reflexivity. intros x y Hin.
    rewrite bool_decide_eq_true_2 by exact (index_bounds _ _ _ _ _ _ M _ _ Hin). rewrite (col_index W H _ _ Hin), (row_index W H _ _ Hin).
    unfold HEUR2D. cbn [cellSize_m_ goalX_ goalY_ called set_condition set_call]. rewrite Ecs. apply metre_product. destruct Hin, Hg. lia.
Qed.

Lemma metre_positive dir d : aget metre_distances dir = Ok d -> 0 < d.
Proof. intros [_ Hd]%aget_Ok. apply list_elem_of_lookup_2 in Hd. revert d Hd. apply Forall_forall. repeat (constructor; [lia|]). constructor. Qed.

(** A new search over cells of a metre: any search from a cell of the map to another ends and returns true, its bounds are below the cost of every way by the heuristic of 1000 mm per cell (which the code uses for a path, and none otherwise), and exact for all cells when these are asked for. *)
Theorem new_metre_search W H Grid2D thresh sx sy gx gy t : metre_grid W H Grid2D thresh -> W * H <= 5000000 -> inside W H sx sy -> inside W H gx gy ->
  exists s s', construct W H metre = Ok s /\ search Grid2D thresh sx sy gx gy t s = Ok (true, s') /\
    lower_bound W H Grid2D thresh metre_distances (index H sx sy) (metre_heuristic W H gx gy t) s' /\
    (t = ALLCELLS -> index H gx gy <> index H sx sy -> exact W H Grid2D thresh metre_distances (index H sx sy) s').
Proof.
  intros Mg HN Hs Hg. pose proof Mg as [HW HH Hc Ht]. assert (HN' : W * H < SbplHeap.HEAPSIZE) by (unfold SbplHeap.HEAPSIZE; lia).
  pose proof (metre_map W H Grid2D thresh HW HH Hc Ht HN') as M.
  destruct (grid_construct_ok _ _ _ _ _ _ M metre (heap_ops W H + 0) metre_dxy) as (s & Es & R & Hty & Hi & Ecs & _).
  { unfold heap_ops, INT_MAX, int32. cbn [int_max]. lia. }
  destruct (heap_search_ok _ _ _ _ _ _ _ _ _ _ _ _ _ 0 s (metre_fair W H Grid2D thresh sx sy gx gy t s Mg HN' Hs Hg Ecs ltac:(rewrite Hi; vm_compute; reflexivity)) R Hty ltac:(lia))
    as (s' & E & [A1 A2] & _). exists s, s'. split; [exact Es|]. split; [exact E|]. split; [exact A1|]. intros -> Hne. apply A2.
  split; [reflexivity|]. split; [exact Hne|]. intros i j c. exact (arcs_positive _ _ _ _ _ _ M i j c metre_positive).
Qed.

(** C17: The data structures are equivalent on a map of fewer than 1000 cells of a metre, with a threshold of at most 254 and a goal that is not the start: a new search object with a heap, and the same object after the change to sliding buckets, both return true when all cells are asked for, and then answer the same cost for every cell.  (With a threshold of 255 the buckets can throw, see [window_too_small].) *)
Theorem open_structures_agree W H Grid2D thresh sx sy gx gy : metre_grid W H Grid2D thresh -> W * H < 1000 -> thresh <= 254 ->
  inside W H sx sy -> inside W H gx gy -> index H gx gy <> index H sx sy ->
  exists s s1 b b1, construct W H metre = Ok s /\ search Grid2D thresh sx sy gx gy ALLCELLS s = Ok (true, s1) /\
    setOPENdatastructure OPENTYPE_SLIDINGBUCKETS s = Ok b /\ search Grid2D thresh sx sy gx gy ALLCELLS b = Ok (true, b1) /\
    forall x y, inside W H x y -> getlowerboundoncostfromstart_inmm s1 x y = getlowerboundoncostfromstart_inmm b1 x y.
Proof.
  intros Mg HN Hth Hs Hg Hne. pose proof Mg as [HW HH Hc Ht]. assert (HN' : W * H < SbplHeap.HEAPSIZE) by (unfold SbplHeap.HEAPSIZE; lia).
  pose proof (metre_map W H Grid2D thresh HW HH Hc Ht HN') as M.
  assert (Hall : complete W H Grid2D thresh metre_distances (index H sx sy) (index H gx gy) ALLCELLS).
  { split; [reflexivity|]. split; [exact Hne|]. intros i j c. exact (arcs_positive _ _ _ _ _ _ M i j c metre_positive). }
  destruct (grid_construct_ok _ _ _ _ _ _ M metre (heap_ops W H + 0) metre_dxy) as (s & Es & R & Hty & Hi & Ecs & Hl).
  { unfold heap_ops, INT_MAX, int32. cbn [int_max]. lia. }
  destruct (heap_search_ok _ _ _ _ _ _ _ _ _ _ _ _ _ 0 s (metre_fair W H Grid2D thresh sx sy gx gy ALLCELLS s Mg HN' Hs Hg Ecs ltac:(rewrite Hi; vm_compute; reflexivity)) R Hty ltac:(lia))
    as (s1 & E1 & [_ A1] & _).
  destruct (set_buckets_ok _ _ _ _ _ _ M s _ R Hl ltac:(vm_compute; reflexivity) ltac:(vm_compute; congruence)) as (b & c & q & Eb & Rb & Ec & Rq & Hn & Hb & Hbt & Hbi & Hbc & _).
  pose proof (list_search_ok _ _ _ _ _ _ _ _ _ _ _ _ _ b c q (metre_fair W H Grid2D thresh sx sy gx gy ALLCELLS b Mg HN' Hs Hg ltac:(congruence) ltac:(rewrite Hbi, Hi; vm_compute; reflexivity)) Rb Hbt Ec Rq) as Ho.
  destruct (search Grid2D thresh sx sy gx gy ALLCELLS b) as [r|e] eqn:E2; [|destruct Ho as [_ Hno]; exfalso; apply Hno; split].
  - destruct Ho as (b1 & -> & [_ A2] & _). exists s, s1, b, b1. split; [exact Es|]. split; [exact E1|]. split; [exact Eb|]. split; [exact E2|].
    intros x y. exact (exact_unique _ _ _ _ _ _ s1 b1 x y (A1 Hall) (A2 Hall)).
  - rewrite Hb. lia.
  - rewrite Hn. change (foldl Z.max 0 metre_distances) with 2236. lia.
Qed.

(** After a change to sliding buckets and back to the heap the object has no heap: every search dereferences a null pointer. *)
Theorem back_to_heap_crashes s1 s2 s3 Grid2D thresh sx sy gx gy t : setOPENdatastructure OPENTYPE_SLIDINGBUCKETS s1 = Ok s2 ->
  setOPENdatastructure OPENTYPE_HEAP s2 = Ok s3 -> 0 <= iteration_ s3 < INT_MAX -> search Grid2D thresh sx sy gx gy t s3 = Err OutOfBounds.
Proof.
  intros E1 E2 Hi. injection E2 as <-. assert (Hh : OPEN2D_ s2 = None).
  { unfold setOPENdatastructure in E1. apply bind_Ok in E1 as (s' & _ & E1). destruct (OPEN2D_ s') as [hp|] eqn:Eo; [|injection E1 as <-; exact Eo].
    apply bind_Ok in E1 as ([h' ix] & _ & E1). injection E1 as <-. reflexivity. }
  unfold search. cbn [OPENtype_ set_type]. unfold search_withheap. cbn [iteration_ set_type] in *.
  rewrite add_int_in by (unfold INT_MAX, int_min, int32 in *; cbn [int_max] in *; lia). rewrite bind_ok_l. unfold the_heap. cbn [OPEN2D_ set_call set_type]. rewrite Hh. reflexivity.
Qed.

(** The loop does not start when the first key is not worthwhile. *)
Lemma heap_loop_stops W H Grid2D thresh ds root goal h u fuel s pb m hp t k : holding W H Grid2D thresh ds root goal h u [] s pb m hp ->
  m = {[root := k]} -> state_at s goal = Ok t -> worthwhile (term_condition_usedlast s) (Z.min INFINITECOST (g t)) k = false ->
  heap_loop Grid2D thresh (S fuel) goal pb s = Ok s /\ SbplIntHeap.emptyheap hp = false /\ SbplIntHeap.getminkeyheap hp = Ok k.
Proof.
  intros Hold -> Et Hw. pose proof (hd_sim _ _ _ _ _ _ _ _ _ _ _ _ _ _ Hold) as Hsim. pose proof (hd_heap _ _ _ _ _ _ _ _ _ _ _ _ _ _ Hold) as Hhp.
  pose proof (SbplHeapProps.sim_empty _ _ Hsim) as Hne. cbn [fst] in Hne. pose proof (SbplHeapSpec.sh_size _ (SbplHeapSpec.c_shape _ _ _ (proj1 (proj1 Hsim)))) as Hsz. cbn [fst] in Hsz.
  assert (E : SbplHeap.currentsize hp <> 0) by (rewrite Hne; apply insert_non_empty).
  destruct (SbplHeapSpec.root_ok hp (heapindices s) _ (proj1 Hsim)) as (i0 & k0 & Er & Hi0 & _); [lia|]. apply lookup_singleton_Some in Hi0 as [<- <-].
  assert (Ee : SbplIntHeap.emptyheap hp = false) by (apply Z.eqb_neq, E).
  assert (Ek : SbplIntHeap.getminkeyheap hp = Ok k).
  { unfold SbplIntHeap.getminkeyheap, SbplHeap.getminkeyheap. rewrite (proj2 (Z.eqb_neq _ _)) by exact E. rewrite (SbplHeapSpec.cheap_read_some _ _ _ Er), bind_ok_l. reflexivity. }
  split; [|split; [exact Ee|exact Ek]]. cbn [heap_loop]. rewrite (the_heap_ok s hp Hhp), bind_ok_l, Ee, Et, bind_ok_l, Ek, !bind_ok_l, Hw. reflexivity.
Qed.

(** When all cells are asked for and the start is the goal nothing is expanded, and the bound of every cell of the map is 0. *)
Theorem allcells_from_goal_zero W H Grid2D thresh ds Dmax cx cy n s : map_ok W H Grid2D thresh ds Dmax -> inside W H cx cy ->
  heap_ready W H ds (heap_ops W H + n) s -> OPENtype_ s = OPENTYPE_HEAP -> iteration_ s < INT_MAX -> 0 <= n ->
  exists s', search Grid2D thresh cx cy cx cy ALLCELLS s = Ok (true, s') /\ forall x y, inside W H x y -> getlowerboundoncostfromstart_inmm s' x y = Ok 0.
Proof.
  intros M Hc R Hty Hit Hn. assert (Hu : heur_at W H (fun _ => 0) (called cx cy cx cy ALLCELLS s)) by (intros i; reflexivity).
  destruct (search_starts _ _ _ _ _ _ M cx cy cx cy Hc Hc (fun _ => 0) 0 ltac:(lia) ltac:(vm_compute; congruence) ALLCELLS s n R Hit Hn Hu)
    as (s2 & hp2 & key & E & Hold & F1 & _). unfold search. rewrite Hty, E. pose proof (hd_tidy _ _ _ _ _ _ _ _ _ _ _ _ _ _ Hold) as T2.
  pose proof (index_bounds _ _ _ _ _ _ M _ _ Hc) as Hrb. destruct (state_in W H ds s2 (index H cx cy) T2 Hrb) as [t Et].
  pose proof (hd_good _ _ _ _ _ _ _ _ _ _ _ _ _ _ Hold) as Hgd. destruct (view_at W H s2 (replicate (Z.to_nat (W * H)) false) (fun i => is_Some (({[index H cx cy := key]} : gmap Z Z) !! i)) _ t Et) as [_ Hgt].
  assert (Hg0 : g t = 0) by (rewrite <- Hgt; apply (gd_root _ _ _ _ _ Hgd)).
  assert (Hk : key = 0).
  { destruct (hd_keys _ _ _ _ _ _ _ _ _ _ _ _ _ _ Hold (index H cx cy) key) as (t' & Et' & ->); [apply lookup_singleton_Some; auto|]. rewrite Et in Et'. injection Et' as <-. lia. }
  subst key. assert (Etc : term_condition_usedlast s2 = ALLCELLS) by (destruct F1 as (? & ? & ? & ? & ->); reflexivity).
  destruct (heap_loop_stops _ _ _ _ _ _ _ _ _ (Z.to_nat (W * H)) s2 _ _ hp2 t 0 Hold eq_refl Et ltac:(rewrite Etc, Hg0; reflexivity)) as (El & Ee & Ek).
  rewrite El, bind_ok_l, (the_heap_ok _ _ (hd_heap _ _ _ _ _ _ _ _ _ _ _ _ _ _ Hold)), bind_ok_l, Ee, Ek, bind_ok_l. eexists. split; [reflexivity|].
  intros x y Hin. unfold getlowerboundoncostfromstart_inmm. cbn [term_condition_usedlast set_largest largestcomputedoptf_ iteration_]. rewrite Etc.
  pose proof (index_bounds _ _ _ _ _ _ M _ _ Hin) as Hb. destruct (state_in W H ds s2 _ T2 Hb) as [v Ev].
  rewrite (address_ok W H ds (set_largest 0 s2) x y) by (assumption || (destruct (td_map _ _ _ _ T2); split; assumption)). rewrite bind_ok_l.
  change (state_at (set_largest 0 s2)) with (state_at s2). rewrite Ev, bind_ok_l.
  destruct (view_at W H s2 (replicate (Z.to_nat (W * H)) false) (fun i => is_Some (({[index H cx cy := 0]} : gmap Z Z) !! i)) _ v Ev) as [Ha Hgv].
  destruct (iterationaccessed v =? iteration_ s2); [|reflexivity]. pose proof (gd_walk _ _ _ _ _ Hgd _ Ha) as [Hb0 _]. rewrite Hgv in Hb0.
  cbn [andb]. destruct (Z.leb_spec (g v) 0); [f_equal; lia|reflexivity].
Qed.

(** Cells of a millimetre, all of the same cost. *)
Definition millimetre : Floats.float := Floats.of_double (Doubles.literal 1 1000).
Definition uniform (c : Z) : list (list Z) := replicate 3 (replicate 2 c).
Definition run_uniform (c : Z) : res (bool * GridSearch) :=
  s ← construct 3 2 millimetre; b ← setOPENdatastructure OPENTYPE_SLIDINGBUCKETS s; search (uniform c) 255 0 0 2 1 ALLCELLS b.
Definition verdict (r : res (bool * GridSearch)) : res bool := '(b, _) ← r; Ok b.

(** C39: The window of the sliding buckets is one priority too small: over cells of cost 254, which are below the threshold 255, the first knight's move costs 255 times the largest distance and the search throws; over cells of cost 253 the same search returns true. *)
Theorem window_too_small : exists s b s', construct 3 2 millimetre = Ok s /\ setOPENdatastructure OPENTYPE_SLIDINGBUCKETS s = Ok b /\
  search (uniform 254) 255 0 0 2 1 ALLCELLS b = Err Thrown /\ search (uniform 253) 255 0 0 2 1 ALLCELLS b = Ok (true, s').
Proof.
  destruct (construct 3 2 millimetre) as [s|e] eqn:Es; [|vm_compute in Es; discriminate]. exists s.
  destruct (setOPENdatastructure OPENTYPE_SLIDINGBUCKETS s) as [b|e] eqn:Eb; [|vm_compute in Es; injection Es as <-; vm_compute in Eb; discriminate]. exists b.
  assert (E : forall c, search (uniform c) 255 0 0 2 1 ALLCELLS b = run_uniform c) by (intros c; unfold run_uniform; rewrite Es, bind_ok_l, Eb, bind_ok_l; reflexivity).
  rewrite !E. clear. assert (V : verdict (run_uniform 254) = Err Thrown /\ verdict (run_uniform 253) = Ok true) by (split; vm_compute; reflexivity).
  destruct V as [V1 V2]. destruct (run_uniform 253) as [[r s']|e]; [|discriminate]. exists s'. injection V2 as ->.
  split; [reflexivity|]. split; [reflexivity|]. split; [|reflexivity]. destruct (run_uniform 254) as [[r t]|e]; [discriminate|]. injection V1 as ->. reflexivity.
Qed.

(** Cells of one and a half millimetres. *)
Definition fractional : Floats.float := Floats.of_double (Doubles.literal 15 10000).
Definition fractional_distances : list Z := [2; 1; 2; 1; 1; 2; 1; 2; 3; 3; 3; 3; 3; 3; 3; 3].
Definition uneven : list (list Z) := [[0; 3; 0]; [0; 0; 0]; [0; 3; 0]; [3; 3; 0]; [0; 0; 3]; [0; 0; 0]; [0; 0; 3]; [0; 3; 0]; [0; 0; 0]; [0; 0; 0]; [0; 3; 0]; [0; 0; 0]].

(** The answer for the goal. *)
Definition answer_of (W H : Z) (cs : Floats.float) (t : TERM_CONDITION) : res Z :=
  s ← construct W H cs; '(r, a) ← search uneven 255 0 0 11 2 t s; if r : bool then getlowerboundoncostfromstart_inmm a 11 2 else Err OutOfBounds.

Lemma answer_split W H cs t v : answer_of W H cs t = Ok v -> exists s a, construct W H cs = Ok s /\ search uneven 255 0 0 11 2 t s = Ok (true, a) /\
  getlowerboundoncostfromstart_inmm a 11 2 = Ok v.
Proof.
  intros (s & Es & ([r a] & Ea & E)%bind_Ok)%bind_Ok. destruct r; [|discriminate]. exists s, a. auto.
Qed.

Lemma answer_exact : answer_of 12 3 fractional ALLCELLS = Ok 15.
Proof. vm_compute. reflexivity. Qed.

Lemma answer_path : answer_of 12 3 fractional OPTPATHFOUND = Ok 17.
Proof. vm_compute. reflexivity. Qed.

Lemma uneven_map : map_ok 12 3 uneven 255 fractional_distances 3.
Proof.
  split; try (vm_compute; reflexivity); try (vm_compute; congruence).
  - intros x y [Hx Hy]. assert (Hall : forallb (fun x => forallb (fun y => match grid_cell uneven x y with Ok c => 0 <=? c | Err _ => false end) (seqZ 0 3)) (seqZ 0 12) = true)
      by (vm_compute; reflexivity).
    rewrite forallb_forall in Hall. specialize (Hall x ltac:(apply list_elem_of_In, elem_of_seqZ; lia)). cbn beta in Hall.
    rewrite forallb_forall in Hall. specialize (Hall y ltac:(apply list_elem_of_In, elem_of_seqZ; lia)). cbn beta in Hall.
    destruct (grid_cell uneven x y) as [c|]; [|discriminate]. exists c. split; [reflexivity|lia].
  - intros dir d [_ Hd]%aget_Ok. apply list_elem_of_lookup_2 in Hd. revert d Hd. apply Forall_forall. repeat (constructor; [lia|]). constructor.
Qed.

(** C38: The bound is no lower bound when a cell is not a whole number of millimetres: distances are cut to int per move but the heuristic only after its product, so it is not consistent; a search for a path over cells of 1.5 mm answers 17 for its goal although a way of cost 15 leads there. *)
Theorem fractional_cells_overestimate : exists s a, construct 12 3 fractional = Ok s /\ search uneven 255 0 0 11 2 OPTPATHFOUND s = Ok (true, a) /\
  getlowerboundoncostfromstart_inmm a 11 2 = Ok 17 /\
  AraCore.walk (SbplGrid2DSpec.arcs 12 3 uneven 255 fractional_distances) (index 3 0 0) (index 3 11 2) 15.
Proof.
  destruct (grid_construct_ok _ _ _ _ _ _ uneven_map fractional (heap_ops 12 3 + 0) ltac:(vm_compute; reflexivity) ltac:(vm_compute; congruence)) as (s & Es & R & Hty & Hi & Ecs & _).
  exists s. assert (Fa : fair 12 3 uneven 255 fractional_distances 3 0 0 11 2 (fun _ => 0) 0 ALLCELLS s).
  { split; [exact uneven_map|split; lia|split; lia| |split; [lia|vm_compute; congruence]|intros i; reflexivity|rewrite Hi; vm_compute; reflexivity].
    intros i j c Hin. pose proof (arcs_nonneg _ _ _ _ _ _ uneven_map i j c Hin). lia. }
  destruct (heap_search_ok _ _ _ _ _ _ _ _ _ _ _ _ _ 0 s Fa R Hty ltac:(lia)) as (b & Eb & [_ Hx] & _).
  assert (Hc : complete 12 3 uneven 255 fractional_distances (index 3 0 0) (index 3 11 2) ALLCELLS).
  { split; [reflexivity|]. split; [vm_compute; congruence|]. intros i j c. apply (arcs_positive _ _ _ _ _ _ uneven_map).
    intros dir d [_ Hd]%aget_Ok. apply list_elem_of_lookup_2 in Hd. revert d Hd. apply Forall_forall. repeat (constructor; [lia|]). constructor. }
  destruct (Hx Hc 11 2 ltac:(split; lia)) as (v & Ev & _ & Hv).
  destruct (answer_split _ _ _ _ _ answer_exact) as (s1 & b1 & E1 & E2 & E3). rewrite Es in E1. injection E1 as <-. rewrite Eb in E2. injection E2 as <-.
  rewrite Ev in E3. injection E3 as ->. destruct (answer_split _ _ _ _ _ answer_path) as (s2 & a & E4 & E5 & E6). rewrite Es in E4. injection E4 as <-.
  exists a. split; [exact Es|]. split; [exact E5|]. split; [exact E6|]. destruct Hv as [Hv|[_ Hv]]; [discriminate|exact Hv].
Qed.

(** ** Witnesses *)

Definition sample_grid : list (list Z) := [[0; 7]; [0; 0]; [9; 0]].

Lemma sample_metre thresh : thresh <= 255 -> metre_grid 3 2 sample_grid thresh.
Proof.
  intros Ht. split; [unfold far; lia|unfold far; lia| |exact Ht]. intros x y [Hx Hy].
  assert (E : (x = 0 \/ x = 1 \/ x = 2) /\ (y = 0 \/ y = 1)) by lia. destruct E as [[-> | [-> | ->]] [-> | ->]]; eexists; (split; [reflexivity|lia]).
Qed.

Lemma sample_inside x y : inside 3 2 x y <-> (0 <= x < 3 /\ 0 <= y < 2).
Proof. reflexivity. Qed.

Lemma sample_object : exists s, construct 3 2 metre = Ok s /\ heap_ready 3 2 metre_distances (heap_ops 3 2 + 0) s /\
  OPENtype_ s = OPENTYPE_HEAP /\ iteration_ s = 0 /\ cellSize_m_ s = metre /\ OPEN2DBLIST_ s = None.
Proof.
  pose proof (sample_metre 255 ltac:(lia)) as [HW HH Hc Ht].
  exact (grid_construct_ok _ _ _ _ _ _ (metre_map 3 2 sample_grid 255 HW HH Hc Ht ltac:(vm_compute; reflexivity)) metre (heap_ops 3 2 + 0) metre_dxy ltac:(vm_compute; congruence)).
Qed.

Lemma grid_heap_search_correct_witness : exists s s', construct 3 2 metre = Ok s /\ search sample_grid 255 0 0 2 1 ALLCELLS s = Ok (true, s') /\
  exact 3 2 sample_grid 255 metre_distances 0 s'.
Proof.
  destruct sample_object as (s & Es & R & Hty & Hi & Ecs & _). exists s.
  destruct (grid_heap_search_correct 3 2 sample_grid 255 metre_distances 2236 0 0 2 1 (metre_heuristic 3 2 2 1 ALLCELLS) (1000 * far) ALLCELLS 0 s) as (s' & E & _ & Hx & _).
  - apply metre_fair; [apply sample_metre; lia|vm_compute; reflexivity|apply sample_inside; lia|apply sample_inside; lia|exact Ecs|rewrite Hi; vm_compute; reflexivity].
  - exact R.
  - exact Hty.
  - lia.
  - exists s'. split; [exact Es|]. split; [exact E|]. apply Hx; [reflexivity|vm_compute; congruence|exact metre_positive].
Defined.

Lemma path_search_optimal_witness : exists s s' v, construct 3 2 metre = Ok s /\ search sample_grid 255 0 0 1 1 OPTPATHFOUND s = Ok (true, s') /\
  getlowerboundoncostfromstart_inmm s' 1 1 = Ok v /\ v <= 1414.
Proof.
  destruct sample_object as (s & Es & R & Hty & Hi & Ecs & _). exists s.
  assert (Hw : AraCore.walk (SbplGrid2DSpec.arcs 3 2 sample_grid 255 metre_distances) (index 2 0 0) (index 2 1 1) 1414).
  { apply (AraCore.walk_step _ _ (index 2 0 0) (index 2 1 1) 0 1414); [constructor|]. apply arcs_in. exists 0. split; [unfold NUMOF2DDIRS; lia|vm_compute; reflexivity]. }
  destruct (path_search_optimal 3 2 sample_grid 255 metre_distances 2236 0 0 1 1 (metre_heuristic 3 2 1 1 OPTPATHFOUND) (1000 * far) 0 s 1414) as (s' & v & E & Ev & _ & Hm).
  - apply metre_fair; [apply sample_metre; lia|vm_compute; reflexivity|apply sample_inside; lia|apply sample_inside; lia|exact Ecs|rewrite Hi; vm_compute; reflexivity].
  - exact R.
  - exact Hty.
  - lia.
  - exact Hw.
  - lia.
  - exists s', v. split; [exact Es|]. split; [exact E|]. split; [exact Ev|]. exact (Hm 1414 Hw).
Defined.

Lemma grid_buckets_search_correct_witness : exists b s', setOPENdatastructure OPENTYPE_SLIDINGBUCKETS b = Ok s' /\
  match search sample_grid 254 0 0 2 1 OPTPATHFOUND s' with
  | Ok (r, s'') => r = true /\ lower_bound 3 2 sample_grid 254 metre_distances 0 (metre_heuristic 3 2 2 1 OPTPATHFOUND) s''
  | Err e => False
  end.
Proof.
  destruct sample_object as (s & Es & R & Hty & Hi & Ecs & Hl). pose proof (sample_metre 254 ltac:(lia)) as Mg. pose proof Mg as [HW HH Hc Ht].
  pose proof (metre_map 3 2 sample_grid 254 HW HH Hc Ht ltac:(vm_compute; reflexivity)) as M.
  destruct (set_buckets_ok _ _ _ _ _ _ M s _ R Hl ltac:(vm_compute; reflexivity) ltac:(vm_compute; congruence)) as (b & c & q & Eb & Rb & Ec & Rq & Hn & Hb & Hbt & Hbi & Hbc & _).
  exists s, b. split; [exact Eb|].
  pose proof (grid_buckets_search_correct 3 2 sample_grid 254 metre_distances 2236 0 0 2 1 (metre_heuristic 3 2 2 1 OPTPATHFOUND) (1000 * far) OPTPATHFOUND b c q) as Ho.
  refine ((fun X => _) (Ho _ Rb Hbt Ec Rq)); [|apply metre_fair; [exact Mg|vm_compute; reflexivity|apply sample_inside; lia|apply sample_inside; lia|congruence|rewrite Hbi, Hi; vm_compute; reflexivity]].
  destruct (search _ _ _ _ _ _ _ b) as [[r s'']|e]; [split; apply X|]. destruct X as [_ [X|X]]; [rewrite Hb in X; revert X; vm_compute; congruence|].
  rewrite Hn in X. revert X. change (foldl Z.max 0 metre_distances) with 2236. lia.
Defined.

Lemma new_metre_search_witness : exists s s', construct 3 2 metre = Ok s /\ search sample_grid 255 0 0 2 1 OPTPATHFOUND s = Ok (true, s').
Proof.
  destruct (new_metre_search 3 2 sample_grid 255 0 0 2 1 OPTPATHFOUND) as (s & s' & E1 & E2 & _).
  - apply sample_metre. lia.
  - lia.
  - apply sample_inside. lia.
  - apply sample_inside. lia.
  - exists s, s'. split; assumption.
Defined.

Lemma open_structures_agree_witness : exists s s1 b b1, construct 3 2 metre = Ok s /\ search sample_grid 254 0 0 2 1 ALLCELLS s = Ok (true, s1) /\
  setOPENdatastructure OPENTYPE_SLIDINGBUCKETS s = Ok b /\ search sample_grid 254 0 0 2 1 ALLCELLS b = Ok (true, b1) /\
  getlowerboundoncostfromstart_inmm s1 2 0 = getlowerboundoncostfromstart_inmm b1 2 0.
Proof.
  destruct (open_structures_agree 3 2 sample_grid 254 0 0 2 1) as (s & s1 & b & b1 & E1 & E2 & E3 & E4 & E5).
  - apply sample_metre. lia.
  - lia.
  - lia.
  - apply sample_inside. lia.
  - apply sample_inside. lia.
  - vm_compute. congruence.
  - exists s, s1, b, b1. split; [exact E1|]. split; [exact E2|]. split; [exact E3|]. split; [exact E4|]. apply E5, sample_inside. lia.
Defined.

Lemma back_to_heap_crashes_witness : exists s b s', construct 3 2 millimetre = Ok s /\ setOPENdatastructure OPENTYPE_SLIDINGBUCKETS s = Ok b /\
  setOPENdatastructure OPENTYPE_HEAP b = Ok s' /\ search sample_grid 255 0 0 2 1 ALLCELLS s' = Err OutOfBounds.
Proof.
  destruct (construct 3 2 millimetre) as [s|e] eqn:Es; [|vm_compute in Es; discriminate]. exists s.
  destruct (setOPENdatastructure OPENTYPE_SLIDINGBUCKETS s) as [b|e] eqn:Eb; [|vm_compute in Es; injection Es as <-; vm_compute in Eb; discriminate].
  exists b, (set_type OPENTYPE_HEAP b). split; [reflexivity|]. split; [reflexivity|]. split; [reflexivity|].
  apply (back_to_heap_crashes s b); [exact Eb|reflexivity|]. vm_compute in Es. injection Es as <-. vm_compute in Eb. injection Eb as <-. vm_compute. split; congruence.
Defined.

Lemma allcells_from_goal_zero_witness : exists s s', construct 3 2 metre = Ok s /\ search sample_grid 255 1 1 1 1 ALLCELLS s = Ok (true, s') /\
  getlowerboundoncostfromstart_inmm s' 2 0 = Ok 0.
Proof.
  destruct sample_object as (s & Es & R & Hty & Hi & Ecs & _). pose proof (sample_metre 255 ltac:(lia)) as [HW HH Hc Ht].
  destruct (allcells_from_goal_zero 3 2 sample_grid 255 metre_distances 2236 1 1 0 s) as (s' & E & Hz).
  - exact (metre_map 3 2 sample_grid 255 HW HH Hc Ht ltac:(vm_compute; reflexivity)).
  - apply sample_inside. lia.
  - exact R.
  - exact Hty.
  - rewrite Hi. vm_compute. reflexivity.
  - lia.
  - exists s, s'. split; [exact Es|]. split; [exact E|]. apply Hz, sample_inside. lia.
Defined.
End SbplGrid2DProps.
