(* ===== verification/Pase.v ===== *)
(** * PASE (src/src/pase.hpp)

    [pase]: a multimap of open vertices ordered by priority, guarded by a mutex.
    A worker expands a vertex only when every vertex before it in the order is
    independent of it.  The workers are a step relation; the loop of
    [find_independent] is a step per iteration, because it reads the done flag,
    which is not guarded; a comparison with the vertices before is part of the
    iteration, because all it reads is. *)

From S2P Require Import Prelude.
From S2P Require Import Interfaces.

Module Pase.
Record pase_state := mkState { is_expanded : bool; being_expanded : bool; g : Z; pred : Z }.

(** The object the search returns. *)
Record PASEResult := mkResult {
  n : Z;
  states : list pase_state;
  pebbles : option (list Z);
}.

#[export] Instance PASEResult_SearchResult : SearchResult PASEResult := {|
  Interfaces.is_expanded r vertex := s ← aget (states r) vertex; Ok (is_expanded s);
  Interfaces.predecessor r vertex := s ← aget (states r) vertex; Ok (pred s);
  Interfaces.g r vertex := s ← aget (states r) vertex; Ok (g s);
  Interfaces.pebble r vertex :=
    match pebbles r with Some p => aget p vertex | None => Ok (-1) end;
|}.

(** ** [std::multimap<int, int>] *)

(** A node; [nid] is its identity, which iterators refer to. *)
Record node := mkNode { nid : Z; first : Z; second : Z }.
(** [fresh]: the identity of the next node. *)
Record multimap := mkMap { nodes : list node; fresh : Z }.
(** [None] is [end ()]. *)
Abbreviation iterator := (option Z).

(** The nodes before and after the one an iterator refers to. *)
Fixpoint split_at (it : Z) (l : list node) : option (list node * node * list node) :=
  match l with
  | [] => None
  | x :: l =>
      if nid x =? it then Some ([], x, l)
      else '(b, y, a) ← split_at it l; Some (x :: b, y, a)
  end.

(** An iterator must refer to a node that has not been erased. *)
Definition locate (it : iterator) (m : multimap) : res (list node * node * list node) :=
  match it with
  | Some i => match split_at i (nodes m) with Some r => Ok r | None => Err OutOfBounds end
  | None => Err OutOfBounds
  end.

Definition head_of (l : list node) : iterator := nid <$> head l.
Definition begin_ (m : multimap) : iterator := head_of (nodes m).

(** After the nodes with the same key. *)
Fixpoint insert_node (x : node) (l : list node) : list node :=
  match l with
  | [] => [x]
  | y :: l => if first x <? first y then x :: y :: l else y :: insert_node x l
  end.

Definition insert_locked (fv v : Z) (m : multimap) : multimap :=
  mkMap (insert_node (mkNode (fresh m) fv v) (nodes m)) (fresh m + 1).

(** [erase]: the iterator after the node. *)
Definition remove_locked (it : iterator) (m : multimap) : res (iterator * multimap) :=
  '(b, _, a) ← locate it m;
  Ok (head_of a, mkMap (b ++ a) (fresh m)).

(** ** The workers *)

(** [it] refers to the node of the vertex [v] the worker expands. *)
Inductive pc :=
  | TestDone                                              (** [!is_done.load ()] *)
  | LockFind
  | Find (itv : iterator)                                 (** the loop of [find_independent] *)
  | UnlockFind (result : iterator)
  | Chosen (it : Z)                                       (** [itv->second] and the pebble *)
  | SetDone
  | ReadG (it v : Z)                                      (** [int vdist = states[v].g], without the lock *)
  | LockRelax (it v vdist : Z)
  | Relax (it v vdist : Z) (todo : list (Z * Z))
  | Unlock
  | Halted.

(** The mutex of [Locked]: the worker that holds it. *)
Definition mutex : Type := option Z.
Definition mutex_lock (m : mutex) (id : Z) : option mutex :=
  match m with None => Some (Some id) | Some _ => None end.
Definition mutex_unlock (m : mutex) : mutex := None.

Section machine.
Context {G : Type} {gops : GraphOps G}.
Context (graph : G) (heuristic : Z -> Z -> Z) (source destination : Z).

Record global := mkGlobal {
  table : list pase_state;
  peb : option (list Z);
  M : multimap;
  locked : mutex;
  is_done : bool;
  workers : Z -> pc;
}.

Definition goto (s : global) (id : Z) (p : pc) : global :=
  mkGlobal (table s) (peb s) (M s) (locked s) (is_done s) (upd (workers s) id p).
Definition set_locked (s : global) (m : mutex) : global :=
  mkGlobal (table s) (peb s) (M s) m (is_done s) (workers s).
Definition set_table (s : global) (t : list pase_state) (m : multimap) : global :=
  mkGlobal t (peb s) m (locked s) (is_done s) (workers s).

(** [for (itu = M.begin (); valid && itu != itv; itu++)] *)
Fixpoint independent (t : list pase_state) (v : Z) (before : list node) (valid : bool) : res bool :=
  match before with
  | [] => Ok valid
  | u :: before =>
      if valid then
        su ← aget t (second u);
        sv ← aget t v;
        f ← add_int int32 (g su) (heuristic (second u) v);
        independent t v before (g sv <=? f)
      else Ok false
  end.

(** The callback of [for_each_neighbor_of]. *)
Definition relax (v vdist nbr weight : Z) (t : list pase_state) (m : multimap) : res (list pase_state * multimap) :=
  nbrdist ← add_int int32 vdist weight;
  a ← aget t nbr;
  if nbrdist <? g a then
    t ← aset t nbr (mkState (is_expanded a) (being_expanded a) nbrdist v);
    p ← add_int int32 nbrdist (heuristic nbr destination);
    Ok (t, insert_locked p nbr m)
  else Ok (t, m).

(** The arcs on which [for_each_neighbor_of (v, f)] calls [f], in order. *)
Definition arcs_of (v : Z) : res (list (Z * Z)) :=
  for_each_neighbor_of graph v (fun nbr weight acc => Ok (acc ++ [(nbr, weight)])) [].

(** An iteration of [find_independent] while the flag is not set. *)
Definition find_step (id : Z) (itv : iterator) (s : global) : res global :=
  '(b, x, a) ← locate itv (M s);
  let v := second x in
  sv ← aget (table s) v;
  if is_expanded sv then
    '(itv, m) ← remove_locked itv (M s);
    Ok (goto (set_table s (table s) m) id (Find itv))
  else
    valid ← independent (table s) v b (negb (being_expanded sv));
    if valid : bool then
      t ← aset (table s) v (mkState (is_expanded sv) true (g sv) (pred sv));
      Ok (goto (set_table s t (M s)) id (UnlockFind itv))
    else Ok (goto s id (Find (head_of a))).

(** One step of worker [id].  A worker that waits for the lock stays where it
    is; [hiccup], [yield] and [simulate_get_successors] do nothing. *)
Definition wstep (id : Z) (s : global) : res global :=
  match workers s id with
  | TestDone => Ok (goto s id (if is_done s then Halted else LockFind))
  | LockFind =>
      match mutex_lock (locked s) id with
      | Some m => Ok (goto (set_locked s m) id (Find (begin_ (M s))))
      | None => Ok s
      end
  | Find itv =>
      if is_done s then Ok (goto s id (UnlockFind None))
      else match itv with
        | None => Ok (goto s id (UnlockFind None))
        | Some _ => find_step id itv s
        end
  | UnlockFind result =>
      Ok (goto (set_locked s (mutex_unlock (locked s))) id
            (match result with None => TestDone | Some it => Chosen it end))
  | Chosen it =>
      '(_, x, _) ← locate (Some it) (M s);
      let v := second x in
      p ← match peb s with Some p => p ← aset p v id; Ok (Some p) | None => Ok None end;
      Ok (goto (mkGlobal (table s) p (M s) (locked s) (is_done s) (workers s)) id
            (if v =? destination then SetDone else ReadG it v))
  | SetDone => Ok (goto (mkGlobal (table s) (peb s) (M s) (locked s) true (workers s)) id Halted)
  | ReadG it v => a ← aget (table s) v; Ok (goto s id (LockRelax it v (g a)))
  | LockRelax it v vdist =>
      match mutex_lock (locked s) id with
      | Some m => todo ← arcs_of v; Ok (goto (set_locked s m) id (Relax it v vdist todo))
      | None => Ok s
      end
  | Relax it v vdist ((nbr, weight) :: todo) =>
      '(t, m) ← relax v vdist nbr weight (table s) (M s);
      Ok (goto (set_table s t m) id (Relax it v vdist todo))
  | Relax it v vdist [] =>
      a ← aget (table s) v;
      t ← aset (table s) v (mkState true (being_expanded a) (g a) (pred a));
      '(_, m) ← remove_locked (Some it) (M s);
      Ok (goto (set_table s t m) id Unlock)
  | Unlock => Ok (goto (set_locked s (mutex_unlock (locked s))) id TestDone)
  | Halted => Ok s
  end.

Definition step (s s' : global) : Prop := exists id, wstep id s = Ok s'.

(** The code before [parallel_while]. *)
Definition start (pebble : bool) : res global :=
  let N := number_vertices graph in
  let t := replicate (Z.to_nat N) (mkState false false INT_MAX (-1)) in
  let p := if pebble then Some (replicate (Z.to_nat N) (-1)) else None in
  a ← aget t source;
  t ← aset t source (mkState (is_expanded a) (being_expanded a) 0 (pred a));
  Ok (mkGlobal t p (insert_locked (heuristic source destination) source (mkMap [] 0)) None false (fun _ => TestDone)).

(** What [pase] returns when [parallel_while] is over. *)
Definition result (s : global) : PASEResult := mkResult (number_vertices graph) (table s) (peb s).

(** Runs along a schedule. *)
Fixpoint run (sched : list Z) (s : global) : res global :=
  match sched with
  | [] => Ok s
  | id :: sched => s ← wstep id s; run sched s
  end.

Lemma pase_run_steps sched s s' : run sched s = Ok s' -> rtc step s s'.
Proof.
  revert s; induction sched as [|id sched IH]; intros s E; cbn in E; inv_res.
  - constructor.
  - econstructor; [|apply IH; exact E]. exists id. assumption.
Qed.
End machine.
End Pase.
