(* ===== verification/PaseSpec.v ===== *)
(** * Properties of PASE

    The invariant of the workers and the multimap, and what follows: no step
    fails, the flag comes with a path, and with a consistent heuristic a vertex
    is expanded only when its g-value is the length of a shortest walk. *)

From Stdlib Require Import Sorting.Sorted.
From S2P Require Import Prelude.
From S2P Require Import Interfaces.
From S2P Require Import Paths.
From S2P Require Import SearchSpec.
From S2P Require Import WGraph.
From S2P Require Import GridGraphs.
From S2P Require Import Pase.

Module PaseSpec.
Import Pase.

(** ** The multimap *)

Lemma split_at_Some it l b x a : split_at it l = Some (b, x, a) -> l = b ++ x :: a /\ nid x = it.
Proof.
  revert b; induction l as [|y l IH]; intros b; cbn; [discriminate|].
  destruct (Z.eqb_spec (nid y) it) as [E|E]; [intros [= <- <- <-]; auto|].
  destruct (split_at it l) as [[[b' x'] a']|]; [|discriminate]. cbn. intros [= <- -> ->].
  destruct (IH b' eq_refl) as [-> Hn]. auto.
Qed.

Lemma split_at_in it l x : x ∈ l -> nid x = it -> NoDup (nid <$> l) -> exists b a, split_at it l = Some (b, x, a).
Proof.
  induction l as [|y l IH]; intros Hin Hn Hnd; [inversion Hin|]. rewrite fmap_cons in Hnd. inversion Hnd as [|? ? Hy Hnd']; subst.
  cbn. destruct (Z.eqb_spec (nid y) (nid x)) as [E|E].
  - apply elem_of_cons in Hin as [->|Hin]; [eauto|]. exfalso. apply Hy. rewrite E. apply list_elem_of_fmap_2. exact Hin.
  - apply elem_of_cons in Hin as [->|Hin]; [contradiction|]. destruct (IH Hin eq_refl Hnd') as (b & a & ->). cbn. eauto.
Qed.

Lemma insert_node_perm x l : insert_node x l ≡ₚ x :: l.
Proof.
  induction l as [|y l IH]; cbn; [reflexivity|]. destruct (first x <? first y); [reflexivity|].
  rewrite IH. apply Permutation_swap.
Qed.

Abbreviation sorted := (StronglySorted (fun x y => first x <= first y)).

Lemma insert_node_sorted x l : sorted l -> sorted (insert_node x l).
Proof.
  induction 1 as [|y l Hl IH Hy]; cbn; [repeat constructor|].
  destruct (Z.ltb_spec (first x) (first y)) as [Hlt|Hge].
  - constructor; [constructor; assumption|]. constructor; [lia|]. eapply Forall_impl; [exact Hy|]. cbn. lia.
  - constructor; [exact IH|]. rewrite insert_node_perm. constructor; [lia|exact Hy].
Qed.

Lemma sorted_app_remove b x a : sorted (b ++ x :: a) -> sorted (b ++ a).
Proof.
  induction b as [|y b IH]; cbn; intros H; inversion H as [|? ? Hs Hf]; subst; [exact Hs|].
  constructor; [apply IH; exact Hs|]. rewrite Forall_app, Forall_cons in Hf. apply Forall_app. tauto.
Qed.

(** A node of smaller key comes before. *)
Lemma sorted_before b x a y : sorted (b ++ x :: a) -> y ∈ b ++ x :: a -> first y < first x -> y ∈ b.
Proof.
  intros Hs Hy Hlt. apply elem_of_app in Hy as [Hy|Hy]; [exact Hy|]. exfalso.
  apply elem_of_cons in Hy as [->|Hy]; [lia|]. induction b as [|z b IH]; cbn in Hs; inversion Hs as [|? ? Hs' Hf]; subst; [|auto].
  rewrite Forall_forall in Hf. specialize (Hf y Hy). lia.
Qed.

(** ** The table *)

Definition D (t : list pase_state) (x : Z) : Z := aview g INT_MAX t x.
Definition Pr (t : list pase_state) (x : Z) : Z := aview pred (-1) t x.
Definition X (t : list pase_state) (x : Z) : bool := aview is_expanded false t x.
Definition B (t : list pase_state) (x : Z) : bool := aview being_expanded false t x.

Lemma table_get t x a : aget t x = Ok a -> D t x = g a /\ Pr t x = pred a /\ X t x = is_expanded a /\ B t x = being_expanded a.
Proof. intros E. unfold D, Pr, X, B. rewrite !(aview_get _ _ _ _ _ E). auto. Qed.

Lemma table_set t x a : 0 <= x < Z.of_nat (length t) -> let t' := <[Z.to_nat x := a]> t in
  (forall y, D t' y = if decide (y = x) then g a else D t y) /\
  (forall y, Pr t' y = if decide (y = x) then pred a else Pr t y) /\
  (forall y, X t' y = if decide (y = x) then is_expanded a else X t y) /\
  (forall y, B t' y = if decide (y = x) then being_expanded a else B t y).
Proof. intros Hx t'. split_and!; intros y; apply aview_insert; exact Hx. Qed.

(** The node a worker has chosen. *)
Definition node_of (p : pc) : option Z :=
  match p with
  | UnlockFind (Some it) | Chosen it | ReadG it _ | LockRelax it _ _ | Relax it _ _ _ => Some it
  | _ => None
  end.

(** The worker is between [pthread_mutex_lock] and [pthread_mutex_unlock]. *)
Definition holds (p : pc) : bool :=
  match p with Find _ | UnlockFind _ | Relax _ _ _ _ | Unlock => true | _ => false end.

Section specs.
Context {G : Type} {gops : GraphOps G} (gr : G) {glaws : GraphLaws gr}.
Context (heuristic : Z -> Z -> Z) (source destination : Z) (Wmax Hmax : Z).

Abbreviation N := (number_vertices gr).
Abbreviation edge := (arc gr).

(** The caller's obligations. *)
Record pase_pre : Prop := {
  pp_source : 0 <= source < N;
  pp_destination : 0 <= destination < N;
  pp_heur : forall u v, 0 <= u < N -> 0 <= v < N -> 0 <= heuristic u v <= Hmax;
  pp_weight : forall u v w, edge u v w -> w <= Wmax;
  pp_pos : 0 <= Wmax;
  pp_fit : N * Wmax + Hmax < INT_MAX;
}.
Context (pre : pase_pre).

Abbreviation wstep := (wstep gr heuristic destination).
Abbreviation steps := (rtc (step gr heuristic destination)).

(** ** The invariant *)

Implicit Types (t : list pase_state) (m : multimap) (loaded : list Z) (s : global).

(** The heuristic is consistent, towards every vertex. *)
Definition consistent : Prop := (forall v, 0 <= v < N -> heuristic v v = 0) /\
  forall u v w x, edge u v w -> 0 <= x < N -> heuristic u x <= w + heuristic v x.

Definition key_of t x : Z := D t x + heuristic x destination.

Record shared t m loaded : Prop := {
  sh_len : Z.of_nat (length t) = N;
  sh_sorted : sorted (nodes m);
  sh_nodup : NoDup (nid <$> nodes m);
  sh_fresh : forall x, x ∈ nodes m -> nid x < fresh m;
  sh_node : forall x, x ∈ nodes m -> 0 <= second x < N /\ D t (second x) < INT_MAX /\ key_of t (second x) <= first x;
  sh_open : forall x, D t x < INT_MAX -> X t x = false -> exists y, y ∈ nodes m /\ second y = x /\ first y = key_of t x;
  sh_tree : tree_inv edge INT_MAX source (D t) (Pr t);
  sh_expanded : forall x, X t x = true -> B t x = true /\ forall y w, (y, w) ∈ succs gr x -> D t y < INT_MAX;
  sh_busy : forall x, B t x = true -> 0 <= x < N /\ D t x < INT_MAX;
  sh_loaded : NoDup loaded /\ forall x, x ∈ loaded -> B t x = true;
  sh_bound : forall x, D t x < INT_MAX -> D t x <= Z.of_nat (length loaded) * Wmax;
  sh_optimal : consistent -> forall v c, B t v = true -> walk edge source v c -> D t v <= c;
  sh_closed : consistent -> forall x y w, X t x = true -> (y, w) ∈ succs gr x -> D t y <= D t x + w;
}.

(** A worker's node is in the multimap, its vertex flagged and not yet expanded. *)
Definition claim t m it v : Prop :=
  exists x, x ∈ nodes m /\ nid x = it /\ second x = v /\ B t v = true /\ X t v = false.

(** The g-value a worker has read. *)
Definition distance t loaded v vd : Prop :=
  walk edge source v vd /\ D t v <= vd /\ v ∈ loaded /\ vd <= (Z.of_nat (length loaded) - 1) * Wmax /\
  (consistent -> vd = D t v).

Definition wok t m loaded (p : pc) : Prop :=
  match p with
  | Find (Some it) => exists x, x ∈ nodes m /\ nid x = it
  | UnlockFind (Some it) | Chosen it => exists v, claim t m it v /\ v ∉ loaded
  | ReadG it v => claim t m it v /\ v ∉ loaded
  | LockRelax it v vd => claim t m it v /\ distance t loaded v vd
  | Relax it v vd todo => claim t m it v /\ distance t loaded v vd /\ (forall e, e ∈ todo -> e ∈ succs gr v) /\
      forall y w, (y, w) ∈ succs gr v -> (y, w) ∈ todo \/ D t y <= vd + w
  | SetDone => B t destination = true
  | _ => True
  end.

Record inv s loaded : Prop := {
  in_shared : shared (table s) (M s) loaded;
  in_peb : forall p, peb s = Some p -> Z.of_nat (length p) = N;
  in_lock : forall i, holds (workers s i) = true <-> locked s = Some i;
  in_workers : forall i, wok (table s) (M s) loaded (workers s i);
  in_unique : forall i j it jt v, node_of (workers s i) = Some it -> node_of (workers s j) = Some jt ->
    claim (table s) (M s) it v -> claim (table s) (M s) jt v -> i = j;
  in_done : is_done s = true -> B (table s) destination = true;
}.

Lemma claim_fun t m loaded it v v' : shared t m loaded -> claim t m it v -> claim t m it v' -> v = v'.
Proof.
  intros S (x & Hx & E & <- & _) (y & Hy & E' & <- & _).
  destruct (split_at_in it (nodes m) x Hx E (sh_nodup _ _ _ S)) as (b & a & H1).
  destruct (split_at_in it (nodes m) y Hy E' (sh_nodup _ _ _ S)) as (b' & a' & H2). congruence.
Qed.

Lemma locate_claim t m loaded it v : shared t m loaded -> claim t m it v ->
  exists b x a, locate (Some it) m = Ok (b, x, a) /\ nodes m = b ++ x :: a /\ nid x = it /\ second x = v.
Proof.
  intros S (x & Hx & E & Ev & _). destruct (split_at_in it (nodes m) x Hx E (sh_nodup _ _ _ S)) as (b & a & H1).
  exists b, x, a. cbn. rewrite H1. split; [reflexivity|]. destruct (split_at_Some _ _ _ _ _ H1). auto.
Qed.

Lemma wok_claim t m loaded p it : wok t m loaded p -> node_of p = Some it -> exists v, claim t m it v.
Proof.
  destruct p as [| |itv|[r|]|r| |r v|r v vd|r v vd todo| |]; cbn; intros W E; try discriminate; injection E as <-.
  - destruct W as (v & C & _). eauto.
  - destruct W as (v & C & _). eauto.
  - exists v. apply W.
  - exists v. apply W.
  - exists v. apply W.
Qed.

(** What the step of another worker has to respect. *)
Lemma wok_mono t m loaded t' m' loaded' p : shared t m loaded -> shared t' m' loaded' -> wok t m loaded p ->
  (forall x, B t x = true -> B t' x = true) -> (forall x, D t' x <= D t x) ->
  (forall it v, node_of p = Some it -> claim t m it v -> claim t' m' it v) ->
  (forall it, p = Find (Some it) -> m' = m) ->
  (forall it v, node_of p = Some it -> claim t m it v -> v ∉ loaded -> v ∉ loaded') ->
  (forall v, v ∈ loaded -> v ∈ loaded') -> (length loaded <= length loaded')%nat ->
  wok t' m' loaded' p.
Proof using pre.
  intros S S' W HB HD HC HF HL Hl Hlen. pose proof (pp_pos pre) as HW.
  assert (Hdist : forall v vd, distance t loaded v vd -> distance t' loaded' v vd).
  { intros v vd (H1 & H2 & H3 & H4 & H5). split; [exact H1|]. pose proof (HD v). split; [lia|]. split; [auto|].
    split; [nia|]. intros Hcon. rewrite (H5 Hcon). apply Z.le_antisymm; [|apply HD].
    pose proof (proj2 (sh_loaded _ _ _ S) v H3) as Hb. apply (sh_optimal _ _ _ S Hcon v _ Hb).
    apply (ti_walk _ _ _ _ _ (sh_tree _ _ _ S')). apply (sh_busy _ _ _ S'). auto. }
  destruct p as [| |[itv|]|[r|]|r| |r v|r v vd|r v vd todo| |]; cbn in *; auto.
  - rewrite (HF itv eq_refl). exact W.
  - destruct W as (v & C & Hn). exists v. split; [apply HC; auto|eapply HL; eauto].
  - destruct W as (v & C & Hn). exists v. split; [apply HC; auto|eapply HL; eauto].
  - destruct W as (C & Hn). split; [apply HC; auto|eapply HL; eauto].
  - destruct W as (C & Hd). split; [apply HC; auto|auto].
  - destruct W as (C & Hd & H1 & H2). split; [apply HC; auto|]. split; [auto|]. split; [exact H1|].
    intros y w Hin. destruct (H2 y w Hin) as [|H]; [auto|]. right. pose proof (HD y). lia.
Qed.

(** A step of one worker: the facts about all of them from those about it. *)
Lemma inv_step s loaded id p t' pb' m' lk' dn' loaded' : inv s loaded -> shared t' m' loaded' ->
  (forall q, pb' = Some q -> Z.of_nat (length q) = N) ->
  (holds p = true <-> lk' = Some id) -> (forall i, i <> id -> locked s = Some i <-> lk' = Some i) ->
  wok t' m' loaded' p ->
  (forall i, i <> id -> wok (table s) (M s) loaded (workers s i) -> wok t' m' loaded' (workers s i)) ->
  (forall i it v, i <> id -> node_of (workers s i) = Some it -> claim (table s) (M s) it v -> claim t' m' it v) ->
  (forall it i jt v, node_of p = Some it -> claim t' m' it v -> i <> id -> node_of (workers s i) = Some jt ->
     claim (table s) (M s) jt v -> False) ->
  (dn' = true -> B t' destination = true) ->
  inv (mkGlobal t' pb' m' lk' dn' (upd (workers s) id p)) loaded'.
Proof.
  intros [S Hpb L W U Dn] S' Hpb' Hp Hlk Wp Wo Hc Hu Hdn.
  assert (Hold : forall i it v, i <> id -> node_of (workers s i) = Some it -> claim t' m' it v -> claim (table s) (M s) it v).
  { intros i it v Hi Hn C. destruct (wok_claim _ _ _ _ _ (W i) Hn) as [v0 C0].
    pose proof (Hc i it v0 Hi Hn C0) as C1. rewrite (claim_fun _ _ _ _ _ _ S' C C1). exact C0. }
  split; cbn; auto.
  - intros i. unfold upd. case_decide as Ei; [subst; exact Hp|]. rewrite L. auto.
  - intros i. unfold upd. case_decide as Ei; [exact Wp|]. auto.
  - intros i j it jt v. unfold upd. case_decide as Ei; case_decide as Ej; intros Hi Hj Ci Cj; subst; auto.
    + exfalso. eapply Hu; eauto.
    + exfalso. eapply Hu; eauto.
    + eapply U; eauto.
Qed.
(** ** Steps *)

Ltac inv_field I0 :=
  first [exact (in_peb _ _ I0)|exact (in_done _ _ I0)|exact (in_lock _ _ I0)|exact (in_shared _ _ I0)].

(** ** Facts about the shared state *)

Lemma pase_loaded_length t m loaded : shared t m loaded -> Z.of_nat (length loaded) <= N.
Proof.
  intros S. pose proof (number_vertices_nonneg (g := gr)). destruct (sh_loaded _ _ _ S) as [H1 H2].
  pose proof (NoDup_range_length loaded N H1) as Hl. rewrite Z.max_r in Hl by assumption. apply Hl.
  intros x Hx. apply (sh_busy _ _ _ S x). auto.
Qed.

Lemma pase_D_nonneg t m loaded x : shared t m loaded -> 0 <= D t x.
Proof. intros S. eapply ti_nonneg; [apply arc_nonneg|apply (sh_tree _ _ _ S)]. Qed.

(** Removing the node of an expanded vertex. *)
Lemma shared_remove t m loaded b x a : shared t m loaded -> nodes m = b ++ x :: a -> X t (second x) = true ->
  shared t (mkMap (b ++ a) (fresh m)) loaded.
Proof.
  intros [S1 S2 S3 S4 S5 S6 S7 S8 S9 S10 S11 S12 S13] Hm Hx. rewrite Hm in *.
  assert (Hsub : forall y, y ∈ b ++ a -> y ∈ b ++ x :: a) by (intros y; rewrite !elem_of_app, elem_of_cons; tauto).
  split; cbn; auto.
  - eapply sorted_app_remove. exact S2.
  - rewrite fmap_app in *. rewrite fmap_cons in S3. apply NoDup_app in S3 as (N1 & N2 & N3).
    inversion N3; subst. apply NoDup_app. split_and!; auto. intros y Hy Hy'. apply (N2 y Hy). right. exact Hy'.
  - intros y Hd Hxy. destruct (S6 y Hd Hxy) as (z & Hz & E1 & E2). exists z. split; [|auto].
    revert Hz. rewrite !elem_of_app, elem_of_cons. intros [|[->|]]; auto. congruence.
Qed.

(** ... leaves the nodes of the other vertices. *)
Lemma claim_remove t m loaded b x a it v : shared t m loaded -> nodes m = b ++ x :: a -> second x <> v -> claim t m it v ->
  claim t (mkMap (b ++ a) (fresh m)) it v.
Proof.
  intros S Hm Hne (y & Hy & E1 & E2 & E3). exists y. split; [|auto]. cbn. rewrite Hm in Hy.
  revert Hy. rewrite !elem_of_app, elem_of_cons. intros [|[->|]]; auto. contradiction.
Qed.

(** Rest of a walk whose vertices have not all been expanded. *)
Lemma unexpanded t m loaded v c : shared t m loaded -> consistent -> walk edge source v c ->
  D t v <= c \/ exists u c1 c2, D t u <= c1 /\ walk edge u v c2 /\ c1 + c2 = c /\ X t u = false.
Proof.
  intros S Hcon. induction 1 as [|x y c w Hw IH He].
  - left. rewrite (ti_src _ _ _ _ _ (sh_tree _ _ _ S)). lia.
  - destruct IH as [IH|(u & c1 & c2 & H1 & H2 & H3 & H4)].
    + destruct (X t x) eqn:Ex.
      * left. pose proof (sh_closed _ _ _ S Hcon x y w Ex (proj2 He)). lia.
      * right. exists x, c, w. split; [exact IH|]. split; [|auto]. rewrite <- (Z.add_0_l w). econstructor; [constructor|exact He].
    + right. exists u, c1, (c2 + w). split; [exact H1|]. split; [econstructor; eassumption|]. split; [lia|exact H4].
Qed.

Lemma pase_consistent_walk u v c x : consistent -> walk edge u v c -> 0 <= x < N -> heuristic u x <= c + heuristic v x.
Proof. intros [_ Hc] Hw Hx. induction Hw as [|y z c w _ IH He]; [lia|]. pose proof (Hc _ _ _ x He Hx). lia. Qed.

(** A vertex independent of all vertices before it has its final g-value. *)
Lemma independent_optimal t m loaded b x a c : shared t m loaded -> consistent -> nodes m = b ++ x :: a ->
  (forall u, u ∈ b -> D t (second x) <= D t (second u) + heuristic (second u) (second x)) ->
  walk edge source (second x) c -> D t (second x) <= c.
Proof using pre.
  intros S Hcon Hm Hind Hw. destruct (unexpanded t m loaded _ c S Hcon Hw) as [|(u & c1 & c2 & H1 & H2 & H3 & H4)]; [assumption|].
  destruct (Z.le_gt_cases (D t (second x)) c) as [|Hgt]; [assumption|].
  assert (Hin : x ∈ nodes m) by (rewrite Hm; apply elem_of_app; right; left).
  destruct (sh_node _ _ _ S x Hin) as (Hr & Hd & Hk).
  pose proof (walk_nonneg edge (arc_nonneg gr) _ _ _ H2).
  destruct (sh_open _ _ _ S u) as (y & Hy & Ey & Ek); [lia|exact H4|].
  pose proof (pase_consistent_walk _ _ _ destination Hcon H2 (pp_destination pre)) as Hh.
  assert (Hyb : y ∈ b).
  { rewrite Hm in Hy. eapply sorted_before; [rewrite <- Hm; apply (sh_sorted _ _ _ S)|exact Hy|].
    unfold key_of in *. lia. }
  specialize (Hind y Hyb). rewrite Ey in Hind. pose proof (pase_consistent_walk _ _ _ (second x) Hcon H2 Hr) as Hh'.
  rewrite (proj1 Hcon _ Hr) in Hh'. lia.
Qed.

(** Claiming a vertex. *)
Lemma shared_flag t t' m loaded v : shared t m loaded -> length t' = length t -> (forall y, D t' y = D t y) ->
  (forall y, Pr t' y = Pr t y) -> (forall y, X t' y = X t y) -> (forall y, B t' y = true <-> B t y = true \/ y = v) ->
  0 <= v < N -> D t v < INT_MAX -> (consistent -> forall c, walk edge source v c -> D t v <= c) -> shared t' m loaded.
Proof.
  intros [S1 S2 S3 S4 S5 S6 S7 S8 S9 S10 S11 S12 S13] Hl HD HP HX HB Hv Hd Ho.
  unfold key_of in *. split; auto.
  - rewrite Hl. exact S1.
  - intros x Hx. unfold key_of. rewrite HD. auto.
  - intros x. unfold key_of. rewrite HD, HX. auto.
  - apply (tree_inv_ext _ _ _ (D t) (Pr t)); auto.
  - intros x. rewrite HX. intros Hx. destruct (S8 x Hx) as [H1 H2]. split; [apply HB; auto|]. intros y w. rewrite HD. apply H2.
  - intros x. rewrite HB, HD. intros [Hx| ->]; auto.
  - split; [apply S10|]. intros x Hx. apply HB. left. apply S10. exact Hx.
  - intros x. rewrite HD. apply S11.
  - intros Hc x c. rewrite HB, HD. intros [Hx| ->]; eauto.
  - intros Hc x y w. rewrite !HD, HX. apply S13. exact Hc.
Qed.

(** The multimap and the table after an arc was relaxed. *)
Lemma shared_relax t t' m loaded v vd nbr w : shared t m loaded -> length t' = length t ->
  edge v nbr w -> distance t loaded v vd -> vd + w < D t nbr ->
  (forall y, D t' y = if decide (y = nbr) then vd + w else D t y) ->
  (forall y, Pr t' y = if decide (y = nbr) then v else Pr t y) ->
  (forall y, X t' y = X t y) -> (forall y, B t' y = B t y) ->
  shared t' (insert_locked (vd + w + heuristic nbr destination) nbr m) loaded.
Proof using pre.
  intros S Hl He (Hwalk & Hle & Hin & Hroom & Hcon) Hlt HD HP HX HB. pose proof (pase_loaded_length _ _ _ S) as Hlen.
  pose proof (arc_nonneg gr _ _ _ He) as Hw0. pose proof (pp_weight pre _ _ _ He) as Hw. pose proof (pp_pos pre) as HW.
  pose proof (pp_fit pre) as Hfit. pose proof (arc_range gr _ _ _ He) as Hnr. pose proof (pp_heur pre _ _ Hnr (pp_destination pre)) as Hh.
  pose proof (walk_nonneg edge (arc_nonneg gr) _ _ _ Hwalk) as Hvd0.
  assert (Hsum : vd + w <= Z.of_nat (length loaded) * Wmax) by nia.
  assert (Hinf : vd + w < INT_MAX) by nia.
  assert (Hmono : forall y, D t' y <= D t y) by (intros y; rewrite HD; case_decide; subst; lia).
  assert (Hreach : forall y, D t y < INT_MAX -> D t' y < INT_MAX) by (intros y Hy; pose proof (Hmono y); lia).
  destruct S as [S1 S2 S3 S4 S5 S6 S7 S8 S9 S10 S11 S12 S13].
  set (x0 := mkNode (fresh m) (vd + w + heuristic nbr destination) nbr).
  assert (Hnodes : forall y, y ∈ nodes (insert_locked (vd + w + heuristic nbr destination) nbr m) <-> y = x0 \/ y ∈ nodes m).
  { intros y. cbn. rewrite insert_node_perm. apply elem_of_cons. }
  split; auto.
  - rewrite Hl. exact S1.
  - apply insert_node_sorted. exact S2.
  - cbn. rewrite insert_node_perm, fmap_cons. constructor; [|exact S3]. intros (y & E & Hy)%list_elem_of_fmap.
    cbn in E. specialize (S4 y Hy). lia.
  - intros y [->|Hy]%Hnodes; cbn; [lia|]. specialize (S4 y Hy). lia.
  - intros y [->|Hy]%Hnodes.
    + unfold x0. cbn [first second]. split; [exact Hnr|]. unfold key_of. rewrite HD, decide_True by reflexivity. lia.
    + destruct (S5 y Hy) as (E1 & E2 & E3). split; [exact E1|]. split; [auto|]. unfold key_of in *. pose proof (Hmono (second y)). lia.
  - intros y Hy HyX. rewrite HX in HyX. unfold key_of. rewrite HD in *. case_decide as E.
    + exists x0. rewrite Hnodes. subst y. auto.
    + destruct (S6 y Hy HyX) as (z & Hz & E1 & E2). exists z. rewrite Hnodes. auto.
  - apply (tree_inv_relax _ (arc_nonneg gr) INT_MAX source (D t) (Pr t) _ _ v nbr w vd); auto.
  - intros y. rewrite HX, HB. intros Hy. destruct (S8 y Hy) as [H1 H2]. eauto.
  - intros y. rewrite HB. intros Hy. destruct (S9 y Hy). auto.
  - split; [apply S10|]. intros y Hy. rewrite HB. apply S10. exact Hy.
  - intros y. rewrite HD. case_decide; [intros _; exact Hsum|apply S11].
  - intros Hc y c. rewrite HB. intros Hy Hyw. pose proof (S12 Hc y c Hy Hyw). pose proof (Hmono y). lia.
  - intros Hc x y w'. rewrite HX. intros Hx Hxy. pose proof (S13 Hc x y w' Hx Hxy). pose proof (Hmono y).
    rewrite (HD x). case_decide as E; [|lia]. subst x. exfalso.
    assert (Hn : D t nbr <= vd + w); [|lia]. apply (S12 Hc); [apply S8; exact Hx|]. econstructor; eassumption.
Qed.

(** Expanding a vertex whose arcs have been relaxed. *)
Lemma shared_expand t t' m loaded v vd b x a : shared t m loaded -> length t' = length t ->
  nodes m = b ++ x :: a -> second x = v -> B t v = true -> distance t loaded v vd ->
  (forall y w, (y, w) ∈ succs gr v -> D t y <= vd + w) ->
  (forall y, D t' y = D t y) -> (forall y, Pr t' y = Pr t y) ->
  (forall y, X t' y = if decide (y = v) then true else X t y) -> (forall y, B t' y = B t y) ->
  shared t' (mkMap (b ++ a) (fresh m)) loaded.
Proof using pre.
  intros S Hl Em Ex Hb (Hwalk & Hle & Hin & Hroom & Hcon) Harcs HD HP HX HB. pose proof (pase_loaded_length _ _ _ S) as Hlen.
  pose proof (pp_pos pre) as HW. pose proof (pp_fit pre) as Hfit. destruct (sh_busy _ _ _ S v Hb) as [Hv Hd].
  pose proof (pp_heur pre _ _ Hv (pp_destination pre)) as Hh.
  assert (S' : shared t' m loaded).
  { destruct S as [S1 S2 S3 S4 S5 S6 S7 S8 S9 S10 S11 S12 S13]. split; auto.
    - rewrite Hl. exact S1.
    - intros y Hy. unfold key_of. rewrite HD. auto.
    - intros y. unfold key_of. rewrite HD, HX. case_decide; [discriminate|auto].
    - apply (tree_inv_ext _ _ _ (D t) (Pr t)); auto.
    - intros y. rewrite HX, HB. case_decide as E.
      + intros _. subst y. split; [exact Hb|]. intros y w Hy. rewrite HD. specialize (Harcs y w Hy).
        assert (w <= Wmax) by (apply (pp_weight pre v y w); split; assumption). nia.
      + intros Hy. destruct (S8 y Hy) as [H1 H2]. split; [exact H1|]. intros z w. rewrite HD. apply H2.
    - intros y. rewrite HB, HD. auto.
    - split; [apply S10|]. intros y. rewrite HB. apply S10.
    - intros y. rewrite HD. apply S11.
    - intros Hc y c. rewrite HB, HD. eauto.
    - intros Hc y z w. rewrite HX, !HD. case_decide as E; [|apply (S13 Hc)]. intros _ Hz. subst y.
      rewrite <- (Hcon Hc). auto. }
  apply (shared_remove t' m loaded b x a S' Em). rewrite HX, Ex, decide_True; reflexivity.
Qed.

(** Outcome of a step of a worker: never an error, and the invariant again. *)
Definition step_ok (id : Z) s : Prop := exists s' loaded', wstep id s = Ok s' /\ inv s' loaded'.

Section one_step.
Context (id : Z) (s : global) (loaded : list Z) (I0 : inv s loaded).

Lemma global_eta : mkGlobal (table s) (peb s) (M s) (locked s) (is_done s) (workers s) = s.
Proof. destruct s; reflexivity. Qed.

(** The worker moves on; table and multimap are as they were. *)
Lemma pase_inv_goto p pb' lk' dn' : (forall q, pb' = Some q -> Z.of_nat (length q) = N) ->
  (holds p = true <-> lk' = Some id) -> (forall i, i <> id -> locked s = Some i <-> lk' = Some i) ->
  wok (table s) (M s) loaded p -> node_of p = None \/ node_of p = node_of (workers s id) ->
  (dn' = true -> B (table s) destination = true) ->
  inv (mkGlobal (table s) pb' (M s) lk' dn' (upd (workers s) id p)) loaded.
Proof.
  intros Hpb Hp Hlk Hw Hn Hdn. apply (inv_step s loaded); auto.
  - inv_field I0.
  - intros it i jt v H1 C1 Hi H2 C2. destruct Hn as [Hn|Hn]; [congruence|]. rewrite Hn in H1.
    apply Hi. eapply (in_unique _ _ I0); eauto.
Qed.

(** ... under the lock or outside it, throughout. *)
Lemma inv_stay p : holds p = holds (workers s id) -> wok (table s) (M s) loaded p ->
  node_of p = None \/ node_of p = node_of (workers s id) -> inv (goto s id p) loaded.
Proof.
  intros Hh Hw Hn. refine (pase_inv_goto p _ _ _ (in_peb _ _ I0) _ _ Hw Hn (in_done _ _ I0)); [|reflexivity].
  rewrite Hh. apply (in_lock _ _ I0).
Qed.

(** Taking and releasing the lock. *)
Lemma inv_take (lk : mutex) p : mutex_lock (locked s) id = Some lk -> holds p = true -> wok (table s) (M s) loaded p ->
  node_of p = None \/ node_of p = node_of (workers s id) -> inv (goto (set_locked s lk) id p) loaded.
Proof.
  unfold mutex_lock. destruct (locked s) eqn:El; [discriminate|]. intros [= <-] Hh Hw Hn.
  refine (pase_inv_goto p _ _ _ (in_peb _ _ I0) _ _ Hw Hn (in_done _ _ I0)); [rewrite Hh; split; auto|].
  intros i Hi. rewrite El. split; [discriminate|intros [= E]; congruence].
Qed.

Lemma inv_release p : holds (workers s id) = true -> holds p = false -> wok (table s) (M s) loaded p ->
  node_of p = None \/ node_of p = node_of (workers s id) ->
  inv (goto (set_locked s (mutex_unlock (locked s))) id p) loaded.
Proof.
  intros Hh Hp Hw Hn. pose proof (proj1 (in_lock _ _ I0 id) Hh) as El.
  refine (pase_inv_goto p _ _ _ (in_peb _ _ I0) _ _ Hw Hn (in_done _ _ I0)); [rewrite Hp; split; discriminate|].
  intros i Hi. rewrite El. unfold mutex_unlock. split; [intros [= E]; congruence|discriminate].
Qed.

(** Nobody else looks into the multimap while this worker holds the lock. *)
Lemma others_outside i : i <> id -> holds (workers s id) = true -> holds (workers s i) = false.
Proof.
  intros Hi Hh. destruct (holds (workers s i)) eqn:E; [|reflexivity]. apply (in_lock _ _ I0) in Hh, E. congruence.
Qed.

Lemma table_at v : 0 <= v < N -> exists a, aget (table s) v = Ok a /\ D (table s) v = g a /\ Pr (table s) v = pred a /\
  X (table s) v = is_expanded a /\ B (table s) v = being_expanded a.
Proof.
  intros Hv. destruct (aget_in (table s) v) as [a Ea]; [rewrite (sh_len _ _ _ (in_shared _ _ I0)); exact Hv|].
  exists a. split; [exact Ea|]. apply table_get. exact Ea.
Qed.

Lemma step_chosen it : workers s id = Chosen it -> step_ok id s.
Proof.
  intros Ep. pose proof (in_workers _ _ I0 id) as W. rewrite Ep in W. destruct W as (v & C & Hn).
  destruct (locate_claim _ _ _ _ _ (in_shared _ _ I0) C) as (b & x & a & El & _ & _ & Ev).
  destruct C as (y & Hy & Ey & Esy & Hb & Hx).
  pose proof (sh_busy _ _ _ (in_shared _ _ I0) v Hb) as [Hv _].
  assert (exists pb, match peb s with Some p => p ← aset p v id; Ok (Some p) | None => Ok None end = Ok pb /\
    forall p, pb = Some p -> Z.of_nat (length p) = N) as (pb & Epb & Hpb).
  { pose proof (in_peb _ _ I0) as Hp. destruct (peb s) as [ps|]; [|eexists; split; [reflexivity|discriminate]].
    specialize (Hp ps eq_refl). rewrite aset_in, bind_ok_l by lia. eexists. split; [reflexivity|].
    intros p [= <-]. rewrite length_insert. exact Hp. }
  eexists _, loaded. unfold Pase.wstep. rewrite Ep, El, bind_ok_l, Ev, Epb, bind_ok_l. split; [reflexivity|].
  apply pase_inv_goto; [exact Hpb| |reflexivity| | |exact (in_done _ _ I0)].
  - rewrite <- (in_lock _ _ I0), Ep. destruct (v =? destination); reflexivity.
  - destruct (Z.eqb_spec v destination) as [E|E]; cbn; [rewrite <- E; exact Hb|]. split; [|exact Hn].
    exists y. auto.
  - rewrite Ep. destruct (v =? destination); auto.
Qed.

Lemma pase_step_read it v : workers s id = ReadG it v -> step_ok id s.
Proof using I0 pre.
  intros Ep. pose proof (in_workers _ _ I0 id) as W. rewrite Ep in W. destruct W as (C & Hn).
  pose proof (in_shared _ _ I0) as S. pose proof C as (y & Hy & Ey & Esy & Hb & Hx).
  pose proof (sh_busy _ _ _ S v Hb) as [Hv Hd]. destruct (table_at v Hv) as (a & Ea & Da & _).
  pose proof (pp_pos pre) as HW. pose proof (sh_bound _ _ _ S v Hd) as Hbd.
  exists (goto s id (LockRelax it v (g a))), (v :: loaded). unfold Pase.wstep. rewrite Ep, Ea. split; [reflexivity|].
  assert (S' : shared (table s) (M s) (v :: loaded)).
  { destruct S. split; auto.
    - destruct sh_loaded0 as [H1 H2]. split; [constructor; assumption|]. intros x [->|Hin]%elem_of_cons; auto.
    - intros x Hxd. specialize (sh_bound0 x Hxd). cbn [length]. nia. }
  apply (inv_step s loaded); auto.
  - inv_field I0.
  - rewrite <- (in_lock _ _ I0), Ep. reflexivity.
  - cbn. split; [exact C|]. rewrite <- Da. split; [apply (ti_walk _ _ _ _ _ (sh_tree _ _ _ S)); exact Hd|].
    split; [lia|]. split; [left|]. split; [cbn [length]; lia|reflexivity].
  - intros i Hi Wi. eapply (wok_mono (table s) (M s) loaded); eauto; try lia; [|intros; right; assumption|cbn; lia].
    intros jt v' Hj C' Hn'. apply not_elem_of_cons. split; [|exact Hn']. intros ->. apply Hi.
    eapply (in_unique _ _ I0 i id jt it v); [exact Hj|rewrite Ep; reflexivity|exact C'|exact C].
  - intros jt i j2 v' [= <-] C1 Hi Hj C2. apply Hi. eapply (in_unique _ _ I0 i id j2 it v'); eauto. rewrite Ep. reflexivity.
  - inv_field I0.
Qed.
Lemma independent_ok v l valid : 0 <= v < N -> D (table s) v < INT_MAX -> (forall u, u ∈ l -> u ∈ nodes (M s)) ->
  exists r, independent heuristic (table s) v l valid = Ok r /\
    (r = true -> valid = true /\ forall u, u ∈ l -> D (table s) v <= D (table s) (second u) + heuristic (second u) v).
Proof using I0 pre.
  intros Hv Hd. pose proof (in_shared _ _ I0) as S. revert valid.
  induction l as [|u l IH]; intros valid Hl; cbn [independent].
  { exists valid. split; [reflexivity|]. intros ->. split; [reflexivity|]. intros u Hu. inversion Hu. }
  destruct valid; [|exists false; split; [reflexivity|discriminate]].
  destruct (sh_node _ _ _ S u) as (Hur & Hud & _); [apply Hl; left|].
  destruct (table_at _ Hur) as (a & Ea & Da & _). destruct (table_at v Hv) as (a' & Ea' & Da' & _).
  rewrite Ea, Ea', !bind_ok_l, <- Da, <- Da'.
  pose proof (pp_heur pre _ _ Hur Hv). pose proof (sh_bound _ _ _ S _ Hud) as Hb. pose proof (pase_loaded_length _ _ _ S).
  pose proof (pase_D_nonneg _ _ _ (second u) S). pose proof (pp_pos pre). pose proof (pp_fit pre) as Hfit.
  assert (Z.of_nat (length loaded) * Wmax <= N * Wmax) by nia.
  rewrite add_int_in, bind_ok_l by (unfold int_min; change (int_max int32) with INT_MAX; unfold INT_MAX in *; cbn in *; lia).
  destruct (IH (D (table s) v <=? D (table s) (second u) + heuristic (second u) v)) as (r & -> & Hr); [intros z Hz; apply Hl; right; exact Hz|].
  exists r. split; [reflexivity|]. intros Er. destruct (Hr Er) as [Hle%Z.leb_le Hall]. split; [reflexivity|].
  intros z [->|Hz]%elem_of_cons; auto.
Qed.

Lemma head_in b x a : wok (table s) (mkMap (b ++ x :: a) (fresh (M s))) loaded (Find (head_of a)).
Proof.
  destruct a as [|y a]; cbn; [exact I|]. exists y. split; [|reflexivity]. apply elem_of_app. right. right. left.
Qed.

Lemma step_find itv : workers s id = Find (Some itv) -> is_done s = false -> step_ok id s.
Proof using I0 pre.
  intros Ep Edn. pose proof (in_workers _ _ I0 id) as W. rewrite Ep in W. destruct W as (x & Hx & Enx).
  pose proof (in_shared _ _ I0) as S. destruct (split_at_in itv (nodes (M s)) x Hx Enx (sh_nodup _ _ _ S)) as (b & a & El).
  destruct (split_at_Some _ _ _ _ _ El) as [Em _]. destruct (sh_node _ _ _ S x Hx) as (Hv & Hd & _).
  set (v := second x) in *. destruct (table_at v Hv) as (sv & Ea & Da & Pa & Xa & Ba).
  assert (Hh : holds (workers s id) = true) by (rewrite Ep; reflexivity).
  assert (Hlk : forall q, holds q = true -> holds q = true <-> locked s = Some id).
  { intros q ->. split; [intros _; apply (in_lock _ _ I0); exact Hh|reflexivity]. }
  unfold step_ok, Pase.wstep. rewrite Ep, Edn. unfold find_step, locate. rewrite El, bind_ok_l. fold v. rewrite Ea, bind_ok_l.
  destruct (is_expanded sv) eqn:Ex.
  - unfold remove_locked, locate. rewrite El, !bind_ok_l. eexists _, loaded. split; [reflexivity|].
    pose proof (shared_remove _ _ _ _ _ _ S Em Xa) as S'.
    assert (Hclaim : forall it v', claim (table s) (M s) it v' -> claim (table s) (mkMap (b ++ a) (fresh (M s))) it v').
    { intros it v' C. apply (claim_remove _ _ loaded b x a); auto. intros Heq. destruct C as (_ & _ & _ & _ & _ & C).
      fold v in Heq. rewrite Heq in Xa. congruence. }
    apply (inv_step s loaded); auto.
    + apply (in_peb _ _ I0).
    + destruct a as [|y a]; cbn; [exact I|]. exists y. split; [|reflexivity]. apply elem_of_app. right. left.
    + intros i Hi Wi. eapply (wok_mono (table s) (M s) loaded); eauto; [intros; cbn; lia|].
      intros it Ei. pose proof (others_outside i Hi Hh) as Ho. rewrite Ei in Ho. discriminate.
    + intros it i jt v' Hn. destruct a; discriminate.
    + apply (in_done _ _ I0).
  - destruct (independent_ok v b (negb (being_expanded sv)) Hv Hd) as (valid & -> & Hvalid).
    { intros u Hu. rewrite Em. apply elem_of_app. left. exact Hu. }
    rewrite bind_ok_l. destruct valid.
    2:{ eexists _, loaded. split; [reflexivity|]. apply inv_stay; [rewrite Ep; reflexivity| |left; destruct a; reflexivity].
        pose proof (head_in b x a) as Hw. rewrite <- Em in Hw. destruct (M s); exact Hw. }
    destruct (Hvalid eq_refl) as [Hb Hind]. apply negb_true_iff in Hb. pose proof (aget_bounds _ _ _ Ea) as Hbd.
    rewrite aset_in, bind_ok_l by exact Hbd. eexists _, loaded. split; [reflexivity|].
    destruct (table_set (table s) v (mkState false true (g sv) (pred sv)) Hbd) as (D1 & P1 & X1 & B1).
    set (t' := <[Z.to_nat v := _]> (table s)) in *. cbn in D1, P1, X1, B1.
    assert (D1' : forall y, D t' y = D (table s) y) by (intros y; rewrite D1; case_decide; congruence).
    assert (X1' : forall y, X t' y = X (table s) y) by (intros y; rewrite X1; case_decide; congruence).
    assert (B1' : forall y, B t' y = true <-> B (table s) y = true \/ y = v).
    { intros y. rewrite B1. case_decide; subst; intuition congruence. }
    assert (S' : shared t' (M s) loaded).
    { apply (shared_flag (table s) t' (M s) loaded v); auto.
      - apply length_insert.
      - intros y. rewrite P1. case_decide; congruence.
      - intros Hcon c. apply (independent_optimal (table s) (M s) loaded b x a c S Hcon Em Hind). }
    assert (Hclaim : forall it v', claim (table s) (M s) it v' -> claim t' (M s) it v').
    { intros it v' (y & H1 & H2 & H3 & H4 & H5). exists y. rewrite X1'. split_and!; auto. apply B1'. auto. }
    rewrite <- Ba in Hb. apply (inv_step s loaded); auto.
    + apply (in_peb _ _ I0).
    + cbn. exists v. split; [exists x; rewrite X1', Xa; split_and!; auto; apply B1'; auto|].
      intros Hin. pose proof (proj2 (sh_loaded _ _ _ S) v Hin). congruence.
    + intros i Hi Wi. eapply (wok_mono (table s) (M s) loaded); eauto; [intros y Hy; apply B1'; auto|intros y; rewrite D1'; lia].
    + intros it i jt v' [= <-] C' Hi Hj (_ & _ & _ & _ & Hbv & _).
      assert (claim t' (M s) itv v) as C. { exists x. rewrite X1', Xa. split_and!; auto. apply B1'. auto. }
      rewrite (claim_fun _ _ _ _ _ _ S' C' C) in Hbv. congruence.
    + intros Hdn. cbn in Hdn. congruence.
Qed.
Lemma pase_step_relax it v vd nbr w todo : workers s id = Relax it v vd ((nbr, w) :: todo) -> step_ok id s.
Proof using I0 pre.
  intros Ep. pose proof (in_workers _ _ I0 id) as W. rewrite Ep in W. destruct W as (C & Hdist & Htodo & Harcs).
  pose proof (in_shared _ _ I0) as S. assert (Hh : holds (workers s id) = true) by (rewrite Ep; reflexivity).
  pose proof C as (x & Hx & Ex & Esx & Hb & HX). pose proof (sh_busy _ _ _ S v Hb) as [Hv Hd].
  assert (He : edge v nbr w) by (split; [exact Hv|apply Htodo; left]).
  pose proof Hdist as (Hwalk & Hle & Hin & Hroom & Hcon). pose proof (pase_loaded_length _ _ _ S) as Hlen.
  pose proof (arc_nonneg gr _ _ _ He) as Hw0. pose proof (pp_weight pre _ _ _ He) as Hw. pose proof (pp_pos pre) as HW.
  pose proof (pp_fit pre) as Hfit. pose proof (arc_range gr _ _ _ He) as Hnr. pose proof (pp_heur pre _ _ Hnr (pp_destination pre)) as Hhr.
  pose proof (walk_nonneg edge (arc_nonneg gr) _ _ _ Hwalk) as Hvd0.
  assert (Hsum : vd + w <= N * Wmax) by nia. assert (HI : INT_MAX = int_max int32) by reflexivity.
  destruct (table_at nbr Hnr) as (a & Ea & Da & Pa & Xa & Ba). pose proof (aget_bounds _ _ _ Ea) as Hbd.
  assert (Htail : forall e, e ∈ todo -> e ∈ succs gr v) by (intros e Hin'; apply Htodo; right; exact Hin').
  unfold step_ok, Pase.wstep. rewrite Ep. unfold relax.
  rewrite add_int_in, bind_ok_l, Ea, bind_ok_l by (unfold int_min; lia). rewrite <- Da.
  destruct (Z.ltb_spec (vd + w) (D (table s) nbr)) as [Hlt|Hge].
  - rewrite aset_in, bind_ok_l, add_int_in, !bind_ok_l by (exact Hbd || unfold int_min; lia).
    eexists _, loaded. split; [reflexivity|].
    destruct (table_set (table s) nbr (mkState (is_expanded a) (being_expanded a) (vd + w) v) Hbd) as (D1 & P1 & X1 & B1).
    set (t' := <[Z.to_nat nbr := _]> (table s)) in *. cbn in D1, P1, X1, B1.
    set (m' := insert_locked _ nbr (M s)).
    assert (X1' : forall y, X t' y = X (table s) y) by (intros y; rewrite X1; case_decide; congruence).
    assert (B1' : forall y, B t' y = B (table s) y) by (intros y; rewrite B1; case_decide; congruence).
    assert (S' : shared t' m' loaded).
    { apply (shared_relax (table s) t' (M s) loaded v vd nbr w); auto. apply length_insert. }
    assert (Hclaim : forall jt v', claim (table s) (M s) jt v' -> claim t' m' jt v').
    { intros jt v' (y & H1 & H2 & H3 & H4 & H5). exists y. rewrite X1', B1'. split_and!; auto.
      cbn. rewrite insert_node_perm. right. exact H1. }
    assert (Hmono : forall y, D t' y <= D (table s) y) by (intros y; rewrite D1; case_decide; subst; lia).
    apply (inv_step s loaded); auto.
    + apply (in_peb _ _ I0).
    + rewrite <- (in_lock _ _ I0), Ep. reflexivity.
    + cbn. split; [apply Hclaim; exact C|]. split; [|split; [exact Htail|]].
      * rewrite <- (B1' v) in Hb. assert (Hne : v <> nbr) by (intros ->; lia).
        split; [exact Hwalk|]. rewrite D1, decide_False by exact Hne. auto.
      * intros y w' Hy. destruct (Harcs y w' Hy) as [[[= -> ->]|H1]%elem_of_cons|H1]; [|auto|].
        -- right. rewrite D1, decide_True by reflexivity. lia.
        -- right. pose proof (Hmono y). lia.
    + intros i Hi Wi. eapply (wok_mono (table s) (M s) loaded); eauto. intros jt Ei. pose proof (others_outside i Hi Hh) as Ho. rewrite Ei in Ho. discriminate.
    + intros jt i j2 v' [= <-] C1 Hi Hj C2. apply Hi. rewrite (claim_fun _ _ _ _ _ _ S' C1 (Hclaim _ _ C)) in C2.
      eapply (in_unique _ _ I0 i id j2 it v); eauto. rewrite Ep. reflexivity.
    + intros Hdn. cbn. rewrite B1'. apply (in_done _ _ I0). exact Hdn.
  - rewrite bind_ok_l. eexists _, loaded. split; [reflexivity|].
    assert (I1 : inv (goto s id (Relax it v vd todo)) loaded); [|destruct s; exact I1].
    apply inv_stay; [rewrite Ep; reflexivity| |rewrite Ep; auto]. cbn. split; [exact C|]. split; [exact Hdist|]. split; [exact Htail|].
    intros y w' Hy. destruct (Harcs y w' Hy) as [[[= -> ->]|H1]%elem_of_cons|H1]; auto.
Qed.

Lemma step_finish it v vd : workers s id = Relax it v vd [] -> step_ok id s.
Proof using I0 pre.
  intros Ep. pose proof (in_workers _ _ I0 id) as W. rewrite Ep in W. destruct W as (C & Hdist & _ & Harcs).
  pose proof (in_shared _ _ I0) as S. assert (Hh : holds (workers s id) = true) by (rewrite Ep; reflexivity).
  destruct (locate_claim _ _ _ _ _ S C) as (b & x & a & El & Em & Ex & Esx).
  pose proof C as (_ & _ & _ & _ & Hb & HX). pose proof (sh_busy _ _ _ S v Hb) as [Hv Hd].
  destruct (table_at v Hv) as (sv & Ea & Da & Pa & Xa & Ba). pose proof (aget_bounds _ _ _ Ea) as Hbd.
  unfold step_ok, Pase.wstep. rewrite Ep, Ea, bind_ok_l, aset_in, bind_ok_l by exact Hbd.
  unfold remove_locked. rewrite El, !bind_ok_l. eexists _, loaded. split; [reflexivity|].
  destruct (table_set (table s) v (mkState true (being_expanded sv) (g sv) (pred sv)) Hbd) as (D1 & P1 & X1 & B1).
  set (t' := <[Z.to_nat v := _]> (table s)) in *. cbn in D1, P1, X1, B1.
  assert (D1' : forall y, D t' y = D (table s) y) by (intros y; rewrite D1; case_decide; congruence).
  assert (B1' : forall y, B t' y = B (table s) y) by (intros y; rewrite B1; case_decide; congruence).
  assert (S' : shared t' (mkMap (b ++ a) (fresh (M s))) loaded).
  { apply (shared_expand (table s) t' (M s) loaded v vd b x a); try (apply length_insert); auto.
    - intros y w Hy. destruct (Harcs y w Hy) as [H1|H1]; [inversion H1|exact H1].
    - intros y. rewrite P1. case_decide; congruence. }
  assert (Hother : forall i jt v', i <> id -> node_of (workers s i) = Some jt -> claim (table s) (M s) jt v' -> v' <> v).
  { intros i jt v' Hi Hn C' ->. apply Hi. eapply (in_unique _ _ I0 i id jt it v); eauto. rewrite Ep. reflexivity. }
  assert (Hclaim : forall i jt v', i <> id -> node_of (workers s i) = Some jt -> claim (table s) (M s) jt v' ->
    claim t' (mkMap (b ++ a) (fresh (M s))) jt v').
  { intros i jt v' Hi Hn C'. pose proof (Hother i jt v' Hi Hn C') as Hne.
    destruct (claim_remove _ _ loaded b x a jt v' S Em) as (y & H1 & H2 & H3 & H4 & H5); [congruence|exact C'|].
    exists y. rewrite B1', X1, decide_False by exact Hne. auto. }
  apply (inv_step s loaded); auto.
  - apply (in_peb _ _ I0).
  - rewrite <- (in_lock _ _ I0), Ep. reflexivity.
  - exact I.
  - intros i Hi Wi. eapply (wok_mono (table s) (M s) loaded); eauto.
    + intros y. cbn. rewrite D1'. lia.
    + intros jt Ei. pose proof (others_outside i Hi Hh) as Ho. rewrite Ei in Ho. discriminate.
  - intros jt i j2 v'. discriminate.
  - intros Hdn. cbn. rewrite B1'. apply (in_done _ _ I0). exact Hdn.
Qed.

Lemma arcs_of_all v : 0 <= v < N -> arcs_of gr v = Ok (succs gr v).
Proof.
  intros Hv. unfold arcs_of. rewrite for_each_law by exact Hv.
  enough (K : forall (acc l : list (Z * Z)), foldM (fun acc '(u, w) => Ok (acc ++ [(u, w)])) acc l = Ok (acc ++ l)) by apply K.
  intros acc l. revert acc. induction l as [|[u w] l IH]; intros acc; cbn; [rewrite app_nil_r; reflexivity|].
  rewrite IH, <- (assoc_L (++)). reflexivity.
Qed.

Lemma pase_step_any : step_ok id s.
Proof using I0 pre.
  destruct (workers s id) as [| |[itv|]|r|it| |it v|it v vd|it v vd todo| |] eqn:Ep; pose proof (in_workers _ _ I0 id) as W; rewrite Ep in W.
  - eexists _, loaded. unfold Pase.wstep. rewrite Ep. split; [reflexivity|]. apply inv_stay.
    + rewrite Ep. destruct (is_done s); reflexivity.
    + destruct (is_done s); exact I.
    + left. destruct (is_done s); reflexivity.
  - unfold step_ok, Pase.wstep. rewrite Ep. destruct (mutex_lock (locked s) id) as [lk|] eqn:El.
    + eexists _, loaded. split; [reflexivity|]. apply inv_take; [exact El|reflexivity| |auto].
      unfold begin_. destruct (nodes (M s)) as [|y l] eqn:En; cbn; [exact I|]. exists y. rewrite En. split; [left|reflexivity].
    + eexists _, loaded. split; [reflexivity|exact I0].
  - destruct (is_done s) eqn:Ed; [|eapply step_find; eassumption].
    eexists _, loaded. unfold Pase.wstep. rewrite Ep, Ed. split; [reflexivity|]. apply inv_stay; [rewrite Ep; reflexivity|exact I|auto].
  - exists (goto s id (UnlockFind None)), loaded. unfold Pase.wstep. rewrite Ep. split; [destruct (is_done s); reflexivity|].
    apply inv_stay; [rewrite Ep; reflexivity|exact I|auto].
  - eexists _, loaded. unfold Pase.wstep. rewrite Ep. split; [reflexivity|].
    apply inv_release; [rewrite Ep; reflexivity|destruct r; reflexivity|destruct r; exact W|rewrite Ep; destruct r; auto].
  - eapply step_chosen. exact Ep.
  - eexists _, loaded. unfold Pase.wstep. rewrite Ep. split; [reflexivity|].
    apply pase_inv_goto; [apply (in_peb _ _ I0)| |reflexivity|exact I|auto|intros _; exact W].
    rewrite <- (in_lock _ _ I0), Ep. reflexivity.
  - eapply pase_step_read. exact Ep.
  - unfold step_ok, Pase.wstep. rewrite Ep. destruct (mutex_lock (locked s) id) as [lk|] eqn:El.
    + pose proof W as [(_ & _ & _ & _ & Hb & _) Hdist]. destruct (sh_busy _ _ _ (in_shared _ _ I0) v Hb) as [Hv _].
      rewrite (arcs_of_all v Hv), bind_ok_l. eexists _, loaded. split; [reflexivity|].
      apply inv_take; [exact El|reflexivity| |rewrite Ep; auto]. cbn. destruct W as [C _]. split; [exact C|]. split; [exact Hdist|].
      split; [auto|]. intros y w Hy. left. exact Hy.
    + eexists _, loaded. split; [reflexivity|exact I0].
  - destruct todo as [|[nbr w] todo]; [eapply step_finish|eapply pase_step_relax]; exact Ep.
  - eexists _, loaded. unfold Pase.wstep. rewrite Ep. split; [reflexivity|].
    apply inv_release; [rewrite Ep; reflexivity|reflexivity|exact I|auto].
  - eexists _, loaded. unfold Pase.wstep. rewrite Ep. split; [reflexivity|exact I0].
Qed.
End one_step.

(** ** Runs *)

Lemma pase_start_ok pebble : exists s0, start gr heuristic source destination pebble = Ok s0 /\ inv s0 [].
Proof using pre.
  pose proof (pp_source pre) as Hs. pose proof (pp_heur pre _ _ Hs (pp_destination pre)) as Hh. pose proof (pp_pos pre) as HW.
  set (t := replicate (Z.to_nat N) (mkState false false INT_MAX (-1))).
  assert (Hlen : Z.of_nat (length t) = N) by (unfold t; rewrite length_replicate; lia).
  destruct (aget_in t source) as [a Ea]; [lia|]. unfold start. fold t. rewrite Ea, bind_ok_l, aset_in, bind_ok_l by lia.
  eexists. split; [reflexivity|].
  assert (Ha : a = mkState false false INT_MAX (-1)).
  { unfold aget in Ea. rewrite (proj2 (Z.leb_le 0 source)) in Ea by lia. unfold t in Ea.
    rewrite lookup_replicate_2 in Ea by lia. injection Ea as <-. reflexivity. }
  subst a. cbn [is_expanded being_expanded pred].
  destruct (table_set t source (mkState false false 0 (-1)) ltac:(lia)) as (D1 & P1 & X1 & B1).
  set (t' := <[Z.to_nat source := _]> t) in *. cbn in D1, P1, X1, B1.
  assert (V : forall y, D t y = INT_MAX /\ Pr t y = -1 /\ X t y = false /\ B t y = false).
  { intros y. pose proof (fun (C : Type) (f : pase_state -> C) => aview_replicate f (Z.to_nat N) (mkState false false INT_MAX (-1)) y) as K.
    split_and!; [apply (K _ g)|apply (K _ pred)|apply (K _ is_expanded)|apply (K _ being_expanded)]. }
  assert (D2 : forall y, D t' y < INT_MAX -> y = source).
  { intros y. rewrite D1. case_decide; [auto|]. destruct (V y) as [-> _]. lia. }
  assert (X2 : forall y, X t' y = false) by (intros y; rewrite X1; case_decide; [reflexivity|apply V]).
  assert (B2 : forall y, B t' y = false) by (intros y; rewrite B1; case_decide; [reflexivity|apply V]).
  assert (Ds : D t' source = 0) by (rewrite D1, decide_True; reflexivity).
  split; cbn; try (intros; exact I); try discriminate.
  - split; cbn; try (intros x; rewrite ?X2, ?B2; discriminate).
    + unfold t'. rewrite length_insert. exact Hlen.
    + repeat constructor.
    + apply NoDup_singleton.
    + intros x ->%list_elem_of_singleton. cbn. lia.
    + intros x ->%list_elem_of_singleton. unfold key_of. cbn. rewrite Ds. split; [exact Hs|]. split; [reflexivity|lia].
    + intros x Hx _. rewrite (D2 x Hx). eexists. split; [left|]. unfold key_of. rewrite Ds. cbn. auto.
    + apply tree_inv_init; [reflexivity|exact Ds|]. intros y Hy. rewrite D1, decide_False by exact Hy. destruct (V y) as [-> _]. apply Z.le_refl.
    + split; [constructor|]. intros x Hx. inversion Hx.
    + intros x Hx. rewrite (D2 x Hx), Ds. lia.
    + intros _ x c. rewrite B2. discriminate.
    + intros _ x y w. rewrite X2. discriminate.
  - intros p. destruct pebble; [|discriminate]. intros [= <-]. rewrite length_replicate. lia.
  - intros i. split; discriminate.
Qed.

Lemma reach_inv pebble s0 s : start gr heuristic source destination pebble = Ok s0 -> steps s0 s -> exists loaded, inv s loaded.
Proof using pre.
  intros Es Hr. destruct (pase_start_ok pebble) as (s1 & E1 & I1). rewrite Es in E1. injection E1 as <-.
  apply (rtc_invariant (step gr heuristic destination) (fun s => exists loaded, inv s loaded) s0 s); [|exact Hr|eauto].
  intros a b (loaded & Ia) [id Hab]. destruct (pase_step_any id a loaded Ia) as (b' & ld' & E' & Ib).
  rewrite E' in Hab. injection Hab as <-. eauto.
Qed.

Lemma pase_result_methods s loaded y : inv s loaded -> 0 <= y < N ->
  Interfaces.g (result gr s) y = Ok (D (table s) y) /\
  predecessor (result gr s) y = Ok (Pr (table s) y) /\
  Interfaces.is_expanded (result gr s) y = Ok (X (table s) y).
Proof.
  intros I0 Hy. destruct (table_at s loaded I0 y Hy) as (a & Ea & -> & -> & -> & _). cbn. rewrite Ea. auto.
Qed.

Lemma pase_path_in s loaded x : inv s loaded -> D (table s) x < INT_MAX ->
  exists p, path_to edge (result gr s) source x (D (table s) x) p.
Proof using pre.
  intros I0 Hx. apply (tree_path_to gr INT_MAX source (D (table s)) (Pr (table s)) (result gr s) x
    (pp_source pre) (sh_tree _ _ _ (in_shared _ _ I0))); [|exact Hx].
  intros y Hy. destruct (pase_result_methods s loaded y I0 Hy) as (H1 & H2 & _). auto.
Qed.

Lemma g_result s x d : Interfaces.g (result gr s) x = Ok d -> d = D (table s) x.
Proof. cbn. intros (a & Ea & [= <-])%bind_Ok. symmetry. apply (table_get _ _ _ Ea). Qed.

(** C25: [pase] can start, and in every interleaving no step of any worker
    fails: no worker uses an iterator whose node another has erased, no array is
    accessed out of bounds, no sum overflows.  At most one worker is between
    lock and unlock, two workers never expand the same vertex at once, and the
    predecessors of every vertex with a finite g-value are a path from the
    source that its g-value pays for. *)
Theorem pase_safe pebble :
  exists s0, start gr heuristic source destination pebble = Ok s0 /\ forall s, steps s0 s ->
    (forall id, exists s', wstep id s = Ok s') /\
    (forall i j, holds (workers s i) = true -> holds (workers s j) = true -> i = j) /\
    (forall i j it jt v vd ud todo, workers s i = LockRelax it v vd ->
       workers s j = LockRelax jt v ud \/ workers s j = Relax jt v ud todo -> i = j) /\
    (forall x d, Interfaces.g (result gr s) x = Ok d -> d < INT_MAX ->
       exists p, path_to edge (result gr s) source x d p).
Proof using pre.
  destruct (pase_start_ok pebble) as (s0 & Es & _). exists s0. split; [exact Es|]. intros s Hr.
  destruct (reach_inv pebble s0 s Es Hr) as (loaded & I0). split; [|split; [|split]].
  - intros id. destruct (pase_step_any id s loaded I0) as (s' & _ & E' & _). eauto.
  - intros i j Hi%(in_lock _ _ I0) Hj%(in_lock _ _ I0). congruence.
  - intros i j it jt v vd ud todo Ei Ej. pose proof (in_workers _ _ I0 i) as Wi. pose proof (in_workers _ _ I0 j) as Wj.
    rewrite Ei in Wi. destruct Wi as [Ci _]. destruct Ej as [Ej|Ej]; rewrite Ej in Wj; destruct Wj as [Cj _];
      (eapply (in_unique _ _ I0 i j it jt v); [rewrite Ei|rewrite Ej| |]; auto).
  - intros x d Hg Hd. rewrite (g_result _ _ _ Hg) in *. apply (pase_path_in s loaded x I0 Hd).
Qed.

(** [pase] stops only with a path to the destination, and loses no vertex:
    once the flag is set the destination is reached and its predecessors are a
    path to it, and when the multimap is empty every vertex that can be reached
    has been expanded. *)
Theorem pase_done pebble s0 s : start gr heuristic source destination pebble = Ok s0 -> steps s0 s ->
  (is_done s = true -> exists d p, Interfaces.g (result gr s) destination = Ok d /\
     path_to edge (result gr s) source destination d p) /\
  (nodes (M s) = [] -> forall x, reachable edge source x -> Interfaces.is_expanded (result gr s) x = Ok true).
Proof using pre.
  intros Es Hr. destruct (reach_inv pebble s0 s Es Hr) as (loaded & I0). pose proof (in_shared _ _ I0) as S. split.
  - intros Hd. pose proof (sh_busy _ _ _ S _ (in_done _ _ I0 Hd)) as [Hran Hf].
    destruct (pase_path_in s loaded destination I0 Hf) as [p Hp]. eexists _, p. split; [|exact Hp].
    apply (pase_result_methods s loaded destination I0 Hran).
  - intros En x Hx.
    assert (Hexp : forall y, D (table s) y < INT_MAX -> X (table s) y = true).
    { intros y Hy. destruct (X (table s) y) eqn:Ey; [reflexivity|]. destruct (sh_open _ _ _ S y Hy Ey) as (z & Hz & _).
      rewrite En in Hz. inversion Hz. }
    assert (Hx' : D (table s) x < INT_MAX).
    { apply (reachable_closed edge (fun y => D (table s) y < INT_MAX) source); [| |exact Hx].
      - rewrite (ti_src _ _ _ _ _ (sh_tree _ _ _ S)). reflexivity.
      - intros u y w Hu [_ Hin]. exact (proj2 (sh_expanded _ _ _ S u (Hexp u Hu)) y w Hin). }
    pose proof (sh_busy _ _ _ S x (proj1 (sh_expanded _ _ _ S x (Hexp x Hx')))) as [Hran _].
    destruct (pase_result_methods s loaded x I0 Hran) as (_ & _ & ->). rewrite Hexp by exact Hx'. reflexivity.
Qed.

(** C6: optimality, with a heuristic that is consistent towards every vertex.
    Whatever the interleaving, no vertex is expanded before its g-value is the
    length of a shortest walk from the source, and once the flag is set the
    g-value of the destination is that of a shortest walk to it. *)
Theorem pase_optimal pebble s0 s : consistent -> start gr heuristic source destination pebble = Ok s0 -> steps s0 s ->
  (forall x, Interfaces.is_expanded (result gr s) x = Ok true ->
     exists d, Interfaces.g (result gr s) x = Ok d /\ walk edge source x d /\ forall c, walk edge source x c -> d <= c) /\
  (is_done s = true -> exists d, Interfaces.g (result gr s) destination = Ok d /\
     walk edge source destination d /\ forall c, walk edge source destination c -> d <= c).
Proof using pre.
  intros Hcon Es Hr. destruct (reach_inv pebble s0 s Es Hr) as (loaded & I0). pose proof (in_shared _ _ I0) as S.
  assert (K : forall x, B (table s) x = true -> exists d, Interfaces.g (result gr s) x = Ok d /\
     walk edge source x d /\ forall c, walk edge source x c -> d <= c).
  { intros x Hb. pose proof (sh_busy _ _ _ S x Hb) as [Hran Hf]. eexists. split; [apply (pase_result_methods s loaded x I0 Hran)|].
    split; [apply (ti_walk _ _ _ _ _ (sh_tree _ _ _ S)); exact Hf|]. intros c. apply (sh_optimal _ _ _ S Hcon). exact Hb. }
  split.
  - intros x Hx. cbn in Hx. apply bind_Ok in Hx as (a & Ea & [= Ha]). destruct (table_get _ _ _ Ea) as (_ & _ & Ex & _).
    apply K, (sh_expanded _ _ _ S). congruence.
  - intros Hd. apply K, (in_done _ _ I0). exact Hd.
Qed.
End specs.

(** ** A concrete run on the sample map *)

Module Instances.
#[local] Existing Instances WGraph.graph_ops Sample.graph_laws.

Definition zero (u v : Z) : Z := 0.

Lemma sample_pre : pase_pre (glaws := Sample.graph_laws) Sample.graph zero 0 4 14142 0.
Proof.
  destruct Sample.graph_pre as [H1 _ H3 H4 _ H6]. split; auto; unfold zero; try lia.
Defined.

Lemma zero_consistent : consistent (glaws := Sample.graph_laws) Sample.graph zero.
Proof. split; [reflexivity|]. unfold zero. intros u v w x He _. pose proof (arc_nonneg Sample.graph _ _ _ He). lia. Defined.

Definition get (r : res global) : global :=
  match r with Ok s => s | Err _ => mkGlobal [] None (mkMap [] 0) None false (fun _ => Halted) end.
Definition initial : global := get (start Sample.graph zero 0 4 true).
(** Two workers, alternating. *)
Definition sched : list Z := concat (repeat [0; 1] 60).
Definition final : global := get (run Sample.graph zero 4 sched initial).

Lemma initial_ok : start Sample.graph zero 0 4 true = Ok initial.
Proof. vm_compute. reflexivity. Qed.

Lemma final_steps : rtc (step Sample.graph zero 4) initial final.
Proof.
  apply (pase_run_steps Sample.graph zero 4 sched). unfold final.
  assert (E : is_ok (run Sample.graph zero 4 sched initial) = true) by (vm_compute; reflexivity).
  apply is_ok_true in E as [s ->]. reflexivity.
Qed.

Lemma pase_safe_witness : exists s0, start Sample.graph zero 0 4 false = Ok s0.
Proof.
  destruct (pase_safe (glaws := Sample.graph_laws) Sample.graph zero 0 4 14142 0 sample_pre false) as (s0 & E0 & _).
  exists s0. exact E0.
Defined.

Lemma pase_done_witness : exists d p, Interfaces.g (result Sample.graph final) 4 = Ok d /\
  path_to (arc (laws := Sample.graph_laws) Sample.graph) (result Sample.graph final) 0 4 d p.
Proof.
  exact (proj1 (pase_done (glaws := Sample.graph_laws) Sample.graph zero 0 4 14142 0 sample_pre true
    initial final initial_ok final_steps) ltac:(vm_compute; reflexivity)).
Defined.

Lemma pase_optimal_witness : Interfaces.g (result Sample.graph final) 4 = Ok 24142 /\
  exists d, Interfaces.g (result Sample.graph final) 4 = Ok d /\
    forall c, walk (arc (laws := Sample.graph_laws) Sample.graph) 0 4 c -> d <= c.
Proof.
  split; [vm_compute; reflexivity|].
  destruct (proj2 (pase_optimal (glaws := Sample.graph_laws) Sample.graph zero 0 4 14142 0 sample_pre true
    initial final zero_consistent initial_ok final_steps) ltac:(vm_compute; reflexivity)) as (d & H1 & _ & H2).
  exists d. split; [exact H1|exact H2].
Defined.
End Instances.
End PaseSpec.
